(* ===== verification/_CoqProject ===== *)
-Q . S2P
Prelude.v
Bits.v
Queue.v
Ring.v
ShmRing.v
ShmRingProps.v
ShmRingConc.v
Route.v
Locks.v
Links.v
DList.v
Timer.v
TimerProps.v
Segment.v
SegmentProofs.v
SegmentProps.v
RbTree.v
RbTreeProofs.v
RbTreeInsert.v
RbTreeErase.v
RbTreeProps.v
FwModule.v
FwModuleProps.v
RbTreeLocal.v
EpList.v
EpollData.v
Epoll.v
EpollPoll.v
EpollInv.v
EpollCtl.v
EpollAlloc.v
EpollOps.v
EpollInfo.v
EpollFrame.v
EpollProps.v
EpollClose.v
EpollFree.v
EpollTable.v
EpollTableOps.v
EpollPollProofs.v
EpollEvents.v
EpollInit.v
EpollWait.v
EpollTheorems.v
EpollService.v
Sha256.v
Sha256Proofs.v
Sha256Props.v
IpAddr.v
IpAddrProps.v
FdLock.v
FdLockProps.v
LwipRbTree.v
LwipRbSim.v
LwipRbProps.v
Ptimer.v
PtimerProofs.v
PtimerRun.v
PtimerProps.v
Select.v
SelectProofs.v
SelectScan.v
SelectList.v
SelectBegin.v
SelectThread.v
SelectProps.v
