(* ===== verification/Prelude.v ===== *)
(** * A verification of parts of DMM

    DMM puts several protocol stacks behind one socket interface.  An application calls the socket functions of src/src/nSocket; a
    routing module chooses the stack of each socket; events of the stacks reach the application through an epoll component of its own; a framework
    underneath (src/src/framework) supplies memory that processes share, rings, lists, timers, the start of modules and locks.  One of the stacks, built on
    lwIP, is in src/stacks/lwip_stack.

    This library translates parts of that code into definitions and proves what makes them correct.  The definitions keep the names
    of the source; a definition that stands for a part of a function says so.

    ** Conventions

    Unsigned 32-bit arithmetic is on [Z] with [wrap32] written out ([⊞], [⊟] below); pointers are addresses or indices; [option] is undefined behaviour (a null or foreign pointer, an array
    access out of range) or, where a function has a fuel argument, the lack of fuel: theorems state that the result is [Some], so they exclude both.  Stateful
    code is state passing, in the larger components through the monad [stM] of this file.  Code outside the repository (the kernel, DPDK, the other stacks, callbacks of the
    application) is an argument of the definitions, and so are the results of [malloc].  Locks that surround a function completely are not part of the state; where the code relies on atomic
    accesses or interleaves with other threads, the steps are the accesses.

    ** Files, and what their theorems show

    - [Prelude], [Bits]: machine integers, arrays, the state monad, bits and bytes of words; the tactics and hints the other files use.
    - [Queue]: the class [BoundedQueue], what a ring promises to the pools that use it.  [Ring]: the ring inside a process (nsfw_nshmem_ring.c), an instance of the class: enqueue and dequeue refine
      a bounded FIFO queue across the wrap-around of their counters, and the unrolled copy loop equals the plain one.  [ShmRing], [ShmRingProps], [ShmRingConc]: the ring in shared memory (nsfw_shmem_ring.c), one access to
      memory per step: on a ring of at least 8 slots each operation run alone refines a FIFO queue, and under every interleaving of producers and consumers no value is lost, doubled or made up.
    - [Route]: the choice of a stack (nstack_rd*.c): longest prefix match in every state that initialisation and synchronisations with mask lengths from 1 to 32 reach; insertion, ageing, initialisation order.
    - [Locks]: spin lock and read-write lock (framework/common/include/generic): mutual exclusion, and a reader that enters beside a writer.
    - [Links], [DList]: the lists of list.c on a memory of nodes simulate sequences.
    - [Timer], [TimerProps]: the timers of nsfw_fd_timer.c over a pool that meets [BoundedQueue]: which callbacks an expiry runs, and an invariant of all registrations, removals and expiries.
    - [Segment], [SegmentProofs], [SegmentProps]: the allocator of named memory (dmm_segment.c): best fit, merging, lookup by name, and a free list that can become cyclic.
    - [RbTree], [RbTreeProofs], [RbTreeInsert], [RbTreeErase], [RbTreeProps], [RbTreeLocal]: the red-black tree of the epoll items (eprb_tree.c) in memory with parent pointers: insertion and erasure keep a balanced
      search tree of exactly the inserted items, in a number of rounds logarithmic in its size.
    - [FwModule], [FwModuleProps]: registration and start of modules (framework/init): every module is started after the module it depends on, each at most once.
    - [EpList], [EpollData], [Epoll], [EpollPoll]: the data and operations of epoll (ephlist.h, nstack_eventpoll.h, nstack_eventpoll.c, nstack_epoll_comm.c, nstack_epoll_ctl of nstack_socket.c, the event callback of
      nstack_dmm_adpt.c).  [EpollInv]: the invariant [einv] that ties items, trees, ready lists, descriptor lists and pools together.  [EpollCtl], [EpollAlloc], [EpollOps], [EpollInfo], [EpollProps]: registration
      implements a map from descriptors to events.  [EpollFrame], [EpollClose], [EpollFree]: what operations leave alone, releasing items,
      informations and event polls.  [EpollTable], [EpollTableOps], [EpollService]: the component as a table of descriptors that every client sees, from creation through registration to closing; closing loses the information
      of a socket that was never registered.  [EpollPollProofs], [EpollEvents]: a poll item by item, interleaved with callbacks.  [EpollInit]: creation of the memory.  [EpollWait]: waiting on the semaphore, with signals and a clock as arguments.
      [EpollTheorems]: the results: creation establishes the invariant, registration refines the map, a poll reports the ready items in order, no event is lost, polls end, a wait alone blocks, or ends without events, only when nothing is ready,
      and the wake-up that gets lost when an event comes in the middle of a poll.
    - [Sha256], [Sha256Proofs], [Sha256Props]: sha256.c computes SHA-256 as FIPS 180-4 defines it, for a message in any pieces.
    - [IpAddr], [IpAddrProps]: addresses as text (stackx_ip_addr.c): the exact grammar that is read, and the round trip.
    - [FdLock], [FdLockProps]: use, closing and release of a descriptor by several threads (nstack_socket.h, nstack_close, release_fd): released once and not while in use, and what goes wrong when its number is used again.
    - [LwipRbTree], [LwipRbSim], [LwipRbProps]: the red-black tree of the lwIP stack (lwip_src/common/rb_tree.c), whose nodes pack parent and colour into one word: read as separate fields, its rotations, insertion and erasure are those of
      [RbTree].  [Ptimer], [PtimerProofs], [PtimerRun], [PtimerProps]: the timers of that stack (spl_timers.c, sys_arch.c): requests through a ring to a thread that keeps them in the tree; in every reachable state they simulate a
      service on plain lists (which, like the code, loses the waiting messages when the ring fills), and no wake-up is lost while delays are positive.
    - [Select]: select over several stacks (select_adapt.c, nstack_select.c, nstack_select of nstack_socket.c), the thread and a call up to its wait also step by step.  [SelectProofs]: descriptor sets and tables.  [SelectScan]: splitting of the sets and the scan.  [SelectList]: the list of waiting
      calls.  [SelectBegin]: a call up to its wait: alone, what it reports; its steps, and that together they are the call.  [SelectThread]: steps of calls, record changes and steps of the thread in any order, with
      their invariant.  [SelectProps]: a poll is exact, every call is served, and an entry that is freed while listed.

    ** Bounds and fuel

    Loops over linked structures have fuel.  Walks in the epoll trees and lists have the number of items, [NSTACK_MAX_EPITEM_NUM], which bounds every such structure because its items come from one pool; the proofs show that the fuel is enough
    under the invariant.  The repair loops of the red-black tree have logarithmic fuel, which is part of what is proved.  Other loops have the length of the list they walk.  Busy waiting is a step that is not enabled.

    ** Not modelled

    The memory manager front ends, process management, messages between processes, hardware abstraction, logging, snapshots and the lwIP stack process apart from the files above: they consist of calls of the kernel, DPDK,
    lwIP, json-c and the logging library, whose sources are not in the repository, and of threads that read sockets.  Of the socket layer, the calls that select a stack and pass their arguments on are not modelled; of epoll, that a descriptor becomes an epoll descriptor (which ones are is a fixed function of the number), the
    attachment to memory another process has created and the recovery of locks of a dead process.  Examples, tools and third-party headers are left out.  *)
From Stdlib Require Export ZArith Lia Sorted.
From stdpp Require Export base tactics option list numbers gmap strings.

Global Open Scope Z_scope.

(** ** Machine-width integers *)

Declare Scope u32_scope.
Delimit Scope u32_scope with u32.

(** The value a C [unsigned int] holds after an arithmetic result [z] is stored in it. *)
Definition wrap32 (z : Z) : Z := z mod 2 ^ 32.

Notation "a ⊞ b" := (wrap32 (a + b)) (at level 50, left associativity) : u32_scope.
Notation "a ⊟ b" := (wrap32 (a - b)) (at level 50, left associativity) : u32_scope.
Open Scope u32_scope.

Definition is_u32 (z : Z) : Prop := 0 <= z < 2 ^ 32.

(** The value of a C [int] that holds the 32 low bits of [z]. *)
Definition to_i32 (z : Z) : Z :=
  let w := wrap32 z in if w <? 2 ^ 31 then w else w - 2 ^ 32.

(** The value of a C [long] that holds the 64 low bits of [z]. *)
Definition to_i64 (z : Z) : Z :=
  let w := z mod 2 ^ 64 in if w <? 2 ^ 63 then w else w - 2 ^ 64.

Lemma to_i64_small z : - 2 ^ 63 <= z < 2 ^ 63 → to_i64 z = z.
Proof.
  intros Hz. unfold to_i64. destruct (Z.ltb_spec z 0).
  - rewrite <- (Z.mod_unique_pos z (2 ^ 64) (-1) (z + 2 ^ 64)) by lia. destruct (Z.ltb_spec (z + 2 ^ 64) (2 ^ 63)); lia.
  - rewrite Z.mod_small by lia. destruct (Z.ltb_spec z (2 ^ 63)); lia.
Qed.

Create HintDb dmm.

(** Turns every [mod] by a constant into linear facts before calling [lia]. *)
Ltac u32_lia :=
  unfold is_u32, wrap32 in *; Z.div_mod_to_equations; lia.

Lemma wrap32_range z : is_u32 (wrap32 z).
Proof. unfold is_u32, wrap32. apply Z.mod_pos_bound. lia. Qed.
#[export] Hint Resolve wrap32_range : dmm.

Lemma wrap32_small z : is_u32 z → wrap32 z = z.
Proof. intros ?. by apply Z.mod_small. Qed.

Lemma wrap32_add_l a b : wrap32 (wrap32 a + b) = wrap32 (a + b).
Proof. unfold wrap32. by rewrite Zplus_mod_idemp_l. Qed.

Lemma wrap32_add_r a b : wrap32 (a + wrap32 b) = wrap32 (a + b).
Proof. unfold wrap32. by rewrite Zplus_mod_idemp_r. Qed.

Lemma wrap32_sub_l a b : wrap32 (wrap32 a - b) = wrap32 (a - b).
Proof. unfold wrap32. by rewrite Zminus_mod_idemp_l. Qed.

Lemma wrap32_sub_r a b : wrap32 (a - wrap32 b) = wrap32 (a - b).
Proof. unfold wrap32. by rewrite Zminus_mod_idemp_r. Qed.

(** Sizes that are powers of two of at most 31 bits: the sizes of the rings. *)
Definition pow2_size (s : Z) : Prop := ∃ k, 0 <= k <= 31 ∧ s = 2 ^ k.

Lemma pow2_size_bounds s : pow2_size s → 1 <= s <= 2 ^ 31.
Proof.
  intros (k & Hk & ->). split.
  - pose proof (Z.pow_pos_nonneg 2 k); lia.
  - apply Z.pow_le_mono_r; lia.
Qed.

(** Masking by [size - 1] is reduction modulo [size]. *)
Lemma land_mask s p : pow2_size s → Z.land p (s - 1) = p mod s.
Proof.
  intros (k & Hk & ->). rewrite <- Z.land_ones by lia.
  by rewrite Z.ones_equiv, Z.sub_1_r.
Qed.

(** A ring size divides the counter range, so masking commutes with wrap-around. *)
Lemma wrap32_mod_size s p : pow2_size s → wrap32 p mod s = p mod s.
Proof.
  intros (k & Hk & ->). unfold wrap32.
  replace (2 ^ 32) with (2 ^ k * 2 ^ (32 - k)) by (rewrite <- Z.pow_add_r; [f_equal; lia | lia..]).
  assert (0 < 2 ^ k) by (apply Z.pow_pos_nonneg; lia).
  assert (0 < 2 ^ (32 - k)) by (apply Z.pow_pos_nonneg; lia).
  rewrite Z.rem_mul_r by lia.
  rewrite Z.mul_comm, Z.mod_add by lia. by apply Z.mod_mod; lia.
Qed.

(** Masking with the ones above bit [n] rounds down to a multiple of [2 ^ n]. *)
Lemma land_high_mask a n :
  is_u32 a → 0 <= n <= 32 → Z.land a (wrap32 (Z.shiftl (-1) n)) = 2 ^ n * (a / 2 ^ n).
Proof.
  intros Ha Hn. unfold wrap32. rewrite <- Z.land_ones by lia.
  rewrite Z.mul_comm, <- Z.shiftl_mul_pow2, <- Z.shiftr_div_pow2 by lia.
  rewrite <- Z.ldiff_ones_r by lia.
  rewrite (Z.land_comm _ (Z.ones 32)), Z.land_assoc.
  rewrite (Z.land_ones a 32), Z.mod_small by (unfold is_u32 in Ha; lia).
  apply Z.bits_inj'. intros i Hi.
  rewrite Z.land_spec, Z.ldiff_spec, Z.shiftl_spec, Z.testbit_ones_nonneg by lia. f_equal.
  destruct (Z.ltb_spec i n).
  - by rewrite Z.testbit_neg_r by lia.
  - by rewrite Z.bits_m1 by lia.
Qed.

Lemma wrap32_land z : wrap32 z = Z.land z (Z.ones 32).
Proof. symmetry. apply Z.land_ones. lia. Qed.

Lemma is_u32_wrap z : is_u32 z ↔ wrap32 z = z.
Proof. split; [apply wrap32_small|intros <-; apply wrap32_range]. Qed.

Lemma is_u32_lor a b : is_u32 a → is_u32 b → is_u32 (Z.lor a b).
Proof.
  rewrite !is_u32_wrap, !wrap32_land, Z.land_lor_distr_l. by intros -> ->.
Qed.

Lemma land_bounds a b : 0 <= a → 0 <= b → 0 <= Z.land a b <= b.
Proof.
  intros Ha Hb. rewrite <- (Z2N.id a), <- (Z2N.id b) by done.
  rewrite <- N2Z.inj_land. pose proof (N.land_le_r (Z.to_N a) (Z.to_N b)). lia.
Qed.

(** ** C arrays: an access out of range is [None] (undefined behaviour) *)

Definition aread {A} (l : list A) (i : Z) : option A :=
  if 0 <=? i then l !! Z.to_nat i else None.

Definition awrite {A} (l : list A) (i : Z) (x : A) : option (list A) :=
  if (0 <=? i) && (i <? Z.of_nat (length l)) then Some (<[Z.to_nat i := x]> l) else None.

Lemma aread_Some {A} (l : list A) i x :
  aread l i = Some x ↔ 0 <= i ∧ l !! Z.to_nat i = Some x.
Proof.
  unfold aread. destruct (Z.leb_spec 0 i); split; [auto|tauto|done|lia].
Qed.

Lemma aread_is_Some {A} (l : list A) i :
  0 <= i < Z.of_nat (length l) → ∃ x, aread l i = Some x ∧ l !! Z.to_nat i = Some x.
Proof.
  intros Hi. destruct (lookup_lt_is_Some_2 l (Z.to_nat i)) as [x Hx]; [lia|].
  exists x. split; [apply aread_Some|]; auto with lia.
Qed.

Lemma awrite_Some {A} (l : list A) i x :
  0 <= i < Z.of_nat (length l) → awrite l i x = Some (<[Z.to_nat i := x]> l).
Proof.
  intros Hi. unfold awrite.
  rewrite (proj2 (Z.leb_le 0 i)), (proj2 (Z.ltb_lt i _)) by lia. done.
Qed.

Lemma aread_insert {A} (l : list A) i j v :
  0 <= i < Z.of_nat (length l) → aread (<[Z.to_nat i := v]> l) j = if decide (j = i) then Some v else aread l j.
Proof.
  intros Hi. unfold aread. destruct (decide (j = i)) as [->|Hne].
  - destruct (Z.leb_spec 0 i); [|lia]. apply list_lookup_insert_eq. lia.
  - destruct (Z.leb_spec 0 j); [|done]. apply list_lookup_insert_ne. lia.
Qed.

Lemma delete_app_l {A} (l1 l2 : list A) i :
  (i < length l1)%nat → delete i (l1 ++ l2) = delete i l1 ++ l2.
Proof.
  intros Hi. rewrite !delete_take_drop, take_app_le, drop_app_le by lia. by rewrite app_assoc.
Qed.

Lemma sorted_app {A} (R : A → A → Prop) l1 l2 :
  StronglySorted R (l1 ++ l2) ↔
  StronglySorted R l1 ∧ StronglySorted R l2 ∧ ∀ a b, a ∈ l1 → b ∈ l2 → R a b.
Proof.
  induction l1 as [|t l1 IH]; cbn [app].
  - split; [intros ?; split; [constructor|]; split; [done|by intros ? ? ?%elem_of_nil]|by intros (_ & ? & _)].
  - split.
    + intros [H1 H2]%StronglySorted_inv. apply IH in H1 as (Ha & Hb & Hab).
      apply Forall_app in H2 as [H2a H2b]. rewrite Forall_forall in H2b.
      split; [by constructor|]. split; [done|]. intros a b [->|Hin]%elem_of_cons Hb'; auto.
    + intros ([Ha Hat]%StronglySorted_inv & Hb & Hab). constructor.
      * apply IH. split; [done|]. split; [done|]. intros a b Hin Hin'. apply Hab; [by right|done].
      * apply Forall_app. split; [done|]. apply Forall_forall. intros b Hin. apply Hab; [left|done].
Qed.

Lemma sorted_filter {A} (R : A → A → Prop) (P : A → Prop) `{∀ x, Decision (P x)} l :
  StronglySorted R l → StronglySorted R (filter P l).
Proof.
  induction 1 as [|x l _ IH Hx]; [constructor|]. destruct (decide (P x)); [|by rewrite filter_cons_False].
  rewrite filter_cons_True by done. constructor; [done|]. apply Forall_forall. intros y [_ Hy]%list_elem_of_filter.
  rewrite Forall_forall in Hx. auto.
Qed.

Lemma filter_none {A} (P : A → Prop) `{∀ x, Decision (P x)} (l : list A) : (∀ y, y ∈ l → ¬ P y) → filter P l = [].
Proof.
  induction l as [|y l IH]; intros Hn; [done|]. rewrite filter_cons_False by (apply Hn; left). apply IH. intros z Hz. apply Hn. by right.
Qed.

Lemma filter_whole {A} (P : A → Prop) `{∀ x, Decision (P x)} (l : list A) : (∀ y, y ∈ l → P y) → filter P l = l.
Proof.
  induction l as [|y l IH]; intros Hn; [done|]. rewrite filter_cons_True by (apply Hn; left). f_equal. apply IH. intros z Hz. apply Hn. by right.
Qed.

(** Removal of an element by filtering. *)
Lemma filter_ne_absent (l : list Z) x : x ∉ l → filter (λ y, y ≠ x) l = l.
Proof. intros Hx. apply filter_whole. by intros y Hy ->. Qed.
Lemma filter_ne_mid (l1 l2 : list Z) x : NoDup (l1 ++ x :: l2) → filter (λ y, y ≠ x) (l1 ++ x :: l2) = l1 ++ l2.
Proof.
  intros Hnd. rewrite <- Permutation_middle in Hnd. apply NoDup_cons in Hnd as [Hx _].
  rewrite filter_app, filter_cons_False, !filter_ne_absent by (auto || set_solver). done.
Qed.

(** ** Checked string copies *)

(** [STRCPY_S (dest, dmax, src)] of [nstack_securec.h]: whether the copy is made.  With the
    checked library ([SECUREC_LIB]) a source that does not fit is refused; without it the macro
    is [strcpy], which then writes out of range. *)
Definition STRCPY_S (securec : bool) (dmax : Z) (src : string) : option bool :=
  if Z.of_nat (String.length src) <? dmax then Some true
  else if securec then Some false else None.

(** ** Loops with fuel: [None] when the fuel runs out or the body is undefined *)

Fixpoint while_fuel {S} (fuel : nat) (cond : S → bool) (body : S → option S) (s : S) : option S :=
  if cond s then
    match fuel with
    | O => None
    | Datatypes.S fuel => s' ← body s; while_fuel fuel cond body s'
    end
  else Some s.

(** The loop rule: an invariant that the body keeps, and a measure that it decreases. *)
Lemma while_fuel_rule {S} (I : S → Prop) (m : S → nat) cond body :
  (∀ s, I s → cond s = true → ∃ s', body s = Some s' ∧ I s' ∧ (m s' < m s)%nat) →
  ∀ fuel s, I s → (m s <= fuel)%nat →
  ∃ s', while_fuel fuel cond body s = Some s' ∧ I s' ∧ cond s' = false.
Proof.
  intros Hstep fuel. induction fuel as [|fuel IH]; intros s HI Hm; simpl.
  - destruct (cond s) eqn:Hc; [|by eauto].
    destruct (Hstep s HI Hc) as (s' & _ & _ & ?). lia.
  - destruct (cond s) eqn:Hc; [|by eauto].
    destruct (Hstep s HI Hc) as (s' & -> & HI' & ?). simpl.
    apply IH; [done | lia].
Qed.

(** More fuel does not change the result of a loop that ends. *)
Lemma while_fuel_mono {S} cond (body : S → option S) fuel fuel' s s' :
  while_fuel fuel cond body s = Some s' → (fuel <= fuel')%nat →
  while_fuel fuel' cond body s = Some s'.
Proof.
  revert fuel' s. induction fuel as [|fuel IH]; intros fuel' s; simpl.
  - destruct (cond s) eqn:Hc; [done|]. intros [= ->] _.
    destruct fuel'; simpl; by rewrite Hc.
  - destruct fuel' as [|fuel']; [lia|]. simpl.
    destruct (cond s) eqn:Hc; [|done].
    destruct (body s) as [s1|]; simpl; [|done]. intros Hw ?. apply IH; [done|lia].
Qed.

(** ** State transformers that may be undefined *)

Definition stM (S A : Type) : Type := S → option (A * S).
#[global] Instance stM_ret S : MRet (stM S) := λ A a s, Some (a, s).
#[global] Instance stM_bind S : MBind (stM S) := λ A B k m s, match m s with Some (a, s') => k a s' | None => None end.

Definition gets {S A} (f : S → A) : stM S A := λ s, Some (f s, s).
Definition modify {S} (f : S → S) : stM S unit := λ s, Some (tt, f s).
Definition lift {S A} (o : option A) : stM S A := λ s, match o with Some a => Some (a, s) | None => None end.
Definition when {S} (b : bool) (m : stM S unit) : stM S unit := if b then m else mret tt.

Lemma bind_run {S A B} (m : stM S A) (k : A → stM S B) s a s' : m s = Some (a, s') → (m ≫= k) s = k a s'.
Proof. intros H. unfold mbind, stM_bind. by rewrite H. Qed.
