(* ===== verification/Bits.v ===== *)
(** * Bits and bytes of 32-bit words: the lemmas and tactics the components share *)
From S2P Require Import Prelude.

Definition is_byte (x : Z) : Prop := 0 <= x < 256.

Lemma high_bit n x i : 0 <= n → 0 <= x < 2 ^ n → n <= i → Z.testbit x i = false.
Proof.
  intros Hn Hx Hi. destruct (decide (x = 0)) as [->|Hne]; [apply Z.bits_0|].
  apply Z.bits_above_log2; [lia|]. apply Z.log2_lt_pow2; [lia|]. apply Z.lt_le_trans with (2 ^ n); [lia|]. apply Z.pow_le_mono_r; lia.
Qed.

Lemma u32_of_bits x : 0 <= x → (∀ i, 32 <= i → Z.testbit x i = false) → is_u32 x.
Proof.
  intros H0 Hx. apply is_u32_wrap. rewrite wrap32_land. apply Z.bits_inj'. intros i Hi. rewrite Z.land_spec, Z.testbit_ones_nonneg by lia.
  destruct (Z.ltb_spec i 32); [apply andb_true_r|]. by rewrite Hx.
Qed.

(** Splits a bit index at the byte boundaries below 32. *)
Ltac byte_cases i :=
  destruct (Z.lt_ge_cases i 8); [|destruct (Z.lt_ge_cases i 16); [|destruct (Z.lt_ge_cases i 24); [|destruct (Z.lt_ge_cases i 32)]]].

(** Computes the bits of words made of shifted and masked parts. *)
Ltac bits_norm :=
  repeat (rewrite ?wrap32_land, ?Z.lor_spec, ?Z.land_spec, ?Z.lxor_spec, ?Z.lnot_spec by lia;
          rewrite ?Z.shiftl_spec, ?Z.shiftr_spec, ?Z.testbit_ones_nonneg by lia).

Lemma byte_bit x i : is_byte x → 8 <= i → Z.testbit x i = false.
Proof. intros Hx. apply (high_bit 8); [lia|exact Hx]. Qed.

(** Decides a bit of a word that is put together from bytes, at an index in a known byte. *)
Ltac word_bit :=
  repeat match goal with
  | |- context [Z.testbit (Z.ones ?n) ?i] => rewrite (Z.testbit_ones_nonneg n i) by lia
  | |- context [Z.testbit (Z.land ?x ?y) ?i] => rewrite (Z.land_spec x y i)
  | |- context [Z.testbit (Z.shiftl ?x ?n) ?i] => rewrite (Z.shiftl_spec x n i) by lia
  | |- context [Z.testbit (Z.shiftr ?x ?n) ?i] => rewrite (Z.shiftr_spec x n i) by lia
  | |- context [Z.testbit ?x ?i] => first [rewrite (byte_bit x i) by (assumption || lia) | rewrite (Z.testbit_neg_r x i) by lia | rewrite (high_bit 32 x i) by (assumption || lia)]
  | |- context [Z.ltb ?a ?b] => first [rewrite (proj2 (Z.ltb_lt a b)) by lia | rewrite (proj2 (Z.ltb_ge a b)) by lia]
  end;
  rewrite ?orb_false_r, ?orb_false_l, ?andb_true_r, ?andb_true_l, ?andb_false_r, ?andb_false_l, ?orb_false_r, ?orb_false_l; try done; try (f_equal; lia).

Lemma is_byte_land x : is_byte (Z.land x 255).
Proof. unfold is_byte. change 255 with (Z.ones 8). rewrite Z.land_ones by lia. change 256 with (2 ^ 8). apply Z.mod_pos_bound. lia. Qed.

Lemma land_byte_id x : is_byte x → Z.land x 255 = x.
Proof. intros Hx. change 255 with (Z.ones 8). rewrite Z.land_ones by lia. by apply Z.mod_small. Qed.

(** Parts of a word that do not overlap add up. *)
Lemma lor_low x y n : 0 <= n → 0 <= x < 2 ^ n → Z.lor x (y * 2 ^ n) = x + y * 2 ^ n.
Proof.
  intros Hn Hx. rewrite <- (Z.shiftl_mul_pow2 y n) by done. assert (Z.land x (Z.shiftl y n) = 0) as H.
  - apply Z.bits_inj'. intros i Hi. rewrite Z.land_spec, Z.bits_0, Z.shiftl_spec by lia.
    destruct (Z.lt_ge_cases i n); [rewrite (Z.testbit_neg_r y) by lia; apply andb_false_r|by rewrite (high_bit n x i)].
  - by rewrite Z.add_nocarry_lxor, Z.lxor_lor.
Qed.
