(* ===== verification/Queue.v ===== *)
(** * The bounded FIFO queue: what a ring promises to its clients

    The abstract queue is a list, oldest element first, with a capacity.  The class
    [BoundedQueue] is the contract between a ring implementation and the code that
    uses it through [nsfw_mem_ring_enqueue] and [nsfw_mem_ring_dequeuev]: every
    enqueue and dequeue returns what the abstract operation returns and leaves a
    state whose contents are the abstract result.  The client lemmas at the end are
    proved against the class only. *)
From S2P Require Import Prelude.

(** ** The abstract operations *)

Definition fifo_enqueue (cap : Z) (l : list Z) (v : Z) : Z * list Z :=
  if Z.of_nat (length l) <? cap then (1, l ++ [v]) else (0, l).

(** At most [n] elements leave, in order: their number, they, and what is left. *)
Definition fifo_dequeue (l : list Z) (n : Z) : Z * list Z * list Z :=
  let k := Z.min n (Z.of_nat (length l)) in
  (k, take (Z.to_nat k) l, drop (Z.to_nat k) l).

(** ** The contract *)

Class BoundedQueue (Q : Type) := {
  q_inv : Q → Prop;
  q_contents : Q → list Z;
  q_cap : Q → Z;
  q_enqueue : Q → Z → option (Z * Q);
  q_dequeuev : Q → list Z → Z → option (Z * list Z * Q);
  q_bounded : ∀ q, q_inv q → Z.of_nat (length (q_contents q)) <= q_cap q;
  q_enqueue_spec : ∀ q v, q_inv q →
    let '(res, l) := fifo_enqueue (q_cap q) (q_contents q) v in
    ∃ q', q_enqueue q v = Some (res, q') ∧ q_inv q' ∧ q_cap q' = q_cap q ∧ q_contents q' = l;
  q_dequeuev_spec : ∀ q t n, q_inv q → is_u32 n → n <= Z.of_nat (length t) →
    let '(k, out, l) := fifo_dequeue (q_contents q) n in
    ∃ q', q_dequeuev q t n = Some (k, out ++ drop (length out) t, q') ∧
          q_inv q' ∧ q_cap q' = q_cap q ∧ q_contents q' = l
}.

(** ** Clients *)

Section clients.
Context {Q : Type} `{BoundedQueue Q}.

(** Enqueues a list of values, counting the accepted ones. *)
Fixpoint enqueue_all (q : Q) (vs : list Z) : option (Z * Q) :=
  match vs with
  | [] => Some (0, q)
  | v :: vs =>
      '(a, q) ← q_enqueue q v;
      '(b, q) ← enqueue_all q vs;
      Some (a + b, q)
  end.

(** What fits is accepted, in order; the rest is refused. *)
Lemma enqueue_all_spec q vs :
  q_inv q →
  let room := Z.to_nat (q_cap q - Z.of_nat (length (q_contents q))) in
  ∃ q', enqueue_all q vs = Some (Z.of_nat (min room (length vs)), q') ∧ q_inv q' ∧
        q_cap q' = q_cap q ∧ q_contents q' = q_contents q ++ take room vs.
Proof.
  revert q. induction vs as [|v vs IH]; intros q Hq; simpl.
  { exists q. rewrite Nat.min_0_r, take_nil, app_nil_r. done. }
  pose proof (q_enqueue_spec q v Hq) as Hspec. unfold fifo_enqueue in Hspec.
  pose proof (q_bounded q Hq) as Hb.
  destruct (Z.ltb_spec (Z.of_nat (length (q_contents q))) (q_cap q)) as [Hlt|Hge];
    destruct Hspec as (q1 & -> & Hq1 & Hcap & Hcont); simpl;
    destruct (IH q1 Hq1) as (q2 & -> & Hq2 & Hcap2 & Hcont2); simpl; exists q2;
    rewrite Hcap2, Hcont2, Hcap, Hcont; repeat split; auto.
  - rewrite length_app; simpl. f_equal. f_equal. lia.
  - rewrite length_app; simpl.
    replace (Z.to_nat (q_cap q - Z.of_nat (length (q_contents q)))) with
      (S (Z.to_nat (q_cap q - Z.of_nat (length (q_contents q) + 1)))) by lia.
    rewrite <- app_assoc. done.
  - replace (Z.to_nat (q_cap q - Z.of_nat (length (q_contents q)))) with 0%nat by lia. done.
  - replace (Z.to_nat (q_cap q - Z.of_nat (length (q_contents q)))) with 0%nat by lia. done.
Qed.

(** Round trip: values put into an empty queue with room come out in order. *)
Lemma enqueue_dequeue_roundtrip q vs t :
  q_inv q → q_contents q = [] → Z.of_nat (length vs) <= q_cap q → q_cap q < 2 ^ 32 →
  length t = length vs →
  ∃ q1 q2, enqueue_all q vs = Some (Z.of_nat (length vs), q1) ∧
    q_dequeuev q1 t (Z.of_nat (length vs)) = Some (Z.of_nat (length vs), vs, q2) ∧
    q_inv q2 ∧ q_contents q2 = [].
Proof.
  intros Hq Hnil Hroom H32 Ht.
  destruct (enqueue_all_spec q vs Hq) as (q1 & He & Hq1 & Hcap & Hc).
  rewrite Hnil in He, Hc; simpl in He, Hc.
  rewrite take_ge in Hc by lia. rewrite Nat.min_r in He by lia.
  pose proof (q_dequeuev_spec q1 t (Z.of_nat (length vs)) Hq1) as Hd.
  unfold fifo_dequeue, is_u32 in Hd. rewrite Hc, Z.min_id, Nat2Z.id, firstn_all, drop_all in Hd.
  destruct Hd as (q2 & Hd & Hq2 & _ & Hc2); [lia|lia|].
  exists q1, q2. rewrite Hd, drop_ge, app_nil_r by lia. auto.
Qed.
End clients.
