(* ===== verification/Ring.v ===== *)
(** * The process-local ring (src/src/framework/common/mem_mgr)

    The ring structure of [nsfw_ring_data.h], its initialisers of [nsfw_ring_fun.h]
    and the operations of [nsfw_nshmem_ring.c] that one thread runs without
    interference: single-producer enqueue, single-consumer dequeue and the
    single-thread pair.  Counters are 32-bit and wrap; an array access out of range
    is [None].  The multi-producer and multi-consumer operations are not modelled here. *)
From S2P Require Import Prelude.
From S2P Require Import Queue.

(** ** The structure *)

(** [struct { volatile u32 head; volatile u32 tail; }], used for [prod] and [cons]. *)
Record headtail := mk_headtail { head : Z; tail : Z }.

(** [struct nsfw_mem_ring]; a slot is the [data_l] view of [union RingData_U]. *)
Record nsfw_mem_ring := mk_ring {
  memtype : Z;
  ringflag : Z;
  r_size : Z;
  eltsize : Z;
  r_mask : Z;
  Addrbase : Z;
  prodhflag : Z;
  prodtflag : Z;
  conshflag : Z;
  constflag : Z;
  prod : headtail;
  cons : headtail;
  r_ring : list Z
}.

Definition set_prod (r : nsfw_mem_ring) (p : headtail) : nsfw_mem_ring :=
  mk_ring (memtype r) (ringflag r) (r_size r) (eltsize r) (r_mask r) (Addrbase r)
    (prodhflag r) (prodtflag r) (conshflag r) (constflag r) p (cons r) (r_ring r).

Definition set_cons (r : nsfw_mem_ring) (c : headtail) : nsfw_mem_ring :=
  mk_ring (memtype r) (ringflag r) (r_size r) (eltsize r) (r_mask r) (Addrbase r)
    (prodhflag r) (prodtflag r) (conshflag r) (constflag r) (prod r) c (r_ring r).

Definition set_prodflags (r : nsfw_mem_ring) (h t : Z) : nsfw_mem_ring :=
  mk_ring (memtype r) (ringflag r) (r_size r) (eltsize r) (r_mask r) (Addrbase r)
    h t (conshflag r) (constflag r) (prod r) (cons r) (r_ring r).

Definition set_consflags (r : nsfw_mem_ring) (h t : Z) : nsfw_mem_ring :=
  mk_ring (memtype r) (ringflag r) (r_size r) (eltsize r) (r_mask r) (Addrbase r)
    (prodhflag r) (prodtflag r) h t (prod r) (cons r) (r_ring r).

Definition set_ring (r : nsfw_mem_ring) (l : list Z) : nsfw_mem_ring :=
  mk_ring (memtype r) (ringflag r) (r_size r) (eltsize r) (r_mask r) (Addrbase r)
    (prodhflag r) (prodtflag r) (conshflag r) (constflag r) (prod r) (cons r) l.

Definition set_prod_head r v := set_prod r (mk_headtail v (tail (prod r))).
Definition set_prod_tail r v := set_prod r (mk_headtail (head (prod r)) v).
Definition set_cons_head r v := set_cons r (mk_headtail v (tail (cons r))).
Definition set_cons_tail r v := set_cons r (mk_headtail (head (cons r)) v).

(** [r->ring[i].data_l] as a load and as a store. *)
Definition ring_load (r : nsfw_mem_ring) (i : Z) : option Z := aread (r_ring r) i.
Definition ring_store (r : nsfw_mem_ring) (i v : Z) : option nsfw_mem_ring :=
  l ← awrite (r_ring r) i v; Some (set_ring r l).

(** [VALUE_LEN] and the two views of [union RingData_U]. *)
Definition VALUE_LEN : Z := 40.
Definition data_val (d : Z) : Z := Z.land d (Z.ones VALUE_LEN).
Definition data_ver (d : Z) : Z := Z.shiftr d VALUE_LEN.
Definition mk_data (ver val : Z) : Z :=
  Z.lor (Z.shiftl (Z.land ver (Z.ones (64 - VALUE_LEN))) VALUE_LEN) (Z.land val (Z.ones VALUE_LEN)).

(** ** Initialisation (nsfw_ring_fun.h) *)

(** The loop sets slot [loop] to version [loop - size] and value 0. *)
Definition nsfw_mem_ring_init (size addrbase memtype flag curpid : Z) : nsfw_mem_ring :=
  mk_ring memtype flag size 0 (wrap32 (size - 1)) addrbase
    curpid curpid curpid curpid (mk_headtail 0 0) (mk_headtail 0 0)
    ((λ loop, mk_data (wrap32 (Z.of_nat loop - size)) 0) <$> seq 0 (Z.to_nat size)).

(** Only the head of a pool is set up: the slots [slots] are filled by the caller. *)
Definition nsfw_mem_pool_head_init (slots : list Z) (size eltsize addrbase memtype flag curpid : Z) : nsfw_mem_ring :=
  mk_ring memtype flag size eltsize (wrap32 (size - 1)) addrbase
    curpid curpid curpid curpid (mk_headtail size size) (mk_headtail 0 0) slots.

(** ** Operations (nsfw_nshmem_ring.c) *)

(** The unrolled loop of four copies: state [(i, idx, obj_table)]. *)
Definition obj_copy4 (r : nsfw_mem_ring) (s : Z * Z * list Z) : option (Z * Z * list Z) :=
  let '(i, idx, t) := s in
  a ← ring_load r idx; t ← awrite t i a;
  b ← ring_load r (idx ⊞ 1); t ← awrite t (i ⊞ 1) b;
  c ← ring_load r (idx ⊞ 2); t ← awrite t (i ⊞ 2) c;
  d ← ring_load r (idx ⊞ 3); t ← awrite t (i ⊞ 3) d;
  Some (i ⊞ 4, idx ⊞ 4, t).

(** One copy: [obj_table[i++] = r->ring[idx++].data_l]. *)
Definition obj_copy1 (r : nsfw_mem_ring) (s : Z * Z * list Z) : option (Z * Z * list Z) :=
  let '(i, idx, t) := s in
  a ← ring_load r idx; t ← awrite t i a; Some (i ⊞ 1, idx ⊞ 1, t).

Definition nsfw_nshmem_ring_obj_copy (r : nsfw_mem_ring) (cons_head : Z) (obj_table : list Z) (n : Z) : option (list Z) :=
  let idx := Z.land cons_head (r_mask r) in
  let size := r_size r in
  let fuel := S (Z.to_nat n) in
  if idx ⊞ n <? size then
    s ← while_fuel fuel (λ '(i, _, _), i <? Z.land n (wrap32 (Z.lnot 3))) (obj_copy4 r) (0, idx, obj_table);
    let k := Z.land n 3 in
    s ← (if k =? 3 then obj_copy1 r s else Some s);
    s ← (if (k =? 3) || (k =? 2) then obj_copy1 r s else Some s);
    s ← (if (k =? 3) || (k =? 2) || (k =? 1) then obj_copy1 r s else Some s);
    Some s.2
  else
    s ← while_fuel (S (Z.to_nat size)) (λ '(_, idx, _), idx <? size) (obj_copy1 r) (0, idx, obj_table);
    let '(i, _, t) := s in
    s ← while_fuel fuel (λ '(i, _, _), i <? n) (obj_copy1 r) (i, 0, t);
    Some s.2.

(** After a fork the first enqueue of the new process resets [prod.head] to [prod.tail].
    Run without interference the compare-and-swap of [prodhflag] succeeds. *)
Definition nsfw_nshmem_enqueue_fork_recov (curpid : Z) (r : nsfw_mem_ring) : nsfw_mem_ring :=
  let pidflag := prodhflag r in
  if pidflag =? curpid then r
  else
    let r := set_prodflags r curpid (prodtflag r) in
    let r := if tail (prod r) =? head (prod r) then r
             else set_prod_head r (tail (prod r)) in
    set_prodflags r (prodhflag r) curpid.

Definition nsfw_nshmem_dequeue_fork_recov (curpid : Z) (r : nsfw_mem_ring) : nsfw_mem_ring :=
  let pidflag := conshflag r in
  if pidflag =? curpid then r
  else
    let r := set_consflags r curpid (constflag r) in
    let r := if tail (cons r) =? head (cons r) then r
             else set_cons_head r (tail (cons r)) in
    set_consflags r (conshflag r) curpid.

Definition nsfw_nshmem_ring_sp_enqueue (curpid : Z) (r : nsfw_mem_ring) (obj_table : Z) : option (Z * nsfw_mem_ring) :=
  let mask := r_mask r in
  let n := 1 in
  let size := r_size r in
  let producer_head := head (prod r) in
  let consumer_tail := tail (cons r) in
  let free_entries := size ⊞ consumer_tail ⊟ producer_head in
  if free_entries <? n then Some (0, r)
  else
    let r := nsfw_nshmem_enqueue_fork_recov curpid r in
    let producer_next := producer_head ⊞ n in
    let r := set_prod_head r producer_next in
    r ← ring_store r (Z.land producer_head mask) obj_table;
    Some (n, set_prod_tail r producer_next).

Definition nsfw_nshmem_ring_sc_dequeuev (curpid : Z) (r : nsfw_mem_ring) (obj_table : list Z) (n : Z) : option (Z * list Z * nsfw_mem_ring) :=
  let consumer_head := head (cons r) in
  let producer_tail := tail (prod r) in
  let entries := producer_tail ⊟ consumer_head in
  if (entries <? n) && negb (0 <? entries) then Some (0, obj_table, r)
  else
    let inum := if entries <? n then entries else n in
    let r := nsfw_nshmem_dequeue_fork_recov curpid r in
    let consumer_next := consumer_head ⊞ inum in
    let r := set_cons_head r consumer_next in
    t ← nsfw_nshmem_ring_obj_copy r consumer_head obj_table inum;
    Some (inum, t, set_cons_tail r consumer_next).

Definition nsfw_nshmem_ring_sc_dequeue (curpid : Z) (r : nsfw_mem_ring) (box : list Z) : option (Z * list Z * nsfw_mem_ring) :=
  nsfw_nshmem_ring_sc_dequeuev curpid r box 1.

Definition nsfw_nshmem_ring_singlethread_enqueue (r : nsfw_mem_ring) (box : Z) : option (Z * nsfw_mem_ring) :=
  if r_size r ⊞ tail (cons r) <=? head (prod r) then Some (0, r)
  else
    let h := head (prod r) in
    r ← ring_store r (Z.land h (r_mask r)) box;
    Some (1, set_prod_head r (head (prod r) ⊞ 1)).

(** One pass of the dequeue loop: state [(num, box, r, finished)]. *)
Definition singlethread_dequeue_step (s : Z * list Z * nsfw_mem_ring * bool) : option (Z * list Z * nsfw_mem_ring * bool) :=
  let '(num, box, r, _) := s in
  let t := tail (cons r) in
  if head (prod r) =? tail (cons r) then Some (num, box, r, true)
  else
    v ← ring_load r (Z.land t (r_mask r));
    box ← awrite box num v;
    Some (num ⊞ 1, box, set_cons_tail r (tail (cons r) ⊞ 1), false).

Definition nsfw_nshmem_ring_singlethread_dequeuev (r : nsfw_mem_ring) (box : list Z) (n : Z) : option (Z * list Z * nsfw_mem_ring) :=
  s ← while_fuel (S (Z.to_nat n)) (λ '(num, _, _, fin), negb fin && (num <? n))
        singlethread_dequeue_step (0, box, r, false);
  let '(num, box, r, _) := s in Some (num, box, r).

Definition nsfw_nshmem_ring_singlethread_dequeue (r : nsfw_mem_ring) (box : list Z) : option (Z * list Z * nsfw_mem_ring) :=
  nsfw_nshmem_ring_singlethread_dequeuev r box 1.

Definition ring4 : nsfw_mem_ring := nsfw_mem_ring_init 4 0 0 0 7.

Example ring4_run :
  (s ← nsfw_nshmem_ring_sp_enqueue 7 ring4 11;
   s ← nsfw_nshmem_ring_sp_enqueue 7 s.2 12;
   s ← nsfw_nshmem_ring_sp_enqueue 7 s.2 13;
   d ← nsfw_nshmem_ring_sc_dequeuev 7 s.2 [0;0;0;0;0] 5;
   Some (d.1)) = Some (3, [11;12;13;0;0]).
Proof. vm_compute. reflexivity. Qed.

(** ** Well-formedness and the abstract contents *)

Definition ring_wf (r : nsfw_mem_ring) : Prop :=
  pow2_size (r_size r) ∧ r_mask r = r_size r - 1 ∧ Z.of_nat (length (r_ring r)) = r_size r ∧
  is_u32 (head (prod r)) ∧ is_u32 (tail (prod r)) ∧ is_u32 (head (cons r)) ∧ is_u32 (tail (cons r)).

(** The slot a counter value designates, and [n] consecutive slots from a counter value. *)
Definition slot (r : nsfw_mem_ring) (p : Z) : Z := default 0 (r_ring r !! Z.to_nat (p mod r_size r)).
Definition span (r : nsfw_mem_ring) (t : Z) (n : nat) : list Z :=
  (λ i, slot r (t + Z.of_nat i)) <$> seq 0 n.

(** A ring no enqueue or dequeue is halfway through, with a consistent fill level. *)
Definition fill (p c : Z) : Z := p ⊟ c.
Definition quiet (r : nsfw_mem_ring) : Prop :=
  ring_wf r ∧ head (prod r) = tail (prod r) ∧ head (cons r) = tail (cons r) ∧
  fill (tail (prod r)) (tail (cons r)) <= r_size r.

(** What the ring holds, oldest first. *)
Definition contents (r : nsfw_mem_ring) : list Z :=
  span r (tail (cons r)) (Z.to_nat (fill (tail (prod r)) (tail (cons r)))).

Lemma span_S r t n : span r t (S n) = span r t n ++ [slot r (t + Z.of_nat n)].
Proof. unfold span. by rewrite seq_S, fmap_app. Qed.

Lemma length_span r t n : length (span r t n) = n.
Proof. unfold span. by rewrite length_fmap, length_seq. Qed.

Lemma length_contents r :
  Z.of_nat (length (contents r)) = fill (tail (prod r)) (tail (cons r)).
Proof.
  unfold contents. rewrite length_span.
  pose proof (wrap32_range (tail (prod r) - tail (cons r))). unfold fill, is_u32 in *. lia.
Qed.

Lemma span_app r t n m : span r t (n + m) = span r t n ++ span r (t + Z.of_nat n) m.
Proof.
  induction m as [|m IH].
  - by rewrite Nat.add_0_r, app_nil_r.
  - rewrite Nat.add_succ_r, !span_S, IH, <- app_assoc. do 4 f_equal. lia.
Qed.

Lemma slot_mod r p q : p mod r_size r = q mod r_size r → slot r p = slot r q.
Proof. unfold slot. by intros ->. Qed.

Lemma slot_wrap32 r p q : ring_wf r → slot r (wrap32 p + q) = slot r (p + q).
Proof.
  intros (Hs & _). apply slot_mod.
  rewrite <- Zplus_mod_idemp_l, wrap32_mod_size by done. by rewrite Zplus_mod_idemp_l.
Qed.

Lemma span_wrap32 r p n : ring_wf r → span r (wrap32 p) n = span r p n.
Proof. intros Hwf. apply list_fmap_ext. intros i x _. by apply slot_wrap32. Qed.

(** Two positions less than [size] apart use different slots. *)
Lemma mod_size_ne s p d : 0 < d < s → (p + d) mod s ≠ p mod s.
Proof.
  intros Hd Heq.
  assert (H : (p + d - p) mod s = 0) by (rewrite Zminus_mod, Heq, Z.sub_diag; apply Z.mod_0_l; lia).
  replace (p + d - p) with d in H by lia. rewrite Z.mod_small in H; lia.
Qed.

(** Masked positions are in range, so loads and stores through them are defined. *)
Lemma ring_index_ok r p :
  ring_wf r → Z.land p (r_mask r) = p mod r_size r ∧
  0 <= p mod r_size r < Z.of_nat (length (r_ring r)).
Proof.
  intros (Hs & Hm & Hl & _). pose proof (pow2_size_bounds _ Hs).
  rewrite Hm, land_mask, Hl by done. split; [done|]. apply Z.mod_pos_bound. lia.
Qed.

Lemma ring_load_slot r p :
  ring_wf r → ring_load r (Z.land p (r_mask r)) = Some (slot r p).
Proof.
  intros Hwf. destruct (ring_index_ok r p Hwf) as [-> Hr].
  unfold ring_load, slot. destruct (aread_is_Some (r_ring r) _ Hr) as (x & -> & ->). done.
Qed.

Lemma ring_store_slot r p v :
  ring_wf r →
  ring_store r (Z.land p (r_mask r)) v = Some (set_ring r (<[Z.to_nat (p mod r_size r) := v]> (r_ring r))).
Proof.
  intros Hwf. destruct (ring_index_ok r p Hwf) as [-> Hr].
  unfold ring_store. by rewrite awrite_Some by done.
Qed.

(** Writing the slot after the last element extends the span by that element. *)
Lemma span_store r t n v l' :
  ring_wf r → Z.of_nat n < r_size r →
  l' = <[Z.to_nat ((t + Z.of_nat n) mod r_size r) := v]> (r_ring r) →
  ∀ r', r_size r' = r_size r → r_ring r' = l' →
  span r' t (S n) = span r t n ++ [v].
Proof.
  intros Hwf Hn -> r' Hsz Hrg. rewrite span_S.
  pose proof Hwf as (Hs & _ & Hlen & _). pose proof (pow2_size_bounds _ Hs) as Hb.
  assert (0 <= (t + Z.of_nat n) mod r_size r < r_size r) by (apply Z.mod_pos_bound; lia).
  f_equal.
  - apply list_fmap_ext. intros i x Hi%lookup_seq. destruct Hi as [-> Hi].
    unfold slot. rewrite Hsz, Hrg, list_lookup_insert_ne; [done|].
    intros Heq%Z2Nat.inj; [|apply Z.mod_pos_bound; lia..].
    apply (mod_size_ne (r_size r) (t + Z.of_nat (0 + i)) (Z.of_nat n - Z.of_nat i)); [lia|].
    rewrite <- Heq. f_equal. lia.
  - unfold slot. rewrite Hsz, Hrg, list_lookup_insert_eq; [done|]. lia.
Qed.

Lemma ring_wf_store r r' i v :
  ring_wf r → r_size r' = r_size r → r_mask r' = r_mask r → r_ring r' = <[i := v]> (r_ring r) →
  is_u32 (head (prod r')) → is_u32 (tail (prod r')) → is_u32 (head (cons r')) → is_u32 (tail (cons r')) →
  ring_wf r'.
Proof.
  intros (? & ? & ? & _) Hsz Hm Hrg. unfold ring_wf.
  rewrite Hsz, Hm, Hrg, length_insert. auto 10.
Qed.

(** ** The unrolled copy is a plain copy *)

Lemma obj_copy4_unrolls r s :
  obj_copy4 r s = (s ← obj_copy1 r s; s ← obj_copy1 r s; s ← obj_copy1 r s; obj_copy1 r s).
Proof.
  destruct s as [[i idx] t]. unfold obj_copy4, obj_copy1.
  destruct (ring_load r idx) as [a|]; simpl; [|done]. destruct (awrite t i a) as [t1|]; simpl; [|done].
  destruct (ring_load r (idx ⊞ 1)) as [b|]; simpl; [|done]. destruct (awrite t1 (i ⊞ 1) b) as [t2|]; simpl; [|done].
  rewrite !wrap32_add_l, <- !Z.add_assoc. change (1 + 1) with 2.
  destruct (ring_load r (idx ⊞ 2)) as [c|]; simpl; [|done]. destruct (awrite t2 (i ⊞ 2) c) as [t3|]; simpl; [|done].
  rewrite !wrap32_add_l, <- !Z.add_assoc. change (1 + 2) with 3.
  destruct (ring_load r (idx ⊞ 3)) as [d|]; simpl; [|done]. destruct (awrite t3 (i ⊞ 3) d) as [t4|]; simpl; [|done].
  by rewrite !wrap32_add_l, <- !Z.add_assoc.
Qed.

Lemma land_not3 n : is_u32 n → Z.land n (wrap32 (Z.lnot 3)) = 4 * (n / 4).
Proof. intros Hn. apply (land_high_mask n 2); [done|lia]. Qed.

(** The table after [k] elements from position [h] have been copied into [t]. *)
Definition copied (r : nsfw_mem_ring) (h : Z) (t : list Z) (k : nat) : list Z :=
  span r h k ++ drop k t.

Lemma copied_S r h t k :
  (k < length t)%nat →
  copied r h t (S k) = <[k := slot r (h + Z.of_nat k)]> (copied r h t k).
Proof.
  intros Hk. unfold copied. rewrite span_S, <- app_assoc.
  rewrite insert_app_r_alt by (rewrite length_span; lia).
  rewrite length_span, Nat.sub_diag.
  destruct (lookup_lt_is_Some_2 t k Hk) as [x Hx].
  rewrite (drop_S t x k Hx). done.
Qed.

Lemma length_copied r h t k : (k <= length t)%nat → length (copied r h t k) = length t.
Proof. intros. unfold copied. rewrite length_app, length_span, length_drop. lia. Qed.

(** One copy moves the table from [k] to [S k] copied elements. *)
Lemma obj_copy1_copied r h t k idx :
  ring_wf r → (k < length t)%nat → Z.of_nat k < 2 ^ 32 - 1 →
  0 <= idx < r_size r → idx = (h + Z.of_nat k) mod r_size r →
  obj_copy1 r (Z.of_nat k, idx, copied r h t k) = Some (Z.of_nat (S k), idx + 1, copied r h t (S k)).
Proof.
  intros Hwf Hk Hk32 Hidx Heq. unfold obj_copy1.
  pose proof Hwf as (Hs & Hm & Hl & _). pose proof (pow2_size_bounds _ Hs).
  assert (Hld : ring_load r idx = Some (slot r (h + Z.of_nat k))).
  { rewrite <- (ring_load_slot r) by done.
    destruct (ring_index_ok r (h + Z.of_nat k) Hwf) as [-> _]. by rewrite Heq. }
  rewrite Hld. simpl. rewrite awrite_Some by (rewrite length_copied; lia). simpl.
  rewrite copied_S, Nat2Z.id by done.
  rewrite !wrap32_small by (unfold is_u32; lia). do 3 f_equal. lia.
Qed.

(** The copying loops: from [k] copied elements to the first [k'] the condition rejects. *)
Lemma obj_copy_loop r h t lim fuel k m :
  ring_wf r → (k + m <= length t)%nat → Z.of_nat (k + m) < 2 ^ 32 → (m <= fuel)%nat →
  (∀ j, (j < m)%nat → lim (Z.of_nat (k + j)) ((h + Z.of_nat k) mod r_size r + Z.of_nat j) = true) →
  lim (Z.of_nat (k + m)) ((h + Z.of_nat k) mod r_size r + Z.of_nat m) = false →
  (h + Z.of_nat k) mod r_size r + Z.of_nat m <= r_size r →
  while_fuel fuel (λ '(i, idx, _), lim i idx) (obj_copy1 r)
    (Z.of_nat k, (h + Z.of_nat k) mod r_size r, copied r h t k)
  = Some (Z.of_nat (k + m), (h + Z.of_nat k) mod r_size r + Z.of_nat m, copied r h t (k + m)).
Proof.
  intros Hwf Hlen H32 Hf Hgo Hstop Hfit.
  pose proof Hwf as (Hs & _). pose proof (pow2_size_bounds _ Hs).
  set (b := (h + Z.of_nat k) mod r_size r) in *.
  assert (Hb : 0 <= b < r_size r) by (apply Z.mod_pos_bound; lia).
  assert (Hgen : ∀ m' j fuel, (m' + j = m)%nat → (m' <= fuel)%nat →
    while_fuel fuel (λ '(i, idx, _), lim i idx) (obj_copy1 r)
      (Z.of_nat (k + j), b + Z.of_nat j, copied r h t (k + j))
    = Some (Z.of_nat (k + m), b + Z.of_nat m, copied r h t (k + m))).
  { induction m' as [|m' IH]; intros j fuel' Hj Hfu.
    - simpl in Hj. subst j. destruct fuel'; simpl; by rewrite Hstop.
    - destruct fuel' as [|fuel']; [lia|]. cbn [while_fuel]. rewrite Hgo by lia.
      rewrite obj_copy1_copied; [|done|lia|lia|lia|].
      + simpl. specialize (IH (S j) fuel'). rewrite <- IH by lia.
        do 2 f_equal; [f_equal; lia|f_equal; lia].
      + replace (h + Z.of_nat (k + j)) with (h + Z.of_nat k + Z.of_nat j) by lia.
        rewrite <- Zplus_mod_idemp_l. fold b. rewrite Z.mod_small; lia. }
  specialize (Hgen m 0%nat fuel). rewrite !Nat.add_0_r, Z.add_0_r in Hgen. apply Hgen; lia.
Qed.

(** The loop unrolled four times: [q] passes copy [4 * q] elements. *)
Lemma obj_copy4_loop r h t fuel q :
  ring_wf r → (4 * q <= length t)%nat → Z.of_nat (4 * q) < 2 ^ 32 - 4 → (q <= fuel)%nat →
  h mod r_size r + Z.of_nat (4 * q) <= r_size r →
  while_fuel fuel (λ '(i, _, _), i <? Z.of_nat (4 * q)) (obj_copy4 r) (0, h mod r_size r, copied r h t 0)
  = Some (Z.of_nat (4 * q), h mod r_size r + Z.of_nat (4 * q), copied r h t (4 * q)).
Proof.
  intros Hwf Hlen H32 Hf Hfit.
  pose proof Hwf as (Hs & _). pose proof (pow2_size_bounds _ Hs).
  set (b := h mod r_size r) in *.
  assert (Hb : 0 <= b < r_size r) by (apply Z.mod_pos_bound; lia).
  assert (H1 : ∀ k, (k < 4 * q)%nat →
    obj_copy1 r (Z.of_nat k, b + Z.of_nat k, copied r h t k)
    = Some (Z.of_nat (S k), b + Z.of_nat (S k), copied r h t (S k))).
  { intros k Hk. rewrite obj_copy1_copied; [do 3 f_equal; lia|done|lia..|].
    rewrite <- Zplus_mod_idemp_l. fold b. rewrite Z.mod_small; lia. }
  assert (Hgen : ∀ m j fuel, (m + j = q)%nat → (m <= fuel)%nat →
    while_fuel fuel (λ '(i, _, _), i <? Z.of_nat (4 * q)) (obj_copy4 r)
      (Z.of_nat (4 * j), b + Z.of_nat (4 * j), copied r h t (4 * j))
    = Some (Z.of_nat (4 * q), b + Z.of_nat (4 * q), copied r h t (4 * q))).
  { induction m as [|m IH]; intros j fuel' Hj Hfu.
    - simpl in Hj. subst j. destruct fuel'; cbn [while_fuel]; by rewrite Z.ltb_irrefl.
    - destruct fuel' as [|fuel']; [lia|]. cbn [while_fuel].
      rewrite (proj2 (Z.ltb_lt _ _)) by lia.
      rewrite obj_copy4_unrolls. do 4 (rewrite H1 by lia; cbn [mbind option_bind]).
      rewrite <- (IH (S j) fuel') by lia.
      replace (4 * S j)%nat with (S (S (S (S (4 * j)))))%nat by lia. done. }
  specialize (Hgen q 0%nat fuel). rewrite Nat.mul_0_r, Z.add_0_r in Hgen. apply Hgen; lia.
Qed.

(** Without wrap-around: the unrolled loop, then the remaining one to three copies. *)
Lemma obj_copy_straight r h t n :
  ring_wf r → 0 <= n <= Z.of_nat (length t) → h mod r_size r + n < r_size r →
  nsfw_nshmem_ring_obj_copy r h t n = Some (copied r h t (Z.to_nat n)).
Proof.
  intros Hwf Hn Hfit.
  pose proof Hwf as (Hs & _). pose proof (pow2_size_bounds _ Hs).
  assert (Hb : 0 <= h mod r_size r < r_size r) by (apply Z.mod_pos_bound; lia).
  unfold nsfw_nshmem_ring_obj_copy. destruct (ring_index_ok r h Hwf) as [-> _].
  rewrite wrap32_small by (unfold is_u32; lia). rewrite (proj2 (Z.ltb_lt _ _)) by lia.
  rewrite land_not3 by (unfold is_u32; lia).
  assert (Hland : Z.land n 3 = n mod 4) by (apply (Z.land_ones n 2); lia). rewrite Hland. clear Hland.
  pose proof (Z.div_mod n 4) as Hdm. pose proof (Z.mod_pos_bound n 4) as Hmb.
  set (q := Z.to_nat (n / 4)). assert (n / 4 = Z.of_nat q) as Hq by (unfold q; lia).
  rewrite Hq in *. replace (4 * Z.of_nat q) with (Z.of_nat (4 * q)) by lia.
  pose proof (obj_copy4_loop r h t (S (Z.to_nat n)) q Hwf) as H4.
  change (copied r h t 0) with t in H4. rewrite H4 by lia. cbn [mbind option_bind].
  assert (H1 : ∀ k, (k < Z.to_nat n)%nat →
    obj_copy1 r (Z.of_nat k, h mod r_size r + Z.of_nat k, copied r h t k)
    = Some (Z.of_nat (S k), h mod r_size r + Z.of_nat (S k), copied r h t (S k))).
  { intros k Hk. rewrite obj_copy1_copied; [do 3 f_equal; lia|done|lia..|].
    rewrite <- Zplus_mod_idemp_l. rewrite (Z.mod_small (h mod _ + _)); lia. }
  assert (n mod 4 = 0 ∨ n mod 4 = 1 ∨ n mod 4 = 2 ∨ n mod 4 = 3) as Hk by lia.
  destruct Hk as [Hk|[Hk|[Hk|Hk]]]; rewrite Hk in *; cbn [Z.eqb Pos.eqb orb mbind option_bind snd];
    repeat (rewrite H1 by lia; cbn [mbind option_bind snd]); do 2 f_equal; lia.
Qed.

Lemma obj_copy_copies r h t n :
  ring_wf r → 0 <= n <= r_size r → n <= Z.of_nat (length t) →
  nsfw_nshmem_ring_obj_copy r h t n = Some (span r h (Z.to_nat n) ++ drop (Z.to_nat n) t).
Proof.
  intros Hwf Hn Hlen. change (span r h _ ++ drop _ t) with (copied r h t (Z.to_nat n)).
  pose proof Hwf as (Hs & _). pose proof (pow2_size_bounds _ Hs).
  assert (Hb : 0 <= h mod r_size r < r_size r) by (apply Z.mod_pos_bound; lia).
  destruct (Z.ltb_spec (h mod r_size r + n) (r_size r)) as [?|Hwrap].
  { apply obj_copy_straight; [done|lia..]. }
  unfold nsfw_nshmem_ring_obj_copy. destruct (ring_index_ok r h Hwf) as [-> _].
  rewrite wrap32_small by (unfold is_u32; lia). rewrite (proj2 (Z.ltb_ge _ _)) by lia.
  set (m1 := Z.to_nat (r_size r - h mod r_size r)). set (m2 := (Z.to_nat n - m1)%nat).
  pose proof (obj_copy_loop r h t (λ _ idx, idx <? r_size r) (S (Z.to_nat (r_size r))) 0 m1 Hwf) as HA.
  change (copied r h t 0) with t in HA. change (Z.of_nat 0) with 0 in HA. rewrite Z.add_0_r in HA.
  rewrite HA; [|lia|lia|lia|intros j Hj; apply Z.ltb_lt; lia|apply Z.ltb_ge; lia|lia].
  cbn [mbind option_bind]. rewrite Nat.add_0_l.
  assert (Hz : (h + Z.of_nat m1) mod r_size r = 0).
  { rewrite <- Zplus_mod_idemp_l. replace (h mod r_size r + Z.of_nat m1) with (r_size r) by lia.
    apply Z.mod_same. lia. }
  pose proof (obj_copy_loop r h t (λ i _, i <? n) (S (Z.to_nat n)) m1 m2 Hwf) as HB.
  rewrite Hz in HB.
  rewrite HB; [|lia|lia|lia|intros j Hj; apply Z.ltb_lt; lia|apply Z.ltb_ge; lia|lia].
  cbn [mbind option_bind snd]. do 2 f_equal. lia.
Qed.

(** ** Refinement: the sequential operations implement the abstract queue *)

(** On a quiet ring the fork recovery only touches the ownership flags. *)
Lemma enqueue_fork_recov_quiet pid r :
  head (prod r) = tail (prod r) →
  ∃ h t, nsfw_nshmem_enqueue_fork_recov pid r = set_prodflags r h t.
Proof.
  intros Heq. unfold nsfw_nshmem_enqueue_fork_recov.
  destruct (prodhflag r =? pid).
  - exists (prodhflag r), (prodtflag r). by destruct r.
  - cbn. rewrite Heq, Z.eqb_refl. by eexists _, _.
Qed.

Lemma enqueue_fork_recov_frame pid r :
  let r' := nsfw_nshmem_enqueue_fork_recov pid r in
  r_size r' = r_size r ∧ r_mask r' = r_mask r ∧ r_ring r' = r_ring r ∧ cons r' = cons r ∧
  tail (prod r') = tail (prod r).
Proof.
  unfold nsfw_nshmem_enqueue_fork_recov. destruct (prodhflag r =? pid); [done|].
  cbn. destruct (tail (prod r) =? head (prod r)); done.
Qed.

Lemma dequeue_fork_recov_quiet pid r :
  head (cons r) = tail (cons r) →
  ∃ h t, nsfw_nshmem_dequeue_fork_recov pid r = set_consflags r h t.
Proof.
  intros Heq. unfold nsfw_nshmem_dequeue_fork_recov.
  destruct (conshflag r =? pid).
  - exists (conshflag r), (constflag r). by destruct r.
  - cbn. rewrite Heq, Z.eqb_refl. by eexists _, _.
Qed.

Lemma sp_enqueue_fifo pid r v :
  quiet r →
  let '(res, l) := fifo_enqueue (r_size r) (contents r) v in
  ∃ r', nsfw_nshmem_ring_sp_enqueue pid r v = Some (res, r') ∧ quiet r' ∧
        r_size r' = r_size r ∧ contents r' = l.
Proof.
  intros (Hwf & Hp & Hc & Hfill). pose proof Hwf as (Hs & Hm & Hlen & Hu1 & Hu2 & Hu3 & Hu4).
  pose proof (pow2_size_bounds _ Hs) as Hb.
  unfold fifo_enqueue, nsfw_nshmem_ring_sp_enqueue. rewrite length_contents.
  assert (Hfree : wrap32 (wrap32 (r_size r + tail (cons r)) - head (prod r))
                  = r_size r - fill (tail (prod r)) (tail (cons r)))
    by (rewrite Hp; unfold fill in *; u32_lia).
  rewrite Hfree. destruct (Z.ltb_spec (fill (tail (prod r)) (tail (cons r))) (r_size r)) as [Hlt|Hge].
  2:{ rewrite (proj2 (Z.ltb_lt _ _)) by lia. exists r. done. }
  rewrite (proj2 (Z.ltb_ge _ _)) by lia.
  destruct (enqueue_fork_recov_quiet pid r Hp) as (h & t & ->).
  set (r1 := set_prod_head (set_prodflags r h t) (head (prod r) ⊞ 1)).
  assert (Hwf1 : ring_wf r1) by (repeat split; cbn; auto with dmm; u32_lia).
  change (r_mask r) with (r_mask r1). rewrite ring_store_slot by done. cbn [mbind option_bind].
  set (l1 := <[_ := v]> (r_ring r1)).
  exists (set_prod_tail (set_ring r1 l1) (head (prod r) ⊞ 1)).
  assert (Hf : fill (head (prod r) ⊞ 1) (tail (cons r)) = fill (tail (prod r)) (tail (cons r)) + 1)
    by (rewrite Hp; unfold fill in *; u32_lia).
  split; [done|]. split; [|split; [done|]].
  - split; [|cbn; rewrite Hf; repeat split; auto; lia].
    eapply (ring_wf_store r1); cbn; auto with dmm.
  - unfold contents. cbn. rewrite Hf.
    pose proof (wrap32_range (tail (prod r) - tail (cons r))) as Hr.
    rewrite Z2Nat.inj_add, Nat.add_1_r by (unfold fill, is_u32 in *; lia).
    rewrite (span_store r1 _ _ v l1); [done|done|unfold fill, is_u32 in *; cbn; lia| |done|done].
    unfold l1. cbn. do 2 f_equal. rewrite Hp. unfold fill in *.
    rewrite Z2Nat.id by (unfold is_u32 in Hr; lia).
    rewrite <- (wrap32_mod_size (r_size r)) by done.
    rewrite <- (wrap32_mod_size (r_size r) (_ + _)) by done. f_equal. rewrite wrap32_add_r. f_equal. lia.
Qed.

(** Dropping [k] elements from the old end advances the start of the span. *)
Lemma span_take_drop r t n k :
  (k <= n)%nat → take k (span r t n) = span r t k ∧ drop k (span r t n) = span r (t + Z.of_nat k) (n - k).
Proof.
  intros Hk. replace n with (k + (n - k))%nat at 1 2 by lia. rewrite !span_app.
  rewrite take_app_length' by (symmetry; apply length_span). rewrite drop_app_length' by (symmetry; apply length_span). done.
Qed.

Lemma sc_dequeuev_fifo pid r t n :
  quiet r → is_u32 n → n <= Z.of_nat (length t) →
  let '(k, out, l) := fifo_dequeue (contents r) n in
  ∃ r', nsfw_nshmem_ring_sc_dequeuev pid r t n = Some (k, out ++ drop (length out) t, r') ∧
        quiet r' ∧ r_size r' = r_size r ∧ contents r' = l.
Proof.
  intros (Hwf & Hp & Hc & Hfill) Hn Ht. pose proof Hwf as (Hs & Hm & Hlen & Hu1 & Hu2 & Hu3 & Hu4).
  pose proof (pow2_size_bounds _ Hs) as Hb.
  unfold fifo_dequeue, nsfw_nshmem_ring_sc_dequeuev. rewrite length_contents, Hc.
  fold (fill (tail (prod r)) (tail (cons r))). set (e := fill (tail (prod r)) (tail (cons r))) in *.
  assert (He : is_u32 e) by apply wrap32_range. unfold is_u32 in *.
  set (k := Z.min n e).
  replace (if e <? n then e else n) with k by (unfold k; destruct (Z.ltb_spec e n); lia).
  destruct (span_take_drop r (tail (cons r)) (Z.to_nat e) (Z.to_nat k)) as [Htk Hdr]; [lia|].
  change (span r (tail (cons r)) (Z.to_nat e)) with (contents r) in Htk, Hdr.
  rewrite Htk, Hdr, length_span.
  destruct ((e <? n) && negb (0 <? e)) eqn:Hempty.
  { assert (e = 0 ∧ k = 0) as [He0 Hk0] by (destruct (Z.ltb_spec e n), (Z.ltb_spec 0 e); simpl in *; lia).
    exists r. rewrite Hk0. unfold contents. fold e. rewrite He0. repeat split; cbn; auto; lia. }
  destruct (dequeue_fork_recov_quiet pid r Hc) as (fh & ft & ->).
  set (r1 := set_cons_head (set_consflags r fh ft) (tail (cons r) ⊞ k)).
  assert (Hwf1 : ring_wf r1) by (repeat split; cbn; auto with dmm; u32_lia).
  rewrite obj_copy_copies; [|done|cbn; lia|cbn; lia]. cbn [mbind option_bind].
  exists (set_cons_tail r1 (tail (cons r) ⊞ k)). split; [done|].
  assert (Hf : fill (tail (prod r)) (tail (cons r) ⊞ k) = e - k)
    by (unfold e, fill in *; u32_lia).
  split; [|split; [done|]].
  - split; [repeat split; cbn; auto with dmm; u32_lia|]. cbn. rewrite Hf. repeat split; auto; lia.
  - unfold contents. cbn. rewrite Hf.
    replace (Z.to_nat e - Z.to_nat k)%nat with (Z.to_nat (e - k)) by lia.
    rewrite span_wrap32 by (repeat split; cbn; auto with dmm; u32_lia).
    rewrite Z2Nat.id by lia. done.
Qed.

(** ** The single-thread pair *)

(** These two use [prod.head] and [cons.tail] only. *)
Definition st_fill (r : nsfw_mem_ring) : Z := fill (head (prod r)) (tail (cons r)).
Definition st_quiet (r : nsfw_mem_ring) : Prop := ring_wf r ∧ st_fill r <= r_size r.
Definition st_contents (r : nsfw_mem_ring) : list Z :=
  span r (tail (cons r)) (Z.to_nat (st_fill r)).

Lemma length_st_contents r : Z.of_nat (length (st_contents r)) = st_fill r.
Proof.
  unfold st_contents. rewrite length_span.
  pose proof (wrap32_range (head (prod r) - tail (cons r))). unfold st_fill, fill, is_u32 in *. lia.
Qed.

(** The test [head >= size + tail] is right as long as [size + tail] does not wrap. *)
Lemma singlethread_enqueue_fifo r v :
  st_quiet r → tail (cons r) + r_size r < 2 ^ 32 → tail (cons r) <= head (prod r) →
  let '(res, l) := fifo_enqueue (r_size r) (st_contents r) v in
  ∃ r', nsfw_nshmem_ring_singlethread_enqueue r v = Some (res, r') ∧ ring_wf r' ∧
        r_size r' = r_size r ∧ st_contents r' = l.
Proof.
  intros (Hwf & Hfill) Hnw Hle. pose proof Hwf as (Hs & Hm & Hlen & Hu1 & Hu2 & Hu3 & Hu4).
  pose proof (pow2_size_bounds _ Hs) as Hb. unfold is_u32 in *.
  assert (Hsf : st_fill r = head (prod r) - tail (cons r)) by (unfold st_fill, fill; apply Z.mod_small; lia).
  unfold fifo_enqueue, nsfw_nshmem_ring_singlethread_enqueue. rewrite length_st_contents, Hsf.
  rewrite (wrap32_small (_ + tail _)) by (unfold is_u32; lia).
  destruct (Z.ltb_spec (head (prod r) - tail (cons r)) (r_size r)).
  2:{ rewrite (proj2 (Z.leb_le _ _)) by lia. exists r. done. }
  rewrite (proj2 (Z.leb_gt _ _)) by lia. rewrite ring_store_slot by done. cbn [mbind option_bind].
  eexists. split; [done|]. split; [|split; [done|]].
  - eapply (ring_wf_store r); cbn; auto with dmm.
  - unfold st_contents, st_fill. cbn. fold (st_fill r).
    assert (Hf : fill (head (prod r) ⊞ 1) (tail (cons r)) = st_fill r + 1) by (rewrite Hsf; unfold fill; u32_lia).
    rewrite Hf, Z2Nat.inj_add, Nat.add_1_r by lia.
    erewrite (span_store r _ _ v); [done|done|lia|reflexivity|done|]. cbn. do 3 f_equal. lia.
Qed.

(** The invariant of the dequeue loop: [num] elements copied, [cons.tail] advanced by [num]. *)
Definition st_dequeue_inv (r : nsfw_mem_ring) (t : list Z) (n : Z) (s : Z * list Z * nsfw_mem_ring * bool) : Prop :=
  let '(num, box, r', fin) := s in
  0 <= num <= Z.min n (st_fill r) ∧ r' = set_cons_tail r (tail (cons r) ⊞ num) ∧
  box = copied r (tail (cons r)) t (Z.to_nat num) ∧ (fin = true → num = st_fill r).

Lemma singlethread_dequeue_step_inv r t n num box r' :
  st_quiet r → is_u32 n → n <= Z.of_nat (length t) → num < n →
  st_dequeue_inv r t n (num, box, r', false) →
  ∃ num1 box1 r1 fin1, singlethread_dequeue_step (num, box, r', false) = Some (num1, box1, r1, fin1) ∧
    st_dequeue_inv r t n (num1, box1, r1, fin1) ∧
    (num1 = if fin1 then num else num + 1).
Proof.
  intros (Hwf & Hfill) Hn Ht Hlt (Hnum & -> & -> & _).
  pose proof Hwf as (Hs & Hm & Hlen & Hu1 & Hu2 & Hu3 & Hu4). pose proof (pow2_size_bounds _ Hs) as Hb.
  set (e := st_fill r) in *. set (c := tail (cons r)) in *.
  assert (He : is_u32 e) by apply wrap32_range. unfold is_u32 in *.
  assert (Hte : head (prod r) = c ⊞ e) by (unfold e, st_fill, fill; fold c; u32_lia).
  unfold singlethread_dequeue_step. cbn [prod cons tail set_cons_tail set_cons r_mask].
  destruct (Z.eqb_spec (head (prod r)) (c ⊞ num)) as [Heq|Hne].
  - eexists _, _, _, true; split; [done|]. split; [|done]. repeat split; auto; try lia.
    intros _. rewrite Hte in Heq. fold e in Hnum |- *. clear -Heq Hnum He Hn. u32_lia.
  - assert (num <> e) by (intros ->; done).
    set (r' := set_cons_tail r (c ⊞ num)).
    assert (Hwf' : ring_wf r') by (repeat split; cbn; auto with dmm; u32_lia).
    change (r_mask r) with (r_mask r').
    rewrite (ring_load_slot r') by done. cbn [mbind option_bind].
    rewrite awrite_Some by (rewrite length_copied; lia). cbn [mbind option_bind].
    assert (Hn1 : num ⊞ 1 = num + 1) by (apply wrap32_small; unfold is_u32; lia). rewrite Hn1.
    eexists _, _, _, false; split; [done|]. split; [|done].
    unfold st_dequeue_inv. fold c e. repeat split; [lia|lia| | |done].
    + unfold r', set_cons_tail, set_cons. cbn. rewrite wrap32_add_l, Z.add_assoc. done.
    + rewrite Z2Nat.inj_add, Nat.add_1_r, copied_S by lia. f_equal.
      rewrite <- (Z.add_0_r (c ⊞ num)), (slot_wrap32 r'), Z.add_0_r, Z2Nat.id by (done || lia). done.
Qed.

Lemma singlethread_dequeuev_fifo r t n :
  st_quiet r → is_u32 n → n <= Z.of_nat (length t) →
  let '(k, out, l) := fifo_dequeue (st_contents r) n in
  ∃ r', nsfw_nshmem_ring_singlethread_dequeuev r t n = Some (k, out ++ drop (length out) t, r') ∧
        st_quiet r' ∧ r_size r' = r_size r ∧ st_contents r' = l.
Proof.
  intros Hq Hn Ht. pose proof Hq as (Hwf & Hfill).
  pose proof Hwf as (Hs & Hm & Hlen & Hu1 & Hu2 & Hu3 & Hu4). pose proof (pow2_size_bounds _ Hs) as Hb.
  unfold fifo_dequeue, nsfw_nshmem_ring_singlethread_dequeuev. rewrite length_st_contents.
  assert (He : is_u32 (st_fill r)) by apply wrap32_range. unfold is_u32 in He.
  destruct (while_fuel_rule (st_dequeue_inv r t n)
      (λ s, let '(num, _, _, fin) := s in (Z.to_nat (n - num) + if fin : bool then 0 else 1)%nat)
      (λ '(num, _, _, fin), negb fin && (num <? n)) singlethread_dequeue_step)
    with (fuel := S (Z.to_nat n)) (s := (0, t, r, false)) as ([[[num box] r'] fin] & -> & HI & Hstop).
  - intros [[[num box] r'] []] HI Hcond; [done|]. simpl in Hcond. apply Z.ltb_lt in Hcond.
    destruct (singlethread_dequeue_step_inv r t n num box r') as (? & ? & ? & fin & ? & ? & ->); auto.
    eexists; split; [done|]. split; [done|]. destruct fin; lia.
  - unfold is_u32 in Hn. repeat split; auto; try lia. rewrite Z.add_0_r.
    rewrite wrap32_small by done. by destruct r as [? ? ? ? ? ? ? ? ? ? ? [] ?].
  - unfold is_u32 in Hn. lia.
  - destruct HI as (Hnum & -> & -> & Hfin). cbn [mbind option_bind].
    replace (Z.min n (st_fill r)) with num by (destruct fin; simpl in Hstop; [|apply Z.ltb_ge in Hstop]; lia).
    destruct (span_take_drop r (tail (cons r)) (Z.to_nat (st_fill r)) (Z.to_nat num)) as [Htk Hdr]; [lia|].
    fold (st_contents r) in Htk, Hdr. rewrite Htk, Hdr, length_span.
    set (r' := set_cons_tail r (tail (cons r) ⊞ num)).
    assert (Hwf' : ring_wf r') by (repeat split; cbn; auto with dmm; u32_lia).
    assert (Hf : st_fill r' = st_fill r - num) by (unfold st_fill, fill in *; cbn; u32_lia).
    exists r'. split; [done|]. split; [split; [done|]; cbn; lia|]. split; [done|].
    unfold st_contents. rewrite Hf. change (tail (cons r')) with (tail (cons r) ⊞ num).
    rewrite span_wrap32 by done. rewrite Z2Nat.id by lia.
    replace (Z.to_nat (st_fill r) - Z.to_nat num)%nat with (Z.to_nat (st_fill r - num)) by lia. done.
Qed.

(** ** The properties *)

(** [nsfw_nshmem_ring_obj_copy], with its loop unrolled four times, its switch and its
    wrap-around branch, copies exactly the [n] consecutive slots from position [cons_head]
    into the first [n] entries of the table, without an access out of range. *)
Lemma obj_copy_spec r h t n :
  ring_wf r → 0 <= n <= r_size r → n <= Z.of_nat (length t) →
  nsfw_nshmem_ring_obj_copy r h t n = Some (span r h (Z.to_nat n) ++ drop (Z.to_nat n) t).
Proof. apply obj_copy_copies. Qed.

Lemma obj_copy_spec_witness :
  nsfw_nshmem_ring_obj_copy (set_ring ring4 [5;6;7;8]) 6 [0;0;0;9] 3 = Some [7;8;5;9].
Proof.
  change ([7;8;5;9]) with (span (set_ring ring4 [5;6;7;8]) 6 (Z.to_nat 3) ++ drop (Z.to_nat 3) [0;0;0;9]).
  apply (obj_copy_spec (set_ring ring4 [5;6;7;8]) 6 [0;0;0;9] 3); [|vm_compute; intuition congruence..].
  split; [exists 2; split; [lia|reflexivity]|]. vm_compute. intuition congruence.
Defined.

(** The single-producer, single-consumer ring meets the contract of a bounded queue. *)
Lemma contents_bounded r : quiet r → Z.of_nat (length (contents r)) <= r_size r.
Proof. intros (_ & _ & _ & Hf). by rewrite length_contents. Qed.

Definition sp_sc_queue (curpid : Z) : BoundedQueue nsfw_mem_ring := {|
  q_inv := quiet;
  q_contents := contents;
  q_cap := r_size;
  q_enqueue := nsfw_nshmem_ring_sp_enqueue curpid;
  q_dequeuev := nsfw_nshmem_ring_sc_dequeuev curpid;
  q_bounded := contents_bounded;
  q_enqueue_spec := sp_enqueue_fifo curpid;
  q_dequeuev_spec := sc_dequeuev_fifo curpid
|}.

Lemma ring_init_wf size addrbase memtype flag pid :
  pow2_size size → ring_wf (nsfw_mem_ring_init size addrbase memtype flag pid).
Proof.
  intros Hs. pose proof (pow2_size_bounds _ Hs).
  repeat split; cbn; auto; try lia.
  - apply wrap32_small. unfold is_u32. lia.
  - rewrite length_fmap, length_seq. lia.
Qed.

Lemma ring_init_quiet size addrbase memtype flag pid : pow2_size size → quiet (nsfw_mem_ring_init size addrbase memtype flag pid).
Proof. intros Hs. pose proof (pow2_size_bounds _ Hs). split; [by apply ring_init_wf|]. cbn. repeat split. change (fill 0 0) with 0. lia. Qed.

Lemma ring4_quiet : quiet ring4.
Proof.
  split; [apply ring_init_wf; exists 2; split; [lia|done]|]. vm_compute. intuition congruence.
Qed.

(** C33: Single-producer enqueue refines the bounded FIFO queue: on a ring no operation is
    halfway through it appends the value and returns 1 when there is room, returns 0 and
    changes nothing observable when the ring is full, and leaves the ring well formed; the
    counters may wrap at 32 bits and the calling process may be a fork of the creator. *)
Theorem sp_enqueue_refines pid r v :
  quiet r →
  let '(res, l) := fifo_enqueue (r_size r) (contents r) v in
  ∃ r', nsfw_nshmem_ring_sp_enqueue pid r v = Some (res, r') ∧ quiet r' ∧
        r_size r' = r_size r ∧ contents r' = l.
Proof. apply sp_enqueue_fifo. Qed.

Lemma sp_enqueue_refines_witness :
  ∃ r', nsfw_nshmem_ring_sp_enqueue 9 ring4 21 = Some (1, r') ∧ contents r' = [21].
Proof.
  destruct (sp_enqueue_refines 9 ring4 21 ring4_quiet) as (r' & He & _ & _ & Hc).
  exists r'. split; [exact He|exact Hc].
Defined.

(** Single-consumer batch dequeue refines the bounded FIFO queue: it returns the number
    of elements taken (the smaller of [n] and the fill level), writes them oldest first at
    the start of the caller's table, leaves the rest of the table alone and keeps the
    remaining elements in order. *)
Lemma sc_dequeuev_refines pid r t n :
  quiet r → is_u32 n → n <= Z.of_nat (length t) →
  let '(k, out, l) := fifo_dequeue (contents r) n in
  ∃ r', nsfw_nshmem_ring_sc_dequeuev pid r t n = Some (k, out ++ drop (length out) t, r') ∧
        quiet r' ∧ r_size r' = r_size r ∧ contents r' = l.
Proof. apply sc_dequeuev_fifo. Qed.

Definition ring4_wrapped : nsfw_mem_ring :=
  set_ring (set_cons (set_prod ring4 (mk_headtail 1 1)) (mk_headtail (2 ^ 32 - 2) (2 ^ 32 - 2))) [33; 0; 31; 32].

Lemma sc_dequeuev_refines_witness :
  contents ring4_wrapped = [31; 32; 33] ∧
  ∃ r', nsfw_nshmem_ring_sc_dequeuev 7 ring4_wrapped [0; 0; 5] 2 = Some (2, [31; 32; 5], r') ∧ contents r' = [33].
Proof.
  split; [vm_compute; reflexivity|].
  assert (Hq : quiet ring4_wrapped)
    by (split; [repeat split; [exists 2; split; [lia|done]|..]; vm_compute; congruence|vm_compute; intuition congruence]).
  destruct (sc_dequeuev_refines 7 ring4_wrapped [0; 0; 5] 2 Hq) as (r' & He & _ & _ & Hc);
    [split; vm_compute; congruence|vm_compute; congruence|].
  exists r'. split; [exact He|exact Hc].
Defined.

(** A value list that fits is accepted by an initialised ring whole, and one batch dequeue
    gives the same list back, whatever process runs the operations. *)
Lemma ring_init_roundtrip pid size addrbase memtype flag vs t :
  pow2_size size → Z.of_nat (length vs) <= size → length t = length vs →
  let r := nsfw_mem_ring_init size addrbase memtype flag pid in
  ∃ r1 r2, enqueue_all (H := sp_sc_queue pid) r vs = Some (Z.of_nat (length vs), r1) ∧
    nsfw_nshmem_ring_sc_dequeuev pid r1 t (Z.of_nat (length vs)) = Some (Z.of_nat (length vs), vs, r2) ∧
    quiet r2 ∧ contents r2 = [].
Proof.
  intros Hs Hvs Ht r. pose proof (pow2_size_bounds _ Hs).
  apply (enqueue_dequeue_roundtrip (H := sp_sc_queue pid)); cbn; auto; [by apply ring_init_quiet|lia].
Qed.

Lemma ring_init_roundtrip_witness :
  ∃ r1 r2, enqueue_all (H := sp_sc_queue 7) ring4 [1; 2; 3; 4] = Some (4, r1) ∧
    nsfw_nshmem_ring_sc_dequeuev 7 r1 [0; 0; 0; 0] 4 = Some (4, [1; 2; 3; 4], r2) ∧
    quiet r2 ∧ contents r2 = [].
Proof.
  apply (ring_init_roundtrip 7 4 0 0 0 [1; 2; 3; 4] [0; 0; 0; 0]);
    [exists 2; split; [lia|done]|simpl; lia|done].
Defined.

(** The single-thread operations refine the bounded FIFO queue: the dequeue loop ends and does so also where the
    counters wrap, the enqueue as long as [cons.tail + size] does not pass 32 bits. *)
Lemma singlethread_refines r v t n :
  st_quiet r → is_u32 n → n <= Z.of_nat (length t) →
  (tail (cons r) + r_size r < 2 ^ 32 → tail (cons r) <= head (prod r) →
   let '(res, l) := fifo_enqueue (r_size r) (st_contents r) v in
   ∃ r', nsfw_nshmem_ring_singlethread_enqueue r v = Some (res, r') ∧ ring_wf r' ∧
         r_size r' = r_size r ∧ st_contents r' = l) ∧
  let '(k, out, l) := fifo_dequeue (st_contents r) n in
  ∃ r', nsfw_nshmem_ring_singlethread_dequeuev r t n = Some (k, out ++ drop (length out) t, r') ∧
        st_quiet r' ∧ r_size r' = r_size r ∧ st_contents r' = l.
Proof. intros Hq Hn Ht. split; [intros; by apply singlethread_enqueue_fifo|by apply singlethread_dequeuev_fifo]. Qed.

Lemma singlethread_refines_witness :
  (∃ r', nsfw_nshmem_ring_singlethread_enqueue ring4 21 = Some (1, r') ∧ st_contents r' = [21]) ∧
  ∃ r', nsfw_nshmem_ring_singlethread_dequeuev ring4_wrapped [0; 0; 5] 2 = Some (2, [31; 32; 5], r') ∧ st_contents r' = [33].
Proof.
  split.
  - destruct (singlethread_refines ring4 21 [0] 1) as [H _];
      [split; [apply ring4_quiet|vm_compute; congruence]|split; vm_compute; congruence|vm_compute; congruence|].
    destruct H as (r' & He & _ & _ & Hc); [reflexivity|vm_compute; congruence|]. exists r'. split; [exact He|exact Hc].
  - destruct (singlethread_refines ring4_wrapped 0 [0; 0; 5] 2) as [_ (r' & He & _ & _ & Hc)];
      [split; [repeat split; [exists 2; split; [lia|done]|..]; vm_compute; congruence|vm_compute; congruence]
      |split; vm_compute; congruence|vm_compute; congruence|].
    exists r'. split; [exact He|exact Hc].
Defined.

(** The 32-bit wrap blocks the single-thread ring for good: once [cons.tail] is within
    [size] of the end of the counter range, every enqueue is refused although the ring has
    room, and on an empty ring every dequeue returns nothing, so neither counter moves. *)
Lemma singlethread_ring_stuck r v t n :
  ring_wf r → 2 ^ 32 <= tail (cons r) + r_size r → head (prod r) = tail (cons r) →
  0 <= n → 
  st_contents r = [] ∧
  nsfw_nshmem_ring_singlethread_enqueue r v = Some (0, r) ∧
  nsfw_nshmem_ring_singlethread_dequeuev r t n = Some (0, t, r).
Proof.
  intros (Hs & _ & _ & Hu1 & _ & _ & Hu4) Hw Heq Hn. pose proof (pow2_size_bounds _ Hs).
  split; [|split].
  - unfold st_contents, st_fill, fill. by rewrite Heq, Z.sub_diag.
  - unfold nsfw_nshmem_ring_singlethread_enqueue. rewrite (proj2 (Z.leb_le _ _)); [done|].
    rewrite Heq. u32_lia.
  - unfold nsfw_nshmem_ring_singlethread_dequeuev. cbn [while_fuel negb andb].
    destruct (0 <? n); [|done]. unfold singlethread_dequeue_step.
    rewrite Heq, Z.eqb_refl. cbn [mbind option_bind]. destruct (Z.to_nat n); done.
Qed.

Lemma singlethread_ring_stuck_witness :
  let r := set_cons (set_prod ring4 (mk_headtail (2 ^ 32 - 4) 0)) (mk_headtail 0 (2 ^ 32 - 4)) in
  nsfw_nshmem_ring_singlethread_enqueue r 5 = Some (0, r).
Proof.
  intros r. apply (singlethread_ring_stuck r 5 [0] 1);
    [repeat split; [exists 2; split; [lia|done]|..]; vm_compute; congruence|vm_compute; congruence|reflexivity|lia].
Defined.

(** A process forked while a single-producer enqueue was between its two counter updates
    publishes a slot nobody wrote: the producer head is read before the recovery resets it, so
    the next enqueue stores its value one slot too far and makes both slots visible. *)
Lemma sp_enqueue_after_fork_publishes_stale pid r v :
  ring_wf r → head (prod r) = tail (prod r) ⊞ 1 →
  fill (tail (prod r)) (tail (cons r)) + 1 < r_size r →
  ∃ r', nsfw_nshmem_ring_sp_enqueue pid r v = Some (1, r') ∧
        contents r' = contents r ++ [slot r (tail (prod r)); v].
Proof.
  intros Hwf Hh Hf. pose proof Hwf as (Hs & Hm & Hlen & Hu1 & Hu2 & Hu3 & Hu4).
  pose proof (pow2_size_bounds _ Hs) as Hb. pose proof (wrap32_range (tail (prod r) - tail (cons r))) as Hr.
  change (is_u32 (fill (tail (prod r)) (tail (cons r)))) in Hr.
  unfold nsfw_nshmem_ring_sp_enqueue.
  rewrite (proj2 (Z.ltb_ge _ _)) by (rewrite Hh; unfold fill in *; u32_lia).
  set (r1 := set_prod_head _ _).
  destruct (enqueue_fork_recov_frame pid r) as (Hs0 & Hm1 & Hg1 & Hc1 & Ht1).
  assert (Hwf1 : ring_wf r1) by (repeat split; cbn; rewrite ?Hs0, ?Hm1, ?Hg1, ?Hc1, ?Ht1; auto with dmm; u32_lia).
  assert (Hs1 : r_size r1 = r_size r) by done. rewrite <- Hm1.
  change (r_mask (nsfw_nshmem_enqueue_fork_recov pid r)) with (r_mask r1).
  rewrite ring_store_slot by done. cbn [mbind option_bind].
  eexists. split; [done|]. unfold contents. cbn. rewrite Hc1.
  set (f := fill (tail (prod r)) (tail (cons r))) in *.
  assert (Hf' : fill (head (prod r) ⊞ 1) (tail (cons r)) = f + 2) by (rewrite Hh; unfold f, fill in *; u32_lia).
  rewrite Hf'. replace (Z.to_nat (f + 2)) with (S (S (Z.to_nat f))) by (unfold is_u32 in Hr; lia).
  assert (Hpos : ∀ k, 0 <= k <= 1 → (tail (prod r) ⊞ k) mod r_size r = (tail (cons r) + (f + k)) mod r_size r).
  { intros k Hk. rewrite wrap32_mod_size by done. rewrite <- (wrap32_mod_size (r_size r)) by done.
    rewrite <- (wrap32_mod_size _ (tail (cons r) + _)) by done. f_equal. unfold f, fill. u32_lia. }
  unfold is_u32 in Hr. erewrite (span_store r1 _ _ v); [|done|rewrite Hs1; lia| |rewrite Hs1; done|reflexivity].
  2:{ cbn. rewrite Hs0, Hg1. do 2 f_equal. rewrite Hh, Hpos by lia. f_equal. lia. }
  rewrite span_S, <- app_assoc.
  assert (Hsl : ∀ p, slot r1 p = slot r p) by (intros p; unfold slot; cbn; by rewrite Hs0, Hg1).
  f_equal; [apply list_fmap_ext; intros; apply Hsl|]. simpl. rewrite Hsl. f_equal. apply slot_mod.
  rewrite <- (Z.add_0_r (tail (prod r))), <- (wrap32_mod_size _ (_ + 0)), Hpos by (done || lia). f_equal. lia.
Qed.

Lemma sp_enqueue_after_fork_publishes_stale_witness :
  let r := set_prod (set_ring ring4 [70; 71; 72; 73]) (mk_headtail 2 1) in
  contents r = [70] ∧
  ∃ r', nsfw_nshmem_ring_sp_enqueue 8 r 5 = Some (1, r') ∧ contents r' = [70; 71; 5].
Proof.
  intros r. split; [reflexivity|].
  apply (sp_enqueue_after_fork_publishes_stale 8 r 5);
    [repeat split; [exists 2; split; [lia|done]|..]; vm_compute; congruence|reflexivity|reflexivity].
Defined.
