(* ===== verification/ShmRing.v ===== *)
(** * The shared-memory ring (src/src/framework/common/mem_mgr/nsfw_shmem/nsfw_shmem_ring.c)

    A slot holds a 24-bit version and a 40-bit offset; the producers and consumers
    agree through compare-and-swap on the slots, and [prod.head] and [cons.tail]
    are only hints of where to start looking.  The multi-producer and
    multi-consumer operations are step functions, one access to shared memory per
    step: iterated by one thread they are the function, interleaved they are the
    concurrent program.  The operations of one producer, one consumer or one
    thread are ordinary loops. *)
From S2P Require Import Prelude.
From S2P Require Import Ring.

Definition PERFRING_ADDR_RANGE : Z := 0xFFFFFFFFFF.

(** Translation between local and shared addresses, as the process that maps the memory at its
    shared address has it. *)
Definition ADDR_LTOSH_EXT (addr : Z) : Z := addr.
Definition ADDR_SHTOL (addr : Z) : Z := addr.

(** [__sync_bool_compare_and_swap] on the two hints and on a slot. *)
Definition cas_head (r : nsfw_mem_ring) (old new : Z) : nsfw_mem_ring :=
  if head (prod r) =? old then set_prod_head r new else r.
Definition cas_tail (r : nsfw_mem_ring) (old new : Z) : nsfw_mem_ring :=
  if tail (cons r) =? old then set_cons_tail r new else r.
Definition cas_slot (r : nsfw_mem_ring) (i old new : Z) : option (bool * nsfw_mem_ring) :=
  v ← ring_load r i;
  if v =? old then r ← ring_store r i new; Some (true, r) else Some (false, r).

(** The range check of both enqueue functions. *)
Definition box_in_range (r : nsfw_mem_ring) (box : Z) : bool :=
  let prmBox := ADDR_LTOSH_EXT box in
  negb ((prmBox <=? Addrbase r) || (Addrbase r + PERFRING_ADDR_RANGE <? prmBox)).

(** ** Multi-producer enqueue *)

(** Where a thread is: about to read [cons.tail]; about to look at the slot at the tail of a full
    ring; to correct the tail; to read the slot's version; to swap the slot; to read
    [prod.head] after success; to correct the head; to move to the next position; done. *)
Inductive enq_pc :=
  | E_tail (CurHead : Z)
  | E_full (CurHead tmpTail : Z)
  | E_castail (CurHead tmpTail : Z)
  | E_slot (CurHead : Z)
  | E_cas (CurHead : Z)
  | E_head (CurHead : Z)
  | E_cashead (CurHead tmpHead : Z)
  | E_next (CurHead : Z)
  | E_done (ret : Z).

Definition mp_enqueue_start (r : nsfw_mem_ring) (box : Z) : enq_pc :=
  let CurHead := head (prod r) in
  if negb (box_in_range r box) then E_done (-1) else E_tail CurHead.

Definition mp_enqueue_step (box : Z) (r : nsfw_mem_ring) (pc : enq_pc) : option (nsfw_mem_ring * enq_pc) :=
  let mask := r_mask r in
  let size := r_size r in
  match pc with
  | E_tail CurHead =>
      let tmpTail := tail (cons r) in
      Some (r, if tmpTail ⊞ size ⊟ CurHead =? 0 then E_full CurHead tmpTail else E_slot CurHead)
  | E_full CurHead tmpTail =>
      d ← ring_load r (Z.land tmpTail mask);
      Some (r, if data_val d =? 0 then E_castail CurHead tmpTail else E_done 0)
  | E_castail CurHead tmpTail =>
      Some (cas_tail r tmpTail (tmpTail ⊞ 1), E_slot CurHead)
  | E_slot CurHead =>
      d ← ring_load r (Z.land CurHead mask);
      Some (r, if data_ver d =? data_ver (mk_data (CurHead ⊟ size) 0) then E_cas CurHead else E_next CurHead)
  | E_cas CurHead =>
      '(ok, r) ← cas_slot r (Z.land CurHead mask) (mk_data (CurHead ⊟ size) 0)
                   (mk_data CurHead (ADDR_LTOSH_EXT box - Addrbase r));
      Some (r, if (ok : bool) then E_head CurHead else E_next CurHead)
  | E_head CurHead =>
      let tmpHead := head (prod r) in
      Some (r, if (Z.land CurHead 3 =? 0) && (2 ^ 31 <? tmpHead ⊟ CurHead)
               then E_cashead CurHead tmpHead else E_done 1)
  | E_cashead CurHead tmpHead => Some (cas_head r tmpHead (CurHead ⊞ 1), E_done 1)
  | E_next CurHead =>
      let tmpHead := head (prod r) in
      Some (r, E_tail (if CurHead ⊟ tmpHead <? mask ⊟ 1 then CurHead ⊞ 1 else tmpHead))
  | E_done _ => None
  end.

Definition enq_running (s : nsfw_mem_ring * enq_pc) : bool :=
  match s.2 with E_done _ => false | _ => true end.

(** The function run by one thread without interference. *)
Definition nsfw_shmem_ring_mp_enqueue (fuel : nat) (r : nsfw_mem_ring) (box : Z) : option (Z * nsfw_mem_ring) :=
  '(r, pc) ← while_fuel fuel enq_running (λ '(r, pc), mp_enqueue_step box r pc) (r, mp_enqueue_start r box);
  match pc with E_done ret => Some (ret, r) | _ => None end.

(** ** Multi-consumer dequeue *)

(** As for the enqueue, with the values taken so far; [ex] is the slot that was read. *)
Inductive deq_pc :=
  | D_head (CurTail : Z)
  | D_empty (CurTail tmpHead : Z)
  | D_cashead (CurTail tmpHead : Z)
  | D_slot (CurTail : Z)
  | D_cas (CurTail ex : Z)
  | D_tail (CurTail : Z)
  | D_castail (CurTail tmpTail : Z)
  | D_next (CurTail : Z)
  | D_done.

(** After a success [nsfw_shmem_ring_mc_dequeue] ([single]) leaves the loop. *)
Definition deq_after (single : bool) (CurTail : Z) : deq_pc := if single then D_done else D_next CurTail.

Definition mc_dequeue_step (single : bool) (n : Z) (r : nsfw_mem_ring) (pc : deq_pc) (box : list Z) : option (nsfw_mem_ring * deq_pc * list Z) :=
  let mask := r_mask r in
  let deqNum := Z.of_nat (length box) in
  match pc with
  | D_head CurTail =>
      let tmpHead := head (prod r) in
      Some (r, if CurTail =? tmpHead then D_empty CurTail tmpHead else D_slot CurTail, box)
  | D_empty CurTail tmpHead =>
      d ← ring_load r (Z.land tmpHead mask);
      Some (r, if (single || (deqNum =? 0)) && negb (data_val d =? 0) then D_cashead CurTail tmpHead else D_done, box)
  | D_cashead CurTail tmpHead => Some (cas_head r tmpHead (tmpHead ⊞ 1), D_slot CurTail, box)
  | D_slot CurTail =>
      ex ← ring_load r (Z.land CurTail mask);
      Some (r, if (data_ver (mk_data CurTail 0) =? data_ver ex) && negb (data_val ex =? 0)
               then D_cas CurTail ex else D_next CurTail, box)
  | D_cas CurTail ex =>
      '(ok, r) ← cas_slot r (Z.land CurTail mask) ex (mk_data CurTail 0);
      Some (if (ok : bool) then (r, D_tail CurTail, box ++ [ADDR_SHTOL (Addrbase r + data_val ex)])
            else (r, D_next CurTail, box))
  | D_tail CurTail =>
      let tmpTail := tail (cons r) in
      Some (r, if (Z.land CurTail 3 =? 0) && (2 ^ 31 <? tmpTail ⊟ CurTail)
               then D_castail CurTail tmpTail else deq_after single CurTail, box)
  | D_castail CurTail tmpTail => Some (cas_tail r tmpTail (CurTail ⊞ 1), deq_after single CurTail, box)
  | D_next CurTail =>
      let tmpTail := tail (cons r) in
      let CurTail := if CurTail ⊟ tmpTail <? mask ⊟ 1 then CurTail ⊞ 1 else tmpTail in
      Some (r, if single || (deqNum <? n) then D_head CurTail else D_done, box)
  | D_done => None
  end.

Definition deq_running (s : nsfw_mem_ring * deq_pc * list Z) : bool :=
  match s.1.2 with D_done => false | _ => true end.

(** The functions run by one thread without interference: the return value is the number of
    values stored in [box]. *)
Definition deq_run (single : bool) (fuel : nat) (n : Z) (r : nsfw_mem_ring) : option (list Z * nsfw_mem_ring) :=
  '(r, _, box) ← while_fuel fuel deq_running (λ '(r, pc, box), mc_dequeue_step single n r pc box)
                   (r, D_head (tail (cons r)), []);
  Some (box, r).

Definition nsfw_shmem_ring_mc_dequeue (fuel : nat) (r : nsfw_mem_ring) : option (list Z * nsfw_mem_ring) :=
  deq_run true fuel 1 r.
Definition nsfw_shmem_ring_mc_dequeuev (fuel : nat) (r : nsfw_mem_ring) (n : Z) : option (list Z * nsfw_mem_ring) :=
  deq_run false fuel n r.

(** ** One producer, one consumer *)

(** One pass of the loop; the last component is the return value. *)
Definition sp_enqueue_step (box : Z) (s : nsfw_mem_ring * Z * option Z) : option (nsfw_mem_ring * Z * option Z) :=
  let '(r, CurHead, _) := s in
  let mask := r_mask r in
  let uisize := r_size r in
  let tmpTail := tail (cons r) in
  let full := tmpTail ⊞ uisize ⊟ CurHead =? 0 in
  d ← (if full then ring_load r (Z.land tmpTail mask) else Some 0);
  if full && negb (data_val d =? 0) then Some (r, CurHead, Some 0)
  else
    let r := if full then cas_tail r tmpTail (tmpTail ⊞ 1) else r in
    d ← ring_load r (Z.land CurHead mask);
    if d =? mk_data (CurHead ⊟ uisize) 0 then
      r ← ring_store r (Z.land CurHead mask) (mk_data CurHead (ADDR_LTOSH_EXT box - Addrbase r));
      Some (set_prod_head r (CurHead ⊞ 1), CurHead, Some 1)
    else Some (r, CurHead ⊞ 1, None).

Definition nsfw_shmem_ring_sp_enqueue (fuel : nat) (r : nsfw_mem_ring) (box : Z) : option (Z * nsfw_mem_ring) :=
  let CurHead := head (prod r) in
  if negb (box_in_range r box) then Some (-1, r)
  else
    '(r, _, ret) ← while_fuel fuel (λ s, bool_decide (s.2 = None)) (sp_enqueue_step box) (r, CurHead, None);
    ret ← ret; Some (ret, r).

(** One pass of [nsfw_shmem_ring_sc_dequeuev]; [nsfw_shmem_ring_sc_dequeue] ([single]) leaves after a
    success. *)
Definition sc_dequeue_step (single : bool) (n : Z) (s : nsfw_mem_ring * Z * list Z * bool) : option (nsfw_mem_ring * Z * list Z * bool) :=
  let '(r, CurTail, box, _) := s in
  let mask := r_mask r in
  let tmpHead := head (prod r) in
  let empty := CurTail =? tmpHead in
  d ← (if empty then ring_load r (Z.land tmpHead mask) else Some 0);
  if empty && negb ((single || (Z.of_nat (length box) =? 0)) && negb (data_val d =? 0))
  then Some (r, CurTail, box, true)
  else
    let r := if empty then cas_head r tmpHead (tmpHead ⊞ 1) else r in
    ex ← ring_load r (Z.land CurTail mask);
    if (data_ver (mk_data CurTail 0) =? data_ver ex) && negb (data_val ex =? 0) then
      r ← ring_store r (Z.land CurTail mask) (mk_data CurTail 0);
      let box := box ++ [ADDR_SHTOL (Addrbase r + data_val ex)] in
      Some (set_cons_tail r (CurTail ⊞ 1), CurTail ⊞ 1, box, single || negb (Z.of_nat (length box) <? n))
    else Some (r, CurTail ⊞ 1, box, negb (single || (Z.of_nat (length box) <? n))).

Definition sc_run (single : bool) (fuel : nat) (n : Z) (r : nsfw_mem_ring) : option (list Z * nsfw_mem_ring) :=
  '(r, _, box, _) ← while_fuel fuel (λ s, negb s.2) (sc_dequeue_step single n) (r, tail (cons r), [], false);
  Some (box, r).

Definition nsfw_shmem_ring_sc_dequeue (fuel : nat) (r : nsfw_mem_ring) : option (list Z * nsfw_mem_ring) :=
  sc_run true fuel 1 r.
Definition nsfw_shmem_ring_sc_dequeuev (fuel : nat) (r : nsfw_mem_ring) (n : Z) : option (list Z * nsfw_mem_ring) :=
  sc_run false fuel n r.

(** ** One thread *)

Definition nsfw_shmem_ring_singlethread_enqueue (r : nsfw_mem_ring) (box : Z) : option (Z * nsfw_mem_ring) :=
  if r_size r ⊞ tail (cons r) <=? head (prod r) then Some (0, r)
  else
    let prmBox := ADDR_LTOSH_EXT box in
    let h := head (prod r) in
    let r := set_prod_head r (h ⊞ 1) in
    r ← ring_store r (Z.land h (r_mask r)) (mk_data h (prmBox - Addrbase r));
    Some (1, r).

Definition nsfw_shmem_ring_singlethread_dequeue (r : nsfw_mem_ring) : option (list Z * nsfw_mem_ring) :=
  if head (prod r) =? tail (cons r) then Some ([], r)
  else
    let t := tail (cons r) in
    d ← ring_load r (Z.land t (r_mask r));
    r ← ring_store r (Z.land t (r_mask r)) (mk_data t 0);
    Some ([ADDR_SHTOL (Addrbase r + data_val d)], set_cons_tail r (tail (cons r) ⊞ 1)).

Fixpoint nsfw_shmem_ring_singlethread_dequeuev (n : nat) (r : nsfw_mem_ring) : option (list Z * nsfw_mem_ring) :=
  match n with
  | O => Some ([], r)
  | S n =>
      let t := tail (cons r) in
      if head (prod r) =? tail (cons r) then Some ([], r)
      else
        let r := set_cons_tail r (t ⊞ 1) in
        d ← ring_load r (Z.land t (r_mask r));
        r ← ring_store r (Z.land t (r_mask r)) (mk_data t 0);
        '(box, r) ← nsfw_shmem_ring_singlethread_dequeuev n r;
        Some (ADDR_SHTOL (Addrbase r + data_val d) :: box, r)
  end.
