(* ===== verification/ShmRingProps.v ===== *)
(** * The shared-memory ring is a bounded queue, and loses nothing under interleaving

    Run without interference each operation acts on a FIFO although the two
    counters lag behind ([shm_rep]); run concurrently by any number of producers
    and consumers every value that is enqueued is held or was delivered once. *)
From S2P Require Import Prelude.
From S2P Require Import Queue.
From S2P Require Import Ring.
From S2P Require Import ShmRing.

(** ** Slots *)

Lemma mk_data_val ver val : 0 <= val < 2 ^ 40 → data_val (mk_data ver val) = val.
Proof.
  intros Hv. unfold data_val, mk_data, VALUE_LEN. rewrite Z.land_lor_distr_l, !Z.land_ones by lia.
  rewrite Z.shiftl_mul_pow2, Z.mod_mul, Z.lor_0_l, !(Z.mod_small val), ?Z.mod_small by lia. done.
Qed.

Lemma mk_data_ver ver val : data_ver (mk_data ver val) = ver mod 2 ^ 24.
Proof.
  unfold data_ver, mk_data, VALUE_LEN. rewrite Z.shiftr_lor, Z.shiftr_shiftl_l, Z.sub_diag, Z.shiftl_0_r by lia.
  rewrite !Z.land_ones, (Z.shiftr_div_pow2 (val mod _)) by lia.
  rewrite (Z.div_small (val mod 2 ^ 40)) by (apply Z.mod_pos_bound; lia). by rewrite Z.lor_0_r.
Qed.

Lemma mk_data_wrap ver val : mk_data (wrap32 ver) val = mk_data ver val.
Proof.
  unfold mk_data, wrap32, VALUE_LEN. do 2 f_equal. rewrite !Z.land_ones by lia.
  rewrite Z.mod_mod_divide; [done|]. by exists (2 ^ 8).
Qed.

(** ** The representation *)

(** The ring holds the offsets [q] at the positions from [d] (the next to take) to [e] (the next
    to fill); [prod.head] and [cons.tail] are at [h] and [t]. *)
Record shm_core (r : nsfw_mem_ring) (q : list Z) (t d h e : Z) : Prop := {
  sr_size : pow2_size (r_size r);
  sr_eight : 8 <= r_size r;
  sr_mask : r_mask r = r_size r - 1;
  sr_len : Z.of_nat (length (r_ring r)) = r_size r;
  sr_head : head (prod r) = wrap32 h;
  sr_tail : tail (cons r) = wrap32 t;
  sr_order : t <= d <= h ∧ h <= e <= t + r_size r;
  sr_count : e = d + Z.of_nat (length q);
  sr_vals : Forall (λ v, 0 < v < 2 ^ 40) q;
  sr_full : ∀ i v, q !! i = Some v → slot r (d + Z.of_nat i) = mk_data (d + Z.of_nat i) v;
  sr_free : ∀ p, e <= p < d + r_size r → slot r p = mk_data (p - r_size r) 0
}.

(** A hint at [t] has been corrected at the last multiple of four before [d]. *)
Definition lag (t d : Z) : Prop := ∀ a, t < a < d → a mod 4 ≠ 0.

Definition shm_rep (r : nsfw_mem_ring) (q : list Z) (t d h e : Z) : Prop :=
  shm_core r q t d h e ∧ lag t d ∧ lag h e.

Lemma lag_bound t d : lag t d → d <= t + 4.
Proof.
  intros H. destruct (Z.le_gt_cases d (t + 4)) as [|Hgt]; [done|]. exfalso.
  apply (H (4 * (t / 4) + 4)).
  - pose proof (Z.div_mod t 4). pose proof (Z.mod_pos_bound t 4). lia.
  - rewrite Z.add_mod, (Z.mul_comm 4), Z.mod_mul by lia. done.
Qed.

Section rep.
Context (r : nsfw_mem_ring) (q : list Z) (t d h e : Z) (Hr : shm_core r q t d h e).

Lemma core_bounds : t <= d <= h ∧ h <= e <= t + r_size r ∧ 8 <= r_size r <= 2 ^ 31.
Proof. destruct Hr as [Hs H8 _ _ _ _ Ho _ _ _ _]. pose proof (pow2_size_bounds _ Hs). lia. Qed.

Lemma load_pos p : ring_load r (Z.land (wrap32 p) (r_mask r)) = Some (slot r p).
Proof.
  destruct Hr as [Hs H8 Hm Hl _ _ _ _ _ _ _]. rewrite Hm, land_mask, wrap32_mod_size by done.
  unfold ring_load, slot. pose proof (pow2_size_bounds _ Hs).
  destruct (aread_is_Some (r_ring r) (p mod r_size r)) as (x & -> & ->); [|done].
  rewrite Hl. apply Z.mod_pos_bound. lia.
Qed.

Lemma store_pos p v :
  ring_store r (Z.land (wrap32 p) (r_mask r)) v = Some (set_ring r (<[Z.to_nat (p mod r_size r) := v]> (r_ring r))).
Proof.
  destruct Hr as [Hs H8 Hm Hl _ _ _ _ _ _ _]. rewrite Hm, land_mask, wrap32_mod_size by done.
  unfold ring_store. pose proof (pow2_size_bounds _ Hs). rewrite awrite_Some; [done|].
  rewrite Hl. apply Z.mod_pos_bound. lia.
Qed.

(** A position that was taken and not filled again. *)
Lemma slot_taken p : t <= p < d → slot r p = mk_data p 0.
Proof.
  intros Hp. destruct Hr as [Hs H8 _ _ _ _ Ho _ _ _ Hfree].
  rewrite (slot_mod r p (p + r_size r)).
  - rewrite Hfree by lia. f_equal. lia.
  - by rewrite <- Z.add_mod_idemp_r, Z.mod_same, Z.add_0_r by lia.
Qed.

(** A position that holds a value. *)
Lemma slot_held p : d <= p < e → ∃ v, q !! Z.to_nat (p - d) = Some v ∧ 0 < v < 2 ^ 40 ∧ slot r p = mk_data p v.
Proof.
  intros Hp. destruct Hr as [_ _ _ _ _ _ _ Hc Hv Hfull _].
  destruct (lookup_lt_is_Some_2 q (Z.to_nat (p - d))) as [v Hq]; [lia|].
  exists v. split; [done|]. split; [by eapply Forall_lookup_1 in Hv|].
  specialize (Hfull _ _ Hq). rewrite Z2Nat.id in Hfull by lia. by replace (d + (p - d)) with p in Hfull by lia.
Qed.

Lemma val_taken p : t <= p < d → data_val (slot r p) = 0.
Proof. intros Hp. rewrite slot_taken by done. by apply mk_data_val. Qed.

Lemma val_held p : d <= p < e → data_val (slot r p) ≠ 0.
Proof. intros Hp. destruct (slot_held p Hp) as (v & _ & Hv & ->). rewrite mk_data_val by lia. lia. Qed.
End rep.

(** Comparisons of wrapped positions that are close. *)
Lemma wrap32_eqb a b : - 2 ^ 32 < a - b < 2 ^ 32 → (wrap32 a =? wrap32 b) = (a =? b).
Proof.
  intros Hab. destruct (Z.eqb_spec a b) as [->|Hne]; [apply Z.eqb_refl|].
  apply Z.eqb_neq. unfold wrap32. intros Heq. apply Hne. 
  pose proof (Z.div_mod a (2 ^ 32)). pose proof (Z.div_mod b (2 ^ 32)). nia.
Qed.

Lemma wrap32_dist a b : 0 <= a - b < 2 ^ 32 → wrap32 a ⊟ wrap32 b = a - b.
Proof. intros H. rewrite wrap32_sub_l, wrap32_sub_r. by apply wrap32_small. Qed.

Lemma wrap32_behind a b : 0 <= b - a < 2 ^ 31 → (2 ^ 31 <? wrap32 a ⊟ wrap32 b) = (a <? b).
Proof.
  intros H. rewrite wrap32_sub_l, wrap32_sub_r. destruct (Z.ltb_spec a b).
  - apply Z.ltb_lt. unfold wrap32. replace (a - b) with (a - b + 2 ^ 32 + (-1) * 2 ^ 32) by lia.
    rewrite Z.mod_add, Z.mod_small by lia. lia.
  - replace (a - b) with 0 by lia. done.
Qed.

Lemma wrap32_land3 p : (Z.land (wrap32 p) 3 =? 0) = (p mod 4 =? 0).
Proof.
  change 3 with (Z.ones 2). rewrite Z.land_ones by lia. f_equal. unfold wrap32.
  rewrite Z.mod_mod_divide; [done|]. by exists (2 ^ 30).
Qed.

Lemma full_test (r : nsfw_mem_ring) t c : pow2_size (r_size r) → t <= c <= t + r_size r →
  (wrap32 t ⊞ r_size r ⊟ wrap32 c =? 0) = (c =? t + r_size r).
Proof.
  intros Hs Hc. pose proof (pow2_size_bounds _ Hs). rewrite wrap32_add_l, wrap32_sub_l, wrap32_sub_r.
  rewrite wrap32_small by (unfold is_u32; lia).
  destruct (Z.eqb_spec (t + r_size r - c) 0), (Z.eqb_spec c (t + r_size r)); lia || done.
Qed.

Lemma mod_size_inj s p p' : 0 < s → - s < p - p' < s → p mod s = p' mod s → p = p'.
Proof.
  intros Hs Hp Heq. destruct (Z.lt_trichotomy p p') as [H|[H|H]]; [|done|]; exfalso.
  - apply (mod_size_ne s p (p' - p)); [lia|]. by replace (p + (p' - p)) with p' by lia.
  - apply (mod_size_ne s p' (p - p')); [lia|]. by replace (p' + (p - p')) with p by lia.
Qed.

Lemma slot_store r p p' v r' : pow2_size (r_size r) → Z.of_nat (length (r_ring r)) = r_size r →
  r_size r' = r_size r → r_ring r' = <[Z.to_nat (p mod r_size r) := v]> (r_ring r) →
  - r_size r < p' - p < r_size r → slot r' p' = if decide (p' = p) then v else slot r p'.
Proof.
  intros Hs Hl Hsz Hrg Hp. pose proof (pow2_size_bounds _ Hs).
  pose proof (Z.mod_pos_bound p (r_size r)). pose proof (Z.mod_pos_bound p' (r_size r)).
  unfold slot. rewrite Hsz, Hrg. destruct (decide (p' = p)) as [->|Hne].
  - by rewrite list_lookup_insert_eq by lia.
  - rewrite list_lookup_insert_ne; [done|]. intros Heq. apply Hne, (mod_size_inj (r_size r)); lia.
Qed.

(** Moving a hint within its range. *)
Lemma core_set_head r q t d h e h' : shm_core r q t d h e → h <= h' <= e → shm_core (set_prod_head r (wrap32 h')) q t d h' e.
Proof. intros [????????? Hf Hg] Hh. split; cbn; try done; lia. Qed.

Lemma core_set_tail r q t d h e t' : shm_core r q t d h e → t <= t' <= d → shm_core (set_cons_tail r (wrap32 t')) q t' d h e.
Proof. intros [????????? Hf Hg] Hh. split; cbn; try done; lia. Qed.

(** Filling the next position and taking the first one. *)
Lemma core_fill r q t d h e v : shm_core r q t d h e → e < t + r_size r → 0 < v < 2 ^ 40 →
  shm_core (set_ring r (<[Z.to_nat (e mod r_size r) := mk_data e v]> (r_ring r))) (q ++ [v]) t d h (e + 1).
Proof.
  intros [Hs H8 Hm Hl Hh Ht Ho Hc Hv Hf Hg] He Hvv. set (r' := set_ring _ _).
  assert (Hslot : ∀ p', - r_size r < p' - e < r_size r → slot r' p' = if decide (p' = e) then mk_data e v else slot r p').
  { intros p' Hp'. by apply slot_store. }
  split; try done.
  - cbn. by rewrite length_insert.
  - cbn. lia.
  - rewrite length_app. cbn. lia.
  - apply Forall_app. by rewrite Forall_singleton.
  - intros i w Hi. pose proof (lookup_lt_Some _ _ _ Hi) as Hlt. rewrite length_app in Hlt. cbn in Hlt.
    rewrite Hslot by lia. destruct (decide (d + Z.of_nat i = e)) as [Heq|Hne].
    + rewrite lookup_app_r in Hi by lia. replace (i - length q)%nat with 0%nat in Hi by lia. cbn in Hi. congruence.
    + rewrite lookup_app_l in Hi by lia. by apply Hf.
  - intros p Hp. cbn in Hp. rewrite Hslot by lia. rewrite decide_False by lia. apply Hg. lia.
Qed.

Lemma core_take r q t d h e v : shm_core r (v :: q) t d h e → d < h →
  shm_core (set_ring r (<[Z.to_nat (d mod r_size r) := mk_data d 0]> (r_ring r))) q t (d + 1) h e.
Proof.
  intros [Hs H8 Hm Hl Hh Ht Ho Hc Hv Hf Hg] He. set (r' := set_ring _ _). cbn [length] in Hc.
  assert (Hslot : ∀ p', - r_size r < p' - d < r_size r → slot r' p' = if decide (p' = d) then mk_data d 0 else slot r p').
  { intros p' Hp'. by apply slot_store. }
  split; try done.
  - cbn. by rewrite length_insert.
  - cbn. lia.
  - lia.
  - by apply Forall_cons in Hv as [_ ?].
  - intros i w Hi. pose proof (lookup_lt_Some _ _ _ Hi) as Hlt. rewrite Hslot, decide_False by lia.
    specialize (Hf (S i) w Hi). by replace (d + 1 + Z.of_nat i) with (d + Z.of_nat (S i)) by lia.
  - intros p Hp. cbn in Hp. destruct (decide (p = d + r_size r)) as [->|Hne].
    + rewrite (slot_mod r' _ d), Hslot, decide_True by (done || lia || (cbn; by rewrite <- Z.add_mod_idemp_r, Z.mod_same, Z.add_0_r by lia)).
      change (r_size r') with (r_size r). f_equal. lia.
    + rewrite Hslot, decide_False by lia. apply Hg. lia.
Qed.

Lemma lag_refl t : lag t t.
Proof. intros a. lia. Qed.

Lemma lag_up t t' d : lag t d → t <= t' → lag t' d.
Proof. intros H Ht a Ha. apply H. lia. Qed.

(** The hint may stay behind one more position unless that is a multiple of four it is behind of. *)
Lemma lag_succ t d : lag t d → (d mod 4 =? 0) && (t <? d) = false → lag t (d + 1).
Proof.
  intros H Hd a Ha. destruct (decide (a = d)) as [->|]; [|apply H; lia].
  intros Hm. rewrite (proj2 (Z.eqb_eq _ _) Hm), (proj2 (Z.ltb_lt t d)) in Hd by lia. done.
Qed.

Lemma cas_tail_eq r t : tail (cons r) = wrap32 t → cas_tail r (wrap32 t) (wrap32 t ⊞ 1) = set_cons_tail r (wrap32 (t + 1)).
Proof. intros Ht. unfold cas_tail. by rewrite Ht, Z.eqb_refl, wrap32_add_l. Qed.

Lemma cas_head_eq r h v : head (prod r) = wrap32 h → cas_head r (wrap32 h) v = set_prod_head r v.
Proof. intros Hh. unfold cas_head. by rewrite Hh, Z.eqb_refl. Qed.

Lemma next_pos r q t d h e c lo : shm_core r q t d h e → lo - 1 <= c <= lo + 3 →
  (if wrap32 c ⊟ wrap32 lo <? r_mask r ⊟ 1 then wrap32 c ⊞ 1 else wrap32 lo) = wrap32 (c + 1).
Proof.
  intros Hr Hc. pose proof (core_bounds _ _ _ _ _ _ Hr). rewrite (sr_mask _ _ _ _ _ _ Hr).
  rewrite (wrap32_small (r_size r - 1 - 1)), wrap32_add_l by (unfold is_u32; lia).
  destruct (decide (c = lo - 1)) as [->|Hne].
  - rewrite wrap32_sub_l, wrap32_sub_r. replace (lo - 1 - lo) with (-1) by lia.
    change (wrap32 (-1)) with (2 ^ 32 - 1). rewrite (proj2 (Z.ltb_ge _ _)) by lia. f_equal. lia.
  - rewrite wrap32_dist by lia. destruct (Z.ltb_spec (c - lo) (r_size r - 1 - 1)); [done|lia].
Qed.

(** ** Enqueue *)

Section enqueue.
Context (B S0 box d e : Z) (q : list Z) (Hoff : 0 < box - B < 2 ^ 40).

(** What holds at each point of the enqueue. *)
Definition enq_inv (s : nsfw_mem_ring * enq_pc) : Prop :=
  let '(r, pc) := s in (Addrbase r = B ∧ r_size r = S0) ∧ ∃ t h,
  match pc with
  | E_tail c => shm_rep r q t d h e ∧ ∃ p, c = wrap32 p ∧ h <= p <= e
  | E_full c tl => shm_rep r q t d h e ∧ c = wrap32 e ∧ e = t + r_size r ∧ tl = wrap32 t
  | E_castail c tl => shm_rep r q t d h e ∧ c = wrap32 e ∧ tl = wrap32 t ∧ t < d
  | E_slot c | E_cas c => shm_rep r q t d h e ∧ ∃ p, c = wrap32 p ∧ h <= p <= e ∧ p < t + r_size r
  | E_head c => shm_core r (q ++ [box - B]) t d h (e + 1) ∧ lag t d ∧ lag h e ∧ c = wrap32 e ∧ h <= e
  | E_cashead c hh => shm_core r (q ++ [box - B]) t d h (e + 1) ∧ lag t d ∧ c = wrap32 e ∧ hh = wrap32 h ∧ h <= e
  | E_next c => shm_rep r q t d h e ∧ ∃ p, c = wrap32 p ∧ h <= p < e
  | E_done 1 => shm_rep r (q ++ [box - B]) t d h (e + 1) ∧ Z.of_nat (length q) < r_size r
  | E_done 0 => shm_rep r q t d h e ∧ Z.of_nat (length q) = r_size r
  | E_done _ => False
  end.

Definition enq_left (s : nsfw_mem_ring * enq_pc) : nat :=
  let left c := (8 * Z.to_nat (wrap32 e ⊟ c))%nat in
  match s.2 with
  | E_tail c => left c + 8
  | E_full c _ => left c + 7
  | E_castail c _ => left c + 6
  | E_slot c => left c + 5
  | E_cas c => left c + 4
  | E_head c => 2
  | E_cashead c _ => 1
  | E_next c => left c + 1
  | E_done _ => 0
  end.

Lemma full_length r t h : shm_core r q t d h e → e = t + r_size r → t = d → Z.of_nat (length q) = r_size r.
Proof. intros Hr. pose proof (sr_count _ _ _ _ _ _ Hr). lia. Qed.

Definition enq_progress (r : nsfw_mem_ring) (pc : enq_pc) : Prop :=
  ∃ s', mp_enqueue_step box r pc = Some s' ∧ enq_inv s' ∧ (enq_left s' < enq_left (r, pc))%nat.

Ltac enq_to t h := eexists; split; [done|]; split; [split; [done|]; exists t, h|cbn; lia].

Lemma enq_step_tail r c : enq_inv (r, E_tail c) → enq_progress r (E_tail c).
Proof.
  intros ([HB HS] & t & h & Hr & p & -> & Hp). pose proof (core_bounds _ _ _ _ _ _ (proj1 Hr)) as Hb.
  unfold enq_progress, mp_enqueue_step. rewrite (sr_tail _ _ _ _ _ _ (proj1 Hr)), full_test by (apply Hr || lia).
  destruct (Z.eqb_spec p (t + r_size r)) as [Hpe|Hpe]; enq_to t h.
  - split; [done|]. split; [f_equal; lia|]. split; [lia|done].
  - split; [done|]. exists p. split; [done|lia].
Qed.

Lemma enq_step_full r c tl : enq_inv (r, E_full c tl) → enq_progress r (E_full c tl).
Proof.
  intros ([HB HS] & t & h & Hr & -> & He & ->). pose proof (core_bounds _ _ _ _ _ _ (proj1 Hr)) as Hb.
  unfold enq_progress, mp_enqueue_step. rewrite (load_pos _ _ _ _ _ _ (proj1 Hr)). cbn [mbind option_bind].
  destruct (decide (t < d)) as [Hlt|Hge].
  - rewrite (val_taken _ _ _ _ _ _ (proj1 Hr)) by lia. by enq_to t h.
  - rewrite (proj2 (Z.eqb_neq _ _) (val_held _ _ _ _ _ _ (proj1 Hr) t ltac:(lia))). enq_to t h.
    split; [done|]. eapply full_length; [apply Hr|lia..].
Qed.

Lemma enq_step_castail r c tl : enq_inv (r, E_castail c tl) → enq_progress r (E_castail c tl).
Proof.
  intros ([HB HS] & t & h & Hr & -> & -> & Hlt). pose proof (core_bounds _ _ _ _ _ _ (proj1 Hr)) as Hb.
  unfold enq_progress, mp_enqueue_step. rewrite cas_tail_eq by apply Hr. enq_to (t + 1) h.
  destruct Hr as (Hr & Hl1 & Hl2). split; [|exists e; split; [done|cbn; lia]].
  split; [apply core_set_tail with t; [done|lia]|]. split; [|done]. apply lag_up with t; [done|lia].
Qed.

Lemma enq_step_slot r c : enq_inv (r, E_slot c) → enq_progress r (E_slot c).
Proof.
  intros ([HB HS] & t & h & Hr & p & -> & Hp & Hpt). pose proof (core_bounds _ _ _ _ _ _ (proj1 Hr)) as Hb.
  unfold enq_progress, mp_enqueue_step. rewrite (load_pos _ _ _ _ _ _ (proj1 Hr)). cbn [mbind option_bind].
  case_match eqn:Hver; enq_to t h; [by eauto|].
  split; [done|]. exists p. split; [done|]. split; [lia|].
  destruct (decide (p = e)) as [->|]; [exfalso|lia].
  rewrite (sr_free _ _ _ _ _ _ (proj1 Hr)) in Hver by lia.
  rewrite wrap32_sub_l, mk_data_wrap, Z.eqb_refl in Hver. done.
Qed.

Lemma enq_step_cas r c : enq_inv (r, E_cas c) → enq_progress r (E_cas c).
Proof.
  intros ([HB HS] & t & h & Hr & p & -> & Hp & Hpt). pose proof (core_bounds _ _ _ _ _ _ (proj1 Hr)) as Hb.
  unfold enq_progress, mp_enqueue_step, cas_slot. rewrite (load_pos _ _ _ _ _ _ (proj1 Hr)). cbn [mbind option_bind].
  rewrite wrap32_sub_l, !mk_data_wrap. destruct (decide (p = e)) as [->|Hne].
  - rewrite (sr_free _ _ _ _ _ _ (proj1 Hr)), Z.eqb_refl by lia. rewrite (store_pos _ _ _ _ _ _ (proj1 Hr)).
    cbn [mbind option_bind]. enq_to t h.
    destruct Hr as (Hr & Hl1 & Hl2). rewrite HB. split; [by apply core_fill|]. split; [done|]. split; [done|]. split; [done|lia].
  - destruct (Z.eqb_spec (slot r p) (mk_data (p - r_size r) 0)) as [Heq|_].
    { exfalso. apply (val_held _ _ _ _ _ _ (proj1 Hr) p); [lia|]. rewrite Heq. by apply mk_data_val. }
    cbn [mbind option_bind]. enq_to t h. split; [done|]. exists p. split; [done|lia].
Qed.

Lemma enq_room r t h : shm_core r (q ++ [box - B]) t d h (e + 1) → Z.of_nat (length q) < r_size r.
Proof.
  intros Hr. pose proof (core_bounds _ _ _ _ _ _ Hr). pose proof (sr_count _ _ _ _ _ _ Hr) as Hcnt.
  rewrite length_app in Hcnt. cbn in Hcnt. lia.
Qed.

Lemma enq_step_head r c : enq_inv (r, E_head c) → enq_progress r (E_head c).
Proof.
  intros ([HB HS] & t & h & Hr & Hl1 & Hl2 & -> & Hhe). pose proof (lag_bound _ _ Hl2) as Hlb.
  unfold enq_progress, mp_enqueue_step. rewrite (sr_head _ _ _ _ _ _ Hr), wrap32_land3, wrap32_behind by lia.
  destruct ((e mod 4 =? 0) && (h <? e)) eqn:Hc; enq_to t h; [done|].
  split; [split; [done|]; split; [done|by apply lag_succ]|by eapply enq_room].
Qed.

Lemma enq_step_cashead r c hh : enq_inv (r, E_cashead c hh) → enq_progress r (E_cashead c hh).
Proof.
  intros ([HB HS] & t & h & Hr & Hl1 & -> & -> & Hhe). 
  unfold enq_progress, mp_enqueue_step. rewrite cas_head_eq, wrap32_add_l by apply Hr. enq_to t (e + 1).
  split; [split; [apply core_set_head with h; [done|lia]|]; split; [done|apply lag_refl]|].
  by eapply (enq_room r).
Qed.

Lemma enq_step_next r c : enq_inv (r, E_next c) → enq_progress r (E_next c).
Proof.
  intros ([HB HS] & t & h & Hr & p & -> & Hp). pose proof (lag_bound _ _ (proj2 (proj2 Hr))) as Hlb.
  unfold enq_progress, mp_enqueue_step.
  rewrite (sr_head _ _ _ _ _ _ (proj1 Hr)), (next_pos _ _ _ _ _ _ _ _ (proj1 Hr)) by lia.
  eexists. split; [done|]. split; [split; [done|]; exists t, h; split; [done|]; exists (p + 1); split; [done|lia]|].
  unfold enq_left. cbn [snd]. rewrite !wrap32_dist by lia. lia.
Qed.

Lemma enq_step_ok s : enq_inv s → enq_running s = true →
  ∃ s', (let '(r, pc) := s in mp_enqueue_step box r pc) = Some s' ∧ enq_inv s' ∧ (enq_left s' < enq_left s)%nat.
Proof.
  destruct s as [r pc]. intros Hinv Hrun. change (enq_progress r pc). destruct pc; try done;
    auto using enq_step_tail, enq_step_full, enq_step_castail, enq_step_slot, enq_step_cas, enq_step_head,
      enq_step_cashead, enq_step_next.
Qed.
End enqueue.

Lemma box_in_range_offset r box : box_in_range r box = true → 0 < box - Addrbase r < 2 ^ 40.
Proof.
  unfold box_in_range, ADDR_LTOSH_EXT, PERFRING_ADDR_RANGE. rewrite negb_true_iff, orb_false_iff, Z.leb_gt, Z.ltb_ge. lia.
Qed.

(** The outcome of an enqueue on the queue [q] of [r]. *)
Definition enqueued (r : nsfw_mem_ring) (box : Z) (q : list Z) (d e : Z) (ret : Z) (r' : nsfw_mem_ring) : Prop :=
  Addrbase r' = Addrbase r ∧ r_size r' = r_size r ∧ ∃ t h,
  if Z.of_nat (length q) <? r_size r
  then ret = 1 ∧ shm_rep r' (q ++ [box - Addrbase r]) t d h (e + 1)
  else ret = 0 ∧ shm_rep r' q t d h e.

Lemma mp_enqueue_spec r q t d h e box fuel :
  shm_rep r q t d h e → box_in_range r box = true → (40 <= fuel)%nat →
  ∃ ret r', nsfw_shmem_ring_mp_enqueue fuel r box = Some (ret, r') ∧ enqueued r box q d e ret r'.
Proof.
  intros Hr Hbox Hfuel. unfold nsfw_shmem_ring_mp_enqueue, mp_enqueue_start. rewrite Hbox. cbn [negb].
  pose proof (lag_bound _ _ (proj2 (proj2 Hr))) as Hlb. pose proof (core_bounds _ _ _ _ _ _ (proj1 Hr)) as Hb.
  pose proof (sr_head _ _ _ _ _ _ (proj1 Hr)) as Hh.
  destruct (while_fuel_rule (enq_inv (Addrbase r) (r_size r) box d e q) (enq_left e) enq_running (λ '(r, pc), mp_enqueue_step box r pc)) with
    (fuel := fuel) (s := (r, E_tail (head (prod r)))) as ([r' pc] & -> & Hinv & Hc).
  - intros s Hs Hrun. destruct (enq_step_ok _ (r_size r) box d e q (box_in_range_offset r box Hbox) s Hs Hrun) as (s' & H1 & H2 & H3).
    exists s'. by destruct s.
  - split; [done|]. exists t, h. split; [done|]. exists h. split; [done|lia].
  - unfold enq_left. cbn [snd]. rewrite Hh, wrap32_dist by lia. lia.
  - destruct pc as [| | | | | | | |ret]; try done. cbn [mbind option_bind]. exists ret, r'. split; [done|].
    destruct Hinv as ([HB HS] & t' & h' & Hd). split; [done|]. split; [done|]. exists t', h'. rewrite <- HS.
    destruct ret as [|[]|]; try done; destruct Hd as [Hd Hl].
    + by rewrite (proj2 (Z.ltb_ge _ _)) by lia.
    + by rewrite (proj2 (Z.ltb_lt _ _)) by lia.
Qed.

(** One pass of the single-producer loop. *)
Definition sp_inv (B S0 box d e : Z) (q : list Z) (s : nsfw_mem_ring * Z * option Z) : Prop :=
  let '(r, c, ret) := s in (Addrbase r = B ∧ r_size r = S0) ∧ ∃ t h,
  match ret with
  | None => shm_rep r q t d h e ∧ ∃ p, c = wrap32 p ∧ h <= p <= e
  | Some 1 => shm_rep r (q ++ [box - B]) t d h (e + 1) ∧ Z.of_nat (length q) < r_size r
  | Some 0 => shm_rep r q t d h e ∧ Z.of_nat (length q) = r_size r
  | Some _ => False
  end.

Definition sp_left (e : Z) (s : nsfw_mem_ring * Z * option Z) : nat :=
  match s.2 with None => S (Z.to_nat (wrap32 e ⊟ s.1.2)) | Some _ => 0 end.

(** The part of a pass after the test for a full ring. *)
Lemma sp_slot_ok B S0 box d e q r t h p :
  0 < box - B < 2 ^ 40 → Addrbase r = B → r_size r = S0 → shm_rep r q t d h e → h <= p <= e → p < t + r_size r →
  ∃ s', (d0 ← ring_load r (Z.land (wrap32 p) (r_mask r));
         if d0 =? mk_data (wrap32 p ⊟ r_size r) 0 then
           r' ← ring_store r (Z.land (wrap32 p) (r_mask r)) (mk_data (wrap32 p) (ADDR_LTOSH_EXT box - Addrbase r));
           Some (set_prod_head r' (wrap32 p ⊞ 1), wrap32 p, Some 1)
         else Some (r, wrap32 p ⊞ 1, None)) = Some s' ∧ sp_inv B S0 box d e q s' ∧
    (sp_left e s' < S (Z.to_nat (wrap32 e ⊟ wrap32 p)))%nat.
Proof.
  intros Hoff HB HS Hr Hp Hpt. pose proof (core_bounds _ _ _ _ _ _ (proj1 Hr)) as Hb.
  rewrite (load_pos _ _ _ _ _ _ (proj1 Hr)). cbn [mbind option_bind].
  rewrite wrap32_sub_l, !mk_data_wrap, wrap32_add_l. destruct (decide (p = e)) as [->|Hne].
  - rewrite (sr_free _ _ _ _ _ _ (proj1 Hr)), Z.eqb_refl by lia. rewrite (store_pos _ _ _ _ _ _ (proj1 Hr)).
    cbn [mbind option_bind]. eexists. split; [done|]. split; [|cbn; lia]. split; [done|]. exists t, (e + 1).
    destruct Hr as (Hr & Hl1 & Hl2). pose proof (sr_count _ _ _ _ _ _ Hr). rewrite HB.
    split; [|cbn; lia]. split; [|by auto using lag_refl].
    apply core_set_head with h; [by apply core_fill|lia].
  - destruct (Z.eqb_spec (slot r p) (mk_data (p - r_size r) 0)) as [Heq|_].
    { exfalso. apply (val_held _ _ _ _ _ _ (proj1 Hr) p); [lia|]. rewrite Heq. by apply mk_data_val. }
    eexists. split; [done|]. split; [split; [done|]; exists t, h; split; [done|]; exists (p + 1); split; [done|lia]|].
    unfold sp_left. cbn [fst snd]. rewrite !wrap32_dist by lia. lia.
Qed.

Lemma sp_step_ok B S0 box d e q s :
  0 < box - B < 2 ^ 40 → sp_inv B S0 box d e q s → bool_decide (s.2 = None) = true →
  ∃ s', sp_enqueue_step box s = Some s' ∧ sp_inv B S0 box d e q s' ∧ (sp_left e s' < sp_left e s)%nat.
Proof.
  intros Hoff. destruct s as [[r c] [ret|]]; [done|]. intros ([HB HS] & t & h & Hr & p & -> & Hp) _.
  pose proof (core_bounds _ _ _ _ _ _ (proj1 Hr)) as Hb. unfold sp_enqueue_step, sp_left at 2. cbn [fst snd].
  rewrite (sr_tail _ _ _ _ _ _ (proj1 Hr)), full_test by (apply Hr || lia).
  destruct (Z.eqb_spec p (t + r_size r)) as [Hpe|Hpe].
  - rewrite (load_pos _ _ _ _ _ _ (proj1 Hr)). cbn [mbind option_bind andb].
    destruct (decide (t < d)) as [Hlt|Hge].
    + rewrite (val_taken _ _ _ _ _ _ (proj1 Hr)) by lia. cbn [Z.eqb negb andb].
      rewrite cas_tail_eq by apply Hr.
      apply (sp_slot_ok B S0 box d e q (set_cons_tail r (wrap32 (t + 1))) (t + 1) h p); try done; [|cbn; lia].
      destruct Hr as (Hr & Hl1 & Hl2). split; [apply core_set_tail with t; [done|lia]|]. split; [|done].
      apply lag_up with t; [done|lia].
    + rewrite (proj2 (Z.eqb_neq _ _) (val_held _ _ _ _ _ _ (proj1 Hr) t ltac:(lia))). cbn [negb].
      eexists. split; [done|]. split; [|cbn; lia]. split; [done|]. exists t, h. split; [done|].
      eapply (full_length d e q r); [apply Hr|lia..].
  - cbn [mbind option_bind andb]. apply (sp_slot_ok B S0 box d e q r t h p); try done. lia.
Qed.

Lemma sp_enqueue_spec r q t d h e box fuel :
  shm_rep r q t d h e → box_in_range r box = true → (5 <= fuel)%nat →
  ∃ ret r', nsfw_shmem_ring_sp_enqueue fuel r box = Some (ret, r') ∧ enqueued r box q d e ret r'.
Proof.
  intros Hr Hbox Hfuel. unfold nsfw_shmem_ring_sp_enqueue. rewrite Hbox. cbn [negb].
  pose proof (lag_bound _ _ (proj2 (proj2 Hr))) as Hlb. pose proof (core_bounds _ _ _ _ _ _ (proj1 Hr)) as Hb.
  pose proof (sr_head _ _ _ _ _ _ (proj1 Hr)) as Hh.
  destruct (while_fuel_rule (sp_inv (Addrbase r) (r_size r) box d e q) (sp_left e) (λ s, bool_decide (s.2 = None)) (sp_enqueue_step box)) with
    (fuel := fuel) (s := (r, head (prod r), @None Z)) as ([[r' c] ret] & -> & Hinv & Hc).
  - intros s Hs Hrun. apply sp_step_ok; [by apply box_in_range_offset|done..].
  - split; [done|]. exists t, h. split; [done|]. exists h. split; [done|lia].
  - unfold sp_left. cbn [fst snd]. rewrite Hh, wrap32_dist by lia. lia.
  - cbn [mbind option_bind]. destruct ret as [ret|]; [|done]. exists ret, r'. split; [done|].
    destruct Hinv as ([HB HS] & t' & h' & Hd). split; [done|]. split; [done|]. exists t', h'. rewrite <- HS.
    destruct ret as [|[]|]; try done; destruct Hd as [Hd Hl].
    + by rewrite (proj2 (Z.ltb_ge _ _)) by lia.
    + by rewrite (proj2 (Z.ltb_lt _ _)) by lia.
Qed.

(** ** Dequeue *)

Section dequeue.
Context (B S0 e : Z) (q0 : list Z) (single : bool) (n : Z) (Hn : 1 <= n).

(** How many values a call takes at most. *)
Definition limit : Z := if single then 1 else n.

(** What holds at each point of the dequeue, with the offsets taken so far. *)
Definition deq_inv (s : nsfw_mem_ring * deq_pc * list Z) : Prop :=
  let '(r, pc, box) := s in (Addrbase r = B ∧ r_size r = S0) ∧ ∃ taken q t d h,
  q0 = taken ++ q ∧ box = (λ v, B + v) <$> taken ∧ Z.of_nat (length taken) <= limit ∧
  match pc with
  | D_head c => shm_rep r q t d h e ∧ Z.of_nat (length taken) < limit ∧ ∃ p, c = wrap32 p ∧ t <= p <= d
  | D_empty c hh => shm_rep r q t d h e ∧ Z.of_nat (length taken) < limit ∧ c = wrap32 d ∧ hh = wrap32 h ∧ d = h
  | D_cashead c hh => shm_rep r q t d h e ∧ Z.of_nat (length taken) < limit ∧ c = wrap32 d ∧ hh = wrap32 h ∧ d = h ∧ h < e
  | D_slot c => shm_rep r q t d h e ∧ Z.of_nat (length taken) < limit ∧ ∃ p, c = wrap32 p ∧ t <= p <= d ∧ p < h
  | D_cas c ex => shm_rep r q t d h e ∧ Z.of_nat (length taken) < limit ∧ c = wrap32 d ∧ d < h ∧
      ∃ v q', q = v :: q' ∧ ex = mk_data d v
  | D_tail c => shm_core r q t d h e ∧ lag t (d - 1) ∧ lag h e ∧ c = wrap32 (d - 1) ∧ t <= d - 1 ∧ taken ≠ []
  | D_castail c tl => shm_core r q t d h e ∧ lag h e ∧ c = wrap32 (d - 1) ∧ tl = wrap32 t ∧ t <= d - 1 ∧ taken ≠ []
  | D_next c => shm_rep r q t d h e ∧ (single = true → taken = []) ∧ ∃ p, c = wrap32 p ∧ t - 1 <= p < d
  | D_done => shm_rep r q t d h e ∧ (taken = [] → q = [])
  end.

Definition deq_left (s : nsfw_mem_ring * deq_pc * list Z) : nat :=
  let left c := (10 * Z.to_nat (wrap32 e ⊟ c))%nat in
  match s.1.2 with
  | D_head c => left c + 9
  | D_empty c _ => left c + 8
  | D_cashead c _ => left c + 7
  | D_slot c => left c + 6
  | D_cas c _ => left c + 5
  | D_tail c => left c + 3
  | D_castail c _ => left c + 2
  | D_next c => left c + 1
  | D_done => 0
  end.

Definition deq_progress (r : nsfw_mem_ring) (pc : deq_pc) (box : list Z) : Prop :=
  ∃ s', mc_dequeue_step single n r pc box = Some s' ∧ deq_inv s' ∧ (deq_left s' < deq_left (r, pc, box))%nat.

Ltac deq_to taken q t d h :=
  eexists; split; [done|]; split; [split; [done|]; exists taken, q, t, d, h; do 3 (split; [done|])|cbn; lia].

Lemma deq_step_head r c box : deq_inv (r, D_head c, box) → deq_progress r (D_head c) box.
Proof.
  intros ([HB HS] & taken & q & t & d & h & Hq & Hbox & Hlim & Hr & Hroom & p & -> & Hp).
  pose proof (core_bounds _ _ _ _ _ _ (proj1 Hr)) as Hb.
  unfold deq_progress, mc_dequeue_step. rewrite (sr_head _ _ _ _ _ _ (proj1 Hr)), wrap32_eqb by lia.
  destruct (Z.eqb_spec p h) as [->|Hne]; deq_to taken q t d h; (split; [done|]; split; [done|]).
  - split; [f_equal; lia|]. split; [done|lia].
  - exists p. split; [done|lia].
Qed.

Lemma deq_room taken : Z.of_nat (length taken) < limit → single || (Z.of_nat (length ((λ v, B + v) <$> taken)) =? 0) = false → taken ≠ [].
Proof. intros _. destruct single; [done|]. cbn. intros Hl ->. done. Qed.

Lemma deq_step_empty r c hh box : deq_inv (r, D_empty c hh, box) → deq_progress r (D_empty c hh) box.
Proof.
  intros ([HB HS] & taken & q & t & d & h & Hq & Hbox & Hlim & Hr & Hroom & -> & -> & Hdh).
  pose proof (core_bounds _ _ _ _ _ _ (proj1 Hr)) as Hb. pose proof (sr_count _ _ _ _ _ _ (proj1 Hr)) as Hcnt.
  unfold deq_progress, mc_dequeue_step. rewrite (load_pos _ _ _ _ _ _ (proj1 Hr)). cbn [mbind option_bind].
  case_match eqn:Hc; deq_to taken q t d h; (split; [done|]).
  - split; [done|]. split; [done|]. split; [done|]. split; [done|].
    destruct (decide (h = e)) as [->|]; [exfalso|lia]. apply andb_true_iff in Hc as [_ Hc].
    rewrite (sr_free _ _ _ _ _ _ (proj1 Hr)), mk_data_val in Hc by lia. done.
  - intros ->. destruct q as [|v q]; [done|exfalso]. cbn [length] in Hcnt.
    rewrite (proj2 (Z.eqb_neq _ _) (val_held _ _ _ _ _ _ (proj1 Hr) h ltac:(lia))), Hbox in Hc. cbn in Hc.
    by rewrite orb_true_r in Hc.
Qed.

Lemma deq_step_cashead r c hh box : deq_inv (r, D_cashead c hh, box) → deq_progress r (D_cashead c hh) box.
Proof.
  intros ([HB HS] & taken & q & t & d & h & Hq & Hbox & Hlim & Hr & Hroom & -> & -> & Hdh & Hhe).
  unfold deq_progress, mc_dequeue_step. rewrite cas_head_eq, wrap32_add_l by apply Hr. deq_to taken q t d (h + 1).
  pose proof (core_bounds _ _ _ _ _ _ (proj1 Hr)) as Hb. destruct Hr as (Hr & Hl1 & Hl2).
  split; [split; [apply core_set_head with h; [done|lia]|]|].
  - split; [done|]. apply lag_up with h; [done|lia].
  - split; [done|]. exists d. split; [done|lia].
Qed.

Lemma deq_step_slot r c box : deq_inv (r, D_slot c, box) → deq_progress r (D_slot c) box.
Proof.
  intros ([HB HS] & taken & q & t & d & h & Hq & Hbox & Hlim & Hr & Hroom & p & -> & Hp & Hph).
  pose proof (core_bounds _ _ _ _ _ _ (proj1 Hr)) as Hb. pose proof (sr_count _ _ _ _ _ _ (proj1 Hr)) as Hcnt.
  unfold deq_progress, mc_dequeue_step. rewrite (load_pos _ _ _ _ _ _ (proj1 Hr)). cbn [mbind option_bind].
  destruct (decide (p = d)) as [->|Hne].
  - destruct q as [|v q]; [cbn in Hcnt; lia|].
    destruct (slot_held _ _ _ _ _ _ (proj1 Hr) d) as (v' & Hv & Hvv & Hs); [cbn in Hcnt; lia|].
    rewrite Z.sub_diag in Hv. injection Hv as <-. rewrite Hs, mk_data_wrap, !mk_data_ver, mk_data_val, Z.eqb_refl by lia.
    rewrite (proj2 (Z.eqb_neq v 0)) by lia. cbn [negb andb].
    deq_to taken (v :: q) t d h. split; [done|]. split; [done|]. split; [done|]. split; [lia|]. eauto.
  - rewrite (val_taken _ _ _ _ _ _ (proj1 Hr)) by lia. cbn [Z.eqb negb]. rewrite andb_false_r.
    deq_to taken q t d h. split; [done|]. split; [|exists p; split; [done|lia]].
    intros Hs. unfold limit in Hroom. rewrite Hs in Hroom. by destruct taken; [|cbn in Hroom; lia].
Qed.

Lemma deq_step_cas r c ex box : deq_inv (r, D_cas c ex, box) → deq_progress r (D_cas c ex) box.
Proof.
  intros ([HB HS] & taken & q & t & d & h & Hq & Hbox & Hlim & Hr & Hroom & -> & Hdh & v & q' & -> & ->).
  pose proof (core_bounds _ _ _ _ _ _ (proj1 Hr)) as Hb. pose proof (sr_vals _ _ _ _ _ _ (proj1 Hr)) as Hv.
  apply Forall_cons in Hv as [Hv _]. pose proof (sr_full _ _ _ _ _ _ (proj1 Hr) 0%nat v eq_refl) as Hs.
  rewrite Z.add_0_r in Hs. unfold deq_progress, mc_dequeue_step, cas_slot.
  rewrite (load_pos _ _ _ _ _ _ (proj1 Hr)), Hs. cbn [mbind option_bind].
  rewrite Z.eqb_refl, (store_pos _ _ _ _ _ _ (proj1 Hr)), mk_data_wrap, mk_data_val by lia. cbn [mbind option_bind].
  eexists. split; [done|]. split; [split; [done|]; exists (taken ++ [v]), q', t, (d + 1), h|cbn; lia].
  destruct Hr as (Hr & Hl1 & Hl2). replace (d + 1 - 1) with d by lia.
  split; [by rewrite <- app_assoc|]. split; [rewrite fmap_app, <- Hbox; cbn; by rewrite HB|].
  split; [rewrite length_app; cbn; lia|]. split; [by eapply core_take|]. do 3 (split; [done|]). split; [lia|].
  by destruct taken.
Qed.

(** After a success. *)
Lemma deq_after_ok r c taken q t d h box :
  (Addrbase r = B ∧ r_size r = S0) → q0 = taken ++ q → box = (λ v, B + v) <$> taken → Z.of_nat (length taken) <= limit →
  shm_rep r q t d h e → c = wrap32 (d - 1) → t <= d → taken ≠ [] →
  deq_inv (r, deq_after single c, box) ∧ (deq_left (r, deq_after single c, box) <= 10 * Z.to_nat (wrap32 e ⊟ c) + 1)%nat.
Proof.
  intros HBS Hq Hbox Hlim Hr -> Ht Htk. unfold deq_after. destruct single eqn:Hsi; (split; [|cbn; lia]);
    (split; [done|]; exists taken, q, t, d, h; do 3 (split; [done|]); split; [done|]); [done|].
  split; [congruence|]. exists (d - 1). split; [done|lia].
Qed.

Lemma deq_step_tail r c box : deq_inv (r, D_tail c, box) → deq_progress r (D_tail c) box.
Proof.
  intros (HBS & taken & q & t & d & h & Hq & Hbox & Hlim & Hr & Hl1 & Hl2 & -> & Ht & Htk).
  pose proof (lag_bound _ _ Hl1) as Hlb. unfold deq_progress, mc_dequeue_step.
  rewrite (sr_tail _ _ _ _ _ _ Hr), wrap32_land3, wrap32_behind by lia.
  destruct (((d - 1) mod 4 =? 0) && (t <? d - 1)) eqn:Hc.
  - deq_to taken q t d h. done.
  - eexists. split; [done|]. destruct (deq_after_ok r (wrap32 (d - 1)) taken q t d h box) as [H1 H2]; try done; [|lia|].
    + split; [done|]. split; [|done]. replace d with (d - 1 + 1) by lia. by apply lag_succ.
    + split; [done|]. unfold deq_left at 2. cbn [fst snd]. lia.
Qed.

Lemma deq_step_castail r c tl box : deq_inv (r, D_castail c tl, box) → deq_progress r (D_castail c tl) box.
Proof.
  intros ([HB HS] & taken & q & t & d & h & Hq & Hbox & Hlim & Hr & Hl2 & -> & -> & Ht & Htk).
  unfold deq_progress, mc_dequeue_step. unfold cas_tail. rewrite (sr_tail _ _ _ _ _ _ Hr), Z.eqb_refl, wrap32_add_l.
  replace (d - 1 + 1) with d by lia. eexists. split; [done|].
  destruct (deq_after_ok (set_cons_tail r (wrap32 d)) (wrap32 (d - 1)) taken q d d h box) as [H1 H2]; try done.
  - pose proof (core_bounds _ _ _ _ _ _ Hr). split; [apply core_set_tail with t; [done|lia]|]. split; [apply lag_refl|done].
  - split; [done|]. unfold deq_left at 2. cbn [fst snd]. lia.
Qed.

Lemma deq_step_next r c box : deq_inv (r, D_next c, box) → deq_progress r (D_next c) box.
Proof.
  intros ([HB HS] & taken & q & t & d & h & Hq & Hbox & Hlim & Hr & Hsingle & p & -> & Hp).
  pose proof (core_bounds _ _ _ _ _ _ (proj1 Hr)) as Hb. pose proof (lag_bound _ _ (proj1 (proj2 Hr))) as Hlb.
  unfold deq_progress, mc_dequeue_step.
  rewrite (sr_tail _ _ _ _ _ _ (proj1 Hr)), (next_pos _ _ _ _ _ _ _ _ (proj1 Hr)) by lia.
  assert (Z.of_nat (length box) = Z.of_nat (length taken)) as Hlen by (rewrite Hbox, length_fmap; done). rewrite Hlen.
  case_match eqn:Hc; (eexists; split; [done|]; split; [split; [done|]; exists taken, q, t, d, h; do 3 (split; [done|]); split; [done|]|]).
  - split; [|exists (p + 1); split; [done|lia]]. unfold limit. destruct single; [by rewrite Hsingle|].
    by apply Z.ltb_lt in Hc.
  - unfold deq_left. cbn [fst snd]. rewrite !wrap32_dist by lia. lia.
  - intros ->. apply orb_false_iff in Hc as [_ Hc%Z.ltb_ge]. cbn in Hc. lia.
  - unfold deq_left. cbn [fst snd]. lia.
Qed.

Lemma deq_step_ok s : deq_inv s → deq_running s = true →
  ∃ s', (let '(r, pc, box) := s in mc_dequeue_step single n r pc box) = Some s' ∧ deq_inv s' ∧ (deq_left s' < deq_left s)%nat.
Proof.
  destruct s as [[r pc] box]. intros Hinv Hrun. change (deq_progress r pc box). destruct pc; try done;
    auto using deq_step_head, deq_step_empty, deq_step_cashead, deq_step_slot, deq_step_cas, deq_step_tail,
      deq_step_castail, deq_step_next.
Qed.
End dequeue.

(** The outcome of a dequeue of at most [lim] values from the queue [q0] of [r]. *)
Definition dequeued (r : nsfw_mem_ring) (q0 : list Z) (e lim : Z) (box : list Z) (r' : nsfw_mem_ring) : Prop :=
  Addrbase r' = Addrbase r ∧ r_size r' = r_size r ∧ ∃ taken q t d h,
  q0 = taken ++ q ∧ box = (λ v, Addrbase r + v) <$> taken ∧ Z.of_nat (length taken) <= lim ∧
  shm_rep r' q t d h e ∧ (taken = [] → q0 = []).

Lemma deq_run_spec single r q t d h e n fuel :
  shm_rep r q t d h e → 1 <= n → (10 * Z.to_nat (r_size r) + 10 <= fuel)%nat →
  ∃ box r', deq_run single fuel n r = Some (box, r') ∧ dequeued r q e (limit single n) box r'.
Proof.
  intros Hr Hn Hfuel. unfold deq_run. pose proof (core_bounds _ _ _ _ _ _ (proj1 Hr)) as Hb.
  pose proof (sr_tail _ _ _ _ _ _ (proj1 Hr)) as Ht.
  destruct (while_fuel_rule (deq_inv (Addrbase r) (r_size r) e q single n) (deq_left e) deq_running (λ '(r, pc, box), mc_dequeue_step single n r pc box)) with
    (fuel := fuel) (s := (r, D_head (tail (cons r)), @nil Z)) as ([[r' pc] box] & -> & Hinv & Hc).
  - intros s Hs Hrun. destruct (deq_step_ok _ _ _ _ _ _ Hn s Hs Hrun) as (s' & H1 & H2 & H3). exists s'. by destruct s as [[? ?] ?].
  - split; [done|]. exists [], q, t, d, h. unfold limit. split; [done|]. split; [done|].
    split; [cbn; destruct single; lia|]. split; [done|]. split; [cbn; destruct single; lia|]. exists t. split; [done|lia].
  - unfold deq_left. cbn [fst snd]. rewrite Ht, wrap32_dist by lia. lia.
  - cbn [mbind option_bind]. exists box, r'. split; [done|]. destruct pc; try done.
    destruct Hinv as ([HB HS] & taken & q1 & t1 & d1 & h1 & Hq & Hbox & Hlim & Hr1 & Hnil).
    split; [done|]. split; [done|]. exists taken, q1, t1, d1, h1. do 4 (split; [done|]).
    intros ->. rewrite Hq. by apply Hnil.
Qed.

(** One pass of the single-consumer loop. *)
Section single_consumer.
Context (B S0 e : Z) (q0 : list Z) (single : bool) (n : Z) (Hn : 1 <= n).

Definition sc_inv (s : nsfw_mem_ring * Z * list Z * bool) : Prop :=
  let '(r, c, box, fin) := s in (Addrbase r = B ∧ r_size r = S0) ∧ ∃ taken q t d h,
  q0 = taken ++ q ∧ box = (λ v, B + v) <$> taken ∧ Z.of_nat (length taken) <= limit single n ∧ shm_rep r q t d h e ∧
  if (fin : bool) then taken = [] → q = []
  else Z.of_nat (length taken) < limit single n ∧ ∃ p, c = wrap32 p ∧ t <= p <= d.

Definition sc_left (s : nsfw_mem_ring * Z * list Z * bool) : nat :=
  if s.2 then 0 else S (Z.to_nat (wrap32 e ⊟ s.1.1.2)).

Lemma more_values (taken : list Z) k : Z.of_nat (length taken) < limit single n → k = length taken →
  single || (Z.of_nat k <? n) = true.
Proof. unfold limit. intros Hl ->. destruct single; [done|]. by apply Z.ltb_lt. Qed.

(** The part of a pass after the test for an empty ring. *)
Lemma sc_slot_ok r taken q t d h p box :
  (Addrbase r = B ∧ r_size r = S0) → q0 = taken ++ q → box = (λ v, B + v) <$> taken →
  Z.of_nat (length taken) < limit single n → shm_rep r q t d h e → t <= p <= d → p < h →
  ∃ s', (ex ← ring_load r (Z.land (wrap32 p) (r_mask r));
         if (data_ver (mk_data (wrap32 p) 0) =? data_ver ex) && negb (data_val ex =? 0) then
           r' ← ring_store r (Z.land (wrap32 p) (r_mask r)) (mk_data (wrap32 p) 0);
           let box' := box ++ [ADDR_SHTOL (Addrbase r' + data_val ex)] in
           Some (set_cons_tail r' (wrap32 p ⊞ 1), wrap32 p ⊞ 1, box', single || negb (Z.of_nat (length box') <? n))
         else Some (r, wrap32 p ⊞ 1, box, negb (single || (Z.of_nat (length box) <? n)))) = Some s' ∧
    sc_inv s' ∧ (sc_left s' < S (Z.to_nat (wrap32 e ⊟ wrap32 p)))%nat.
Proof.
  intros [HB HS] Hq Hbox Hlim Hr Hp Hph. pose proof (core_bounds _ _ _ _ _ _ (proj1 Hr)) as Hb.
  pose proof (sr_count _ _ _ _ _ _ (proj1 Hr)) as Hcnt. rewrite (load_pos _ _ _ _ _ _ (proj1 Hr)). cbn [mbind option_bind].
  rewrite !mk_data_wrap, !wrap32_add_l. destruct (decide (p = d)) as [->|Hne].
  - destruct q as [|v q]; [cbn in Hcnt; lia|]. pose proof (sr_vals _ _ _ _ _ _ (proj1 Hr)) as Hv. apply Forall_cons in Hv as [Hv _].
    pose proof (sr_full _ _ _ _ _ _ (proj1 Hr) 0%nat v eq_refl) as Hs. rewrite Z.add_0_r in Hs.
    rewrite Hs, !mk_data_ver, mk_data_val, Z.eqb_refl, (proj2 (Z.eqb_neq v 0)) by lia. cbn [negb andb].
    rewrite (store_pos _ _ _ _ _ _ (proj1 Hr)). cbn [mbind option_bind].
    eexists. split; [done|]. cbn [Addrbase set_ring]. split.
    + split; [done|]. exists (taken ++ [v]), q, (d + 1), (d + 1), h. destruct Hr as (Hr & Hl1 & Hl2).
      split; [by rewrite <- app_assoc|]. split; [by rewrite fmap_app, <- Hbox, HB|].
      split; [rewrite length_app; cbn; lia|]. split.
      * split; [|by auto using lag_refl]. apply core_set_tail with t; [by eapply core_take|lia].
      * case_match eqn:Hfin; [by destruct taken|]. split; [|exists (d + 1); split; [done|lia]].
        apply orb_false_iff in Hfin as [Hsi Hl]. apply negb_false_iff, Z.ltb_lt in Hl. unfold limit. rewrite Hsi.
        rewrite Hbox, length_app, length_fmap in Hl. rewrite length_app. done.
    + unfold sc_left. cbn [fst snd]. case_match; [lia|]. rewrite !wrap32_dist by lia. lia.
  - rewrite (val_taken _ _ _ _ _ _ (proj1 Hr)) by lia. cbn [Z.eqb negb]. rewrite andb_false_r.
    rewrite (more_values taken) by (done || by rewrite Hbox, length_fmap). cbn [negb]. eexists. split; [done|]. split.
    + split; [done|]. exists taken, q, t, d, h. split; [done|]. split; [done|]. split; [lia|]. split; [done|].
      split; [done|]. exists (p + 1). split; [done|lia].
    + unfold sc_left. cbn [fst snd]. rewrite !wrap32_dist by lia. lia.
Qed.

Lemma sc_step_ok s : sc_inv s → negb s.2 = true →
  ∃ s', sc_dequeue_step single n s = Some s' ∧ sc_inv s' ∧ (sc_left s' < sc_left s)%nat.
Proof.
  destruct s as [[[r c] box] []]; [done|].
  intros ([HB HS] & taken & q & t & d & h & Hq & Hbox & Hlim & Hr & Hroom & p & -> & Hp) _.
  pose proof (core_bounds _ _ _ _ _ _ (proj1 Hr)) as Hb. pose proof (sr_count _ _ _ _ _ _ (proj1 Hr)) as Hcnt.
  unfold sc_dequeue_step, sc_left at 2. cbn [fst snd].
  rewrite (sr_head _ _ _ _ _ _ (proj1 Hr)), wrap32_eqb by lia. destruct (Z.eqb_spec p h) as [->|Hne].
  2:{ cbn [mbind option_bind andb]. apply (sc_slot_ok r taken q t d h p); try done. lia. }
  assert (h = d) as -> by lia. rewrite (load_pos _ _ _ _ _ _ (proj1 Hr)). cbn [mbind option_bind andb].
  destruct ((single || _) && _) eqn:Hc; cbn [negb].
  - apply andb_true_iff in Hc as [_ Hc].
    destruct (decide (d = e)) as [->|]; [exfalso|].
    { rewrite (sr_free _ _ _ _ _ _ (proj1 Hr)), mk_data_val in Hc by lia. done. }
    rewrite cas_head_eq by apply Hr. destruct Hr as (Hr & Hl1 & Hl2).
    apply (sc_slot_ok (set_prod_head r (wrap32 d ⊞ 1)) taken q t d (d + 1) d); try done; [|lia].
    rewrite wrap32_add_l. split; [apply core_set_head with d; [done|lia]|]. split; [done|]. apply lag_up with d; [done|lia].
  - eexists. split; [done|]. split; [|cbn; lia]. split; [done|]. exists taken, q, t, d, d. do 4 (split; [done|]).
    intros ->. destruct q as [|v q]; [done|exfalso]. cbn [length] in Hcnt.
    rewrite (proj2 (Z.eqb_neq _ _) (val_held _ _ _ _ _ _ (proj1 Hr) d ltac:(lia))), Hbox in Hc. cbn in Hc.
    by rewrite orb_true_r in Hc.
Qed.
End single_consumer.

Lemma sc_run_spec single r q t d h e n fuel :
  shm_rep r q t d h e → 1 <= n → (Z.to_nat (r_size r) + 1 <= fuel)%nat →
  ∃ box r', sc_run single fuel n r = Some (box, r') ∧ dequeued r q e (limit single n) box r'.
Proof.
  intros Hr Hn Hfuel. unfold sc_run. pose proof (core_bounds _ _ _ _ _ _ (proj1 Hr)) as Hb.
  pose proof (sr_tail _ _ _ _ _ _ (proj1 Hr)) as Ht.
  destruct (while_fuel_rule (sc_inv (Addrbase r) (r_size r) e q single n) (sc_left e) (λ s, negb s.2) (sc_dequeue_step single n)) with
    (fuel := fuel) (s := (r, tail (cons r), @nil Z, false)) as ([[[r' c] box] fin] & -> & Hinv & Hc).
  - intros s Hs Hrun. by apply sc_step_ok.
  - split; [done|]. exists [], q, t, d, h. unfold limit. split; [done|]. split; [done|].
    split; [cbn; destruct single; lia|]. split; [done|]. split; [cbn; destruct single; lia|]. exists t. split; [done|lia].
  - unfold sc_left. cbn [fst snd]. rewrite Ht, wrap32_dist by lia. lia.
  - cbn [mbind option_bind]. exists box, r'. split; [done|]. cbn in Hc. apply negb_false_iff in Hc as ->.
    destruct Hinv as ([HB HS] & taken & q1 & t1 & d1 & h1 & Hq & Hbox & Hlim & Hr1 & Hnil).
    split; [done|]. split; [done|]. exists taken, q1, t1, d1, h1. do 4 (split; [done|]).
    intros ->. rewrite Hq. by apply Hnil.
Qed.

(** ** Sequences of operations *)

Inductive shm_op :=
  | MpEnqueue (box : Z)
  | SpEnqueue (box : Z)
  | McDequeue
  | ScDequeue
  | McDequeuev (n : Z)
  | ScDequeuev (n : Z).

(** What a call returns and the values it delivers. *)
Definition shm_exec (fuel : nat) (r : nsfw_mem_ring) (op : shm_op) : option (Z * list Z * nsfw_mem_ring) :=
  let delivered x := '(box, r) ← x; Some (Z.of_nat (length box), box, r) in
  match op with
  | MpEnqueue box => '(ret, r) ← nsfw_shmem_ring_mp_enqueue fuel r box; Some (ret, [], r)
  | SpEnqueue box => '(ret, r) ← nsfw_shmem_ring_sp_enqueue fuel r box; Some (ret, [], r)
  | McDequeue => delivered (nsfw_shmem_ring_mc_dequeue fuel r)
  | ScDequeue => delivered (nsfw_shmem_ring_sc_dequeue fuel r)
  | McDequeuev n => delivered (nsfw_shmem_ring_mc_dequeuev fuel r n)
  | ScDequeuev n => delivered (nsfw_shmem_ring_sc_dequeuev fuel r n)
  end.

(** The specification: a queue of at most [cap] addresses.  A dequeue may deliver fewer values than
    it was asked for, but not none while the queue has some. *)
Definition fifo_take (lim : Z) (l : list Z) (ret : Z) (out l' : list Z) : Prop :=
  l = out ++ l' ∧ ret = Z.of_nat (length out) ∧ ret <= lim ∧ (out = [] → l = []).

Definition fifo_step (base cap : Z) (op : shm_op) (l : list Z) (ret : Z) (out l' : list Z) : Prop :=
  match op with
  | MpEnqueue box | SpEnqueue box =>
      out = [] ∧
      if (base <? box) && (box <=? base + PERFRING_ADDR_RANGE)
      then (ret, l') = fifo_enqueue cap l box else ret = -1 ∧ l' = l
  | McDequeue | ScDequeue => fifo_take 1 l ret out l'
  | McDequeuev n | ScDequeuev n => fifo_take n l ret out l'
  end.

Definition op_ok (op : shm_op) : Prop := match op with McDequeuev n | ScDequeuev n => 1 <= n | _ => True end.

(** The addresses a ring holds. *)
Definition shm_holds (r : nsfw_mem_ring) (l : list Z) : Prop :=
  ∃ q t d h e, shm_rep r q t d h e ∧ l = (λ v, Addrbase r + v) <$> q.

Lemma enqueued_fifo r q d e box ret r' :
  enqueued r box q d e ret r' → ∃ l', shm_holds r' l' ∧ Addrbase r' = Addrbase r ∧ r_size r' = r_size r ∧
    (ret, l') = fifo_enqueue (r_size r) ((λ v, Addrbase r + v) <$> q) box.
Proof.
  intros (HB & HS & t & h & H). unfold fifo_enqueue. rewrite length_fmap.
  destruct (_ <? _); destruct H as [-> Hr]; (eexists; split; [eexists; exists t, d, h; eexists; split; [exact Hr|done]|]; split; [done|]; split; [done|]).
  - rewrite HB, fmap_app. cbn. do 3 f_equal. lia.
  - by rewrite HB.
Qed.

Lemma dequeued_fifo r q e lim box r' :
  dequeued r q e lim box r' → ∃ l', shm_holds r' l' ∧ Addrbase r' = Addrbase r ∧ r_size r' = r_size r ∧
    fifo_take lim ((λ v, Addrbase r + v) <$> q) (Z.of_nat (length box)) box l'.
Proof.
  intros (HB & HS & taken & q' & t & d & h & -> & -> & Hlim & Hr & Hnil).
  exists ((λ v, Addrbase r' + v) <$> q'). split; [by exists q', t, d, h, e|]. split; [done|]. split; [done|].
  split; [by rewrite HB, fmap_app|]. rewrite length_fmap. split; [done|]. split; [done|].
  intros ->%fmap_nil_inv. by rewrite Hnil.
Qed.

Lemma box_range_eq r box :
  box_in_range r box = (Addrbase r <? box) && (box <=? Addrbase r + PERFRING_ADDR_RANGE).
Proof. unfold box_in_range, ADDR_LTOSH_EXT. by rewrite negb_orb, !Z.leb_antisym, !Z.ltb_antisym, !negb_involutive. Qed.

Definition shm_fuel (r : nsfw_mem_ring) : nat := (10 * Z.to_nat (r_size r) + 40)%nat.

Lemma shm_exec_spec fuel r l op :
  shm_holds r l → op_ok op → (shm_fuel r <= fuel)%nat →
  ∃ ret out l' r', shm_exec fuel r op = Some (ret, out, r') ∧ fifo_step (Addrbase r) (r_size r) op l ret out l' ∧
    shm_holds r' l' ∧ Addrbase r' = Addrbase r ∧ r_size r' = r_size r.
Proof.
  intros (q & t & d & h & e & Hr & ->) Hop Hfuel. unfold shm_fuel in Hfuel.
  destruct op as [box|box| | |n|n]; cbn [shm_exec fifo_step op_ok] in *; rewrite <- ?box_range_eq;
    unfold nsfw_shmem_ring_mc_dequeue, nsfw_shmem_ring_sc_dequeue, nsfw_shmem_ring_mc_dequeuev, nsfw_shmem_ring_sc_dequeuev.
  1,2: destruct (box_in_range r box) eqn:Hbox.
  2,4: unfold nsfw_shmem_ring_mp_enqueue, nsfw_shmem_ring_sp_enqueue, mp_enqueue_start; rewrite Hbox;
    exists (-1), [], ((λ v, Addrbase r + v) <$> q), r; (split; [by destruct fuel|]); (split; [done|]); split; [by exists q, t, d, h, e|done].
  - destruct (mp_enqueue_spec r q t d h e box fuel Hr Hbox) as (ret & r' & -> & (l' & H1 & H2 & H3 & H4)%enqueued_fifo); [lia|]. by exists ret, [], l', r'.
  - destruct (sp_enqueue_spec r q t d h e box fuel Hr Hbox) as (ret & r' & -> & (l' & H1 & H2 & H3 & H4)%enqueued_fifo); [lia|]. by exists ret, [], l', r'.
  - destruct (deq_run_spec true r q t d h e 1 fuel Hr) as (box & r' & -> & (l' & H1 & H2 & H3 & H4)%dequeued_fifo); [lia..|]. by exists (Z.of_nat (length box)), box, l', r'.
  - destruct (sc_run_spec true r q t d h e 1 fuel Hr) as (box & r' & -> & (l' & H1 & H2 & H3 & H4)%dequeued_fifo); [lia..|]. by exists (Z.of_nat (length box)), box, l', r'.
  - destruct (deq_run_spec false r q t d h e n fuel Hr) as (box & r' & -> & (l' & H1 & H2 & H3 & H4)%dequeued_fifo); [lia..|]. by exists (Z.of_nat (length box)), box, l', r'.
  - destruct (sc_run_spec false r q t d h e n fuel Hr) as (box & r' & -> & (l' & H1 & H2 & H3 & H4)%dequeued_fifo); [lia..|]. by exists (Z.of_nat (length box)), box, l', r'.
Qed.

Lemma init_core size addrbase memtype flag pid :
  pow2_size size → 8 <= size → shm_core (nsfw_mem_ring_init size addrbase memtype flag pid) [] 0 0 0 0.
Proof.
  intros Hs H8. pose proof (pow2_size_bounds _ Hs) as Hb. split; cbn; try done; try lia.
  - apply wrap32_small. unfold is_u32. lia.
  - rewrite length_fmap, length_seq. lia.
  - intros p Hp. unfold slot. cbn [r_size r_ring nsfw_mem_ring_init]. rewrite Z.mod_small by lia.
    rewrite list_lookup_fmap, lookup_seq_lt by lia. cbn. rewrite mk_data_wrap. f_equal. lia.
Qed.

Lemma init_holds size addrbase memtype flag pid :
  pow2_size size → 8 <= size → shm_holds (nsfw_mem_ring_init size addrbase memtype flag pid) [].
Proof.
  intros Hs H8. exists [], 0, 0, 0, 0. split; [|done]. split; [by apply init_core|by auto using lag_refl].
Qed.

(** The accepted values of a run, and the values it delivered. *)
Fixpoint shm_run (fuel : nat) (r : nsfw_mem_ring) (ops : list shm_op) : option (list Z * list Z * nsfw_mem_ring) :=
  match ops with
  | [] => Some ([], [], r)
  | op :: ops =>
      '(ret, out, r) ← shm_exec fuel r op;
      '(acc, outs, r) ← shm_run fuel r ops;
      Some ((match op with MpEnqueue box | SpEnqueue box => if ret =? 1 then [box] else [] | _ => [] end) ++ acc, out ++ outs, r)
  end.

Lemma fifo_step_flow base cap op l ret out l' : fifo_step base cap op l ret out l' →
  l ++ (match op with MpEnqueue box | SpEnqueue box => if ret =? 1 then [box] else [] | _ => [] end) = out ++ l'.
Proof.
  destruct op as [box|box| | |n|n]; cbn.
  1,2: intros [-> H]; destruct (_ && _); [|destruct H as [-> ->]; by rewrite app_nil_r];
    unfold fifo_enqueue in H; destruct (_ <? _); injection H as -> ->; cbn; by rewrite ?app_nil_r.
  all: intros (-> & _); by rewrite app_nil_r.
Qed.

Lemma shm_run_spec fuel r l ops :
  shm_holds r l → Forall op_ok ops → (shm_fuel r <= fuel)%nat →
  ∃ acc outs l' r', shm_run fuel r ops = Some (acc, outs, r') ∧ shm_holds r' l' ∧ l ++ acc = outs ++ l'.
Proof.
  revert r l. induction ops as [|op ops IH]; intros r l Hr Hops Hfuel; cbn [shm_run].
  { exists [], [], l, r. by rewrite app_nil_r. }
  apply Forall_cons in Hops as [Hop Hops].
  destruct (shm_exec_spec fuel r l op Hr Hop Hfuel) as (ret & out & l1 & r1 & -> & Hstep & Hr1 & HB & HS). cbn [mbind option_bind].
  destruct (IH r1 l1 Hr1 Hops) as (acc & outs & l2 & r2 & -> & Hr2 & Hflow); [unfold shm_fuel in *; lia|]. cbn [mbind option_bind].
  eexists _, _, l2, r2. split; [done|]. split; [done|].
  rewrite app_assoc, (fifo_step_flow _ _ _ _ _ _ _ Hstep), <- !app_assoc. by rewrite Hflow.
Qed.

(** ** One thread *)

Definition st_holds (r : nsfw_mem_ring) (l : list Z) (d : Z) : Prop :=
  ∃ q e, shm_core r q d d e e ∧ l = (λ v, Addrbase r + v) <$> q.

Lemma store_set_head r h i v : ring_store (set_prod_head r h) i v = (r' ← ring_store r i v; Some (set_prod_head r' h)).
Proof. unfold ring_store. cbn. by destruct (awrite _ _ _). Qed.

Lemma store_set_tail r t i v : ring_store (set_cons_tail r t) i v = (r' ← ring_store r i v; Some (set_cons_tail r' t)).
Proof. unfold ring_store. cbn. by destruct (awrite _ _ _). Qed.

Lemma st_enqueue_spec r l d box :
  st_holds r l d → 0 <= d → d + r_size r < 2 ^ 32 → box_in_range r box = true →
  let '(ret, l') := fifo_enqueue (r_size r) l box in
  ∃ r', nsfw_shmem_ring_singlethread_enqueue r box = Some (ret, r') ∧ st_holds r' l' d ∧ r_size r' = r_size r.
Proof.
  intros (q & e & Hr & ->) Hd Hds Hbox. pose proof (core_bounds _ _ _ _ _ _ Hr) as Hb.
  pose proof (sr_count _ _ _ _ _ _ Hr) as Hcnt. unfold fifo_enqueue, nsfw_shmem_ring_singlethread_enqueue.
  rewrite length_fmap, (sr_tail _ _ _ _ _ _ Hr), (sr_head _ _ _ _ _ _ Hr).
  rewrite !(wrap32_small d), !(wrap32_small e), wrap32_small by (unfold is_u32; lia).
  destruct (Z.ltb_spec (Z.of_nat (length q)) (r_size r)), (Z.leb_spec (r_size r + d) e); try lia.
  - pose proof (core_fill _ _ _ _ _ _ (box - Addrbase r) Hr ltac:(lia) (box_in_range_offset r box Hbox)) as Hf.
    pose proof (store_pos _ _ _ _ _ _ Hr e) as Hst. rewrite wrap32_small in Hst by (unfold is_u32; lia).
    rewrite store_set_head, Hst. eexists. split; [done|]. split; [|done].
    exists (q ++ [box - Addrbase r]), (e + 1). split; [apply core_set_head with e; [done|lia]|].
    rewrite fmap_app. cbn. do 2 f_equal. lia.
  - exists r. split; [done|]. split; [by exists q, e|done].
Qed.

Lemma st_empty_test r q d e : shm_core r q d d e e → (wrap32 e =? wrap32 d) = match q with [] => true | _ => false end.
Proof.
  intros Hr. pose proof (core_bounds _ _ _ _ _ _ Hr). pose proof (sr_count _ _ _ _ _ _ Hr) as Hc.
  rewrite wrap32_eqb by lia. destruct q as [|v q]; cbn [length] in Hc; [apply Z.eqb_eq|apply Z.eqb_neq]; lia.
Qed.

Lemma st_take r v q d e : shm_core r (v :: q) d d e e →
  data_val (slot r d) = v ∧
  shm_core (set_cons_tail (set_ring r (<[Z.to_nat (d mod r_size r) := mk_data d 0]> (r_ring r))) (wrap32 (d + 1))) q (d + 1) (d + 1) e e.
Proof.
  intros Hr. pose proof (sr_count _ _ _ _ _ _ Hr) as Hc. cbn [length] in Hc.
  pose proof (sr_full _ _ _ _ _ _ Hr 0%nat v eq_refl) as Hs. rewrite Z.add_0_r in Hs.
  pose proof (sr_vals _ _ _ _ _ _ Hr) as Hv. apply Forall_cons in Hv as [Hv _].
  split; [rewrite Hs; apply mk_data_val; lia|]. apply core_set_tail with d; [apply core_take with v; [done|lia]|lia].
Qed.

Lemma st_dequeue_spec r l d :
  st_holds r l d → ∃ r' d', nsfw_shmem_ring_singlethread_dequeue r = Some (take 1 l, r') ∧ st_holds r' (drop 1 l) d' ∧ r_size r' = r_size r.
Proof.
  intros (q & e & Hr & ->). unfold nsfw_shmem_ring_singlethread_dequeue.
  rewrite (sr_tail _ _ _ _ _ _ Hr), (sr_head _ _ _ _ _ _ Hr), (st_empty_test _ _ _ _ Hr).
  destruct q as [|v q]; [exists r, d; split; [done|]; split; [by exists [], e|done]|].
  rewrite (load_pos _ _ _ _ _ _ Hr), mk_data_wrap. cbn [mbind option_bind]. rewrite (store_pos _ _ _ _ _ _ Hr). cbn [mbind option_bind].
  destruct (st_take _ _ _ _ _ Hr) as [-> Ht]. eexists _, (d + 1). split; [done|]. split; [|done].
  exists q, e. split; [|done]. cbn [tail cons set_ring]. by rewrite (sr_tail _ _ _ _ _ _ Hr), wrap32_add_l.
Qed.

Lemma st_dequeuev_spec n r l d :
  st_holds r l d →
  ∃ r' d', nsfw_shmem_ring_singlethread_dequeuev n r = Some (take n l, r') ∧ st_holds r' (drop n l) d' ∧
    r_size r' = r_size r ∧ Addrbase r' = Addrbase r.
Proof.
  revert r l d. induction n as [|n IH]; intros r l d (q & e & Hr & ->); cbn [nsfw_shmem_ring_singlethread_dequeuev].
  { exists r, d. split; [done|]. split; [by exists q, e|done]. }
  rewrite (sr_tail _ _ _ _ _ _ Hr), (sr_head _ _ _ _ _ _ Hr), (st_empty_test _ _ _ _ Hr).
  destruct q as [|v q]; [exists r, d; split; [done|]; split; [by exists [], e|done]|].
  change (ring_load (set_cons_tail r _)) with (ring_load r). change (r_mask (set_cons_tail r _)) with (r_mask r).
  rewrite (load_pos _ _ _ _ _ _ Hr), mk_data_wrap. cbn [mbind option_bind].
  rewrite store_set_tail, (store_pos _ _ _ _ _ _ Hr). cbn [mbind option_bind].
  destruct (st_take _ _ _ _ _ Hr) as [-> Ht]. rewrite wrap32_add_l. 
  set (r1 := set_cons_tail _ _) in *. destruct (IH r1 ((λ v, Addrbase r1 + v) <$> q) (d + 1)) as (r' & d' & -> & H1 & H2 & H3); [by exists q, e|].
  cbn [mbind option_bind]. exists r', d'. rewrite H3. split; [done|]. split; [done|]. split; [exact H2|done].
Qed.

(** ** Rings that are too small *)

(** A loop that stays within a set of running states never ends. *)
Lemma while_fuel_diverges {S} (X : S → Prop) cond (body : S → option S) :
  (∀ s, X s → cond s = true ∧ ∃ s', body s = Some s' ∧ X s') → ∀ fuel s, X s → while_fuel fuel cond body s = None.
Proof.
  intros HX fuel. induction fuel as [|fuel IH]; intros s Hs; cbn; destruct (HX s Hs) as [-> (s' & Hb & Hs')]; [done|].
  rewrite Hb. by apply IH.
Qed.

(** Four slots with three values, put in by [nsfw_shmem_ring_mp_enqueue]. *)
Definition small_ring : nsfw_mem_ring :=
  Eval vm_compute in
  match shm_run 40 (nsfw_mem_ring_init 4 0 0 0 7) [MpEnqueue 1; MpEnqueue 2; MpEnqueue 3] with
  | Some (_, _, r) => r
  | None => nsfw_mem_ring_init 4 0 0 0 7
  end.

(** ** Properties *)

Definition ring8 : nsfw_mem_ring := nsfw_mem_ring_init 8 4096 0 0 7.

Lemma pow2_size_8 : pow2_size 8.
Proof. by exists 3. Qed.

(** C19: Each of the six queue operations of the shared-memory ring, run without interference in any
    reachable state of a ring of at least 8 slots (a smaller one can hang in the multi-producer
    enqueue) and asked for at least one value where it is a vector dequeue, returns within a bounded number of steps and is the operation of a
    bounded queue of addresses, although [prod.head] and [cons.tail] lag behind and the counters wrap:
    an enqueue appends or reports a full ring or an address out of range; a dequeue delivers values from the front, at least one if there is one. *)
Theorem shm_ops_refine_fifo fuel r l op :
  shm_holds r l → op_ok op → (shm_fuel r <= fuel)%nat →
  ∃ ret out l' r', shm_exec fuel r op = Some (ret, out, r') ∧ fifo_step (Addrbase r) (r_size r) op l ret out l' ∧
    shm_holds r' l'.
Proof.
  intros Hr Hop Hfuel. destruct (shm_exec_spec fuel r l op Hr Hop Hfuel) as (ret & out & l' & r' & H1 & H2 & H3 & _).
  by exists ret, out, l', r'.
Qed.

Lemma shm_ops_refine_fifo_witness :
  ∃ ret out l' r', shm_exec 200 ring8 (MpEnqueue 5000) = Some (ret, out, r') ∧ ret = 1 ∧ shm_holds r' l'.
Proof.
  destruct (shm_ops_refine_fifo 200 ring8 [] (MpEnqueue 5000)) as (ret & out & l' & r' & H1 & H2 & H3);
    [exact (init_holds 8 4096 0 0 7 pow2_size_8 ltac:(lia))|exact I|vm_compute; lia|].
  exists ret, out, l', r'. split; [exact H1|]. split; [vm_compute in H1; congruence|exact H3].
Defined.

(** C34: In every sequence of such operations on a ring initialised with a power of two of at least 8
    slots, where vector dequeues ask for at least one value, of one or many producers and
    consumers taking turns, the values delivered and then the values still held are exactly the values
    accepted, in the order they were accepted. *)
Theorem shm_run_is_fifo fuel size addrbase memtype flag pid ops :
  pow2_size size → 8 <= size → Forall op_ok ops → (10 * Z.to_nat size + 40 <= fuel)%nat →
  ∃ acc outs l' r', shm_run fuel (nsfw_mem_ring_init size addrbase memtype flag pid) ops = Some (acc, outs, r') ∧
    shm_holds r' l' ∧ acc = outs ++ l'.
Proof.
  intros Hs H8 Hops Hfuel.
  by apply (shm_run_spec fuel _ [] ops (init_holds size addrbase memtype flag pid Hs H8) Hops).
Qed.

Lemma shm_run_is_fifo_witness :
  ∃ acc outs l' r', shm_run 200 ring8 [MpEnqueue 5000; MpEnqueue 5001; SpEnqueue 5002; McDequeuev 4; ScDequeue; MpEnqueue 4096]
      = Some (acc, outs, r') ∧ shm_holds r' l' ∧ acc = outs ++ l' ∧ acc = [5000; 5001; 5002].
Proof.
  destruct (shm_run_is_fifo 200 8 4096 0 0 7 [MpEnqueue 5000; MpEnqueue 5001; SpEnqueue 5002; McDequeuev 4; ScDequeue; MpEnqueue 4096])
    as (acc & outs & l' & r' & H1 & H2 & H3);
    [exact pow2_size_8|lia|repeat constructor; cbn; lia|vm_compute; lia|].
  exists acc, outs, l', r'. split; [exact H1|]. split; [exact H2|]. split; [exact H3|].
  vm_compute in H1. congruence.
Defined.

(** The single-thread operations on a ring with exact counters are the bounded queue: the enqueue as
    long as [cons.tail + size] stays within 32 bits, the dequeues always. *)
Lemma shm_singlethread_refines r l d box n :
  st_holds r l d → box_in_range r box = true →
  (0 <= d → d + r_size r < 2 ^ 32 →
   let '(ret, l') := fifo_enqueue (r_size r) l box in
   ∃ r', nsfw_shmem_ring_singlethread_enqueue r box = Some (ret, r') ∧ st_holds r' l' d) ∧
  (∃ r' d', nsfw_shmem_ring_singlethread_dequeue r = Some (take 1 l, r') ∧ st_holds r' (drop 1 l) d') ∧
  (∃ r' d', nsfw_shmem_ring_singlethread_dequeuev n r = Some (take n l, r') ∧ st_holds r' (drop n l) d').
Proof.
  intros Hr Hbox. split; [|split].
  - intros H1 H2. pose proof (st_enqueue_spec r l d box Hr H1 H2 Hbox) as H. destruct (fifo_enqueue _ _ _).
    destruct H as (r' & ? & ? & _). eauto.
  - destruct (st_dequeue_spec r l d Hr) as (r' & d' & ? & ? & _). eauto.
  - destruct (st_dequeuev_spec n r l d Hr) as (r' & d' & ? & ? & _). eauto.
Qed.

Lemma shm_singlethread_refines_witness :
  ∃ r', nsfw_shmem_ring_singlethread_enqueue ring8 5000 = Some (1, r') ∧ st_holds r' [5000] 0.
Proof.
  destruct (shm_singlethread_refines ring8 [] 0 5000 3) as [H _].
  - exists [], 0. split; [exact (init_core 8 4096 0 0 7 pow2_size_8 ltac:(lia))|reflexivity].
  - reflexivity.
  - apply H; [lia|vm_compute; reflexivity].
Defined.

(** On a ring of four slots that holds three values the multi-producer enqueue does not
    return: it searches at most [mask - 1] positions after the head hint, which it moves only when
    a position that is a multiple of four after the hint is filled, and so finds neither the free slot nor the end. *)
Lemma mp_enqueue_small_ring_hangs fuel box :
  box_in_range small_ring box = true → nsfw_shmem_ring_mp_enqueue fuel small_ring box = None.
Proof.
  intros Hbox. unfold nsfw_shmem_ring_mp_enqueue, mp_enqueue_start. rewrite Hbox. cbn [negb].
  rewrite (while_fuel_diverges (λ s, s.1 = small_ring ∧ s.2 ∈
    [E_tail 0; E_tail 1; E_tail 2; E_slot 0; E_slot 1; E_slot 2; E_next 0; E_next 1; E_next 2])); [done| |].
  - intros [r pc] [Hr Hpc]. cbn in Hr, Hpc. subst r.
    rewrite !elem_of_cons, elem_of_nil in Hpc. destruct Hpc as [->|[->|[->|[->|[->|[->|[->|[->|[->|[]]]]]]]]]];
      (split; [done|]; eexists; split; [vm_compute; reflexivity|]; split; [done|]; cbn [snd]; rewrite !elem_of_cons; tauto).
  - split; [done|]. left.
Qed.

Lemma mp_enqueue_small_ring_hangs_witness :
  box_in_range small_ring 4 = true ∧ nsfw_shmem_ring_mp_enqueue 500 small_ring 4 = None.
Proof. split; [reflexivity|]. apply mp_enqueue_small_ring_hangs. reflexivity. Defined.
