(* ===== verification/ShmRingConc.v ===== *)
(** * The shared-memory ring under interleaving

    Any number of threads run [nsfw_shmem_ring_mp_enqueue],
    [nsfw_shmem_ring_mc_dequeue] and [nsfw_shmem_ring_mc_dequeuev] on one ring; a
    scheduler picks the thread that makes the next access to shared memory.  No
    access is out of range, and every value put into the ring is still held or was delivered to
    exactly one thread. *)
From S2P Require Import Prelude.
From S2P Require Import Ring.
From S2P Require Import ShmRing.
From S2P Require Import ShmRingProps.

(** ** Threads *)

(** A call before its first access, an enqueue and a dequeue under way. *)
Inductive thread :=
  | T_call_enq (box : Z)
  | T_call_deq (single : bool) (n : Z)
  | T_enq (box : Z) (pc : enq_pc)
  | T_deq (single : bool) (n : Z) (pc : deq_pc) (box : list Z).

Definition thread_step (r : nsfw_mem_ring) (th : thread) : option (nsfw_mem_ring * thread) :=
  match th with
  | T_call_enq box => Some (r, T_enq box (mp_enqueue_start r box))
  | T_call_deq single n => Some (r, T_deq single n (D_head (tail (cons r))) [])
  | T_enq box pc => '(r, pc) ← mp_enqueue_step box r pc; Some (r, T_enq box pc)
  | T_deq single n pc box => '(r, pc, box) ← mc_dequeue_step single n r pc box; Some (r, T_deq single n pc box)
  end.

Definition thread_done (th : thread) : bool :=
  match th with T_enq _ (E_done _) | T_deq _ _ D_done _ => true | _ => false end.

Record system := mk_system { s_ring : nsfw_mem_ring; s_threads : list thread }.

Inductive sys_step : system → system → Prop :=
  | sys_step_intro s i th r' th' :
      s_threads s !! i = Some th → thread_step (s_ring s) th = Some (r', th') →
      sys_step s (mk_system r' (<[i := th']> (s_threads s))).

(** ** What was put in, what came out, what is held *)

Definition puts (th : thread) : list Z :=
  match th with
  | T_enq box (E_head _) | T_enq box (E_cashead _ _) | T_enq box (E_done 1) => [box]
  | _ => []
  end.

Definition gots (th : thread) : list Z := match th with T_deq _ _ _ box => box | _ => [] end.

Definition held_vals (l : list Z) : list Z := filter (λ v, v ≠ 0) (data_val <$> l).
Definition held (r : nsfw_mem_ring) : list Z := (λ v, Addrbase r + v) <$> held_vals (r_ring r).

Lemma held_vals_fill l i x y :
  l !! i = Some x → data_val x = 0 → data_val y ≠ 0 → held_vals (<[i := y]> l) ≡ₚ data_val y :: held_vals l.
Proof.
  unfold held_vals. revert i. induction l as [|z l IH]; intros [|i] Hi Hx Hy; cbn in Hi; try done.
  - injection Hi as ->. rewrite list_fmap_insert. cbn [fmap list_fmap insert list_insert].
    by rewrite filter_cons_True, filter_cons_False by auto.
  - cbn [insert list_insert fmap list_fmap]. specialize (IH i Hi Hx Hy). rewrite !filter_cons.
    destruct (decide (data_val z ≠ 0)); [|done]. rewrite IH. constructor.
Qed.

Lemma held_vals_clear l i x y :
  l !! i = Some x → data_val x ≠ 0 → data_val y = 0 → held_vals l ≡ₚ data_val x :: held_vals (<[i := y]> l).
Proof.
  intros Hi Hx Hy. rewrite <- (held_vals_fill (<[i := y]> l) i y x); [|by apply list_lookup_insert_eq; eapply lookup_lt_Some|done..].
  by rewrite list_insert_insert_eq, list_insert_id.
Qed.

Lemma concat_insert {A} (f : thread → list A) ts i th th' :
  ts !! i = Some th → f th' = f th → concat (f <$> <[i := th']> ts) = concat (f <$> ts).
Proof. intros Hi Hf. rewrite list_fmap_insert, Hf, list_insert_id; [done|]. by rewrite list_lookup_fmap, Hi. Qed.

Lemma concat_insert_more {A} (f : thread → list A) ts i th th' a :
  ts !! i = Some th → f th' ≡ₚ a :: f th → concat (f <$> <[i := th']> ts) ≡ₚ a :: concat (f <$> ts).
Proof.
  revert i. induction ts as [|z ts IH]; intros [|i] Hi Hf; cbn in Hi; try done.
  - injection Hi as ->. cbn. by rewrite Hf.
  - cbn. rewrite (IH i Hi Hf). by rewrite Permutation_middle.
Qed.

(** ** The invariant *)

(** A thread past its range check enqueues an offset that fits a slot; a thread about to swap a
    slot out has seen a value in it. *)
Definition thread_ok (B : Z) (th : thread) : Prop :=
  match th with
  | T_enq box (E_done _) => True
  | T_enq box _ => 0 < box - B < 2 ^ 40
  | T_deq _ _ (D_cas _ ex) _ => data_val ex ≠ 0
  | _ => True
  end.

Record sys_inv (s0 s : system) : Prop := {
  si_base : Addrbase (s_ring s) = Addrbase (s_ring s0);
  si_size : pow2_size (r_size (s_ring s));
  si_mask : r_mask (s_ring s) = r_size (s_ring s) - 1;
  si_len : Z.of_nat (length (r_ring (s_ring s))) = r_size (s_ring s);
  si_threads : Forall (thread_ok (Addrbase (s_ring s))) (s_threads s);
  si_flow : concat (puts <$> s_threads s) ++ held (s_ring s0) ≡ₚ concat (gots <$> s_threads s) ++ held (s_ring s)
}.

(** Masked indices are in range. *)
Lemma masked_load r c : pow2_size (r_size r) → r_mask r = r_size r - 1 → Z.of_nat (length (r_ring r)) = r_size r →
  ∃ v, ring_load r (Z.land c (r_mask r)) = Some v ∧ r_ring r !! Z.to_nat (c mod r_size r) = Some v.
Proof.
  intros Hs Hm Hl. pose proof (pow2_size_bounds _ Hs). rewrite Hm, land_mask by done.
  apply aread_is_Some. rewrite Hl. apply Z.mod_pos_bound. lia.
Qed.

Lemma masked_cas r c old new : pow2_size (r_size r) → r_mask r = r_size r - 1 → Z.of_nat (length (r_ring r)) = r_size r →
  (cas_slot r (Z.land c (r_mask r)) old new = Some (false, r)) ∨
  (r_ring r !! Z.to_nat (c mod r_size r) = Some old ∧
   cas_slot r (Z.land c (r_mask r)) old new = Some (true, set_ring r (<[Z.to_nat (c mod r_size r) := new]> (r_ring r)))).
Proof.
  intros Hs Hm Hl. destruct (masked_load r c Hs Hm Hl) as (v & Hv & Hlk). unfold cas_slot. rewrite Hv. cbn [mbind option_bind].
  destruct (Z.eqb_spec v old) as [->|]; [right|by left]. split; [done|].
  pose proof (pow2_size_bounds _ Hs). rewrite Hm, land_mask by done. unfold ring_store.
  rewrite awrite_Some; [done|]. rewrite Hl. apply Z.mod_pos_bound. lia.
Qed.

(** What a step does to the slots: nothing, one value put in, one value taken out. *)
Definition effect (r : nsfw_mem_ring) (th : thread) (r' : nsfw_mem_ring) (th' : thread) : Prop :=
  (r_ring r' = r_ring r ∧ puts th' = puts th ∧ gots th' = gots th) ∨
  (∃ i x y, r_ring r !! i = Some x ∧ r_ring r' = <[i := y]> (r_ring r) ∧ data_val x = 0 ∧ data_val y ≠ 0 ∧
     puts th' = (Addrbase r + data_val y) :: puts th ∧ gots th' = gots th) ∨
  (∃ i x y, r_ring r !! i = Some x ∧ r_ring r' = <[i := y]> (r_ring r) ∧ data_val x ≠ 0 ∧ data_val y = 0 ∧
     puts th' = puts th ∧ gots th' = gots th ++ [Addrbase r + data_val x]).

Definition same_shape (r r' : nsfw_mem_ring) : Prop :=
  Addrbase r' = Addrbase r ∧ r_size r' = r_size r ∧ r_mask r' = r_mask r ∧ length (r_ring r') = length (r_ring r).

Definition step_ok (r : nsfw_mem_ring) (th : thread) : Prop :=
  ∃ r' th', thread_step r th = Some (r', th') ∧ same_shape r r' ∧ thread_ok (Addrbase r) th' ∧ effect r th r' th'.

Section steps.
Context (r : nsfw_mem_ring) (Hs : pow2_size (r_size r)) (Hm : r_mask r = r_size r - 1) (Hl : Z.of_nat (length (r_ring r)) = r_size r).

Lemma cas_tail_shape old new : same_shape r (cas_tail r old new) ∧ r_ring (cas_tail r old new) = r_ring r.
Proof. unfold cas_tail. by destruct (_ =? _). Qed.

Lemma cas_head_shape old new : same_shape r (cas_head r old new) ∧ r_ring (cas_head r old new) = r_ring r.
Proof. unfold cas_head. by destruct (_ =? _). Qed.

Ltac quiet_step := eexists _, _; split; [done|]; split; [done|]; split; [by repeat case_match|left; split; [done|]; split; by repeat case_match].

Lemma enq_thread_step box pc : thread_ok (Addrbase r) (T_enq box pc) → thread_done (T_enq box pc) = false → step_ok r (T_enq box pc).
Proof.
  intros Hok Hd. unfold step_ok. destruct pc as [c|c t|c t|c|c|c|c h|c|]; cbn [thread_step mp_enqueue_step thread_ok] in *; try done.
  - quiet_step.
  - destruct (masked_load r t Hs Hm Hl) as (v & -> & _). quiet_step.
  - destruct (cas_tail_shape t (t ⊞ 1)) as [H1 H2]. eexists _, _. split; [done|]. split; [done|]. split; [done|]. by left.
  - destruct (masked_load r c Hs Hm Hl) as (v & -> & _). quiet_step.
  - destruct (masked_cas r c (mk_data (c ⊟ r_size r) 0) (mk_data c (ADDR_LTOSH_EXT box - Addrbase r)) Hs Hm Hl) as [->|[Hi ->]]; [quiet_step|].
    eexists _, _. split; [done|]. split; [split; [done|]; cbn; by rewrite length_insert|]. split; [done|]. right; left.
    eexists _, _, _. split; [exact Hi|]. split; [done|]. unfold ADDR_LTOSH_EXT. rewrite !mk_data_val by lia.
    split; [done|]. split; [lia|]. cbn. split; [do 2 f_equal; lia|done].
  - quiet_step.
  - destruct (cas_head_shape h (c ⊞ 1)) as [H1 H2]. eexists _, _. split; [done|]. split; [done|]. split; [done|]. by left.
  - quiet_step.
Qed.

Lemma deq_thread_step single n pc box : thread_ok (Addrbase r) (T_deq single n pc box) → thread_done (T_deq single n pc box) = false → step_ok r (T_deq single n pc box).
Proof.
  intros Hok Hd. unfold step_ok. destruct pc as [c|c h|c h|c|c ex|c|c t|c|]; cbn [thread_step mc_dequeue_step thread_ok] in *; try done.
  - quiet_step.
  - destruct (masked_load r h Hs Hm Hl) as (v & -> & _). quiet_step.
  - destruct (cas_head_shape h (h ⊞ 1)) as [H1 H2]. eexists _, _. split; [done|]. split; [done|]. split; [done|]. by left.
  - destruct (masked_load r c Hs Hm Hl) as (ex & -> & _). eexists _, _. split; [done|]. split; [done|].
    split; [|by left]. case_match eqn:Hc; [|done]. cbn. apply andb_true_iff in Hc as [_ Hc]. by apply negb_true_iff, Z.eqb_neq in Hc.
  - destruct (masked_cas r c ex (mk_data c 0) Hs Hm Hl) as [->|[Hi ->]]; [quiet_step|].
    eexists _, _. split; [done|]. split; [split; [done|]; cbn; by rewrite length_insert|]. split; [done|]. right; right.
    eexists _, _, _. split; [exact Hi|]. split; [done|]. rewrite mk_data_val by lia. done.
  - eexists _, _; split; [done|]; split; [done|]; split; [|by left]. unfold deq_after. by repeat case_match.
  - destruct (cas_tail_shape t (c ⊞ 1)) as [H1 H2]. eexists _, _. split; [done|]. split; [done|].
    split; [unfold deq_after; by case_match|]. by left.
  - quiet_step.
Qed.

Lemma thread_step_ok th : thread_ok (Addrbase r) th → thread_done th = false → step_ok r th.
Proof.
  destruct th as [box|single n|box pc|single n pc box]; intros Hok Hd; [| |by apply enq_thread_step|by apply deq_thread_step].
  - exists r. eexists. split; [done|]. split; [done|]. unfold mp_enqueue_start. destruct (box_in_range r box) eqn:Hb; cbn [negb].
    + split; [by apply box_in_range_offset|by left].
    + split; [done|by left].
  - exists r. eexists. split; [done|]. split; [done|]. split; [done|by left].
Qed.
End steps.

Lemma held_effect r th r' th' : same_shape r r' → effect r th r' th' →
  (puts th' = puts th ∧ gots th' = gots th ∧ held r' = held r) ∨
  (∃ v, puts th' = v :: puts th ∧ gots th' = gots th ∧ held r' ≡ₚ v :: held r) ∨
  (∃ v, puts th' = puts th ∧ gots th' = gots th ++ [v] ∧ held r ≡ₚ v :: held r').
Proof.
  intros (HB & _) [(Hr & Hp & Hg)|[(i & x & y & Hi & Hr & Hx & Hy & Hp & Hg)|(i & x & y & Hi & Hr & Hx & Hy & Hp & Hg)]]; unfold held; rewrite HB, Hr.
  - by left.
  - right; left. eexists. split; [done|]. split; [done|]. by rewrite (held_vals_fill _ _ _ _ Hi Hx Hy).
  - right; right. eexists. split; [done|]. split; [done|]. by rewrite (held_vals_clear _ _ _ _ Hi Hx Hy).
Qed.

Lemma done_no_step r th : thread_done th = true → thread_step r th = None.
Proof. destruct th as [box|single n|box pc|single n pc box]; try done; by destruct pc. Qed.

Lemma sys_step_inv s0 s s' : sys_inv s0 s → sys_step s s' → sys_inv s0 s'.
Proof.
  intros Hinv Hsys. destruct Hsys as [s1 i th r' th' Hi Hstep]. destruct Hinv as [HB Hs Hm Hl Hth Hflow].
  assert (thread_done th = false) as Hd.
  { destruct (thread_done th) eqn:Hd; [|done]. by rewrite (done_no_step _ _ Hd) in Hstep. }
  pose proof (Forall_lookup_1 _ _ _ _ Hth Hi) as Hok.
  destruct (thread_step_ok (s_ring s1) Hs Hm Hl th Hok Hd) as (r1 & th1 & Heq & Hshape & Hok' & Heff).
  rewrite Heq in Hstep. injection Hstep as -> ->. pose proof Hshape as (HB' & HS' & HM' & HL').
  split; cbn [s_ring s_threads]; try congruence.
  - by rewrite HB'; apply Forall_insert.
  - destruct (held_effect _ _ _ _ Hshape Heff) as [(Hp & Hg & Hh)|[(v & Hp & Hg & Hh)|(v & Hp & Hg & Hh)]].
    + by rewrite Hh, (concat_insert puts _ _ _ _ Hi Hp), (concat_insert gots _ _ _ _ Hi Hg).
    + rewrite Hh, (concat_insert gots _ _ _ _ Hi Hg), (concat_insert_more puts _ _ _ _ v Hi) by (by rewrite Hp).
      cbn. rewrite Hflow. apply Permutation_middle.
    + rewrite (concat_insert puts _ _ _ _ Hi Hp), (concat_insert_more gots _ _ _ _ v Hi) by (rewrite Hg; apply Permutation_app_comm).
      rewrite Hflow, Hh. symmetry. apply Permutation_middle.
Qed.

(** ** Properties *)

(** The systems that start: a ring in shape, and calls none of which has made an access. *)
Definition sys_start (s : system) : Prop :=
  pow2_size (r_size (s_ring s)) ∧ r_mask (s_ring s) = r_size (s_ring s) - 1 ∧
  Z.of_nat (length (r_ring (s_ring s))) = r_size (s_ring s) ∧
  Forall (λ th, match th with T_call_enq _ | T_call_deq _ _ => True | _ => False end) (s_threads s).

Lemma sys_start_inv s : sys_start s → sys_inv s s.
Proof.
  intros (H1 & H2 & H3 & Hth). split; try done.
  - eapply Forall_impl; [exact Hth|]. by intros [].
  - assert (concat (puts <$> s_threads s) = [] ∧ concat (gots <$> s_threads s) = []) as [-> ->]; [|done].
    induction Hth as [|th l Hth _ IH]; [done|]. destruct IH as [IH1 IH2]. cbn. rewrite IH1, IH2. by destruct th.
Qed.

(** C18: Under every interleaving of any number of multi-producer enqueues and multi-consumer
    dequeues on one ring, no access is out of range (a thread that has not returned can step), and the
    values put in by the enqueues that succeeded or are about to return 1, with what the ring held at
    the start, are exactly the values delivered and the values it holds: none is lost, none is delivered twice. *)
Theorem shm_ring_conserves s0 s :
  sys_start s0 → rtc sys_step s0 s →
  concat (puts <$> s_threads s) ++ held (s_ring s0) ≡ₚ concat (gots <$> s_threads s) ++ held (s_ring s) ∧
  ∀ i th, s_threads s !! i = Some th → thread_done th = false → ∃ r' th', thread_step (s_ring s) th = Some (r', th').
Proof.
  intros Hstart Hrtc.
  assert (sys_inv s0 s) as [HB Hs Hm Hl Hth Hflow].
  { refine (rtc_ind_r (R := sys_step) (sys_inv s0) s0 (sys_start_inv s0 Hstart) _ s Hrtc). intros x y _ Hxy Hx. by eapply sys_step_inv. }
  split; [done|]. intros i th Hi Hd. pose proof (Forall_lookup_1 _ _ _ _ Hth Hi) as Hok.
  destruct (thread_step_ok (s_ring s) Hs Hm Hl th Hok Hd) as (r' & th' & Heq & _). eauto.
Qed.

(** Two producers and a consumer on a ring of eight slots; the first five accesses in turn. *)
Definition example_system : system :=
  mk_system (nsfw_mem_ring_init 8 4096 0 0 7) [T_call_enq 5000; T_call_enq 5001; T_call_deq false 4].

Fixpoint schedule (s : system) (l : list nat) : option system :=
  match l with
  | [] => Some s
  | i :: l =>
      th ← s_threads s !! i; '(r, th) ← thread_step (s_ring s) th;
      schedule (mk_system r (<[i := th]> (s_threads s))) l
  end.

Lemma schedule_rtc s l s' : schedule s l = Some s' → rtc sys_step s s'.
Proof.
  revert s. induction l as [|i l IH]; intros s; cbn; [by intros [= ->]|].
  destruct (s_threads s !! i) as [th|] eqn:Hi; [|done]. cbn [mbind option_bind].
  destruct (thread_step (s_ring s) th) as [[r th']|] eqn:Hst; [|done]. cbn [mbind option_bind]. intros Hsch.
  eapply rtc_l; [by econstructor|]. by apply IH.
Qed.

Definition example_schedule : list nat := [0; 1; 2; 0; 1; 0; 1; 0; 1; 2; 2; 2; 2; 1; 2; 2; 0; 1]%nat.
Definition example_result : system :=
  Eval vm_compute in default example_system (schedule example_system example_schedule).

Lemma shm_ring_conserves_witness :
  gots <$> s_threads example_result = [[]; []; [5000]] ∧
  concat (puts <$> s_threads example_result) ++ held (s_ring example_system) ≡ₚ
    concat (gots <$> s_threads example_result) ++ held (s_ring example_result).
Proof.
  split; [vm_compute; reflexivity|].
  refine (proj1 (shm_ring_conserves example_system example_result _ _)).
  - split; [exact pow2_size_8|]. split; [vm_compute; reflexivity|]. split; [vm_compute; reflexivity|].
    repeat constructor.
  - apply (schedule_rtc _ example_schedule). vm_compute. reflexivity.
Defined.
