(* ===== verification/Route.v ===== *)
(** * Stack selection by route data (src/src/nSocket/nstack_rd)

    Which protocol stack serves a destination: the route lists by IP segment and by
    protocol type, their insert, find and age operations ([nstack_rd_ip.c],
    [nstack_rd_proto.c]), the table of operations by data type, the
    synchronisation with the defaults and the configuration, the choice of a stack
    ([nstack_rd.c]) and the initialisation ([nstack_rd_init.c]).  An [hlist] is the
    list of its nodes' items in order.  [None] is undefined behaviour. *)
From S2P Require Import Prelude.

Local Open Scope string_scope.
Local Open Scope list_scope.
Local Open Scope Z_scope.

(** ** Data *)

Definition NSTACK_RD_SUCCESS : Z := 0.
Definition NSTACK_RD_FAIL : Z := -1.
Definition NSTACK_RD_AGETIME_MAX : Z := 1.
Definition NSTACK_SYS_FUN_MAX : Z := 16.
Definition STACK_NAME_MAX : Z := 32.
Definition NSTACK_IP_BIT_MAX : Z := 32.
Definition RD_LWIP : string := "lwip".
Definition RD_KERNEL : string := "kernel".
Definition RD_DATA_TYPE_IP : Z := 0.
Definition RD_DATA_TYPE_PROTO : Z := 1.
Definition RD_DATA_TYPE_MAX : Z := 2.

Record rd_ip_data := mk_ip { addr : Z; masklen : Z; resev0 : Z; resev1 : Z }.

(** [rd_data_item]; the union's [proto_type] is the first word of [ipdata]. *)
Record rd_data_item := mk_item { i_type : Z; stack_id : Z; agetime : Z; ipdata : rd_ip_data }.
Definition proto_type (d : rd_ip_data) : Z := addr d.
Definition set_proto_type (d : rd_ip_data) (p : Z) : rd_ip_data := mk_ip p (masklen d) (resev0 d) (resev1 d).
Definition zero_item : rd_data_item := mk_item 0 0 0 (mk_ip 0 0 0 0).

Record rd_route_data := mk_route { r_type : Z; stack_name : string; r_ipdata : rd_ip_data }.

(** [nstack_rd_key]; [ip_addr] and [proto_type] share the word [k_word]. *)
Record nstack_rd_key := mk_key { k_type : Z; k_word : Z }.

Record nstack_rd_stack_info := mk_stack { s_name : string; s_stack_id : Z; s_priority : Z }.

(** [rd_local_data]: the two lists of [route_list], and [sys_fun] as function identities
    (0 is the null pointer). *)
Record rd_local_data := mk_local {
  pstack_info : list nstack_rd_stack_info;
  stack_num : Z;
  route_list : list (list rd_data_item);
  sys_fun : list Z;
  fun_num : Z
}.

(** The module's globals, with the number of [malloc] calls made so far. *)
Record rd_globals := mk_globals {
  g_rd_local_data : option rd_local_data;
  g_multi_stackid : Z;
  n_malloc : nat
}.

Definition set_stack_age (it : rd_data_item) (sid age : Z) : rd_data_item :=
  mk_item (i_type it) sid age (ipdata it).
Definition set_route_list (d : rd_local_data) (ls : list (list rd_data_item)) : rd_local_data :=
  mk_local (pstack_info d) (stack_num d) ls (sys_fun d) (fun_num d).

(** [ntohl] on a little-endian machine. *)
Definition ntohl (x : Z) : Z :=
  Z.lor (Z.lor (Z.shiftl (Z.land x 255) 24) (Z.shiftl (Z.land x 65280) 8))
        (Z.lor (Z.shiftr (Z.land x 16711680) 8) (Z.shiftr (Z.land x 4278190080) 24)).

(** [inet_addr] on dotted decimal strings: network byte order, so the first number is the
    lowest byte; all ones for anything else. *)
Fixpoint inet_addr_from (s : string) (cur : Z) (acc : list Z) : Z :=
  match s with
  | EmptyString =>
      match acc with
      | [c; b; a] => a + 256 * b + 65536 * c + 16777216 * cur
      | _ => 2 ^ 32 - 1
      end
  | String c s =>
      let n := Z.of_N (Ascii.N_of_ascii c) in
      if n =? 46 then inet_addr_from s 0 (cur :: acc)
      else if (48 <=? n) && (n <=? 57) then
        let cur := 10 * cur + (n - 48) in
        if cur <=? 255 then inet_addr_from s cur acc else 2 ^ 32 - 1
      else 2 ^ 32 - 1
  end.
Definition inet_addr (s : string) : Z := inet_addr_from s 0 [].

(** The default routes. *)
Definition g_default_ip_config : list (string * string * Z) :=
  [("127.0.0.1", RD_KERNEL, 32); ("0.0.0.0", RD_KERNEL, 32)].
Definition g_default_protcol : list (Z * string) := [(61441, RD_LWIP)].

(** ** IP routes (nstack_rd_ip.c) *)

Definition rd_ismulticast (a : Z) : bool := Z.land a 4026531840 =? 3758096384.

Definition nstack_rd_ipdata_cpy (pitem : rd_data_item) (pdata : rd_route_data) : Z * rd_data_item :=
  let d := r_ipdata pdata in
  (NSTACK_RD_SUCCESS,
   mk_item (r_type pdata) (stack_id pitem) (agetime pitem)
     (mk_ip (addr d) (masklen d) (resev0 d) (resev1 d))).

(** The macro [NSTACK_RD_IP_ITEM_COPY]. *)
Definition NSTACK_RD_IP_ITEM_COPY (dest src : rd_data_item) : rd_data_item :=
  mk_item (i_type src) (stack_id src) (agetime src)
    (mk_ip (addr (ipdata src)) (masklen (ipdata src)) (resev0 (ipdata src)) (resev1 (ipdata src))).

(** The macro [NSTACK_RD_PROTO_ITEM_COPY]: the other words of the union stay. *)
Definition NSTACK_RD_PROTO_ITEM_COPY (dest src : rd_data_item) : rd_data_item :=
  mk_item (i_type src) (stack_id src) (agetime src)
    (set_proto_type (ipdata dest) (proto_type (ipdata src))).

Section route.
(** The value of [~0 << n] for [n >= 32], which C leaves undefined. *)
Variable shl_wide : Z → Z.
(** Whether the [n]-th call of [malloc] succeeds. *)
Variable malloc_ok : nat → bool.

Definition MASK_V (ipaddr mlen : Z) : Z :=
  let n := wrap32 (NSTACK_IP_BIT_MAX - mlen) in
  Z.land ipaddr (if n <? 32 then wrap32 (Z.shiftl (-1) n) else shl_wide n).

(** The walk over a non-empty list: longer masks are skipped, the first other node is
    updated when its masked address is [ip_maskv], else the new node goes before it. *)
Fixpoint ip_insert_walk (ip_masklen ip_maskv : Z) (pitem node : rd_data_item) (l : list rd_data_item) : list rd_data_item :=
  match l with
  | [] => [node]
  | t :: l' =>
      if ip_masklen <? masklen (ipdata t) then t :: ip_insert_walk ip_masklen ip_maskv pitem node l'
      else if ip_maskv =? MASK_V (addr (ipdata t)) (masklen (ipdata t)) then
        set_stack_age t (stack_id pitem) NSTACK_RD_AGETIME_MAX :: l'
      else node :: t :: l'
  end.

(** [ip_maskv] is computed while [ip_addr] and [ip_masklen] are still 0. *)
Definition nstack_rd_ip_item_insert (alloc : bool) (hlist : list rd_data_item) (pitem : rd_data_item) : Z * list rd_data_item :=
  let ip_maskv := MASK_V 0 0 in
  let ip_masklen := masklen (ipdata pitem) in
  if negb alloc then (NSTACK_RD_FAIL, hlist)
  else
    let pdatanode := NSTACK_RD_IP_ITEM_COPY zero_item pitem in
    match hlist with
    | [] => (NSTACK_RD_SUCCESS, [pdatanode])
    | _ => (NSTACK_RD_SUCCESS, ip_insert_walk ip_masklen ip_maskv pitem pdatanode hlist)
    end.

Fixpoint ip_find_walk (ip_addr : Z) (l : list rd_data_item) : option rd_data_item :=
  match l with
  | [] => None
  | t :: l =>
      if MASK_V ip_addr (masklen (ipdata t)) =? MASK_V (addr (ipdata t)) (masklen (ipdata t))
      then Some t else ip_find_walk ip_addr l
  end.

Definition nstack_rd_ip_item_find (hlist : list rd_data_item) (key : nstack_rd_key) (outitem : rd_data_item) : Z * rd_data_item :=
  let ip_addr := ntohl (k_word key) in
  match ip_find_walk ip_addr hlist with
  | Some t => (NSTACK_RD_SUCCESS, NSTACK_RD_IP_ITEM_COPY outitem t)
  | None => (NSTACK_RD_FAIL, outitem)
  end.

(** The removal of a node is put off until the next aged node, or the end, is reached:
    [seen] holds the nodes before the current one and [prev] the position of the node to
    remove. *)
Fixpoint age_walk (seen : list rd_data_item) (prev : option nat) (l : list rd_data_item) : list rd_data_item :=
  match l with
  | [] => match prev with Some i => delete i seen | None => seen end
  | t :: l =>
      if agetime t <=? 0 then
        let seen := match prev with Some i => delete i seen | None => seen end in
        age_walk (seen ++ [t]) (Some (length seen)) l
      else age_walk (seen ++ [set_stack_age t (stack_id t) (agetime t - 1)]) prev l
  end.

Definition nstack_rd_ip_item_age (hlist : list rd_data_item) : Z * list rd_data_item :=
  (NSTACK_RD_SUCCESS, age_walk [] None hlist).

(** The loop over [pstack_info] that compares names, from position [i]. *)
Fixpoint stack_by_name (infos : list nstack_rd_stack_info) (i todo : nat) (name : string) : option (option Z) :=
  match todo with
  | O => Some None
  | S todo =>
      info ← infos !! i;
      if String.eqb (s_name info) name then Some (Some (s_stack_id info))
      else stack_by_name infos (S i) todo name
  end.

Definition nstack_get_stackid_byname (g : rd_globals) (name : string) : option Z :=
  d ← g_rd_local_data g;
  r ← stack_by_name (pstack_info d) 0 (Z.to_nat (stack_num d)) name;
  Some (default (-1) r).

Definition nstack_rd_ip_spec (g : rd_globals) (key : nstack_rd_key) : option (Z * rd_globals) :=
  let ip_addr := ntohl (k_word key) in
  if rd_ismulticast ip_addr then
    if -1 =? g_multi_stackid g then
      m ← nstack_get_stackid_byname g RD_LWIP;
      Some (m, mk_globals (g_rd_local_data g) m (n_malloc g))
    else Some (g_multi_stackid g, g)
  else Some (-1, g).

Definition nstack_rd_ip_default (g : rd_globals) (key : nstack_rd_key) : option Z :=
  d ← g_rd_local_data g;
  info ← pstack_info d !! 0%nat;
  Some (s_stack_id info).

(** ** Protocol routes (nstack_rd_proto.c) *)

Definition nstack_rd_proto_cpy (pitem : rd_data_item) (pdata : rd_route_data) : Z * rd_data_item :=
  (NSTACK_RD_SUCCESS,
   mk_item (r_type pdata) (stack_id pitem) (agetime pitem)
     (set_proto_type (ipdata pitem) (proto_type (r_ipdata pdata)))).

(** The update of the first node with the protocol, if there is one. *)
Fixpoint proto_update_walk (pitem : rd_data_item) (l : list rd_data_item) : option (list rd_data_item) :=
  match l with
  | [] => None
  | t :: l =>
      if proto_type (ipdata t) =? proto_type (ipdata pitem)
      then Some (set_stack_age t (stack_id pitem) NSTACK_RD_AGETIME_MAX :: l)
      else l' ← proto_update_walk pitem l; Some (t :: l')
  end.

Definition nstack_rd_proto_item_insert (alloc : bool) (hlist : list rd_data_item) (pitem : rd_data_item) : Z * list rd_data_item :=
  if negb alloc then (NSTACK_RD_FAIL, hlist)
  else
    let pdatanode := NSTACK_RD_PROTO_ITEM_COPY zero_item pitem in
    match hlist with
    | [] => (NSTACK_RD_SUCCESS, [pdatanode])
    | _ =>
        match proto_update_walk pitem hlist with
        | Some l => (NSTACK_RD_SUCCESS, l)
        | None => (NSTACK_RD_SUCCESS, pdatanode :: hlist)
        end
    end.

Fixpoint proto_find_walk (p : Z) (l : list rd_data_item) : option rd_data_item :=
  match l with
  | [] => None
  | t :: l => if proto_type (ipdata t) =? p then Some t else proto_find_walk p l
  end.

Definition nstack_rd_proto_item_find (hlist : list rd_data_item) (key : nstack_rd_key) (outitem : rd_data_item) : Z * rd_data_item :=
  match proto_find_walk (k_word key) hlist with
  | Some t => (NSTACK_RD_SUCCESS, NSTACK_RD_PROTO_ITEM_COPY outitem t)
  | None => (NSTACK_RD_FAIL, outitem)
  end.

Definition nstack_rd_proto_item_age (hlist : list rd_data_item) : Z * list rd_data_item :=
  (NSTACK_RD_SUCCESS, age_walk [] None hlist).

Definition nstack_rd_proto_spec (g : rd_globals) (key : nstack_rd_key) : option (Z * rd_globals) := Some (-1, g).
Definition nstack_rd_proto_default (g : rd_globals) (key : nstack_rd_key) : option Z := Some (-1).

(** ** The operations by data type, and their users (nstack_rd.c) *)

Record rd_data_proc := mk_proc {
  rd_item_cpy : rd_data_item → rd_route_data → Z * rd_data_item;
  rd_item_inset : bool → list rd_data_item → rd_data_item → Z * list rd_data_item;
  rd_item_age : list rd_data_item → Z * list rd_data_item;
  rd_item_find : list rd_data_item → nstack_rd_key → rd_data_item → Z * rd_data_item;
  rd_item_spec : option (rd_globals → nstack_rd_key → option (Z * rd_globals));
  rd_item_default : option (rd_globals → nstack_rd_key → option Z)
}.

Definition g_rd_cpy : list rd_data_proc :=
  [mk_proc nstack_rd_ipdata_cpy nstack_rd_ip_item_insert nstack_rd_ip_item_age
     nstack_rd_ip_item_find (Some nstack_rd_ip_spec) (Some nstack_rd_ip_default);
   mk_proc nstack_rd_proto_cpy nstack_rd_proto_item_insert nstack_rd_proto_item_age
     nstack_rd_proto_item_find (Some nstack_rd_proto_spec) (Some nstack_rd_proto_default)].

(** The key and the result may be null; [*stackid] is the second component. *)
Definition nstack_rd_get_stackid (g : rd_globals) (pkey : option nstack_rd_key) (stackid : option Z) : option (Z * option Z * rd_globals) :=
  match pkey, stackid with
  | Some key, Some _ =>
      if RD_DATA_TYPE_MAX <=? k_type key then Some (NSTACK_RD_FAIL, stackid, g)
      else
        proc ← aread g_rd_cpy (k_type key);
        '(ret, g) ← match rd_item_spec proc with
                    | Some spec => spec g key
                    | None => Some (-1, g)
                    end;
        if 0 <=? ret then Some (NSTACK_RD_SUCCESS, Some ret, g)
        else
          d ← g_rd_local_data g;
          l ← aread (route_list d) (k_type key);
          let '(ret, item) := rd_item_find proc l key zero_item in
          if ret =? NSTACK_RD_SUCCESS then Some (NSTACK_RD_SUCCESS, Some (stack_id item), g)
          else
            s ← match rd_item_default proc with Some f => f g key | None => Some (-1) end;
            Some (NSTACK_RD_SUCCESS, Some s, g)
  | _, _ => Some (NSTACK_RD_FAIL, stackid, g)
  end.

(** [g_rd_cpy[type].rd_item_inset (NSTACK_RD_LIST (type), &item)]. *)
Definition route_insert (g : rd_globals) (type : Z) (item : rd_data_item) : option rd_globals :=
  proc ← aread g_rd_cpy type;
  d ← g_rd_local_data g;
  l ← aread (route_list d) type;
  let '(_, l') := rd_item_inset proc (malloc_ok (n_malloc g)) l item in
  ls ← awrite (route_list d) type l';
  Some (mk_globals (Some (set_route_list d ls)) (g_multi_stackid g) (S (n_malloc g))).

Fixpoint default_ip_loop (g : rd_globals) (cfg : list (string * string * Z)) : option rd_globals :=
  match cfg with
  | [] => Some g
  | (ip, name, mlen) :: cfg =>
      d ← g_rd_local_data g;
      found ← stack_by_name (pstack_info d) 0 (Z.to_nat (stack_num d)) name;
      match found with
      | None => default_ip_loop g cfg
      | Some sid =>
          g ← route_insert g RD_DATA_TYPE_IP
                (mk_item RD_DATA_TYPE_IP sid NSTACK_RD_AGETIME_MAX (mk_ip (ntohl (inet_addr ip)) mlen 0 0));
          default_ip_loop g cfg
      end
  end.

(** The item is zeroed once before this loop; its [agetime] is not assigned. *)
Fixpoint default_proto_loop (g : rd_globals) (item : rd_data_item) (cfg : list (Z * string)) : option rd_globals :=
  match cfg with
  | [] => Some g
  | (pt, name) :: cfg =>
      d ← g_rd_local_data g;
      found ← stack_by_name (pstack_info d) 0 (Z.to_nat (stack_num d)) name;
      match found with
      | None => default_proto_loop g item cfg
      | Some sid =>
          let item := mk_item RD_DATA_TYPE_PROTO sid (agetime item) (set_proto_type (ipdata item) pt) in
          g ← route_insert g RD_DATA_TYPE_PROTO item;
          default_proto_loop g item cfg
      end
  end.

Definition nstack_rd_sys_default (g : rd_globals) : option rd_globals :=
  g ← default_ip_loop g g_default_ip_config;
  default_proto_loop g zero_item g_default_protcol.

Fixpoint save_loop (g : rd_globals) (item : rd_data_item) (rd_data : list rd_route_data) (iindex todo : nat) : option rd_globals :=
  match todo with
  | O => Some g
  | S todo =>
      rd ← rd_data !! iindex;
      if RD_DATA_TYPE_MAX <=? r_type rd then save_loop g item rd_data (S iindex) todo
      else
        proc ← aread g_rd_cpy (r_type rd);
        let '(ret, item) := rd_item_cpy proc item rd in
        if ret =? NSTACK_RD_SUCCESS then
          let item := set_stack_age item (stack_id item) NSTACK_RD_AGETIME_MAX in
          d ← g_rd_local_data g;
          found ← stack_by_name (pstack_info d) 0 (Z.to_nat (stack_num d)) (stack_name rd);
          match found with
          | None => save_loop g item rd_data (S iindex) todo
          | Some sid =>
              let item := set_stack_age item sid (agetime item) in
              g ← route_insert g (r_type rd) item;
              save_loop g item rd_data (S iindex) todo
          end
        else save_loop g item rd_data (S iindex) todo
  end.

Definition nstack_rd_save (g : rd_globals) (rd_data : list rd_route_data) (num : Z) : option rd_globals :=
  save_loop g zero_item rd_data 0 (Z.to_nat num).

(** What the configuration function [pfun] returns: its result, the data and their number. *)
Variable call_fun : Z → Z * list rd_route_data * Z.

Definition nstack_rd_data_get (g : rd_globals) (pfun : Z) : option (Z * rd_globals) :=
  if pfun =? 0 then Some (NSTACK_RD_FAIL, g)
  else
    let '(ret, rd_data, inum) := call_fun pfun in
    if ret =? NSTACK_RD_SUCCESS then
      if 0 <? inum then g ← nstack_rd_save g rd_data inum; Some (NSTACK_RD_SUCCESS, g)
      else Some (NSTACK_RD_FAIL, g)
    else Some (NSTACK_RD_FAIL, g).

Fixpoint age_loop (g : rd_globals) (icnt todo : nat) : option rd_globals :=
  match todo with
  | O => Some g
  | S todo =>
      proc ← g_rd_cpy !! icnt;
      d ← g_rd_local_data g;
      l ← route_list d !! icnt;
      let '(_, l') := rd_item_age proc l in
      age_loop (mk_globals (Some (set_route_list d (<[icnt := l']> (route_list d)))) (g_multi_stackid g) (n_malloc g))
        (S icnt) todo
  end.

Definition nstack_rd_age (g : rd_globals) : option (Z * rd_globals) :=
  g ← age_loop g 0 (Z.to_nat RD_DATA_TYPE_MAX); Some (NSTACK_RD_SUCCESS, g).

Fixpoint sys_loop (g : rd_globals) (iret : Z) (icnt todo : nat) : option (Z * rd_globals) :=
  match todo with
  | O => Some (iret, g)
  | S todo =>
      d ← g_rd_local_data g;
      f ← sys_fun d !! icnt;
      '(r, g) ← nstack_rd_data_get g f;
      sys_loop g (if r =? NSTACK_RD_SUCCESS then NSTACK_RD_SUCCESS else iret) (S icnt) todo
  end.

Definition nstack_rd_sys (g : rd_globals) : option (Z * rd_globals) :=
  match g_rd_local_data g with
  | None => Some (NSTACK_RD_FAIL, g)
  | Some _ =>
      g ← nstack_rd_sys_default g;
      d ← g_rd_local_data g;
      '(iret, g) ← sys_loop g NSTACK_RD_FAIL 0 (Z.to_nat (fun_num d));
      '(_, g) ← nstack_rd_age g;
      Some (iret, g)
  end.
End route.

(** ** Initialisation (nstack_rd_init.c) *)

(** The name fits into [char name[STACK_NAME_MAX]]. *)
Definition name_fits (name : string) : Prop := Z.of_nat (String.length name) < STACK_NAME_MAX.

(** The loop in priority order: priority 0 from the front, the others from the back. *)
Fixpoint init_stack_loop (securec : bool) (ptemstack : list nstack_rd_stack_info) (pstack : list nstack_rd_stack_info) (icnt todo : nat) (hindex tindex : Z) : option (option (list nstack_rd_stack_info)) :=
  match todo with
  | O => Some (Some ptemstack)
  | S todo =>
      p ← pstack !! icnt;
      let iindex := if 0 =? s_priority p then hindex else tindex in
      let hindex' := if 0 =? s_priority p then hindex + 1 else hindex in
      let tindex' := if 0 =? s_priority p then tindex else tindex - 1 in
      copied ← STRCPY_S securec STACK_NAME_MAX (s_name p);
      if (copied : bool) then
        ptemstack ← awrite ptemstack iindex p;
        init_stack_loop securec ptemstack pstack (S icnt) todo hindex' tindex'
      else Some None
  end.

(** [securec]: the checked string library is in use; [alloc1] and [alloc2]: whether the two allocations succeed; [garbage]: what the second one
    holds.  [pstack] and [pfun] may be null. *)
Definition nstack_rd_init (securec alloc1 alloc2 : bool) (garbage : list nstack_rd_stack_info) (g : rd_globals) (pstack : option (list nstack_rd_stack_info)) (num : Z) (pfun : option (list Z)) (funs : Z) : option (Z * rd_globals) :=
  match pstack, pfun with
  | Some pstack, Some pfun =>
      let fail := mk_globals None (g_multi_stackid g) (n_malloc g) in
      if negb alloc1 then Some (NSTACK_RD_FAIL, fail)
      else if NSTACK_SYS_FUN_MAX <? funs then None
      else if Z.of_nat (length pfun) <? funs then None
      else if negb alloc2 then Some (NSTACK_RD_FAIL, fail)
      else
        r ← init_stack_loop securec garbage pstack 0 (Z.to_nat num) 0 (num - 1);
        match r with
        | None => Some (NSTACK_RD_FAIL, fail)
        | Some ptemstack =>
            Some (NSTACK_RD_SUCCESS,
                  mk_globals (Some (mk_local ptemstack num (replicate (Z.to_nat RD_DATA_TYPE_MAX) [])
                    (take (Z.to_nat funs) pfun ++ replicate (Z.to_nat (NSTACK_SYS_FUN_MAX - funs)) 0) funs))
                    (g_multi_stackid g) (n_malloc g))
        end
  | _, _ => Some (NSTACK_RD_FAIL, g)
  end.

(** ** The route list: order, prefixes and longest match *)

(** Descending mask length. *)
Definition ip_sorted : list rd_data_item → Prop :=
  StronglySorted (λ a b, masklen (ipdata b) <= masklen (ipdata a)).

(** An address segment the mask is defined for. *)
Definition seg_ok (d : rd_ip_data) : Prop := is_u32 (addr d) ∧ 1 <= masklen d <= 32.

(** The two addresses agree on the first [mlen] bits. *)
Definition prefix_match (a b mlen : Z) : Prop := a / 2 ^ (32 - mlen) = b / 2 ^ (32 - mlen).
#[export] Instance prefix_match_dec a b mlen : Decision (prefix_match a b mlen).
Proof. unfold prefix_match. apply _. Defined.

(** [it] is the entry of [l] with the longest prefix that covers [ip]. *)
Definition longest_match (l : list rd_data_item) (ip : Z) (it : rd_data_item) : Prop :=
  it ∈ l ∧ prefix_match ip (addr (ipdata it)) (masklen (ipdata it)) ∧
  ∀ it', it' ∈ l → prefix_match ip (addr (ipdata it')) (masklen (ipdata it')) →
         masklen (ipdata it') <= masklen (ipdata it).

Lemma ip_copy_id d it : NSTACK_RD_IP_ITEM_COPY d it = it.
Proof. by destruct it as [? ? ? []]. Qed.

Lemma ntohl_u32 x : is_u32 x → is_u32 (ntohl x).
Proof.
  intros [Hx _]. unfold ntohl. rewrite !Z.shiftl_mul_pow2, !Z.shiftr_div_pow2 by lia.
  pose proof (land_bounds x 255 Hx). pose proof (land_bounds x 65280 Hx).
  pose proof (land_bounds x 16711680 Hx). pose proof (land_bounds x 4278190080 Hx).
  repeat apply is_u32_lor; unfold is_u32; Z.div_mod_to_equations; lia.
Qed.

Section route_facts.
Context (shl_wide : Z → Z).

Lemma MASK_V_prefix a mlen :
  is_u32 a → 1 <= mlen <= 32 → MASK_V shl_wide a mlen = 2 ^ (32 - mlen) * (a / 2 ^ (32 - mlen)).
Proof.
  intros Ha Hm. unfold MASK_V, NSTACK_IP_BIT_MAX.
  rewrite (wrap32_small (32 - mlen)) by (unfold is_u32; lia).
  rewrite (proj2 (Z.ltb_lt _ _)) by lia. apply land_high_mask; [done|lia].
Qed.

Lemma MASK_V_eq a b mlen :
  is_u32 a → is_u32 b → 1 <= mlen <= 32 →
  MASK_V shl_wide a mlen = MASK_V shl_wide b mlen ↔ prefix_match a b mlen.
Proof.
  intros Ha Hb Hm. rewrite !MASK_V_prefix by done. unfold prefix_match.
  assert (0 < 2 ^ (32 - mlen)) by (apply Z.pow_pos_nonneg; lia). split; [nia|by intros ->].
Qed.

Lemma MASK_V_0 : MASK_V shl_wide 0 0 = 0.
Proof. apply Z.land_0_l. Qed.

(** In a sorted list the first match is the longest. *)
Lemma ip_find_walk_lpm ip l :
  is_u32 ip → ip_sorted l → Forall (λ it, seg_ok (ipdata it)) l →
  match ip_find_walk shl_wide ip l with
  | Some it => longest_match l ip it
  | None => ∀ it, it ∈ l → ¬ prefix_match ip (addr (ipdata it)) (masklen (ipdata it))
  end.
Proof.
  intros Hip Hs Hok. induction l as [|t l IH]; simpl; [by intros ? ?%elem_of_nil|].
  apply Forall_cons in Hok as [(Hta & Htm) Hok]. apply StronglySorted_inv in Hs as [Hs Hle].
  destruct (Z.eqb_spec (MASK_V shl_wide ip (masklen (ipdata t))) (MASK_V shl_wide (addr (ipdata t)) (masklen (ipdata t)))) as [He|He];
    rewrite MASK_V_eq in He by done.
  - split; [left|]. split; [done|]. intros it [->|Hin]%elem_of_cons _; [lia|].
    rewrite Forall_forall in Hle. by apply Hle.
  - specialize (IH Hs Hok). destruct (ip_find_walk shl_wide ip l) as [it|].
    + destruct IH as (Hin & Hm & Hmax). split; [by right|]. split; [done|].
      intros it' [->|Hin']%elem_of_cons Hm'; [done|by apply Hmax].
    + intros it [->|Hin]%elem_of_cons; [done|by apply IH].
Qed.

(** Insertion, by the position of the first entry whose mask is not longer. *)
Lemma ip_insert_cases longer rest it :
  Forall (λ t, masklen (ipdata it) < masklen (ipdata t)) longer →
  (∀ t rest', rest = t :: rest' → masklen (ipdata t) <= masklen (ipdata it)) →
  nstack_rd_ip_item_insert shl_wide true (longer ++ rest) it =
  (NSTACK_RD_SUCCESS,
   longer ++
   match rest with
   | t :: rest' =>
       if 0 =? MASK_V shl_wide (addr (ipdata t)) (masklen (ipdata t))
       then set_stack_age t (stack_id it) NSTACK_RD_AGETIME_MAX :: rest'
       else it :: rest
   | [] => [it]
   end).
Proof.
  intros Hlong Hrest. unfold nstack_rd_ip_item_insert. rewrite ip_copy_id, MASK_V_0. simpl.
  assert (Hw : ip_insert_walk shl_wide (masklen (ipdata it)) 0 it it (longer ++ rest) =
    longer ++ match rest with
     | t :: rest' => if 0 =? MASK_V shl_wide (addr (ipdata t)) (masklen (ipdata t))
         then set_stack_age t (stack_id it) NSTACK_RD_AGETIME_MAX :: rest' else it :: rest
     | [] => [it] end).
  { induction Hlong as [|t longer Ht _ IH]; cbn [app ip_insert_walk].
    - destruct rest as [|t rest]; [done|]. cbn [ip_insert_walk].
      rewrite (proj2 (Z.ltb_ge _ _)) by (by eapply Hrest). done.
    - rewrite (proj2 (Z.ltb_lt _ _)) by done. by rewrite IH. }
  rewrite Hw. destruct longer, rest; done.
Qed.

(** Every sorted list splits at the position where an entry goes. *)
Lemma ip_sorted_split m l :
  ip_sorted l → ∃ longer rest, l = longer ++ rest ∧
    Forall (λ t, m < masklen (ipdata t)) longer ∧ Forall (λ t, masklen (ipdata t) <= m) rest.
Proof.
  intros Hs. induction l as [|t l IH]; [by exists [], []|].
  apply StronglySorted_inv in Hs as [Hs Hle]. destruct (IH Hs) as (longer & rest & -> & Hl & Hr).
  destruct (Z.ltb_spec m (masklen (ipdata t))).
  - exists (t :: longer), rest. auto.
  - exists [], (t :: longer ++ rest). split; [done|]. split; [done|]. constructor; [done|].
    eapply Forall_impl; [exact Hle|]. simpl. lia.
Qed.

Lemma ip_insert_sorted ok l it :
  ip_sorted l → ip_sorted (nstack_rd_ip_item_insert shl_wide ok l it).2.
Proof.
  intros Hs. destruct ok; [|done].
  destruct (ip_sorted_split (masklen (ipdata it)) l Hs) as (longer & rest & -> & Hl & Hr).
  rewrite ip_insert_cases; [|done|intros t r ->; by apply Forall_cons in Hr as [? _]].
  cbn [snd]. apply sorted_app in Hs as (Hs1 & Hs2 & H12). apply sorted_app.
  rewrite Forall_forall in Hl. rewrite Forall_forall in Hr. split; [done|].
  destruct rest as [|t rest].
  { split; [repeat constructor|]. intros a b Ha Hb%list_elem_of_singleton. subst b. specialize (Hl _ Ha). simpl in Hl. lia. }
  apply StronglySorted_inv in Hs2 as [Hs2 Ht]. destruct (0 =? _); (split; [|intros a b Ha Hb]).
  - constructor; [done|]. done.
  - apply elem_of_cons in Hb as [->|Hb]; [cbn; apply H12; [done|left]|apply H12; [done|by right]].
  - constructor; [by constructor|]. apply Forall_forall. apply Hr.
  - apply elem_of_cons in Hb as [->|Hb]; [specialize (Hl _ Ha); simpl in Hl; lia|by apply H12].
Qed.

(** Insertion stores no segment but the old ones and the new one. *)
Lemma ip_insert_segs (P : rd_ip_data → Prop) ok l it :
  ip_sorted l → Forall (λ t, P (ipdata t)) l → P (ipdata it) →
  Forall (λ t, P (ipdata t)) (nstack_rd_ip_item_insert shl_wide ok l it).2.
Proof.
  intros Hs HP Hit. destruct ok; [|done].
  destruct (ip_sorted_split (masklen (ipdata it)) l Hs) as (longer & rest & -> & Hl & Hr).
  rewrite ip_insert_cases; [|done|intros t r ->; by apply Forall_cons in Hr as [? _]].
  cbn [snd]. apply Forall_app in HP as [H1 H2]. apply Forall_app. split; [done|].
  destruct rest as [|t rest]; [by repeat constructor|].
  apply Forall_cons in H2 as [Ht H2]. destruct (0 =? _); by repeat constructor.
Qed.
End route_facts.

(** ** Ageing *)

Definition aged (it : rd_data_item) : rd_data_item := set_stack_age it (stack_id it) (agetime it - 1).
Definition alive (l : list rd_data_item) : list rd_data_item := aged <$> filter (λ it, 0 < agetime it) l.

(** The deferred removal is a filter: what is left are the entries with time left, one older. *)
Lemma age_walk_alive l seen prev :
  (∀ i, prev = Some i → (i < length seen)%nat) →
  age_walk seen prev l = match prev with Some i => delete i seen | None => seen end ++ alive l.
Proof.
  revert seen prev. induction l as [|t l IH]; intros seen prev Hprev; cbn [age_walk].
  { by destruct prev; rewrite app_nil_r. }
  destruct (Z.leb_spec (agetime t) 0) as [Hle|Hgt]; rewrite IH.
  - unfold alive. rewrite filter_cons_False by lia. f_equal.
    by rewrite delete_middle, app_nil_r.
  - intros i [= <-]. rewrite length_app. simpl. lia.
  - unfold alive. rewrite filter_cons_True by lia. fold (aged t). rewrite fmap_cons.
    destruct prev as [i|]; [|by rewrite <- app_assoc].
    rewrite delete_app_l by auto. by rewrite <- app_assoc.
  - intros i Hi. rewrite length_app. apply Hprev in Hi. simpl. lia.
Qed.

Lemma age_walk_nil l : age_walk [] None l = alive l.
Proof. by rewrite age_walk_alive. Qed.

Lemma alive_sorted l : ip_sorted l → ip_sorted (alive l).
Proof.
  induction l as [|t l IH]; [done|]. intros [Hs Hle]%StronglySorted_inv. unfold alive.
  destruct (decide (0 < agetime t)); [|by rewrite filter_cons_False; auto].
  rewrite filter_cons_True, fmap_cons by done. constructor; [by apply IH|].
  rewrite Forall_fmap. apply Forall_forall. intros it [_ Hin]%list_elem_of_filter.
  rewrite Forall_forall in Hle. exact (Hle it Hin).
Qed.

Lemma alive_segs (P : rd_ip_data → Prop) l : Forall (λ t, P (ipdata t)) l → Forall (λ t, P (ipdata t)) (alive l).
Proof.
  rewrite !Forall_forall. intros HP t (t0 & -> & [_ Hin]%list_elem_of_filter)%list_elem_of_fmap. exact (HP t0 Hin).
Qed.

(** ** The module's invariant *)

(** The stack table has [stack_num] entries and [fun_num] functions are registered. *)
Definition table_wf (b : rd_local_data) : Prop :=
  0 <= stack_num b <= Z.of_nat (length (pstack_info b)) ∧
  0 <= fun_num b <= Z.of_nat (length (sys_fun b)).
(** The local data are those of [b] with one list per data type, the IP list sorted. *)
Definition rd_wf (b : rd_local_data) (g : rd_globals) : Prop :=
  table_wf b ∧ ∃ ipl prl, g_rd_local_data g = Some (set_route_list b [ipl; prl]) ∧ ip_sorted ipl.

(** The same, with [P] for every stored address segment. *)
Definition rd_inv (P : rd_ip_data → Prop) (b : rd_local_data) (g : rd_globals) : Prop :=
  table_wf b ∧ ∃ ipl prl, g_rd_local_data g = Some (set_route_list b [ipl; prl]) ∧ ip_sorted ipl ∧
    Forall (λ it, P (ipdata it)) ipl.

Lemma rd_wf_inv b g : rd_wf b g ↔ rd_inv (λ _, True) b g.
Proof.
  split.
  - intros (Hb & ipl & prl & Hd & Hs). split; [done|]. exists ipl, prl. split; [done|]. split; [done|].
    by apply Forall_true.
  - intros (Hb & ipl & prl & Hd & Hs & _). split; [done|]. by exists ipl, prl.
Qed.

(** What a configuration function may return: as many entries as it says, of a known or a too
    large type. *)
Definition config_ok (call_fun : Z → Z * list rd_route_data * Z) : Prop :=
  ∀ f, let '(ret, data, num) := call_fun f in
       num <= Z.of_nat (length data) ∧ Forall (λ rd, 0 <= r_type rd) data.

(** The address segments the configuration functions return satisfy [P]. *)
Definition config_segs (P : rd_ip_data → Prop) (call_fun : Z → Z * list rd_route_data * Z) : Prop :=
  ∀ f, Forall (λ rd, r_type rd = RD_DATA_TYPE_IP → P (r_ipdata rd)) (call_fun f).1.2.

Lemma stack_by_name_total infos i todo name :
  (i + todo <= length infos)%nat → ∃ r, stack_by_name infos i todo name = Some r.
Proof.
  revert i. induction todo as [|todo IH]; intros i Hi; cbn [stack_by_name]; [by eexists|].
  destruct (lookup_lt_is_Some_2 infos i) as [x ->]; [lia|]. cbn [mbind option_bind].
  destruct (String.eqb _ _); [by eexists|]. apply IH. lia.
Qed.

Section sync.
Context (shl_wide : Z → Z) (malloc_ok : nat → bool) (b : rd_local_data) (P : rd_ip_data → Prop).

Lemma route_insert_wf g type it :
  rd_inv P b g → 0 <= type < RD_DATA_TYPE_MAX → (type = RD_DATA_TYPE_IP → P (ipdata it)) →
  ∃ g', route_insert shl_wide malloc_ok g type it = Some g' ∧ rd_inv P b g'.
Proof.
  intros (Hb & ipl & prl & Hd & Hs & HP) Ht Hit. unfold RD_DATA_TYPE_MAX in Ht.
  assert (type = 0 ∨ type = 1) as [->| ->] by lia; unfold route_insert, aread, awrite; rewrite Hd;
    change (Z.to_nat 0) with 0%nat; change (Z.to_nat 1) with 1%nat;
    cbn -[nstack_rd_ip_item_insert nstack_rd_proto_item_insert].
  - pose proof (ip_insert_sorted shl_wide (malloc_ok (n_malloc g)) ipl it Hs) as Hs'.
    pose proof (ip_insert_segs shl_wide P (malloc_ok (n_malloc g)) ipl it Hs HP (Hit eq_refl)) as HP'.
    destruct (nstack_rd_ip_item_insert _ _ _ _) as [res l'].
    eexists. split; [done|]. split; [done|]. by eexists _, _.
  - destruct (nstack_rd_proto_item_insert _ _ _) as [res l'].
    eexists. split; [done|]. split; [done|]. by eexists _, _.
Qed.

Lemma stack_lookup_wf g name :
  rd_inv P b g → ∃ d r, g_rd_local_data g = Some d ∧
    stack_by_name (pstack_info d) 0 (Z.to_nat (stack_num d)) name = Some r.
Proof.
  intros ([Hn _] & ipl & prl & -> & _ & _).
  destruct (stack_by_name_total (pstack_info b) 0 (Z.to_nat (stack_num b)) name) as [r Hr]; [lia|].
  by eexists _, _.
Qed.

Lemma default_ip_loop_wf cfg g :
  Forall (λ c : string * string * Z, P (mk_ip (ntohl (inet_addr c.1.1)) c.2 0 0)) cfg →
  rd_inv P b g → ∃ g', default_ip_loop shl_wide malloc_ok g cfg = Some g' ∧ rd_inv P b g'.
Proof.
  intros Hc. revert g. induction Hc as [|[[ip name] mlen] cfg Hip _ IH]; intros g Hg; cbn [default_ip_loop]; [by eexists|].
  destruct (stack_lookup_wf g name Hg) as (d & [sid|] & Hd & Hr); rewrite Hd; cbn [mbind option_bind]; rewrite Hr; cbn [mbind option_bind]; [|by apply IH].
  destruct (route_insert_wf g RD_DATA_TYPE_IP (mk_item RD_DATA_TYPE_IP sid NSTACK_RD_AGETIME_MAX (mk_ip (ntohl (inet_addr ip)) mlen 0 0)) Hg) as (g' & -> & Hg'); [done|done|]. by apply IH.
Qed.

Lemma default_proto_loop_wf cfg it g : rd_inv P b g → ∃ g', default_proto_loop shl_wide malloc_ok g it cfg = Some g' ∧ rd_inv P b g'.
Proof.
  revert g it. induction cfg as [|[pt name] cfg IH]; intros g it Hg; cbn [default_proto_loop]; [by eexists|].
  destruct (stack_lookup_wf g name Hg) as (d & [sid|] & Hd & Hr); rewrite Hd; cbn [mbind option_bind]; rewrite Hr; cbn [mbind option_bind]; [|by apply IH].
  destruct (route_insert_wf g RD_DATA_TYPE_PROTO (mk_item RD_DATA_TYPE_PROTO sid (agetime it) (set_proto_type (ipdata it) pt)) Hg) as (g' & -> & Hg'); [done|done|]. by apply IH.
Qed.

Lemma save_loop_wf data i todo it g :
  rd_inv P b g → (i + todo <= length data)%nat → Forall (λ rd, 0 <= r_type rd) data →
  Forall (λ rd, r_type rd = RD_DATA_TYPE_IP → P (r_ipdata rd)) data →
  ∃ g', save_loop shl_wide malloc_ok g it data i todo = Some g' ∧ rd_inv P b g'.
Proof.
  intros Hg Hi Hdata Hsegs. revert g i it Hg Hi. induction todo as [|todo IH]; intros g i it Hg Hi; cbn [save_loop]; [by eexists|].
  destruct (lookup_lt_is_Some_2 data i) as [rd Hrd]; [lia|]. rewrite Hrd. cbn [mbind option_bind].
  pose proof (Forall_lookup_1 _ _ _ _ Hdata Hrd) as Hty. simpl in Hty.
  pose proof (Forall_lookup_1 _ _ _ _ Hsegs Hrd) as Hseg. simpl in Hseg.
  destruct (Z.leb_spec RD_DATA_TYPE_MAX (r_type rd)) as [Hge|Hlt]; [apply IH; [done|lia]|].
  assert (Hcpy : ∃ proc it', aread (g_rd_cpy shl_wide) (r_type rd) = Some proc ∧ rd_item_cpy proc it rd = (NSTACK_RD_SUCCESS, it') ∧
    (r_type rd = RD_DATA_TYPE_IP → P (ipdata it'))).
  { unfold RD_DATA_TYPE_MAX in Hlt. assert (r_type rd = 0 ∨ r_type rd = 1) as [Hr|Hr] by lia; rewrite Hr in *; eexists _, _; (split; [done|]); (split; [done|]); [|done].
    intros _. specialize (Hseg eq_refl). cbn. by destruct (r_ipdata rd). }
  destruct Hcpy as (proc & it' & -> & Hc & Hseg'). cbn [mbind option_bind]. rewrite Hc, Z.eqb_refl.
  destruct (stack_lookup_wf g (stack_name rd) Hg) as (d & [sid|] & Hd & Hr); rewrite Hd; cbn [mbind option_bind]; rewrite Hr; cbn [mbind option_bind]; [|apply IH; [done|lia]].
  destruct (route_insert_wf g (r_type rd) (set_stack_age (set_stack_age it' (stack_id it') NSTACK_RD_AGETIME_MAX) sid NSTACK_RD_AGETIME_MAX) Hg) as (g' & Hins & Hg'); [done|exact Hseg'|].
  cbn [agetime set_stack_age] in *. rewrite Hins. cbn [mbind option_bind]. apply IH; [done|lia].
Qed.

Lemma age_wf g : rd_inv P b g → ∃ g', nstack_rd_age shl_wide g = Some (NSTACK_RD_SUCCESS, g') ∧ rd_inv P b g'.
Proof.
  intros (Hb & ipl & prl & Hd & Hs & HP). unfold nstack_rd_age.
  change (Z.to_nat RD_DATA_TYPE_MAX) with 2%nat. cbn. rewrite Hd. cbn.
  eexists. split; [done|]. split; [done|].
  eexists _, _. split; [done|]. rewrite age_walk_nil.
  split; [by apply alive_sorted|by apply alive_segs].
Qed.
Context (call_fun : Z → Z * list rd_route_data * Z) (Hcfg : config_ok call_fun) (Hsegs : config_segs P call_fun).

Lemma data_get_wf g f :
  rd_inv P b g → ∃ r g', nstack_rd_data_get shl_wide malloc_ok call_fun g f = Some (r, g') ∧ rd_inv P b g'.
Proof.
  intros Hg. unfold nstack_rd_data_get. destruct (f =? 0); [by eexists _, _|].
  specialize (Hcfg f). specialize (Hsegs f). destruct (call_fun f) as [[ret data] num]. destruct Hcfg as [Hnum Hty].
  destruct (ret =? NSTACK_RD_SUCCESS); [|by eexists _, _].
  destruct (Z.ltb_spec 0 num); [|by eexists _, _]. unfold nstack_rd_save.
  destruct (save_loop_wf data 0 (Z.to_nat num) zero_item g Hg) as (g' & -> & Hg'); [lia|done|done|].
  by eexists _, _.
Qed.

Lemma sys_loop_wf g iret i todo :
  rd_inv P b g → (i + todo <= length (sys_fun b))%nat →
  ∃ r g', sys_loop shl_wide malloc_ok call_fun g iret i todo = Some (r, g') ∧ rd_inv P b g'.
Proof.
  revert g iret i. induction todo as [|todo IH]; intros g iret i Hg Hi; cbn [sys_loop]; [by eexists _, _|].
  pose proof Hg as (_ & ipl & prl & -> & _ & _). cbn [mbind option_bind sys_fun set_route_list].
  destruct (lookup_lt_is_Some_2 (sys_fun b) i) as [f ->]; [lia|]. cbn [mbind option_bind].
  destruct (data_get_wf g f Hg) as (r & g' & -> & Hg'). cbn [mbind option_bind]. apply IH; [done|lia].
Qed.

Lemma sys_wf g :
  Forall (λ c : string * string * Z, P (mk_ip (ntohl (inet_addr c.1.1)) c.2 0 0)) g_default_ip_config →
  rd_inv P b g → ∃ r g', nstack_rd_sys shl_wide malloc_ok call_fun g = Some (r, g') ∧ rd_inv P b g'.
Proof.
  intros Hdef Hg. pose proof Hg as ([_ Hf] & ipl & prl & Hd & _ & _). unfold nstack_rd_sys, nstack_rd_sys_default. rewrite Hd.
  destruct (default_ip_loop_wf g_default_ip_config g Hdef Hg) as (g1 & -> & Hg1). cbn [mbind option_bind].
  destruct (default_proto_loop_wf g_default_protcol zero_item g1 Hg1) as (g2 & -> & Hg2). cbn [mbind option_bind].
  pose proof Hg2 as (_ & ipl2 & prl2 & -> & _ & _). cbn [mbind option_bind fun_num set_route_list].
  destruct (sys_loop_wf g2 NSTACK_RD_FAIL 0 (Z.to_nat (fun_num b)) Hg2) as (r & g3 & -> & Hg3); [lia|].
  cbn [mbind option_bind]. destruct (age_wf g3 Hg3) as (g4 & -> & Hg4). by eexists _, _.
Qed.
End sync.

(** ** The stack table *)

(** Priority 0 in input order, then the others in reverse input order. *)
Definition priority_order (l : list nstack_rd_stack_info) : list nstack_rd_stack_info :=
  filter (λ p, s_priority p = 0) l ++ reverse (filter (λ p, s_priority p ≠ 0) l).

Lemma init_stack_loop_spec securec todo done zs mid nzs :
  length mid = length todo → Forall (λ p, name_fits (s_name p)) todo →
  init_stack_loop securec (zs ++ mid ++ nzs) (done ++ todo) (length done) (length todo)
    (Z.of_nat (length zs)) (Z.of_nat (length zs + length mid) - 1)
  = Some (Some (zs ++ priority_order todo ++ nzs)).
Proof.
  revert done zs mid nzs. induction todo as [|p todo IH]; intros done zs mid nzs Hmid Hfit; cbn [length init_stack_loop].
  { destruct mid; [done|done]. }
  apply Forall_cons in Hfit as [Hp Hfit]. rewrite list_lookup_middle by done. cbn [mbind option_bind].
  unfold STRCPY_S. rewrite (proj2 (Z.ltb_lt _ _) Hp). cbn [mbind option_bind].
  replace (done ++ p :: todo) with ((done ++ [p]) ++ todo) by (by rewrite <- app_assoc).
  replace (S (length done)) with (length (done ++ [p])) by (rewrite length_app; simpl; lia).
  unfold priority_order. destruct (Z.eqb_spec 0 (s_priority p)) as [H0|H0].
  - destruct mid as [|m mid]; [done|]. rewrite awrite_Some by (rewrite !length_app; simpl; lia). cbn [mbind option_bind].
    rewrite Nat2Z.id, insert_app_r_alt, Nat.sub_diag by lia. cbn [app insert list_insert].
    rewrite filter_cons_True by done. rewrite (filter_cons_False (λ p, s_priority p ≠ 0)) by auto.
    specialize (IH (done ++ [p]) (zs ++ [p]) mid nzs). rewrite <- !app_assoc in IH. cbn [app] in *.
    rewrite <- !app_assoc. unfold priority_order in IH. rewrite <- app_assoc in IH. rewrite <- IH by (simpl in Hmid; auto).
    rewrite !length_app. cbn [length]. f_equal; lia.
  - rewrite filter_cons_False by auto. rewrite (filter_cons_True (λ p, s_priority p ≠ 0)) by auto.
    destruct mid as [|m mid _] using rev_ind; [done|]. rewrite (length_app mid) in Hmid |- *. cbn [length] in *.
    rewrite awrite_Some by (rewrite !length_app; simpl; lia). cbn [mbind option_bind].
    replace (Z.to_nat (Z.of_nat (length zs + (length mid + 1)) - 1)) with (length zs + length mid)%nat by lia.
    rewrite insert_app_r, <- app_assoc. cbn [app].
    rewrite insert_app_r_alt, Nat.sub_diag by lia. cbn [insert list_insert].
    rewrite reverse_cons. specialize (IH (done ++ [p]) zs mid (p :: nzs)).
    unfold priority_order in IH. rewrite <- !app_assoc in IH. rewrite <- !app_assoc. cbn [app] in *.
    rewrite <- IH by (auto; lia). f_equal; lia.
Qed.

(** ** The properties *)

(** The globals after [nstack_rd_init]: two stacks, no routes. *)
Definition demo_stacks : list nstack_rd_stack_info :=
  [mk_stack "lwip" 4 1; mk_stack "kernel" 3 0].
Definition demo_local (ipl prl : list rd_data_item) : rd_local_data :=
  mk_local (priority_order demo_stacks) 2 [ipl; prl] [5] 1.
Definition demo_globals (ipl prl : list rd_data_item) : rd_globals :=
  mk_globals (Some (demo_local ipl prl)) (-1) 0.
Definition demo_fun (f : Z) : Z * list rd_route_data * Z :=
  (0, [mk_route 0 "lwip" (mk_ip 167772160 8 0 0)], 1).

(** Initialisation stores the stacks of priority 0 first, in input order, and the others
    behind them in reverse input order, whatever the allocated memory held; the lists are
    empty and the invariant holds. *)
Lemma rd_init_priority_order securec garbage g pstack pfun :
  length garbage = length pstack → Forall (λ p, name_fits (s_name p)) pstack →
  Z.of_nat (length pfun) <= NSTACK_SYS_FUN_MAX →
  ∃ g' d, nstack_rd_init securec true true garbage g (Some pstack) (Z.of_nat (length pstack)) (Some pfun) (Z.of_nat (length pfun))
          = Some (NSTACK_RD_SUCCESS, g') ∧
        g_rd_local_data g' = Some d ∧ pstack_info d = priority_order pstack ∧ route_list d = [[]; []] ∧ rd_wf d g'.
Proof.
  intros Hg Hfit Hf. unfold nstack_rd_init. cbn [negb].
  rewrite (proj2 (Z.ltb_ge NSTACK_SYS_FUN_MAX _)), Z.ltb_irrefl by lia.
  pose proof (init_stack_loop_spec securec pstack [] [] garbage [] Hg Hfit) as Hl.
  cbn [app length Nat.add] in Hl. rewrite !app_nil_r, Hg in Hl. rewrite (Nat2Z.id (length pstack)). change (Z.of_nat 0) with 0 in Hl. rewrite Hl. cbn [mbind option_bind].
  eexists _, _. do 4 (split; [done|]). split.
  - split; cbn; [|rewrite Nat2Z.id, firstn_all, length_app; lia].
    unfold priority_order. rewrite length_app, length_reverse.
    pose proof (filter_app_complement (λ p, s_priority p = 0) pstack) as Hp%Permutation_length.
    rewrite length_app in Hp. lia.
  - exists [], []. split; [done|constructor].
Qed.

Lemma rd_init_priority_order_witness :
  ∃ g' d, nstack_rd_init false true true demo_stacks (mk_globals None (-1) 0) (Some demo_stacks) 2 (Some [5]) 1 = Some (0, g') ∧
    g_rd_local_data g' = Some d ∧ pstack_info d = [mk_stack "kernel" 3 0; mk_stack "lwip" 4 1] ∧ route_list d = [[]; []] ∧ rd_wf d g'.
Proof.
  apply (rd_init_priority_order false demo_stacks (mk_globals None (-1) 0) demo_stacks [5]);
    [done|repeat constructor|vm_compute; congruence].
Defined.

(** ** The states the module reaches *)

Section history.
Context (shl_wide : Z → Z).

(** The module's globals after [nstack_rd_init] with at least one stack, any number of
    synchronisations and any number of look-ups.  The configuration functions return segments
    with mask lengths from 1 to 32; allocations may fail in any pattern. *)
Inductive rd_history : rd_globals → Prop :=
  | hist_init securec garbage g0 pstack pfun g :
      length garbage = length pstack → pstack ≠ [] → Forall (λ p, name_fits (s_name p)) pstack →
      Z.of_nat (length pfun) <= NSTACK_SYS_FUN_MAX →
      nstack_rd_init securec true true garbage g0 (Some pstack) (Z.of_nat (length pstack))
        (Some pfun) (Z.of_nat (length pfun)) = Some (NSTACK_RD_SUCCESS, g) →
      rd_history g
  | hist_sys malloc_ok call_fun g r g' :
      rd_history g → config_ok call_fun → config_segs seg_ok call_fun →
      nstack_rd_sys shl_wide malloc_ok call_fun g = Some (r, g') → rd_history g'
  | hist_get g pkey old r g' :
      rd_history g → nstack_rd_get_stackid shl_wide g pkey old = Some (r, g') → rd_history g'.

Lemma default_segs :
  Forall (λ c : string * string * Z, seg_ok (mk_ip (ntohl (inet_addr c.1.1)) c.2 0 0)) g_default_ip_config.
Proof. repeat constructor; vm_compute; congruence. Qed.

(** A look-up leaves the local data alone. *)
Lemma get_stackid_data g pkey old r g' :
  nstack_rd_get_stackid shl_wide g pkey old = Some (r, g') → g_rd_local_data g' = g_rd_local_data g.
Proof.
  unfold nstack_rd_get_stackid. destruct pkey as [key|]; [|by intros [= <- <-]].
  destruct old as [old|]; [|by intros [= <- <-]].
  destruct (RD_DATA_TYPE_MAX <=? k_type key); [by intros [= <- <-]|].
  intros (proc & Hp & H)%bind_Some. apply bind_Some in H as ([ret g1] & Hspec & H).
  assert (Hg1 : g_rd_local_data g1 = g_rd_local_data g).
  { unfold aread in Hp. destruct (0 <=? k_type key); [|done]. destruct (Z.to_nat (k_type key)) as [|[|n]]; [| |done];
      injection Hp as <-; cbn in Hspec; [|by injection Hspec as <- <-].
    unfold nstack_rd_ip_spec in Hspec. destruct (rd_ismulticast _); [|by injection Hspec as <- <-].
    destruct (-1 =? g_multi_stackid g); [|by injection Hspec as <- <-].
    apply bind_Some in Hspec as (m & _ & [= <- <-]). done. }
  destruct (0 <=? ret); [by injection H as <- <-|].
  apply bind_Some in H as (d & _ & H). apply bind_Some in H as (l & _ & H).
  destruct (rd_item_find proc l key zero_item) as [ret' item]. destruct (ret' =? _); [by injection H as <- <-|].
  apply bind_Some in H as (x & _ & [= <- <-]). done.
Qed.

Lemma rd_history_inv g : rd_history g → ∃ b, rd_inv seg_ok b g ∧ pstack_info b ≠ [].
Proof.
  induction 1 as [securec garbage g0 pstack pfun g Hg Hne Hfit Hf Hinit
                 |malloc_ok call_fun g r g' _ (b & IH & Hne) Hc Hs Hr|g pkey old r g' _ (b & IH & Hne) Hr].
  - destruct (rd_init_priority_order securec garbage g0 pstack pfun Hg Hfit Hf) as (g' & d & Hi & Hd & Hp & Hl & Hw & _).
    rewrite Hinit in Hi. injection Hi as <-. exists d. split.
    + split; [done|]. exists [], []. split; [|by split; [constructor|]].
      rewrite Hd. destruct d. cbn in *. by rewrite Hl.
    + rewrite Hp. unfold priority_order. intros [H1 H2]%app_eq_nil. destruct pstack as [|p pstack]; [done|].
      apply (f_equal reverse) in H2. rewrite reverse_involutive in H2. destruct (decide (s_priority p = 0)).
      * by rewrite filter_cons_True in H1.
      * by rewrite filter_cons_True in H2.
  - destruct (sys_wf shl_wide malloc_ok b seg_ok call_fun Hc Hs g default_segs IH) as (r' & g1 & Hr' & Hg1).
    rewrite Hr in Hr'. injection Hr' as _ <-. by exists b.
  - exists b. split; [|done]. destruct IH as (Hb & ipl & prl & Hd & Hrest). split; [done|].
    exists ipl, prl. by rewrite (get_stackid_data _ _ _ _ _ Hr).
Qed.
End history.

(** C1: In every state the module reaches by initialisation, synchronisations and look-ups, when
    the configured mask lengths are from 1 to 32, a destination that is not multicast gets the
    stack of the stored route with the longest prefix that covers it, and the first stack of
    the table when no route covers it; the look-up changes nothing. *)
Theorem get_stackid_longest_prefix shl_wide g key old :
  rd_history shl_wide g → k_type key = RD_DATA_TYPE_IP → is_u32 (k_word key) →
  rd_ismulticast (ntohl (k_word key)) = false →
  ∃ sid d ipl prl first, nstack_rd_get_stackid shl_wide g (Some key) (Some old) = Some (NSTACK_RD_SUCCESS, Some sid, g) ∧
    g_rd_local_data g = Some d ∧ route_list d = [ipl; prl] ∧ pstack_info d !! 0%nat = Some first ∧
    ((∃ it, longest_match ipl (ntohl (k_word key)) it ∧ sid = stack_id it) ∨
     ((∀ it, it ∈ ipl → ¬ prefix_match (ntohl (k_word key)) (addr (ipdata it)) (masklen (ipdata it))) ∧
      sid = s_stack_id first)).
Proof.
  intros (b & (_ & ipl & prl & Hd & Hs & Hok) & Hne)%rd_history_inv Hty Hw Hmc.
  destruct (pstack_info b) as [|first rest] eqn:Hst; [done|].
  pose proof (ip_find_walk_lpm shl_wide (ntohl (k_word key)) ipl (ntohl_u32 _ Hw) Hs Hok) as Hfind.
  unfold nstack_rd_get_stackid, aread. rewrite Hty. change (Z.to_nat RD_DATA_TYPE_IP) with 0%nat. cbn.
  unfold nstack_rd_ip_spec. rewrite Hmc. cbn. rewrite Hd. cbn.
  unfold nstack_rd_ip_item_find. destruct (ip_find_walk _ _ _) as [it|]; cbn.
  - eexists _, _, _, _, _. split; [done|]. split; [done|]. split; [done|]. cbn. rewrite Hst. split; [done|]. left. eauto.
  - unfold nstack_rd_ip_default. rewrite Hd. cbn. rewrite Hst. cbn.
    eexists _, _, _, _, first. split; [done|]. split; [done|]. split; [done|]. cbn. rewrite Hst. split; [done|]. right. auto.
Qed.

(** Two stacks, one synchronisation that brings 10.0.0.0/8, and the address 10.2.1.2. *)
Definition demo_inited : rd_globals :=
  mk_globals (Some (mk_local (priority_order demo_stacks) 2 [[]; []] (5 :: replicate 15 0) 1)) (-1) 0.

Lemma get_stackid_longest_prefix_witness :
  ∃ r g, nstack_rd_sys (λ _, 0) (λ _, true) demo_fun demo_inited = Some (r, g) ∧
  ∃ sid d ipl prl first, nstack_rd_get_stackid (λ _, 0) g (Some (mk_key 0 33620490)) (Some 0) = Some (NSTACK_RD_SUCCESS, Some sid, g) ∧
    g_rd_local_data g = Some d ∧ route_list d = [ipl; prl] ∧ pstack_info d !! 0%nat = Some first ∧
    ((∃ it, longest_match ipl (ntohl 33620490) it ∧ sid = stack_id it) ∨
     ((∀ it, it ∈ ipl → ¬ prefix_match (ntohl 33620490) (addr (ipdata it)) (masklen (ipdata it))) ∧ sid = s_stack_id first)).
Proof.
  eexists _, _. split; [vm_compute; reflexivity|].
  apply (get_stackid_longest_prefix (λ _, 0) _ (mk_key 0 33620490) 0).
  - eapply (hist_sys (λ _, 0) (λ _, true) demo_fun demo_inited).
    + apply (hist_init (λ _, 0) false demo_stacks (mk_globals None (-1) 0) demo_stacks [5]);
        [done|done|repeat constructor|vm_compute; congruence|vm_compute; reflexivity].
    + intros f. split; [simpl; lia|]. repeat constructor. vm_compute. congruence.
    + intros f. repeat constructor; vm_compute; congruence.
    + vm_compute. reflexivity.
  - reflexivity.
  - split; vm_compute; congruence.
  - vm_compute. reflexivity.
Defined.

(** C12: Synchronisation with the defaults and the configuration always completes, whatever the
    configuration functions return and whichever allocations fail, and it keeps the module's
    invariant: one list per data type, the IP list in descending order of mask length. *)
Theorem rd_sys_invariant shl_wide malloc_ok b call_fun g :
  config_ok call_fun → rd_wf b g →
  ∃ r g', nstack_rd_sys shl_wide malloc_ok call_fun g = Some (r, g') ∧ rd_wf b g'.
Proof.
  intros Hc Hg. destruct (sys_wf shl_wide malloc_ok b (λ _, True) call_fun Hc) with (g := g) as (r & g' & Hr & Hg').
  - intros f. by apply Forall_true.
  - by apply Forall_true.
  - by apply rd_wf_inv.
  - exists r, g'. split; [done|]. by apply rd_wf_inv.
Qed.

Lemma rd_sys_invariant_witness :
  ∃ r g', nstack_rd_sys (λ _, 0) (λ _, true) demo_fun (demo_globals [] []) = Some (r, g') ∧ rd_wf (demo_local [] []) g'.
Proof.
  apply (rd_sys_invariant (λ _, 0) (λ _, true) (demo_local [] []) demo_fun (demo_globals [] [])).
  - intros f. split; [simpl; lia|]. repeat constructor. vm_compute. congruence.
  - split; [vm_compute; intuition congruence|]. exists [], []. split; [done|constructor].
Defined.

(** What an insertion does to the IP list: the entry goes behind all longer masks and before
    the first entry whose mask is not longer, unless that entry's masked address is 0, in which
    case only that entry's stack and age change. *)
Lemma ip_item_insert_spec shl_wide longer rest it :
  Forall (λ t, masklen (ipdata it) < masklen (ipdata t)) longer →
  (∀ t rest', rest = t :: rest' → masklen (ipdata t) <= masklen (ipdata it)) →
  nstack_rd_ip_item_insert shl_wide true (longer ++ rest) it =
  (NSTACK_RD_SUCCESS,
   longer ++
   match rest with
   | t :: rest' =>
       if 0 =? MASK_V shl_wide (addr (ipdata t)) (masklen (ipdata t))
       then set_stack_age t (stack_id it) NSTACK_RD_AGETIME_MAX :: rest'
       else it :: rest
   | [] => [it]
   end).
Proof. apply ip_insert_cases. Qed.

Lemma ip_item_insert_spec_witness :
  nstack_rd_ip_item_insert (λ _, 0) true
    ([mk_item 0 1 1 (mk_ip 2130706433 32 0 0)] ++ [mk_item 0 3 1 (mk_ip 167772160 8 0 0)])
    (mk_item 0 2 1 (mk_ip 3232235520 16 0 0))
  = (0, [mk_item 0 1 1 (mk_ip 2130706433 32 0 0); mk_item 0 2 1 (mk_ip 3232235520 16 0 0); mk_item 0 3 1 (mk_ip 167772160 8 0 0)]).
Proof.
  rewrite (ip_item_insert_spec (λ _, 0)); [reflexivity|repeat constructor|].
  intros t r [= <- _]. vm_compute. congruence.
Defined.

(** Ageing, with its deferred removal, keeps exactly the entries with time left, in order and
    one unit older. *)
Lemma item_age_filters l :
  nstack_rd_ip_item_age l = (NSTACK_RD_SUCCESS, alive l) ∧
  nstack_rd_proto_item_age l = (NSTACK_RD_SUCCESS, alive l).
Proof. unfold nstack_rd_ip_item_age, nstack_rd_proto_item_age. by rewrite age_walk_nil. Qed.

(** ** What the synchronisation loses *)

Section defects.
Context (shl_wide : Z → Z) (b : rd_local_data) (m : Z).

Definition at_lists (n : nat) (ipl prl : list rd_data_item) : rd_globals :=
  mk_globals (Some (set_route_list b [ipl; prl])) m n.

Lemma route_insert_ip n ipl prl it :
  route_insert shl_wide (λ _, true) (at_lists n ipl prl) RD_DATA_TYPE_IP it
  = Some (at_lists (S n) (nstack_rd_ip_item_insert shl_wide true ipl it).2 prl).
Proof.
  unfold route_insert, aread, awrite, at_lists. change (Z.to_nat RD_DATA_TYPE_IP) with 0%nat.
  cbn -[nstack_rd_ip_item_insert]. by destruct (nstack_rd_ip_item_insert _ _ _ _).
Qed.

Lemma route_insert_proto n ipl prl it :
  route_insert shl_wide (λ _, true) (at_lists n ipl prl) RD_DATA_TYPE_PROTO it
  = Some (at_lists (S n) ipl (nstack_rd_proto_item_insert true prl it).2).
Proof.
  unfold route_insert, aread, awrite, at_lists. change (Z.to_nat RD_DATA_TYPE_PROTO) with 1%nat.
  cbn -[nstack_rd_proto_item_insert]. by destruct (nstack_rd_proto_item_insert _ _ _).
Qed.

Definition lookup_stack (name : string) : option (option Z) :=
  stack_by_name (pstack_info b) 0 (Z.to_nat (stack_num b)) name.

Definition default_route (ip sid : Z) : rd_data_item := mk_item RD_DATA_TYPE_IP sid NSTACK_RD_AGETIME_MAX (mk_ip ip 32 0 0).

(** The IP list after the two default routes. *)
Lemma default_ip_loop_fresh n prl found :
  lookup_stack RD_KERNEL = Some found →
  ∃ n', default_ip_loop shl_wide (λ _, true) (at_lists n [] prl) g_default_ip_config
        = Some (at_lists n' (match found with
                             | Some sid => [default_route 0 sid; default_route 2130706433 sid]
                             | None => [] end) prl).
Proof.
  intros Hk. unfold g_default_ip_config. cbn [default_ip_loop at_lists g_rd_local_data mbind option_bind].
  unfold lookup_stack in Hk. cbn [pstack_info stack_num set_route_list]. rewrite Hk. cbn [mbind option_bind].
  destruct found as [sid|].
  - rewrite route_insert_ip. cbn [mbind option_bind at_lists g_rd_local_data pstack_info stack_num set_route_list].
    rewrite Hk. cbn [mbind option_bind]. rewrite route_insert_ip. cbn [mbind option_bind].
    eexists. do 2 f_equal; vm_compute; reflexivity.
  - by eexists.
Qed.
(** The lists after the default routes of both kinds. *)
Lemma sys_default_fresh n kernel sid :
  lookup_stack RD_KERNEL = Some kernel → lookup_stack RD_LWIP = Some (Some sid) →
  ∃ n' ipl, nstack_rd_sys_default shl_wide (λ _, true) (at_lists n [] [])
    = Some (at_lists n' ipl [mk_item RD_DATA_TYPE_PROTO sid 0 (mk_ip 61441 0 0 0)]).
Proof.
  intros Hk Hl. destruct (default_ip_loop_fresh n [] kernel Hk) as [n' Hip].
  unfold nstack_rd_sys_default. rewrite Hip. cbn [mbind option_bind].
  set (ipl := match kernel with Some _ => _ | None => _ end). unfold lookup_stack in Hl.
  unfold g_default_protcol. cbn [default_proto_loop at_lists g_rd_local_data mbind option_bind pstack_info stack_num set_route_list].
  rewrite Hl. cbn [mbind option_bind].
  change (mk_globals (Some (set_route_list b [ipl; []])) m n') with (at_lists n' ipl []).
  rewrite route_insert_proto. by eexists _, _.
Qed.
End defects.

(** The default protocol route does not survive the synchronisation that installs it: it is
    inserted with an age of 0 and the ageing at the end of the same call removes it. *)
Lemma default_proto_route_dropped shl_wide b m n call_fun kernel sid :
  fun_num b = 0 → lookup_stack b RD_KERNEL = Some kernel → lookup_stack b RD_LWIP = Some (Some sid) →
  ∃ n1 n2 ipl ipl' it,
    nstack_rd_sys_default shl_wide (λ _, true) (at_lists b m n [] []) = Some (at_lists b m n1 ipl [it]) ∧
    proto_type (ipdata it) = 61441 ∧ stack_id it = sid ∧
    nstack_rd_sys shl_wide (λ _, true) call_fun (at_lists b m n [] []) = Some (NSTACK_RD_FAIL, at_lists b m n2 ipl' []).
Proof.
  intros Hf Hk Hl. destruct (sys_default_fresh shl_wide b m n kernel sid Hk Hl) as (n' & ipl & Hd).
  unfold nstack_rd_sys. rewrite Hd. eexists n', n', ipl, _, _. split; [done|]. split; [done|]. split; [done|].
  cbn [at_lists g_rd_local_data mbind option_bind fun_num set_route_list]. rewrite Hf. reflexivity.
Qed.

Lemma default_proto_route_dropped_witness :
  let b := mk_local (priority_order demo_stacks) 2 [[]; []] [] 0 in
  ∃ n1 n2 ipl ipl' it,
    nstack_rd_sys_default (λ _, 0) (λ _, true) (at_lists b (-1) 0 [] []) = Some (at_lists b (-1) n1 ipl [it]) ∧
    proto_type (ipdata it) = 61441 ∧ stack_id it = 4 ∧
    nstack_rd_sys (λ _, 0) (λ _, true) demo_fun (at_lists b (-1) 0 [] []) = Some (-1, at_lists b (-1) n2 ipl' []).
Proof.
  intros b. apply (default_proto_route_dropped (λ _, 0) b (-1) 0 demo_fun (Some 3) 4); reflexivity.
Defined.

(** C40: After the default routes are in place no host route (mask length 32) can be added: the
    insertion reports success, but the segments of the list stay the same and the new route's
    stack replaces that of 0.0.0.0. *)
Theorem host_route_not_stored shl_wide b m n sid it :
  lookup_stack b RD_KERNEL = Some (Some sid) → masklen (ipdata it) = 32 →
  ∃ n1 ipl l',
    default_ip_loop shl_wide (λ _, true) (at_lists b m n [] []) g_default_ip_config = Some (at_lists b m n1 ipl []) ∧
    nstack_rd_ip_item_insert shl_wide true ipl it = (NSTACK_RD_SUCCESS, l') ∧
    ipdata <$> l' = ipdata <$> ipl ∧ stack_id <$> l' = [stack_id it; sid].
Proof.
  intros Hk Hm. destruct (default_ip_loop_fresh shl_wide b m n [] (Some sid) Hk) as [n' Hip].
  eexists _, _, _. split; [exact Hip|].
  rewrite (ip_insert_cases shl_wide [] [default_route 0 sid; default_route 2130706433 sid]);
    [|done|intros t r [= <- _]; simpl; lia].
  split; [reflexivity|]. split; vm_compute; reflexivity.
Qed.

Lemma host_route_not_stored_witness :
  let b := mk_local (priority_order demo_stacks) 2 [[]; []] [] 0 in
  ∃ n1 ipl l',
    default_ip_loop (λ _, 0) (λ _, true) (at_lists b (-1) 0 [] []) g_default_ip_config = Some (at_lists b (-1) n1 ipl []) ∧
    nstack_rd_ip_item_insert (λ _, 0) true ipl (mk_item 0 4 1 (mk_ip 167772161 32 0 0)) = (0, l') ∧
    ipdata <$> l' = ipdata <$> ipl ∧ stack_id <$> l' = [4; 3].
Proof.
  intros b. apply (host_route_not_stored (λ _, 0) b (-1) 0 3 (mk_item 0 4 1 (mk_ip 167772161 32 0 0))); reflexivity.
Defined.

Lemma proto_update_find it l p :
  match proto_update_walk it l with
  | Some l' => stack_id <$> proto_find_walk p l'
               = if p =? proto_type (ipdata it) then Some (stack_id it) else stack_id <$> proto_find_walk p l
  | None => proto_find_walk (proto_type (ipdata it)) l = None
  end.
Proof.
  induction l as [|t l IH]; cbn [proto_update_walk proto_find_walk]; [done|].
  destruct (Z.eqb_spec (proto_type (ipdata t)) (proto_type (ipdata it))) as [He|He].
  - cbn [proto_find_walk]. change (proto_type (ipdata (set_stack_age _ _ _))) with (proto_type (ipdata t)).
    rewrite He, Z.eqb_sym. by destruct (p =? _).
  - destruct (proto_update_walk it l) as [l'|]; cbn [mbind option_bind proto_find_walk]; [|done].
    destruct (Z.eqb_spec (proto_type (ipdata t)) p); [|done]. rewrite (proj2 (Z.eqb_neq p _)) by congruence. done.
Qed.

(** Inserting a protocol route makes its protocol resolve to its stack and leaves every other
    protocol's resolution alone, whether the protocol was known before or not. *)
Lemma proto_insert_lookup l it p :
  stack_id <$> proto_find_walk p (nstack_rd_proto_item_insert true l it).2
  = if p =? proto_type (ipdata it) then Some (stack_id it) else stack_id <$> proto_find_walk p l.
Proof.
  unfold nstack_rd_proto_item_insert. cbn [negb]. destruct l as [|t l].
  { cbn. rewrite (Z.eqb_sym p). by destruct (_ =? p). }
  pose proof (proto_update_find it (t :: l) p) as H. destruct (proto_update_walk it (t :: l)) as [l'|]; cbn [snd]; [done|].
  cbn [proto_find_walk]. change (proto_type (ipdata (NSTACK_RD_PROTO_ITEM_COPY zero_item it))) with (proto_type (ipdata it)).
  rewrite (Z.eqb_sym _ p). destruct (Z.eqb_spec p (proto_type (ipdata it))); done.
Qed.
