(* ===== verification/Locks.v ===== *)
(** * The locks of the framework (src/src/framework/common/include/generic)

    The spin lock ([dmm_spinlock.h]) and the read-write lock ([dmm_rwlock.h]) as the
    atomic steps of the threads that use them: a step is one load, store or
    [__sync] operation on the lock word, and the threads interleave freely. *)
From S2P Require Import Prelude.

(** ** Threads that interleave *)

(** A thread machine: its local states and, for a choice of the environment, the step from a
    lock word and a local state to the next ones. *)
Section interleaving.
Context {pc op : Type} (tstep : op → Z → pc → option (Z * pc)).

Record machine := mk_machine { lock : Z; pcs : list pc }.

Inductive mstep (ok : op → Prop) : machine → machine → Prop :=
  | mstep_thread o i m p l' p' :
      ok o → pcs m !! i = Some p → tstep o (lock m) p = Some (l', p') →
      mstep ok m (mk_machine l' (<[i := p']> (pcs m))).

(** An invariant of the lock word and of the number of threads in a section. *)
Lemma mstep_invariant (ok : op → Prop) (I : Z → list pc → Prop) :
  (∀ o l ps i p l' p', I l ps → ok o → ps !! i = Some p → tstep o l p = Some (l', p') → I l' (<[i := p']> ps)) →
  ∀ m m', rtc (mstep ok) m m' → I (lock m) (pcs m) → I (lock m') (pcs m').
Proof.
  intros HI m m' Hr. induction Hr as [|m m1 m2 Hs _ IH]; [done|]. intros Hm. apply IH. inversion Hs; subst. eapply HI; eauto.
Qed.
End interleaving.

(** The number of threads in a local state of a kind. *)
Definition count {pc} (f : pc → bool) (ps : list pc) : Z := foldr (λ p a, (if f p then 1 else 0) + a) 0 ps.

Lemma count_insert {pc} (f : pc → bool) ps i p p' :
  ps !! i = Some p → count f (<[i := p']> ps) = count f ps - (if f p then 1 else 0) + (if f p' then 1 else 0).
Proof.
  revert i. induction ps as [|q ps IH]; intros [|i] Hi; simpl in *; try done.
  - injection Hi as ->. lia.
  - rewrite IH by done. lia.
Qed.

Lemma count_nonneg {pc} (f : pc → bool) ps : 0 <= count f ps.
Proof. induction ps as [|p ps IH]; simpl; [lia|]. destruct (f p); lia. Qed.

Lemma count_pos {pc} (f : pc → bool) ps i p : ps !! i = Some p → f p = true → 1 <= count f ps.
Proof.
  revert i. induction ps as [|q ps IH]; intros [|i] Hi Hf; simpl in *; try done.
  - injection Hi as ->. rewrite Hf. pose proof (count_nonneg f ps). lia.
  - specialize (IH i Hi Hf). destruct (f q); lia.
Qed.

Lemma count_two {pc} (f : pc → bool) ps i j p q :
  i ≠ j → ps !! i = Some p → ps !! j = Some q → f p = true → f q = true → 2 <= count f ps.
Proof.
  revert i j. induction ps as [|r ps IH]; intros [|i] [|j] Hne Hi Hj Hp Hq; simpl in *; try done.
  - injection Hi as ->. rewrite Hp. pose proof (count_pos f ps j q Hj Hq). lia.
  - injection Hj as ->. rewrite Hq. pose proof (count_pos f ps i p Hi Hp). lia.
  - assert (2 <= count f ps) by (eapply IH; [|done..]; congruence). destruct (f r); lia.
Qed.

(** ** The spin lock *)

(** [SIdle]: outside; [SSet]: before the test-and-set; [SPause]: in [DMM_PAUSE_WHILE]; [SIn]:
    holding the lock; [STry]: before the test-and-set of [dmm_spin_trylock]. *)
Inductive spin_pc := SIdle | SSet | SPause | SIn | STry.
Inductive spin_op := SpinLock | SpinTry | SpinRun.

Definition dmm_spin_init : Z := 0.

Definition spin_step (o : spin_op) (l : Z) (p : spin_pc) : option (Z * spin_pc) :=
  match p, o with
  | SIdle, SpinLock => Some (l, SSet)
  | SIdle, SpinTry => Some (l, STry)
  | SSet, SpinRun => Some (1, if l =? 0 then SIn else SPause)
  | SPause, SpinRun => Some (l, if l =? 0 then SSet else SPause)
  | STry, SpinRun => Some (1, if l =? 0 then SIn else SIdle)
  | SIn, SpinRun => Some (0, SIdle)
  | _, _ => None
  end.

Definition spin_in (p : spin_pc) : bool := match p with SIn => true | _ => false end.

(** ** The read-write lock *)

(** [RLoad]/[WLoad]: before the load of the lock word in the loop body; [RCas val]/[WCas]: at
    the loop condition.  The [continue] of the body goes to the condition, so the load leads
    there in both branches. *)
Inductive rw_pc := RWIdle | RLoad | RCas (val : Z) | RIn | WLoad | WCas | WIn.
Inductive rw_op := ReadLock | WriteLock | RwRun.

Definition dmm_rwlock_init : Z := 0.

Definition dmm_read_lock_step (l : Z) (p : rw_pc) : option (Z * rw_pc) :=
  match p with
  | RLoad => if l <? 0 then Some (l, RCas l) else Some (l, RCas l)
  | RCas val => if l =? val then Some (val + 1, RIn) else Some (l, RLoad)
  | _ => None
  end.
Definition dmm_read_unlock_step (l : Z) (p : rw_pc) : option (Z * rw_pc) :=
  match p with RIn => Some (l - 1, RWIdle) | _ => None end.
Definition dmm_write_lock_step (l : Z) (p : rw_pc) : option (Z * rw_pc) :=
  match p with
  | WLoad => if negb (l =? 0) then Some (l, WCas) else Some (l, WCas)
  | WCas => if l =? 0 then Some (-1, WIn) else Some (l, WLoad)
  | _ => None
  end.
Definition dmm_write_unlock_step (l : Z) (p : rw_pc) : option (Z * rw_pc) :=
  match p with WIn => Some (0, RWIdle) | _ => None end.

Definition rw_step (o : rw_op) (l : Z) (p : rw_pc) : option (Z * rw_pc) :=
  match p, o with
  | RWIdle, ReadLock => Some (l, RLoad)
  | RWIdle, WriteLock => Some (l, WLoad)
  | (RLoad | RCas _), RwRun => dmm_read_lock_step l p
  | RIn, RwRun => dmm_read_unlock_step l p
  | (WLoad | WCas), RwRun => dmm_write_lock_step l p
  | WIn, RwRun => dmm_write_unlock_step l p
  | _, _ => None
  end.

Definition writer_in (p : rw_pc) : bool := match p with WIn => true | _ => false end.
Definition reader_in (p : rw_pc) : bool := match p with RIn => true | _ => false end.
Definition reader_pc (p : rw_pc) : bool := match p with RLoad | RCas _ | RIn => true | _ => false end.
Definition writer_pc (p : rw_pc) : bool := match p with WLoad | WCas | WIn => true | _ => false end.

Lemma count_replicate {pc} (f : pc → bool) n p : f p = false → count f (replicate n p) = 0.
Proof. intros Hf. induction n; simpl; [done|]. rewrite Hf. lia. Qed.

(** What holds of the lock word and the holders, by the kind of threads there are. *)
Definition spin_inv (l : Z) (ps : list spin_pc) : Prop :=
  l = 0 ∧ count spin_in ps = 0 ∨ l = 1 ∧ count spin_in ps = 1.
Definition writers_inv (l : Z) (ps : list rw_pc) : Prop :=
  count reader_pc ps = 0 ∧ (l = 0 ∧ count writer_in ps = 0 ∨ l = -1 ∧ count writer_in ps = 1).
Definition readers_inv (l : Z) (ps : list rw_pc) : Prop :=
  count writer_pc ps = 0 ∧ l = count reader_in ps.

Lemma spin_inv_step o l ps i p l' p' :
  spin_inv l ps → ps !! i = Some p → spin_step o l p = Some (l', p') → spin_inv l' (<[i := p']> ps).
Proof.
  unfold spin_inv. intros HI Hi Hs. rewrite (count_insert _ _ _ p) by done.
  destruct p, o; simpl in Hs; try done; try (destruct (Z.eqb_spec l 0)); simplify_eq/=; try lia.
  pose proof (count_pos spin_in ps i SIn Hi eq_refl). lia.
Qed.

Lemma writers_inv_step o l ps i p l' p' :
  o ≠ ReadLock → writers_inv l ps → ps !! i = Some p → rw_step o l p = Some (l', p') → writers_inv l' (<[i := p']> ps).
Proof.
  unfold writers_inv. intros Ho [Hr HI] Hi Hs. rewrite !(count_insert _ _ _ p) by done.
  assert (Hnr : reader_pc p = false) by (destruct (reader_pc p) eqn:E; [pose proof (count_pos _ _ _ _ Hi E); lia|done]).
  destruct p, o; simpl in Hs; try done; try (destruct (Z.eqb_spec l 0)); simplify_eq/=; try lia.
  all: pose proof (count_pos writer_in ps i WIn Hi eq_refl); lia.
Qed.

Lemma readers_inv_step o l ps i p l' p' :
  o ≠ WriteLock → readers_inv l ps → ps !! i = Some p → rw_step o l p = Some (l', p') → readers_inv l' (<[i := p']> ps).
Proof.
  unfold readers_inv. intros Ho [Hw HI] Hi Hs. rewrite !(count_insert _ _ _ p) by done.
  assert (Hnw : writer_pc p = false) by (destruct (writer_pc p) eqn:E; [pose proof (count_pos _ _ _ _ Hi E); lia|done]).
  destruct p as [| |val| | | |], o; simpl in Hs; try done; try (destruct (l <? 0)); try (destruct (Z.eqb_spec l val)); simplify_eq/=; lia.
Qed.

(** ** The properties *)

(** The spin lock is exclusive: in every interleaving of any number of threads that lock,
    try to lock and unlock, two different threads are never both between lock and unlock. *)
Lemma spinlock_exclusive n m i j :
  rtc (mstep spin_step (λ _, True)) (mk_machine dmm_spin_init (replicate n SIdle)) m →
  pcs m !! i = Some SIn → pcs m !! j = Some SIn → i = j.
Proof.
  intros Hr Hi Hj. destruct (decide (i = j)) as [|Hne]; [done|]. exfalso.
  pose proof (count_two spin_in _ i j _ _ Hne Hi Hj eq_refl eq_refl) as H2.
  assert (HI : spin_inv (lock m) (pcs m)); [|unfold spin_inv in HI; lia].
  eapply (mstep_invariant spin_step (λ _, True) spin_inv); [|exact Hr|].
  - intros. by eapply spin_inv_step.
  - left. split; [done|]. by apply count_replicate.
Qed.

(** One step of the interleaving, by its thread. *)
Lemma mstep_at {pc op} (tstep : op → Z → pc → option (Z * pc)) (ok : op → Prop) o i l ps p l' p' ps' :
  ok o → ps !! i = Some p → tstep o l p = Some (l', p') → ps' = <[i := p']> ps →
  mstep tstep ok (mk_machine l ps) (mk_machine l' ps').
Proof. intros Ho Hi Hs ->. by apply (mstep_thread tstep ok o i (mk_machine l ps) p l' p'). Qed.

Lemma spinlock_exclusive_witness :
  ∃ m, rtc (mstep spin_step (λ _, True)) (mk_machine dmm_spin_init (replicate 2 SIdle)) m ∧
    pcs m !! 1%nat = Some SIn ∧ ∀ j, pcs m !! j = Some SIn → 1%nat = j.
Proof.
  assert (Hr : rtc (mstep spin_step (λ _, True)) (mk_machine dmm_spin_init (replicate 2 SIdle)) (mk_machine 1 [SIdle; SIn])).
  { eapply rtc_l; [by apply (mstep_at _ _ SpinTry 1 0 [SIdle; SIdle] SIdle 0 STry [SIdle; STry])|].
    eapply rtc_l; [by apply (mstep_at _ _ SpinRun 1 0 [SIdle; STry] STry 1 SIn [SIdle; SIn])|]. apply rtc_refl. }
  exists (mk_machine 1 [SIdle; SIn]). split; [exact Hr|]. split; [reflexivity|]. intros j Hj.
  apply (spinlock_exclusive 2 _ 1 j Hr eq_refl Hj).
Defined.

(** Without readers the read-write lock is exclusive: in every interleaving of threads that
    only take the write lock, two different ones never hold it. *)
Lemma writers_exclusive n m i j :
  rtc (mstep rw_step (λ o, o ≠ ReadLock)) (mk_machine dmm_rwlock_init (replicate n RWIdle)) m →
  pcs m !! i = Some WIn → pcs m !! j = Some WIn → i = j.
Proof.
  intros Hr Hi Hj. destruct (decide (i = j)) as [|Hne]; [done|]. exfalso.
  pose proof (count_two writer_in _ i j _ _ Hne Hi Hj eq_refl eq_refl) as H2.
  assert (HI : writers_inv (lock m) (pcs m)); [|unfold writers_inv in HI; lia].
  eapply (mstep_invariant rw_step (λ o, o ≠ ReadLock) writers_inv); [|exact Hr|].
  - intros. by eapply writers_inv_step.
  - split; [by apply count_replicate|]. left. split; [done|]. by apply count_replicate.
Qed.

(** Without writers the lock word is the number of readers inside. *)
Lemma readers_counted n m :
  rtc (mstep rw_step (λ o, o ≠ WriteLock)) (mk_machine dmm_rwlock_init (replicate n RWIdle)) m →
  lock m = count reader_in (pcs m).
Proof.
  intros Hr. assert (HI : readers_inv (lock m) (pcs m)); [|apply HI].
  eapply (mstep_invariant rw_step (λ o, o ≠ WriteLock) readers_inv); [|exact Hr|].
  - intros. by eapply readers_inv_step.
  - split; [by apply count_replicate|]. symmetry. by apply count_replicate.
Qed.

(** Used by writers only the read-write lock is exclusive: in every interleaving two different threads never
    hold it.  Used by readers only, the lock word is the number of readers inside, so the last reader to leave sets it back to 0. *)
Lemma rwlock_one_kind n m :
  (rtc (mstep rw_step (λ o, o ≠ ReadLock)) (mk_machine dmm_rwlock_init (replicate n RWIdle)) m →
   ∀ i j, pcs m !! i = Some WIn → pcs m !! j = Some WIn → i = j) ∧
  (rtc (mstep rw_step (λ o, o ≠ WriteLock)) (mk_machine dmm_rwlock_init (replicate n RWIdle)) m →
   lock m = count reader_in (pcs m)).
Proof. split; [intros Hr i j; by apply (writers_exclusive n)|apply readers_counted]. Qed.

Lemma rwlock_one_kind_witness :
  (∃ m, rtc (mstep rw_step (λ o, o ≠ ReadLock)) (mk_machine dmm_rwlock_init (replicate 2 RWIdle)) m ∧
    pcs m !! 0%nat = Some WIn ∧ ∀ j, pcs m !! j = Some WIn → 0%nat = j) ∧
  ∃ m, rtc (mstep rw_step (λ o, o ≠ WriteLock)) (mk_machine dmm_rwlock_init (replicate 2 RWIdle)) m ∧
    lock m = 1 ∧ lock m = count reader_in (pcs m).
Proof.
  split.
  - assert (Hr : rtc (mstep rw_step (λ o, o ≠ ReadLock)) (mk_machine dmm_rwlock_init (replicate 2 RWIdle)) (mk_machine (-1) [WIn; RWIdle])).
    { eapply rtc_l; [by apply (mstep_at _ _ WriteLock 0 0 [RWIdle; RWIdle] RWIdle 0 WLoad [WLoad; RWIdle])|].
      eapply rtc_l; [by apply (mstep_at _ _ RwRun 0 0 [WLoad; RWIdle] WLoad 0 WCas [WCas; RWIdle])|].
      eapply rtc_l; [by apply (mstep_at _ _ RwRun 0 0 [WCas; RWIdle] WCas (-1) WIn [WIn; RWIdle])|]. apply rtc_refl. }
    exists (mk_machine (-1) [WIn; RWIdle]). split; [exact Hr|]. split; [reflexivity|]. intros j Hj.
    apply (proj1 (rwlock_one_kind 2 _) Hr 0%nat j eq_refl Hj).
  - assert (Hr : rtc (mstep rw_step (λ o, o ≠ WriteLock)) (mk_machine dmm_rwlock_init (replicate 2 RWIdle)) (mk_machine 1 [RIn; RWIdle])).
    { eapply rtc_l; [by apply (mstep_at _ _ ReadLock 0 0 [RWIdle; RWIdle] RWIdle 0 RLoad [RLoad; RWIdle])|].
      eapply rtc_l; [by apply (mstep_at _ _ RwRun 0 0 [RLoad; RWIdle] RLoad 0 (RCas 0) [RCas 0; RWIdle])|].
      eapply rtc_l; [by apply (mstep_at _ _ RwRun 0 0 [RCas 0; RWIdle] (RCas 0) 1 RIn [RIn; RWIdle])|]. apply rtc_refl. }
    exists (mk_machine 1 [RIn; RWIdle]). split; [exact Hr|]. split; [reflexivity|]. apply (proj2 (rwlock_one_kind 2 _) Hr).
Defined.

(** C31: With a reader the read-write lock excludes nothing: while a writer holds it a reader
    enters, because its compare-and-swap from the negative value it just read succeeds; the
    lock word is then 0 and a second writer enters as well. *)
Theorem reader_enters_beside_writer :
  ∃ m1 m2, rtc (mstep rw_step (λ _, True)) (mk_machine dmm_rwlock_init (replicate 3 RWIdle)) m1 ∧
    pcs m1 = [WIn; RIn; RWIdle] ∧ rtc (mstep rw_step (λ _, True)) m1 m2 ∧ pcs m2 = [WIn; RIn; WIn].
Proof.
  exists (mk_machine 0 [WIn; RIn; RWIdle]), (mk_machine (-1) [WIn; RIn; WIn]). split; [|split; [done|split; [|done]]].
  - eapply rtc_l; [by apply (mstep_at _ _ WriteLock 0 0 [RWIdle; RWIdle; RWIdle] RWIdle 0 WLoad [WLoad; RWIdle; RWIdle])|].
    eapply rtc_l; [by apply (mstep_at _ _ RwRun 0 0 [WLoad; RWIdle; RWIdle] WLoad 0 WCas [WCas; RWIdle; RWIdle])|].
    eapply rtc_l; [by apply (mstep_at _ _ RwRun 0 0 [WCas; RWIdle; RWIdle] WCas (-1) WIn [WIn; RWIdle; RWIdle])|].
    eapply rtc_l; [by apply (mstep_at _ _ ReadLock 1 (-1) [WIn; RWIdle; RWIdle] RWIdle (-1) RLoad [WIn; RLoad; RWIdle])|].
    eapply rtc_l; [by apply (mstep_at _ _ RwRun 1 (-1) [WIn; RLoad; RWIdle] RLoad (-1) (RCas (-1)) [WIn; RCas (-1); RWIdle])|].
    eapply rtc_l; [by apply (mstep_at _ _ RwRun 1 (-1) [WIn; RCas (-1); RWIdle] (RCas (-1)) 0 RIn [WIn; RIn; RWIdle])|]. apply rtc_refl.
  - eapply rtc_l; [by apply (mstep_at _ _ WriteLock 2 0 [WIn; RIn; RWIdle] RWIdle 0 WLoad [WIn; RIn; WLoad])|].
    eapply rtc_l; [by apply (mstep_at _ _ RwRun 2 0 [WIn; RIn; WLoad] WLoad 0 WCas [WIn; RIn; WCas])|].
    eapply rtc_l; [by apply (mstep_at _ _ RwRun 2 0 [WIn; RIn; WCas] WCas (-1) WIn [WIn; RIn; WIn])|]. apply rtc_refl.
Qed.
