(* ===== verification/Links.v ===== *)
(** * Doubly linked sequences

    Several components thread the same nodes into sequences by a forward and a
    backward link: the sections of a memory segment in physical order and its free
    list, the lists of [list.c] and the hash lists of the event code.  This file has
    the theory they share.  The links are partial functions from a node to its
    neighbour; [links fwd bwd w] says that the walk [w] follows them both ways. *)
From S2P Require Import Prelude.

Fixpoint links (fwd bwd : Z → option Z) (w : list Z) : Prop :=
  match w with
  | x :: (y :: _) as w' => fwd x = Some y ∧ bwd y = Some x ∧ links fwd bwd w'
  | _ => True
  end.

(** The nodes of [w] whose forward, and whose backward, link the walk determines. *)
Definition sources (w : list Z) : list Z := removelast w.
Definition targets (w : list Z) : list Z := tail w.

Lemma links_cons fwd bwd x y w :
  links fwd bwd (x :: y :: w) ↔ fwd x = Some y ∧ bwd y = Some x ∧ links fwd bwd (y :: w).
Proof. done. Qed.

Lemma links_app fwd bwd u x v :
  links fwd bwd (u ++ x :: v) ↔ links fwd bwd (u ++ [x]) ∧ links fwd bwd (x :: v).
Proof.
  induction u as [|a u IH]; [simpl; tauto|].
  destruct u as [|b u].
  - cbn [app] in *. rewrite links_cons. cbn [links]. tauto.
  - cbn [app] in IH |- *. rewrite !links_cons, IH. tauto.
Qed.

Lemma sources_app u x v : sources (u ++ x :: v) = u ++ sources (x :: v).
Proof. apply removelast_app. done. Qed.

Lemma sources_snoc u x : sources (u ++ [x]) = u.
Proof. rewrite sources_app. apply app_nil_r. Qed.

(** A walk survives changes of links it does not determine. *)
Lemma links_frame fwd bwd fwd' bwd' w :
  links fwd bwd w →
  (∀ x, x ∈ sources w → fwd' x = fwd x) → (∀ y, y ∈ targets w → bwd' y = bwd y) →
  links fwd' bwd' w.
Proof.
  unfold targets. induction w as [|x [|y w] IH]; intros Hl Hf Hb; [done|done|].
  apply links_cons in Hl as (H1 & H2 & Hl). apply links_cons. split; [|split].
  - rewrite Hf; [done|left].
  - rewrite Hb; [done|left].
  - apply IH; [done| |]; intros z Hz; [apply Hf|apply Hb]; [by right|].
    destruct w; [by apply elem_of_nil in Hz|]. by right.
Qed.

(** Unlinking [x] between its neighbours [p] and [n]. *)
Lemma links_remove fwd bwd fwd' bwd' u p x n v :
  links fwd bwd (u ++ p :: x :: n :: v) →
  NoDup (sources (u ++ p :: x :: n :: v)) → NoDup (targets (u ++ p :: x :: n :: v)) →
  fwd' p = Some n → bwd' n = Some p →
  (∀ y, y ≠ p → y ≠ x → fwd' y = fwd y) → (∀ y, y ≠ n → y ≠ x → bwd' y = bwd y) →
  links fwd' bwd' (u ++ p :: n :: v).
Proof.
  intros Hl Hs Ht Hp Hn Hf Hb. apply links_app in Hl as [Hu Hv].
  rewrite sources_app in Hs. cbn [sources removelast] in Hs.
  apply NoDup_app in Hs as (_ & Hsu & Hsv). apply NoDup_cons in Hsv as [Hpx Hsv]. apply NoDup_cons in Hsv as [Hxn Hsv].
  apply links_app. split; [|apply links_cons; split; [done|split; [done|]]].
  - eapply links_frame; [exact Hu| |]; intros y Hy.
    + rewrite sources_snoc in Hy. apply Hsu in Hy. apply Hf; intros ->; apply Hy; [left|right; left].
    + assert (y ∉ x :: n :: v).
      { intros Hin. destruct u as [|a u]; cbn in Hy, Ht; [by apply elem_of_nil in Hy|].
        replace (u ++ p :: x :: n :: v) with ((u ++ [p]) ++ x :: n :: v) in Ht by (by rewrite <- app_assoc).
        apply NoDup_app in Ht as (_ & Ht & _). by apply (Ht y). }
      apply Hb; intros ->; set_solver.
  - apply links_cons in Hv as (_ & _ & Hv). apply links_cons in Hv as (_ & _ & Hv).
    assert (Ht' : NoDup (x :: n :: v)).
    { destruct u as [|a u]; cbn in Ht; [done|].
      replace (u ++ p :: x :: n :: v) with ((u ++ [p]) ++ x :: n :: v) in Ht by (by rewrite <- app_assoc).
      by apply NoDup_app in Ht as (_ & _ & Ht). }
    eapply links_frame; [exact Hv| |]; intros y Hy.
    + apply Hf; intros ->; [apply Hpx; by right|by apply Hxn].
    + cbn in Hy. inversion Ht' as [|? ? Hx Ht2]. inversion Ht2 as [|? ? Hnv _].
      apply Hb; intros ->; [done|]. apply Hx. by right.
Qed.

(** Linking [x] between the neighbours [p] and [n]. *)
Lemma links_insert fwd bwd fwd' bwd' u p x n v :
  links fwd bwd (u ++ p :: n :: v) →
  NoDup (sources (u ++ p :: n :: v)) → NoDup (targets (u ++ p :: n :: v)) →
  x ∉ u ++ p :: n :: v →
  fwd' p = Some x → bwd' x = Some p → fwd' x = Some n → bwd' n = Some x →
  (∀ y, y ≠ p → y ≠ x → fwd' y = fwd y) → (∀ y, y ≠ n → y ≠ x → bwd' y = bwd y) →
  links fwd' bwd' (u ++ p :: x :: n :: v).
Proof.
  intros Hl Hs Ht Hx Hp Hxp Hxn Hn Hf Hb. apply links_app in Hl as [Hu Hv].
  rewrite sources_app in Hs. cbn [sources removelast] in Hs.
  apply NoDup_app in Hs as (_ & Hsu & Hsv). apply NoDup_cons in Hsv as [Hpn Hsv].
  apply links_app. split; [|rewrite !links_cons; split_and!; auto].
  - eapply links_frame; [exact Hu| |]; intros y Hy.
    + rewrite sources_snoc in Hy. apply Hf; [|set_solver]. intros ->. apply (Hsu p Hy). left.
    + assert (y ∉ n :: v).
      { intros Hin. destruct u as [|a u]; cbn in Hy, Ht; [by apply elem_of_nil in Hy|].
        replace (u ++ p :: n :: v) with ((u ++ [p]) ++ n :: v) in Ht by (by rewrite <- app_assoc).
        apply NoDup_app in Ht as (_ & Ht & _). by apply (Ht y). }
      assert (y ∈ u ++ [p]) by (destruct u; cbn in Hy; [by apply elem_of_nil in Hy|set_solver]).
      apply Hb; set_solver.
  - apply links_cons in Hv as (_ & _ & Hv).
    assert (Ht' : NoDup (n :: v)).
    { destruct u as [|a u]; cbn in Ht; [done|].
      replace (u ++ p :: n :: v) with ((u ++ [p]) ++ n :: v) in Ht by (by rewrite <- app_assoc).
      by apply NoDup_app in Ht as (_ & _ & Ht). }
    eapply links_frame; [exact Hv| |]; intros y Hy.
    + assert (y ∈ n :: v) by (clear -Hy; unfold sources in Hy; revert n Hy; induction v as [|a v IH]; intros n Hy;
        [by apply elem_of_nil in Hy|]; apply elem_of_cons in Hy as [->|Hy]; [left|right; by apply IH]).
      apply Hf; [|set_solver]. intros ->. by apply Hpn.
    + cbn in Hy. inversion Ht' as [|? ? Hnv _]. apply Hb; [by intros ->|set_solver].
Qed.
