(* ===== verification/DList.v ===== *)
(** * The linked lists (src/src/framework/common/data_struct/list.c)

    Circular doubly linked lists through [struct list_head] and hash lists through
    [struct hlist_node].  The memory is a map from addresses to nodes; a null pointer
    is [None], and an access through a null or dangling pointer makes the whole
    operation [None].  [dll] and [hlist] relate a memory to the sequence of nodes
    a head has; every operation is the operation on that sequence. *)
From S2P Require Import Prelude.
From S2P Require Import Links.

(** ** Circular lists *)

Record list_head := mk_node { next : option Z; prev : option Z }.

Abbreviation heap := (gmap Z list_head).

Definition get_next (h : heap) (x : Z) : option (option Z) := n ← h !! x; Some (next n).
Definition get_prev (h : heap) (x : Z) : option (option Z) := n ← h !! x; Some (prev n).
Definition set_next (h : heap) (x : Z) (v : option Z) : option heap :=
  n ← h !! x; Some (<[x := mk_node v (prev n)]> h).
Definition set_prev (h : heap) (x : Z) (v : option Z) : option heap :=
  n ← h !! x; Some (<[x := mk_node (next n) v]> h).

Definition INIT_LIST_HEAD (h : heap) (x : Z) : option heap :=
  h ← set_next h x (Some x); set_prev h x (Some x).

Definition list_empty (h : heap) (head : Z) : option bool :=
  n ← get_next h head; Some (bool_decide (n = Some head)).

Definition list_del (h : heap) (entry : Z) : option heap :=
  p ← get_prev h entry;
  n ← get_next h entry;
  match p, n with
  | Some p, Some n =>
      h ← set_prev h n (Some p);
      p ← get_prev h entry; p ← p; n ← get_next h entry;
      h ← set_next h p n;
      h ← set_next h entry None;
      set_prev h entry None
  | _, _ => Some h
  end.

Definition list_get_first (h : heap) (head : Z) : option (option Z) := get_next h head.

Definition list_add (h : heap) (newp head : Z) : option heap :=
  n ← get_next h head; n ← n;
  h ← set_prev h n (Some newp);
  n ← get_next h head;
  h ← set_next h newp n;
  h ← set_prev h newp (Some head);
  set_next h head (Some newp).

Definition list_add_tail (h : heap) (newp head : Z) : option heap :=
  p ← get_prev h head; p ← p;
  list_add h newp p.

Definition list_link (h : heap) (newhead head : Z) : option heap :=
  p ← get_prev h newhead; p ← p;
  h ← set_next h p (Some head);
  p ← get_prev h head; p ← p;
  h ← set_next h p (Some newhead);
  tmp ← get_prev h newhead;
  p ← get_prev h head;
  h ← set_prev h newhead p;
  set_prev h head tmp.

(** ** The sequence of a list *)

Definition fwd (h : heap) (x : Z) : option Z := n ← h !! x; next n.
Definition bwd (h : heap) (x : Z) : option Z := n ← h !! x; prev n.

Definition dll (h : heap) (head : Z) (l : list Z) : Prop :=
  NoDup (head :: l) ∧ links (fwd h) (bwd h) (head :: l ++ [head]).

Lemma dll_sources head (l : list Z) : sources (head :: l ++ [head]) = head :: l.
Proof. apply (sources_snoc (head :: l)). Qed.

(** The links of a list that has at least one node besides the places that change. *)
Lemma fwd_Some h x y : fwd h x = Some y → ∃ n, h !! x = Some n ∧ next n = Some y.
Proof. unfold fwd. destruct (h !! x) as [n|]; cbn; [eauto|done]. Qed.
Lemma bwd_Some h x y : bwd h x = Some y → ∃ n, h !! x = Some n ∧ prev n = Some y.
Proof. unfold bwd. destruct (h !! x) as [n|]; cbn; [eauto|done]. Qed.

Lemma get_next_fwd h x y : fwd h x = Some y → get_next h x = Some (Some y).
Proof. intros (n & Hn & Hx)%fwd_Some. unfold get_next. rewrite Hn. cbn. by rewrite Hx. Qed.
Lemma get_prev_bwd h x y : bwd h x = Some y → get_prev h x = Some (Some y).
Proof. intros (n & Hn & Hx)%bwd_Some. unfold get_prev. rewrite Hn. cbn. by rewrite Hx. Qed.

Lemma set_next_ok h x v : is_Some (h !! x) →
  ∃ h', set_next h x v = Some h' ∧ (∀ y, fwd h' y = if decide (y = x) then v else fwd h y) ∧
    (∀ y, bwd h' y = bwd h y) ∧ ∀ y, is_Some (h' !! y) ↔ is_Some (h !! y).
Proof.
  intros [n Hn]. unfold set_next. rewrite Hn. eexists. split; [done|].
  split; [|split]; intros y; unfold fwd, bwd; destruct (decide (y = x)) as [->|Hne];
    rewrite ?lookup_insert_eq, ?lookup_insert_ne, ?Hn by done; done.
Qed.

Lemma set_prev_ok h x v : is_Some (h !! x) →
  ∃ h', set_prev h x v = Some h' ∧ (∀ y, bwd h' y = if decide (y = x) then v else bwd h y) ∧
    (∀ y, fwd h' y = fwd h y) ∧ ∀ y, is_Some (h' !! y) ↔ is_Some (h !! y).
Proof.
  intros [n Hn]. unfold set_prev. rewrite Hn. eexists. split; [done|].
  split; [|split]; intros y; unfold fwd, bwd; destruct (decide (y = x)) as [->|Hne];
    rewrite ?lookup_insert_eq, ?lookup_insert_ne, ?Hn by done; done.
Qed.

Lemma fwd_is_Some h x y : fwd h x = Some y → is_Some (h !! x).
Proof. intros (n & Hn & _)%fwd_Some. by rewrite Hn. Qed.
Lemma bwd_is_Some h x y : bwd h x = Some y → is_Some (h !! x).
Proof. intros (n & Hn & _)%bwd_Some. by rewrite Hn. Qed.

(** Two lists of different nodes do not disturb each other. *)
Lemma dll_frame h h' head l :
  dll h head l → (∀ x, x ∈ head :: l → fwd h' x = fwd h x ∧ bwd h' x = bwd h x) → dll h' head l.
Proof.
  intros [Hnd Hl] Hsame. split; [done|]. eapply links_frame; [exact Hl| |].
  - intros x. rewrite dll_sources. intros Hx. by apply Hsame.
  - intros x Hx. cbn in Hx. apply Hsame. set_solver.
Qed.

(** ** The operations on the links *)

Lemma list_add_links h newp p n :
  fwd h p = Some n → is_Some (h !! n) → is_Some (h !! newp) → newp ≠ p → newp ≠ n →
  ∃ h', list_add h newp p = Some h' ∧
    (∀ y, fwd h' y = if decide (y = p) then Some newp else if decide (y = newp) then Some n else fwd h y) ∧
    (∀ y, bwd h' y = if decide (y = n) then Some newp else if decide (y = newp) then Some p else bwd h y) ∧
    ∀ y, is_Some (h' !! y) ↔ is_Some (h !! y).
Proof.
  intros Hp Hn Hnew Hnp Hnn. unfold list_add. rewrite (get_next_fwd _ _ _ Hp). cbn [mbind option_bind].
  destruct (set_prev_ok h n (Some newp) Hn) as (h1 & -> & B1 & F1 & D1). cbn [mbind option_bind].
  rewrite (get_next_fwd h1 p n) by (by rewrite F1). cbn [mbind option_bind].
  destruct (set_next_ok h1 newp (Some n)) as (h2 & -> & F2 & B2 & D2); [by apply D1|]. cbn [mbind option_bind].
  destruct (set_prev_ok h2 newp (Some p)) as (h3 & -> & B3 & F3 & D3); [by apply D2, D1|]. cbn [mbind option_bind].
  destruct (set_next_ok h3 p (Some newp)) as (h4 & -> & F4 & B4 & D4).
  { apply D3, D2, D1. by eapply fwd_is_Some. }
  exists h4. split; [done|]. split; [|split]; intros y.
  - by rewrite F4, F3, F2, F1.
  - rewrite B4, B3, B2, B1. repeat case_decide; congruence.
  - by rewrite D4, D3, D2, D1.
Qed.

Lemma list_del_links h x p n :
  bwd h x = Some p → fwd h x = Some n → is_Some (h !! p) → is_Some (h !! n) → x ≠ p → x ≠ n →
  ∃ h', list_del h x = Some h' ∧
    (∀ y, fwd h' y = if decide (y = x) then None else if decide (y = p) then Some n else fwd h y) ∧
    (∀ y, bwd h' y = if decide (y = x) then None else if decide (y = n) then Some p else bwd h y) ∧
    ∀ y, is_Some (h' !! y) ↔ is_Some (h !! y).
Proof.
  intros Hb Hf Hp Hn Hxp Hxn. unfold list_del. rewrite (get_prev_bwd _ _ _ Hb), (get_next_fwd _ _ _ Hf). cbn [mbind option_bind].
  destruct (set_prev_ok h n (Some p) Hn) as (h1 & -> & B1 & F1 & D1). cbn [mbind option_bind].
  rewrite (get_prev_bwd h1 x p), (get_next_fwd h1 x n) by (rewrite ?B1, ?F1, ?decide_False by done; done). cbn [mbind option_bind].
  destruct (set_next_ok h1 p (Some n)) as (h2 & -> & F2 & B2 & D2); [by apply D1|]. cbn [mbind option_bind].
  destruct (set_next_ok h2 x None) as (h3 & -> & F3 & B3 & D3); [by apply D2, D1; eapply fwd_is_Some|]. cbn [mbind option_bind].
  destruct (set_prev_ok h3 x None) as (h4 & -> & B4 & F4 & D4); [by apply D3, D2, D1; eapply fwd_is_Some|].
  exists h4. split; [done|]. split; [|split]; intros y.
  - by rewrite F4, F3, F2, F1.
  - by rewrite B4, B3, B2, B1.
  - by rewrite D4, D3, D2, D1.
Qed.

(** ** The operations on the sequence *)

(** Nothing changed outside the nodes [l]. *)
Definition others_same (h h' : heap) (l : list Z) : Prop :=
  (∀ y, y ∉ l → fwd h' y = fwd h y ∧ bwd h' y = bwd h y) ∧ ∀ y, is_Some (h' !! y) ↔ is_Some (h !! y).

Lemma dll_targets head (l : list Z) : targets (head :: l ++ [head]) = l ++ [head].
Proof. done. Qed.

Lemma dll_nodup_walk h head l : dll h head l → NoDup (sources (head :: l ++ [head])) ∧ NoDup (targets (head :: l ++ [head])).
Proof.
  intros [Hnd _]. rewrite dll_sources, dll_targets. split; [done|].
  by rewrite <- (Permutation_cons_append l head).
Qed.

(** Every node of a list is allocated. *)
Lemma dll_alloc h head l x : dll h head l → x ∈ head :: l → is_Some (h !! x).
Proof.
  intros [_ Hl] Hx. assert (∃ u y v, head :: l ++ [head] = u ++ x :: y :: v) as (u & y & v & Heq).
  { apply list_elem_of_split in Hx as (l1 & l2 & Hx). change (head :: l ++ [head]) with ((head :: l) ++ [head]). rewrite Hx, <- app_assoc.
    destruct l2 as [|y l2]; eexists l1, _, _; reflexivity. }
  rewrite Heq in Hl. apply links_app in Hl as [_ Hl]. apply links_cons in Hl as (Hf & _). by eapply fwd_is_Some.
Qed.

(** The two neighbours of a place in a list. *)
Lemma dll_split head (l1 l2 : list Z) : ∃ u p n v,
  head :: l1 = u ++ [p] ∧ l2 ++ [head] = n :: v ∧ head :: (l1 ++ l2) ++ [head] = u ++ p :: n :: v.
Proof.
  destruct (@exists_last _ (head :: l1)) as (u & p & Hp); [done|].
  assert (∃ n v, l2 ++ [head] = n :: v) as (n & v & Hn) by (destruct l2; eauto).
  exists u, p, n, v. split; [done|]. split; [done|].
  change (head :: (l1 ++ l2) ++ [head]) with ((head :: (l1 ++ l2)) ++ [head]). rewrite app_comm_cons, Hp, <- !app_assoc. cbn. by rewrite Hn.
Qed.

Lemma list_add_at h newp p head l1 l2 u :
  dll h head (l1 ++ l2) → head :: l1 = u ++ [p] → newp ∉ head :: l1 ++ l2 → is_Some (h !! newp) →
  ∃ h', list_add h newp p = Some h' ∧ dll h' head (l1 ++ newp :: l2) ∧ others_same h h' (newp :: head :: l1 ++ l2).
Proof.
  intros Hd Hp Hnew Halloc. destruct (dll_split head l1 l2) as (u' & p' & n & v & Hp' & Hn & Hw).
  rewrite Hp in Hp'. apply app_inj_tail in Hp' as [<- <-].
  destruct (dll_nodup_walk _ _ _ Hd) as [Hs Ht]. pose proof Hd as [Hnd Hl]. rewrite Hw in Hl, Hs, Ht.
  assert (p ∈ head :: l1 ++ l2) as Hpin by (rewrite app_comm_cons, Hp; set_solver).
  assert (n ∈ head :: l1 ++ l2) as Hnin.
  { destruct l2 as [|b l2]; cbn in Hn; simplify_eq; set_solver. }
  destruct (proj1 (links_app _ _ _ _ _) Hl) as [_ Hl2]. apply links_cons in Hl2 as (Hf & _ & _).
  destruct (list_add_links h newp p n) as (h' & Hadd & F & B & D); [done|by eapply dll_alloc|done|set_solver|set_solver|].
  exists h'. split; [done|]. split; [|split; [|done]].
  - split; [rewrite <- Permutation_middle, Permutation_swap; by constructor|].
    assert (head :: (l1 ++ newp :: l2) ++ [head] = u ++ p :: newp :: n :: v) as ->.
    { change (head :: (l1 ++ newp :: l2) ++ [head]) with (((head :: l1) ++ newp :: l2) ++ [head]). rewrite Hp, <- !app_assoc. cbn. by rewrite Hn. }
    apply (links_insert (fwd h) (bwd h)); try done.
    + rewrite <- Hw. cbn. set_solver.
    + by rewrite F, decide_True.
    + rewrite B, decide_False, decide_True by set_solver. done.
    + rewrite F, decide_False, decide_True by set_solver. done.
    + by rewrite B, decide_True.
    + intros y Hy1 Hy2. by rewrite F, !decide_False.
    + intros y Hy1 Hy2. by rewrite B, !decide_False.
  - intros y Hy. rewrite F, B, !decide_False by set_solver. done.
Qed.

Lemma list_add_spec h newp head l :
  dll h head l → newp ∉ head :: l → is_Some (h !! newp) →
  ∃ h', list_add h newp head = Some h' ∧ dll h' head (newp :: l) ∧ others_same h h' (newp :: head :: l).
Proof. intros Hd. by apply (list_add_at h newp head head [] l []). Qed.

Lemma dll_last h head l : dll h head l → ∃ u p, head :: l = u ++ [p] ∧ bwd h head = Some p.
Proof.
  intros [_ Hl]. destruct (@exists_last _ (head :: l)) as (u & p & Hp); [done|]. exists u, p. split; [done|].
  change (head :: l ++ [head]) with ((head :: l) ++ [head]) in Hl. rewrite Hp, <- app_assoc in Hl. cbn in Hl.
  apply links_app in Hl as [_ Hl]. by apply links_cons in Hl as (_ & Hb & _).
Qed.

Lemma list_add_tail_spec h newp head l :
  dll h head l → newp ∉ head :: l → is_Some (h !! newp) →
  ∃ h', list_add_tail h newp head = Some h' ∧ dll h' head (l ++ [newp]) ∧ others_same h h' (newp :: head :: l).
Proof.
  intros Hd Hnew Ha. destruct (dll_last _ _ _ Hd) as (u & p & Hp & Hb).
  unfold list_add_tail. rewrite (get_prev_bwd _ _ _ Hb). cbn [mbind option_bind].
  destruct (list_add_at h newp p head l [] u) as (h' & H1 & H2 & H3); rewrite ?app_nil_r; try done.
  exists h'. by rewrite app_nil_r in H3.
Qed.

Lemma list_del_spec h head l1 x l2 :
  dll h head (l1 ++ x :: l2) →
  ∃ h', list_del h x = Some h' ∧ dll h' head (l1 ++ l2) ∧ fwd h' x = None ∧ bwd h' x = None ∧
    others_same h h' (head :: l1 ++ x :: l2).
Proof.
  intros Hd. destruct (dll_split head l1 l2) as (u & p & n & v & Hp & Hn & Hw).
  assert (head :: (l1 ++ x :: l2) ++ [head] = u ++ p :: x :: n :: v) as Hwx.
  { change (head :: (l1 ++ x :: l2) ++ [head]) with (((head :: l1) ++ x :: l2) ++ [head]). rewrite Hp, <- !app_assoc. cbn. by rewrite Hn. }
  destruct (dll_nodup_walk _ _ _ Hd) as [Hs Ht]. pose proof Hd as [Hnd Hl]. rewrite Hwx in Hl, Hs, Ht.
  rewrite <- Permutation_middle, Permutation_swap in Hnd. apply NoDup_cons in Hnd as [Hx Hnd].
  assert (p ∈ head :: l1 ++ l2) as Hpin by (rewrite app_comm_cons, Hp; set_solver).
  assert (n ∈ head :: l1 ++ l2) as Hnin by (destruct l2 as [|b l2]; cbn in Hn; simplify_eq; set_solver).
  destruct (proj1 (links_app _ _ _ _ _) Hl) as [_ Hl2]. rewrite !links_cons in Hl2. destruct Hl2 as (_ & Hb & Hf & _ & _).
  destruct (list_del_links h x p n) as (h' & Hdel & F & B & D); [done|done|eapply dll_alloc; [done|set_solver]..|set_solver|set_solver|].
  exists h'. split; [done|]. split; [|split; [by rewrite F, decide_True|split; [by rewrite B, decide_True|split; [|done]]]].
  - split; [done|]. rewrite Hw. apply (links_remove (fwd h) (bwd h) _ _ u p x n v); try done.
    + by rewrite F, decide_False, decide_True by set_solver.
    + by rewrite B, decide_False, decide_True by set_solver.
    + intros y Hy1 Hy2. by rewrite F, !decide_False.
    + intros y Hy1 Hy2. by rewrite B, !decide_False.
  - intros y Hy. rewrite F, B, !decide_False by set_solver. done.
Qed.

(** A node that is in no list: [list_del] leaves it. *)
Lemma list_del_idle h x : is_Some (h !! x) → (fwd h x = None ∨ bwd h x = None) → list_del h x = Some h.
Proof.
  intros [[n p] Hx]. unfold list_del, fwd, bwd, get_prev, get_next. rewrite Hx. cbn.
  intros [-> | ->]; by repeat case_match.
Qed.

Lemma dll_first h head l : dll h head l → fwd h head = Some (default head (list.head l)).
Proof. intros [_ Hl]. destruct l as [|x l]; cbn in Hl |- *; tauto. Qed.

Lemma list_empty_spec h head l : dll h head l → list_empty h head = Some (match l with [] => true | _ => false end).
Proof.
  intros Hd. unfold list_empty. rewrite (get_next_fwd _ _ _ (dll_first _ _ _ Hd)). cbn [mbind option_bind].
  f_equal. destruct l as [|x l]; cbn; [by apply bool_decide_true|]. apply bool_decide_false.
  destruct Hd as [Hnd _]. apply NoDup_cons in Hnd as [Hnd _]. set_solver.
Qed.

Lemma list_get_first_spec h head x l : dll h head (x :: l) → list_get_first h head = Some (Some x).
Proof. intros Hd. apply get_next_fwd. by rewrite (dll_first _ _ _ Hd). Qed.

Lemma INIT_LIST_HEAD_spec h x : is_Some (h !! x) →
  ∃ h', INIT_LIST_HEAD h x = Some h' ∧ dll h' x [] ∧ others_same h h' [x].
Proof.
  intros Hx. unfold INIT_LIST_HEAD. destruct (set_next_ok h x (Some x) Hx) as (h1 & -> & F1 & B1 & D1). cbn [mbind option_bind].
  destruct (set_prev_ok h1 x (Some x)) as (h2 & -> & B2 & F2 & D2); [by apply D1|].
  exists h2. split; [done|]. split; [|split].
  - split; [apply NoDup_singleton|]. cbn. rewrite F2, F1, B2, !decide_True by done. done.
  - intros y Hy. rewrite F2, F1, B2, B1, !decide_False by set_solver. done.
  - intros y. by rewrite D2, D1.
Qed.

(** ** Hash lists *)

(** Where a pointer to a node is stored: in a head, or in the [next] field of a node. *)
Inductive hloc := H_first (head : Z) | H_next (node : Z).

Record hlist_node := mk_hnode { hnext : option Z; pprev : option hloc }.
Record hmem := mk_hmem { hnodes : gmap Z hlist_node; hfirst : gmap Z (option Z) }.

#[global] Instance hloc_eq_dec : EqDecision hloc.
Proof. solve_decision. Defined.

(** [*pp] as a load and as a store; the fields of a node. *)
Definition hload (m : hmem) (pp : hloc) : option (option Z) :=
  match pp with H_first h => hfirst m !! h | H_next x => n ← hnodes m !! x; Some (hnext n) end.
Definition hstore (m : hmem) (pp : hloc) (v : option Z) : option hmem :=
  match pp with
  | H_first h => _ ← hfirst m !! h; Some (mk_hmem (hnodes m) (<[h := v]> (hfirst m)))
  | H_next x => n ← hnodes m !! x; Some (mk_hmem (<[x := mk_hnode v (pprev n)]> (hnodes m)) (hfirst m))
  end.
Definition get_pprev (m : hmem) (x : Z) : option (option hloc) := n ← hnodes m !! x; Some (pprev n).
Definition set_pprev (m : hmem) (x : Z) (v : option hloc) : option hmem :=
  n ← hnodes m !! x; Some (mk_hmem (<[x := mk_hnode (hnext n) v]> (hnodes m)) (hfirst m)).

Definition hlist_del_init (m : hmem) (n : Z) : option hmem :=
  next_node ← hload m (H_next n);
  pp ← get_pprev m n;
  match pp, next_node with
  | None, None => Some m
  | _, _ =>
      m ← match pp with Some pp => hstore m pp next_node | None => Some m end;
      m ← match next_node with Some x => set_pprev m x pp | None => Some m end;
      m ← hstore m (H_next n) None;
      set_pprev m n None
  end.

Definition hlist_add_before (m : hmem) (node nxt : Z) : option hmem :=
  pp ← get_pprev m nxt;
  m ← set_pprev m node pp;
  m ← hstore m (H_next node) (Some nxt);
  m ← set_pprev m nxt (Some (H_next node));
  pp ← get_pprev m node; pp ← pp;
  hstore m pp (Some node).

Definition hlist_add_after (m : hmem) (node nxt : Z) : option hmem :=
  n ← hload m (H_next node);
  m ← hstore m (H_next nxt) n;
  m ← hstore m (H_next node) (Some nxt);
  m ← set_pprev m nxt (Some (H_next node));
  n ← hload m (H_next nxt);
  match n with Some x => set_pprev m x (Some (H_next nxt)) | None => Some m end.

Definition hlist_add_head (m : hmem) (node h : Z) : option hmem :=
  first ← hload m (H_first h);
  m ← hstore m (H_next node) first;
  m ← match first with Some x => set_pprev m x (Some (H_next node)) | None => Some m end;
  m ← hstore m (H_first h) (Some node);
  set_pprev m node (Some (H_first h)).

Definition hlist_unhashed (m : hmem) (node : Z) : option bool := pp ← get_pprev m node; Some (bool_decide (pp = None)).
Definition hlist_empty (m : hmem) (h : Z) : option bool := f ← hload m (H_first h); Some (bool_decide (f = None)).

(** The nodes from the pointer stored at [at] on. *)
Fixpoint hseg (m : hmem) (at_ : hloc) (l : list Z) : Prop :=
  match l with
  | [] => hload m at_ = Some None
  | x :: l => hload m at_ = Some (Some x) ∧ get_pprev m x = Some (Some at_) ∧ hseg m (H_next x) l
  end.

Definition hlist (m : hmem) (h : Z) (l : list Z) : Prop := NoDup l ∧ hseg m (H_first h) l.

(** *** Loads after stores *)

Lemma hstore_ok m pp v : is_Some (hload m pp) →
  ∃ m', hstore m pp v = Some m' ∧ (∀ q, hload m' q = if decide (q = pp) then Some v else hload m q) ∧
    ∀ x, get_pprev m' x = get_pprev m x.
Proof.
  destruct pp as [h|x]; cbn; intros [w Hw].
  - rewrite Hw. eexists. split; [done|]. split; [|done]. intros [h'|x]; cbn; [|by rewrite decide_False].
    destruct (decide (h' = h)) as [->|Hne]; [by rewrite lookup_insert_eq, decide_True|].
    rewrite lookup_insert_ne, decide_False by congruence. done.
  - destruct (hnodes m !! x) as [n|] eqn:Hx; [|done]. eexists. split; [done|]. split.
    + intros [h'|y]; cbn; [by rewrite decide_False|].
      destruct (decide (y = x)) as [->|Hne]; [by rewrite lookup_insert_eq, decide_True|].
      rewrite lookup_insert_ne, decide_False by congruence. done.
    + intros y. unfold get_pprev. cbn. destruct (decide (y = x)) as [->|Hne]; [by rewrite lookup_insert_eq, Hx|by rewrite lookup_insert_ne].
Qed.

Lemma set_pprev_ok m x v : is_Some (get_pprev m x) →
  ∃ m', set_pprev m x v = Some m' ∧ (∀ y, get_pprev m' y = if decide (y = x) then Some v else get_pprev m y) ∧
    ∀ q, hload m' q = hload m q.
Proof.
  unfold get_pprev, set_pprev. destruct (hnodes m !! x) as [n|] eqn:Hx; [|by intros [? ?]]. intros _. cbn [mbind option_bind].
  eexists. split; [done|]. split.
  - intros y. cbn. destruct (decide (y = x)) as [->|Hne]; [by rewrite lookup_insert_eq|by rewrite lookup_insert_ne].
  - intros [h|y]; cbn; [done|]. destruct (decide (y = x)) as [->|Hne]; [by rewrite lookup_insert_eq, Hx|by rewrite lookup_insert_ne].
Qed.

Lemma hload_next m x : is_Some (hload m (H_next x)) ↔ is_Some (get_pprev m x).
Proof. cbn. unfold get_pprev. destruct (hnodes m !! x); cbn; [split; intros _; by eexists|done]. Qed.

(** *** Segments *)

(** The location of the pointer after the nodes [l], and the nodes up to it. *)
Fixpoint end_loc (at_ : hloc) (l : list Z) : hloc :=
  match l with [] => at_ | x :: l => end_loc (H_next x) l end.
Fixpoint hpath (m : hmem) (at_ : hloc) (l : list Z) : Prop :=
  match l with
  | [] => True
  | x :: l => hload m at_ = Some (Some x) ∧ get_pprev m x = Some (Some at_) ∧ hpath m (H_next x) l
  end.

Lemma hseg_app m at_ l1 l2 : hseg m at_ (l1 ++ l2) ↔ hpath m at_ l1 ∧ hseg m (end_loc at_ l1) l2.
Proof. revert at_. induction l1 as [|x l1 IH]; intros at_; cbn; [tauto|]. rewrite IH. tauto. Qed.

Lemma hseg_frame m m' at_ l :
  hseg m at_ l → hload m' at_ = hload m at_ → (∀ x, x ∈ l → hload m' (H_next x) = hload m (H_next x) ∧ get_pprev m' x = get_pprev m x) →
  hseg m' at_ l.
Proof.
  revert at_. induction l as [|x l IH]; intros at_ Hl Hat Hsame; cbn in *; [congruence|].
  destruct Hl as (H1 & H2 & H3). destruct (Hsame x) as [Hx1 Hx2]; [left|].
  split; [congruence|]. split; [congruence|]. apply IH; [done|done|]. intros y Hy. apply Hsame. by right.
Qed.

Lemma hpath_frame m m' at_ l :
  hpath m at_ l → (∀ q, q ≠ end_loc at_ l → (q = at_ ∨ ∃ x, x ∈ l ∧ q = H_next x) → hload m' q = hload m q) →
  (∀ x, x ∈ l → get_pprev m' x = get_pprev m x) → NoDup l → (∀ x, x ∈ l → at_ ≠ H_next x) → hpath m' at_ l.
Proof.
  revert at_. induction l as [|x l IH]; intros at_ Hl Hload Hpp Hnd Hat; cbn in *; [done|].
  destruct Hl as (H1 & H2 & H3). apply NoDup_cons in Hnd as [Hx Hnd]. split; [|split].
  - rewrite Hload; [done| |by left]. intros Heq. clear -Heq Hat Hx.
    assert (∀ l y, end_loc (H_next y) l = H_next y ∨ ∃ z, z ∈ l ∧ end_loc (H_next y) l = H_next z) as Hend.
    { induction l0 as [|a l0 IH0]; intros y; cbn; [by left|]. right. destruct (IH0 a) as [->|(z & Hz & ->)]; [exists a|exists z]; set_solver. }
    destruct (Hend l x) as [He|(z & Hz & He)]; rewrite He in Heq; [apply (Hat x)|apply (Hat z)]; set_solver.
  - rewrite Hpp; [done|left].
  - apply IH; [done| | |done|].
    + intros q Hq [->|(y & Hy & ->)]; apply Hload; auto; right; [exists x|exists y]; set_solver.
    + intros y Hy. apply Hpp. by right.
    + intros y Hy [= ->]. done.
Qed.

Lemma end_loc_in at_ l : end_loc at_ l = at_ ∨ ∃ z, z ∈ l ∧ end_loc at_ l = H_next z.
Proof.
  revert at_. induction l as [|a l IH]; intros at_; cbn; [by left|]. right.
  destruct (IH (H_next a)) as [->|(z & Hz & ->)]; [exists a|exists z]; set_solver.
Qed.

Lemma end_loc_ne h l x : x ∉ l → end_loc (H_first h) l ≠ H_next x.
Proof. intros Hx. destruct (end_loc_in (H_first h) l) as [->|(z & Hz & ->)]; [done|]. by intros [= ->]. Qed.

(** Changing a list behind its first nodes [l1]. *)
Lemma hlist_change m m' h l1 l2 l2' :
  hlist m h (l1 ++ l2) → NoDup (l1 ++ l2') → hseg m' (end_loc (H_first h) l1) l2' →
  (∀ q, q ≠ end_loc (H_first h) l1 → (q = H_first h ∨ ∃ x, x ∈ l1 ∧ q = H_next x) → hload m' q = hload m q) →
  (∀ x, x ∈ l1 → get_pprev m' x = get_pprev m x) → hlist m' h (l1 ++ l2').
Proof.
  intros [_ Hs] Hnd Hs' Hl Hp. split; [done|]. apply hseg_app in Hs as [Hpath _]. apply hseg_app. split; [|done].
  apply (hpath_frame m); try done. by apply NoDup_app in Hnd as (? & _).
Qed.

(** [hseg] gives the node of every element. *)
Lemma hseg_pprev m at_ l x : hseg m at_ l → x ∈ l → is_Some (get_pprev m x).
Proof.
  revert at_. induction l as [|y l IH]; intros at_ Hs Hx; [by apply elem_of_nil in Hx|]. destruct Hs as (_ & H2 & H3).
  apply elem_of_cons in Hx as [->|Hx]; [by eexists|by eapply IH].
Qed.
Lemma hseg_load m at_ l : hseg m at_ l → hload m at_ = Some (list.head l).
Proof. destruct l; cbn; tauto. Qed.

(** The update of the node that follows, if there is one. *)
Lemma set_pprev_head m o v : (∀ x, o = Some x → is_Some (get_pprev m x)) →
  ∃ m', match o with Some x => set_pprev m x v | None => Some m end = Some m' ∧ (∀ q, hload m' q = hload m q) ∧
    ∀ y, get_pprev m' y = if decide (o = Some y) then Some v else get_pprev m y.
Proof.
  intros Ho. destruct o as [x|]; [|exists m; split; [done|]; split; [done|]; intros y; by rewrite decide_False].
  destruct (set_pprev_ok m x v (Ho x eq_refl)) as (m' & -> & P & L). exists m'. split; [done|]. split; [done|].
  intros y. rewrite P. repeat case_decide; congruence.
Qed.

Lemma hlist_add_head_spec m h l node :
  hlist m h l → node ∉ l → is_Some (get_pprev m node) →
  ∃ m', hlist_add_head m node h = Some m' ∧ hlist m' h (node :: l).
Proof.
  intros [Hnd Hs] Hn Halloc. unfold hlist_add_head. pose proof (hseg_load _ _ _ Hs) as Hfirst. rewrite Hfirst. cbn [mbind option_bind].
  destruct (hstore_ok m (H_next node) (list.head l)) as (m1 & -> & L1 & P1); [by apply hload_next|]. cbn [mbind option_bind].
  destruct (set_pprev_head m1 (list.head l) (Some (H_next node))) as (m2 & -> & L2 & P2).
  { intros x Hx. rewrite P1. eapply hseg_pprev; [done|]. destruct l; simplify_eq/=. left. }
  cbn [mbind option_bind].
  destruct (hstore_ok m2 (H_first h) (Some node)) as (m3 & -> & L3 & P3); [rewrite L2, L1, decide_False, Hfirst by done; by eexists|]. cbn [mbind option_bind].
  destruct (set_pprev_ok m3 node (Some (H_first h))) as (m4 & -> & P4 & L4).
  { rewrite P3, P2, P1. case_decide; [by eexists|done]. }
  exists m4. split; [done|]. split; [by constructor|]. cbn [hseg].
  split; [by rewrite L4, L3, decide_True|]. split; [by rewrite P4, decide_True|].
  assert (Hnode : hload m4 (H_next node) = Some (list.head l)) by (by rewrite L4, L3, L2, L1, decide_False, decide_True).
  destruct l as [|x l]; [done|]. destruct Hs as (_ & _ & Hs). cbn [list.head] in *.
  apply NoDup_cons in Hnd as [Hx Hnd]. cbn [hseg]. split; [done|]. split.
  - rewrite P4, decide_False, P3, P2, decide_True by (congruence || set_solver). done.
  - eapply hseg_frame; [exact Hs| |].
    + rewrite L4, L3, L2, L1, !decide_False by (set_solver || congruence). done.
    + intros y Hy. rewrite L4, L3, L2, L1, P4, P3, P2, P1, !decide_False by (set_solver || congruence). done.
Qed.

Lemma hlist_del_init_spec m h l1 x l2 :
  hlist m h (l1 ++ x :: l2) →
  ∃ m', hlist_del_init m x = Some m' ∧ hlist m' h (l1 ++ l2) ∧ hload m' (H_next x) = Some None ∧ get_pprev m' x = Some None.
Proof.
  intros Hl. pose proof Hl as [Hnd Hs]. apply hseg_app in Hs as [_ (Hat & Hpp & Hs)]. set (E := end_loc (H_first h) l1) in *.
  pose proof Hnd as (_ & Hdis & [Hx Hnd2]%NoDup_cons)%NoDup_app.
  assert (Hx1 : x ∉ l1) by (intros ?; by apply (Hdis x); [|left]).
  pose proof (end_loc_ne h l1 x Hx1) as HEx. fold E in HEx.
  unfold hlist_del_init. rewrite (hseg_load _ _ _ Hs), Hpp. cbn [mbind option_bind].
  destruct (hstore_ok m E (list.head l2)) as (m1 & -> & L1 & P1); [rewrite Hat; by eexists|]. cbn [mbind option_bind].
  destruct (set_pprev_head m1 (list.head l2) (Some E)) as (m2 & -> & L2 & P2).
  { intros y Hy. rewrite P1. eapply hseg_pprev; [exact Hs|]. destruct l2; simplify_eq/=. left. }
  assert (Hxl2 : list.head l2 ≠ Some x) by (destruct l2; cbn; [done|]; intros [= ->]; set_solver).
  cbn [mbind option_bind]. destruct (hstore_ok m2 (H_next x) None) as (m3 & -> & L3 & P3).
  { rewrite L2, L1. case_decide; [by eexists|]. rewrite (hseg_load _ _ _ Hs). by eexists. }
  cbn [mbind option_bind]. destruct (set_pprev_ok m3 x None) as (m4 & -> & P4 & L4).
  { rewrite P3, P2, P1. case_decide; [by eexists|]. rewrite Hpp. by eexists. }
  exists m4. split; [done|]. split; [|split; [by rewrite L4, L3, decide_True|by rewrite P4, decide_True]].
  assert (Hload : ∀ q, q ≠ E → q ≠ H_next x → hload m4 q = hload m q) by (intros q H1 H2; by rewrite L4, L3, L2, L1, !decide_False).
  assert (HE : hload m4 E = Some (list.head l2)) by (by rewrite L4, L3, L2, L1, decide_False, decide_True).
  assert (Hp : ∀ y, y ≠ x → list.head l2 ≠ Some y → get_pprev m4 y = get_pprev m y) by (intros y H1 H2; by rewrite P4, P3, P2, P1, !decide_False).
  apply (hlist_change m m4 h l1 (x :: l2) l2); [done|eapply sublist_NoDup; [exact Hnd|by apply sublist_app; [|apply sublist_cons]]|..].
  - fold E. destruct l2 as [|y l2]; [done|]. destruct Hs as (_ & _ & Hs). cbn [hseg list.head] in *. split; [done|].
    split; [rewrite P4, decide_False, P3, P2, decide_True by set_solver; done|].
    apply NoDup_cons in Hnd2 as [Hy Hnd2]. assert (∀ z, z ∈ y :: l2 → E ≠ H_next z) as HEz by (intros z Hz; apply end_loc_ne; set_solver).
    eapply hseg_frame; [exact Hs|apply Hload; [apply not_eq_sym, HEz; left|set_solver]|].
    intros z Hz. split; [apply Hload; [apply not_eq_sym, HEz; by right|set_solver]|]. apply Hp; set_solver.
  - intros q Hq [->|(y & Hy & ->)]; apply Hload; try done. intros [= ->]. done.
  - intros y Hy. apply Hp; [set_solver|]. destruct l2; cbn; [done|]. intros [= ->]. apply (Hdis y); set_solver.
Qed.

Lemma nodup_insert (l1 l2 : list Z) x : NoDup (l1 ++ l2) → x ∉ l1 ++ l2 → NoDup (l1 ++ x :: l2).
Proof. intros H1 H2. rewrite <- Permutation_middle. by constructor. Qed.

Lemma hlist_add_before_spec m h l1 nxt l2 node :
  hlist m h (l1 ++ nxt :: l2) → node ∉ l1 ++ nxt :: l2 → is_Some (get_pprev m node) →
  ∃ m', hlist_add_before m node nxt = Some m' ∧ hlist m' h (l1 ++ node :: nxt :: l2).
Proof.
  intros Hl Hn Ha. pose proof Hl as [Hnd Hs]. apply hseg_app in Hs as [_ (Hat & Hpp & Hs)]. set (E := end_loc (H_first h) l1) in *.
  pose proof Hnd as (_ & Hdis & [Hx Hnd2]%NoDup_cons)%NoDup_app.
  assert (HEz : ∀ z, z ∉ l1 → E ≠ H_next z) by (intros z Hz; by apply end_loc_ne).
  unfold hlist_add_before. rewrite Hpp. cbn [mbind option_bind].
  destruct (set_pprev_ok m node (Some E) Ha) as (m1 & -> & P1 & L1). cbn [mbind option_bind].
  destruct (hstore_ok m1 (H_next node) (Some nxt)) as (m2 & -> & L2 & P2); [rewrite L1; by apply hload_next|]. cbn [mbind option_bind].
  destruct (set_pprev_ok m2 nxt (Some (H_next node))) as (m3 & -> & P3 & L3).
  { rewrite P2, P1. case_decide; [by eexists|]. rewrite Hpp. by eexists. }
  cbn [mbind option_bind]. rewrite P3, decide_False, P2, P1, decide_True by set_solver. cbn [mbind option_bind].
  destruct (hstore_ok m3 E (Some node)) as (m4 & -> & L4 & P4).
  { rewrite L3, L2, L1. case_decide; [by eexists|]. rewrite Hat. by eexists. }
  exists m4. split; [done|].
  assert (Hload : ∀ q, q ≠ E → q ≠ H_next node → hload m4 q = hload m q) by (intros q H1 H2; by rewrite L4, L3, L2, L1, !decide_False).
  assert (Hp : ∀ y, y ≠ node → y ≠ nxt → get_pprev m4 y = get_pprev m y) by (intros y H1 H2; by rewrite P4, P3, P2, P1, !decide_False).
  apply (hlist_change m m4 h l1 (nxt :: l2)); [done|by apply nodup_insert|..]; fold E.
  - cbn [hseg]. split; [by rewrite L4, decide_True|]. split; [rewrite P4, P3, decide_False, P2, P1, decide_True by set_solver; done|].
    split; [rewrite L4, L3, L2, decide_False, decide_True by (done || apply not_eq_sym, HEz; set_solver); done|].
    split; [by rewrite P4, P3, decide_True|].
    eapply hseg_frame; [exact Hs|apply Hload; [apply not_eq_sym, HEz; set_solver|set_solver]|].
    intros z Hz. split; [apply Hload; [apply not_eq_sym, HEz; set_solver|set_solver]|apply Hp; set_solver].
  - intros q Hq [->|(y & Hy & ->)]; apply Hload; try done. intros [= ->]. set_solver.
  - intros y Hy. apply Hp; set_solver.
Qed.

Lemma end_loc_snoc at_ l x : end_loc at_ (l ++ [x]) = H_next x.
Proof. revert at_. induction l; intros at_; cbn; auto. Qed.

Lemma hlist_add_after_spec m h l1 node l2 nxt :
  hlist m h (l1 ++ node :: l2) → nxt ∉ l1 ++ node :: l2 → is_Some (get_pprev m nxt) →
  ∃ m', hlist_add_after m node nxt = Some m' ∧ hlist m' h (l1 ++ node :: nxt :: l2).
Proof.
  intros Hl Hn Ha. replace (l1 ++ node :: l2) with ((l1 ++ [node]) ++ l2) in Hl, Hn by (by rewrite <- app_assoc).
  replace (l1 ++ node :: nxt :: l2) with ((l1 ++ [node]) ++ nxt :: l2) by (by rewrite <- app_assoc).
  pose proof Hl as [Hnd Hs]. apply hseg_app in Hs as [_ Hs]. rewrite end_loc_snoc in Hs.
  pose proof Hnd as (_ & Hdis & Hnd2)%NoDup_app. assert (Hnode : node ∉ l2) by set_solver.
  unfold hlist_add_after. rewrite (hseg_load _ _ _ Hs). cbn [mbind option_bind].
  destruct (hstore_ok m (H_next nxt) (list.head l2)) as (m1 & -> & L1 & P1); [by apply hload_next|]. cbn [mbind option_bind].
  destruct (hstore_ok m1 (H_next node) (Some nxt)) as (m2 & -> & L2 & P2).
  { rewrite L1. case_decide; [by eexists|]. rewrite (hseg_load _ _ _ Hs). by eexists. }
  cbn [mbind option_bind]. destruct (set_pprev_ok m2 nxt (Some (H_next node))) as (m3 & -> & P3 & L3); [by rewrite P2, P1|]. cbn [mbind option_bind].
  assert (hload m3 (H_next nxt) = Some (list.head l2)) as Hnl by (rewrite L3, L2, decide_False, L1, decide_True by (done || intros [= ->]; set_solver); done).
  rewrite Hnl. cbn [mbind option_bind].
  destruct (set_pprev_head m3 (list.head l2) (Some (H_next nxt))) as (m4 & -> & L4 & P4).
  { intros y Hy. rewrite P3. case_decide; [by eexists|]. rewrite P2, P1. eapply hseg_pprev; [exact Hs|]. destruct l2; simplify_eq/=. left. }
  exists m4. split; [done|].
  assert (Hload : ∀ q, q ≠ H_next node → q ≠ H_next nxt → hload m4 q = hload m q) by (intros q H1 H2; by rewrite L4, L3, L2, L1, !decide_False).
  assert (Hp : ∀ y, y ≠ nxt → list.head l2 ≠ Some y → get_pprev m4 y = get_pprev m y) by (intros y H1 H2; by rewrite P4, P3, P2, P1, !decide_False).
  apply (hlist_change m m4 h (l1 ++ [node]) l2); [done|by apply nodup_insert|..]; rewrite ?end_loc_snoc.
  - cbn [hseg]. split; [by rewrite L4, L3, L2, decide_True|]. split.
    { rewrite P4, decide_False, P3, decide_True by (done || (destruct l2; cbn; [done|]; intros [= ->]; set_solver)). done. }
    destruct l2 as [|y l2]; [cbn [hseg]; by rewrite L4|]. destruct Hs as (_ & _ & Hs). cbn [hseg list.head] in *. split; [by rewrite L4|].
    split; [by rewrite P4, decide_True|]. apply NoDup_cons in Hnd2 as [Hy Hnd2].
    eapply hseg_frame; [exact Hs|apply Hload; congruence || set_solver|].
    intros z Hz. split; [apply Hload; intros [= ->]; set_solver|apply Hp; [set_solver|]]. intros [= ->]. done.
  - intros q Hq [->|(y & Hy & ->)]; apply Hload; try done. intros [= ->]. set_solver.
  - intros y Hy. apply Hp; [set_solver|]. destruct l2; cbn; [done|]. intros [= ->]. apply (Hdis y); set_solver.
Qed.

(** A list survives an operation on other nodes. *)
Lemma dll_others h h' head l k : dll h head l → others_same h h' k → (∀ x, x ∈ head :: l → x ∉ k) → dll h' head l.
Proof. intros Hd [Hs _] Hk. eapply dll_frame; [done|]. intros x Hx. by apply Hs, Hk. Qed.

(** The link out of the node before a place, and the link back into it. *)
Lemma dll_next_at h head l1 l2 u p : dll h head (l1 ++ l2) → head :: l1 = u ++ [p] → fwd h p = Some (default head (list.head l2)).
Proof.
  intros [_ Hl] Hp. destruct (dll_split head l1 l2) as (u' & p' & n & v & Hp' & Hn & Hw).
  rewrite Hp in Hp'. apply app_inj_tail in Hp' as [<- <-]. rewrite Hw in Hl. apply links_app in Hl as [_ Hl].
  apply links_cons in Hl as (Hf & _). rewrite Hf. destruct l2; cbn in Hn; by simplify_eq.
Qed.

Lemma dll_prev_at h head l1 x l2 u p : dll h head (l1 ++ x :: l2) → head :: l1 = u ++ [p] → bwd h x = Some p.
Proof.
  intros [_ Hl] Hp. change (head :: (l1 ++ x :: l2) ++ [head]) with (((head :: l1) ++ x :: l2) ++ [head]) in Hl.
  rewrite Hp, <- !app_assoc in Hl. cbn in Hl. apply links_app in Hl as [_ Hl]. by apply links_cons in Hl as (_ & Hb & _).
Qed.

(** ** Sequences of operations *)

Inductive list_op := L_add (x : Z) | L_add_tail (x : Z) | L_del (x : Z).

Definition list_do (head : Z) (h : heap) (o : list_op) : option heap :=
  match o with L_add x => list_add h x head | L_add_tail x => list_add_tail h x head | L_del x => list_del h x end.
Definition seq_do (l : list Z) (o : list_op) : list Z :=
  match o with L_add x => x :: l | L_add_tail x => l ++ [x] | L_del x => filter (λ y, y ≠ x) l end.
(** Only nodes outside the list are added; a node that was never linked or was removed may be removed again. *)
Definition list_op_ok (h : heap) (head : Z) (l : list Z) (o : list_op) : Prop :=
  match o with
  | L_add x | L_add_tail x => (x ∉ head :: l) ∧ is_Some (h !! x)
  | L_del x => x ∈ l ∨ (is_Some (h !! x) ∧ x ≠ head ∧ fwd h x = None)
  end.

Inductive list_run (head : Z) : heap → list Z → list list_op → heap → list Z → Prop :=
| lr_nil h l : list_run head h l [] h l
| lr_cons h h1 h2 l l2 o os : list_op_ok h head l o → list_do head h o = Some h1 →
    list_run head h1 (seq_do l o) os h2 l2 → list_run head h l (o :: os) h2 l2.

Lemma list_do_spec h head l o : dll h head l → list_op_ok h head l o →
  ∃ h', list_do head h o = Some h' ∧ dll h' head (seq_do l o).
Proof.
  intros Hd Hok. destruct o as [x|x|x]; cbn in *.
  - destruct Hok as [Hx Hs]. destruct (list_add_spec h x head l Hd Hx Hs) as (h' & ? & ? & _). eauto.
  - destruct Hok as [Hx Hs]. destruct (list_add_tail_spec h x head l Hd Hx Hs) as (h' & ? & ? & _). eauto.
  - destruct (decide (x ∈ l)) as [(l1 & l2 & ->)%list_elem_of_split|Hn].
    + destruct (list_del_spec h head l1 x l2 Hd) as (h' & ? & ? & _). exists h'. split; [done|].
      rewrite filter_ne_mid; [done|]. by destruct Hd as [[_ Hnd]%NoDup_cons _].
    + destruct Hok as [?|(Hs & Hne & Hf)]; [done|]. exists h. rewrite list_del_idle by auto. by rewrite filter_ne_absent.
Qed.

(** C32: From an initialised head on, every sequence of insertions of unlinked nodes and of removals is
    defined and leaves the circular list of exactly the nodes the same operations give on a sequence, readable in both directions;
    [list_empty] and [list_get_first] answer for that sequence. *)
Theorem list_ops_simulate h0 h1 h2 head ops l :
  is_Some (h0 !! head) → INIT_LIST_HEAD h0 head = Some h1 → list_run head h1 [] ops h2 l →
  l = foldl seq_do [] ops ∧ dll h2 head l ∧
  list_empty h2 head = Some (match l with [] => true | _ => false end) ∧
  list_get_first h2 head = Some (Some (default head (list.head l))) ∧
  ∀ o, list_op_ok h2 head l o → is_Some (list_do head h2 o).
Proof.
  intros Hs H0 Hrun. destruct (INIT_LIST_HEAD_spec h0 head Hs) as (h & Hh & Hd & _). rewrite H0 in Hh. injection Hh as <-.
  assert (l = foldl seq_do [] ops ∧ dll h2 head l) as [Hl Hd2].
  { clear H0 Hs. induction Hrun as [|h h1' h2 l l2 o os Hok Hdo _ IH]; [done|].
    destruct (list_do_spec h head l o Hd Hok) as (h' & Hh' & Hd'). rewrite Hdo in Hh'. injection Hh' as <-. by apply IH. }
  split; [done|]. split; [done|]. split; [by apply list_empty_spec|]. split.
  - unfold list_get_first. apply get_next_fwd. by apply dll_first.
  - intros o Hok. destruct (list_do_spec h2 head l o Hd2 Hok) as (h' & -> & _). by eexists.
Qed.

Definition ex_heap : heap := list_to_map ((λ x, (x, mk_node None None)) <$> [1; 10; 11]).
Definition ex_heap1 : heap := Eval vm_compute in default ex_heap (INIT_LIST_HEAD ex_heap 1).

Lemma list_ops_simulate_witness : ∃ h, list_run 1 ex_heap1 [] [L_add 10; L_add_tail 11; L_del 10] h [11] ∧ dll h 1 [11].
Proof.
  eexists. assert (∀ P Q : Prop, P → (P → Q) → P ∧ Q) as Hand by tauto. apply Hand.
  - eapply lr_cons; [split; [set_solver|by vm_compute; eauto]|vm_compute; reflexivity|].
    eapply lr_cons; [split; [set_solver|by vm_compute; eauto]|vm_compute; reflexivity|].
    eapply lr_cons; [left; set_solver|vm_compute; reflexivity|]. apply lr_nil.
  - intros Hrun. eapply (list_ops_simulate ex_heap ex_heap1 _ 1 _ [11]); [vm_compute; eauto|vm_compute; reflexivity|exact Hrun].
Defined.

Inductive hlist_op := HL_head (x : Z) | HL_before (x at_ : Z) | HL_after (at_ x : Z) | HL_del (x : Z).

Definition hlist_do (h : Z) (m : hmem) (o : hlist_op) : option hmem :=
  match o with
  | HL_head x => hlist_add_head m x h
  | HL_before x y => hlist_add_before m x y
  | HL_after y x => hlist_add_after m y x
  | HL_del x => hlist_del_init m x
  end.
Definition hseq_do (l : list Z) (o : hlist_op) : list Z :=
  match o with
  | HL_head x => x :: l
  | HL_before x y => mbind (λ z, if decide (z = y) then [x; z] else [z]) l
  | HL_after y x => mbind (λ z, if decide (z = y) then [z; x] else [z]) l
  | HL_del x => filter (λ y, y ≠ x) l
  end.
Definition hlist_op_ok (m : hmem) (l : list Z) (o : hlist_op) : Prop :=
  match o with
  | HL_head x => (x ∉ l) ∧ is_Some (get_pprev m x)
  | HL_before x y | HL_after y x => y ∈ l ∧ (x ∉ l) ∧ is_Some (get_pprev m x)
  | HL_del x => x ∈ l ∨ (hload m (H_next x) = Some None ∧ get_pprev m x = Some None)
  end.

Inductive hlist_run (h : Z) : hmem → list Z → list hlist_op → hmem → list Z → Prop :=
| hr_nil m l : hlist_run h m l [] m l
| hr_cons m m1 m2 l l2 o os : hlist_op_ok m l o → hlist_do h m o = Some m1 →
    hlist_run h m1 (hseq_do l o) os m2 l2 → hlist_run h m l (o :: os) m2 l2.

Lemma bind_absent (l : list Z) y (f : Z → list Z) : y ∉ l → mbind (λ z, if decide (z = y) then f z else [z]) l = l.
Proof.
  intros Hy. induction l as [|z l IH]; [done|]. rewrite bind_cons, decide_False by (intros ->; set_solver).
  cbn. f_equal. apply IH. set_solver.
Qed.
Lemma bind_mid (l1 l2 : list Z) y (f : Z → list Z) : NoDup (l1 ++ y :: l2) →
  mbind (λ z, if decide (z = y) then f z else [z]) (l1 ++ y :: l2) = l1 ++ f y ++ l2.
Proof.
  intros (Hn1 & Hd & [Hx Hn2]%NoDup_cons)%NoDup_app. rewrite bind_app, bind_cons, decide_True by done.
  rewrite !bind_absent; set_solver.
Qed.

Lemma hlist_do_spec m h l o : hlist m h l → hlist_op_ok m l o →
  ∃ m', hlist_do h m o = Some m' ∧ hlist m' h (hseq_do l o).
Proof.
  intros Hd Hok. pose proof (proj1 Hd) as Hnd. destruct o as [x|x y|y x|x]; cbn [hlist_do hseq_do hlist_op_ok] in *.
  - destruct Hok as [Hx Hs]. by apply hlist_add_head_spec.
  - destruct Hok as ((l1 & l2 & ->)%list_elem_of_split & Hx & Hs). rewrite bind_mid by done. by apply hlist_add_before_spec.
  - destruct Hok as ((l1 & l2 & ->)%list_elem_of_split & Hx & Hs). rewrite bind_mid by done. by apply hlist_add_after_spec.
  - destruct (decide (x ∈ l)) as [(l1 & l2 & ->)%list_elem_of_split|Hn].
    + destruct (hlist_del_init_spec m h l1 x l2 Hd) as (m' & ? & ? & _). exists m'. by rewrite filter_ne_mid.
    + destruct Hok as [?|[Hl Hp]]; [done|]. exists m. unfold hlist_del_init. rewrite Hl, Hp. cbn. by rewrite filter_ne_absent.
Qed.

Lemma hlist_unhashed_spec m h l x : hlist m h l → x ∈ l → hlist_unhashed m x = Some false.
Proof.
  intros [_ Hs] Hx. unfold hlist_unhashed. revert Hs. generalize (H_first h). induction l as [|y l IH]; [set_solver|].
  intros at_ (_ & Hp & Hs). apply elem_of_cons in Hx as [->|Hx]; [by rewrite Hp|by eapply IH].
Qed.

(** From an empty bucket on, every sequence of insertions of unhashed nodes (at the head, before or
    after a hashed node) and of removals is defined and leaves the hash list of exactly the nodes the same operations
    give on a sequence, every node pointing back at the link that holds it; [hlist_empty] and [hlist_unhashed] answer for it. *)
Lemma hlist_ops_simulate m0 m h ops l :
  hload m0 (H_first h) = Some None → hlist_run h m0 [] ops m l →
  l = foldl hseq_do [] ops ∧ hlist m h l ∧
  hlist_empty m h = Some (match l with [] => true | _ => false end) ∧
  (∀ x, x ∈ l → hlist_unhashed m x = Some false) ∧
  ∀ o, hlist_op_ok m l o → is_Some (hlist_do h m o).
Proof.
  intros H0 Hrun.
  assert (l = foldl hseq_do [] ops ∧ hlist m h l) as [Hl Hd2].
  { assert (hlist m0 h []) as Hd by (split; [constructor|done]). clear H0.
    induction Hrun as [|m0 m1 m2 l l2 o os Hok Hdo _ IH]; [done|].
    destruct (hlist_do_spec m0 h l o Hd Hok) as (m' & Hm' & Hd'). rewrite Hdo in Hm'. injection Hm' as <-. by apply IH. }
  split; [done|]. split; [done|]. split; [|split].
  - unfold hlist_empty. destruct Hd2 as [_ Hs]. rewrite (hseg_load _ _ _ Hs). by destruct l.
  - intros x Hx. by apply (hlist_unhashed_spec m h l).
  - intros o Hok. destruct (hlist_do_spec m h l o Hd2 Hok) as (m' & -> & _). by eexists.
Qed.

Definition ex_hmem : hmem := mk_hmem (list_to_map ((λ x, (x, mk_hnode None None)) <$> [10; 11; 12])) {[ 1 := None ]}.

Lemma hlist_ops_simulate_witness :
  ∃ m, hlist_run 1 ex_hmem [] [HL_head 10; HL_after 10 11; HL_before 12 11; HL_del 10] m [12; 11] ∧ hlist m 1 [12; 11].
Proof.
  eexists. assert (∀ P Q : Prop, P → (P → Q) → P ∧ Q) as Hand by tauto. apply Hand.
  - eapply hr_cons; [split; [set_solver|by vm_compute; eauto]|vm_compute; reflexivity|].
    eapply hr_cons; [split; [|split; [|by vm_compute; eauto]]; set_solver|vm_compute; reflexivity|].
    eapply hr_cons; [split; [|split; [|by vm_compute; eauto]]; vm_compute hseq_do; set_solver|vm_compute; reflexivity|].
    eapply hr_cons; [left; vm_compute hseq_do; set_solver|vm_compute; reflexivity|]. apply hr_nil.
  - intros Hrun. eapply (hlist_ops_simulate ex_hmem _ 1 _ [12; 11]); [vm_compute; reflexivity|exact Hrun].
Defined.
