(* ===== verification/Timer.v ===== *)
(** * The timers (src/src/framework/ipc/ps/nsfw_fd_timer.c)

    A timer is a record of a fixed pool, in the list of running timers or in the
    list of expired ones.  The pool is any queue that meets the contract of [Queue];
    the lists are those of [DList], in one memory.  A timer is named by the address of its
    record, which is the address of the list node at its start. *)
From S2P Require Import Prelude.
From S2P Require Import Queue.
From S2P Require Import Links.
From S2P Require Import DList.

Definition NSFW_TIMER_CYCLE : Z := 1.
Definition NSFW_TIMER_INFO_MAX_COUNT_DEF : Z := 8191.
Definition NSFW_PROC_MAIN : Z := 1.
Definition NSFW_PROC_CTRL : Z := 4.
Definition NSFW_PROC_TOOLS : Z := 5.

(** [nsfw_timer_info] without its node; [fun_] is null or a function. *)
Record nsfw_timer_info := mk_timer {
  fun_ : option Z;
  argv : Z;
  tv_sec : Z;
  tv_nsec : Z;
  timer_type : Z;
  alloc_flag : bool
}.

Definition set_alloc (x : nsfw_timer_info) (b : bool) : nsfw_timer_info :=
  mk_timer (fun_ x) (argv x) (tv_sec x) (tv_nsec x) (timer_type x) b.
Definition set_tv_sec (x : nsfw_timer_info) (s : Z) : nsfw_timer_info :=
  mk_timer (fun_ x) (argv x) s (tv_nsec x) (timer_type x) (alloc_flag x).

Section timer.
Context {Q : Type} `{BoundedQueue Q}.

(** [g_timer_cfg]: the size and the pool; the memory of the nodes and of the records. *)
Record nsfw_timer_init_cfg := mk_cfg {
  timer_info_size : Z;
  timer_info_pool : Q;
  t_heap : heap;
  t_info : gmap Z nsfw_timer_info
}.

Definition set_pool_t (c : nsfw_timer_init_cfg) (q : Q) : nsfw_timer_init_cfg := mk_cfg (timer_info_size c) q (t_heap c) (t_info c).
Definition set_heap (c : nsfw_timer_init_cfg) (h : heap) : nsfw_timer_init_cfg := mk_cfg (timer_info_size c) (timer_info_pool c) h (t_info c).
Definition set_info (c : nsfw_timer_init_cfg) (x : Z) (i : nsfw_timer_info) : nsfw_timer_init_cfg :=
  mk_cfg (timer_info_size c) (timer_info_pool c) (t_heap c) (<[x := i]> (t_info c)).

(** The addresses of the two list heads. *)
Variable timer_head exp_timer_head : Z.

Definition nsfw_timer_reg_timer (c : nsfw_timer_init_cfg) (type data : Z) (fn : option Z) (time_left : Z * Z) : option (option Z * nsfw_timer_init_cfg) :=
  '(n, box, q) ← q_dequeuev (timer_info_pool c) [0] 1;
  let c := set_pool_t c q in
  if n =? 0 then Some (None, c)
  else
    tm ← box !! 0%nat;
    _ ← t_info c !! tm;
    _ ← t_heap c !! tm;
    let c := set_heap c (<[tm := mk_node None None]> (t_heap c)) in
    let c := set_info c tm (mk_timer fn data time_left.1 time_left.2 type false) in
    h ← list_add_tail (t_heap c) tm timer_head;
    let c := set_heap c h in
    i ← t_info c !! tm;
    Some (Some tm, set_info c tm (set_alloc i true)).

Definition nsfw_timer_rmv_timer (c : nsfw_timer_init_cfg) (tm_info : option Z) : option nsfw_timer_init_cfg :=
  match tm_info with
  | None => Some c
  | Some tm =>
      i ← t_info c !! tm;
      if negb (alloc_flag i) then Some c
      else
        let c := set_info c tm (set_alloc i false) in
        h ← list_del (t_heap c) tm;
        let c := set_heap c h in
        '(_, q) ← q_enqueue (timer_info_pool c) tm;
        Some (set_pool_t c q)
  end.

(** *** Expiry *)

(** One pass of the scan: the cursor is [tNode]; null, or the head again, ends it. *)
Definition scan_cond (s : nsfw_timer_init_cfg * option Z) : bool :=
  match s.2 with None => false | Some t => negb (t =? timer_head) end.

Definition scan_step (count : Z) (s : nsfw_timer_init_cfg * option Z) : option (nsfw_timer_init_cfg * option Z) :=
  let '(c, tNode) := s in
  tm ← tNode;
  i ← t_info c !! tm;
  tPretNode ← get_prev (t_heap c) tm;
  if to_i64 (count * NSFW_TIMER_CYCLE) <? tv_sec i then
    let c := set_info c tm (set_tv_sec i (to_i64 (tv_sec i - count * NSFW_TIMER_CYCLE))) in
    n ← get_next (t_heap c) tm; Some (c, n)
  else
    h ← list_del (t_heap c) tm;
    h ← list_add_tail h tm exp_timer_head;
    let c := set_heap c h in
    p ← tPretNode; n ← get_next (t_heap c) p; Some (c, n).

Definition timer_scan (fuel : nat) (count : Z) (c : nsfw_timer_init_cfg) : option nsfw_timer_init_cfg :=
  n ← get_next (t_heap c) timer_head;
  '(c, _) ← while_fuel fuel scan_cond (scan_step count) (c, n);
  Some c.

(** What a callback does to the timers: registrations and removals. *)
Inductive timer_cmd :=
  | T_reg (type data : Z) (fn : option Z) (time_left : Z * Z)
  | T_rmv (tm : option Z).

Definition timer_do (c : nsfw_timer_init_cfg) (cmd : timer_cmd) : option nsfw_timer_init_cfg :=
  match cmd with
  | T_reg type data fn tl => '(_, c) ← nsfw_timer_reg_timer c type data fn tl; Some c
  | T_rmv tm => nsfw_timer_rmv_timer c tm
  end.

Fixpoint timer_do_all (c : nsfw_timer_init_cfg) (cmds : list timer_cmd) : option nsfw_timer_init_cfg :=
  match cmds with [] => Some c | cmd :: cmds => c ← timer_do c cmd; timer_do_all c cmds end.

(** The timer commands of a call of a timer function, by its arguments and the state. *)
Variable callback : Z → Z → Z → nsfw_timer_init_cfg → list timer_cmd.

(** The loop over the expired timers, at most [n] of them; the calls made, in order. *)
Fixpoint timer_fire (n : nat) (c : nsfw_timer_init_cfg) : option (list (Z * Z * Z) * nsfw_timer_init_cfg) :=
  e ← list_empty (t_heap c) exp_timer_head;
  if (e : bool) then Some ([], c)
  else match n with
  | O => Some ([], c)
  | S n =>
      tm ← list_get_first (t_heap c) exp_timer_head; tm ← tm;
      i ← t_info c !! tm;
      '(call, c) ← match fun_ i with
                   | Some f => c ← timer_do_all c (callback f (timer_type i) (argv i) c); Some ([(f, timer_type i, argv i)], c)
                   | None => Some ([], c)
                   end;
      c ← nsfw_timer_rmv_timer c (Some tm);
      '(calls, c) ← timer_fire n c;
      Some (call ++ calls, c)
  end.

Definition nsfw_timer_exp (fuel : nat) (count : Z) (c : nsfw_timer_init_cfg) : option (list (Z * Z * Z) * nsfw_timer_init_cfg) :=
  c ← timer_scan fuel count c;
  timer_fire (Z.to_nat (timer_info_size c)) c.

(** *** The timer descriptor *)

(** What [nsfw_timer_notify_fun] does to descriptors. *)
Inductive sock_action := A_close (fd : Z) | A_unreg (fd : Z) | A_reg (fd : Z).

Definition EPOLLIN : Z := 1.
Definition EPOLLERR : Z := 8.
Definition EPOLLHUP : Z := 16.

(** The descriptor, or -1, and what is closed on the way; [tfd], [cloexec] and [settime] are what [timerfd_create],
    [nsfw_set_close_on_exec] and [timerfd_settime] return. *)
Definition nsfw_get_timer_socket (tfd cloexec settime : Z) : Z * list sock_action :=
  if tfd =? -1 then (-1, [])
  else if cloexec =? -1 then (-1, [A_close tfd])
  else if settime <? 0 then (-1, [A_close tfd])
  else (tfd, []).

(** [reads]: the counts the successive reads of the descriptor deliver until one of them returns 0 or an error. *)
Fixpoint notify_reads (fuel : nat) (reads : list Z) (c : nsfw_timer_init_cfg) : option (list (Z * Z * Z) * nsfw_timer_init_cfg) :=
  match reads with
  | [] => Some ([], c)
  | data :: reads =>
      '(calls, c) ← nsfw_timer_exp fuel data c;
      '(calls', c) ← notify_reads fuel reads c;
      Some (calls ++ calls', c)
  end.

Definition nsfw_timer_notify_fun (fuel : nat) (fd events : Z) (timer_socket : Z * list sock_action) (reads : list Z) (c : nsfw_timer_init_cfg) : option (bool * list sock_action * list (Z * Z * Z) * nsfw_timer_init_cfg) :=
  if negb (Z.land events EPOLLERR =? 0) || negb (Z.land events EPOLLHUP =? 0) || (Z.land events EPOLLIN =? 0) then
    let '(timer_fd, opened) := timer_socket in
    let acts := [A_close fd; A_unreg fd] ++ opened in
    if timer_fd <? 0 then Some (false, acts, [], c)
    else Some (true, acts ++ [A_reg timer_fd], [], c)
  else
    '(calls, c) ← notify_reads fuel reads c;
    Some (true, [], calls, c).

Definition nsfw_timer_start (timer_socket : Z * list sock_action) : bool * list sock_action :=
  let '(timer_fd, opened) := timer_socket in
  if timer_fd <? 0 then (false, opened) else (true, opened ++ [A_reg timer_fd]).

(** [pool]: what [nsfw_mem_sp_create] returns.  No configuration is left for the process types that have no timers. *)
Definition nsfw_timer_module_init (proc_type : Z) (pool : option Q) (timer_socket : Z * list sock_action)
    (h : heap) (info : gmap Z nsfw_timer_info) : option (Z * list sock_action * option nsfw_timer_init_cfg) :=
  if (proc_type =? NSFW_PROC_MAIN) || (proc_type =? NSFW_PROC_TOOLS) || (proc_type =? NSFW_PROC_CTRL) then
    match pool with
    | None => Some (-1, [], None)
    | Some q =>
        h ← INIT_LIST_HEAD h timer_head;
        h ← INIT_LIST_HEAD h exp_timer_head;
        Some (0, (nsfw_timer_start timer_socket).2, Some (mk_cfg NSFW_TIMER_INFO_MAX_COUNT_DEF q h info))
    end
  else Some (0, [], None).
End timer.
