(* ===== verification/TimerProps.v ===== *)
(** * Timers fire once, when they are due, in the order of registration

    The invariant of the timer module (every record is in the pool or in exactly one of the two
    lists), which registrations, removals and expiry keep whatever the
    callbacks do; and what an expiry of [count] cycles fires and leaves. *)
From S2P Require Import Prelude.
From S2P Require Import Queue.
From S2P Require Import Ring.
From S2P Require Import Links.
From S2P Require Import DList.
From S2P Require Import Timer.

Section timer_props.
Context {Q : Type} `{HQ : BoundedQueue Q} (timer_head exp_timer_head : Z).
Implicit Type c : nsfw_timer_init_cfg (Q := Q).

(** Every record, by where it is: in the pool, among the running timers [l], among the expired [el]. *)
Definition timer_all c (l el : list Z) : list Z := q_contents (timer_info_pool c) ++ l ++ el.

(** What never changes. *)
Definition sizes c : Z * Z := (timer_info_size c, q_cap (timer_info_pool c)).

Record timer_inv c (l el : list Z) : Prop := {
  ti_run : dll (t_heap c) timer_head l;
  ti_exp : dll (t_heap c) exp_timer_head el;
  ti_pool : q_inv (timer_info_pool c);
  ti_nodup : NoDup (timer_head :: exp_timer_head :: timer_all c l el);
  ti_cap : Z.of_nat (length (timer_all c l el)) <= q_cap (timer_info_pool c);
  ti_all : ∀ x, is_Some (t_info c !! x) ↔ x ∈ timer_all c l el;
  ti_heap : ∀ x, is_Some (t_info c !! x) → is_Some (t_heap c !! x);
  ti_alloc : ∀ x i, t_info c !! x = Some i → alloc_flag i = bool_decide (x ∈ l ++ el)
}.

(** The invariant after records moved between the three places. *)
Lemma timer_inv_move c c' l el l' el' :
  timer_inv c l el → timer_all c' l' el' ≡ₚ timer_all c l el →
  dll (t_heap c') timer_head l' → dll (t_heap c') exp_timer_head el' →
  q_inv (timer_info_pool c') → q_cap (timer_info_pool c') = q_cap (timer_info_pool c) →
  (∀ x, is_Some (t_info c' !! x) ↔ is_Some (t_info c !! x)) → (∀ x, is_Some (t_heap c !! x) → is_Some (t_heap c' !! x)) →
  (∀ x i, t_info c' !! x = Some i → alloc_flag i = bool_decide (x ∈ l' ++ el')) → timer_inv c' l' el'.
Proof.
  intros [_ _ _ Hnd Hcap Hall Hheap _] Hperm Hr He Hq Hc Hi Hh Ha. split; try done.
  - by rewrite Hperm.
  - by rewrite Hperm, Hc.
  - intros x. by rewrite Hi, Hall, Hperm.
  - intros x Hx. by apply Hh, Hheap, Hi.
Qed.

(** The two lists share no node, nor does the pool with them. *)
Lemma lists_apart c l el : timer_inv c l el → ∀ y, y ∈ exp_timer_head :: el → y ∉ timer_head :: l.
Proof.
  intros Hinv y Hy Hy'. pose proof (ti_nodup _ _ _ Hinv) as Hnd. unfold timer_all in Hnd.
  assert (NoDup ((timer_head :: l) ++ (exp_timer_head :: el) ++ q_contents (timer_info_pool c))) as Hnd'.
  { assert ((timer_head :: l) ++ (exp_timer_head :: el) ++ q_contents (timer_info_pool c) ≡ₚ
      timer_head :: exp_timer_head :: q_contents (timer_info_pool c) ++ l ++ el) as -> by solve_Permutation. done. }
  apply NoDup_app in Hnd' as (_ & Hdis & _). apply (Hdis y Hy'). set_solver.
Qed.

(** *** Registration *)

Lemma pool_take (q : Q) : q_inv q →
  match q_contents q with
  | [] => ∃ q', q_dequeuev q [0] 1 = Some (0, [0], q') ∧ q_inv q' ∧ q_cap q' = q_cap q ∧ q_contents q' = []
  | x :: rest => ∃ q', q_dequeuev q [0] 1 = Some (1, [x], q') ∧ q_inv q' ∧ q_cap q' = q_cap q ∧ q_contents q' = rest
  end.
Proof.
  intros Hq. pose proof (q_dequeuev_spec q [0] 1 Hq) as Hs. unfold fifo_dequeue, is_u32 in Hs.
  specialize (Hs ltac:(lia) ltac:(cbn; lia)). destruct (q_contents q) as [|x rest]; [exact Hs|].
  cbn [length] in Hs. replace (Z.min 1 (Z.of_nat (S (length rest)))) with 1 in Hs by lia. exact Hs.
Qed.

Lemma pool_give (q : Q) x : q_inv q → Z.of_nat (length (q_contents q)) < q_cap q →
  ∃ q', q_enqueue q x = Some (1, q') ∧ q_inv q' ∧ q_cap q' = q_cap q ∧ q_contents q' = q_contents q ++ [x].
Proof.
  intros Hq Hlt. pose proof (q_enqueue_spec q x Hq) as Hs. unfold fifo_enqueue in Hs.
  by rewrite (proj2 (Z.ltb_lt _ _) Hlt) in Hs.
Qed.

(** Clearing the node of a record of the pool. *)
Lemma dll_clear h head l x n : dll h head l → x ∉ head :: l → dll (<[x := n]> h) head l.
Proof.
  intros Hd Hx. eapply dll_frame; [done|]. intros y Hy. unfold fwd, bwd. rewrite lookup_insert_ne by set_solver. done.
Qed.

Lemma reg_timer_spec c l el type data fn tl :
  timer_inv c l el →
  match q_contents (timer_info_pool c) with
  | [] => ∃ c', nsfw_timer_reg_timer timer_head c type data fn tl = Some (None, c') ∧ timer_inv c' l el ∧
            t_info c' = t_info c ∧ sizes c' = sizes c
  | x :: rest => ∃ c', nsfw_timer_reg_timer timer_head c type data fn tl = Some (Some x, c') ∧ timer_inv c' (l ++ [x]) el ∧
            t_info c' = <[x := mk_timer fn data tl.1 tl.2 type true]> (t_info c) ∧ sizes c' = sizes c
  end.
Proof.
  intros Hinv. pose proof Hinv as [Hrun Hexp Hpool Hnd Hcap Hall Hheap Halloc]. pose proof (pool_take _ Hpool) as Htake. unfold timer_all in *.
  destruct (q_contents (timer_info_pool c)) as [|x rest] eqn:Hcont; destruct Htake as (q' & Hq & Hi & Hc & Hr); unfold nsfw_timer_reg_timer; rewrite Hq; cbn [mbind option_bind].
  { eexists. split; [done|]. split; [|split; [done|unfold sizes; cbn; congruence]]. apply (timer_inv_move c _ l el); try done. unfold timer_all. cbn. by rewrite Hr, Hcont. }
  assert ((x ∉ timer_head :: exp_timer_head :: rest ++ l ++ el) ∧ is_Some (t_info c !! x)) as [Hx Hxi].
  { split; [|apply Hall; left]. cbn in Hnd. rewrite (Permutation_swap x exp_timer_head) in Hnd.
    rewrite (Permutation_swap x timer_head) in Hnd. by apply NoDup_cons in Hnd as [? _]. }
  destruct Hxi as [ix Hxi]. destruct (Hheap x) as [nx Hnx]; [by rewrite Hxi|].
  cbn. rewrite Hxi, Hnx. cbn.
  destruct (list_add_tail_spec (<[x := mk_node None None]> (t_heap c)) x timer_head l) as (h & -> & Hr2 & Hsame & Hdom);
    [apply dll_clear; [done|set_solver]|set_solver|by rewrite lookup_insert_eq|]. cbn.
  rewrite lookup_insert_eq. cbn. eexists. split; [done|]. split; [|unfold sizes; cbn; rewrite insert_insert_eq; split; [done|congruence]].
  apply (timer_inv_move c _ l el); try done.
  - unfold timer_all. cbn. rewrite Hr, Hcont. solve_Permutation.
  - cbn. eapply dll_others; [apply (dll_clear (t_heap c) _ _ x (mk_node None None)); [exact Hexp|set_solver]|by split; [exact Hsame|exact Hdom]|].
    intros y Hy. pose proof (lists_apart _ _ _ Hinv y). set_solver.
  - intros y. cbn. rewrite !insert_insert_eq, lookup_insert_is_Some'. set_solver.
  - intros y Hy. cbn. apply Hdom. rewrite lookup_insert_is_Some'. set_solver.
  - intros y i. cbn. rewrite insert_insert_eq. intros [[<- <-]|[Hne Hy]]%lookup_insert_Some; cbn.
    + symmetry. apply bool_decide_true. set_solver.
    + rewrite (Halloc y i Hy). apply bool_decide_ext. set_solver.
Qed.

(** *** Removal *)

Definition without (x : Z) (l : list Z) : list Z := filter (λ y, y ≠ x) l.

Lemma without_notin x l : x ∉ l → without x l = l.
Proof. apply filter_ne_absent. Qed.

Lemma without_split x l1 l2 : NoDup (l1 ++ x :: l2) → without x (l1 ++ x :: l2) = l1 ++ l2.
Proof. apply filter_ne_mid. Qed.

Lemma without_cons_eq x l : x ∉ l → without x (x :: l) = l.
Proof. intros Hx. unfold without. rewrite filter_cons_False by tauto. by apply (without_notin x l). Qed.

(** The unlinking of a timer from whichever list it is in. *)
Lemma unlink_timer c l el x :
  timer_inv c l el → x ∈ l ++ el →
  ∃ h, list_del (t_heap c) x = Some h ∧ dll h timer_head (without x l) ∧ dll h exp_timer_head (without x el) ∧
    (∀ y, is_Some (h !! y) ↔ is_Some (t_heap c !! y)) ∧ l ++ el ≡ₚ x :: without x l ++ without x el.
Proof.
  intros Hinv Hx. pose proof (lists_apart _ _ _ Hinv) as Hap. pose proof Hinv as [Hrun Hexp _ _ _ _ _ _].
  assert (Hnd1 : NoDup l) by (destruct Hrun as [[_ ?]%NoDup_cons _]; done).
  assert (Hnd2 : NoDup el) by (destruct Hexp as [[_ ?]%NoDup_cons _]; done).
  apply elem_of_app in Hx as [Hx|Hx]; pose proof Hx as (l1 & l2 & ->)%list_elem_of_split.
  - rewrite (without_split _ _ _ Hnd1), (without_notin x el) by (intros Hxe; apply (Hap x); set_solver).
    destruct (list_del_spec _ _ _ _ _ Hrun) as (h & -> & Hd & _ & _ & Hsame). exists h. split; [done|]. split; [done|].
    split; [eapply dll_others; [done|exact Hsame|]; intros y Hy; by apply Hap|]. split; [apply Hsame|solve_Permutation].
  - rewrite (without_split _ _ _ Hnd2), (without_notin x l) by (intros Hxe; apply (Hap x); set_solver).
    destruct (list_del_spec _ _ _ _ _ Hexp) as (h & -> & Hd & _ & _ & Hsame). exists h. split; [done|].
    split; [eapply dll_others; [done|exact Hsame|]; intros y Hy Hy'; by apply (Hap y)|]. split; [done|]. split; [apply Hsame|solve_Permutation].
Qed.

Lemma rmv_timer_spec c l el x i :
  timer_inv c l el → t_info c !! x = Some i →
  ∃ c', nsfw_timer_rmv_timer c (Some x) = Some c' ∧ timer_inv c' (without x l) (without x el) ∧
    t_info c' = <[x := set_alloc i false]> (t_info c) ∧ sizes c' = sizes c ∧
    q_contents (timer_info_pool c') = q_contents (timer_info_pool c) ++ (if alloc_flag i then [x] else []).
Proof.
  intros Hinv Hi. pose proof (ti_alloc _ _ _ Hinv x i Hi) as Ha. unfold nsfw_timer_rmv_timer. rewrite Hi. cbn [mbind option_bind].
  destruct (decide (x ∈ l ++ el)) as [Hx|Hx]; [rewrite bool_decide_true in Ha by done|rewrite bool_decide_false in Ha by done]; rewrite Ha; cbn [negb].
  - destruct (unlink_timer c l el x Hinv Hx) as (h & Hdel & Hr & He & Hdom & Hperm).
    change (t_heap (set_info c x (set_alloc i false))) with (t_heap c). rewrite Hdel. cbn [mbind option_bind].
    destruct (pool_give (timer_info_pool c) x) as (q' & Hq & Hqi & Hqc & Hqr); [apply Hinv| |].
    { pose proof (ti_cap _ _ _ Hinv) as Hc. unfold timer_all in Hc. rewrite length_app in Hc. rewrite Hperm in Hc. cbn in Hc. lia. }
    cbn. rewrite Hq. cbn. eexists. split; [done|]. split; [|split; [done|split; [unfold sizes; cbn; congruence|done]]].
    apply (timer_inv_move c _ l el); try done.
    + unfold timer_all. cbn. rewrite Hqr, Hperm. solve_Permutation.
    + intros y. cbn. rewrite lookup_insert_is_Some'. split; [intros [<-|?]; [by rewrite Hi|done]|by right].
    + intros y Hy. cbn. by apply Hdom.
    + intros y j. cbn. intros [[<- <-]|[Hne Hy]]%lookup_insert_Some; cbn.
      * symmetry. apply bool_decide_false. unfold without. rewrite elem_of_app, !list_elem_of_filter. tauto.
      * rewrite (ti_alloc _ _ _ Hinv y j Hy). apply bool_decide_ext. unfold without. rewrite !elem_of_app, !list_elem_of_filter. naive_solver.
  - exists c. split; [done|]. rewrite !without_notin, app_nil_r by set_solver. split; [done|]. split; [|done].
    symmetry. apply insert_id. rewrite Hi. f_equal. destruct i; cbn in *; by subst.
Qed.

(** *** Callbacks *)

(** A callback removes only timers it got from a registration. *)
Definition cmd_ok c (cmd : timer_cmd) : Prop := match cmd with T_rmv (Some x) => is_Some (t_info c !! x) | _ => True end.

(** What a sequence of commands keeps. *)
Definition timer_keeps c el c' : Prop :=
  ∃ l' el', timer_inv c' l' el' ∧ sublist el' el ∧ sizes c' = sizes c ∧
    (∀ x, is_Some (t_info c' !! x) ↔ is_Some (t_info c !! x)).

Lemma without_sublist x l : sublist (without x l) l.
Proof. apply sublist_filter. Qed.

Lemma timer_do_spec c l el cmd : timer_inv c l el → cmd_ok c cmd → ∃ c', timer_do timer_head c cmd = Some c' ∧ timer_keeps c el c'.
Proof.
  intros Hinv Hok. destruct cmd as [type data fn tl|[x|]]; cbn [timer_do].
  - pose proof (reg_timer_spec c l el type data fn tl Hinv) as Hs. pose proof (ti_all _ _ _ Hinv) as Hall. unfold timer_all in Hall.
    destruct (q_contents (timer_info_pool c)) as [|x rest]; destruct Hs as (c' & -> & H1 & H2 & H3); cbn; exists c'; (split; [done|]).
    + exists l, el. rewrite H2. done.
    + exists (l ++ [x]), el. split; [done|]. split; [done|]. split; [done|]. rewrite H2. intros y.
      rewrite lookup_insert_is_Some'. split; [intros [<-|?]; [apply Hall; left|done]|by right].
  - destruct Hok as [i Hi]. destruct (rmv_timer_spec c l el x i Hinv Hi) as (c' & -> & H1 & H2 & H3 & _). exists c'. split; [done|].
    exists (without x l), (without x el). split; [done|]. split; [apply without_sublist|]. split; [done|]. rewrite H2. intros y.
    rewrite lookup_insert_is_Some'. split; [intros [<-|?]; [by rewrite Hi|done]|by right].
  - exists c. split; [done|]. by exists l, el.
Qed.

Lemma timer_do_all_spec c l el cmds : timer_inv c l el → Forall (cmd_ok c) cmds →
  ∃ c', timer_do_all timer_head c cmds = Some c' ∧ timer_keeps c el c'.
Proof.
  revert c l el. induction cmds as [|cmd cmds IH]; intros c l el Hinv Hok; cbn [timer_do_all].
  { exists c. split; [done|]. by exists l, el. }
  apply Forall_cons in Hok as [Hok Hoks].
  destruct (timer_do_spec c l el cmd Hinv Hok) as (c1 & -> & l1 & el1 & H1 & H2 & H3 & H4). cbn [mbind option_bind].
  destruct (IH c1 l1 el1 H1) as (c2 & -> & l2 & el2 & G1 & G2 & G3 & G4).
  { eapply Forall_impl; [exact Hoks|]. intros [| [x|]] Hc; cbn in *; [done|by apply H4|done]. }
  exists c2. split; [done|]. exists l2, el2. split; [done|]. split; [by transitivity el1|]. split; [congruence|].
  intros x. by rewrite G4.
Qed.

(** *** The scan *)

Definition due (count : Z) (c0 : nsfw_timer_init_cfg (Q := Q)) (x : Z) : bool :=
  match t_info c0 !! x with Some i => negb (to_i64 (count * NSFW_TIMER_CYCLE) <? tv_sec i) | None => false end.

(** A record after [count] cycles. *)
Definition aged (count : Z) (i : nsfw_timer_info) : nsfw_timer_info :=
  if to_i64 (count * NSFW_TIMER_CYCLE) <? tv_sec i then set_tv_sec i (to_i64 (tv_sec i - count * NSFW_TIMER_CYCLE)) else i.

(** The scan has passed the timers [P] and is at [rem]. *)
Record scan_inv (count : Z) (c0 : nsfw_timer_init_cfg (Q := Q)) (el0 P rem : list Z) (s : nsfw_timer_init_cfg (Q := Q) * option Z) : Prop := {
  sc_inv : timer_inv s.1 (filter (λ x, due count c0 x = false) P ++ rem) (el0 ++ filter (λ x, due count c0 x = true) P);
  sc_cur : s.2 = Some (default timer_head (list.head rem));
  sc_info : ∀ x, t_info s.1 !! x = if decide (x ∈ P) then aged count <$> t_info c0 !! x else t_info c0 !! x;
  sc_pool : timer_info_pool s.1 = timer_info_pool c0;
  sc_size : timer_info_size s.1 = timer_info_size c0
}.

Lemma alloc_aged count i : alloc_flag (aged count i) = alloc_flag i.
Proof. unfold aged. by case_match. Qed.

Lemma scan_keep count c0 el0 c P x rem i :
  NoDup (P ++ x :: rem) → t_info c0 !! x = Some i → due count c0 x = false →
  scan_inv count c0 el0 P (x :: rem) (c, Some x) →
  ∃ s', scan_step exp_timer_head count (c, Some x) = Some s' ∧ scan_inv count c0 el0 (P ++ [x]) rem s'.
Proof.
  intros HL Hi Hdue [Hinv _ Hinfo Hpl Hsz]. cbn [fst snd] in *. apply NoDup_app in HL as (_ & Hdis & [Hx _]%NoDup_cons).
  assert (HxP : x ∉ P) by (intros HxP; apply (Hdis x HxP); left).
  assert (t_info c !! x = Some i) as Hic by (rewrite Hinfo, decide_False; done).
  unfold due in Hdue. rewrite Hi in Hdue. apply negb_false_iff in Hdue as Hlt.
  set (D := filter _ P) in *. pose proof (ti_run _ _ _ Hinv) as Hrun.
  destruct (@exists_last _ (timer_head :: D)) as (u & p & Hp); [done|].
  unfold scan_step. cbn [mbind option_bind]. rewrite Hic. cbn [mbind option_bind].
  rewrite (get_prev_bwd _ _ _ (dll_prev_at _ _ _ _ _ _ _ Hrun Hp)). cbn [mbind option_bind]. rewrite Hlt.
  assert (fwd (t_heap c) x = Some (default timer_head (list.head rem))) as Hn.
  { apply (dll_next_at (t_heap c) timer_head (D ++ [x]) rem (timer_head :: D)); [by rewrite <- app_assoc|done]. }
  cbn. rewrite (get_next_fwd _ _ _ Hn). cbn. eexists. split; [done|]. split; cbn [fst snd]; try done.
  - assert (due count c0 x = false) as Hd by (unfold due; by rewrite Hi, Hlt).
    rewrite !filter_app, filter_cons_True, filter_cons_False, !filter_nil, app_nil_r, <- app_assoc by congruence. fold D. cbn [app].
    apply (timer_inv_move c _ (D ++ x :: rem) (el0 ++ filter (λ x, due count c0 x = true) P)); try done; try apply Hinv.
    + intros y. cbn. rewrite lookup_insert_is_Some'. split; [intros [<-|?]; [by rewrite Hic|done]|by right].
    + intros y j. cbn. intros [[<- <-]|[Hne Hy]]%lookup_insert_Some; cbn; by apply (ti_alloc _ _ _ Hinv).
  - intros y. cbn. destruct (decide (y = x)) as [->|Hne].
    + rewrite lookup_insert_eq, decide_True, Hi by set_solver. cbn. unfold aged. by rewrite Hlt.
    + rewrite lookup_insert_ne, Hinfo by done. repeat case_decide; set_solver.
Qed.

Lemma scan_expire count c0 el0 c P x rem i :
  NoDup (P ++ x :: rem) → t_info c0 !! x = Some i → due count c0 x = true →
  scan_inv count c0 el0 P (x :: rem) (c, Some x) →
  ∃ s', scan_step exp_timer_head count (c, Some x) = Some s' ∧ scan_inv count c0 el0 (P ++ [x]) rem s'.
Proof.
  intros HL Hi Hdue [Hinv _ Hinfo Hpl Hsz]. cbn [fst snd] in *. apply NoDup_app in HL as (_ & Hdis & [Hx _]%NoDup_cons).
  assert (HxP : x ∉ P) by (intros HxP; apply (Hdis x HxP); left).
  assert (t_info c !! x = Some i) as Hic by (rewrite Hinfo, decide_False; done).
  pose proof Hdue as Hlt. unfold due in Hlt. rewrite Hi in Hlt. apply negb_true_iff in Hlt.
  set (D := filter (λ x, due count c0 x = false) P) in *. set (E := filter (λ x, due count c0 x = true) P) in *.
  pose proof (ti_run _ _ _ Hinv) as Hrun. pose proof (lists_apart _ _ _ Hinv) as Hap.
  destruct (@exists_last _ (timer_head :: D)) as (u & p & Hp); [done|].
  unfold scan_step. cbn [mbind option_bind]. rewrite Hic. cbn [mbind option_bind].
  rewrite (get_prev_bwd _ _ _ (dll_prev_at _ _ _ _ _ _ _ Hrun Hp)). cbn [mbind option_bind]. rewrite Hlt.
  destruct (list_del_spec _ _ _ _ _ Hrun) as (h1 & -> & Hr1 & _ & _ & Hs1). cbn [mbind option_bind].
  assert (dll h1 exp_timer_head (el0 ++ E)) as He1 by (eapply dll_others; [apply Hinv|exact Hs1|done]).
  destruct (list_add_tail_spec h1 x exp_timer_head (el0 ++ E)) as (h2 & -> & He2 & Hs2); [done| |by apply Hs1; eapply dll_alloc; [exact Hrun|set_solver]|].
  { intros Hin. apply (Hap x Hin). set_solver. }
  cbn [mbind option_bind]. pose proof Hrun as [[_ Hnd]%NoDup_cons _].
  assert (dll h2 timer_head (D ++ rem)) as Hr2.
  { eapply dll_others; [exact Hr1|exact Hs2|]. intros y Hy [->|Hy']%elem_of_cons; [|apply (Hap y Hy'); set_solver].
    pose proof Hrun as [Hnd0 _]. rewrite app_comm_cons, <- Permutation_middle in Hnd0. apply NoDup_cons in Hnd0 as [Hnx _]. set_solver. }
  cbn. rewrite (get_next_fwd _ _ _ (dll_next_at _ _ _ _ _ _ Hr2 Hp)). cbn. eexists. split; [done|]. split; cbn [fst snd]; try done.
  - rewrite !filter_app, filter_cons_False, filter_cons_True, !filter_nil, app_nil_r by congruence. fold D E. rewrite app_assoc.
    apply (timer_inv_move c _ (D ++ x :: rem) (el0 ++ E)); try done; try apply Hinv.
    + unfold timer_all. cbn. solve_Permutation.
    + intros y Hy. cbn. apply Hs2, Hs1, Hy.
    + intros y j Hy. cbn in Hy. rewrite (ti_alloc _ _ _ Hinv y j Hy). apply bool_decide_ext. set_solver.
  - intros y. cbn. rewrite Hinfo. destruct (decide (y = x)) as [->|Hne].
    + rewrite decide_False, decide_True, Hi by set_solver. cbn. unfold aged. by rewrite Hlt.
    + repeat case_decide; set_solver.
Qed.

Lemma scan_loop count c0 el0 c P rem fuel :
  NoDup (timer_head :: P ++ rem) → (∀ x, x ∈ P ++ rem → is_Some (t_info c0 !! x)) → (length rem <= fuel)%nat →
  scan_inv count c0 el0 P rem (c, Some (default timer_head (list.head rem))) →
  ∃ c' cur, while_fuel fuel (scan_cond timer_head) (scan_step exp_timer_head count) (c, Some (default timer_head (list.head rem))) = Some (c', cur) ∧
    scan_inv count c0 el0 (P ++ rem) [] (c', cur).
Proof.
  revert c P fuel. induction rem as [|x rem IH]; intros c P fuel HL HLi Hfuel Hinv.
  - eexists c, _. rewrite app_nil_r. split; [|exact Hinv]. destruct fuel; cbn; unfold scan_cond; cbn; by rewrite Z.eqb_refl.
  - destruct fuel as [|fuel]; [cbn in Hfuel; lia|]. cbn [length] in Hfuel. cbn [list.head default from_option] in *.
    apply NoDup_cons in HL as HL'. destruct HL' as [Hhead HLnd]. destruct (HLi x) as [i Hi]; [set_solver|].
    assert (∃ s', scan_step exp_timer_head count (c, Some x) = Some s' ∧ scan_inv count c0 el0 (P ++ [x]) rem s') as (s' & Hstep & Hs').
    { destruct (due count c0 x) eqn:Hd; [eapply scan_expire|eapply scan_keep]; eauto. }
    assert (scan_cond timer_head (c, Some x) = true) as Hcond.
    { unfold scan_cond. cbn. apply negb_true_iff, Z.eqb_neq. set_solver. }
    cbn [while_fuel]. unfold id. rewrite Hcond, Hstep. cbn [mbind option_bind].
    pose proof (sc_cur _ _ _ _ _ _ Hs') as Hcur. destruct s' as [c1 cur]. cbn in Hcur. subst cur.
    destruct (IH c1 (P ++ [x]) fuel) as (c' & cur & Hw & Hr); rewrite <- ?app_assoc; try done; [lia|].
    exists c', cur. by rewrite <- app_assoc in Hr.
Qed.

Lemma timer_scan_spec count c l el fuel :
  timer_inv c l el → (length l <= fuel)%nat →
  ∃ c', timer_scan timer_head exp_timer_head fuel count c = Some c' ∧
    timer_inv c' (filter (λ x, due count c x = false) l) (el ++ filter (λ x, due count c x = true) l) ∧
    (∀ y, t_info c' !! y = if decide (y ∈ l) then aged count <$> t_info c !! y else t_info c !! y) ∧
    timer_info_pool c' = timer_info_pool c ∧ sizes c' = sizes c.
Proof.
  intros Hinv Hfuel. unfold timer_scan. rewrite (get_next_fwd _ _ _ (dll_first _ _ _ (ti_run _ _ _ Hinv))). cbn [mbind option_bind].
  destruct (scan_loop count c el c [] l fuel) as (c' & cur & -> & Hs).
  - apply Hinv.
  - intros x Hx. apply (ti_all _ _ _ Hinv). unfold timer_all. set_solver.
  - done.
  - split; cbn; try done. by rewrite app_nil_r.
  - cbn [mbind option_bind]. exists c'. split; [done|]. destruct Hs as [H1 _ H3 H4 H5]. cbn in *. rewrite app_nil_r in H1.
    split; [done|]. split; [done|]. split; [done|]. unfold sizes. congruence.
Qed.

(** *** Initialisation *)

(** A pool as [nsfw_mem_sp_create] leaves it: its records are allocated, idle and not the list heads. *)
Definition fresh_pool (q : Q) (h : heap) (info : gmap Z nsfw_timer_info) : Prop :=
  q_inv q ∧ NoDup (timer_head :: exp_timer_head :: q_contents q) ∧
  (∀ x, is_Some (info !! x) ↔ x ∈ q_contents q) ∧ (∀ x i, info !! x = Some i → alloc_flag i = false) ∧
  (∀ x, x ∈ timer_head :: exp_timer_head :: q_contents q → is_Some (h !! x)).

Lemma module_init_inv ty q sock h info :
  fresh_pool q h info → ty ∈ [NSFW_PROC_MAIN; NSFW_PROC_TOOLS; NSFW_PROC_CTRL] →
  ∃ acts c, nsfw_timer_module_init timer_head exp_timer_head ty (Some q) sock h info = Some (0, acts, Some c) ∧ timer_inv c [] [].
Proof.
  intros (Hq & Hnd & Hdom & Hal & Hh) Hty. unfold nsfw_timer_module_init.
  replace (_ || _ || _) with true by (symmetry; apply Is_true_true; unfold NSFW_PROC_MAIN, NSFW_PROC_TOOLS, NSFW_PROC_CTRL in *; rewrite !elem_of_cons in Hty; destruct Hty as [->|[->|[->|Hty]]]; by try inversion Hty).
  destruct (INIT_LIST_HEAD_spec h timer_head) as (h1 & -> & Hd1 & Hs1); [apply Hh; left|]. cbn [mbind option_bind].
  destruct (INIT_LIST_HEAD_spec h1 exp_timer_head) as (h2 & -> & Hd2 & Hs2); [apply Hs1, Hh; right; left|]. cbn [mbind option_bind].
  eexists _, _. split; [done|]. pose proof (q_bounded q Hq) as Hb. split; unfold timer_all; cbn; rewrite ?app_nil_r; try done.
  - eapply dll_others; [exact Hd1|exact Hs2|]. intros x Hx%list_elem_of_singleton ->%list_elem_of_singleton. subst. apply NoDup_cons in Hnd as [Hnd _]. set_solver.
  - intros x Hx. apply Hs2, Hs1, Hh. right; right. by apply Hdom.
Qed.

(** *** The expired timers fire *)

Context (callback : Z → Z → Z → nsfw_timer_init_cfg (Q := Q) → list timer_cmd).

Definition callback_ok : Prop := ∀ f t a c, Forall (cmd_ok c) (callback f t a c).

Lemma sublist_without x l l' : sublist l' (x :: l) → x ∉ l → sublist (without x l') l.
Proof.
  intros Hs Hx. replace l with (without x (x :: l)).
  - unfold without. clear Hx. induction Hs; rewrite ?filter_cons; repeat case_decide; auto using sublist_nil_l, sublist_skip, sublist_cons.
  - by apply without_cons_eq.
Qed.

(** The call of a timer's function. *)
Lemma fire_call c l el x i : timer_inv c l el → callback_ok → t_info c !! x = Some i →
  ∃ call c1, match fun_ i with
             | Some f => c1 ← timer_do_all timer_head c (callback f (timer_type i) (argv i) c); Some ([(f, timer_type i, argv i)], c1)
             | None => Some ([], c)
             end = Some (call, c1) ∧ timer_keeps c el c1.
Proof.
  intros Hinv Hcb Hi. destruct (fun_ i) as [f|].
  - destruct (timer_do_all_spec c l el (callback f (timer_type i) (argv i) c) Hinv (Hcb _ _ _ _)) as (c1 & -> & Hk). cbn. eauto.
  - exists [], c. split; [done|]. by exists l, el.
Qed.

Lemma timer_fire_safe n c l el : timer_inv c l el → callback_ok →
  ∃ calls c' l' el', timer_fire timer_head exp_timer_head callback n c = Some (calls, c') ∧ timer_inv c' l' el' ∧
    sublist el' el ∧ ((length el <= n)%nat → el' = []) ∧ sizes c' = sizes c.
Proof.
  intros Hinv Hcb. revert c l el Hinv. induction n as [|n IH]; intros c l el Hinv; cbn [timer_fire]; rewrite (list_empty_spec _ _ _ (ti_exp _ _ _ Hinv)); cbn [mbind option_bind].
  { destruct el as [|x el]; eexists [], c, l, _; (split; [done|]; split; [done|]; split; [done|]; split; [|done]); cbn; [done|lia]. }
  destruct el as [|x el]; [by exists [], c, l, []|].
  rewrite (list_get_first_spec _ _ _ _ (ti_exp _ _ _ Hinv)). cbn [mbind option_bind].
  destruct (proj2 (ti_all _ _ _ Hinv x)) as [i Hi]; [unfold timer_all; set_solver|]. rewrite Hi. cbn [mbind option_bind].
  destruct (fire_call c l (x :: el) x i Hinv Hcb Hi) as (call & c1 & -> & l1 & el1 & Hinv1 & Hsub & Hsz & Hdom). cbn [mbind option_bind].
  destruct (proj2 (Hdom x)) as [i1 Hi1]; [by rewrite Hi|].
  destruct (rmv_timer_spec c1 l1 el1 x i1 Hinv1 Hi1) as (c2 & -> & Hinv2 & _ & Hsz2 & _). cbn [mbind option_bind].
  destruct (IH c2 _ _ Hinv2) as (calls & c3 & l3 & el3 & -> & Hinv3 & Hsub3 & Hnil & Hsz3). cbn [mbind option_bind].
  assert (x ∉ el) as Hx by (destruct (ti_exp _ _ _ Hinv) as [[_ [? _]%NoDup_cons]%NoDup_cons _]; done).
  pose proof (sublist_without x el el1 Hsub Hx) as Hs.
  eexists _, c3, l3, el3. split; [done|]. split; [done|]. split; [|split; [|congruence]].
  - apply sublist_cons. by etransitivity.
  - cbn. intros Hl. apply Hnil. apply sublist_length in Hs. lia.
Qed.

(** *** Callbacks that only register *)

Definition is_reg (cmd : timer_cmd) : Prop := match cmd with T_reg _ _ _ _ => True | _ => False end.

(** New timers go behind the running ones and touch no other record. *)
Definition only_adds c l c' l' : Prop :=
  ∃ new, l' = l ++ new ∧ sizes c' = sizes c ∧ ∀ y, y ∉ new → t_info c' !! y = t_info c !! y.

Lemma regs_only_add c l el cmds : timer_inv c l el → Forall is_reg cmds →
  ∃ c' l', timer_do_all timer_head c cmds = Some c' ∧ timer_inv c' l' el ∧ only_adds c l c' l'.
Proof.
  revert c l. induction cmds as [|cmd cmds IH]; intros c l Hinv Hr; cbn [timer_do_all].
  { exists c, l. split; [done|]. split; [done|]. exists []. by rewrite app_nil_r. }
  apply Forall_cons in Hr as [Hr Hrs]. destruct cmd as [type data fn tl|]; [|done]. cbn [timer_do].
  pose proof (reg_timer_spec c l el type data fn tl Hinv) as Hs.
  destruct (q_contents (timer_info_pool c)) as [|x rest]; destruct Hs as (c1 & -> & H1 & H2 & H3); cbn [mbind option_bind].
  - destruct (IH c1 l H1 Hrs) as (c2 & l2 & -> & G1 & new & G2 & G3 & G4). exists c2, l2. split; [done|]. split; [done|].
    exists new. split; [done|]. split; [congruence|]. intros y Hy. rewrite G4, H2 by done. done.
  - destruct (IH c1 (l ++ [x]) H1 Hrs) as (c2 & l2 & -> & G1 & new & G2 & G3 & G4). exists c2, l2. split; [done|]. split; [done|].
    exists (x :: new). split; [by rewrite G2, <- app_assoc|]. split; [congruence|]. intros y Hy.
    rewrite G4, H2, lookup_insert_ne by set_solver. done.
Qed.

Definition calls_of c (l : list Z) : list (Z * Z * Z) :=
  omap (λ x, i ← t_info c !! x; f ← fun_ i; Some (f, timer_type i, argv i)) l.

Lemma calls_of_ext c c' l : (∀ x, x ∈ l → t_info c' !! x = t_info c !! x) → calls_of c' l = calls_of c l.
Proof. intros Hx. unfold calls_of. induction l as [|x l IH]; cbn; [done|]. rewrite Hx, IH; set_solver. Qed.

Lemma timer_fire_exact n c l el :
  timer_inv c l el → (∀ f t a c, Forall is_reg (callback f t a c)) → (length el <= n)%nat →
  ∃ c' new, timer_fire timer_head exp_timer_head callback n c = Some (calls_of c el, c') ∧ timer_inv c' (l ++ new) [] ∧
    ∀ x, x ∈ l → t_info c' !! x = t_info c !! x.
Proof.
  intros Hinv Hcb. revert c l el Hinv. induction n as [|n IH]; intros c l el Hinv Hn; cbn [timer_fire]; rewrite (list_empty_spec _ _ _ (ti_exp _ _ _ Hinv)); cbn [mbind option_bind].
  { destruct el; [|cbn in Hn; lia]. exists c, []. by rewrite app_nil_r. }
  destruct el as [|x el]; [exists c, []; by rewrite app_nil_r|].
  rewrite (list_get_first_spec _ _ _ _ (ti_exp _ _ _ Hinv)). cbn [mbind option_bind].
  destruct (proj2 (ti_all _ _ _ Hinv x)) as [i Hi]; [unfold timer_all; set_solver|]. rewrite Hi. cbn [mbind option_bind].
  set (r := match fun_ i with Some f => _ | None => _ end).
  assert (∃ c1 l1, r = Some (calls_of c [x], c1) ∧ timer_inv c1 l1 (x :: el) ∧ only_adds c l c1 l1) as (c1 & l1 & -> & Hinv1 & new & -> & Hsz & Hsame).
  { unfold r, calls_of. cbn. rewrite Hi. cbn. destruct (fun_ i) as [f|]; [|exists c, l; split; [done|]; split; [done|]; exists []; by rewrite app_nil_r].
    destruct (regs_only_add c l (x :: el) _ Hinv (Hcb f (timer_type i) (argv i) c)) as (c1 & l1 & -> & H1 & H2). by exists c1, l1. }
  cbn [mbind option_bind]. pose proof (lists_apart _ _ _ Hinv1) as Hap.
  assert (t_info c1 !! x = Some i) as Hi1 by (rewrite Hsame; [done|]; intros Hx; apply (Hap x); set_solver).
  destruct (rmv_timer_spec c1 _ _ x i Hinv1 Hi1) as (c2 & -> & Hinv2 & Hinfo2 & _ & _). cbn [mbind option_bind].
  assert (x ∉ el) as Hx by (destruct (ti_exp _ _ _ Hinv) as [[_ [? _]%NoDup_cons]%NoDup_cons _]; done).
  assert (x ∉ l ++ new) as Hxl by (intros ?; apply (Hap x); set_solver).
  rewrite (without_cons_eq x el), (without_notin x (l ++ new)) in Hinv2 by done.
  destruct (IH c2 _ _ Hinv2) as (c3 & new3 & -> & Hinv3 & Hsame3); [cbn in Hn; lia|]. cbn [mbind option_bind].
  assert (Hc2 : ∀ y, y ≠ x → y ∉ new → t_info c2 !! y = t_info c !! y) by (intros y H1 H2; rewrite Hinfo2, lookup_insert_ne, Hsame by done; done).
  exists c3, (new ++ new3). rewrite app_assoc. split; [|split; [done|]].
  - do 2 f_equal. change (calls_of c (x :: el)) with (calls_of c ([x] ++ el)). unfold calls_of at 3. rewrite omap_app. f_equal.
    apply calls_of_ext. intros y Hy. apply Hc2; [set_solver|]. intros Hyn. apply (Hap y); set_solver.
  - intros y Hy. rewrite Hsame3 by set_solver. apply Hc2; [set_solver|]. intros Hyn. destruct (ti_run _ _ _ Hinv1) as [[_ Hnd]%NoDup_cons _].
    apply NoDup_app in Hnd as (_ & Hd & _). by apply (Hd y).
Qed.

Lemma timer_exp_safe fuel count c l el : timer_inv c l el → callback_ok → (length l <= fuel)%nat →
  ∃ calls c' l' el', nsfw_timer_exp timer_head exp_timer_head callback fuel count c = Some (calls, c') ∧ timer_inv c' l' el' ∧ sizes c' = sizes c.
Proof.
  intros Hinv Hcb Hf. unfold nsfw_timer_exp. destruct (timer_scan_spec count c l el fuel Hinv Hf) as (c1 & -> & Hinv1 & _ & _ & Hs1). cbn [mbind option_bind].
  destruct (timer_fire_safe (Z.to_nat (timer_info_size c1)) c1 _ _ Hinv1 Hcb) as (calls & c2 & l2 & el2 & -> & Hinv2 & _ & _ & Hs2). exists calls, c2, l2, el2. split; [done|]. split; [done|]. congruence.
Qed.

Lemma running_bounded c l el : timer_inv c l el → Z.of_nat (length l) <= q_cap (timer_info_pool c).
Proof. intros Hinv. pose proof (ti_cap _ _ _ Hinv) as Hc. unfold timer_all in Hc. rewrite !length_app in Hc. lia. Qed.

(** ** Properties *)

(** C24: When the callbacks register new timers but remove none and at most [timer_info_size] timers run, an expiry of
    [count] cycles returns.  It calls the functions of exactly the timers that are due, once each and in the order of registration; it frees those
    timers, leaves the others running in their order, each with [count] less to go, and the new timers behind them. *)
Theorem timer_exp_correct fuel count c l :
  timer_inv c l [] → (∀ f t a c, Forall is_reg (callback f t a c)) →
  (length l <= fuel)%nat → Z.of_nat (length l) <= timer_info_size c →
  ∃ c' new, nsfw_timer_exp timer_head exp_timer_head callback fuel count c =
      Some (calls_of c (filter (λ x, due count c x = true) l), c') ∧
    timer_inv c' (filter (λ x, due count c x = false) l ++ new) [] ∧
    ∀ x, x ∈ l → due count c x = false → t_info c' !! x = aged count <$> t_info c !! x.
Proof.
  intros Hinv Hcb Hf Hsz. unfold nsfw_timer_exp.
  destruct (timer_scan_spec count c l [] fuel Hinv Hf) as (c1 & -> & Hinv1 & Hinfo & _ & Hs). injection Hs as Hs _. cbn [mbind option_bind app] in *. rewrite Hs.
  destruct (timer_fire_exact (Z.to_nat (timer_info_size c)) c1 _ _ Hinv1 Hcb) as (c2 & new & -> & Hinv2 & Hsame).
  { pose proof (length_filter (λ x, due count c x = true) l). lia. }
  exists c2, new. split; [|split; [done|]].
  - do 2 f_equal. unfold calls_of. apply list_omap_ext, Forall2_same_length_lookup_2; [done|]. intros j x x' Hx Hx'. simplify_eq.
    apply list_elem_of_lookup_2, list_elem_of_filter in Hx as [Hd Hx]. rewrite Hinfo, decide_True by done.
    unfold due in Hd. destruct (t_info c !! x) as [i|]; [|done]. cbn. unfold aged. apply negb_true_iff in Hd. by rewrite Hd.
  - intros x Hx Hd. rewrite Hsame, Hinfo, decide_True; [done|done|]. by apply list_elem_of_filter.
Qed.

Lemma notify_reads_safe reads c l el : timer_inv c l el → callback_ok →
  ∃ calls c' l' el', notify_reads timer_head exp_timer_head callback (Z.to_nat (q_cap (timer_info_pool c))) reads c = Some (calls, c') ∧ timer_inv c' l' el'.
Proof.
  intros Hinv Hcb. remember (q_cap (timer_info_pool c)) as cap eqn:Hcap. revert c l el Hinv Hcap.
  induction reads as [|count reads IH]; intros c l el Hinv Hcap; cbn [notify_reads]; [by exists [], c, l, el|].
  pose proof (running_bounded _ _ _ Hinv).
  destruct (timer_exp_safe (Z.to_nat cap) count c l el Hinv Hcb) as (calls & c1 & l1 & el1 & -> & Hinv1 & Hcap1); [lia|]. cbn [mbind option_bind].
  destruct (IH c1 l1 el1 Hinv1) as (calls' & c2 & l2 & el2 & -> & Hinv2); [unfold sizes in Hcap1; congruence|]. cbn [mbind option_bind]. by exists (calls ++ calls'), c2, l2, el2.
Qed.

Lemma notify_safe fd ev sock reads c l el : timer_inv c l el → callback_ok →
  ∃ r c' l' el', nsfw_timer_notify_fun timer_head exp_timer_head callback (Z.to_nat (q_cap (timer_info_pool c))) fd ev sock reads c = Some (r, c') ∧
    timer_inv c' l' el'.
Proof.
  intros Hinv Hcb. unfold nsfw_timer_notify_fun. destruct (_ || _ || _).
  - destruct sock as [tfd acts]. destruct (tfd <? 0); eexists _, c, l, el; done.
  - destruct (notify_reads_safe reads c l el Hinv Hcb) as (calls & c1 & l1 & el1 & -> & Hinv1). cbn [mbind option_bind]. eexists _, c1, l1, el1. done.
Qed.

(** What the module goes through: registrations and removals from outside, and events of the timer descriptor. *)
Inductive timer_steps (c0 : nsfw_timer_init_cfg (Q := Q)) : nsfw_timer_init_cfg (Q := Q) → Prop :=
  | ts_start : timer_steps c0 c0
  | ts_cmd c cmd c' : timer_steps c0 c → cmd_ok c cmd → timer_do timer_head c cmd = Some c' → timer_steps c0 c'
  | ts_event c fd ev sock reads r c' :
      timer_steps c0 c →
      nsfw_timer_notify_fun timer_head exp_timer_head callback (Z.to_nat (q_cap (timer_info_pool c))) fd ev sock reads c = Some (r, c') →
      timer_steps c0 c'.

Lemma timer_steps_inv c0 c : timer_inv c0 [] [] → callback_ok → timer_steps c0 c → ∃ l el, timer_inv c l el.
Proof.
  intros H0 Hcb. induction 1 as [|c cmd c' _ (l & el & Hinv) Hok Hdo|c fd ev sock reads r c' _ (l & el & Hinv) Hev]; [by exists [], []| |].
  - destruct (timer_do_spec c l el cmd Hinv Hok) as (c1 & Hdo1 & l1 & el1 & Hinv1 & _). rewrite Hdo in Hdo1. simplify_eq. eauto.
  - destruct (notify_safe fd ev sock reads c l el Hinv Hcb) as (r1 & c1 & l1 & el1 & Hev1 & Hinv1). rewrite Hev in Hev1. simplify_eq. eauto.
Qed.

(** C25: From the initialisation of the module on, whatever timers are registered and removed, by the program or by
    callbacks during an expiry, every record of the pool is free or in exactly one of the two lists, its flag says which, and the next
    registration, removal or descriptor event is defined: it returns and accesses no null or dangling node. *)
Theorem timers_keep_invariant ty q sock0 h info acts c0 c :
  fresh_pool q h info → nsfw_timer_module_init timer_head exp_timer_head ty (Some q) sock0 h info = Some (0, acts, Some c0) →
  callback_ok → timer_steps c0 c →
  (∃ l el, timer_inv c l el) ∧
  (∀ cmd, cmd_ok c cmd → is_Some (timer_do timer_head c cmd)) ∧
  ∀ fd ev sock reads,
    is_Some (nsfw_timer_notify_fun timer_head exp_timer_head callback (Z.to_nat (q_cap (timer_info_pool c))) fd ev sock reads c).
Proof.
  intros Hfresh Hinit Hcb Hs.
  assert (timer_inv c0 [] []) as H0.
  { destruct (decide (ty ∈ [NSFW_PROC_MAIN; NSFW_PROC_TOOLS; NSFW_PROC_CTRL])) as [Hty|Hty].
    - destruct (module_init_inv ty q sock0 h info Hfresh Hty) as (a1 & c1 & H1 & Hinv1). by simplify_eq.
    - unfold nsfw_timer_module_init in Hinit. rewrite !not_elem_of_cons in Hty. destruct Hty as (H1 & H2 & H3 & _).
      apply Z.eqb_neq in H1, H2, H3. by rewrite H1, H2, H3 in Hinit. }
  destruct (timer_steps_inv c0 c H0 Hcb Hs) as (l & el & Hinv). split; [eauto|]. split.
  - intros cmd Hok. destruct (timer_do_spec c l el cmd Hinv Hok) as (c1 & -> & _). by eexists.
  - intros fd ev sock reads. destruct (notify_safe fd ev sock reads c l el Hinv Hcb) as (r & c1 & l1 & el1 & -> & _). by eexists.
Qed.
End timer_props.

(** ** An example: three records in a ring of four slots *)

Definition ex_pool : nsfw_mem_ring :=
  Eval vm_compute in match enqueue_all (H := sp_sc_queue 7) ring4 [100; 101; 102] with Some (_, r) => r | None => ring4 end.
Definition ex_timer_heap : heap := list_to_map ((λ x, (x, mk_node None None)) <$> [1; 2; 100; 101; 102]).
Definition ex_timer_info : gmap Z nsfw_timer_info := list_to_map ((λ x, (x, mk_timer None 0 0 0 0 false)) <$> [100; 101; 102]).

Definition ex_timers : nsfw_timer_init_cfg (Q := nsfw_mem_ring) :=
  Eval vm_compute in
  match nsfw_timer_module_init 1 2 NSFW_PROC_MAIN (Some ex_pool) (7, []) ex_timer_heap ex_timer_info with
  | Some (_, _, Some c) => c
  | _ => mk_cfg 0 ex_pool ∅ ∅
  end.

Lemma ex_pool_ok : q_inv (BoundedQueue := sp_sc_queue 7) ex_pool ∧ q_contents (BoundedQueue := sp_sc_queue 7) ex_pool = [100; 101; 102].
Proof.
  split; [|vm_compute; reflexivity]. split; [repeat split; [exists 2; split; [lia|done]|..]; vm_compute; congruence|vm_compute; intuition congruence].
Qed.

Lemma ex_pool_fresh : fresh_pool (HQ := sp_sc_queue 7) 1 2 ex_pool ex_timer_heap ex_timer_info.
Proof.
  destruct ex_pool_ok as [H1 H2]. split; [exact H1|]. rewrite H2. split; [|split; [|split]].
  - repeat (apply NoDup_cons; split; [set_solver|]). apply NoDup_nil_2.
  - intros x. unfold ex_timer_info. cbn. rewrite !lookup_insert_is_Some', lookup_empty. set_solver.
  - intros x i. unfold ex_timer_info. cbn. rewrite !lookup_insert_Some, lookup_empty. naive_solver.
  - intros x Hx. unfold ex_timer_heap. cbn. rewrite !lookup_insert_is_Some'. set_solver.
Qed.

Lemma ex_timers_inv : timer_inv (HQ := sp_sc_queue 7) 1 2 ex_timers [] [].
Proof.
  destruct (module_init_inv (HQ := sp_sc_queue 7) 1 2 NSFW_PROC_MAIN ex_pool (7, []) ex_timer_heap ex_timer_info ex_pool_fresh) as (acts & c & Hc & Hinv); [left|].
  enough (ex_timers = c) as -> by done. vm_compute in Hc. injection Hc as _ <-. vm_compute. reflexivity.
Qed.

(** Two timers of it, due after 3 and after 10 cycles. *)
Definition ex_reg (c : nsfw_timer_init_cfg (Q := nsfw_mem_ring)) (fn secs : Z) : nsfw_timer_init_cfg (Q := nsfw_mem_ring) :=
  match nsfw_timer_reg_timer (H := sp_sc_queue 7) 1 c 9 fn (Some fn) (secs, 0) with Some (_, c) => c | None => c end.
Definition ex_timers1 : nsfw_timer_init_cfg (Q := nsfw_mem_ring) := Eval vm_compute in ex_reg ex_timers 50 3.
Definition ex_timers2 : nsfw_timer_init_cfg (Q := nsfw_mem_ring) := Eval vm_compute in ex_reg ex_timers1 60 10.

Lemma ex_reg_inv c l x rest fn secs :
  timer_inv (HQ := sp_sc_queue 7) 1 2 c l [] → q_contents (BoundedQueue := sp_sc_queue 7) (timer_info_pool c) = x :: rest →
  timer_inv (HQ := sp_sc_queue 7) 1 2 (ex_reg c fn secs) (l ++ [x]) [].
Proof.
  intros Hinv Hc. pose proof (reg_timer_spec (HQ := sp_sc_queue 7) 1 2 c l [] 9 fn (Some fn) (secs, 0) Hinv) as H.
  rewrite Hc in H. destruct H as (c' & Hr & Hi & _). unfold ex_reg. by rewrite Hr.
Qed.

Lemma ex_timers2_inv : timer_inv (HQ := sp_sc_queue 7) 1 2 ex_timers2 [100; 101] [].
Proof.
  change ex_timers2 with (ex_reg (ex_reg ex_timers 50 3) 60 10).
  apply (ex_reg_inv _ [100] 101 [102]); [|vm_compute; reflexivity].
  apply (ex_reg_inv _ [] 100 [101; 102]); [exact ex_timers_inv|vm_compute; reflexivity].
Qed.

(** A callback that registers its timer again. *)
Definition ex_callback (f t a : Z) (c : nsfw_timer_init_cfg (Q := nsfw_mem_ring)) : list timer_cmd := [T_reg t a (Some f) (7, 0)].

Lemma timer_exp_correct_witness :
  ∃ c' new, nsfw_timer_exp (H := sp_sc_queue 7) 1 2 ex_callback 2 5 ex_timers2 = Some ([(50, 9, 50)], c') ∧
    timer_inv (HQ := sp_sc_queue 7) 1 2 c' (101 :: new) [].
Proof.
  destruct (timer_exp_correct (HQ := sp_sc_queue 7) 1 2 ex_callback 2 5 ex_timers2 [100; 101] ex_timers2_inv) as (c' & new & H1 & H2 & _).
  - intros f t a c. repeat constructor.
  - cbn. lia.
  - vm_compute. congruence.
  - exists c', new. split; [exact H1|exact H2].
Defined.

Lemma timers_keep_invariant_witness :
  (∃ l el, timer_inv (HQ := sp_sc_queue 7) 1 2 ex_timers1 l el) ∧
  is_Some (timer_do (H := sp_sc_queue 7) 1 ex_timers1 (T_rmv (Some 100))).
Proof.
  destruct (timers_keep_invariant (HQ := sp_sc_queue 7) 1 2 ex_callback NSFW_PROC_MAIN ex_pool (7, []) ex_timer_heap ex_timer_info
    [A_reg 7] ex_timers ex_timers1 ex_pool_fresh) as (H1 & H2 & _).
  - vm_compute. reflexivity.
  - intros f t a c. repeat constructor.
  - eapply (ts_cmd _ _ _ _ _ (T_reg 9 50 (Some 50) (3, 0))); [constructor|exact I|vm_compute; reflexivity].
  - split; [exact H1|]. apply H2. vm_compute. eauto.
Defined.
