(* ===== verification/Segment.v ===== *)
(** * Named memory in a shared segment (src/src/framework/mem/dmm_segment.c)

    A segment is an array of 64-byte blocks divided into sections; a section starts with
    its header and is followed by its used and then its free blocks.  The headers are linked in physical
    order and, where a section has free blocks, in a circular list ordered by their
    number.  A section is named by its block index from [seg->first], so [sec - base]
    is a difference of indices.  Reading a header that was never written is [None],
    and so is a loop that outlasts the number of sections.  Each public operation
    runs under the segment's lock, which is modelled in [Locks]. *)
From S2P Require Import Prelude.
From S2P Require Import Links.

Local Open Scope string_scope.
Local Open Scope list_scope.
Local Open Scope Z_scope.

Definition SECTION_SIZE : Z := 64.
Definition DMM_MEM_NAME_SIZE : Z := 32.
Definition FIRST_NAME : string := "FIRST SECTION FOR SEGMENT".
Definition LAST_NAME : string := "LAST SECTION FOR FREE HEAD".
(** [sizeof (struct dmm_segment)]: four 8-byte fields, four 4-byte ones and one of 8 bytes. *)
Definition SIZEOF_SEGMENT : Z := 56.

(** [section_t]; [label] is the string at [&name[1]]. *)
Record section_t := mk_sec {
  prev_rel : Z; used_num : Z; free_num : Z; req_size : Z;
  less_rel : Z; more_rel : Z; name : string; label : string
}.

(** [struct dmm_segment], with the block array's headers; [first] is block 0 and [last] the
    index of the last block. *)
Record dmm_segment := mk_seg {
  base : Z; size : Z; first_addr : Z; last : Z;
  total_num : Z; seg_used_num : Z; sec_num : Z; used_size : Z;
  secs : gmap Z section_t
}.

Definition set_secs (seg : dmm_segment) (h : gmap Z section_t) : dmm_segment :=
  mk_seg (base seg) (size seg) (first_addr seg) (last seg) (total_num seg)
    (seg_used_num seg) (sec_num seg) (used_size seg) h.
Definition set_counts (seg : dmm_segment) (u n s : Z) : dmm_segment :=
  mk_seg (base seg) (size seg) (first_addr seg) (last seg) (total_num seg) u n s (secs seg).

Definition set_prev_rel (v : Z) (s : section_t) : section_t :=
  mk_sec v (used_num s) (free_num s) (req_size s) (less_rel s) (more_rel s) (name s) (label s).
Definition set_free_num (v : Z) (s : section_t) : section_t :=
  mk_sec (prev_rel s) (used_num s) v (req_size s) (less_rel s) (more_rel s) (name s) (label s).
Definition set_less_rel (v : Z) (s : section_t) : section_t :=
  mk_sec (prev_rel s) (used_num s) (free_num s) (req_size s) v (more_rel s) (name s) (label s).
Definition set_more_rel (v : Z) (s : section_t) : section_t :=
  mk_sec (prev_rel s) (used_num s) (free_num s) (req_size s) (less_rel s) v (name s) (label s).
Definition set_name (n : string) (s : section_t) : section_t :=
  mk_sec (prev_rel s) (used_num s) (free_num s) (req_size s) (less_rel s) (more_rel s) n
    (match n with String _ t => t | EmptyString => label s end).

(** A store to a field of the header at block [x]. *)
Definition upd (h : gmap Z section_t) (x : Z) (f : section_t → section_t) : option (gmap Z section_t) :=
  s ← h !! x; Some (<[x := f s]> h).

(** [CALC_NUM]: the result is converted from [size_t] to [int]. *)
Definition wrap64 (z : Z) : Z := z mod 2 ^ 64.
Definition CALC_NUM (sz : Z) : Z :=
  if sz =? 0 then 2 else to_i32 (wrap64 (wrap64 (sz + (SECTION_SIZE - 1)) / SECTION_SIZE + 1)).

(** The neighbours of a section. *)
Definition SEC_REL (b x : Z) : Z := x - b.
Definition LESS_SEC (h : gmap Z section_t) (x : Z) : option Z := s ← h !! x; Some (x + less_rel s).
Definition MORE_SEC (h : gmap Z section_t) (x : Z) : option Z := s ← h !! x; Some (x + more_rel s).
Definition PREV_SEC (h : gmap Z section_t) (x : Z) : option Z := s ← h !! x; Some (x + prev_rel s).
Definition NEXT_SEC (h : gmap Z section_t) (x : Z) : option Z := s ← h !! x; Some (x + (free_num s + used_num s)).
Definition FREE_NUM (h : gmap Z section_t) (x : Z) : option Z := s ← h !! x; Some (free_num s).

(** The address of block [x], and the test of an address passed to [dmm_mem_free]. *)
Definition block_addr (seg : dmm_segment) (x : Z) : Z := first_addr seg + SECTION_SIZE * x.
Definition CHECK_ADDR (seg : dmm_segment) (mem : Z) : Z :=
  if mem <? first_addr seg then -1
  else if block_addr seg (last seg) <? mem then -1
  else if negb (Z.land mem (SECTION_SIZE - 1) =? 0) then -1
  else 0.

(** The bound on every walk: one step per block. *)
Definition walk_fuel (seg : dmm_segment) : nat := S (Z.to_nat (total_num seg)).

Fixpoint mem_lookup_from (fuel : nat) (h : gmap Z section_t) (nm : string) (sec : Z) : option (option Z) :=
  if sec =? 0 then Some None
  else
    match fuel with
    | O => None
    | S fuel =>
        s ← h !! sec;
        if negb (String.eqb (name s) "") && String.eqb (name s) nm then Some (Some sec)
        else p ← PREV_SEC h sec; mem_lookup_from fuel h nm p
    end.

Definition mem_lookup (seg : dmm_segment) (nm : string) : option (option Z) :=
  mem_lookup_from (walk_fuel seg) (secs seg) nm (last seg).

(** The do-while search for a section with at least [num] free blocks. *)
Fixpoint find_free (fuel : nat) (h : gmap Z section_t) (lst num pos : Z) : option (option Z) :=
  match fuel with
  | O => None
  | S fuel =>
      pos ← MORE_SEC h pos;
      if pos =? lst then Some None
      else f ← FREE_NUM h pos; if f <? num then find_free fuel h lst num pos else Some (Some pos)
  end.

(** The position towards the smaller sections: the last with not more than [f] free blocks. *)
Fixpoint find_less (fuel : nat) (h : gmap Z section_t) (lst f less : Z) : option Z :=
  if less =? lst then Some less
  else
    match fuel with
    | O => None
    | S fuel =>
        l ← FREE_NUM h less;
        if l <=? f then Some less else less ← LESS_SEC h less; find_less fuel h lst f less
    end.

(** The position towards the larger sections: the first with at least [f] free blocks. *)
Fixpoint find_more (fuel : nat) (h : gmap Z section_t) (lst f more : Z) : option Z :=
  if more =? lst then Some more
  else
    match fuel with
    | O => None
    | S fuel =>
        m ← FREE_NUM h more;
        if f <=? m then Some more else more ← MORE_SEC h more; find_more fuel h lst f more
    end.

(** The four stores that link [pos] between [less] and [more]. *)
Definition free_insert (h : gmap Z section_t) (pos less more : Z) : option (gmap Z section_t) :=
  h ← upd h less (set_more_rel (SEC_REL less pos));
  h ← upd h more (set_less_rel (SEC_REL more pos));
  h ← upd h pos (set_more_rel (SEC_REL pos more));
  upd h pos (set_less_rel (SEC_REL pos less)).

(** Takes [pos], now with [f] free blocks, out of the free list and puts it back at its place
    towards the smaller sections. *)
Definition free_relink (fuel : nat) (h : gmap Z section_t) (lst pos f : Z) : option (gmap Z section_t) :=
  less ← LESS_SEC h pos;
  more ← MORE_SEC h pos;
  h ← upd h less (set_more_rel (SEC_REL less more));
  h ← upd h more (set_less_rel (SEC_REL more less));
  h ← upd h pos (set_more_rel 0);
  h ← upd h pos (set_less_rel 0);
  less ← find_less fuel h lst f less;
  more ← MORE_SEC h less;
  free_insert h pos less more.

(** Takes [x] out of the free list; its successor there is the first component. *)
Definition free_unlink (h : gmap Z section_t) (x : Z) : option (Z * gmap Z section_t) :=
  more ← MORE_SEC h x;
  less ← LESS_SEC h x;
  h ← upd h more (set_less_rel (SEC_REL more less));
  h ← upd h less (set_more_rel (SEC_REL less more));
  Some (more, h).

(** Cuts a section of [num] blocks off the tail of the free space of [pos]. *)
Definition alloc_at (seg : dmm_segment) (sz num pos : Z) : option (option Z * dmm_segment) :=
  let h := secs seg in
  next ← NEXT_SEC h pos;
  h ← upd h next (set_prev_rel (- num));
  sec ← PREV_SEC h next;
  let h := <[sec := mk_sec (SEC_REL sec pos) num 0 sz 0 0 "" ""]> h in
  f ← FREE_NUM h pos;
  h ← upd h pos (set_free_num (f - num));
  h ← free_relink (walk_fuel seg) h (last seg) pos (f - num);
  Some (Some sec, set_counts (set_secs seg h) (seg_used_num seg + num) (sec_num seg + 1) (wrap64 (used_size seg + sz))).

Definition mem_alloc (seg : dmm_segment) (sz : Z) : option (option Z * dmm_segment) :=
  let num := CALC_NUM sz in
  if total_num seg - seg_used_num seg <? num then Some (None, seg)
  else
    found ← find_free (walk_fuel seg) (secs seg) (last seg) num (last seg);
    match found with
    | None => Some (None, seg)
    | Some pos => alloc_at seg sz num pos
    end.

Definition mem_free (seg : dmm_segment) (sec : Z) : option dmm_segment :=
  let h := secs seg in
  s ← h !! sec;
  let num := used_num s + free_num s in
  next ← NEXT_SEC h sec;
  prev ← PREV_SEC h sec;
  h ← upd h next (set_prev_rel (SEC_REL next prev));
  h ← (if free_num s =? 0 then Some h else '(_, h) ← free_unlink h sec; Some h);
  pf ← FREE_NUM h prev;
  '(more, h) ← (if pf =? 0 then more ← MORE_SEC h (last seg); Some (more, h) else free_unlink h prev);
  h ← upd h prev (set_free_num (pf + num));
  more ← find_more (walk_fuel seg) h (last seg) (pf + num) more;
  less ← LESS_SEC h more;
  h ← free_insert h prev less more;
  Some (set_counts (set_secs seg h) (seg_used_num seg - used_num s) (sec_num seg - 1) (wrap64 (used_size seg - req_size s))).

(** The two walks of [dmm_seg_dump]: the sections in physical and in free order, as printed. *)
Fixpoint dump_physical (fuel : nat) (h : gmap Z section_t) (lst sec : Z) : option (list (Z * section_t)) :=
  match fuel with
  | O => None
  | S fuel =>
      s ← h !! sec;
      if sec =? lst then Some [(sec, s)]
      else next ← NEXT_SEC h sec; rest ← dump_physical fuel h lst next; Some ((sec, s) :: rest)
  end.

Fixpoint dump_free (fuel : nat) (h : gmap Z section_t) (lst sec : Z) : option (list (Z * Z)) :=
  if sec =? lst then Some []
  else
    match fuel with
    | O => None
    | S fuel =>
        f ← FREE_NUM h sec;
        more ← MORE_SEC h sec; rest ← dump_free fuel h lst more; Some ((sec, f) :: rest)
    end.

Definition dmm_seg_dump (seg : dmm_segment) : option (list (Z * section_t) * list (Z * Z)) :=
  phys ← dump_physical (walk_fuel seg) (secs seg) (last seg) 0;
  m ← MORE_SEC (secs seg) (last seg);
  free ← dump_free (walk_fuel seg) (secs seg) (last seg) m;
  Some (phys, free).

(** The aligned first block and the number of blocks, or -1. *)
Definition align_section (bs sz : Z) : Z * Z :=
  let SEG_NUM := CALC_NUM SIZEOF_SEGMENT in
  let addr := Z.land (bs + (SECTION_SIZE - 1)) (Z.lnot (SECTION_SIZE - 1)) in
  let total := wrap64 (sz - (addr - bs)) / SECTION_SIZE in
  if 2147483647 <? total then (-1, addr)
  else if total <? SEG_NUM + 1 then (-1, addr)
  else (total, addr).

Definition dmm_seg_create (bs sz : Z) : option dmm_segment :=
  let SEG_NUM := CALC_NUM SIZEOF_SEGMENT in
  let '(total, addr) := align_section bs sz in
  if total <=? 0 then None
  else
    let first := 0 in
    let lst := first + (total - 1) in
    let fs := mk_sec 0 SEG_NUM (total - (SEG_NUM + 1)) SIZEOF_SEGMENT (SEC_REL first lst) (SEC_REL first lst) "" FIRST_NAME in
    let ls := mk_sec (SEC_REL lst first) 0 0 0 (SEC_REL lst first) (SEC_REL lst first) "" LAST_NAME in
    Some (mk_seg bs sz addr lst total SEG_NUM 2 SIZEOF_SEGMENT (<[lst := ls]> {[first := fs]})).

(** [seg] is what the memory after the first header holds. *)
Definition dmm_seg_attach (bs sz : Z) (seg : dmm_segment) : option (option dmm_segment) :=
  let '(total, addr) := align_section bs sz in
  if total <=? 0 then Some None
  else
    let lst := total - 1 in
    if negb (base seg =? bs) then Some None
    else if negb (size seg =? sz) then Some None
    else if negb (total_num seg =? total) then Some None
    else if negb (first_addr seg =? addr) then Some None
    else
      fs ← secs seg !! 0;
      if negb (String.eqb (name fs) "") then Some None
      else if negb (String.eqb (label fs) FIRST_NAME) then Some None
      else if negb (last seg =? lst) then Some None
      else
        ls ← secs seg !! lst;
        if negb (String.eqb (name ls) "") then Some None
        else if negb (String.eqb (label ls) LAST_NAME) then Some None
        else Some (Some seg).

(** The public operations; a null pointer is [None] inside the result. *)
Definition dmm_mem_alloc (seg : dmm_segment) (sz : Z) : option (option Z * dmm_segment) :=
  '(r, seg') ← mem_alloc seg sz;
  Some (sec ← r; Some (block_addr seg (sec + 1)), seg').

Definition dmm_mem_free (seg : dmm_segment) (mem : Z) : option (Z * dmm_segment) :=
  if negb (CHECK_ADDR seg mem =? 0) then Some (-1, seg)
  else seg' ← mem_free seg ((mem - first_addr seg) / SECTION_SIZE - 1); Some (0, seg').

Definition dmm_mem_lookup (seg : dmm_segment) (nm : option string) : option (option Z) :=
  match nm with
  | None | Some "" => Some None
  | Some nm => r ← mem_lookup seg nm; Some (sec ← r; Some (block_addr seg (sec + 1)))
  end.

Definition dmm_mem_map (seg : dmm_segment) (sz : Z) (nm : option string) : option (option Z * dmm_segment) :=
  match nm with
  | None | Some "" => Some (None, seg)
  | Some nm =>
      if DMM_MEM_NAME_SIZE <=? Z.of_nat (String.length nm) then Some (None, seg)
      else
        r ← mem_lookup seg nm;
        match r with
        | Some _ => Some (None, seg)
        | None =>
            '(r, seg') ← mem_alloc seg sz;
            match r with
            | None => Some (None, seg')
            | Some sec =>
                h ← upd (secs seg') sec (set_name nm);
                Some (Some (block_addr seg (sec + 1)), set_secs seg' h)
            end
        end
  end.

Definition dmm_mem_unmap (seg : dmm_segment) (nm : option string) : option (Z * dmm_segment) :=
  match nm with
  | None | Some "" => Some (-1, seg)
  | Some nm =>
      r ← mem_lookup seg nm;
      match r with
      | Some sec => seg' ← mem_free seg sec; Some (0, seg')
      | None => Some (-1, seg)
      end
  end.

(** A segment of 16 blocks at address 4096. *)
Definition seg16 : dmm_segment := default (mk_seg 0 0 0 0 0 0 0 0 ∅) (dmm_seg_create 4096 1024).

Example seg16_run :
  (a ← dmm_mem_map seg16 100 (Some "a");
   b ← dmm_mem_map a.2 64 (Some "b");
   f ← dmm_mem_unmap b.2 (Some "a");
   l ← dmm_mem_lookup f.2 (Some "b");
   m ← dmm_mem_lookup f.2 (Some "a");
   d ← dmm_seg_dump f.2;
   Some (a.1, b.1, f.1, l, m, d.1.*1, d.2)) =
  Some (Some 4928, Some 4800, 0, Some 4800, None, [0; 10; 15], [(10, 3); (0, 8)]).
Proof. vm_compute. reflexivity. Qed.
