(* ===== verification/SegmentProofs.v ===== *)
(** * Correctness of the segment allocator

    The invariant ties the headers of a segment to two abstract sequences: the sections in
    physical order and the free list.  Allocation keeps it in every case, freeing keeps it
    when neither the section nor its predecessor sits on the free list with no free block.
    The last part shows what happens otherwise. *)
From S2P Require Import Prelude.
From S2P Require Import Links.
From S2P Require Import Segment.

Local Open Scope list_scope.
Local Open Scope Z_scope.

Abbreviation heap := (gmap Z section_t).

(** ** Stores and what they leave alone *)

(** Everything but the free-list links, and the free-list links. *)
Definition sdata (s : section_t) := (prev_rel s, used_num s, free_num s, req_size s, name s).
Definition slinks (s : section_t) := (less_rel s, more_rel s).
Definition same_data (h h' : heap) : Prop := ∀ y, sdata <$> h' !! y = sdata <$> h !! y.

Lemma same_data_refl h : same_data h h.
Proof. done. Qed.
Lemma same_data_trans h1 h2 h3 : same_data h1 h2 → same_data h2 h3 → same_data h1 h3.
Proof. intros H1 H2 y. by rewrite H2, H1. Qed.

(** A header field read through the data. *)
Lemma same_data_lookup h h' y s :
  same_data h h' → h !! y = Some s → ∃ s', h' !! y = Some s' ∧ sdata s' = sdata s.
Proof.
  intros Hd Hs. specialize (Hd y). rewrite Hs in Hd.
  destruct (h' !! y) as [s'|]; [|done]. exists s'. split; [done|]. cbn in Hd. congruence.
Qed.

Lemma same_data_next h h' y : same_data h h' → NEXT_SEC h' y = NEXT_SEC h y.
Proof.
  intros Hd. specialize (Hd y). unfold NEXT_SEC.
  destruct (h' !! y) as [s'|], (h !! y) as [s|]; try done. cbn in *. unfold sdata in Hd. congruence.
Qed.
Lemma same_data_prev h h' y : same_data h h' → PREV_SEC h' y = PREV_SEC h y.
Proof.
  intros Hd. specialize (Hd y). unfold PREV_SEC.
  destruct (h' !! y) as [s'|], (h !! y) as [s|]; try done. cbn in *. unfold sdata in Hd. congruence.
Qed.
Lemma same_data_free h h' y : same_data h h' → FREE_NUM h' y = FREE_NUM h y.
Proof.
  intros Hd. specialize (Hd y). unfold FREE_NUM.
  destruct (h' !! y) as [s'|], (h !! y) as [s|]; try done. cbn in *. unfold sdata in Hd. congruence.
Qed.

Lemma upd_Some h x f s : h !! x = Some s → upd h x f = Some (<[x := f s]> h).
Proof. unfold upd. by intros ->. Qed.

(** A store to a free-list link. *)
Lemma upd_more h x m v :
  MORE_SEC h x = Some m →
  ∃ h', upd h x (set_more_rel (SEC_REL x v)) = Some h' ∧ same_data h h' ∧ MORE_SEC h' x = Some v ∧
    (∀ y, y ≠ x → MORE_SEC h' y = MORE_SEC h y) ∧ (∀ y, LESS_SEC h' y = LESS_SEC h y).
Proof.
  unfold MORE_SEC. destruct (h !! x) as [s|] eqn:Hs; [|done]. intros _.
  eexists. split; [by apply upd_Some|]. split_and!.
  - intros y. destruct (decide (y = x)) as [->|]; [by rewrite lookup_insert_eq, Hs|by rewrite lookup_insert_ne].
  - rewrite lookup_insert_eq. cbn. unfold SEC_REL. f_equal; lia.
  - intros y Hy. by rewrite lookup_insert_ne.
  - intros y. unfold LESS_SEC. destruct (decide (y = x)) as [->|]; [by rewrite lookup_insert_eq, Hs|by rewrite lookup_insert_ne].
Qed.

Lemma upd_less h x m v :
  LESS_SEC h x = Some m →
  ∃ h', upd h x (set_less_rel (SEC_REL x v)) = Some h' ∧ same_data h h' ∧ LESS_SEC h' x = Some v ∧
    (∀ y, y ≠ x → LESS_SEC h' y = LESS_SEC h y) ∧ (∀ y, MORE_SEC h' y = MORE_SEC h y).
Proof.
  unfold LESS_SEC. destruct (h !! x) as [s|] eqn:Hs; [|done]. intros _.
  eexists. split; [by apply upd_Some|]. split_and!.
  - intros y. destruct (decide (y = x)) as [->|]; [by rewrite lookup_insert_eq, Hs|by rewrite lookup_insert_ne].
  - rewrite lookup_insert_eq. cbn. unfold SEC_REL. f_equal; lia.
  - intros y Hy. by rewrite lookup_insert_ne.
  - intros y. unfold MORE_SEC. destruct (decide (y = x)) as [->|]; [by rewrite lookup_insert_eq, Hs|by rewrite lookup_insert_ne].
Qed.

Lemma link_total h x : is_Some (h !! x) → is_Some (MORE_SEC h x) ∧ is_Some (LESS_SEC h x).
Proof. intros [s Hs]. unfold MORE_SEC, LESS_SEC. rewrite Hs. split; by eexists. Qed.

(** Linking [x] between [p] and [n]: the walk gains [x]. *)
Lemma free_insert_links h u p x n v :
  links (MORE_SEC h) (LESS_SEC h) (u ++ p :: n :: v) →
  NoDup (sources (u ++ p :: n :: v)) → NoDup (targets (u ++ p :: n :: v)) →
  x ∉ u ++ p :: n :: v → is_Some (h !! x) →
  ∃ h', free_insert h x p n = Some h' ∧ same_data h h' ∧
    links (MORE_SEC h') (LESS_SEC h') (u ++ p :: x :: n :: v).
Proof.
  intros Hl Hs Ht Hx Hhx. pose proof Hl as Hl0. apply links_app in Hl0 as [_ Hl0]. apply links_cons in Hl0 as (Hpn & Hnp & _).
  destruct (link_total h x Hhx) as [[mx Hmx] [lx Hlx]]. unfold free_insert.
  assert (x ≠ p ∧ x ≠ n) as [Hxp Hxn] by (split; intros ->; apply Hx; set_solver).
  destruct (upd_more h p n x Hpn) as (h1 & -> & D1 & M1 & M1' & L1). cbn [mbind option_bind].
  destruct (upd_less h1 n p x) as (h2 & -> & D2 & L2 & L2' & M2); [by rewrite L1|]. cbn [mbind option_bind].
  destruct (upd_more h2 x mx n) as (h3 & -> & D3 & M3 & M3' & L3); [by rewrite M2, M1'|]. cbn [mbind option_bind].
  destruct (upd_less h3 x lx p) as (h4 & -> & D4 & L4 & L4' & M4); [by rewrite L3, L2', L1|].
  exists h4. split; [done|]. split; [eauto using same_data_trans|].
  eapply links_insert; [exact Hl|done|done|done| | | | | |].
  - by rewrite M4, M3', M2.
  - done.
  - by rewrite M4.
  - by rewrite L4', L3.
  - intros y Hy Hyx. by rewrite M4, M3', M2, M1'.
  - intros y Hy Hyx. by rewrite L4', L3, L2', L1.
Qed.

(** Unlinking [x] from between [p] and [n], in either order of the two stores. *)
Lemma free_unlink_links h u p x n v h1 h2 :
  links (MORE_SEC h) (LESS_SEC h) (u ++ p :: x :: n :: v) →
  NoDup (sources (u ++ p :: x :: n :: v)) → NoDup (targets (u ++ p :: x :: n :: v)) →
  (upd h p (set_more_rel (SEC_REL p n)) = Some h1 ∧ upd h1 n (set_less_rel (SEC_REL n p)) = Some h2) ∨
  (upd h n (set_less_rel (SEC_REL n p)) = Some h1 ∧ upd h1 p (set_more_rel (SEC_REL p n)) = Some h2) →
  same_data h h2 ∧ links (MORE_SEC h2) (LESS_SEC h2) (u ++ p :: n :: v).
Proof.
  intros Hl Hs Ht Hupd. pose proof Hl as Hl0. apply links_app in Hl0 as [_ Hl0].
  apply links_cons in Hl0 as (Hpx & _ & Hl0). apply links_cons in Hl0 as (_ & Hnx & _).
  assert (Hall : same_data h h2 ∧ MORE_SEC h2 p = Some n ∧ LESS_SEC h2 n = Some p ∧
    (∀ y, y ≠ p → MORE_SEC h2 y = MORE_SEC h y) ∧ (∀ y, y ≠ n → LESS_SEC h2 y = LESS_SEC h y)).
  { destruct Hupd as [[H1 H2]|[H1 H2]].
    - destruct (upd_more h p x n Hpx) as (h1' & E1 & D1 & M1 & M1' & L1). rewrite E1 in H1. injection H1 as <-.
      destruct (upd_less h1' n x p) as (h2' & E2 & D2 & L2 & L2' & M2); [by rewrite L1|]. rewrite E2 in H2. injection H2 as <-.
      split_and!; [eauto using same_data_trans|by rewrite M2|done|intros; by rewrite M2, M1'|intros; by rewrite L2', L1].
    - destruct (upd_less h n x p Hnx) as (h1' & E1 & D1 & L1 & L1' & M1). rewrite E1 in H1. injection H1 as <-.
      destruct (upd_more h1' p x n) as (h2' & E2 & D2 & M2 & M2' & L2); [by rewrite M1|]. rewrite E2 in H2. injection H2 as <-.
      split_and!; [eauto using same_data_trans|done|by rewrite L2|intros; by rewrite M2', M1|intros; by rewrite L2, L1']. }
  destruct Hall as (HD & HM & HL & HM' & HL'). split; [done|].
  eapply links_remove; [exact Hl|done|done|done|done| |]; auto.
Qed.

(** The two stores are defined. *)
Lemma free_unlink_total h p x n :
  MORE_SEC h p = Some x → LESS_SEC h n = Some x →
  (∃ h1 h2, upd h p (set_more_rel (SEC_REL p n)) = Some h1 ∧ upd h1 n (set_less_rel (SEC_REL n p)) = Some h2) ∧
  (∃ h1 h2, upd h n (set_less_rel (SEC_REL n p)) = Some h1 ∧ upd h1 p (set_more_rel (SEC_REL p n)) = Some h2).
Proof.
  intros Hp Hn. split.
  - destruct (upd_more h p x n Hp) as (h1 & E1 & _ & _ & _ & L1).
    destruct (upd_less h1 n x p) as (h2 & E2 & _); [by rewrite L1|]. eauto.
  - destruct (upd_less h n x p Hn) as (h1 & E1 & _ & _ & _ & M1).
    destruct (upd_more h1 p x n) as (h2 & E2 & _); [by rewrite M1|]. eauto.
Qed.

(** ** The searches *)

(** The number of free blocks of a section that has a header. *)
Definition freen (h : heap) (x : Z) : Z := default 0 (FREE_NUM h x).
Definition headers (h : heap) (l : list Z) : Prop := Forall (λ x, is_Some (h !! x)) l.

Lemma freen_Some h x : is_Some (h !! x) → FREE_NUM h x = Some (freen h x).
Proof. intros [s Hs]. unfold freen, FREE_NUM. by rewrite Hs. Qed.

Lemma find_free_spec h lst num fl : ∀ fuel p,
  links (MORE_SEC h) (LESS_SEC h) (p :: fl ++ [lst]) → lst ∉ fl → headers h fl → (length fl < fuel)%nat →
  (∃ l1 x l2, fl = l1 ++ x :: l2 ∧ find_free fuel h lst num p = Some (Some x) ∧
     num <= freen h x ∧ Forall (λ y, freen h y < num) l1) ∨
  (find_free fuel h lst num p = Some None ∧ Forall (λ y, freen h y < num) fl).
Proof.
  induction fl as [|x fl IH]; intros fuel p Hl Hlst Hh Hfuel; (destruct fuel as [|fuel]; [simpl in *; lia|]);
    cbn [find_free app] in *; apply links_cons in Hl as (-> & _ & Hl); cbn [mbind option_bind].
  - rewrite Z.eqb_refl. by right.
  - apply Forall_cons in Hh as [Hx Hh]. apply not_elem_of_cons in Hlst as [Hne Hlst].
    rewrite (proj2 (Z.eqb_neq x lst)), freen_Some by auto. cbn [mbind option_bind].
    destruct (Z.ltb_spec (freen h x) num) as [Hlt|Hge].
    + assert (Hlen : (length fl < fuel)%nat) by (simpl in *; lia).
      destruct (IH fuel x Hl Hlst Hh Hlen) as [(l1 & y & l2 & -> & -> & Hy & H1)|[-> H1]].
      * left. exists (x :: l1), y, l2. auto.
      * right. auto.
    + left. exists [], x, fl. auto.
Qed.

(** Going down from [p], the last of [lst :: k]. *)
Lemma find_less_spec h lst f k : ∀ fuel a p rest,
  lst :: k = a ++ [p] → links (MORE_SEC h) (LESS_SEC h) (lst :: k ++ rest) → lst ∉ k → headers h k → (length k < fuel)%nat →
  ∃ k1 k2 a' q, k = k1 ++ k2 ∧ lst :: k1 = a' ++ [q] ∧ find_less fuel h lst f p = Some q ∧
    Forall (λ y, f < freen h y) k2 ∧ (∀ k1' x, k1 = k1' ++ [x] → freen h x <= f).
Proof.
  induction k as [|x k IH] using rev_ind; intros fuel a p rest Hp Hl Hlst Hh Hfuel.
  - destruct a as [|? []]; try done. injection Hp as <-. exists [], [], [], lst.
    destruct fuel; [simpl in *; lia|]. cbn [find_less]. rewrite Z.eqb_refl. split_and!; auto. intros [|? []]; done.
  - rewrite app_comm_cons in Hp. apply app_inj_tail in Hp as [<- <-].
    apply Forall_app in Hh as [Hh Hx]. rewrite Forall_singleton in Hx. rewrite length_app in Hfuel. simpl in Hfuel.
    assert (x ≠ lst ∧ lst ∉ k) as [Hne Hlst'] by (split; [intros ->|]; set_solver).
    destruct fuel as [|fuel]; [lia|]. cbn [find_less]. rewrite (proj2 (Z.eqb_neq x lst)), freen_Some by auto. cbn [mbind option_bind].
    destruct (Z.leb_spec (freen h x) f) as [Hle|Hgt].
    + exists (k ++ [x]), [], (lst :: k), x. rewrite app_nil_r. split_and!; auto.
      intros k1' z [_ ->]%app_inj_tail. done.
    + assert (∃ a' p', lst :: k = a' ++ [p']) as (a' & p' & Hp').
      { destruct (exists_last (l := lst :: k)) as (a' & p' & ->); [done|]. eauto. }
      assert (Hless : LESS_SEC h x = Some p').
      { rewrite <- app_assoc in Hl. cbn [app] in Hl. rewrite app_comm_cons, Hp', <- app_assoc in Hl.
        apply links_app in Hl as [_ Hl]. by apply links_cons in Hl as (_ & ? & _). }
      rewrite Hless. cbn [mbind option_bind].
      rewrite <- app_assoc in Hl. assert (length k < fuel)%nat by lia.
      destruct (IH fuel a' p' (x :: rest)) as (k1 & k2 & a1 & q & -> & Hq & -> & H2 & H1); auto.
      exists k1, (k2 ++ [x]), a1, q. rewrite app_assoc. split_and!; auto. apply Forall_app. auto.
Qed.

(** Going up from the first node of [l ++ [lst]]. *)
Lemma find_more_spec h lst f l : ∀ fuel p x v,
  l ++ [lst] = x :: v → links (MORE_SEC h) (LESS_SEC h) (p :: l ++ [lst]) → lst ∉ l → headers h l → (length l < fuel)%nat →
  ∃ l1 l2 y v', l = l1 ++ l2 ∧ l2 ++ [lst] = y :: v' ∧ find_more fuel h lst f x = Some y ∧
    Forall (λ z, freen h z < f) l1 ∧ (∀ z l2', l2 = z :: l2' → f <= freen h z).
Proof.
  induction l as [|z l IH]; intros fuel p x v Hx Hl Hlst Hh Hfuel; (destruct fuel as [|fuel]; [simpl in *; lia|]); cbn [app find_more] in *; injection Hx as <- <-.
  - rewrite Z.eqb_refl. exists [], [], lst, []. split_and!; auto. by intros ? ? [=].
  - apply Forall_cons in Hh as [Hz Hh]. apply not_elem_of_cons in Hlst as [Hne Hlst].
    rewrite (proj2 (Z.eqb_neq z lst)), freen_Some by auto. cbn [mbind option_bind].
    destruct (Z.leb_spec f (freen h z)) as [Hle|Hgt].
    + exists [], (z :: l), z, (l ++ [lst]). split_and!; auto. by intros ? ? [= <- <-].
    + apply links_cons in Hl as (_ & _ & Hl).
      destruct (l ++ [lst]) as [|x' v'] eqn:Hx'; [by destruct l|].
      pose proof Hl as Hl0. apply links_cons in Hl0 as (-> & _ & _). cbn [mbind option_bind].
      assert (length l < fuel)%nat by (simpl in *; lia).
      destruct (IH fuel z x' v') as (l1 & l2 & y & w & -> & Hy & -> & H1 & H2); auto.
      exists (z :: l1), l2, y, w. split_and!; auto.
Qed.

(** ** The physical order *)

Record phys_wf (h : heap) (lst : Z) (phys : list Z) : Prop := {
  phys_ends : ∃ mid, phys = 0 :: mid ++ [lst];
  phys_links : links (NEXT_SEC h) (PREV_SEC h) phys;
  phys_secs : ∀ x, x ∈ sources phys → ∃ s, h !! x = Some s ∧ 1 <= used_num s ∧ 0 <= free_num s;
  phys_last : ∃ s, h !! lst = Some s ∧ free_num s = 0 ∧ name s = EmptyString
}.

Lemma elem_sources x w : x ∈ sources w → x ∈ w.
Proof.
  unfold sources. induction w as [|a [|b w] IH]; [done|by intros ?%elem_of_nil|].
  intros [->|Hx]%elem_of_cons; [left|right; by apply IH].
Qed.

Lemma NEXT_SEC_lookup h x s : h !! x = Some s → NEXT_SEC h x = Some (x + (free_num s + used_num s)).
Proof. unfold NEXT_SEC. by intros ->. Qed.
Lemma PREV_SEC_lookup h x s : h !! x = Some s → PREV_SEC h x = Some (x + prev_rel s).
Proof. unfold PREV_SEC. by intros ->. Qed.
Lemma freen_lookup h x s : h !! x = Some s → freen h x = free_num s.
Proof. unfold freen, FREE_NUM. by intros ->. Qed.

(** Sections lie one behind the other. *)
Lemma phys_increasing h lst phys : phys_wf h lst phys → StronglySorted Z.lt phys.
Proof.
  intros [_ Hl Hsecs _]. apply Sorted_StronglySorted; [intros a b c; lia|].
  induction phys as [|x [|y w] IH]; [constructor|by repeat constructor|].
  apply links_cons in Hl as (Hn & _ & Hl). constructor.
  - apply IH; [done|]. intros z Hz. apply Hsecs. by right.
  - constructor. destruct (Hsecs x) as (s & Hs & Hu & Hf); [left|].
    rewrite (NEXT_SEC_lookup _ _ _ Hs) in Hn. injection Hn. lia.
Qed.

Lemma increasing_NoDup w : StronglySorted Z.lt w → NoDup w.
Proof.
  induction 1 as [|x w _ IH Hx]; constructor; [|done].
  intros Hin. rewrite Forall_forall in Hx. specialize (Hx _ Hin). simpl in Hx. lia.
Qed.

Lemma NoDup_sources w : NoDup w → NoDup (sources w).
Proof.
  destruct w as [|x w _] using rev_ind; [done|]. rewrite sources_snoc. by intros (? & _)%NoDup_app.
Qed.
Lemma NoDup_targets w : NoDup w → NoDup (targets w).
Proof. destruct w; [done|]. by intros [_ ?]%NoDup_cons. Qed.

Lemma phys_NoDup h lst phys : phys_wf h lst phys → NoDup phys.
Proof. intros H. by eapply increasing_NoDup, phys_increasing. Qed.

(** An index strictly between two neighbours is no section. *)
Lemma between_not_in u x y v z : StronglySorted Z.lt (u ++ x :: y :: v) → x < z < y → z ∉ u ++ x :: y :: v.
Proof.
  intros Hs Hz Hin. apply elem_of_app in Hin as [Hin|Hin].
  - induction u as [|a u IH]; [by apply elem_of_nil in Hin|].
    cbn in Hs. apply StronglySorted_inv in Hs as [Hs Ha]. apply elem_of_cons in Hin as [->|Hin]; [|by apply IH].
    rewrite Forall_forall in Ha. assert (a < x) by (apply Ha; set_solver). lia.
  - assert (Hs' : StronglySorted Z.lt (x :: y :: v)) by (clear -Hs; induction u; [done|apply IHu; by apply StronglySorted_inv in Hs as [? _]]).
    apply StronglySorted_inv in Hs' as [Hs' _]. apply StronglySorted_inv in Hs' as [_ Hy].
    rewrite Forall_forall in Hy. apply elem_of_cons in Hin as [->|Hin]; [lia|]. apply elem_of_cons in Hin as [->|Hin]; [lia|].
    specialize (Hy _ Hin). simpl in Hy. lia.
Qed.

(** The place of an inner section. *)
Lemma phys_split h lst phys x :
  phys_wf h lst phys → x ∈ sources phys →
  ∃ u y v s, phys = u ++ x :: y :: v ∧ h !! x = Some s ∧ y = x + (free_num s + used_num s) ∧ 1 <= used_num s ∧ 0 <= free_num s.
Proof.
  intros Hw Hx. pose proof Hw as [_ Hl Hsecs _]. destruct (Hsecs x Hx) as (s & Hs & Hu & Hf).
  apply list_elem_of_split in Hx as (u & v & Hsrc).
  destruct phys as [|z w _] using rev_ind; [by destruct u|]. rewrite sources_snoc in Hsrc. subst w.
  destruct (v ++ [z]) as [|y v'] eqn:Hv; [by destruct v|].
  exists u, y, v', s. rewrite <- app_assoc in Hl |- *. cbn [app] in Hl |- *. rewrite Hv in Hl |- *.
  split; [done|]. split; [done|]. split; [|done].
  apply links_app in Hl as [_ Hl]. apply links_cons in Hl as (Hn & _ & _).
  rewrite (NEXT_SEC_lookup _ _ _ Hs) in Hn. by injection Hn.
Qed.

(** ** Allocation splits a section *)

(** The heap after the header [S] is written at [sec] and [pos] gives up [num] free blocks. *)
Definition split_heap (h : heap) (pos sec next num : Z) (sp sn S : section_t) : heap :=
  <[pos := set_free_num (free_num sp - num) sp]> (<[sec := S]> (<[next := set_prev_rel (- num) sn]> h)).

Lemma alloc_split h lst u pos next v num sz sp sn :
  phys_wf h lst (u ++ pos :: next :: v) → h !! pos = Some sp → h !! next = Some sn →
  1 <= num <= free_num sp → next = pos + (free_num sp + used_num sp) → 1 <= used_num sp →
  let sec := next - num in
  let S := mk_sec (SEC_REL sec pos) num 0 sz 0 0 EmptyString EmptyString in
  let h' := split_heap h pos sec next num sp sn S in
  (sec ∉ u ++ pos :: next :: v) ∧ pos < sec < next ∧
  phys_wf h' lst (u ++ pos :: sec :: next :: v) ∧
  (∀ y, y ≠ sec → slinks <$> (h' !! y) = slinks <$> (h !! y)) ∧
  (∀ y, y ≠ sec → y ≠ pos → freen h' y = freen h y) ∧ freen h' pos = freen h pos - num ∧ freen h' sec = 0 ∧
  (∀ y, y ≠ sec → used_num <$> (h' !! y) = used_num <$> (h !! y)) ∧
  (∀ y, y ≠ sec → name <$> (h' !! y) = name <$> (h !! y)) ∧ h' !! sec = Some S.
Proof.
  intros Hw Hsp Hsn Hnum Hnext Hused sec S h'.
  pose proof (phys_increasing _ _ _ Hw) as Hinc. pose proof (phys_NoDup _ _ _ Hw) as Hnd.
  assert (Hsec : pos < sec < next) by (unfold sec; lia).
  assert (Hnew : sec ∉ u ++ pos :: next :: v) by (by apply between_not_in).
  assert (Hy : ∀ y, h' !! y = if decide (y = pos) then Some (set_free_num (free_num sp - num) sp)
    else if decide (y = sec) then Some S else if decide (y = next) then Some (set_prev_rel (- num) sn) else h !! y).
  { intros y. unfold h', split_heap. repeat case_decide; subst; simplify_map_eq; done. }
  split; [done|]. split; [done|]. split; [|split_and!].
  - destruct Hw as [(mid & Hends) Hl Hsecs Hlast]. split.
    + destruct u as [|a u]; cbn [app] in Hends |- *; injection Hends as -> Hrest.
      * destruct (exists_last (l := next :: v)) as (v' & z & Hv); [done|]. rewrite Hv in Hrest |- *.
        apply app_inj_tail in Hrest as [<- ->]. by exists (sec :: v').
      * destruct (exists_last (l := next :: v)) as (v' & z & Hv); [done|]. rewrite Hv in Hrest |- *.
        rewrite app_comm_cons, app_assoc in Hrest. apply app_inj_tail in Hrest as [_ ->].
        exists (u ++ pos :: sec :: v'). by rewrite <- app_assoc.
    + eapply links_insert; [exact Hl|by apply NoDup_sources|by apply NoDup_targets|done|..].
      * rewrite (NEXT_SEC_lookup _ _ (set_free_num (free_num sp - num) sp)) by (rewrite Hy; by case_decide).
        cbn. f_equal; unfold sec; lia.
      * rewrite (PREV_SEC_lookup _ _ S) by (rewrite Hy; repeat case_decide; done || lia). cbn. unfold SEC_REL. f_equal; lia.
      * rewrite (NEXT_SEC_lookup _ _ S) by (rewrite Hy; repeat case_decide; done || lia). cbn. f_equal; unfold sec; lia.
      * rewrite (PREV_SEC_lookup _ _ (set_prev_rel (- num) sn)) by (rewrite Hy; repeat case_decide; done || lia). cbn. f_equal; unfold sec; lia.
      * intros y Hyp Hys. unfold NEXT_SEC. rewrite Hy. repeat case_decide; try done. subst y. by rewrite Hsn.
      * intros y Hyn Hys. unfold PREV_SEC. rewrite Hy. repeat case_decide; try done. subst y. by rewrite Hsp.
    + intros x Hx. rewrite sources_app in Hx. cbn [sources removelast] in Hx.
      rewrite Hy. case_decide; [eexists; split; [done|]; cbn; lia|]. case_decide; [eexists; split; [done|]; cbn; lia|].
      destruct (Hsecs x) as (s & Hs & Hu & Hf).
      { rewrite sources_app. cbn [sources removelast]. set_solver. }
      case_decide; [subst x; rewrite Hsn in Hs; injection Hs as <-; by eexists|by eexists].
    + destruct Hlast as (s & Hs & Hf & Hn). rewrite Hy. assert (lst ∈ u ++ pos :: next :: v) by (rewrite Hends; set_solver).
      case_decide; [subst lst; rewrite Hsp in Hs; injection Hs as <-; lia|].
      case_decide; [subst lst; done|]. case_decide; [subst lst; rewrite Hsn in Hs; injection Hs as <-; by eexists|by eexists].
  - intros y Hys. rewrite Hy. repeat case_decide; subst; try done; [by rewrite Hsp|by rewrite Hsn].
  - intros y Hys Hyp. unfold freen, FREE_NUM. rewrite Hy. repeat case_decide; subst; try done. by rewrite Hsn.
  - rewrite (freen_lookup h _ sp), (freen_lookup h' _ (set_free_num (free_num sp - num) sp)); [done|rewrite Hy; by case_decide|done].
  - rewrite (freen_lookup _ _ S); [done|]. rewrite Hy. repeat case_decide; done || lia.
  - intros y Hys. rewrite Hy. repeat case_decide; subst; try done; [by rewrite Hsp|by rewrite Hsn].
  - intros y Hys. rewrite Hy. repeat case_decide; subst; try done; [by rewrite Hsp|by rewrite Hsn].
  - rewrite Hy. repeat case_decide; done || lia.
Qed.

(** ** Moving a section within the free list *)

(** The circular walk of a free list, and that its links are distinct. *)
Definition ring (lst : Z) (fl : list Z) : list Z := lst :: fl ++ [lst].

(** The neighbours [p] and [n] at a position of the circular walk. *)
Lemma ring_split lst l1 l2 :
  ∃ a p n b, lst :: l1 = a ++ [p] ∧ l2 ++ [lst] = n :: b ∧ ring lst (l1 ++ l2) = a ++ p :: n :: b ∧
    ∀ x, ring lst (l1 ++ x :: l2) = a ++ p :: x :: n :: b.
Proof.
  destruct (exists_last (l := lst :: l1)) as (a & p & Ha); [done|].
  destruct (l2 ++ [lst]) as [|n b] eqn:Hb; [by destruct l2|].
  exists a, p, n, b. unfold ring. split; [done|]. split; [done|]. split; [|intros x].
  - rewrite <- app_assoc, Hb, app_comm_cons, Ha. by rewrite <- app_assoc.
  - rewrite <- app_assoc. cbn [app]. rewrite Hb, app_comm_cons, Ha. by rewrite <- app_assoc.
Qed.

Lemma ring_NoDup lst fl : NoDup fl → lst ∉ fl → NoDup (sources (ring lst fl)) ∧ NoDup (targets (ring lst fl)).
Proof.
  intros Hn Hl. unfold ring. split.
  - rewrite app_comm_cons, sources_snoc. by constructor.
  - cbn. apply NoDup_app. split; [done|]. split; [intros x Hx ->%list_elem_of_singleton; done|apply NoDup_singleton].
Qed.

Lemma headers_singleton h x : headers h [x] ↔ is_Some (h !! x).
Proof. unfold headers. by rewrite Forall_singleton. Qed.

Lemma headers_same_data h h' l : same_data h h' → headers h l → headers h' l.
Proof.
  intros Hd Hf. eapply Forall_impl; [exact Hf|]. intros x [s Hs]. destruct (same_data_lookup _ _ _ _ Hd Hs) as (s' & -> & _). by eexists.
Qed.

Lemma freen_same_data h h' y : same_data h h' → freen h' y = freen h y.
Proof. intros Hd. unfold freen. by rewrite (same_data_free _ _ _ Hd). Qed.

(** Resetting the links of a node outside the walk. *)
Lemma reset_links h pos w :
  links (MORE_SEC h) (LESS_SEC h) w → pos ∉ w → is_Some (h !! pos) →
  ∃ h1 h2, upd h pos (set_more_rel 0) = Some h1 ∧ upd h1 pos (set_less_rel 0) = Some h2 ∧
    same_data h h2 ∧ links (MORE_SEC h2) (LESS_SEC h2) w.
Proof.
  intros Hl Hpos Hh. destruct (link_total h pos Hh) as [[m Hm] [l Hls]].
  replace 0 with (SEC_REL pos pos) by (unfold SEC_REL; lia).
  destruct (upd_more h pos m pos Hm) as (h1 & -> & D1 & M1 & M1' & L1).
  destruct (upd_less h1 pos l pos) as (h2 & E2 & D2 & L2 & L2' & M2); [by rewrite L1|].
  exists h1, h2. split; [done|]. split; [done|]. split; [eauto using same_data_trans|].
  eapply links_frame; [exact Hl| |]; intros y Hy.
  - rewrite M2, M1'; [done|]. intros ->. by apply Hpos, elem_sources.
  - rewrite L2', L1; [done|]. intros ->. apply Hpos. destruct w; [by apply elem_of_nil in Hy|by right].
Qed.

Lemma free_relink_spec fuel h lst l1 pos l2 f :
  links (MORE_SEC h) (LESS_SEC h) (ring lst (l1 ++ pos :: l2)) → NoDup (l1 ++ pos :: l2) → lst ∉ l1 ++ pos :: l2 →
  headers h (l1 ++ pos :: l2) → (length l1 < fuel)%nat →
  ∃ k1 k2 h', l1 = k1 ++ k2 ∧ free_relink fuel h lst pos f = Some h' ∧ same_data h h' ∧
    links (MORE_SEC h') (LESS_SEC h') (ring lst (k1 ++ pos :: k2 ++ l2)) ∧
    Forall (λ y, f < freen h y) k2 ∧ (∀ k1' x, k1 = k1' ++ [x] → freen h x <= f).
Proof.
  intros Hl Hnd Hlst Hh Hfuel. destruct (ring_NoDup _ _ Hnd Hlst) as [Hs Ht].
  assert (Hnd' : NoDup (l1 ++ l2) ∧ (pos ∉ ring lst (l1 ++ l2)) ∧ (lst ∉ l1 ++ l2)).
  { rewrite <- Permutation_middle in Hnd. apply NoDup_cons in Hnd as [? ?]. unfold ring. split_and!; [done|set_solver|set_solver]. }
  destruct Hnd' as (Hnd' & Hpos & Hlst').
  destruct (ring_split lst l1 l2) as (a & p & n & b & Ha & _ & Hw & Hwx). rewrite Hwx in Hl, Hs, Ht.
  pose proof Hl as Hl0. apply links_app in Hl0 as [_ Hl0]. apply links_cons in Hl0 as (Hp & Hposl & Hl0). apply links_cons in Hl0 as (Hposm & Hn & _).
  unfold free_relink. rewrite Hposl, Hposm. cbn [mbind option_bind].
  destruct (free_unlink_total h p pos n Hp Hn) as [(h1 & h2 & E1 & E2) _]. rewrite E1. cbn [mbind option_bind]. rewrite E2. cbn [mbind option_bind].
  destruct (free_unlink_links h a p pos n b h1 h2 Hl Hs Ht) as [D2 Hl2]; [by left|]. rewrite <- Hw in Hl2.
  assert (Hp2 : headers h2 [pos]).
  { apply (headers_same_data h h2 [pos] D2). apply Forall_app in Hh as [_ Hh]. apply Forall_cons in Hh as [Hx _]. by apply headers_singleton. }
  destruct (reset_links h2 pos _ Hl2 Hpos) as (h3 & h4 & -> & E4 & D4 & Hl4); [by apply headers_singleton|]. cbn [mbind option_bind]. rewrite E4. cbn [mbind option_bind].
  assert (D : same_data h h4) by eauto using same_data_trans.
  assert (Hh4 : headers h4 l1) by (apply (headers_same_data h h4 _ D); by apply Forall_app in Hh as [? _]).
  pose proof Hl4 as Hl4'. unfold ring in Hl4'. rewrite <- app_assoc in Hl4'.
  destruct (find_less_spec h4 lst f l1 fuel a p (l2 ++ [lst]) Ha Hl4') as (k1 & k2 & a' & q & -> & Hq & -> & H2 & H1); [set_solver|done|done|].
  cbn [mbind option_bind]. rewrite <- app_assoc in Hl4, Hnd', Hlst', Hpos.
  destruct (ring_split lst k1 (k2 ++ l2)) as (a1 & p1 & n' & b' & Ha1 & _ & Hw4 & Hw4x).
  rewrite Hq in Ha1. apply app_inj_tail in Ha1 as [<- <-].
  destruct (ring_NoDup lst (k1 ++ k2 ++ l2) Hnd' Hlst') as [Hs4 Ht4].
  rewrite Hw4 in Hl4, Hs4, Ht4, Hpos. pose proof Hl4 as Hl5. apply links_app in Hl5 as [_ Hl5]. apply links_cons in Hl5 as (-> & _ & _). cbn [mbind option_bind].
  destruct (free_insert_links h4 a' q pos n' b' Hl4 Hs4 Ht4 Hpos) as (h5 & -> & D5 & Hl6).
  { apply (headers_same_data h2 h4 [pos] D4) in Hp2. by apply headers_singleton. }
  exists k1, k2, h5. rewrite Hw4x. split; [done|]. split; [done|]. split; [eauto using same_data_trans|]. split_and!; [done| |].
  - eapply Forall_impl; [exact H2|]. intros y. simpl. by rewrite (freen_same_data h h4 y D).
  - intros k1' x Hx. specialize (H1 k1' x Hx). by rewrite (freen_same_data h h4 x D) in H1.
Qed.

(** ** The invariant of a segment *)

Definition usedn (h : heap) (x : Z) : Z := default 0 (used_num <$> (h !! x)).
Definition sum (f : Z → Z) (l : list Z) : Z := foldr (λ x a, f x + a) 0 l.

Lemma sum_app f l1 l2 : sum f (l1 ++ l2) = sum f l1 + sum f l2.
Proof. induction l1; simpl in *; lia. Qed.
Lemma sum_ext f g l : (∀ x, x ∈ l → f x = g x) → sum f l = sum g l.
Proof. intros H. induction l as [|x l IH]; [done|]. simpl. rewrite H, IH; [done| |left]. intros y Hy. apply H. by right. Qed.

Record free_wf (h : heap) (lst : Z) (phys fl : list Z) : Prop := {
  fl_links : links (MORE_SEC h) (LESS_SEC h) (ring lst fl);
  fl_nodup : NoDup fl;
  fl_sub : ∀ x, x ∈ fl → x ∈ sources phys;
  fl_all : ∀ x, x ∈ sources phys → 0 < freen h x → x ∈ fl;
  fl_sorted : StronglySorted (λ a b, freen h a <= freen h b) fl
}.

(** [phys] is the physical order of the sections and [fl] the free list. *)
Record seg_inv (seg : dmm_segment) (phys fl : list Z) : Prop := {
  inv_phys : phys_wf (secs seg) (last seg) phys;
  inv_free : free_wf (secs seg) (last seg) phys fl;
  inv_total : last seg = total_num seg - 1;
  inv_used : seg_used_num seg = sum (usedn (secs seg)) (sources phys);
  inv_count : sec_num seg = Z.of_nat (length phys)
}.

(** The sections fill the segment up to the last header. *)
Lemma links_sum h w z :
  links (NEXT_SEC h) (PREV_SEC h) (w ++ [z]) → headers h w →
  sum (usedn h) w + sum (freen h) w = z - hd z w.
Proof.
  induction w as [|x w IH]; intros Hl Hh; [simpl; lia|].
  apply Forall_cons in Hh as [[s Hs] Hh]. cbn [app] in Hl.
  assert (Hl' : NEXT_SEC h x = Some (hd z w) ∧ links (NEXT_SEC h) (PREV_SEC h) (w ++ [z])).
  { destruct w as [|y w]; cbn [app] in *; apply links_cons in Hl as (? & _ & ?); done. }
  destruct Hl' as [Hn Hl']. specialize (IH Hl' Hh). cbn [sum foldr hd].
  rewrite (NEXT_SEC_lookup _ _ _ Hs) in Hn. injection Hn as Hn. fold (sum (usedn h) w) (sum (freen h) w).
  rewrite (freen_lookup _ _ _ Hs). unfold usedn at 1. rewrite Hs. cbn. lia.
Qed.

Lemma phys_headers h lst phys : phys_wf h lst phys → headers h (sources phys).
Proof. intros [_ _ Hs _]. apply Forall_forall. intros x Hx. destruct (Hs x Hx) as (s & -> & _). by eexists. Qed.

Lemma phys_sum h lst phys : phys_wf h lst phys → sum (usedn h) (sources phys) + sum (freen h) (sources phys) = lst.
Proof.
  intros Hw. pose proof (phys_headers _ _ _ Hw) as Hh. destruct Hw as [(mid & ->) Hl _ _].
  rewrite app_comm_cons in *. rewrite sources_snoc in *. rewrite (links_sum h (0 :: mid) lst Hl Hh). simpl. lia.
Qed.

Lemma sum_le f l x : x ∈ l → (∀ y, y ∈ l → 0 <= f y) → f x <= sum f l.
Proof.
  intros Hx Hpos. induction l as [|y l IH]; [by apply elem_of_nil in Hx|]. simpl. fold (sum f l).
  assert (Hnn : 0 <= sum f l).
  { clear -Hpos. induction l as [|z l IH]; [done|]. simpl. fold (sum f l).
    assert (0 <= f z) by (apply Hpos; set_solver). assert (0 <= sum f l) by (apply IH; set_solver). lia. }
  apply elem_of_cons in Hx as [->|Hx]; [lia|].
  assert (0 <= f y) by (apply Hpos; left). assert (f x <= sum f l) by (apply IH; [done|intros; apply Hpos; by right]). lia.
Qed.

Lemma phys_freen_nonneg h lst phys x : phys_wf h lst phys → x ∈ sources phys → 0 <= freen h x.
Proof. intros [_ _ Hs _] Hx. destruct (Hs x Hx) as (s & Hs' & _ & ?). by rewrite (freen_lookup _ _ _ Hs'). Qed.

(** No section has more free blocks than the segment has unused ones. *)
Lemma free_le_unused seg phys fl x :
  seg_inv seg phys fl → x ∈ sources phys → freen (secs seg) x < total_num seg - seg_used_num seg.
Proof.
  intros [Hp _ Ht Hu _] Hx. pose proof (phys_sum _ _ _ Hp).
  pose proof (sum_le (freen (secs seg)) (sources phys) x Hx) as Hle.
  assert (freen (secs seg) x <= sum (freen (secs seg)) (sources phys)) by (apply Hle; intros; by eapply phys_freen_nonneg). lia.
Qed.

(** There are at most as many sections as blocks, so the walks have enough fuel. *)
Lemma increasing_length w x : StronglySorted Z.lt (x :: w) → ∀ z, Forall (λ y, y <= z) (x :: w) → Z.of_nat (length w) <= z - x.
Proof.
  revert x. induction w as [|y w IH]; intros x Hs z Hz; cbn [length]; [inversion_clear Hz; lia|].
  apply StronglySorted_inv in Hs as [Hs Hx]. inversion_clear Hx. inversion_clear Hz.
  specialize (IH y Hs z). assert (Z.of_nat (length w) <= z - y) by auto. lia.
Qed.

Lemma phys_length seg phys fl : seg_inv seg phys fl → (length phys < walk_fuel seg)%nat.
Proof.
  intros [Hp _ Ht _ _]. pose proof (phys_increasing _ _ _ Hp) as Hs. destruct Hp as [(mid & ->) _ _ _].
  assert (Hall : Forall (λ y, y <= last seg) (0 :: mid ++ [last seg])).
  { rewrite app_comm_cons in Hs |- *. clear -Hs. remember (0 :: mid) as w. clear Heqw mid. induction w as [|y w IH].
    - by repeat constructor.
    - cbn in Hs. apply StronglySorted_inv in Hs as [Hs Hy]. constructor; [|by apply IH].
      rewrite Forall_forall in Hy. assert (y < last seg) by (apply Hy; set_solver). lia. }
  pose proof (increasing_length _ _ Hs _ Hall) as Hlen. unfold walk_fuel. cbn [length]. lia.
Qed.

Lemma fl_facts seg phys fl :
  seg_inv seg phys fl →
  (last seg ∉ fl) ∧ headers (secs seg) fl ∧ (length fl < walk_fuel seg)%nat ∧ (last seg ∉ sources phys).
Proof.
  intros Hinv. pose proof (phys_length _ _ _ Hinv) as Hlen. destruct Hinv as [Hp [_ Hnd Hsub _ _] _ _ _].
  pose proof (phys_NoDup _ _ _ Hp) as Hn. pose proof (phys_headers _ _ _ Hp) as Hh.
  assert (Hnot : last seg ∉ sources phys).
  { destruct Hp as [(mid & ->) _ _ _]. rewrite app_comm_cons in Hn |- *. rewrite sources_snoc.
    apply NoDup_app in Hn as (_ & Hn & _). intros Hin. apply (Hn _ Hin). left. }
  split_and!; auto.
  - apply Forall_forall. intros x Hx. unfold headers in Hh. rewrite Forall_forall in Hh. auto.
  - assert (length fl <= length phys)%nat; [|lia].
    assert (Hsub' : fl ⊆ phys) by (intros x Hx; by apply elem_sources, Hsub).
    by apply submseteq_length, NoDup_submseteq.
Qed.

(** ** Allocation *)

(** Lowering the key of [pos] and moving it down keeps a list sorted. *)
Lemma sorted_move_down (g g' : Z → Z) k1 k2 pos l2 :
  StronglySorted (λ a b, g a <= g b) ((k1 ++ k2) ++ pos :: l2) → NoDup ((k1 ++ k2) ++ pos :: l2) →
  (∀ y, y ≠ pos → y ∈ k1 ++ k2 ++ l2 → g' y = g y) → g' pos <= g pos →
  Forall (λ y, g' pos < g' y) k2 → (∀ k1' x, k1 = k1' ++ [x] → g' x <= g' pos) →
  StronglySorted (λ a b, g' a <= g' b) (k1 ++ pos :: k2 ++ l2).
Proof.
  intros Hs Hnd Hg Hpos H2 H1. rewrite <- Permutation_middle in Hnd. apply NoDup_cons in Hnd as [Hni Hnd].
  assert (Hg' : ∀ y, y ∈ k1 ++ k2 ++ l2 → g' y = g y) by (intros y Hy; apply Hg; [intros ->; set_solver|done]).
  rewrite !sorted_app in Hs. destruct Hs as ((Hk1 & Hk2 & H12) & Hpl & Hkl).
  apply StronglySorted_inv in Hpl as [Hl2 Hp]. rewrite Forall_forall in Hp. rewrite Forall_forall in H2.
  assert (Hle : ∀ l, (∀ y, y ∈ l → y ∈ k1 ++ k2 ++ l2) → StronglySorted (λ a b, g a <= g b) l → StronglySorted (λ a b, g' a <= g' b) l).
  { intros l Hin. induction 1 as [|x l _ IH Hx]; constructor; [apply IH; set_solver|].
    rewrite Forall_forall in Hx |- *. intros y Hy. rewrite !Hg' by set_solver. by apply Hx. }
  assert (Hk1pos : ∀ a, a ∈ k1 → g' a <= g' pos).
  { intros a Ha. destruct k1 as [|x k1' _] using rev_ind; [by apply elem_of_nil in Ha|].
    specialize (H1 k1' x eq_refl). apply sorted_app in Hk1 as (_ & _ & Hk1). apply elem_of_app in Ha as [Ha|Ha]; [|apply list_elem_of_singleton in Ha; by subst a].
    assert (g a <= g x) by (apply Hk1; set_solver). rewrite (Hg' a), (Hg' x) in * by set_solver. lia. }
  assert (Hposl2 : ∀ b, b ∈ l2 → g' pos <= g' b) by (intros b Hb; rewrite (Hg' b) by set_solver; specialize (Hp b Hb); simpl in Hp; lia).
  apply sorted_app. split; [apply Hle; [set_solver|done]|]. split.
  - constructor; [apply Hle; [set_solver|]; apply sorted_app; split_and!; auto; intros a b Ha Hb; apply Hkl; set_solver|].
    apply Forall_forall. intros y [Hy|Hy]%elem_of_app; [specialize (H2 y Hy); simpl in H2; lia|by apply Hposl2].
  - intros a b Ha Hb. apply elem_of_cons in Hb as [->|Hb]; [by apply Hk1pos|].
    rewrite !Hg' by set_solver. apply elem_of_app in Hb as [Hb|Hb]; [by apply H12|apply Hkl; set_solver].
Qed.

Lemma links_slinks h h' w :
  (∀ y, y ∈ w → slinks <$> (h' !! y) = slinks <$> (h !! y)) →
  links (MORE_SEC h) (LESS_SEC h) w → links (MORE_SEC h') (LESS_SEC h') w.
Proof.
  intros Hy Hl. assert (Hm : ∀ y, y ∈ w → MORE_SEC h' y = MORE_SEC h y ∧ LESS_SEC h' y = LESS_SEC h y).
  { intros y Hin. specialize (Hy y Hin). unfold MORE_SEC, LESS_SEC.
    destruct (h' !! y), (h !! y); try done. cbn in *. unfold slinks in Hy. split; congruence. }
  eapply links_frame; [exact Hl| |]; intros y Hin; [by apply Hm, elem_sources|].
  apply Hm. destruct w; [by apply elem_of_nil in Hin|by right].
Qed.

Lemma phys_wf_same_data h h' lst phys : same_data h h' → phys_wf h lst phys → phys_wf h' lst phys.
Proof.
  intros Hd [He Hl Hs Hla]. split; [done| | |].
  - eapply links_frame; [exact Hl| |]; intros y _; [by apply same_data_next|by apply same_data_prev].
  - intros x Hx. destruct (Hs x Hx) as (s & Hs' & ? & ?). destruct (same_data_lookup _ _ _ _ Hd Hs') as (s' & ? & Heq).
    exists s'. unfold sdata in Heq. injection Heq as ? ? ? ? ?. split_and!; [done|congruence..].
  - destruct Hla as (s & Hs' & ? & ?). destruct (same_data_lookup _ _ _ _ Hd Hs') as (s' & ? & Heq).
    exists s'. unfold sdata in Heq. injection Heq as ? ? ? ? ?. split_and!; [done|congruence..].
Qed.

Lemma usedn_same_data h h' y : same_data h h' → usedn h' y = usedn h y.
Proof.
  intros Hd. specialize (Hd y). unfold usedn. destruct (h' !! y), (h !! y); try done. cbn in *. unfold sdata in Hd. congruence.
Qed.

(** The free list and its head are sections. *)
Lemma not_in_ring h lst phys fl x :
  phys_wf h lst phys → (∀ y, y ∈ fl → y ∈ sources phys) → x ∉ phys → x ∉ ring lst fl.
Proof.
  intros [(mid & ->) _ _ _] Hsub Hx Hin. unfold ring in Hin. apply elem_of_cons in Hin as [->|Hin].
  - apply Hx. rewrite app_comm_cons. apply elem_of_app. right. left.
  - apply elem_of_app in Hin as [Hin|Hin]; [by apply Hx, elem_sources, Hsub|].
    apply list_elem_of_singleton in Hin as ->. apply Hx. rewrite app_comm_cons. apply elem_of_app. right. left.
Qed.

(** The free list after a section gave up [num] blocks to [sec] and moved down. *)
Lemma alloc_free_wf h h' h2 lst u pos sec next v k1 k2 l2 num :
  free_wf h lst (u ++ pos :: next :: v) ((k1 ++ k2) ++ pos :: l2) → 0 <= num →
  sec ∉ u ++ pos :: next :: v → same_data h' h2 →
  links (MORE_SEC h2) (LESS_SEC h2) (ring lst (k1 ++ pos :: k2 ++ l2)) →
  (∀ y, y ≠ sec → y ≠ pos → freen h' y = freen h y) → freen h' pos = freen h pos - num → freen h' sec = 0 →
  Forall (λ y, freen h' pos < freen h' y) k2 → (∀ k1' x, k1 = k1' ++ [x] → freen h' x <= freen h' pos) →
  free_wf h2 lst (u ++ pos :: sec :: next :: v) (k1 ++ pos :: k2 ++ l2).
Proof.
  intros [_ Hnd Hsub Hall Hsort] Hnum Hnew HD Hl Hf Hfp Hfs H2 H1.
  assert (Hperm : k1 ++ pos :: k2 ++ l2 ≡ₚ (k1 ++ k2) ++ pos :: l2) by (rewrite <- !Permutation_middle; by rewrite app_assoc).
  assert (Hsrc : ∀ x, x ∈ sources (u ++ pos :: sec :: next :: v) ↔ x = sec ∨ x ∈ sources (u ++ pos :: next :: v)).
  { intros x. rewrite !sources_app. cbn [sources removelast]. rewrite !elem_of_app, !elem_of_cons. tauto. }
  split; [done|by rewrite Hperm| | |].
  - intros x Hx. rewrite Hperm in Hx. apply Hsrc. right. by apply Hsub.
  - intros x Hx Hpos. rewrite (freen_same_data _ _ _ HD) in Hpos. rewrite Hperm.
    apply Hsrc in Hx as [->|Hx]; [lia|]. apply Hall; [done|].
    destruct (decide (x = pos)) as [->|]; [lia|]. rewrite Hf in Hpos; [done| |done].
    intros ->. by apply Hnew, elem_sources.
  - assert (Hd : StronglySorted (λ a b, freen h' a <= freen h' b) (k1 ++ pos :: k2 ++ l2)).
    { apply (sorted_move_down (freen h)); [done|done| |lia|done|done].
      intros y Hy Hin. apply Hf; [|done]. intros ->. apply Hnew, elem_sources, Hsub.
      rewrite app_assoc in Hin. rewrite !elem_of_app in *. rewrite elem_of_cons. tauto. }
    clear -Hd HD. induction Hd as [|x l _ IH Hx]; constructor; [done|].
    eapply Forall_impl; [exact Hx|]. simpl. intros y. by rewrite !(freen_same_data _ _ _ HD).
Qed.

(** The result of an allocation request against the invariant: nothing changes and no section
    has room, or the smallest section with room gives up its last [num] blocks. *)
Definition alloc_result (seg : dmm_segment) (phys fl : list Z) (num sz : Z) (r : option Z) (seg' : dmm_segment) : Prop :=
  match r with
  | None => seg' = seg ∧ ∀ x, x ∈ sources phys → freen (secs seg) x < num
  | Some sec =>
      ∃ u pos next v fl', phys = u ++ pos :: next :: v ∧ sec = next - num ∧ pos < sec ∧
        num <= freen (secs seg) pos ∧ (∀ x, x ∈ sources phys → num <= freen (secs seg) x → freen (secs seg) pos <= freen (secs seg) x) ∧
        seg_inv seg' (u ++ pos :: sec :: next :: v) fl' ∧ fl' ≡ₚ fl ∧ first_addr seg' = first_addr seg ∧ last seg' = last seg ∧
        (∀ y, y ≠ sec → y ≠ pos → freen (secs seg') y = freen (secs seg) y) ∧ freen (secs seg') pos = freen (secs seg) pos - num ∧
        (∀ y, y ≠ sec → name <$> (secs seg' !! y) = name <$> (secs seg !! y)) ∧
        (∃ s, secs seg' !! sec = Some s ∧ used_num s = num ∧ free_num s = 0 ∧ req_size s = sz ∧ name s = EmptyString)
  end.

Lemma headers_used h h' l : (∀ y, y ∈ l → used_num <$> (h' !! y) = used_num <$> (h !! y)) → headers h l → headers h' l.
Proof.
  unfold headers. rewrite !Forall_forall. intros Hu Hh x Hx. specialize (Hu x Hx). destruct (Hh x Hx) as [s Hs]. rewrite Hs in Hu.
  destruct (h' !! x); [by eexists|done].
Qed.

(** One more section of [num] blocks in the sum of used blocks. *)
Lemma sum_split h h' u pos sec next v num :
  (sec ∉ u ++ pos :: next :: v) → (∀ y, y ≠ sec → usedn h' y = usedn h y) → usedn h' sec = num →
  sum (usedn h') (sources (u ++ pos :: sec :: next :: v)) = sum (usedn h) (sources (u ++ pos :: next :: v)) + num.
Proof.
  intros Hnew Hu Hs. rewrite !sources_app, !sum_app.
  change (sources (pos :: sec :: next :: v)) with (pos :: sec :: sources (next :: v)).
  change (sources (pos :: next :: v)) with (pos :: sources (next :: v)). cbn [sum foldr].
  fold (sum (usedn h') (sources (next :: v))) (sum (usedn h) (sources (next :: v))).
  rewrite Hs, (Hu pos) by set_solver.
  rewrite (sum_ext (usedn h') (usedn h) u) by (intros y Hy; apply Hu; set_solver).
  rewrite (sum_ext (usedn h') (usedn h) (sources (next :: v))); [lia|].
  intros y Hy%elem_sources. apply Hu. set_solver.
Qed.

Lemma usedn_used h h' y : used_num <$> (h' !! y) = used_num <$> (h !! y) → usedn h' y = usedn h y.
Proof. unfold usedn. by intros ->. Qed.

(** The allocation from the section [pos] that the search returned. *)
Lemma alloc_at_spec seg phys l1 pos l2 sz num :
  seg_inv seg phys (l1 ++ pos :: l2) → 1 <= num <= freen (secs seg) pos →
  ∃ u next v seg' k1 k2, phys = u ++ pos :: next :: v ∧ pos < next - num ∧
    alloc_at seg sz num pos = Some (Some (next - num), seg') ∧
    seg_inv seg' (u ++ pos :: (next - num) :: next :: v) (k1 ++ pos :: k2 ++ l2) ∧ l1 = k1 ++ k2 ∧
    first_addr seg' = first_addr seg ∧ last seg' = last seg ∧
    (∀ y, y ≠ next - num → y ≠ pos → freen (secs seg') y = freen (secs seg) y) ∧ freen (secs seg') pos = freen (secs seg) pos - num ∧
    (∀ y, y ≠ next - num → name <$> (secs seg' !! y) = name <$> (secs seg !! y)) ∧
    (∃ s, secs seg' !! (next - num) = Some s ∧ used_num s = num ∧ free_num s = 0 ∧ req_size s = sz ∧ name s = EmptyString).
Proof.
  intros Hinv Hpos. destruct (fl_facts _ _ _ Hinv) as (Hlst & Hh & Hfuel & Hlsrc).
  pose proof Hinv as [Hp Hfw Htot Hu Hcnt]. pose proof Hfw as [Hl Hnd Hsub _ _].
  assert (Hposs : pos ∈ sources phys) by (apply Hsub; set_solver).
  destruct (phys_split _ _ _ pos Hp Hposs) as (u & next & v & sp & -> & Hsp & Hnext & Husp & Hfsp).
  assert (Hnin : is_Some (secs seg !! next)).
  { pose proof (phys_links _ _ _ Hp) as Hpl. apply links_app in Hpl as [_ Hpl]. apply links_cons in Hpl as (_ & Hpl & _).
    unfold PREV_SEC in Hpl. destruct (secs seg !! next); [by eexists|done]. }
  destruct Hnin as [sn Hsn]. rewrite (freen_lookup _ _ _ Hsp) in Hpos.
  destruct (alloc_split (secs seg) (last seg) u pos next v num sz sp sn Hp Hsp Hsn) as (Hnew & Hsec & Hp' & Hsl & Hfr & Hfrp & Hfrs & Huse & Hnm & Hs); [lia|done|done|].
  set (sec := next - num) in *. set (S := mk_sec (SEC_REL sec pos) num 0 sz 0 0 EmptyString EmptyString) in *.
  set (h' := split_heap (secs seg) pos sec next num sp sn S) in *.
  pose proof (not_in_ring _ _ _ _ _ Hp Hsub Hnew) as Hringsec.
  assert (Hl' : links (MORE_SEC h') (LESS_SEC h') (ring (last seg) (l1 ++ pos :: l2))).
  { eapply links_slinks; [|exact Hl]. intros y Hy. apply Hsl. by intros ->. }
  assert (Hh' : headers h' (l1 ++ pos :: l2)).
  { eapply headers_used; [|exact Hh]. intros y Hy. apply Huse. intros ->. apply Hringsec. unfold ring. set_solver. }
  destruct (free_relink_spec (walk_fuel seg) h' (last seg) l1 pos l2 (free_num sp - num) Hl' Hnd Hlst Hh') as (k1 & k2 & h2 & -> & Hre & HD & Hl2 & Hk2 & Hk1).
  { rewrite length_app in Hfuel. simpl in Hfuel. lia. }
  rewrite (freen_lookup _ _ _ Hsp) in Hfrp. rewrite <- Hfrp in Hk2, Hk1.
  exists u, next, v, (set_counts (set_secs seg h2) (seg_used_num seg + num) (sec_num seg + 1) (wrap64 (used_size seg + sz))), k1, k2.
  split; [done|]. split; [lia|]. split; [|split; [|split_and!; try done]].
  - unfold alloc_at. rewrite (NEXT_SEC_lookup _ _ _ Hsp), <- Hnext. cbn [mbind option_bind].
    rewrite (upd_Some _ _ _ _ Hsn). cbn [mbind option_bind].
    rewrite (PREV_SEC_lookup _ _ (set_prev_rel (- num) sn)) by apply lookup_insert_eq. cbn [mbind option_bind prev_rel set_prev_rel].
    replace (next + - num) with sec by (unfold sec; lia). fold S.
    assert (Hpos2 : <[sec := S]> (<[next := set_prev_rel (- num) sn]> (secs seg)) !! pos = Some sp) by (rewrite !lookup_insert_ne by lia; done).
    unfold FREE_NUM. rewrite Hpos2. cbn [mbind option_bind]. rewrite (upd_Some _ _ _ _ Hpos2). cbn [mbind option_bind].
    fold (split_heap (secs seg) pos sec next num sp sn S). fold h'. rewrite Hre. done.
  - split; cbn; [by eapply phys_wf_same_data| |done| |].
    + eapply (alloc_free_wf _ _ _ _ _ _ _ _ _ _ _ _ num); [exact Hfw| |done|exact HD|exact Hl2|done| |done|done|done]; [lia|].
      by rewrite Hfrp, (freen_lookup _ _ _ Hsp).
    + rewrite Hu. symmetry. apply sum_split; [done| |].
      * intros y Hy. rewrite (usedn_same_data _ _ _ HD). by apply usedn_used, Huse.
      * rewrite (usedn_same_data _ _ _ HD). unfold usedn. fold sec. by rewrite Hs.
    + rewrite Hcnt, !length_app. cbn [length]. lia.
  - intros y Hy1 Hy2. cbn. by rewrite (freen_same_data _ _ _ HD), Hfr.
  - cbn. by rewrite (freen_same_data _ _ _ HD), Hfrp, (freen_lookup _ _ _ Hsp).
  - intros y Hy. cbn. rewrite <- (Hnm y Hy). specialize (HD y). destruct (h2 !! y), (h' !! y); try done. cbn in *. unfold sdata in HD. congruence.
  - cbn. destruct (same_data_lookup _ _ _ _ HD Hs) as (s & Hs2 & Heq). exists s. unfold sdata in Heq. injection Heq as ? ? ? ? ?. split_and!; [done|congruence..].
Qed.

Lemma mem_alloc_spec seg phys fl sz :
  seg_inv seg phys fl → 1 <= CALC_NUM sz →
  ∃ r seg', mem_alloc seg sz = Some (r, seg') ∧ alloc_result seg phys fl (CALC_NUM sz) sz r seg'.
Proof.
  intros Hinv Hnum. unfold mem_alloc. set (num := CALC_NUM sz) in *.
  destruct (Z.ltb_spec (total_num seg - seg_used_num seg) num) as [Hfull|_].
  { exists None, seg. split; [done|]. split; [done|]. intros x Hx. pose proof (free_le_unused _ _ _ _ Hinv Hx). lia. }
  destruct (fl_facts _ _ _ Hinv) as (Hlst & Hh & Hfuel & _).
  pose proof Hinv as [_ [Hl _ _ Hall Hsort] _ _ _].
  destruct (find_free_spec (secs seg) (last seg) num fl (walk_fuel seg) (last seg) Hl Hlst Hh Hfuel) as [(l1 & pos & l2 & -> & -> & Hpos & H1)|[-> Hnone]]; cbn [mbind option_bind].
  2:{ exists None, seg. split; [done|]. split; [done|]. intros x Hx. rewrite Forall_forall in Hnone.
      destruct (Z.ltb_spec 0 (freen (secs seg) x)); [by apply Hnone, Hall|lia]. }
  destruct (alloc_at_spec seg phys l1 pos l2 sz num Hinv) as (u & next & v & seg' & k1 & k2 & Hphys & Hlt & -> & Hinv' & -> & Hfa & Hla & Hfo & Hfp & Hnm & Hs); [lia|].
  exists (Some (next - num)), seg'. split; [done|]. exists u, pos, next, v, (k1 ++ pos :: k2 ++ l2).
  split_and!; auto; [|rewrite <- !Permutation_middle; by rewrite app_assoc]. intros x Hx Hfit. rewrite Forall_forall in H1.
  assert (Hin : x ∈ (k1 ++ k2) ++ pos :: l2) by (apply Hall; [done|lia]).
  apply elem_of_app in Hin as [Hin|Hin]; [specialize (H1 x Hin); simpl in H1; lia|].
  apply sorted_app in Hsort as (_ & Hsort & _). apply StronglySorted_inv in Hsort as [_ Hsort]. rewrite Forall_forall in Hsort.
  apply elem_of_cons in Hin as [->|Hin]; [lia|by apply Hsort].
Qed.

(** ** Freeing *)

Lemma free_unlink_spec h lst l1 x l2 :
  links (MORE_SEC h) (LESS_SEC h) (ring lst (l1 ++ x :: l2)) → NoDup (l1 ++ x :: l2) → lst ∉ l1 ++ x :: l2 →
  ∃ n b h', free_unlink h x = Some (n, h') ∧ l2 ++ [lst] = n :: b ∧ same_data h h' ∧
    links (MORE_SEC h') (LESS_SEC h') (ring lst (l1 ++ l2)).
Proof.
  intros Hl Hnd Hlst. destruct (ring_NoDup _ _ Hnd Hlst) as [Hs Ht].
  destruct (ring_split lst l1 l2) as (a & p & n & b & _ & Hb & Hw & Hwx). rewrite Hwx in Hl, Hs, Ht.
  pose proof Hl as Hl0. apply links_app in Hl0 as [_ Hl0]. apply links_cons in Hl0 as (Hp & Hxl & Hl0). apply links_cons in Hl0 as (Hxm & Hn & _).
  destruct (free_unlink_total h p x n Hp Hn) as [_ (h1 & h2 & E1 & E2)].
  destruct (free_unlink_links h a p x n b h1 h2 Hl Hs Ht) as [D2 Hl2]; [by right|].
  exists n, b, h2. rewrite Hw. split; [|done]. unfold free_unlink. rewrite Hxm, Hxl. cbn [mbind option_bind].
  rewrite E1. cbn [mbind option_bind]. by rewrite E2.
Qed.

(** Taking the freed section out of the free list, if it has free blocks. *)
Lemma detach_sec h lst fl x (c : bool) :
  links (MORE_SEC h) (LESS_SEC h) (ring lst fl) → NoDup fl → lst ∉ fl → (if c then x ∉ fl else x ∈ fl) →
  ∃ h', (if c then Some h else '(_, h) ← free_unlink h x; Some h) = Some h' ∧ same_data h h' ∧
    links (MORE_SEC h') (LESS_SEC h') (ring lst (filter (λ y, y ≠ x) fl)).
Proof.
  intros Hl Hnd Hlst Hx. destruct c.
  - exists h. rewrite filter_ne_absent by done. done.
  - apply list_elem_of_split in Hx as (l1 & l2 & ->). rewrite filter_ne_mid by done.
    destruct (free_unlink_spec h lst l1 x l2 Hl Hnd Hlst) as (n & b & h' & -> & _ & ? & ?). by exists h'.
Qed.

(** Taking its predecessor out, and where the search for its new place starts. *)
Lemma detach_prev h lst fl x (c : bool) :
  links (MORE_SEC h) (LESS_SEC h) (ring lst fl) → NoDup fl → lst ∉ fl → (if c then x ∉ fl else x ∈ fl) →
  ∃ n b h' m1 m2, (if c then more ← MORE_SEC h lst; Some (more, h) else free_unlink h x) = Some (n, h') ∧ same_data h h' ∧
    filter (λ y, y ≠ x) fl = m1 ++ m2 ∧ m2 ++ [lst] = n :: b ∧
    links (MORE_SEC h') (LESS_SEC h') (ring lst (m1 ++ m2)) ∧ (if c then m1 = [] else fl = m1 ++ x :: m2).
Proof.
  intros Hl Hnd Hlst Hx. destruct c.
  - destruct (fl ++ [lst]) as [|n b] eqn:Hb; [by destruct fl|]. exists n, b, h, [], fl. rewrite filter_ne_absent by done.
    unfold ring in Hl |- *. cbn [app]. rewrite Hb in Hl |- *. pose proof Hl as Hl0. apply links_cons in Hl0 as (-> & _ & _). done.
  - apply list_elem_of_split in Hx as (l1 & l2 & ->). rewrite filter_ne_mid by done.
    destruct (free_unlink_spec h lst l1 x l2 Hl Hnd Hlst) as (n & b & h' & -> & ? & ? & ?). by exists n, b, h', l1, l2.
Qed.

(** Raising the key of [x] to [f] and moving it up from between [m1] and [m2]. *)
Lemma sorted_move_up (g g' : Z → Z) m1 j1 x j2 f :
  StronglySorted (λ a b, g a <= g b) (m1 ++ j1 ++ j2) →
  (∀ y, y ∈ m1 ++ j1 ++ j2 → g' y = g y) → g' x = f → (∀ y, y ∈ m1 → g y <= f) →
  Forall (λ z, g z < f) j1 → (∀ z j2', j2 = z :: j2' → f <= g z) →
  StronglySorted (λ a b, g' a <= g' b) (m1 ++ j1 ++ x :: j2).
Proof.
  intros Hs Hg Hx Hm1 Hj1 Hj2. rewrite Forall_forall in Hj1.
  assert (Hle : ∀ l, (∀ y, y ∈ l → y ∈ m1 ++ j1 ++ j2) → StronglySorted (λ a b, g a <= g b) l → StronglySorted (λ a b, g' a <= g' b) l).
  { intros l Hin. induction 1 as [|z l _ IH Hz]; constructor; [apply IH; set_solver|].
    rewrite Forall_forall in Hz |- *. intros y Hy. rewrite !Hg by set_solver. by apply Hz. }
  rewrite app_assoc in Hs |- *. apply sorted_app in Hs as (H1 & H2 & H12).
  assert (Hxj2 : ∀ b, b ∈ j2 → f <= g b).
  { intros b Hb. destruct j2 as [|z j2']; [by apply elem_of_nil in Hb|]. specialize (Hj2 z j2' eq_refl).
    apply StronglySorted_inv in H2 as [_ H2]. rewrite Forall_forall in H2. apply elem_of_cons in Hb as [->|Hb]; [done|].
    specialize (H2 b Hb). simpl in H2. lia. }
  assert (Hlow : ∀ a, a ∈ m1 ++ j1 → g a <= f) by (intros a [Ha|Ha]%elem_of_app; [auto|specialize (Hj1 a Ha); simpl in Hj1; lia]).
  apply sorted_app. split; [apply Hle; [set_solver|done]|]. split.
  - constructor; [apply Hle; [set_solver|done]|]. apply Forall_forall. intros b Hb. rewrite Hx, Hg by set_solver. auto.
  - intros a b Ha [->|Hb]%elem_of_cons; rewrite Hg by set_solver; [rewrite Hx; auto|rewrite Hg by set_solver; auto].
Qed.

(** The data after [sec] is merged into the free space of [prev]. *)
Definition merged (h h' : heap) (prev next num : Z) (sp sn : section_t) : Prop :=
  ∀ y, sdata <$> (h' !! y) =
    if decide (y = prev) then Some (sdata (set_free_num (free_num sp + num) sp))
    else if decide (y = next) then Some (sdata (set_prev_rel (SEC_REL next prev) sn))
    else sdata <$> (h !! y).

Lemma sdata_lookup (h : heap) y d : sdata <$> (h !! y) = Some d → ∃ s, h !! y = Some s ∧ sdata s = d.
Proof. destruct (h !! y) as [s|]; [|done]. intros [= <-]. by eexists. Qed.

Lemma phys_ends_remove u prev sec next v lst :
  (∃ mid, u ++ prev :: sec :: next :: v = 0 :: mid ++ [lst]) → ∃ mid, u ++ prev :: next :: v = 0 :: mid ++ [lst].
Proof.
  intros (mid & Hends). destruct (exists_last (l := next :: v)) as (v' & z & Hv); [done|]. rewrite Hv in Hends |- *.
  destruct u as [|a u]; cbn [app] in Hends |- *; injection Hends as -> Hrest.
  - rewrite app_comm_cons in Hrest. apply app_inj_tail in Hrest as [_ ->]. by exists v'.
  - rewrite !app_comm_cons, app_assoc in Hrest. apply app_inj_tail in Hrest as [_ ->].
    exists (u ++ prev :: v'). by rewrite <- app_assoc.
Qed.

Lemma merge_phys h h' lst u prev sec next v sp ss sn :
  phys_wf h lst (u ++ prev :: sec :: next :: v) →
  h !! prev = Some sp → h !! sec = Some ss → h !! next = Some sn →
  merged h h' prev next (used_num ss + free_num ss) sp sn →
  phys_wf h' lst (u ++ prev :: next :: v).
Proof.
  intros Hw Hsp Hss Hsn Hm. pose proof (phys_NoDup _ _ _ Hw) as Hnd. pose proof (phys_increasing _ _ _ Hw) as Hinc.
  destruct Hw as [Hends Hl Hsecs Hlast].
  assert (Hpn : prev < sec < next).
  { clear -Hinc. apply sorted_app in Hinc as (_ & Hs & _). apply StronglySorted_inv in Hs as [Hs H1]. apply StronglySorted_inv in Hs as [_ H2].
    inversion_clear H1. inversion_clear H2. lia. }
  pose proof Hl as Hl0. apply links_app in Hl0 as [_ Hl0]. apply links_cons in Hl0 as (Hp1 & _ & Hl0). apply links_cons in Hl0 as (Hp2 & _ & _).
  rewrite (NEXT_SEC_lookup _ _ _ Hsp) in Hp1. injection Hp1 as Hp1. rewrite (NEXT_SEC_lookup _ _ _ Hss) in Hp2. injection Hp2 as Hp2.
  assert (Hprev : ∃ s, h' !! prev = Some s ∧ sdata s = sdata (set_free_num (free_num sp + (used_num ss + free_num ss)) sp)).
  { apply sdata_lookup. rewrite Hm. by case_decide. }
  assert (Hnext : ∃ s, h' !! next = Some s ∧ sdata s = sdata (set_prev_rel (SEC_REL next prev) sn)).
  { apply sdata_lookup. rewrite Hm. case_decide; [lia|]. by case_decide. }
  assert (Hother : ∀ y s, y ≠ prev → h !! y = Some s → ∃ s', h' !! y = Some s' ∧ used_num s' = used_num s ∧ free_num s' = free_num s ∧ name s' = name s).
  { intros y s Hy Hs. specialize (Hm y). rewrite Hs in Hm. case_decide; [done|]. case_decide.
    - subst y. destruct Hnext as (s' & Hs' & Heq). rewrite Hsn in Hs. injection Hs as <-. exists s'. unfold sdata in Heq. cbn in Heq. injection Heq as ? ? ? ? ?. done.
    - apply sdata_lookup in Hm as (s' & Hs' & Heq). exists s'. unfold sdata in Heq. injection Heq as ? ? ? ? ?. done. }
  destruct Hprev as (sp' & Hsp' & Hpeq). destruct Hnext as (sn' & Hsn' & Hneq).
  unfold sdata in Hpeq, Hneq. cbn in Hpeq, Hneq. injection Hpeq as ? Hpu Hpf ? ?. injection Hneq as Hnp ? ? ? ?.
  split; [by eapply phys_ends_remove| | |].
  - eapply links_remove; [exact Hl|by apply NoDup_sources|by apply NoDup_targets|..].
    + rewrite (NEXT_SEC_lookup _ _ _ Hsp'), Hpf, Hpu. f_equal. lia.
    + rewrite (PREV_SEC_lookup _ _ _ Hsn'), Hnp. unfold SEC_REL. f_equal. lia.
    + intros y Hy _. unfold NEXT_SEC. specialize (Hm y). case_decide; [done|].
      case_decide; [subst y; rewrite Hsn', Hsn; cbn; congruence|]. destruct (h' !! y), (h !! y); try done. cbn in *. unfold sdata in Hm. congruence.
    + intros y Hy _. unfold PREV_SEC. specialize (Hm y). case_decide; [subst y; rewrite Hsp', Hsp; cbn; congruence|].
      case_decide; [done|]. destruct (h' !! y), (h !! y); try done. cbn in *. unfold sdata in Hm. congruence.
  - intros x Hx. destruct (Hsecs x) as (s & Hs & ? & ?).
    { rewrite !sources_app in Hx |- *. cbn [sources removelast] in *. set_solver. }
    destruct (Hsecs sec) as (s2 & Hs2 & ? & ?); [rewrite sources_app; cbn [sources removelast]; set_solver|].
    rewrite Hss in Hs2. injection Hs2 as <-. destruct (decide (x = prev)) as [->|Hne].
    + rewrite Hsp in Hs. injection Hs as <-. exists sp'. split; [done|]. lia.
    + destruct (Hother x s Hne Hs) as (s' & ? & ? & ? & ?). exists s'. split; [done|]. lia.
  - destruct Hlast as (s & Hs & Hf & Hn). destruct (decide (lst = prev)) as [->|Hne].
    + exfalso. destruct Hends as (mid & Hends). clear -Hends Hnd. rewrite Hends in Hnd. rewrite app_comm_cons in Hnd, Hends.
      apply NoDup_app in Hnd as (_ & Hnd & _). apply (Hnd prev); [|left].
      assert (prev ∈ sources (u ++ prev :: sec :: next :: v)) as Hin by (rewrite sources_app; cbn [sources removelast]; set_solver).
      by rewrite Hends, sources_snoc in Hin.
    + destruct (Hother lst s Hne Hs) as (s' & ? & ? & ? & ?). exists s'. split_and!; [done|congruence..].
Qed.

(** A free-list insertion after the search towards the larger sections. *)
Lemma reinsert_up fuel h lst m1 m2 n b x f :
  links (MORE_SEC h) (LESS_SEC h) (ring lst (m1 ++ m2)) → NoDup (m1 ++ m2) → lst ∉ m1 ++ m2 → headers h (m1 ++ m2) →
  m2 ++ [lst] = n :: b → (length m2 < fuel)%nat → (x ∉ ring lst (m1 ++ m2)) → is_Some (h !! x) →
  ∃ j1 j2 h', m2 = j1 ++ j2 ∧
    (more ← find_more fuel h lst f n; less ← LESS_SEC h more; free_insert h x less more) = Some h' ∧ same_data h h' ∧
    links (MORE_SEC h') (LESS_SEC h') (ring lst (m1 ++ j1 ++ x :: j2)) ∧
    Forall (λ z, freen h z < f) j1 ∧ (∀ z j2', j2 = z :: j2' → f <= freen h z).
Proof.
  intros Hl Hnd Hlst Hh Hn Hfuel Hx Hhx.
  destruct (ring_split lst m1 m2) as (a & p & n0 & b0 & _ & Hn0 & Hw & _). rewrite Hn0 in Hn. injection Hn as -> ->.
  assert (Hpl : links (MORE_SEC h) (LESS_SEC h) (p :: m2 ++ [lst])).
  { rewrite Hw in Hl. apply links_app in Hl as [_ Hl]. by rewrite Hn0. }
  destruct (find_more_spec h lst f m2 fuel p n b Hn0 Hpl) as (j1 & j2 & y & v' & -> & Hy & -> & H1 & H2); [set_solver|by apply Forall_app in Hh as [_ ?]|done|].
  rewrite app_assoc in Hl, Hnd, Hlst, Hx.
  destruct (ring_split lst (m1 ++ j1) j2) as (a' & p' & n' & b' & _ & Hn' & Hw' & Hwx'). rewrite Hn' in Hy. injection Hy as -> ->.
  destruct (ring_NoDup _ _ Hnd Hlst) as [Hs Ht]. rewrite Hw' in Hl, Hs, Ht, Hx.
  pose proof Hl as Hl0. apply links_app in Hl0 as [_ Hl0]. apply links_cons in Hl0 as (_ & Hless & _).
  cbn [mbind option_bind]. rewrite Hless. cbn [mbind option_bind].
  destruct (free_insert_links h a' p' x y v' Hl Hs Ht Hx Hhx) as (h' & -> & HD & Hl').
  exists j1, j2, h'. rewrite app_assoc, Hwx'. split_and!; auto.
Qed.

Lemma upd_keeps h x f h' :
  upd h x f = Some h' → (∀ s, slinks (f s) = slinks s) →
  (∀ y, slinks <$> (h' !! y) = slinks <$> (h !! y)) ∧ (∀ y, y ≠ x → h' !! y = h !! y).
Proof.
  unfold upd. destruct (h !! x) as [s|] eqn:Hs; [|done]. intros [= <-] Hf. split.
  - intros y. destruct (decide (y = x)) as [->|]; [rewrite lookup_insert_eq, Hs; cbn; by rewrite Hf|by rewrite lookup_insert_ne].
  - intros y Hy. by rewrite lookup_insert_ne.
Qed.

(** When a section may be freed: an exhausted section is not on the free list. *)
Definition freeable (seg : dmm_segment) (fl : list Z) (x : Z) : Prop :=
  freen (secs seg) x = 0 → x ∉ fl.

Lemma freeable_test seg phys fl x :
  seg_inv seg phys fl → freeable seg fl x → x ∈ sources phys →
  if freen (secs seg) x =? 0 then x ∉ fl else x ∈ fl.
Proof.
  intros Hinv Hf Hx. destruct (Z.eqb_spec (freen (secs seg) x) 0) as [He|Hne]; [by apply Hf|].
  pose proof (phys_freen_nonneg _ _ _ x (inv_phys _ _ _ Hinv) Hx).
  apply (fl_all _ _ _ _ (inv_free _ _ _ Hinv)); [done|lia].
Qed.

Lemma merged_freen h h' prev next num sp sn :
  merged h h' prev next num sp sn → h !! prev = Some sp → h !! next = Some sn → prev ≠ next →
  freen h' prev = freen h prev + num ∧ (∀ y, y ≠ prev → freen h' y = freen h y) ∧ (∀ y, usedn h' y = usedn h y) ∧
  (∀ y, name <$> (h' !! y) = name <$> (h !! y)).
Proof.
  intros Hm Hsp Hsn Hne. split_and!.
  - specialize (Hm prev). case_decide; [|done]. apply sdata_lookup in Hm as (s & Hs & Heq). unfold sdata in Heq. injection Heq as ? ? ? ? ?.
    rewrite (freen_lookup _ _ _ Hs), (freen_lookup _ _ _ Hsp). done.
  - intros y Hy. specialize (Hm y). case_decide; [done|]. unfold freen, FREE_NUM.
    case_decide; [subst y; apply sdata_lookup in Hm as (s & -> & Heq); rewrite Hsn; cbn; unfold sdata in Heq; cbn in Heq; congruence|].
    destruct (h' !! y), (h !! y); try done. cbn in *. unfold sdata in Hm. congruence.
  - intros y. specialize (Hm y). unfold usedn. case_decide; [subst y; apply sdata_lookup in Hm as (s & -> & Heq); rewrite Hsp; cbn; unfold sdata in Heq; cbn in Heq; congruence|].
    case_decide; [subst y; apply sdata_lookup in Hm as (s & -> & Heq); rewrite Hsn; cbn; unfold sdata in Heq; cbn in Heq; congruence|].
    destruct (h' !! y), (h !! y); try done. cbn in *. unfold sdata in Hm. congruence.
  - intros y. specialize (Hm y). case_decide; [subst y; apply sdata_lookup in Hm as (s & -> & Heq); rewrite Hsp; cbn; unfold sdata in Heq; cbn in Heq; congruence|].
    case_decide; [subst y; apply sdata_lookup in Hm as (s & -> & Heq); rewrite Hsn; cbn; unfold sdata in Heq; cbn in Heq; congruence|].
    destruct (h' !! y), (h !! y); try done. cbn in *. unfold sdata in Hm. congruence.
Qed.

(** The free list after the merge. *)
Lemma merge_free_wf h h' lst u prev sec next v fl m1 j1 j2 f :
  free_wf h lst (u ++ prev :: sec :: next :: v) fl → NoDup (u ++ prev :: sec :: next :: v) →
  links (MORE_SEC h') (LESS_SEC h') (ring lst (m1 ++ j1 ++ prev :: j2)) →
  filter (λ y, y ≠ prev) (filter (λ y, y ≠ sec) fl) = m1 ++ j1 ++ j2 →
  freen h' prev = f → (∀ y, y ≠ prev → freen h' y = freen h y) → (∀ y, y ∈ m1 → freen h y <= f) →
  Forall (λ z, freen h z < f) j1 → (∀ z j2', j2 = z :: j2' → f <= freen h z) →
  free_wf h' lst (u ++ prev :: next :: v) (m1 ++ j1 ++ prev :: j2).
Proof.
  intros [_ Hnd Hsub Hall Hsort] Hpn Hl Hfl Hf Hfo Hm1 Hj1 Hj2.
  assert (Hin : ∀ x, x ∈ m1 ++ j1 ++ j2 ↔ x ∈ fl ∧ x ≠ prev ∧ x ≠ sec).
  { intros x. rewrite <- Hfl, !list_elem_of_filter. tauto. }
  assert (Hperm : m1 ++ j1 ++ prev :: j2 ≡ₚ prev :: m1 ++ j1 ++ j2) by (rewrite app_assoc, <- Permutation_middle; by rewrite app_assoc).
  assert (Hsec : sec ∉ u ++ prev :: next :: v).
  { replace (u ++ prev :: sec :: next :: v) with ((u ++ [prev]) ++ sec :: next :: v) in Hpn by (by rewrite <- app_assoc).
    rewrite <- Permutation_middle in Hpn. apply NoDup_cons in Hpn as [Hpn _].
    rewrite <- app_assoc in Hpn. done. }
  assert (Hsrc : ∀ x, x ∈ sources (u ++ prev :: sec :: next :: v) ↔ x = sec ∨ x ∈ sources (u ++ prev :: next :: v)).
  { intros x. rewrite !sources_app. cbn [sources removelast]. rewrite !elem_of_app, !elem_of_cons. tauto. }
  assert (Hpsrc : prev ∈ sources (u ++ prev :: next :: v)) by (rewrite sources_app; cbn [sources removelast]; set_solver).
  split; [done| | | |].
  - rewrite Hperm. constructor; [intros Hp; apply Hin in Hp; tauto|]. rewrite <- Hfl. by apply NoDup_filter, NoDup_filter.
  - intros x Hx. rewrite Hperm in Hx. apply elem_of_cons in Hx as [->|Hx]; [done|]. apply Hin in Hx as (Hx & _ & Hns).
    apply Hsub, Hsrc in Hx as [?|?]; done.
  - intros x Hx Hpos. rewrite Hperm. destruct (decide (x = prev)) as [->|Hne]; [left|right]. apply Hin.
    rewrite Hfo in Hpos by done. split; [apply Hall; [apply Hsrc; by right|done]|]. split; [done|].
    intros ->. by apply Hsec, elem_sources.
  - eapply sorted_move_up; [|intros y Hy; apply Hfo|exact Hf|done|done|done].
    + rewrite <- Hfl. by apply sorted_filter, sorted_filter.
    + apply Hin in Hy. tauto.
Qed.

Lemma sum_merge h h' u prev sec next v :
  (∀ y, usedn h' y = usedn h y) →
  sum (usedn h') (sources (u ++ prev :: next :: v)) = sum (usedn h) (sources (u ++ prev :: sec :: next :: v)) - usedn h sec.
Proof.
  intros Hu. rewrite !sources_app, !sum_app.
  change (sources (prev :: sec :: next :: v)) with (prev :: sec :: sources (next :: v)).
  change (sources (prev :: next :: v)) with (prev :: sources (next :: v)). cbn [sum foldr].
  fold (sum (usedn h') (sources (next :: v))) (sum (usedn h) (sources (next :: v))).
  rewrite !(sum_ext (usedn h') (usedn h)) by auto. rewrite Hu. lia.
Qed.

(** The three headers a free touches. *)
Lemma phys_three h lst u prev sec next v :
  phys_wf h lst (u ++ prev :: sec :: next :: v) →
  prev < sec < next ∧ ∃ sp ss sn, h !! prev = Some sp ∧ h !! sec = Some ss ∧ h !! next = Some sn ∧
    NEXT_SEC h sec = Some next ∧ PREV_SEC h sec = Some prev ∧ prev ∈ sources (u ++ prev :: sec :: next :: v) ∧ sec ∈ sources (u ++ prev :: sec :: next :: v) ∧ 0 <= used_num ss + free_num ss.
Proof.
  intros Hw. pose proof (phys_increasing _ _ _ Hw) as Hs. apply sorted_app in Hs as (_ & Hs & _).
  apply StronglySorted_inv in Hs as [Hs H1]. apply StronglySorted_inv in Hs as [_ H2]. inversion_clear H1. inversion_clear H2. split; [lia|].
  assert (Hin : prev ∈ sources (u ++ prev :: sec :: next :: v) ∧ sec ∈ sources (u ++ prev :: sec :: next :: v)).
  { rewrite sources_app. cbn [sources removelast]. set_solver. }
  destruct Hin as [Hip His]. destruct Hw as [_ Hl Hsecs _]. destruct (Hsecs _ Hip) as (sp & Hsp & _). destruct (Hsecs _ His) as (ss & Hss & ? & ?).
  apply links_app in Hl as [_ Hl]. apply links_cons in Hl as (_ & Hps & Hl). apply links_cons in Hl as (Hns & Hpn & _).
  destruct (h !! next) as [sn|] eqn:Hsn; [|unfold PREV_SEC in Hpn; by rewrite Hsn in Hpn]. exists sp, ss, sn. split_and!; auto. lia.
Qed.

Lemma headers_slinks h h' l : (∀ y, slinks <$> (h' !! y) = slinks <$> (h !! y)) → headers h l → headers h' l.
Proof.
  intros Hs Hh. eapply Forall_impl; [exact Hh|]. intros x [s Hx]. specialize (Hs x). rewrite Hx in Hs. destruct (h' !! x); [by eexists|done].
Qed.

(** The data after the store to [next], link stores, the store to [prev] and more link stores. *)
Lemma merged_steps h h1 h3 h4 h5 prev next num sp sn :
  h !! prev = Some sp → h !! next = Some sn → prev ≠ next →
  h1 = <[next := set_prev_rel (SEC_REL next prev) sn]> h → same_data h1 h3 →
  upd h3 prev (set_free_num (free_num sp + num)) = Some h4 → same_data h4 h5 →
  merged h h5 prev next num sp sn.
Proof.
  intros Hsp Hsn Hne -> D3 E4 D5 y. rewrite D5. unfold upd in E4.
  destruct (same_data_lookup _ _ prev sp D3) as (sp3 & Hsp3 & Heq); [by rewrite lookup_insert_ne|].
  rewrite Hsp3 in E4. injection E4 as <-. case_decide.
  - subst y. rewrite lookup_insert_eq. cbn. unfold sdata in *. cbn. injection Heq as ? ? ? ? ?. congruence.
  - rewrite lookup_insert_ne by done. rewrite D3. case_decide; [subst y; by rewrite lookup_insert_eq|by rewrite lookup_insert_ne].
Qed.

Lemma mem_free_spec seg u prev sec next v fl :
  seg_inv seg (u ++ prev :: sec :: next :: v) fl → freeable seg fl sec → freeable seg fl prev →
  ∃ seg' fl', mem_free seg sec = Some seg' ∧ seg_inv seg' (u ++ prev :: next :: v) fl' ∧
    freen (secs seg') prev = freen (secs seg) prev + usedn (secs seg) sec + freen (secs seg) sec ∧
    first_addr seg' = first_addr seg ∧ last seg' = last seg ∧
    (∀ y, y ≠ prev → freen (secs seg') y = freen (secs seg) y) ∧
    (∀ y, name <$> (secs seg' !! y) = name <$> (secs seg !! y)).
Proof.
  intros Hinv Hfs Hfp. pose proof (fl_facts _ _ _ Hinv) as (Hlst & Hh & Hfuel & Hlsrc).
  pose proof Hinv as [Hp Hfw Htot Hu Hcnt]. pose proof Hfw as [Hl Hnd Hsub Hall Hsort].
  destruct (phys_three _ _ _ _ _ _ _ Hp) as (Hlt & sp & ss & sn & Hsp & Hss & Hsn & Hns & Hps & Hips & Hiss & Hnn).
  pose proof (freeable_test _ _ _ _ Hinv Hfs Hiss) as Ts. pose proof (freeable_test _ _ _ _ Hinv Hfp Hips) as Tp.
  rewrite (freen_lookup _ _ _ Hss) in Ts. rewrite (freen_lookup _ _ _ Hsp) in Tp.
  unfold mem_free. rewrite Hss. cbn [mbind option_bind]. rewrite Hns. cbn [mbind option_bind]. rewrite Hps. cbn [mbind option_bind].
  set (num := used_num ss + free_num ss) in *.
  assert (E1 := upd_Some (secs seg) next (set_prev_rel (SEC_REL next prev)) sn Hsn). rewrite E1. cbn [mbind option_bind].
  destruct (upd_keeps _ _ _ _ E1) as [K1 O1]; [done|]. set (h1 := <[next := _]> (secs seg)) in *.
  destruct (detach_sec h1 (last seg) fl sec (free_num ss =? 0)) as (h2 & E2 & D2 & L2);
    [eapply links_slinks; [intros y _; apply K1|done]|done|done|done|].
  rewrite E2. cbn [mbind option_bind].
  assert (Hpf : FREE_NUM h2 prev = Some (free_num sp)).
  { rewrite (same_data_free _ _ _ D2). unfold FREE_NUM. rewrite O1 by lia. by rewrite Hsp. }
  rewrite Hpf. cbn [mbind option_bind].
  destruct (detach_prev h2 (last seg) (filter (λ y, y ≠ sec) fl) prev (free_num sp =? 0)) as (n & b & h3 & m1 & m2 & E3 & D3 & Hfl & Hn & L3 & Hm1);
    [done|by apply NoDup_filter|rewrite list_elem_of_filter; tauto|destruct (free_num sp =? 0); rewrite list_elem_of_filter; [tauto|split; [lia|done]]|].
  rewrite E3. cbn [mbind option_bind].
  assert (D : same_data h1 h3) by eauto using same_data_trans.
  destruct (same_data_lookup h1 h3 prev sp D) as (sp3 & Hsp3 & _); [by rewrite O1 by lia|].
  assert (E4 := upd_Some h3 prev (set_free_num (free_num sp + num)) sp3 Hsp3). rewrite E4. cbn [mbind option_bind].
  destruct (upd_keeps _ _ _ _ E4) as [K4 O4]; [done|]. set (h4 := <[prev := _]> h3) in *.
  assert (Hin : ∀ x, x ∈ m1 ++ m2 ↔ x ∈ fl ∧ x ≠ prev ∧ x ≠ sec) by (intros x; rewrite <- Hfl, !list_elem_of_filter; tauto).
  destruct (reinsert_up (walk_fuel seg) h4 (last seg) m1 m2 n b prev (free_num sp + num)) as (j1 & j2 & h5 & -> & E5 & D5 & L5 & Hj1 & Hj2).
  { eapply links_slinks; [intros y _; apply K4|done]. }
  { rewrite <- Hfl. by apply NoDup_filter, NoDup_filter. }
  { intros Hx. apply Hin in Hx. tauto. }
  { apply (headers_slinks h3 h4 _ K4), (headers_same_data h1 h3 _ D), (headers_slinks (secs seg) h1 _ K1).
    unfold headers in Hh |- *. rewrite Forall_forall in Hh |- *. intros x Hx. apply Hin in Hx as [Hx _]. by apply Hh. }
  { done. }
  { pose proof (length_filter (λ y, y ≠ prev) (filter (λ y, y ≠ sec) fl)) as H1. pose proof (length_filter (λ y, y ≠ sec) fl) as H2.
    rewrite Hfl, length_app in H1. lia. }
  { unfold ring. intros Hx. apply elem_of_cons in Hx as [->|Hx]; [done|]. apply elem_of_app in Hx as [Hx|Hx]; [apply Hin in Hx; tauto|].
    apply list_elem_of_singleton in Hx as ->. done. }
  { unfold h4. by rewrite lookup_insert_eq. }
  pose proof (merged_steps (secs seg) h1 h3 h4 h5 prev next num sp sn Hsp Hsn ltac:(lia) eq_refl D E4 D5) as Hm.
  destruct (merged_freen _ _ _ _ _ _ _ Hm Hsp Hsn) as (F1 & F2 & F3 & F4); [lia|].
  assert (F0 : ∀ y, y ≠ prev → freen h4 y = freen (secs seg) y) by (intros y Hy; rewrite <- F2 by done; symmetry; by apply freen_same_data).
  destruct (find_more (walk_fuel seg) h4 (last seg) (free_num sp + num) n) as [more|]; [|done]. cbn [mbind option_bind] in E5 |- *.
  destruct (LESS_SEC h4 more) as [less|]; [|done]. cbn [mbind option_bind] in E5 |- *. rewrite E5. cbn [mbind option_bind].
  eexists _, (m1 ++ j1 ++ prev :: j2). split; [done|]. split; [|split; [|done]].
  - split; cbn; [by eapply merge_phys| |done| |].
    + eapply (merge_free_wf (secs seg) h5 _ _ _ sec); [exact Hfw|by eapply phys_NoDup|exact L5|exact Hfl|reflexivity|done| | |].
      * intros y Hy. rewrite F1, (freen_lookup _ _ _ Hsp). destruct (free_num sp =? 0); [subst m1; by apply elem_of_nil in Hy|].
        pose proof (sorted_filter _ (λ y, y ≠ sec) _ Hsort) as Hs. rewrite Hm1 in Hs. apply sorted_app in Hs as (_ & _ & Hs).
        specialize (Hs y prev Hy ltac:(left)). simpl in Hs. rewrite (freen_lookup _ _ _ Hsp) in Hs. lia.
      * rewrite F1, (freen_lookup _ _ _ Hsp). rewrite Forall_forall in Hj1 |- *. intros z Hz. rewrite <- F0; [by apply Hj1|].
        assert (z ∈ m1 ++ j1 ++ j2) as Hz' by set_solver. apply Hin in Hz'. tauto.
      * intros z j2' ->. rewrite F1, (freen_lookup _ _ _ Hsp). rewrite <- F0; [by eapply Hj2|].
        assert (z ∈ m1 ++ j1 ++ z :: j2') as Hz' by set_solver. apply Hin in Hz'. tauto.
    + rewrite Hu, (sum_merge (secs seg) h5 u prev sec next v F3). unfold usedn at 3. by rewrite Hss.
    + rewrite Hcnt, !length_app. cbn [length]. lia.
  - cbn. rewrite F1, (freen_lookup _ _ _ Hss). unfold usedn. rewrite Hss. cbn. lia.
Qed.
