(* ===== verification/SegmentProps.v ===== *)
(** * Properties of the segment allocator

    The public operations of [dmm_segment.c] against the invariant of [SegmentProofs]:
    creation establishes it, allocation and freeing keep it, named blocks are found again,
    and two defects that the invariant's side conditions exclude. *)
From S2P Require Import Prelude.
From S2P Require Import Links.
From S2P Require Import Segment.
From S2P Require Import SegmentProofs.

Local Open Scope string_scope.
Local Open Scope list_scope.
Local Open Scope Z_scope.

(** ** Sizes *)

(** The largest request whose block count fits in an [int]. *)
Definition MAX_REQUEST : Z := 2 ^ 37 - 128.

Lemma CALC_NUM_small sz :
  0 <= sz <= MAX_REQUEST → 2 <= CALC_NUM sz < 2 ^ 31 ∧ sz <= SECTION_SIZE * (CALC_NUM sz - 1).
Proof.
  unfold MAX_REQUEST, CALC_NUM, SECTION_SIZE, to_i32, wrap64, wrap32. intros Hsz.
  destruct (Z.eqb_spec sz 0) as [->|Hne]; [lia|].
  rewrite (Z.mod_small (sz + (64 - 1))) by lia.
  rewrite (Z.mod_small (_ / 64 + 1)) by (Z.div_mod_to_equations; lia).
  rewrite (Z.mod_small (_ / 64 + 1)) by (Z.div_mod_to_equations; lia).
  destruct (Z.ltb_spec ((sz + (64 - 1)) / 64 + 1) (2 ^ 31)); Z.div_mod_to_equations; lia.
Qed.

Lemma align_section_total bs sz : (align_section bs sz).1 <= 0 ∨ 3 <= (align_section bs sz).1 <= 2147483647.
Proof.
  unfold align_section. change (CALC_NUM SIZEOF_SEGMENT) with 2. set (t := wrap64 _ / SECTION_SIZE).
  destruct (Z.ltb_spec 2147483647 t); [left; simpl; lia|]. destruct (Z.ltb_spec t (2 + 1)); simpl; lia.
Qed.

(** ** Creation *)

Lemma create_inv bs sz seg : dmm_seg_create bs sz = Some seg → seg_inv seg [0; last seg] [0] ∧ base seg = bs ∧ size seg = sz.
Proof.
  unfold dmm_seg_create, align_section. change (CALC_NUM SIZEOF_SEGMENT) with 2.
  set (total := wrap64 (sz - _) / SECTION_SIZE).
  destruct (Z.ltb_spec 2147483647 total); [done|]. destruct (Z.ltb_spec total (2 + 1)); [done|].
  destruct (Z.leb_spec total 0); [done|]. intros [= <-]. split; [|done].
  set (fs := mk_sec 0 2 _ _ _ _ _ _). set (ls := mk_sec _ 0 0 0 _ _ _ _). cbn [last].
  assert (Hfst : <[0 + (total - 1) := ls]> {[0 := fs]} !! 0 = Some fs) by (rewrite lookup_insert_ne by lia; apply lookup_singleton_eq).
  assert (Hlst : <[0 + (total - 1) := ls]> {[0 := fs]} !! (0 + (total - 1)) = Some ls) by apply lookup_insert_eq.
  split; cbn [secs last seg_used_num sec_num total_num]; [| |lia| |done].
  - split.
    + by exists [].
    + apply links_cons. rewrite (NEXT_SEC_lookup _ _ _ Hfst), (PREV_SEC_lookup _ _ _ Hlst). cbn. unfold SEC_REL. split_and!; [f_equal; lia|f_equal; lia|done].
    + intros x [->|Hx]%elem_of_cons; [|by apply elem_of_nil in Hx]. exists fs. cbn. split; [done|lia].
    + by exists ls.
  - split.
    + unfold ring. cbn [app]. rewrite !links_cons. unfold MORE_SEC, LESS_SEC. rewrite Hfst, Hlst. cbn. unfold SEC_REL. split_and!; try f_equal; lia || done.
    + apply NoDup_singleton.
    + intros x Hx. done.
    + intros x Hx _. done.
    + repeat constructor.
  - unfold sum, usedn. cbn [sources removelast foldr]. rewrite Hfst. done.
Qed.

(** ** Lookup by name *)

Definition namen (h : heap) (x : Z) : string := default "" (name <$> (h !! x)).

(** Going down from the last of [0 :: w]: the last section with the name. *)
Lemma mem_lookup_from_spec h nm w : ∀ fuel a x rest,
  0 :: w = a ++ [x] → links (NEXT_SEC h) (PREV_SEC h) (0 :: w ++ rest) → 0 ∉ w → headers h w → nm ≠ "" → (length w < fuel)%nat →
  (∃ w1 y w2, w = w1 ++ y :: w2 ∧ mem_lookup_from fuel h nm x = Some (Some y) ∧ namen h y = nm ∧ Forall (λ z, namen h z ≠ nm) w2) ∨
  (mem_lookup_from fuel h nm x = Some None ∧ Forall (λ z, namen h z ≠ nm) w).
Proof.
  induction w as [|y w IH] using rev_ind; intros fuel a x rest Hx Hl H0 Hh Hnm Hfuel.
  - destruct a as [|? []]; try done. injection Hx as <-. right. destruct fuel; done.
  - rewrite app_comm_cons in Hx. apply app_inj_tail in Hx as [<- <-].
    apply Forall_app in Hh as [Hh Hy]. rewrite Forall_singleton in Hy. destruct Hy as [s Hs]. rewrite length_app in Hfuel. simpl in Hfuel.
    assert (y ≠ 0) as Hy0 by (intros ->; apply H0; set_solver). assert (0 ∉ w) as H0' by set_solver.
    assert (Hn : namen h y = name s) by (unfold namen; by rewrite Hs).
    destruct fuel as [|fuel]; [lia|]. cbn [mem_lookup_from]. rewrite (proj2 (Z.eqb_neq y 0)), Hs by done. cbn [mbind option_bind].
    destruct (negb (name s =? "")%string && (name s =? nm)%string) eqn:Hm.
    + apply andb_true_iff in Hm as [_ Hm%String.eqb_eq]. left. exists w, y, []. split_and!; auto. by rewrite Hn.
    + assert (Hne : name s ≠ nm).
      { intros He. rewrite He, String.eqb_refl, andb_true_r in Hm. apply negb_false_iff, String.eqb_eq in Hm. done. }
      destruct (exists_last (l := 0 :: w)) as (a' & p & Hp); [done|].
      assert (Hprev : PREV_SEC h y = Some p).
      { rewrite <- app_assoc in Hl. cbn [app] in Hl. rewrite app_comm_cons, Hp, <- app_assoc in Hl.
        apply links_app in Hl as [_ Hl]. by apply links_cons in Hl as (_ & ? & _). }
      rewrite Hprev. cbn [mbind option_bind]. rewrite <- app_assoc in Hl. assert (Hlen : (length w < fuel)%nat) by lia.
      destruct (IH fuel a' p (y :: rest) Hp Hl H0' Hh Hnm Hlen) as [(w1 & z & w2 & -> & -> & Hz & H2)|[-> H2]].
      * left. exists w1, z, (w2 ++ [y]). rewrite <- app_assoc. split_and!; auto. apply Forall_app. split; [done|]. apply Forall_singleton. by rewrite Hn.
      * right. split; [done|]. apply Forall_app. split; [done|]. apply Forall_singleton. by rewrite Hn.
Qed.

Lemma mem_lookup_spec seg phys fl nm :
  seg_inv seg phys fl → nm ≠ "" →
  (∃ sec, mem_lookup seg nm = Some (Some sec) ∧ sec ∈ phys ∧ sec ≠ 0 ∧ namen (secs seg) sec = nm) ∨
  (mem_lookup seg nm = Some None ∧ ∀ sec, sec ∈ phys → sec ≠ 0 → namen (secs seg) sec ≠ nm).
Proof.
  intros Hinv Hnm. pose proof (phys_length _ _ _ Hinv) as Hlen. pose proof Hinv as [Hp _ _ _ _].
  pose proof (phys_NoDup _ _ _ Hp) as Hnd. pose proof (phys_headers _ _ _ Hp) as Hh. destruct Hp as [(mid & ->) Hl _ (sl & Hsl & _)].
  apply NoDup_cons in Hnd as [H0 _]. rewrite app_comm_cons, sources_snoc in Hh. apply Forall_cons in Hh as [_ Hh].
  assert (Hw : headers (secs seg) (mid ++ [last seg])) by (apply Forall_app; split; [done|]; apply Forall_singleton; by eexists).
  assert (Hl' : links (NEXT_SEC (secs seg)) (PREV_SEC (secs seg)) (0 :: (mid ++ [last seg]) ++ [])) by (by rewrite app_nil_r).
  unfold mem_lookup.
  destruct (mem_lookup_from_spec (secs seg) nm (mid ++ [last seg]) (walk_fuel seg) (0 :: mid) (last seg) [] eq_refl Hl' H0 Hw Hnm) as [(w1 & y & w2 & Hsp & -> & Hy & _)|[-> Hno]].
  - cbn [length] in Hlen. lia.
  - left. exists y. assert (y ∈ mid ++ [last seg]) by (rewrite Hsp; set_solver). split_and!; [done|by right| |done]. by intros ->.
  - right. split; [done|]. intros sec Hin Hne. rewrite Forall_forall in Hno. apply Hno. by apply elem_of_cons in Hin as [?|?].
Qed.

(** ** Renaming and disjointness *)

Lemma seg_inv_rename seg phys fl x s nm :
  seg_inv seg phys fl → x ≠ last seg → secs seg !! x = Some s →
  seg_inv (set_secs seg (<[x := set_name nm s]> (secs seg))) phys fl.
Proof.
  intros [[He Hl Hs Hla] [Hfl Hnd Hsub Hall Hsort] Ht Hu Hc] Hx Hsx. set (h := secs seg) in *. set (h' := <[x := set_name nm s]> h).
  assert (Hf : ∀ A (F : section_t → A), (∀ s, F (set_name nm s) = F s) → ∀ y, F <$> (h' !! y) = F <$> (h !! y)).
  { intros A F HF y. unfold h'. destruct (decide (y = x)) as [->|]; [rewrite lookup_insert_eq, Hsx; cbn; by rewrite HF|by rewrite lookup_insert_ne]. }
  assert (Hbind : ∀ (F : section_t → Z) y, (∀ s, F (set_name nm s) = F s) → (s ← h' !! y; Some (F s)) = (s ← h !! y; Some (F s))).
  { intros F y HF. specialize (Hf Z F HF y). destruct (h' !! y), (h !! y); cbn in *; congruence. }
  assert (HFREE : ∀ y, freen h' y = freen h y) by (intros y; unfold freen, FREE_NUM; by rewrite Hbind).
  split; cbn [secs last seg_used_num sec_num total_num set_secs]; [| |done| |done].
  - split; [done| | |].
    + eapply links_frame; [exact Hl| |]; intros y _; [unfold NEXT_SEC; by rewrite Hbind|unfold PREV_SEC; by rewrite Hbind].
    + intros y Hy. destruct (Hs y Hy) as (sy & Hsy & ? & ?). destruct (decide (y = x)) as [->|]; unfold h'.
      * rewrite lookup_insert_eq. rewrite Hsx in Hsy. injection Hsy as <-. eauto.
      * rewrite lookup_insert_ne by done. eauto.
    + unfold h'. by rewrite lookup_insert_ne.
  - split; [|done|done|intros y Hy; rewrite HFREE; auto|].
    + eapply links_frame; [exact Hfl| |]; intros y _; [unfold MORE_SEC; by rewrite Hbind|unfold LESS_SEC; by rewrite Hbind].
    + clear -Hsort HFREE. induction Hsort as [|a l _ IH Ha]; constructor; [done|]. eapply Forall_impl; [exact Ha|]. simpl. intros b. by rewrite !HFREE.
  - rewrite Hu. apply sum_ext. intros y _. unfold usedn. by rewrite (Hf Z used_num).
Qed.

(** The used blocks of different sections do not overlap. *)
Lemma sections_disjoint h lst phys x y :
  phys_wf h lst phys → x ∈ sources phys → y ∈ phys → x < y → x + usedn h x <= y.
Proof.
  intros Hw Hx Hy Hlt. destruct (phys_split _ _ _ x Hw Hx) as (u & n & v & s & -> & Hs & Hn & Hus & Hfr).
  pose proof (phys_increasing _ _ _ Hw) as Hinc. unfold usedn. rewrite Hs. cbn.
  destruct (Z.le_gt_cases n y) as [|Hgt]; [lia|]. exfalso.
  by eapply (between_not_in u x n v y).
Qed.

(** ** The properties *)

(** Attaching at the same address and size. *)
Lemma seg_attach_created bs sz seg :
  dmm_seg_create bs sz = Some seg → dmm_seg_attach bs sz seg = Some (Some seg).
Proof.
  unfold dmm_seg_create, dmm_seg_attach. pose proof (align_section_total bs sz) as Hal.
  destruct (align_section bs sz) as [total ad]. cbn [fst] in Hal. destruct (Z.leb_spec total 0) as [?|Hpos]; [done|].
  replace (0 + (total - 1)) with (total - 1) by lia. intros [= <-]. cbn [base size total_num first_addr last secs].
  rewrite !Z.eqb_refl. cbn [negb].
  set (fs := mk_sec 0 _ _ _ _ _ _ _). set (ls := mk_sec _ 0 0 0 _ _ _ _).
  assert (Hf : <[total - 1 := ls]> {[0 := fs]} !! 0 = Some fs) by (rewrite lookup_insert_ne by lia; apply lookup_singleton_eq).
  rewrite Hf, lookup_insert_eq. done.
Qed.

(** A created segment satisfies the allocator's invariant, the first section and the last
    header in physical order with every block of the segment accounted for; attaching to it at the same address and size
    succeeds with that segment. *)
Lemma seg_create_attach bs sz seg :
  dmm_seg_create bs sz = Some seg → seg_inv seg [0; last seg] [0] ∧ dmm_seg_attach bs sz seg = Some (Some seg).
Proof. intros H. split; [by apply create_inv in H as [? _]|by apply seg_attach_created]. Qed.

Lemma seg_create_attach_witness : seg_inv seg16 [0; 15] [0] ∧ dmm_seg_attach 4096 1024 seg16 = Some (Some seg16).
Proof. apply (seg_create_attach 4096 1024 seg16). vm_compute. reflexivity. Defined.

(** C21: Allocation of at most [MAX_REQUEST] bytes (above it the number of blocks wraps) is total, keeps the invariant and is best fit: it returns null only when no
    section has enough free blocks, and otherwise a block that holds the requested size, is cut
    from the smallest sufficient section and overlaps no other section. *)
Theorem mem_alloc_correct seg phys fl sz :
  seg_inv seg phys fl → 0 <= sz <= MAX_REQUEST →
  ∃ r seg', dmm_mem_alloc seg sz = Some (r, seg') ∧
  match r with
  | None => seg' = seg ∧ ∀ x, x ∈ sources phys → freen (secs seg) x < CALC_NUM sz
  | Some mem =>
      ∃ sec pos phys' fl', mem = block_addr seg (sec + 1) ∧ seg_inv seg' phys' fl' ∧ phys' ≡ₚ sec :: phys ∧ (sec ∉ phys) ∧
        sz <= SECTION_SIZE * (usedn (secs seg') sec - 1) ∧
        (∀ x, x ∈ sources phys' → x ≠ sec → x + usedn (secs seg') x <= sec ∨ sec + usedn (secs seg') sec <= x) ∧
        pos ∈ sources phys ∧ CALC_NUM sz <= freen (secs seg) pos ∧
        (∀ x, x ∈ sources phys → CALC_NUM sz <= freen (secs seg) x → freen (secs seg) pos <= freen (secs seg) x)
  end.
Proof.
  intros Hinv Hsz. destruct (CALC_NUM_small sz Hsz) as [Hnum Hfit].
  destruct (mem_alloc_spec seg phys fl sz Hinv) as (r & seg' & Hm & Hres); [lia|].
  unfold dmm_mem_alloc. rewrite Hm. cbn [mbind option_bind]. eexists _, seg'. split; [done|].
  destruct r as [sec|]; cbn [mbind option_bind]; [|done].
  destruct Hres as (u & pos & next & v & fl' & -> & -> & Hlt & Hroom & Hbest & Hinv' & _ & _ & _ & _ & _ & _ & (s & Hs & Hus & _)).
  pose proof (inv_phys _ _ _ Hinv') as Hp'.
  assert (Hd : ∀ x y, x ∈ sources (u ++ pos :: (next - CALC_NUM sz) :: next :: v) → y ∈ sources (u ++ pos :: (next - CALC_NUM sz) :: next :: v) → x < y → x + usedn (secs seg') x <= y).
  { intros x y Hx Hy. eapply sections_disjoint; [done|done|by apply elem_sources]. }
  assert (Hsec : (next - CALC_NUM sz) ∈ sources (u ++ pos :: (next - CALC_NUM sz) :: next :: v)) by (rewrite sources_app; cbn [sources removelast]; set_solver).
  exists (next - CALC_NUM sz), pos, (u ++ pos :: (next - CALC_NUM sz) :: next :: v), fl'. split; [done|]. split; [done|].
  assert (Hperm : u ++ pos :: (next - CALC_NUM sz) :: next :: v ≡ₚ (next - CALC_NUM sz) :: u ++ pos :: next :: v).
  { rewrite <- !(Permutation_middle u). constructor 3. }
  split; [done|]. split.
  { pose proof (phys_NoDup _ _ _ Hp') as Hnd. rewrite Hperm in Hnd. by apply NoDup_cons in Hnd as [? _]. }
  split; [unfold usedn; rewrite Hs; cbn; rewrite Hus; done|]. split_and!; [|rewrite sources_app; cbn [sources removelast]; set_solver|done|done].
  intros x Hx Hne. destruct (Z.lt_trichotomy x (next - CALC_NUM sz)) as [Hl|[?|Hl]]; [left; by apply Hd|done|right; by apply Hd].
Qed.

Lemma mem_alloc_correct_witness : ∃ seg', dmm_mem_alloc seg16 100 = Some (Some 4928, seg').
Proof.
  destruct (mem_alloc_correct seg16 [0; 15] [0] 100) as (r & seg' & He & Hr);
    [apply (create_inv 4096 1024 seg16); vm_compute; reflexivity|vm_compute; intuition congruence|].
  destruct r as [mem|].
  - exists seg'. rewrite He. revert He. vm_compute. congruence.
  - destruct Hr as [_ Hr]. specialize (Hr 0 ltac:(left)). vm_compute in Hr. discriminate.
Defined.

(** The address of a block passes the check and leads back to its section. *)
Lemma block_addr_valid seg sec :
  first_addr seg mod SECTION_SIZE = 0 → 0 <= sec → sec + 1 <= last seg →
  CHECK_ADDR seg (block_addr seg (sec + 1)) = 0 ∧
  (block_addr seg (sec + 1) - first_addr seg) / SECTION_SIZE - 1 = sec.
Proof.
  unfold CHECK_ADDR, block_addr, SECTION_SIZE. intros Ha H0 Hl. split.
  - rewrite (proj2 (Z.ltb_ge _ _)) by lia. rewrite (proj2 (Z.ltb_ge _ _)) by lia.
    change (64 - 1) with (Z.ones 6). rewrite Z.land_ones by lia. change (2 ^ 6) with 64.
    rewrite Z.mul_comm, Z.mod_add, Ha by lia. done.
  - replace (first_addr seg + 64 * (sec + 1) - first_addr seg) with ((sec + 1) * 64) by lia. rewrite Z.div_mul; lia.
Qed.

Lemma inner_bounds h lst u prev sec next v :
  phys_wf h lst (u ++ prev :: sec :: next :: v) → 0 <= sec ∧ sec + 1 <= lst.
Proof.
  intros Hw. pose proof (phys_increasing _ _ _ Hw) as Hs. destruct (phys_three _ _ _ _ _ _ _ Hw) as (Hlt & _).
  destruct Hw as [(mid & He) _ _ _]. split.
  - destruct u as [|a u]; cbn [app] in He, Hs; injection He as -> He; [lia|].
    apply StronglySorted_inv in Hs as [_ Hs]. rewrite Forall_forall in Hs. assert (0 < sec) by (apply Hs; set_solver). lia.
  - rewrite app_comm_cons in He. rewrite He in Hs. apply sorted_app in Hs as (_ & _ & Hs).
    assert (Hin : sec ∈ sources (u ++ prev :: sec :: next :: v)) by (rewrite sources_app; cbn [sources removelast]; set_solver).
    rewrite He, sources_snoc in Hin. specialize (Hs sec lst Hin ltac:(left)). lia.
Qed.

(** C22: Freeing the block of a section merges it with its predecessor and keeps the invariant,
    provided neither of the two is on the free list without a free block; the freed blocks
    become free blocks of the predecessor and every other section keeps its own. *)
Theorem mem_free_correct seg u prev sec next v fl :
  seg_inv seg (u ++ prev :: sec :: next :: v) fl → first_addr seg mod SECTION_SIZE = 0 →
  freeable seg fl sec → freeable seg fl prev →
  ∃ seg' fl', dmm_mem_free seg (block_addr seg (sec + 1)) = Some (0, seg') ∧
    seg_inv seg' (u ++ prev :: next :: v) fl' ∧
    freen (secs seg') prev = freen (secs seg) prev + usedn (secs seg) sec + freen (secs seg) sec ∧
    (∀ y, y ≠ prev → freen (secs seg') y = freen (secs seg) y).
Proof.
  intros Hinv Ha Hs Hp. destruct (inner_bounds _ _ _ _ _ _ _ (inv_phys _ _ _ Hinv)) as [H0 Hl].
  destruct (block_addr_valid seg sec Ha H0 Hl) as [Hc Hi]. unfold dmm_mem_free. rewrite Hc, Hi. cbn [Z.eqb negb].
  destruct (mem_free_spec seg u prev sec next v fl Hinv Hs Hp) as (seg' & fl' & -> & ? & ? & _ & _ & ? & _).
  exists seg', fl'. done.
Qed.

(** A segment with one block of two used blocks. *)
Definition seg16_a : dmm_segment := default seg16 (snd <$> dmm_mem_alloc seg16 64).

Lemma seg16_a_inv : ∃ fl, seg_inv seg16_a [0; 13; 15] fl ∧ fl ≡ₚ [0].
Proof.
  destruct (mem_alloc_spec seg16 [0; 15] [0] 64) as (r & seg' & He & Hr);
    [apply (create_inv 4096 1024); vm_compute; reflexivity|vm_compute; congruence|].
  assert (Hs : seg16_a = seg' ∧ r = Some 13).
  { unfold seg16_a, dmm_mem_alloc. rewrite He. cbn. split; [done|]. revert He. vm_compute. congruence. }
  destruct Hs as [-> ->]. destruct Hr as (u & pos & next & v & fl' & Hph & Hsec & _ & _ & _ & Hinv & Hperm & _).
  clear He. destruct u as [|a [|b u]]; [|discriminate|destruct u; discriminate].
  injection Hph as <- <- <-. exists fl'. split; [exact Hinv|exact Hperm].
Qed.

Lemma mem_free_correct_witness :
  ∃ seg' fl', dmm_mem_free seg16_a (block_addr seg16_a 14) = Some (0, seg') ∧ seg_inv seg' [0; 15] fl'.
Proof.
  destruct seg16_a_inv as (fl & Hinv & Hperm).
  destruct (mem_free_correct seg16_a [] 0 13 15 [] fl Hinv) as (seg' & fl' & He & Hi & _); [vm_compute; reflexivity| | |].
  - intros _. rewrite Hperm. intros Hin%list_elem_of_singleton. discriminate.
  - intros H. vm_compute in H. discriminate.
  - exists seg', fl'. split; [exact He|exact Hi].
Defined.

(** An allocation that does not exhaust its section can be undone: freeing the block right
    away restores the physical order and every section's free blocks. *)
Lemma alloc_free_roundtrip seg phys fl sz mem seg' :
  seg_inv seg phys fl → first_addr seg mod SECTION_SIZE = 0 → 0 <= sz <= MAX_REQUEST →
  (∀ x, x ∈ sources phys → freen (secs seg) x ≠ CALC_NUM sz) →
  dmm_mem_alloc seg sz = Some (Some mem, seg') →
  ∃ seg2 fl2, dmm_mem_free seg' mem = Some (0, seg2) ∧ seg_inv seg2 phys fl2 ∧
    ∀ x, x ∈ sources phys → freen (secs seg2) x = freen (secs seg) x.
Proof.
  intros Hinv Ha Hsz Hex Hal. destruct (CALC_NUM_small sz Hsz) as [Hnum _].
  destruct (mem_alloc_spec seg phys fl sz Hinv) as (r & sg & Hm & Hres); [lia|].
  unfold dmm_mem_alloc in Hal. rewrite Hm in Hal. cbn [mbind option_bind] in Hal. destruct r as [sec|]; cbn in Hal; [|done]. injection Hal as <- <-.
  destruct Hres as (u & pos & next & v & fl' & -> & Hsec & Hlt & Hroom & Hbest & Hinv' & Hperm & Hfa & Hla & Hfo & Hfp & _ & (s & Hs & Hus & Hfs & _)).
  assert (Hnew : sec ∉ u ++ pos :: next :: v).
  { pose proof (phys_NoDup _ _ _ (inv_phys _ _ _ Hinv')) as Hnd.
    replace (u ++ pos :: sec :: next :: v) with ((u ++ [pos]) ++ sec :: next :: v) in Hnd by (by rewrite <- app_assoc).
    rewrite <- Permutation_middle, <- app_assoc in Hnd. by apply NoDup_cons in Hnd as [? _]. }
  assert (Hposs : pos ∈ sources (u ++ pos :: next :: v)) by (rewrite sources_app; cbn [sources removelast]; set_solver).
  destruct (inner_bounds _ _ _ _ _ _ _ (inv_phys _ _ _ Hinv')) as [H0 Hl].
  replace (block_addr seg (sec + 1)) with (block_addr sg (sec + 1)) by (unfold block_addr; by rewrite Hfa).
  destruct (block_addr_valid sg sec) as [Hc Hi]; [by rewrite Hfa|done|done|]. unfold dmm_mem_free. rewrite Hc, Hi. cbn [Z.eqb negb].
  destruct (mem_free_spec sg u pos sec next v fl' Hinv') as (seg2 & fl2 & -> & Hinv2 & Hfp2 & _ & _ & Hfo2 & _).
  - intros _. rewrite Hperm. intros Hin. apply Hnew, elem_sources. by apply (fl_sub _ _ _ _ (inv_free _ _ _ Hinv)).
  - intros Hz. specialize (Hex pos Hposs). lia.
  - exists seg2, fl2. split; [done|]. split; [done|]. intros x Hx. assert (x ≠ sec) by (intros ->; by apply Hnew, elem_sources).
    destruct (decide (x = pos)) as [->|Hne]; [|by rewrite Hfo2, Hfo].
    rewrite Hfp2, Hfp, (freen_lookup _ _ _ Hs), Hfs. unfold usedn. rewrite Hs. cbn. lia.
Qed.

Lemma alloc_free_roundtrip_witness :
  ∃ seg2 fl2, dmm_mem_free seg16_a 4992 = Some (0, seg2) ∧ seg_inv seg2 [0; 15] fl2 ∧
    ∀ x, x ∈ sources [0; 15] → freen (secs seg2) x = freen (secs seg16) x.
Proof.
  apply (alloc_free_roundtrip seg16 [0; 15] [0] 64).
  - apply (create_inv 4096 1024 seg16). vm_compute. reflexivity.
  - vm_compute. reflexivity.
  - vm_compute. intuition congruence.
  - intros x [->|Hx]%elem_of_cons; [vm_compute; congruence|by apply elem_of_nil in Hx].
  - vm_compute. reflexivity.
Defined.

Lemma namen_insert h x s nm y : h !! x = Some s → namen (<[x := set_name nm s]> h) y = if decide (y = x) then nm else namen h y.
Proof. intros Hs. unfold namen. case_decide; [subst; by rewrite lookup_insert_eq|by rewrite lookup_insert_ne]. Qed.

(** C30: Mapping at most [MAX_REQUEST] bytes under a non-empty name that fits its field fails
    exactly when the name is in use or no section has room, and then changes nothing;
    otherwise it returns a block that the lookup of that name finds afterwards, the invariant
    holds again and all other names resolve as before. *)
Theorem mem_map_lookup seg phys fl sz c nm :
  let nm := String c nm in
  seg_inv seg phys fl → 0 <= sz <= MAX_REQUEST → Z.of_nat (String.length nm) < DMM_MEM_NAME_SIZE →
  ∃ r seg', dmm_mem_map seg sz (Some nm) = Some (r, seg') ∧
  match r with
  | None =>
      seg' = seg ∧
      ((∃ sec, sec ∈ phys ∧ sec ≠ 0 ∧ namen (secs seg) sec = nm) ∨
       ∀ x, x ∈ sources phys → freen (secs seg) x < CALC_NUM sz)
  | Some mem =>
      (∀ sec, sec ∈ phys → sec ≠ 0 → namen (secs seg) sec ≠ nm) ∧
      (∃ x, x ∈ sources phys ∧ CALC_NUM sz <= freen (secs seg) x) ∧
      dmm_mem_lookup seg' (Some nm) = Some (Some mem) ∧
      (∃ phys' fl', seg_inv seg' phys' fl') ∧
      (∀ x, x ∈ phys → namen (secs seg') x = namen (secs seg) x)
  end.
Proof.
  intros nm' Hinv Hsz Hlen. assert (Hne : nm' ≠ "") by done. unfold dmm_mem_map.
  change (match Some nm' with None | Some "" => _ | Some n => ?f n end) with (f nm'). cbv beta.
  unfold nm' at 1. fold nm'. rewrite (proj2 (Z.leb_gt _ _)) by done.
  destruct (mem_lookup_spec seg phys fl nm' Hinv Hne) as [(sec & -> & Hin & Hs0 & Hnm)|[-> Hno]]; cbn [mbind option_bind].
  { eexists _, _. split; [done|]. split; [done|]. left. by exists sec. }
  destruct (CALC_NUM_small sz Hsz) as [Hnum _].
  destruct (mem_alloc_spec seg phys fl sz Hinv) as (r & sg & -> & Hres); [lia|]. cbn [mbind option_bind].
  destruct r as [sec|]; [|destruct Hres as [-> Hfull]; eexists _, _; split; [done|]; split; [done|by right]].
  destruct Hres as (u & pos & next & v & fl' & -> & Hsec & Hlt & Hroom & _ & Hinv' & _ & Hfa & Hla & _ & _ & Hnm & (s & Hs & _)).
  rewrite (upd_Some _ _ _ _ Hs). cbn [mbind option_bind]. eexists _, _. split; [done|]. split; [done|].
  split; [exists pos; split; [rewrite sources_app; cbn [sources removelast]; set_solver|done]|].
  destruct (inner_bounds _ _ _ _ _ _ _ (inv_phys _ _ _ Hinv')) as [H0 Hl].
  pose proof (seg_inv_rename sg _ _ sec s nm' Hinv' ltac:(lia) Hs) as Hinv2. set (seg2 := set_secs sg _) in *.
  assert (Hnew : sec ∉ u ++ pos :: next :: v).
  { pose proof (phys_NoDup _ _ _ (inv_phys _ _ _ Hinv')) as Hnd. replace (u ++ pos :: sec :: next :: v) with ((u ++ [pos]) ++ sec :: next :: v) in Hnd by (by rewrite <- app_assoc).
    rewrite <- Permutation_middle, <- app_assoc in Hnd. by apply NoDup_cons in Hnd as [? _]. }
  assert (Hother : ∀ x, x ≠ sec → namen (secs seg2) x = namen (secs seg) x).
  { intros x Hx. unfold seg2. cbn [secs set_secs]. rewrite (namen_insert _ _ _ _ _ Hs). case_decide; [done|]. unfold namen. by rewrite Hnm. }
  assert (Hself : namen (secs seg2) sec = nm') by (unfold seg2; cbn [secs set_secs]; rewrite (namen_insert _ _ _ _ _ Hs); by case_decide).
  assert (Hsec0 : sec ≠ 0).
  { intros ->. apply Hnew. destruct (phys_ends _ _ _ (inv_phys _ _ _ Hinv)) as (mid & ->). left. }
  split; [|split; [by eexists _, _|intros x Hx; apply Hother; by intros ->]].
  unfold dmm_mem_lookup. unfold nm' at 1. fold nm'.
  destruct (mem_lookup_spec seg2 _ _ nm' Hinv2 Hne) as [(y & -> & Hy & Hy0 & Hyn)|[_ Hnone]]; cbn [mbind option_bind].
  - destruct (decide (y = sec)) as [->|Hys]; [unfold block_addr, seg2; cbn; by rewrite Hfa|].
    rewrite Hother in Hyn by done. exfalso. apply (Hno y); [|done|done]. set_solver.
  - exfalso. apply (Hnone sec); [set_solver|done|done].
Qed.

Lemma mem_map_lookup_witness :
  ∃ r seg', dmm_mem_map seg16 100 (Some "ring") = Some (Some r, seg') ∧ dmm_mem_lookup seg' (Some "ring") = Some (Some r).
Proof.
  destruct (mem_map_lookup seg16 [0; 15] [0] 100 (Ascii.ascii_of_nat 114) "ing") as (r & seg' & He & Hr);
    [apply (create_inv 4096 1024 seg16); vm_compute; reflexivity|vm_compute; intuition congruence|vm_compute; reflexivity|].
  destruct r as [mem|]; [exists mem, seg'; split; [exact He|apply Hr]|].
  exfalso. revert He. vm_compute. congruence.
Defined.

(** ** Two defects *)

(** The state after a block that exhausts the first section is allocated and freed. *)
Definition seg16_full : dmm_segment := default seg16 (snd <$> dmm_mem_alloc seg16 768).
Definition seg16_exhausted : dmm_segment := default seg16 (snd <$> dmm_mem_free seg16_full 4288).

(** An exact fit leaves the exhausted section on the free list; freeing the block then links
    the section to itself, and the next request for more blocks than it has never ends, however
    long the search runs, although the segment is as it was created. *)
Lemma exact_fit_then_free_hangs :
  dmm_mem_alloc seg16 768 = Some (Some 4288, seg16_full) ∧ dmm_mem_free seg16_full 4288 = Some (0, seg16_exhausted) ∧
  seg_used_num seg16_exhausted = seg_used_num seg16 ∧
  MORE_SEC (secs seg16_exhausted) 0 = Some 0 ∧
  (CALC_NUM 832 <=? total_num seg16_exhausted - seg_used_num seg16_exhausted) = true ∧
  ∀ fuel, find_free fuel (secs seg16_exhausted) (last seg16_exhausted) (CALC_NUM 832) (last seg16_exhausted) = None.
Proof.
  split; [vm_compute; reflexivity|]. split; [vm_compute; reflexivity|]. split; [vm_compute; reflexivity|].
  split; [vm_compute; reflexivity|]. split; [vm_compute; reflexivity|].
  assert (H15 : MORE_SEC (secs seg16_exhausted) 15 = Some 0) by (vm_compute; reflexivity).
  assert (H0 : MORE_SEC (secs seg16_exhausted) 0 = Some 0) by (vm_compute; reflexivity).
  assert (Hf : FREE_NUM (secs seg16_exhausted) 0 = Some 13) by (vm_compute; reflexivity).
  replace (last seg16_exhausted) with 15 by (vm_compute; reflexivity). replace (CALC_NUM 832) with 14 by (vm_compute; reflexivity).
  generalize dependent (secs seg16_exhausted). intros h H15 H0 Hf.
  assert (Hloop : ∀ fuel, find_free fuel h 15 14 0 = None).
  { induction fuel as [|fuel IH]; [done|]. cbn [find_free]. rewrite H0. cbn [mbind option_bind]. rewrite Hf. exact IH. }
  intros [|fuel]; [done|]. cbn [find_free]. rewrite H15. cbn [mbind option_bind]. rewrite Hf. apply Hloop.
Qed.

(** The block count is converted to [int]: a request of 2^38 bytes becomes a request for one
    block and succeeds with a section that has no room for data at all. *)
Lemma huge_request_truncated :
  CALC_NUM (2 ^ 38) = 1 ∧
  ∃ seg', dmm_mem_alloc seg16 (2 ^ 38) = Some (Some (block_addr seg16 15), seg') ∧
    usedn (secs seg') 14 = 1 ∧ block_addr seg16 15 = block_addr seg16 (last seg16).
Proof. split; [by vm_compute|]. eexists. split; [vm_compute; reflexivity|]. by vm_compute. Qed.

(** ** The dump *)

Lemma dump_physical_spec h lst w : ∀ fuel,
  links (NEXT_SEC h) (PREV_SEC h) (w ++ [lst]) → lst ∉ w → headers h (w ++ [lst]) → (length w < fuel)%nat →
  ∃ l, dump_physical fuel h lst (hd lst (w ++ [lst])) = Some l ∧ l.*1 = w ++ [lst].
Proof.
  induction w as [|x w IH]; intros fuel Hl Hlst Hh Hfuel; (destruct fuel as [|fuel]; [simpl in *; lia|]); cbn [dump_physical hd app] in *.
  - apply Forall_cons in Hh as [[s Hs] _]. rewrite Hs. cbn [mbind option_bind]. rewrite Z.eqb_refl. by eexists.
  - apply Forall_cons in Hh as [[s Hs] Hh]. apply not_elem_of_cons in Hlst as [Hne Hlst]. rewrite Hs. cbn [mbind option_bind].
    rewrite (proj2 (Z.eqb_neq x lst)) by auto.
    assert (Hn : NEXT_SEC h x = Some (hd lst (w ++ [lst])) ∧ links (NEXT_SEC h) (PREV_SEC h) (w ++ [lst])).
    { destruct w; cbn [app] in *; apply links_cons in Hl as (? & _ & ?); done. }
    destruct Hn as [-> Hl']. cbn [mbind option_bind]. destruct (IH fuel Hl' Hlst Hh) as (l & -> & Hl1); [simpl in *; lia|].
    eexists. split; [done|]. cbn. by rewrite Hl1.
Qed.

Lemma dump_free_spec h lst fl : ∀ fuel p,
  links (MORE_SEC h) (LESS_SEC h) (p :: fl ++ [lst]) → lst ∉ fl → headers h fl → (length fl < fuel)%nat →
  ∃ x, MORE_SEC h p = Some x ∧ dump_free fuel h lst x = Some ((λ y, (y, freen h y)) <$> fl).
Proof.
  induction fl as [|x fl IH]; intros fuel p Hl Hlst Hh Hfuel; (destruct fuel as [|fuel]; [simpl in *; lia|]); cbn [app] in *;
    apply links_cons in Hl as (-> & _ & Hl); eexists; (split; [done|]); cbn [dump_free].
  - by rewrite Z.eqb_refl.
  - apply Forall_cons in Hh as [Hx Hh]. apply not_elem_of_cons in Hlst as [Hne Hlst].
    rewrite (proj2 (Z.eqb_neq x lst)), freen_Some by auto. cbn [mbind option_bind].
    destruct (IH fuel x Hl Hlst Hh) as (y & -> & Hd); [simpl in *; lia|]. cbn [mbind option_bind]. by rewrite Hd.
Qed.

(** The two walks of the dump end on every segment that satisfies the invariant and list
    exactly the sections in physical order and the free list in ascending order of free blocks. *)
Lemma seg_dump_complete seg phys fl :
  seg_inv seg phys fl →
  ∃ l, dmm_seg_dump seg = Some (l, (λ x, (x, freen (secs seg) x)) <$> fl) ∧ l.*1 = phys ∧
    StronglySorted Z.le (freen (secs seg) <$> fl).
Proof.
  intros Hinv. destruct (fl_facts _ _ _ Hinv) as (Hlst & Hh & Hfuel & Hlsrc). pose proof (phys_length _ _ _ Hinv) as Hlen.
  pose proof Hinv as [Hp [Hl _ _ _ Hsort] _ _ _]. pose proof (phys_headers _ _ _ Hp) as Hph.
  destruct Hp as [(mid & ->) Hpl _ (sl & Hsl & _)]. rewrite app_comm_cons in *. rewrite sources_snoc in *.
  destruct (dump_physical_spec (secs seg) (last seg) (0 :: mid) (walk_fuel seg) Hpl Hlsrc) as (l & Hd & Hl1).
  { apply Forall_app. split; [done|]. apply Forall_singleton. by eexists. }
  { rewrite length_app in Hlen. cbn [length] in *. lia. }
  destruct (dump_free_spec (secs seg) (last seg) fl (walk_fuel seg) (last seg) Hl Hlst Hh Hfuel) as (x & Hx & Hdf).
  exists l. unfold dmm_seg_dump. cbn [app hd] in Hd. rewrite Hd. cbn [mbind option_bind]. rewrite Hx. cbn [mbind option_bind]. rewrite Hdf.
  split; [done|]. split; [done|]. clear -Hsort. induction Hsort as [|a k _ IH Ha]; [constructor|]. rewrite fmap_cons. constructor; [done|].
  rewrite Forall_fmap. done.
Qed.

Lemma seg_dump_complete_witness :
  ∃ l, dmm_seg_dump seg16 = Some (l, [(0, 13)]) ∧ l.*1 = [0; 15] ∧ StronglySorted Z.le [13].
Proof.
  apply (seg_dump_complete seg16 [0; 15] [0]). apply (create_inv 4096 1024 seg16). vm_compute. reflexivity.
Defined.
