(* ===== verification/RbTree.v ===== *)
(** * The red-black tree of the epoll items (src/src/framework/common/data_struct/eprb_tree.c)

    Nodes of [struct ep_rb_node] in a memory that maps addresses to nodes, and one root; a null
    pointer is [None], and an access through a null or dangling pointer makes the whole operation
    [None].  The code of rotations, insertion and erasure comes in pairs of branches that exchange
    left and right: the side is a parameter here.  Processes that share the tree map it at the
    same address, so that the translations between shared and local addresses are the identity.  Also here:
    the two walks of the tree by file descriptor (nstack_eventpoll.c, nstack_epoll_comm.c). *)
From S2P Require Import Prelude.

Definition EP_RB_RED : Z := 0.
Definition EP_RB_BLACK : Z := 1.

Record ep_rb_node := mk_rb { color : Z; rb_parent : option Z; rb_right : option Z; rb_left : option Z }.

(** The memory of the nodes and [root->rb_node]. *)
Record rb_tree := mk_rbt { rb_nodes : gmap Z ep_rb_node; rb_node : option Z }.

Inductive side := L | R.
#[global] Instance side_eq_dec : EqDecision side.
Proof. solve_decision. Defined.
Definition flip (d : side) : side := match d with L => R | R => L end.

Definition child (d : side) (n : ep_rb_node) : option Z := match d with L => rb_left n | R => rb_right n end.
Definition set_child (d : side) (v : option Z) (n : ep_rb_node) : ep_rb_node :=
  match d with
  | L => mk_rb (color n) (rb_parent n) (rb_right n) v
  | R => mk_rb (color n) (rb_parent n) v (rb_left n)
  end.
Definition set_parent (v : option Z) (n : ep_rb_node) : ep_rb_node := mk_rb (color n) v (rb_right n) (rb_left n).
Definition set_color (v : Z) (n : ep_rb_node) : ep_rb_node := mk_rb v (rb_parent n) (rb_right n) (rb_left n).

(** A field of a node, and a store to one. *)
Definition rb_get {A} (f : ep_rb_node → A) (s : rb_tree) (x : Z) : option A := n ← rb_nodes s !! x; Some (f n).
Definition rb_upd (f : ep_rb_node → ep_rb_node) (s : rb_tree) (x : Z) : option rb_tree :=
  n ← rb_nodes s !! x; Some (mk_rbt (<[x := f n]> (rb_nodes s)) (rb_node s)).
Definition set_root (v : option Z) (s : rb_tree) : rb_tree := mk_rbt (rb_nodes s) v.

(** The leftmost node below [n], by the loop over [rb_left]. *)
Fixpoint leftmost (fuel : nat) (s : rb_tree) (n : Z) : option Z :=
  l ← rb_get rb_left s n;
  match l with
  | None => Some n
  | Some l => match fuel with O => None | S fuel => leftmost fuel s l end
  end.

Definition ep_rb_first (fuel : nat) (s : rb_tree) : option (option Z) :=
  match rb_node s with
  | None => Some None
  | Some n => n ← leftmost fuel s n; Some (Some n)
  end.

(** The place that pointed to [old] points to [v]: a child field of the parent, the side [d] tested first, or the root. *)
Definition replace_in_parent (d : side) (s : rb_tree) (parent : option Z) (old : Z) (v : option Z) : option rb_tree :=
  match parent with
  | Some p => c ← rb_get (child d) s p; rb_upd (set_child (if bool_decide (c = Some old) then d else flip d) v) s p
  | None => Some (set_root v s)
  end.

(** ** Rotation: of X towards the side [d] *)

Definition rb_rotate (d : side) (s : rb_tree) (X : Z) : option rb_tree :=
  Y ← rb_get (child (flip d)) s X; Y ← Y;
  b ← rb_get (child d) s Y;
  s ← rb_upd (set_child (flip d) b) s X;
  b ← rb_get (child d) s Y;
  s ← match b with Some b => rb_upd (set_parent (Some X)) s b | None => Some s end;
  p ← rb_get rb_parent s X;
  s ← rb_upd (set_parent p) s Y;
  p ← rb_get rb_parent s X;
  s ← replace_in_parent d s p X (Some Y);
  s ← rb_upd (set_child d (Some X)) s Y;
  rb_upd (set_parent (Some Y)) s X.

Definition ep_rb_rotate_left : rb_tree → Z → option rb_tree := rb_rotate L.
Definition ep_rb_rotate_right : rb_tree → Z → option rb_tree := rb_rotate R.

(** ** Insertion *)

Definition EP_RBTREE_PARENT (s : rb_tree) (X : Z) : option Z := p ← rb_get rb_parent s X; p.
Definition EP_RBTREE_GRANDF (s : rb_tree) (X : Z) : option Z := p ← EP_RBTREE_PARENT s X; EP_RBTREE_PARENT s p.

(** The end of a repair: recolour and rotate, X, its parent and its grandfather in line. *)
Definition insert_finish (d : side) (s : rb_tree) (X : Z) : option rb_tree :=
  P ← EP_RBTREE_PARENT s X; s ← rb_upd (set_color EP_RB_BLACK) s P;
  G ← EP_RBTREE_GRANDF s X; s ← rb_upd (set_color EP_RB_RED) s G;
  G ← EP_RBTREE_GRANDF s X; rb_rotate (flip d) s G.

(** The branch for a parent that is the [d] child of the grandfather. *)
Definition insert_side (d : side) (s : rb_tree) (X : Z) : option (rb_tree * Z) :=
  G ← EP_RBTREE_GRANDF s X;
  Y ← rb_get (child (flip d)) s G;
  red ← match Y with Some y => c ← rb_get color s y; Some (c =? EP_RB_RED) | None => Some false end;
  if (red : bool) then
    P ← EP_RBTREE_PARENT s X; s ← rb_upd (set_color EP_RB_BLACK) s P;
    y ← Y; s ← rb_upd (set_color EP_RB_BLACK) s y;
    G ← EP_RBTREE_GRANDF s X; s ← rb_upd (set_color EP_RB_RED) s G;
    G ← EP_RBTREE_GRANDF s X; Some (s, G)
  else
    P ← EP_RBTREE_PARENT s X; c ← rb_get (child (flip d)) s P;
    '(s, X) ← (if bool_decide (c = Some X) then X ← EP_RBTREE_PARENT s X; s ← rb_rotate d s X; Some (s, X)
               else Some (s, X));
    s ← insert_finish d s X;
    Some (s, X).

Definition insert_step (s : rb_tree) (X : Z) : option (rb_tree * Z) :=
  p ← rb_get rb_parent s X;
  G ← EP_RBTREE_GRANDF s X; l ← rb_get rb_left s G;
  if bool_decide (p = l) then insert_side L s X else insert_side R s X.

Fixpoint insert_loop (fuel : nat) (s : rb_tree) (X : Z) : option rb_tree :=
  if bool_decide (Some X = rb_node s) then Some s
  else
    P ← EP_RBTREE_PARENT s X; c ← rb_get color s P;
    if c =? EP_RB_RED then
      match fuel with
      | O => None
      | S fuel => '(s, X) ← insert_step s X; insert_loop fuel s X
      end
    else Some s.

Definition ep_rb_insert_color (fuel : nat) (s : rb_tree) (X : Z) : option rb_tree :=
  s ← insert_loop fuel s X;
  r ← rb_node s; rb_upd (set_color EP_RB_BLACK) s r.

(** Where the pointer to a new node is stored: at the root, or in a child field. *)
Inductive rb_link := Link_root | Link_child (d : side) (x : Z).

Definition link_load (s : rb_tree) (p : rb_link) : option (option Z) :=
  match p with Link_root => Some (rb_node s) | Link_child d x => rb_get (child d) s x end.
Definition link_store (s : rb_tree) (p : rb_link) (v : option Z) : option rb_tree :=
  match p with Link_root => Some (set_root v s) | Link_child d x => rb_upd (set_child d v) s x end.

Definition ep_rb_link_node (s : rb_tree) (node : Z) (parent : option Z) (link : rb_link) : option rb_tree :=
  s ← rb_upd (set_parent parent) s node;
  s ← rb_upd (set_child R None) s node;
  s ← rb_upd (set_child L None) s node;
  s ← link_store s link (Some node);
  rb_upd (set_color EP_RB_RED) s node.

(** ** Erasure *)

Definition null_or_black (s : rb_tree) (p : option Z) : option bool :=
  match p with None => Some true | Some x => c ← rb_get color s x; Some (c =? EP_RB_BLACK) end.

(** The end of a repair: the far child of the sibling [W] is red. *)
Definition erase_finish (d : side) (s : rb_tree) (Parent W : Z) : option rb_tree :=
  c ← rb_get color s Parent; s ← rb_upd (set_color c) s W;
  s ← rb_upd (set_color EP_RB_BLACK) s Parent;
  far ← rb_get (child (flip d)) s W; far ← far; c ← rb_get color s far;
  s ← (if negb (c =? EP_RB_BLACK) then rb_upd (set_color EP_RB_BLACK) s far else Some s);
  rb_rotate d s Parent.

(** The branch for an X that is the [d] child of Parent: the next X and Parent, or the X the loop ends with.
    First with a black sibling [W], then with any. *)
Definition erase_black (d : side) (s : rb_tree) (Parent W : Z) : option (rb_tree * (option Z * option Z + option Z)) :=
  wl ← rb_get rb_left s W; bl ← null_or_black s wl;
  both ← (if (bl : bool) then wr ← rb_get rb_right s W; null_or_black s wr else Some false);
  if (both : bool) then
    s ← rb_upd (set_color EP_RB_RED) s W;
    p ← rb_get rb_parent s Parent;
    Some (s, inl (Some Parent, p))
  else
    far ← rb_get (child (flip d)) s W; fb ← null_or_black s far;
    '(s, W) ← (if (fb : bool) then
                 near ← rb_get (child d) s W;
                 s ← match near with Some n => rb_upd (set_color EP_RB_BLACK) s n | None => Some s end;
                 s ← rb_upd (set_color EP_RB_RED) s W;
                 s ← rb_rotate (flip d) s W;
                 W ← rb_get (child (flip d)) s Parent; W ← W; Some (s, W)
               else Some (s, W));
    s ← erase_finish d s Parent W;
    Some (s, inr (rb_node s)).

Definition erase_side (d : side) (s : rb_tree) (Parent : Z) : option (rb_tree * (option Z * option Z + option Z)) :=
  W ← rb_get (child (flip d)) s Parent; W ← W;
  c ← rb_get color s W;
  '(s, W) ← (if c =? EP_RB_RED then
               s ← rb_upd (set_color EP_RB_BLACK) s W;
               s ← rb_upd (set_color EP_RB_RED) s Parent;
               s ← rb_rotate d s Parent;
               W ← rb_get (child (flip d)) s Parent; W ← W; Some (s, W)
             else Some (s, W));
  erase_black d s Parent W.

Fixpoint erase_loop (fuel : nat) (s : rb_tree) (X Parent : option Z) : option (rb_tree * option Z) :=
  if bool_decide (X = rb_node s) then Some (s, X)
  else
    b ← null_or_black s X;
    if (b : bool) then
      match Parent with
      | None => Some (s, X)
      | Some P =>
          match fuel with
          | O => None
          | S fuel =>
              l ← rb_get rb_left s P;
              '(s, r) ← (if bool_decide (X = l) then erase_side L s P else erase_side R s P);
              match r with
              | inl (X, Parent) => erase_loop fuel s X Parent
              | inr X => Some (s, X)
              end
          end
      end
    else Some (s, X).

Definition ep_rb_erase_color (fuel : nat) (s : rb_tree) (X Parent : option Z) : option rb_tree :=
  '(s, X) ← erase_loop fuel s X Parent;
  match X with Some x => rb_upd (set_color EP_RB_BLACK) s x | None => Some s end.

(** The node [old] has two children and its successor [node] takes its place: [node] leaves its own place to its [child],
    unless that place is right below [old]; then it takes over the fields of [old].  *)
Definition erase_move (s : rb_tree) (old node : Z) (child parent : option Z) : option (rb_tree * option Z) :=
  if bool_decide (parent = Some old) then Some (s, Some node)
  else
    s ← match child with Some c => rb_upd (set_parent parent) s c | None => Some s end;
    p ← parent; s ← rb_upd (set_child L child) s p;
    r ← rb_get rb_right s old; s ← rb_upd (set_child R r) s node;
    r ← rb_get rb_right s old; r ← r; s ← rb_upd (set_parent (Some node)) s r;
    Some (s, parent).

Definition erase_adopt (s : rb_tree) (old node : Z) : option rb_tree :=
  c ← rb_get color s old; s ← rb_upd (set_color c) s node;
  p ← rb_get rb_parent s old; s ← rb_upd (set_parent p) s node;
  l ← rb_get rb_left s old; s ← rb_upd (set_child L l) s node;
  l ← rb_get rb_left s old; l ← l; rb_upd (set_parent (Some node)) s l.

(** The surgery of [ep_rb_erase]: the child that moved up, its parent and the colour that went. *)
Definition erase_swap (fuel : nat) (s : rb_tree) (old right : Z) : option (rb_tree * (option Z * option Z * Z)) :=
  node ← leftmost fuel s right;
  p ← rb_get rb_parent s old;
  s ← replace_in_parent L s p old (Some node);
  child ← rb_get rb_right s node;
  parent ← rb_get rb_parent s node;
  color_ ← rb_get color s node;
  '(s, parent) ← erase_move s old node child parent;
  s ← erase_adopt s old node;
  Some (s, (child, parent, color_)).

Definition erase_cut (s : rb_tree) (node : Z) (child : option Z) : option (rb_tree * (option Z * option Z * Z)) :=
  parent ← rb_get rb_parent s node;
  color_ ← rb_get color s node;
  s ← match child with Some c => rb_upd (set_parent parent) s c | None => Some s end;
  s ← replace_in_parent L s parent node child;
  Some (s, (child, parent, color_)).

Definition ep_rb_erase (fuel : nat) (s : rb_tree) (node : Z) : option rb_tree :=
  l ← rb_get rb_left s node; r ← rb_get rb_right s node;
  '(s, (child, parent, color_)) ←
    match l, r with
    | None, r => erase_cut s node r
    | l, None => erase_cut s node l
    | Some _, Some r => erase_swap fuel s node r
    end;
  if color_ =? EP_RB_BLACK then ep_rb_erase_color fuel s child parent else Some s.

(** ** The walks by file descriptor; [fd] gives the descriptor of the item a node belongs to *)

Definition NSTACK_MAX_EPITEM_NUM : Z := 16384.

(** [n]: the rounds left until the loop counter passes [NSTACK_MAX_EPITEM_NUM]. *)
Fixpoint insert_walk (n : nat) (fd : Z → Z) (s : rb_tree) (new : Z) (p : rb_link) (parent : option Z) : option (rb_link * option Z) :=
  v ← link_load s p;
  match v, n with
  | None, _ | _, O => Some (p, parent)
  | Some x, S n => insert_walk n fd s new (Link_child (if fd x <? fd new then R else L) x) (Some x)
  end.

Definition nsep_rbtree_insert (fuel : nat) (fd : Z → Z) (s : rb_tree) (epi : Z) : option rb_tree :=
  '(p, parent) ← insert_walk (Z.to_nat NSTACK_MAX_EPITEM_NUM) fd s epi Link_root None;
  s ← ep_rb_link_node s epi parent p;
  ep_rb_insert_color fuel s epi.

Fixpoint find_walk (n : nat) (fd : Z → Z) (s : rb_tree) (key : Z) (rbp : option Z) : option (option Z) :=
  match rbp, n with
  | None, _ | _, O => Some None
  | Some x, S n =>
      if fd x <? key then r ← rb_get rb_right s x; find_walk n fd s key r
      else if key <? fd x then l ← rb_get rb_left s x; find_walk n fd s key l
      else Some (Some x)
  end.

Definition nsep_find_ep (fd : Z → Z) (s : rb_tree) (key : Z) : option (option Z) :=
  find_walk (Z.to_nat NSTACK_MAX_EPITEM_NUM) fd s key (rb_node s).
