(* ===== verification/RbTreeProofs.v ===== *)
(** * Trees in memory

    The binary tree a memory holds below a pointer, the path from the root to a node, and the
    effect of the stores of [RbTree] on them: recolouring, rotation, linking and the surgery of
    erasure are operations on trees. *)
From S2P Require Import Prelude.
From S2P Require Import RbTree.

(** ** Trees and paths *)

Inductive tree := E | T (c : Z) (l : tree) (x : Z) (r : tree).

(** One step of a path: the side of the hole, the colour and address of the node, its other subtree. *)
Inductive frame := F (d : side) (c : Z) (x : Z) (t : tree).
Abbreviation path := (list frame).

Definition ptr (t : tree) : option Z := match t with E => None | T _ _ x _ => Some x end.
(** The node with the subtree [a] on the side [d] and [b] on the other. *)
Definition T' (d : side) (c : Z) (a : tree) (x : Z) (b : tree) : tree := match d with L => T c a x b | R => T c b x a end.
Definition plug (f : frame) (t : tree) : tree := let 'F d c x b := f in T' d c t x b.
Fixpoint fill (k : path) (t : tree) : tree := match k with [] => t | f :: k => fill k (plug f t) end.

Definition fnode (f : frame) : Z := let 'F _ _ x _ := f in x.
Definition kparent (k : path) : option Z := match k with [] => None | f :: _ => Some (fnode f) end.

Fixpoint inorder (t : tree) : list Z := match t with E => [] | T _ l x r => inorder l ++ x :: inorder r end.
(** The nodes of a path and of the subtrees along it. *)
Definition knodes (k : path) : list Z := inorder (fill k E).
Arguments knodes : simpl never.

(** ** What a memory holds *)

Definition node_is (m : gmap Z ep_rb_node) (x c : Z) (p : option Z) (d : side) (a b : option Z) : Prop :=
  ∃ n, m !! x = Some n ∧ color n = c ∧ rb_parent n = p ∧ child d n = a ∧ child (flip d) n = b.

Fixpoint rep (m : gmap Z ep_rb_node) (p : option Z) (t : tree) : Prop :=
  match t with
  | E => True
  | T c l x r => node_is m x c p L (ptr l) (ptr r) ∧ rep m (Some x) l ∧ rep m (Some x) r
  end.

(** The path whose hole has the pointer [h]. *)
Fixpoint krep (s : rb_tree) (k : path) (h : option Z) : Prop :=
  match k with
  | [] => rb_node s = h
  | F d c x b :: k => node_is (rb_nodes s) x c (kparent k) d h (ptr b) ∧ rep (rb_nodes s) (Some x) b ∧ krep s k (Some x)
  end.

Record holds (s : rb_tree) (t : tree) : Prop := {
  h_root : rb_node s = ptr t;
  h_rep : rep (rb_nodes s) None t;
  h_nodup : NoDup (inorder t)
}.

(** ** Generic lemmas *)

Lemma flip_flip d : flip (flip d) = d.
Proof. by destruct d. Qed.
Lemma T'_flip d c a x b : T' (flip d) c a x b = T' d c b x a.
Proof. by destruct d. Qed.
Lemma ptr_T' d c a x b : ptr (T' d c a x b) = Some x.
Proof. by destruct d. Qed.

Lemma node_is_flip m x c p d a b : node_is m x c p (flip d) a b ↔ node_is m x c p d b a.
Proof. unfold node_is. destruct d; cbn; naive_solver. Qed.

Lemma rep_T' m p d c a x b : rep m p (T' d c a x b) ↔ node_is m x c p d (ptr a) (ptr b) ∧ rep m (Some x) a ∧ rep m (Some x) b.
Proof.
  destruct d; cbn; [done|]. rewrite <- (node_is_flip m x c p R). cbn. tauto.
Qed.

Lemma inorder_T' d c a x b : inorder (T' d c a x b) ≡ₚ x :: inorder a ++ inorder b.
Proof. destruct d; cbn; solve_Permutation. Qed.

Lemma inorder_fill k t : inorder (fill k t) ≡ₚ inorder t ++ knodes k.
Proof.
  unfold knodes. revert t. induction k as [|[d c x b] k IH]; intros t; cbn [fill plug]; [cbn; solve_Permutation|].
  rewrite (IH (T' d c t x b)), (IH (T' d c E x b)), !inorder_T'. cbn [inorder]. solve_Permutation.
Qed.

Lemma knodes_cons d c x b k : knodes (F d c x b :: k) ≡ₚ x :: inorder b ++ knodes k.
Proof. unfold knodes. cbn [fill plug]. rewrite inorder_fill, inorder_T'. done. Qed.

(** The sequence of a tree depends on that of a subtree only. *)
Lemma inorder_fill_ext k t t' : inorder t = inorder t' → inorder (fill k t) = inorder (fill k t').
Proof.
  revert t t'. induction k as [|[d c x b] k IH]; intros t t' Ht; [done|]. cbn [fill]. apply IH. destruct d; cbn; by rewrite Ht.
Qed.

Lemma inorder_color d c c' a x b : inorder (T' d c a x b) = inorder (T' d c' a x b).
Proof. by destruct d. Qed.

Lemma fill_app k1 k2 t : fill (k1 ++ k2) t = fill k2 (fill k1 t).
Proof. revert t. induction k1 as [|f k1 IH]; intros t; [done|]. cbn. apply IH. Qed.

(** *** Memory: frames and changes *)

Lemma node_is_insert_ne m x c p d a b y n : x ≠ y → node_is (<[y := n]> m) x c p d a b ↔ node_is m x c p d a b.
Proof. intros Hne. unfold node_is. by rewrite lookup_insert_ne. Qed.

Lemma rep_insert m p t y n : y ∉ inorder t → rep (<[y := n]> m) p t ↔ rep m p t.
Proof.
  revert p. induction t as [|c l IHl x r IHr]; intros p Hy; cbn in *; [done|].
  rewrite node_is_insert_ne by set_solver. rewrite IHl, IHr by set_solver. done.
Qed.

Lemma krep_insert m r k h y n : y ∉ knodes k → krep (mk_rbt (<[y := n]> m) r) k h ↔ krep (mk_rbt m r) k h.
Proof.
  revert h. induction k as [|[d c x b] k IH]; intros h Hy; cbn [krep]; [done|]. rewrite knodes_cons in Hy. cbn [rb_nodes].
  rewrite node_is_insert_ne by set_solver. rewrite rep_insert by set_solver. rewrite IH by set_solver. done.
Qed.

(** The pointer in the hole decides which nodes are in it. *)
Lemma rep_fill s k t :
  (rb_node s = ptr (fill k t) ∧ rep (rb_nodes s) None (fill k t)) ↔ (krep s k (ptr t) ∧ rep (rb_nodes s) (kparent k) t).
Proof.
  revert t. induction k as [|[d c x b] k IH]; intros t; [done|]. cbn [fill plug krep kparent fnode].
  rewrite IH, ptr_T', rep_T'. tauto.
Qed.

Lemma holds_fill s k t : holds s (fill k t) ↔ krep s k (ptr t) ∧ rep (rb_nodes s) (kparent k) t ∧ NoDup (inorder t ++ knodes k).
Proof.
  split.
  - intros [H1 H2 H3]. rewrite <- inorder_fill. by apply and_assoc, conj; [apply rep_fill|].
  - rewrite <- inorder_fill. intros (H1 & H2 & H3). split; [| |done]; by apply (rep_fill s k t).
Qed.

(** ** Stores *)

Lemma rb_get_node {A} (f : ep_rb_node → A) s x n : rb_nodes s !! x = Some n → rb_get f s x = Some (f n).
Proof. unfold rb_get. by intros ->. Qed.
Lemma rb_upd_node f s x n : rb_nodes s !! x = Some n → rb_upd f s x = Some (mk_rbt (<[x := f n]> (rb_nodes s)) (rb_node s)).
Proof. unfold rb_upd. by intros ->. Qed.

(** The fields of the node at the hole of a path. *)
Lemma holds_node s k d c a x b : holds s (fill k (T' d c a x b)) →
  node_is (rb_nodes s) x c (kparent k) d (ptr a) (ptr b).
Proof. intros (_ & H & _)%holds_fill. by apply rep_T' in H as [? _]. Qed.

Lemma get_color s k d c a x b : holds s (fill k (T' d c a x b)) → rb_get color s x = Some c.
Proof. intros (n & Hn & <- & _)%holds_node. by apply rb_get_node. Qed.
Lemma get_parent s k d c a x b : holds s (fill k (T' d c a x b)) → rb_get rb_parent s x = Some (kparent k).
Proof. intros (n & Hn & _ & <- & _)%holds_node. by apply rb_get_node. Qed.
Lemma get_child s k d c a x b : holds s (fill k (T' d c a x b)) → rb_get (child d) s x = Some (ptr a).
Proof. intros (n & Hn & _ & _ & <- & _)%holds_node. by apply rb_get_node. Qed.
Lemma get_other s k d c a x b : holds s (fill k (T' d c a x b)) → rb_get (child (flip d)) s x = Some (ptr b).
Proof. intros (n & Hn & _ & _ & _ & <-)%holds_node. by apply rb_get_node. Qed.

Lemma rep_ext m m' p t : (∀ y, y ∈ inorder t → m' !! y = m !! y) → rep m p t → rep m' p t.
Proof.
  revert p. induction t as [|c l IHl x r IHr]; intros p Hy; cbn in *; [done|]. intros (H1 & H2 & H3).
  split; [|split]; [|apply IHl; set_solver|apply IHr; set_solver]. unfold node_is in *. rewrite Hy by set_solver. done.
Qed.

Lemma krep_ext s s' k h :
  (∀ y, y ∈ knodes k → rb_nodes s' !! y = rb_nodes s !! y) → rb_node s' = rb_node s → krep s k h → krep s' k h.
Proof.
  intros Hy Hr. revert h Hy. induction k as [|[d c x b] k IH]; intros h Hy; cbn [krep]; [by rewrite Hr|].
  assert (Hy' : ∀ y, y ∈ x :: inorder b ++ knodes k → rb_nodes s' !! y = rb_nodes s !! y) by (intros y Hx; apply Hy; by rewrite knodes_cons).
  intros (Hn & Hb & Hk). split; [|split].
  - unfold node_is in *. rewrite Hy' by left. done.
  - eapply rep_ext; [|exact Hb]. intros y Hx. apply Hy'. set_solver.
  - apply IH; [|done]. intros y Hx. apply Hy'. set_solver.
Qed.

(** The root of a subtree gets another parent. *)
Lemma reparent_spec s p q t : rep (rb_nodes s) p t → NoDup (inorder t) →
  ∃ s', match ptr t with Some x => rb_upd (set_parent q) s x | None => Some s end = Some s' ∧
    rep (rb_nodes s') q t ∧ rb_node s' = rb_node s ∧ ∀ y, y ∉ inorder t → rb_nodes s' !! y = rb_nodes s !! y.
Proof.
  destruct t as [|c l x r]; cbn; [by exists s|]. intros ((n & Hn & Hc & Hp & Ha & Hb) & Hl & Hr) Hnd.
  rewrite (rb_upd_node _ _ _ _ Hn). eexists. split; [done|]. cbn. apply NoDup_app in Hnd as (_ & Hd & [Hx _]%NoDup_cons).
  assert (x ∉ inorder l) by (intros ?; apply (Hd x); [done|left]).
  rewrite !rep_insert by done. split; [|split; [done|]].
  - split; [|done]. eexists. rewrite lookup_insert_eq. done.
  - intros y Hy. apply lookup_insert_ne. set_solver.
Qed.

(** The pointer in the hole of a path changes. *)
Lemma replace_spec d s k x v : krep s k (Some x) → x ∉ knodes k → NoDup (knodes k) →
  ∃ s', replace_in_parent d s (kparent k) x v = Some s' ∧ krep s' k v ∧ ∀ y, y ∉ knodes k → rb_nodes s' !! y = rb_nodes s !! y.
Proof.
  destruct k as [|[d' c z b] k]; cbn [krep kparent fnode replace_in_parent].
  { intros _ _ _. eexists. split; [done|]. done. }
  rewrite knodes_cons. intros ((n & Hn & Hc & Hp & Ha & Hb) & Hrb & Hk) Hx (Hz & Hnd)%NoDup_cons.
  rewrite (rb_get_node _ _ _ _ Hn). cbn [mbind option_bind].
  assert ((if bool_decide (child d n = Some x) then d else flip d) = d') as ->.
  { assert (ptr b ≠ Some x) by (destruct b; cbn in *; [done|]; intros [= ->]; set_solver).
    destruct d, d'; cbn in *; case_bool_decide; congruence. }
  rewrite (rb_upd_node _ _ _ _ Hn). eexists. split; [done|]. cbn [rb_nodes]. destruct s as [m r]. cbn in *.
  rewrite elem_of_app in Hz. rewrite krep_insert, rep_insert by tauto. split.
  - split; [|done]. eexists. rewrite lookup_insert_eq. split; [done|]. by destruct d'.
  - intros y Hy. apply lookup_insert_ne. rewrite knodes_cons in Hy. set_solver.
Qed.

(** Recolouring. *)
Lemma color_spec v s k d c a x b : holds s (fill k (T' d c a x b)) →
  ∃ s', rb_upd (set_color v) s x = Some s' ∧ holds s' (fill k (T' d v a x b)).
Proof.
  intros (Hk & Ht & Hnd)%holds_fill. apply rep_T' in Ht as ((n & Hn & Hc & Hp & Ha & Hb) & Hra & Hrb).
  rewrite (rb_upd_node _ _ _ _ Hn). eexists. split; [done|]. rewrite inorder_T' in Hnd. cbn [app] in Hnd. apply NoDup_cons in Hnd as [Hx Hnd].
  rewrite !elem_of_app in Hx. apply holds_fill. rewrite ptr_T' in *. cbn [rb_nodes]. destruct s as [m r]. cbn in *. split; [|split].
  - by apply krep_insert; [tauto|].
  - apply rep_T'. rewrite !rep_insert by tauto. split; [|done]. eexists. rewrite lookup_insert_eq. split; [done|].
    repeat split; try done; by destruct d.
  - rewrite inorder_T'. cbn. apply NoDup_cons. by rewrite !elem_of_app.
Qed.

(** ** Rotation *)

Lemma rotate_spec d s k c a x cy b y e : holds s (fill k (T' d c a x (T' d cy b y e))) →
  ∃ s', rb_rotate d s x = Some s' ∧ holds s' (fill k (T' d cy (T' d c a x b) y e)).
Proof.
  intros (Hk & (Hx & Ha & (Hy & Hb & He)%rep_T')%rep_T' & Hnd)%holds_fill. rewrite !ptr_T' in *.
  assert (Hnd' : NoDup (x :: y :: inorder a ++ inorder b ++ inorder e ++ knodes k)).
  { assert (x :: y :: inorder a ++ inorder b ++ inorder e ++ knodes k ≡ₚ inorder (T' d c a x (T' d cy b y e)) ++ knodes k) as -> by
      (rewrite !inorder_T'; solve_Permutation). done. }
  apply NoDup_cons in Hnd' as [Hx' [Hy' Hnd']%NoDup_cons].
  apply NoDup_app in Hnd' as (_ & Hda & (Hndb & Hdb & (_ & Hde & Hndk)%NoDup_app)%NoDup_app).
  destruct Hx as (nx & Hnx & Hcx & Hpx & Hax & Hyx). destruct Hy as (ny & Hny & Hcy & Hpy & Hby & Hey).
  unfold rb_rotate. rewrite (rb_get_node _ _ _ _ Hnx). cbn [mbind option_bind]. rewrite Hyx. cbn [mbind option_bind].
  rewrite (rb_get_node _ _ _ _ Hny), Hby. cbn [mbind option_bind]. rewrite (rb_upd_node _ _ _ _ Hnx). cbn [mbind option_bind].
  set (s1 := mk_rbt _ _). assert (Hny1 : rb_nodes s1 !! y = Some ny) by (cbn; rewrite lookup_insert_ne by set_solver; done).
  rewrite (rb_get_node _ _ _ _ Hny1). cbn [mbind option_bind]. rewrite Hby.
  destruct (reparent_spec s1 (Some y) (Some x) b) as (s2 & -> & Hb2 & Hr2 & Hs2); [cbn; apply rep_insert; [set_solver|done]|done|]. cbn [mbind option_bind].
  assert (Hnx2 : rb_nodes s2 !! x = Some (set_child (flip d) (ptr b) nx)) by (rewrite Hs2 by set_solver; apply lookup_insert_eq).
  assert (Hny2 : rb_nodes s2 !! y = Some ny) by (rewrite Hs2 by set_solver; done).
  assert (Hpx2 : rb_parent (set_child (flip d) (ptr b) nx) = kparent k) by (by destruct d).
  rewrite (rb_get_node _ _ _ _ Hnx2), Hpx2. cbn [mbind option_bind]. rewrite (rb_upd_node _ _ _ _ Hny2). cbn [mbind option_bind].
  set (s3 := mk_rbt _ _). assert (Hnx3 : rb_nodes s3 !! x = Some (set_child (flip d) (ptr b) nx)) by (cbn; rewrite lookup_insert_ne by set_solver; done).
  rewrite (rb_get_node _ _ _ _ Hnx3), Hpx2. cbn [mbind option_bind].
  assert (Hout : ∀ z, z ∉ inorder b → z ≠ x → z ≠ y → rb_nodes s3 !! z = rb_nodes s !! z).
  { intros z H1 H2 H3. cbn. rewrite lookup_insert_ne, Hs2 by done. by apply lookup_insert_ne. }
  destruct (replace_spec d s3 k x (Some y)) as (s4 & -> & Hk4 & Hs4); [eapply krep_ext; [| |exact Hk]; [intros z Hz; apply Hout; set_solver|done]|set_solver|done|]. cbn [mbind option_bind].
  assert (Hny4 : rb_nodes s4 !! y = Some (set_parent (kparent k) ny)) by (rewrite Hs4 by set_solver; apply lookup_insert_eq).
  rewrite (rb_upd_node _ _ _ _ Hny4). cbn [mbind option_bind]. set (s5 := mk_rbt _ _).
  assert (Hnx5 : rb_nodes s5 !! x = Some (set_child (flip d) (ptr b) nx)) by (cbn; rewrite lookup_insert_ne, Hs4 by set_solver; done).
  rewrite (rb_upd_node _ _ _ _ Hnx5). eexists. split; [done|]. set (s6 := mk_rbt _ _).
  assert (Hin : ∀ z, z ≠ x → z ≠ y → rb_nodes s6 !! z = rb_nodes s4 !! z) by (intros z H1 H2; cbn; by rewrite !lookup_insert_ne).
  apply holds_fill. rewrite ptr_T'. split; [|split].
  - eapply krep_ext; [| |exact Hk4]; [intros z Hz; apply Hin; set_solver|done].
  - apply rep_T'. rewrite ptr_T', rep_T'. split; [|split; [split; [|split]|]].
    + eexists. cbn. rewrite lookup_insert_ne, lookup_insert_eq by set_solver. split; [done|]. by destruct d.
    + eexists. cbn. rewrite lookup_insert_eq. split; [done|]. by destruct d.
    + eapply rep_ext; [|exact Ha]. intros z Hz. rewrite Hin, Hs4 by set_solver. apply Hout; set_solver.
    + eapply rep_ext; [|exact Hb2]. intros z Hz. rewrite Hin, Hs4 by set_solver. cbn. apply lookup_insert_ne. set_solver.
    + eapply rep_ext; [|exact He]. intros z Hz. rewrite Hin, Hs4 by set_solver. apply Hout; set_solver.
  - assert (inorder (T' d cy (T' d c a x b) y e) ++ knodes k ≡ₚ inorder (T' d c a x (T' d cy b y e)) ++ knodes k) as -> by
      (rewrite !inorder_T'; solve_Permutation). done.
Qed.

Lemma inorder_rotate d c a x cy b y e c' cy' :
  inorder (T' d cy (T' d c a x b) y e) = inorder (T' d c' a x (T' d cy' b y e)).
Proof. destruct d; cbn; by rewrite <- app_assoc. Qed.
