(* ===== verification/RbTreeInsert.v ===== *)
(** * Red-black balance, and insertion keeps it

    [bal n t]: no red node has a red child and every path down to a leaf passes [n] black nodes;
    [kbal n k]: a path into whose hole such a tree fits.  The repair loop of an insertion ends and
    leaves a balanced tree of the same sequence. *)
From S2P Require Import Prelude.
From S2P Require Import RbTree.
From S2P Require Import RbTreeProofs.

Abbreviation RED := EP_RB_RED.
Abbreviation BLACK := EP_RB_BLACK.

Definition black (t : tree) : Prop := match t with E => True | T c _ _ _ => c = BLACK end.

Fixpoint bal (n : nat) (t : tree) : Prop :=
  match t with
  | E => n = 0%nat
  | T c l x r =>
      (c = RED ∧ black l ∧ black r ∧ bal n l ∧ bal n r) ∨ (c = BLACK ∧ ∃ n', n = S n' ∧ bal n' l ∧ bal n' r)
  end.

(** The node above the hole is black (so there is one). *)
Definition kblack (k : path) : Prop := match k with [] => False | F _ c _ _ :: _ => c = BLACK end.

Fixpoint kbal (n : nat) (k : path) : Prop :=
  match k with
  | [] => True
  | F d c x b :: k => bal n b ∧ ((c = RED ∧ black b ∧ kblack k ∧ kbal n k) ∨ (c = BLACK ∧ kbal (S n) k))
  end.

(** A red-black tree: balanced, with a black root. *)
Definition rbt (t : tree) : Prop := black t ∧ ∃ n, bal n t.

Definition blacken (t : tree) : tree := match t with E => E | T _ l x r => T BLACK l x r end.

Lemma T_T' d c l x r : ∃ a b, T c l x r = T' d c a x b.
Proof. destruct d; [by exists l, r|by exists r, l]. Qed.

Lemma black_T' d c a x b : black (T' d c a x b) ↔ c = BLACK.
Proof. by destruct d. Qed.

Lemma bal_red n d a x b : bal n (T' d RED a x b) ↔ black a ∧ black b ∧ bal n a ∧ bal n b.
Proof. destruct d; cbn; (split; [intros [?|[? _]]; [tauto|done]|left; tauto]). Qed.

Lemma bal_black n d a x b : bal n (T' d BLACK a x b) ↔ ∃ n', n = S n' ∧ bal n' a ∧ bal n' b.
Proof. destruct d; cbn; (split; [intros [[? _]|[_ ?]]; [done|naive_solver]|right; naive_solver]). Qed.

Lemma bal_colors n d c a x b : bal n (T' d c a x b) → c = RED ∨ c = BLACK.
Proof. destruct d; cbn; tauto. Qed.

Lemma blacken_T' d c a x b : blacken (T' d c a x b) = T' d BLACK a x b.
Proof. by destruct d. Qed.

Lemma kbal_cons n d c x b k : kbal n (F d c x b :: k) ↔ bal n b ∧ ((c = RED ∧ black b ∧ kblack k ∧ kbal n k) ∨ (c = BLACK ∧ kbal (S n) k)).
Proof. done. Qed.

(** A balanced tree in a path that expects it. *)
Lemma fill_bal n k t : kbal n k → bal n t → (black t ∨ kblack k) → rbt (fill k t).
Proof.
  revert n t. induction k as [|[d c x b] k IH]; intros n t Hk Ht Hc; cbn [fill plug].
  { split; [by destruct Hc|by exists n]. }
  destruct Hk as [Hb [(-> & Hbb & Hkb & Hk)|[-> Hk]]].
  - apply (IH n); [done| |by right]. apply bal_red. cbn in Hc. by destruct Hc.
  - apply (IH (S n)); [done| |left; by apply black_T']. apply bal_black. eauto.
Qed.

Lemma fill_bal_inv k t : rbt (fill k t) → ∃ n, kbal n k ∧ bal n t ∧ (black t ∨ kblack k).
Proof.
  revert t. induction k as [|[d c x b] k IH]; intros t Hr; cbn [fill plug] in Hr.
  { destruct Hr as [H1 [n H2]]. exists n. cbn. tauto. }
  destruct (IH _ Hr) as (n & Hk & Ht & Hc). destruct (bal_colors _ _ _ _ _ _ Ht) as [Hred|Hblk]; subst c.
  - apply bal_red in Ht as (H1 & H2 & H3 & H4). exists n. rewrite black_T' in Hc. cbn. destruct Hc as [Hc|Hc]; [done|]. naive_solver.
  - apply bal_black in Ht as (n' & -> & H1 & H2). exists n'. cbn. naive_solver.
Qed.

Lemma fill_cons_ne f k t : fill (f :: k) t ≠ E.
Proof.
  revert f t. induction k as [|g k IH]; intros f t; [by destruct f as [[] c x b]|]. apply (IH g).
Qed.

Lemma rbt_blacken t : rbt t → rbt (blacken t).
Proof. destruct t as [|c l x r]; [done|]. intros [Hc Hr]. cbn in Hc. by subst c. Qed.

(** ** Reading pointers along a path *)

Lemma root_above s f k t : holds s (fill (f :: k) t) → ∃ r, rb_node s = Some r ∧ r ∈ knodes (f :: k).
Proof.
  intros [Hr _ _]. rewrite Hr. clear Hr. revert f t. induction k as [|g k IH]; intros [d c x b] t; cbn [fill plug].
  - exists x. rewrite ptr_T', knodes_cons. split; [done|left].
  - destruct (IH g (T' d c t x b)) as (r & H1 & H2). exists r. split; [exact H1|]. rewrite knodes_cons. set_solver.
Qed.

Lemma not_root s f k d c a x b : holds s (fill (f :: k) (T' d c a x b)) → rb_node s ≠ Some x.
Proof.
  intros Hh. destruct (root_above _ _ _ _ Hh) as (r & -> & Hr). intros [= ->].
  apply holds_fill in Hh as (_ & _ & Hnd). apply NoDup_app in Hnd as (_ & Hd & _). apply (Hd x); [|done]. rewrite inorder_T'. left.
Qed.

Lemma parent_at s d c p b k d0 c0 a0 x b0 :
  holds s (fill (F d c p b :: k) (T' d0 c0 a0 x b0)) → EP_RBTREE_PARENT s x = Some p.
Proof. intros Hh. unfold EP_RBTREE_PARENT. by rewrite (get_parent _ _ _ _ _ _ _ Hh). Qed.

Lemma grandf_at s d c p b d' c' g u k d0 c0 a0 x b0 :
  holds s (fill (F d c p b :: F d' c' g u :: k) (T' d0 c0 a0 x b0)) → EP_RBTREE_GRANDF s x = Some g.
Proof.
  intros Hh. unfold EP_RBTREE_GRANDF. rewrite (parent_at _ _ _ _ _ _ _ _ _ _ _ Hh). cbn [mbind option_bind].
  by apply (parent_at s d' c' g u k d c (T' d0 c0 a0 x b0) p b).
Qed.

(** A node is at most one of the two children. *)
Lemma child_ne s d c x b k d0 c0 a0 y b0 : holds s (fill (F d c x b :: k) (T' d0 c0 a0 y b0)) → ptr b ≠ Some y.
Proof.
  intros (_ & _ & Hnd)%holds_fill Hb. rewrite inorder_T', knodes_cons in Hnd. apply NoDup_cons in Hnd as [Hy _].
  destruct b; cbn in *; [done|]. injection Hb as ->. set_solver.
Qed.

(** The same tree seen from the other child. *)
Lemma swap_hole d c a x b k : fill (F d c x b :: k) a = fill (F (flip d) c x a :: k) b.
Proof. cbn [fill plug]. by rewrite T'_flip. Qed.

Lemma holds_swap s d c a x b k : holds s (fill (F d c x b :: k) a) → holds s (fill (F (flip d) c x a :: k) b).
Proof. by rewrite swap_hole. Qed.

(** ** The repair loop *)

Lemma insert_step_side s d p sib d' g u k d0 c0 a x b c cg :
  holds s (fill (F d c p sib :: F d' cg g u :: k) (T' d0 c0 a x b)) → insert_step s x = insert_side d' s x.
Proof.
  intros Hh. unfold insert_step. rewrite (get_parent _ _ _ _ _ _ _ Hh), (grandf_at _ _ _ _ _ _ _ _ _ _ _ _ _ _ _ Hh). cbn [mbind option_bind kparent fnode].
  pose proof (child_ne s d' cg g u k d c (T' d0 c0 a x b) p sib Hh) as Hne.
  change (rb_get rb_left s g) with (rb_get (child L) s g). destruct d'.
  - rewrite (get_child s k L cg (T' d c (T' d0 c0 a x b) p sib) g u Hh), ptr_T'. cbn [mbind option_bind]. by rewrite bool_decide_true.
  - change L with (flip R). rewrite (get_other s k R cg (T' d c (T' d0 c0 a x b) p sib) g u Hh). cbn [mbind option_bind].
    by rewrite bool_decide_false by congruence.
Qed.

Lemma insert_red_uncle s d p sib d' g du ua y ub k d0 a x b :
  holds s (fill (F d RED p sib :: F d' BLACK g (T' du RED ua y ub) :: k) (T' d0 RED a x b)) →
  ∃ s', insert_side d' s x = Some (s', g) ∧
    holds s' (fill k (T' d' RED (T' d BLACK (T' d0 RED a x b) p sib) g (T' du BLACK ua y ub))).
Proof.
  intros Hh. unfold insert_side. rewrite (grandf_at _ _ _ _ _ _ _ _ _ _ _ _ _ _ _ Hh). cbn [mbind option_bind].
  rewrite (get_other s k d' BLACK (T' d RED (T' d0 RED a x b) p sib) g (T' du RED ua y ub) Hh), ptr_T'. cbn [mbind option_bind].
  rewrite (get_color s (F (flip d') BLACK g (T' d RED (T' d0 RED a x b) p sib) :: k) du RED ua y ub) by exact (holds_swap s d' BLACK (T' d RED (T' d0 RED a x b) p sib) g (T' du RED ua y ub) k Hh).
  cbn [mbind option_bind]. change (RED =? RED) with true. cbn match. rewrite (parent_at _ _ _ _ _ _ _ _ _ _ _ Hh). cbn [mbind option_bind].
  destruct (color_spec BLACK s (F d' BLACK g (T' du RED ua y ub) :: k) d RED (T' d0 RED a x b) p sib Hh) as (s1 & -> & Hh1). cbn [mbind option_bind].
  destruct (color_spec BLACK s1 (F (flip d') BLACK g (T' d BLACK (T' d0 RED a x b) p sib) :: k) du RED ua y ub) as (s2 & -> & Hh2); [exact (holds_swap s1 d' BLACK (T' d BLACK (T' d0 RED a x b) p sib) g (T' du RED ua y ub) k Hh1)|]. cbn [mbind option_bind].
  apply (holds_swap s2) in Hh2. rewrite flip_flip in Hh2.
  rewrite (grandf_at s2 d BLACK p sib d' BLACK g (T' du BLACK ua y ub) k d0 RED a x b Hh2). cbn [mbind option_bind].
  destruct (color_spec RED s2 k d' BLACK (T' d BLACK (T' d0 RED a x b) p sib) g (T' du BLACK ua y ub) Hh2) as (s3 & -> & Hh3). cbn [mbind option_bind].
  rewrite (grandf_at s3 d BLACK p sib d' RED g (T' du BLACK ua y ub) k d0 RED a x b Hh3). cbn [mbind option_bind]. by exists s3.
Qed.

Lemma insert_finish_spec s p sib d g u k d0 a x b :
  holds s (fill (F d RED p sib :: F d BLACK g u :: k) (T' d0 RED a x b)) →
  ∃ s', insert_finish d s x = Some s' ∧ holds s' (fill (F d BLACK p (T' d RED sib g u) :: k) (T' d0 RED a x b)).
Proof.
  intros Hh. unfold insert_finish. rewrite (parent_at _ _ _ _ _ _ _ _ _ _ _ Hh). cbn [mbind option_bind].
  destruct (color_spec BLACK s (F d BLACK g u :: k) d RED (T' d0 RED a x b) p sib Hh) as (s1 & -> & Hh1). cbn [mbind option_bind].
  rewrite (grandf_at s1 d BLACK p sib d BLACK g u k d0 RED a x b Hh1). cbn [mbind option_bind].
  destruct (color_spec RED s1 k d BLACK (T' d BLACK (T' d0 RED a x b) p sib) g u Hh1) as (s2 & -> & Hh2). cbn [mbind option_bind].
  rewrite (grandf_at s2 d BLACK p sib d RED g u k d0 RED a x b Hh2). cbn [mbind option_bind].
  destruct (rotate_spec (flip d) s2 k RED u g BLACK sib p (T' d0 RED a x b)) as (s3 & Hs3 & Hh3); [by rewrite !T'_flip|].
  exists s3. split; [done|]. rewrite !T'_flip in Hh3. done.
Qed.

Lemma insert_side_black d s x G Y : EP_RBTREE_GRANDF s x = Some G → rb_get (child (flip d)) s G = Some Y → null_or_black s Y = Some true →
  insert_side d s x =
    (P ← EP_RBTREE_PARENT s x; c ← rb_get (child (flip d)) s P;
     '(s, X) ← (if bool_decide (c = Some x) then X ← EP_RBTREE_PARENT s x; s ← rb_rotate d s X; Some (s, X) else Some (s, x));
     s ← insert_finish d s X; Some (s, X)).
Proof.
  intros HG HY Hb. unfold insert_side. rewrite HG. cbn [mbind option_bind]. rewrite HY. cbn [mbind option_bind].
  assert (match Y with Some y => c ← rb_get color s y; Some (c =? EP_RB_RED) | None => Some false end = Some false) as ->; [|done].
  destruct Y as [y|]; [|done]. cbn in Hb. destruct (rb_get color s y) as [c|]; [|done]. cbn in *.
  injection Hb as Hb. apply Z.eqb_eq in Hb as ->. done.
Qed.

Definition blackb (t : tree) : bool := match t with E => true | T c _ _ _ => c =? BLACK end.

Lemma blackb_true t : blackb t = true ↔ black t.
Proof. destruct t; cbn; [done|]. apply Z.eqb_eq. Qed.

Lemma null_or_black_at s k t : holds s (fill k t) → null_or_black s (ptr t) = Some (blackb t).
Proof.
  destruct t as [|c l x r]; [done|]. intros Hh. cbn [ptr null_or_black]. by rewrite (get_color s k L c l x r Hh).
Qed.

Lemma insert_black_uncle n s d p sib d' g u k a x b :
  holds s (fill (F d RED p sib :: F d' BLACK g u :: k) (T' d' RED a x b)) → black u → black sib → black a → black b →
  bal n a → bal n b → bal n sib → bal n u →
  ∃ s' x' a' b' q w, insert_side d' s x = Some (s', x') ∧ holds s' (fill (F d' BLACK q w :: k) (T' d' RED a' x' b')) ∧
    bal (S n) (T' d' BLACK (T' d' RED a' x' b') q w) ∧
    inorder (T' d' BLACK (T' d' RED a' x' b') q w) = inorder (T' d' BLACK (T' d RED (T' d' RED a x b) p sib) g u).
Proof.
  intros Hh Hu Hsib Ha Hb Hna Hnb Hns Hnu.
  rewrite (insert_side_black d' s x g (ptr u)); cycle 1.
  { eapply grandf_at, Hh. }
  { exact (get_other s k d' BLACK (T' d RED (T' d' RED a x b) p sib) g u Hh). }
  { rewrite (null_or_black_at s (F (flip d') BLACK g (T' d RED (T' d' RED a x b) p sib) :: k)).
    - f_equal. by apply blackb_true.
    - exact (holds_swap s d' BLACK (T' d RED (T' d' RED a x b) p sib) g u k Hh). }
  rewrite (parent_at _ _ _ _ _ _ _ _ _ _ _ Hh). cbn [mbind option_bind]. destruct (decide (d = d')) as [->|Hne].
  - rewrite (get_other s (F d' BLACK g u :: k) d' RED (T' d' RED a x b) p sib Hh). cbn [mbind option_bind].
    rewrite bool_decide_false by (apply (child_ne _ _ _ _ _ _ _ _ _ _ _ Hh)). cbn [mbind option_bind].
    destruct (insert_finish_spec _ _ _ _ _ _ _ _ _ _ _ Hh) as (s1 & -> & Hh1). cbn [mbind option_bind].
    eexists s1, x, a, b, p, _. split; [done|]. split; [exact Hh1|]. split.
    + apply bal_black. exists n. rewrite !bal_red. done.
    + destruct d'; cbn; rewrite <- ?app_assoc; cbn; by rewrite <- ?app_assoc.
  - assert (d = flip d') as -> by (by destruct d, d').
    assert (Hh' : holds s (fill (F d' BLACK g u :: k) (T' d' RED sib p (T' d' RED a x b)))) by (rewrite <- (T'_flip d'); exact Hh).
    rewrite (get_other s (F d' BLACK g u :: k) d' RED sib p (T' d' RED a x b) Hh'), ptr_T'. cbn [mbind option_bind].
    rewrite bool_decide_true by done. cbn [mbind option_bind].
    destruct (rotate_spec d' s (F d' BLACK g u :: k) RED sib p RED a x b Hh') as (s1 & -> & Hh1). cbn [mbind option_bind].
    destruct (insert_finish_spec s1 x b d' g u k d' sib p a Hh1) as (s2 & -> & Hh2). cbn [mbind option_bind].
    eexists s2, p, sib, a, x, _. split; [done|]. split; [exact Hh2|]. split.
    + apply bal_black. exists n. rewrite !bal_red. done.
    + destruct d'; cbn; rewrite <- ?app_assoc; cbn; by rewrite <- ?app_assoc.
Qed.

(** What the loop starts from and keeps: the tree is red-black but for the red X below a red parent. *)
Lemma insert_loop_spec fuel s k n d a x b :
  holds s (fill k (T' d RED a x b)) → kbal n k → black a → black b → bal n a → bal n b → (length k <= fuel)%nat →
  ∃ s' t', insert_loop fuel s x = Some s' ∧ holds s' t' ∧ inorder t' = inorder (fill k (T' d RED a x b)) ∧ t' ≠ E ∧ rbt (blacken t').
Proof.
  revert s k n d a x b. induction fuel as [|fuel IH]; intros s k n d a x b Hh Hk Ha Hb Hna Hnb Hf;
    (destruct k as [|[dp cp p sib] k];
      [exists s, (T' d RED a x b); cbn [insert_loop]; rewrite (h_root _ _ Hh); cbn [fill]; rewrite ptr_T', bool_decide_true by done;
       (split; [done|]); (split; [exact Hh|]); split; [done|]; rewrite blacken_T'; split; [by destruct d|]; split; [by apply black_T'|]; exists (S n); apply bal_black; eauto|]).
  { cbn in Hf. lia. }
  cbn [insert_loop]. rewrite bool_decide_false by (intros ?; by apply (not_root _ _ _ _ _ _ _ _ Hh)).
  rewrite (parent_at _ _ _ _ _ _ _ _ _ _ _ Hh). cbn [mbind option_bind].
  rewrite (get_color s k dp cp (T' d RED a x b) p sib Hh). cbn [mbind option_bind].
  destruct Hk as [Hns [(-> & Hbs & Hkb & Hk)|[-> Hk]]]; cycle 1.
  { change (BLACK =? RED) with false. eexists s, _. split; [done|]. split; [exact Hh|]. split; [done|].
    assert (Hr : rbt (fill (F dp BLACK p sib :: k) (T' d RED a x b))).
    { apply (fill_bal n); [split; [done|right; done]|by apply bal_red|by right]. }
    split; [apply fill_cons_ne|by apply rbt_blacken]. }
  change (RED =? RED) with true. cbn match. destruct k as [|[dg cg g u] k]; [done|]. cbn in Hkb. subst cg.
  destruct Hk as [Hnu [(? & _)|[_ Hk]]]; [done|]. rewrite (insert_step_side _ _ _ _ _ _ _ _ _ _ _ _ _ _ _ Hh).
  destruct (blackb u) eqn:Hu.
  - apply blackb_true in Hu. assert (∃ a' b', T' d RED a x b = T' dg RED a' x b' ∧ black a' ∧ black b' ∧ bal n a' ∧ bal n b') as (a' & b' & Heq & Ha' & Hb' & Hna' & Hnb').
    { destruct d, dg; cbn; eauto 10. }
    rewrite Heq in *. destruct (insert_black_uncle n _ _ _ _ _ _ _ _ _ _ _ Hh Hu Hbs Ha' Hb' Hna' Hnb' Hns Hnu) as (s1 & x1 & a1 & b1 & q & w & -> & Hh1 & Hbal & Hin).
    cbn [mbind option_bind]. eexists s1, _. split; [|split; [exact Hh1|split; [exact (inorder_fill_ext k _ _ Hin)|]]].
    + destruct fuel; cbn [insert_loop]; rewrite bool_decide_false by (intros ?; by apply (not_root _ _ _ _ _ _ _ _ Hh1));
        rewrite (parent_at _ _ _ _ _ _ _ _ _ _ _ Hh1); cbn [mbind option_bind]; by rewrite (get_color s1 k dg BLACK _ q w Hh1).
    + assert (Hr : rbt (fill k (T' dg BLACK (T' dg RED a1 x1 b1) q w))) by (apply (fill_bal (S n)); [done|done|left; by apply black_T']).
      split; [apply fill_cons_ne|by apply rbt_blacken].
  - destruct u as [|cu ul y ur]; [done|]. assert (cu = RED) as -> by (destruct (bal_colors n L cu ul y ur Hnu) as [?|Hc]; [done|by subst cu]).
    change (T RED ul y ur) with (T' L RED ul y ur) in *.
    destruct (insert_red_uncle _ _ _ _ _ _ _ _ _ _ _ _ _ _ _ Hh) as (s1 & -> & Hh1). cbn [mbind option_bind].
    apply bal_red in Hnu as (H1 & H2 & H3 & H4).
    destruct (IH s1 k (S n) dg _ g _ Hh1) as (s2 & t2 & -> & Hh2 & Hin & Hr2); [done|by apply black_T'|by apply black_T'|apply bal_black..|cbn in Hf; lia|].
    + exists n. rewrite bal_red. done.
    + eauto.
    + exists s2, t2. split; [done|]. split; [done|]. split; [|done]. rewrite Hin. cbn [fill plug]. apply inorder_fill_ext.
      destruct dg, dp, d; cbn; by rewrite <- ?app_assoc.
Qed.

Lemma insert_color_spec fuel s k n d a x b :
  holds s (fill k (T' d RED a x b)) → kbal n k → black a → black b → bal n a → bal n b → (length k <= fuel)%nat →
  ∃ s' t', ep_rb_insert_color fuel s x = Some s' ∧ holds s' t' ∧ inorder t' = inorder (fill k (T' d RED a x b)) ∧ rbt t'.
Proof.
  intros Hh Hk Ha Hb Hna Hnb Hf. unfold ep_rb_insert_color.
  destruct (insert_loop_spec fuel s k n d a x b Hh Hk Ha Hb Hna Hnb Hf) as (s1 & t1 & -> & Hh1 & Hin & Hne & Hr). cbn [mbind option_bind].
  destruct t1 as [|c l y r]; [done|]. rewrite (h_root _ _ Hh1). cbn [ptr mbind option_bind].
  destruct (color_spec BLACK s1 [] L c l y r Hh1) as (s2 & -> & Hh2). by exists s2, (T BLACK l y r).
Qed.

(** ** The walk to the place of a new node *)

(** The nodes before and after the hole of a path. *)
Fixpoint kbefore (k : path) : list Z :=
  match k with [] => [] | F L _ _ _ :: k => kbefore k | F R _ x b :: k => kbefore k ++ inorder b ++ [x] end.
Fixpoint kafter (k : path) : list Z :=
  match k with [] => [] | F L _ x b :: k => x :: inorder b ++ kafter k | F R _ _ _ :: k => kafter k end.

Lemma inorder_fill_eq k t : inorder (fill k t) = kbefore k ++ inorder t ++ kafter k.
Proof.
  revert t. induction k as [|[[] c x b] k IH]; intros t; cbn [fill plug kbefore kafter]; [cbn; by rewrite app_nil_r| |]; rewrite IH; cbn [T' inorder];
    by rewrite <- ?app_assoc.
Qed.

Definition link_of (k : path) : rb_link := match k with [] => Link_root | F d _ x _ :: _ => Link_child d x end.

Lemma link_load_at s k t : holds s (fill k t) → link_load s (link_of k) = Some (ptr t).
Proof.
  destruct k as [|[d c x b] k]; intros Hh; cbn [link_of link_load]; [by rewrite (h_root _ _ Hh)|]. exact (get_child s k d c t x b Hh).
Qed.

Fixpoint height (t : tree) : nat := match t with E => 0 | T _ l _ r => S (height l `max` height r) end.

Lemma height_fill k t : (length k + height t <= height (fill k t))%nat.
Proof.
  revert t. induction k as [|[d c x b] k IH]; intros t; cbn [fill length]; [lia|]. specialize (IH (plug (F d c x b) t)).
  destruct d; cbn in *; lia.
Qed.

(** The height of a balanced tree is logarithmic in the number of nodes. *)
Lemma bal_height n t : bal n t → (height t <= 2 * n + (if blackb t then 0 else 1))%nat.
Proof.
  revert n. induction t as [|c l IHl x r IHr]; intros n; cbn; [lia|].
  intros [(-> & Hl & Hr & H1 & H2)|(-> & n' & -> & H1 & H2)]; apply IHl in H1; apply IHr in H2.
  - apply blackb_true in Hl, Hr. rewrite Hl in H1. rewrite Hr in H2. cbn. lia.
  - cbn. destruct (blackb l), (blackb r); lia.
Qed.

Lemma bal_size n t : bal n t → (2 ^ n <= S (length (inorder t)))%nat.
Proof.
  revert n. induction t as [|c l IHl x r IHr]; intros n; cbn; [intros ->; cbn; lia|]. rewrite length_app. cbn [length].
  intros [(-> & _ & _ & H1 & H2)|(-> & n' & -> & H1 & H2)]; apply IHl in H1; apply IHr in H2; cbn [Nat.pow]; lia.
Qed.

Lemma rbt_height t : rbt t → (height t <= 2 * Nat.log2 (S (length (inorder t))))%nat.
Proof.
  intros [Hb [n Hn]]. pose proof (bal_height n t Hn) as Hh. apply blackb_true in Hb. rewrite Hb in Hh.
  pose proof (bal_size n t Hn) as Hs. apply Nat.log2_le_mono in Hs. rewrite Nat.log2_pow2 in Hs; lia.
Qed.

(** The sequence of a tree is in the order of the descriptors. *)
Definition ordered (fd : Z → Z) (l : list Z) : Prop := StronglySorted (λ x y, fd x <= fd y) l.

Lemma insert_walk_spec n fd s new k t :
  holds s (fill k t) → ordered fd (inorder t) → (height t <= n)%nat →
  Forall (λ y, fd y < fd new) (kbefore k) → Forall (λ y, fd new <= fd y) (kafter k) →
  ∃ k', insert_walk n fd s new (link_of k) (kparent k) = Some (link_of k', kparent k') ∧ fill k' E = fill k t ∧
    Forall (λ y, fd y < fd new) (kbefore k') ∧ Forall (λ y, fd new <= fd y) (kafter k').
Proof.
  revert n k. induction t as [|c l IHl x r IHr]; intros n k Hh Ho Hn Hb Ha.
  { exists k. destruct n; cbn [insert_walk]; rewrite (link_load_at _ _ _ Hh); done. }
  destruct n as [|n]; [cbn in Hn; lia|]. cbn [insert_walk]. rewrite (link_load_at _ _ _ Hh). cbn [ptr mbind option_bind height] in *.
  cbn [inorder] in Ho. apply sorted_app in Ho as (Hol & [Hor Hx]%StronglySorted_inv & Hlr).
  destruct (Z.ltb_spec (fd x) (fd new)) as [Hlt|Hge].
  - apply (IHr n (F R c x l :: k)); [exact Hh|done|lia| |exact Ha]. cbn [kbefore]. rewrite !Forall_app. split; [done|]. split; [|by constructor].
    apply Forall_forall. intros y Hy. specialize (Hlr y x Hy ltac:(left)). lia.
  - apply (IHl n (F L c x r :: k)); [exact Hh|done|lia|exact Hb|]. cbn [kafter]. constructor; [done|]. rewrite !Forall_app. split; [|done].
    rewrite Forall_forall in *. intros y Hy. specialize (Hx y Hy). lia.
Qed.

(** ** Linking the new node *)

Lemma link_node_spec s k x n : holds s (fill k E) → x ∉ knodes k → rb_nodes s !! x = Some n →
  ∃ s', ep_rb_link_node s x (kparent k) (link_of k) = Some s' ∧ holds s' (fill k (T RED E x E)).
Proof.
  intros (Hk & _ & Hnd)%holds_fill Hx Hn. cbn in Hk, Hnd. unfold ep_rb_link_node. do 3 (erewrite rb_upd_node; [|first [exact Hn|cbn; apply lookup_insert_eq]]; cbn [mbind option_bind]).
  set (s1 := mk_rbt _ _). set (n1 := mk_rb (color n) (kparent k) None None).
  assert (Hx1 : rb_nodes s1 !! x = Some n1) by (cbn; by rewrite !insert_insert_eq, lookup_insert_eq).
  assert (Hs1 : ∀ y, y ≠ x → rb_nodes s1 !! y = rb_nodes s !! y) by (intros y Hy; cbn; by rewrite !insert_insert_eq, lookup_insert_ne).
  assert (∃ s2, link_store s1 (link_of k) (Some x) = Some s2 ∧ krep s2 k (Some x) ∧ rb_nodes s2 !! x = Some n1) as (s2 & -> & Hk2 & Hx2).
  { assert (Hk1 : krep s1 k None) by (eapply krep_ext; [| |exact Hk]; [intros y Hy; apply Hs1; intros ->; done|done]).
    clearbody s1. destruct k as [|[d c z b] k]; cbn [link_of link_store]; [by exists (set_root (Some x) s1)|].
    destruct Hk1 as ((nz & Hnz & Hcz & Hpz & Haz & Hbz) & Hrb & Hk1). rewrite knodes_cons in Hx, Hnd. apply NoDup_cons in Hnd as [Hz _].
    rewrite (rb_upd_node _ _ _ _ Hnz). eexists. split; [done|]. destruct s1 as [m r]. cbn in *. rewrite krep_insert, rep_insert by set_solver.
    rewrite lookup_insert_ne by set_solver. split; [|done]. split; [|done]. eexists. rewrite lookup_insert_eq. split; [done|]. by destruct d. }
  cbn [mbind option_bind]. rewrite (rb_upd_node _ _ _ _ Hx2). eexists. split; [done|]. destruct s2 as [m r]. cbn in *.
  apply holds_fill. cbn. rewrite krep_insert by done. split; [done|]. split; [|by apply NoDup_cons].
  split; [|done]. eexists. rewrite lookup_insert_eq. done.
Qed.

Lemma rbtree_insert_spec fuel fd s t x n :
  holds s t → rbt t → ordered fd (inorder t) → x ∉ inorder t → rb_nodes s !! x = Some n →
  (height t <= Z.to_nat NSTACK_MAX_EPITEM_NUM)%nat → (height t <= fuel)%nat →
  ∃ s' t' l1 l2, nsep_rbtree_insert fuel fd s x = Some s' ∧ holds s' t' ∧ rbt t' ∧
    inorder t = l1 ++ l2 ∧ inorder t' = l1 ++ x :: l2 ∧ Forall (λ y, fd y < fd x) l1 ∧ Forall (λ y, fd x <= fd y) l2.
Proof.
  intros Hh Hr Ho Hx Hn Hmax Hf. unfold nsep_rbtree_insert.
  destruct (insert_walk_spec (Z.to_nat NSTACK_MAX_EPITEM_NUM) fd s x [] t Hh Ho Hmax) as (k & Hw & Hk & Hb & Ha); [constructor..|].
  cbn [link_of kparent] in Hw. rewrite Hw. cbn [mbind option_bind]. cbn [fill] in Hk. rewrite <- Hk in Hh, Hr, Hx.
  destruct (link_node_spec s k x n Hh) as (s1 & -> & Hh1); [done|done|]. cbn [mbind option_bind].
  destruct (fill_bal_inv _ _ Hr) as (m & Hkb & Hm & _). cbn in Hm. subst m.
  destruct (insert_color_spec fuel s1 k 0 L E x E Hh1 Hkb) as (s2 & t2 & -> & Hh2 & Hin & Hr2); [done..| |].
  - pose proof (height_fill k E). rewrite Hk in *. cbn in *. lia.
  - exists s2, t2, (kbefore k), (kafter k). split; [done|]. split; [done|]. split; [done|]. rewrite Hin, <- Hk, !inorder_fill_eq. done.
Qed.
