(* ===== verification/RbTreeErase.v ===== *)
(** * Erasure keeps the balance

    The repair loop of an erasure starts from a subtree that is one black node short; it ends and leaves a
    red-black tree of the same sequence.  The surgery before it removes exactly the node. *)
From S2P Require Import Prelude.
From S2P Require Import RbTree.
From S2P Require Import RbTreeProofs.
From S2P Require Import RbTreeInsert.

(** A subtree that is one black node short, unless its red root is made black. *)
Definition short (n : nat) (t : tree) : Prop :=
  (∃ d a x b, t = T' d RED a x b ∧ bal n a ∧ bal n b) ∨ (black t ∧ bal n t).

(** What the step leaves: the loop goes on one level up (or ends at once at a red node), or it is done. *)
Definition erase_next (k0 : path) (s : rb_tree) (r : option Z * option Z + option Z) (l : list Z) : Prop :=
  match r with
  | inl (X, P) => ∃ n t k, X = ptr t ∧ P = kparent k ∧ holds s (fill k t) ∧ short n t ∧ kbal (S n) k ∧
      inorder (fill k t) = l ∧ ((length k < length k0)%nat ∨ ¬ black t)
  | inr X => ∃ t, X = rb_node s ∧ holds s t ∧ rbt t ∧ inorder t = l
  end.

(** The children of a node, read in the fixed order of the source. *)
Lemma both_black d s k wa w wb c :
  holds s (fill k (T' d c wa w wb)) →
  (wl ← rb_get rb_left s w; bl ← null_or_black s wl;
   if (bl : bool) then wr ← rb_get rb_right s w; null_or_black s wr else Some false) = Some (blackb wa && blackb wb).
Proof.
  intros Hh. assert (H1 : holds s (fill (F d c w wb :: k) wa)) by exact Hh.
  pose proof (holds_swap _ _ _ _ _ _ _ H1) as H2. apply null_or_black_at in H1, H2.
  change (rb_get rb_left s w) with (rb_get (child L) s w). change (rb_get rb_right s w) with (rb_get (child R) s w).
  destruct d.
  - rewrite (get_child s k L c wa w wb Hh). cbn [mbind option_bind]. rewrite H1. cbn [mbind option_bind].
    change R with (flip L). rewrite (get_other s k L c wa w wb Hh). cbn [mbind option_bind]. rewrite H2. by destruct (blackb wa).
  - change L with (flip R). rewrite (get_other s k R c wa w wb Hh). cbn [mbind option_bind]. rewrite H2. cbn [mbind option_bind].
    rewrite (get_child s k R c wa w wb Hh). cbn [mbind option_bind]. rewrite H1. rewrite andb_comm. by destruct (blackb wb).
Qed.

Lemma red_of_not_black n t : bal n t → blackb t = false → ∃ d a x b, t = T' d RED a x b ∧ black a ∧ black b ∧ bal n a ∧ bal n b.
Proof.
  destruct t as [|c l x r]; [done|]. intros Hb Hc. assert (c = RED) as -> by (destruct (bal_colors n L c l x r Hb) as [?|?]; [done|by subst c]).
  apply (bal_red n L) in Hb as (H1 & H2 & H3 & H4). by exists L, l, x, r.
Qed.
(** ... with the children named from a given side. *)
Lemma red_side d n t : bal n t → blackb t = false → ∃ a x b, t = T' d RED a x b ∧ black a ∧ black b ∧ bal n a ∧ bal n b.
Proof.
  intros Hb Hc. destruct (red_of_not_black n t Hb Hc) as (d0 & a & x & b & -> & H1 & H2 & H3 & H4).
  destruct (decide (d0 = d)) as [->|Hne]; [by exists a, x, b|]. exists b, x, a.
  assert (d0 = flip d) as -> by (by destruct d, d0). by rewrite T'_flip.
Qed.

(** How the path fits a node of colour [c] whose subtree counts one more black node than [n]. *)
Definition kfits (n : nat) (c : Z) (k : path) : Prop :=
  (c = RED ∧ kblack k ∧ kbal n k) ∨ (c = BLACK ∧ kbal (S n) k).

(** The last rotation: the far child of the sibling is red. *)
Lemma erase_finish_spec n d s k c t p cw wa w df f1 z f2 :
  holds s (fill k (T' d c t p (T' d cw wa w (T' df RED f1 z f2)))) → kfits (S n) c k →
  bal n t → bal n wa → bal n f1 → bal n f2 →
  ∃ s' t', erase_finish d s p w = Some s' ∧ holds s' t' ∧ rbt t' ∧ inorder t' = inorder (fill k (T' d c t p (T' d cw wa w (T' df RED f1 z f2)))).
Proof.
  intros Hh Hk Ht Hwa Hf1 Hf2. unfold erase_finish. rewrite (get_color _ _ _ _ _ _ _ Hh). cbn [mbind option_bind].
  pose proof (holds_swap s d c t p _ k Hh) as H1. destruct (color_spec c s _ _ _ _ _ _ H1) as (s1 & -> & H2). cbn [mbind option_bind].
  apply holds_swap in H2. rewrite flip_flip in H2. destruct (color_spec BLACK s1 k d c t p _ H2) as (s2 & -> & H3). cbn [mbind option_bind].
  pose proof (holds_swap s2 d BLACK t p _ k H3) as H4. rewrite (get_other _ _ _ _ _ _ _ H4), ptr_T'. cbn [mbind option_bind].
  pose proof (holds_swap s2 d c wa w _ (F (flip d) BLACK p t :: k) H4) as H5. rewrite (get_color _ _ _ _ _ _ _ H5). cbn [mbind option_bind].
  change (negb (RED =? BLACK)) with true. cbn match. destruct (color_spec BLACK s2 _ _ _ _ _ _ H5) as (s3 & -> & H6). cbn [mbind option_bind].
  apply holds_swap in H6. rewrite flip_flip in H6. change (holds s3 (fill (F (flip d) BLACK p t :: k) (T' d c wa w (T' df BLACK f1 z f2)))) in H6.
  apply holds_swap in H6. rewrite flip_flip in H6.
  destruct (rotate_spec d s3 k BLACK t p c wa w (T' df BLACK f1 z f2) H6) as (s4 & -> & H7).
  eexists s4, _. split; [done|]. split; [exact H7|]. split.
  - assert (bal (S n) (T' d BLACK t p wa)) as Hb1 by (apply bal_black; eauto).
    assert (bal (S n) (T' df BLACK f1 z f2)) as Hb2 by (apply bal_black; eauto).
    destruct Hk as [(-> & Hkb & Hk)|[-> Hk]].
    + apply (fill_bal (S n)); [done| |by right]. apply bal_red. by rewrite !black_T'.
    + apply (fill_bal (S (S n))); [done| |left; by apply black_T']. apply bal_black. eauto.
  - apply inorder_fill_ext. rewrite (inorder_rotate d BLACK t p c wa w (T' df BLACK f1 z f2) c cw).
    destruct d; cbn; destruct df; done.
Qed.

Lemma erase_black_spec n d s k c t p wa w wb k0 :
  holds s (fill k (T' d c t p (T' d BLACK wa w wb))) → kfits (S n) c k →
  bal n t → bal n wa → bal n wb → ((length k < length k0)%nat ∨ c = RED) →
  ∃ s' r, erase_black d s p w = Some (s', r) ∧ erase_next k0 s' r (inorder (fill k (T' d c t p (T' d BLACK wa w wb)))).
Proof.
  intros Hh Hk Ht Hwa Hwb Hlen. pose proof (holds_swap s d c t p _ k Hh) as H1. unfold erase_black.
  pose proof (both_black d s _ wa w wb BLACK H1) as Hboth. destruct (rb_get rb_left s w) as [wl|]; [|done]. cbn [mbind option_bind] in *.
  destruct (null_or_black s wl) as [bl|]; [|done]. cbn [mbind option_bind] in *. rewrite Hboth. cbn [mbind option_bind]. clear Hboth.
  destruct (blackb wa && blackb wb) eqn:Hb; cbn match.
  - apply andb_true_iff in Hb as [Hba Hbb]. apply blackb_true in Hba, Hbb.
    destruct (color_spec RED s _ _ _ _ _ _ H1) as (s1 & -> & H2). cbn [mbind option_bind]. apply holds_swap in H2. rewrite flip_flip in H2.
    rewrite (get_parent s1 k d c t p _ H2). cbn [mbind option_bind]. eexists s1, _. split; [done|]. cbn [erase_next].
    exists (if c =? RED then n else S n), (T' d c t p (T' d RED wa w wb)), k. rewrite ptr_T'. split; [done|]. split; [done|]. split; [exact H2|].
    assert (bal n (T' d RED wa w wb)) as Hb1 by (by apply bal_red).
    destruct Hk as [(-> & Hkb & Hk)|[-> Hk]]; cbn [Z.eqb EP_RB_RED EP_RB_BLACK]; (split; [|split; [done|split; [apply inorder_fill_ext; by destruct d|]]]).
    + left. eauto 10.
    + right. rewrite black_T'. done.
    + right. rewrite black_T'. split; [done|]. apply bal_black. eauto.
    + destruct Hlen as [?|?]; [by left|done].
  - rewrite (get_other _ _ _ _ _ _ _ H1). cbn [mbind option_bind].
    assert (∃ s1 w1 cw wa1 df f1 z f2, 
      (fb ← null_or_black s (ptr wb); (if (fb : bool) then
         near ← rb_get (child d) s w; s ← match near with Some n => rb_upd (set_color EP_RB_BLACK) s n | None => Some s end;
         s ← rb_upd (set_color EP_RB_RED) s w; s ← rb_rotate (flip d) s w;
         W ← rb_get (child (flip d)) s p; W ← W; Some (s, W) else Some (s, w))) = Some (s1, w1) ∧
      holds s1 (fill k (T' d c t p (T' d cw wa1 w1 (T' df RED f1 z f2)))) ∧ bal n wa1 ∧ bal n f1 ∧ bal n f2 ∧
      inorder (T' d cw wa1 w1 (T' df RED f1 z f2)) = inorder (T' d BLACK wa w wb)) as (s1 & w1 & cw & wa1 & df & f1 & z & f2 & Heq & Hh1 & Hwa1 & Hf1 & Hf2 & Hin).
    { rewrite (null_or_black_at s _ wb (holds_swap s d BLACK wa w wb (F (flip d) c p t :: k) H1)). cbn [mbind option_bind]. destruct (blackb wb) eqn:Hbb.
      - rewrite andb_true_r in Hb. destruct (red_side d n wa Hwa Hb) as (a1 & y & b1 & -> & Ha1 & Hb1 & Hna1 & Hnb1).
        rewrite (get_child _ _ _ _ _ _ _ H1), ptr_T'. cbn [mbind option_bind].
        destruct (color_spec BLACK s (F d BLACK w wb :: F (flip d) c p t :: k) d RED a1 y b1 H1) as (s1 & -> & H2). cbn [mbind option_bind].
        destruct (color_spec RED s1 (F (flip d) c p t :: k) d BLACK (T' d BLACK a1 y b1) w wb H2) as (s2 & -> & H3). cbn [mbind option_bind].
        rewrite <- (T'_flip d RED), <- (T'_flip d BLACK) in H3.
        destruct (rotate_spec (flip d) s2 (F (flip d) c p t :: k) RED wb w BLACK b1 y a1 H3) as (s3 & -> & H4). cbn [mbind option_bind].
        rewrite !T'_flip in H4. apply holds_swap in H4. rewrite flip_flip in H4. rewrite (get_other s3 k d c t p _ H4), ptr_T'. cbn [mbind option_bind].
        exists s3, y, BLACK, a1, d, b1, w, wb. split; [done|]. split; [exact H4|]. split; [done|]. split; [done|]. split; [done|].
        destruct d; cbn; by rewrite <- app_assoc.
      - destruct (red_side d n wb Hwb Hbb) as (f1 & z & f2 & -> & _ & _ & Hf1 & Hf2). by exists s, w, BLACK, wa, d, f1, z, f2. }
    destruct (null_or_black s (ptr wb)) as [fb|]; [|done]. cbn [mbind option_bind] in *. rewrite Heq. cbn [mbind option_bind].
    destruct (erase_finish_spec n d s1 k c t p cw wa1 w1 df f1 z f2 Hh1 Hk Ht Hwa1 Hf1 Hf2) as (s2 & t2 & Hfin & Hh2 & Hr & Hin2).
    rewrite Hfin. cbn [mbind option_bind]. eexists s2, _. split; [done|]. cbn [erase_next]. exists t2. split; [done|]. split; [done|]. split; [done|].
    rewrite Hin2. apply inorder_fill_ext. destruct d; cbn in *; by rewrite Hin.
Qed.

Lemma bal_S_node d n t : bal (S n) t → ∃ c a x b, t = T' d c a x b.
Proof. destruct t as [|c l x r]; [done|]. intros _. destruct (T_T' d c l x r) as (a & b & ->). eauto. Qed.

Lemma erase_side_spec n d s c p w k t :
  holds s (fill (F d c p w :: k) t) → kbal (S n) (F d c p w :: k) → bal n t →
  ∃ s' r, erase_side d s p = Some (s', r) ∧ erase_next (F d c p w :: k) s' r (inorder (fill (F d c p w :: k) t)).
Proof.
  intros Hh [Hw Hk] Ht. destruct (bal_S_node d n w Hw) as (cw & wa & x & wb & ->). unfold erase_side.
  rewrite (get_other s k d c t p _ Hh), ptr_T'. cbn [mbind option_bind].
  pose proof (holds_swap s d c t p _ k Hh) as H1. rewrite (get_color _ _ _ _ _ _ _ H1). cbn [mbind option_bind].
  destruct (bal_colors _ _ _ _ _ _ Hw) as [Hc|Hc]; subst cw.
  - change (RED =? RED) with true. cbn match. destruct Hk as [(_ & Hbw & _)|[-> Hk]]; [by rewrite black_T' in Hbw|].
    apply bal_red in Hw as (Hba & Hbb & Hwa & Hwb).
    destruct (color_spec BLACK s _ _ _ _ _ _ H1) as (s1 & -> & H2). cbn [mbind option_bind]. apply holds_swap in H2. rewrite flip_flip in H2.
    destruct (color_spec RED s1 k d BLACK t p _ H2) as (s2 & -> & H3). cbn [mbind option_bind].
    destruct (rotate_spec d s2 k RED t p BLACK wa x wb H3) as (s3 & -> & H4). cbn [mbind option_bind].
    destruct (bal_S_node d n wa Hwa) as (ca & a1 & y & b1 & ->). rewrite black_T' in Hba. subst ca. apply bal_black in Hwa as (n' & [= <-] & Ha1 & Hb1).
    rewrite (get_other s3 (F d BLACK x wb :: k) d RED t p _ H4), ptr_T'. cbn [mbind option_bind].
    destruct (erase_black_spec n d s3 (F d BLACK x wb :: k) RED t p a1 y b1 (F d BLACK p (T' d RED (T' d BLACK a1 y b1) x wb) :: k) H4) as (s4 & r & -> & Hnext); [|done..|by right|].
    + left. split; [done|]. split; [done|]. split; [done|]. by right.
    + exists s4, r. split; [done|]. replace (inorder (fill (F d BLACK p _ :: k) t)) with (inorder (fill (F d BLACK x wb :: k) (T' d RED t p (T' d BLACK a1 y b1)))); [done|].
      cbn [fill plug]. apply inorder_fill_ext. apply inorder_rotate.
  - change (BLACK =? RED) with false. cbn match. cbn [mbind option_bind]. apply bal_black in Hw as (n' & [= <-] & Hwa & Hwb).
    apply (erase_black_spec n); [exact Hh| |done..|left; cbn; lia]. unfold kfits. destruct Hk as [(? & _ & ? & ?)|?]; tauto.
Qed.

(** ** The loop *)

(** What is left to do after the loop: X is made black. *)
Definition erase_done (s : rb_tree) (X : option Z) (l : list Z) : Prop :=
  ∃ s' t', match X with Some x => rb_upd (set_color EP_RB_BLACK) s x | None => Some s end = Some s' ∧ holds s' t' ∧ rbt t' ∧ inorder t' = l.

Lemma erase_done_root s t : holds s t → rbt t → erase_done s (rb_node s) (inorder t).
Proof.
  intros Hh Hr. unfold erase_done. rewrite (h_root _ _ Hh). destruct t as [|c l x r]; [by exists s, E|]. cbn [ptr].
  destruct (color_spec BLACK s [] L c l x r Hh) as (s' & -> & Hh'). exists s', (T BLACK l x r). split; [done|]. split; [exact Hh'|]. split; [|done].
  by apply (rbt_blacken (T c l x r)).
Qed.

(** X is at the root, or red: the loop ends there. *)
Lemma erase_done_short n s k t : holds s (fill k t) → short n t → kbal (S n) k → (k = [] ∨ ¬ black t) →
  erase_done s (ptr t) (inorder (fill k t)).
Proof.
  intros Hh Hs Hk Hend. destruct Hs as [(d & a & x & b & -> & Ha & Hb)|[Hb Hn]].
  - unfold erase_done. rewrite ptr_T'. destruct (color_spec BLACK s k d RED a x b Hh) as (s' & -> & Hh'). eexists s', _. split; [done|]. split; [exact Hh'|]. split.
    + apply (fill_bal (S n)); [done| |left; by apply black_T']. apply bal_black. eauto.
    + apply inorder_fill_ext. by destruct d.
  - destruct Hend as [->|?]; [|done]. cbn [fill] in *. rewrite <- (h_root _ _ Hh). apply erase_done_root; [done|]. split; [done|]. eauto.
Qed.

Lemma short_blackb n t : short n t → blackb t = true → black t ∧ bal n t.
Proof. intros [(d & a & x & b & -> & _)|?] Hb; [|done]. apply blackb_true in Hb. by rewrite black_T' in Hb. Qed.

Lemma not_root_ptr s f k t : holds s (fill (f :: k) t) → ptr t ≠ rb_node s.
Proof.
  intros Hh Heq. destruct (root_above _ _ _ _ Hh) as (r & Hr & _). destruct t as [|c l x y]; [by rewrite Hr in Heq|].
  by apply (not_root s f k L c l x y Hh).
Qed.

Lemma erase_loop_spec fuel s k n t :
  holds s (fill k t) → short n t → kbal (S n) k → (length k <= fuel)%nat →
  ∃ s' X, erase_loop fuel s (ptr t) (kparent k) = Some (s', X) ∧ erase_done s' X (inorder (fill k t)).
Proof.
  revert s k n t. induction fuel as [|fuel IH]; intros s k n t Hh Hs Hk Hf;
    (destruct k as [|[d c p w] k]; cbn [erase_loop kparent fnode];
      [rewrite (h_root _ _ Hh); cbn [fill]; rewrite bool_decide_true by done; eexists s, _; split; [done|];
       apply (erase_done_short n s [] t); auto|]).
  { cbn in Hf. lia. }
  rewrite bool_decide_false by (apply (not_root_ptr _ _ _ _ Hh)). rewrite (null_or_black_at s _ t Hh). cbn [mbind option_bind].
  destruct (blackb t) eqn:Hb; cycle 1.
  { eexists s, _. split; [done|]. apply (erase_done_short n); [done..|]. right. rewrite <- blackb_true. by rewrite Hb. }
  destruct (short_blackb n t Hs Hb) as [Hbt Hn].
  assert ((l ← rb_get rb_left s p; (if bool_decide (ptr t = l) then erase_side L s p else erase_side R s p)) = erase_side d s p) as Hside.
  { change (rb_get rb_left s p) with (rb_get (child L) s p). destruct d.
    - rewrite (get_child s k L c t p w Hh). cbn [mbind option_bind]. by rewrite bool_decide_true.
    - change L with (flip R). rewrite (get_other s k R c t p w Hh). cbn [mbind option_bind]. rewrite bool_decide_false; [done|].
      destruct Hk as [Hw _]. destruct (bal_S_node L n w Hw) as (cw & a & x & b & ->). rewrite ptr_T'. intros Ht.
      apply holds_swap in Hh. destruct t as [|ct tl tx tr]; [done|]. cbn in Ht. injection Ht as ->.
      by apply (child_ne _ _ _ _ _ _ _ _ _ _ _ Hh). }
  destruct (rb_get rb_left s p) as [l|]; [|cbn in Hside; destruct (erase_side_spec n d s c p w k t Hh Hk Hn) as (? & ? & He & _); congruence].
  cbn [mbind option_bind] in *. rewrite Hside. destruct (erase_side_spec n d s c p w k t Hh Hk Hn) as (s1 & r & -> & Hnext). cbn [mbind option_bind].
  destruct r as [[X P]|X].
  - destruct Hnext as (n1 & t1 & k1 & -> & -> & Hh1 & Hs1 & Hk1 & <- & Hlen). destruct Hlen as [Hlen|Hred].
    + apply (IH s1 k1 n1); [done..|]. cbn in *. lia.
    + exists s1, (ptr t1). split; [|by apply (erase_done_short n1); auto].
      assert (blackb t1 = false) as Hb1 by (destruct (blackb t1) eqn:?; [|done]; exfalso; by apply Hred, blackb_true).
      clear Hside. destruct fuel; cbn [erase_loop]; (case_bool_decide; [done|]); rewrite (null_or_black_at s1 k1 t1 Hh1); cbn [mbind option_bind]; by rewrite Hb1.
  - destruct Hnext as (t1 & -> & Hh1 & Hr1 & <-). eexists s1, _. split; [done|]. by apply erase_done_root.
Qed.

Lemma erase_color_spec fuel s k n t :
  holds s (fill k t) → short n t → kbal (S n) k → (length k <= fuel)%nat →
  ∃ s' t', ep_rb_erase_color fuel s (ptr t) (kparent k) = Some s' ∧ holds s' t' ∧ rbt t' ∧ inorder t' = inorder (fill k t).
Proof.
  intros Hh Hs Hk Hf. unfold ep_rb_erase_color. destruct (erase_loop_spec fuel s k n t Hh Hs Hk Hf) as (s1 & X & -> & s2 & t2 & He & H1 & H2 & H3).
  cbn [mbind option_bind]. rewrite He. by exists s2, t2.
Qed.

(** ** The surgery *)

Lemma bal_short n t : bal n t → short n t.
Proof.
  intros Ht. destruct (blackb t) eqn:Hb; [right; by apply blackb_true in Hb|].
  left. destruct (red_side L n t Ht Hb) as (a & x & b & -> & _ & _ & H1 & H2). eauto 10.
Qed.

(** A node with at most one child is replaced by that child. *)
Lemma detach_spec s k d c x t : holds s (fill k (T' d c E x t)) →
  ∃ s1 s2, match ptr t with Some y => rb_upd (set_parent (kparent k)) s y | None => Some s end = Some s1 ∧
    replace_in_parent L s1 (kparent k) x (ptr t) = Some s2 ∧ holds s2 (fill k t).
Proof.
  intros (Hk & (_ & _ & Ht)%rep_T' & Hnd)%holds_fill. rewrite ptr_T' in Hk. rewrite inorder_T' in Hnd. cbn in Hnd.
  apply NoDup_cons in Hnd as [Hx Hnd]. pose proof Hnd as (Hnt & Hd & Hnk)%NoDup_app.
  destruct (reparent_spec s (Some x) (kparent k) t Ht Hnt) as (s1 & -> & Ht1 & Hr1 & Hs1).
  destruct (replace_spec L s1 k x (ptr t)) as (s2 & Hrep & Hk2 & Hs2); [|set_solver|done|].
  { eapply krep_ext; [|exact Hr1|exact Hk]. intros y Hy. apply Hs1. intros Hy'. by apply (Hd y). }
  exists s1, s2. split; [done|]. split; [done|]. apply holds_fill. split; [done|]. split; [|done].
  eapply rep_ext; [|exact Ht1]. intros y Hy. apply Hs2. by apply Hd.
Qed.

Lemma inorder_drop k d c x t : ∃ l1 l2, inorder (fill k (T' d c E x t)) = l1 ++ x :: l2 ∧ inorder (fill k t) = l1 ++ l2.
Proof.
  rewrite !inorder_fill_eq. destruct d; cbn.
  - by exists (kbefore k), (inorder t ++ kafter k).
  - exists (kbefore k ++ inorder t), (kafter k). by rewrite <- !app_assoc.
Qed.

(** The repair after a node of colour [c] went, whose place is now [t]'s. *)
Lemma repair_spec fuel s k d c x t :
  holds s (fill k t) → rbt (fill k (T' d c E x t)) → (length k <= fuel)%nat →
  ∃ s' t', (if c =? EP_RB_BLACK then ep_rb_erase_color fuel s (ptr t) (kparent k) else Some s) = Some s' ∧
    holds s' t' ∧ rbt t' ∧ inorder t' = inorder (fill k t).
Proof.
  intros Hh Hr Hf. destruct (fill_bal_inv _ _ Hr) as (n & Hk & Hn & Hc). destruct (bal_colors _ _ _ _ _ _ Hn) as [Hc1|Hc1]; subst c.
  - change (RED =? EP_RB_BLACK) with false. exists s, (fill k t). apply bal_red in Hn as (_ & Hb & _ & Ht). split; [done|]. split; [done|]. split; [|done].
    apply (fill_bal n); auto.
  - change (BLACK =? EP_RB_BLACK) with true. apply bal_black in Hn as (n' & -> & _ & Ht).
    destruct (erase_color_spec fuel s k n' t Hh (bal_short _ _ Ht) Hk Hf) as (s' & t' & -> & H1 & H2 & H3). by exists s', t'.
Qed.

Lemma erase_cut_spec s k d c x t : holds s (fill k (T' d c E x t)) →
  ∃ s', erase_cut s x (ptr t) = Some (s', (ptr t, kparent k, c)) ∧ holds s' (fill k t).
Proof.
  intros Hh. unfold erase_cut. rewrite (get_parent _ _ _ _ _ _ _ Hh), (get_color _ _ _ _ _ _ _ Hh). cbn [mbind option_bind].
  destruct (detach_spec s k d c x t Hh) as (s1 & s2 & -> & H2 & Hh2). cbn [mbind option_bind]. rewrite H2. cbn [mbind option_bind]. eauto.
Qed.

(** *** The successor takes the place of the node *)

Definition left_path (k : path) : Prop := Forall (λ f, match f with F L _ _ _ => True | _ => False end) k.

Lemma leftmost_spec fuel s k c l x r : holds s (fill k (T c l x r)) → (height (T c l x r) <= fuel)%nat →
  ∃ kr cy y ry, leftmost fuel s x = Some y ∧ T c l x r = fill kr (T cy E y ry) ∧ left_path kr.
Proof.
  revert fuel k c x r. induction l as [|cl ll IHl xl lr _]; intros fuel k c x r Hh Hf; (destruct fuel as [|fuel]; [cbn in Hf; lia|]);
    cbn [leftmost]; change (rb_get rb_left s x) with (rb_get (child L) s x); rewrite (get_child s k L c _ x r Hh); cbn [mbind option_bind ptr].
  - exists [], c, x, r. split; [done|]. split; [done|]. constructor.
  - destruct (IHl fuel (F L c x r :: k) cl xl lr) as (kr & cy & y & ry & H1 & H2 & H3); [exact Hh|cbn in *; lia|].
    exists (kr ++ [F L c x r]), cy, y, ry. split; [done|]. rewrite fill_app, <- H2. split; [done|]. apply Forall_app. split; [done|]. by constructor.
Qed.

Lemma rep_fill_change m m' kr t1 t2 up :
  ptr t1 = ptr t2 → (∀ q, rep m q t1 → rep m' q t2) → (∀ v, v ∈ knodes kr → m' !! v = m !! v) →
  rep m up (fill kr t1) → rep m' up (fill kr t2).
Proof.
  revert t1 t2. induction kr as [|[d c x b] kr IH]; intros t1 t2 Hp Hr Hm; [by apply Hr|]. cbn [fill plug].
  assert (Hm' : ∀ v, v ∈ x :: inorder b ++ knodes kr → m' !! v = m !! v) by (intros v Hv; apply Hm; by rewrite knodes_cons).
  apply IH; [by rewrite !ptr_T'| |intros v Hv; apply Hm'; set_solver]. intros q. rewrite !rep_T'. intros (H1 & H2 & H3). split; [|split].
  - unfold node_is in *. rewrite <- Hp. rewrite Hm' by left. done.
  - by apply Hr.
  - eapply rep_ext; [|exact H3]. intros v Hv. apply Hm'. set_solver.
Qed.

Lemma rep_sub m up k t : rep m up (fill k t) → rep m (match k with [] => up | f :: _ => Some (fnode f) end) t.
Proof.
  revert t. induction k as [|[d c x b] k IH]; intros t; [done|]. cbn [fill plug fnode]. intros Hr%IH. by apply rep_T' in Hr as (_ & ? & _).
Qed.

Lemma ptr_fill k t1 t2 : ptr t1 = ptr t2 → ptr (fill k t1) = ptr (fill k t2).
Proof. revert t1 t2. induction k as [|[d c x b] k IH]; intros t1 t2 Hp; [done|]. cbn [fill plug]. apply IH. by rewrite !ptr_T'. Qed.

Lemma ptr_fill_ne k t : ptr (fill k t) = None → ptr t = None.
Proof.
  destruct k as [|f k]; [done|]. intros Hp. pose proof (fill_cons_ne f k t). by destruct (fill (f :: k) t).
Qed.

Lemma erase_move_spec s x y kr cy ry nx up :
  left_path kr → rep (rb_nodes s) (Some x) (fill kr (T cy E y ry)) → NoDup (x :: inorder (fill kr (T cy E y ry))) →
  rb_nodes s !! x = Some nx → rb_right nx = ptr (fill kr (T cy E y ry)) → up = match kr with [] => x | f :: _ => fnode f end →
  ∃ s' ny, erase_move s x y (ptr ry) (Some up) = Some (s', Some (match kr with [] => y | f :: _ => fnode f end)) ∧
    rep (rb_nodes s') (Some y) (fill kr ry) ∧ rb_nodes s' !! y = Some ny ∧ rb_right ny = ptr (fill kr ry) ∧
    rb_node s' = rb_node s ∧ ∀ v, v ∉ inorder (fill kr (T cy E y ry)) → rb_nodes s' !! v = rb_nodes s !! v.
Proof.
  intros Hleft Hr [Hx Hnd]%NoDup_cons Hnx Hrx ->. unfold erase_move. destruct kr as [|[d cz z bz] kr].
  { rewrite bool_decide_true by done. cbn in *. destruct Hr as ((ny & Hny & _ & _ & _ & Hry) & _ & Hr). by exists s, ny. }
  apply Forall_cons in Hleft as [Hd _]. destruct d; [|done]. clear Hd. cbn [fill plug fnode] in *. set (t1 := T' L cz (T cy E y ry) z bz) in *. set (t2 := T' L cz ry z bz).
  assert (Hp : inorder (fill kr t1) ≡ₚ z :: y :: inorder ry ++ inorder bz ++ knodes kr) by (rewrite inorder_fill; unfold t1; rewrite inorder_T'; cbn; solve_Permutation).
  rewrite Hp in Hx, Hnd. pose proof Hnd as Hnd0. apply NoDup_cons in Hnd as [Hz [Hy (Hnry & Hdry & _)%NoDup_app]%NoDup_cons].
  rewrite bool_decide_false by (intros [= ->]; set_solver).
  pose proof (rep_sub _ _ _ _ Hr) as ((nz & Hnz & Hcz & Hpz & Hlz & Hbz) & ((ny & Hny & _ & _ & _ & Hry) & _ & Hrry) & Hrbz)%rep_T'.
  destruct (reparent_spec s (Some y) (Some z) ry Hrry Hnry) as (s1 & -> & Hry1 & Hroot1 & Hs1). cbn [mbind option_bind].
  assert (Hnz1 : rb_nodes s1 !! z = Some nz) by (rewrite Hs1 by set_solver; done). rewrite (rb_upd_node _ _ _ _ Hnz1). cbn [mbind option_bind].
  set (s2 := mk_rbt _ _). assert (Hs2 : ∀ v, v ∉ inorder ry → v ≠ z → rb_nodes s2 !! v = rb_nodes s !! v) by (intros v H1 H2; cbn; rewrite lookup_insert_ne, Hs1 by done; done).
  rewrite (rb_get_node _ s2 x nx) by (rewrite Hs2 by set_solver; done). cbn [mbind option_bind].
  rewrite (rb_upd_node _ s2 y ny) by (rewrite Hs2 by set_solver; done). cbn [mbind option_bind]. set (s3 := mk_rbt _ _).
  assert (Hs3 : ∀ v, v ≠ y → rb_nodes s3 !! v = rb_nodes s2 !! v) by (intros v Hv; cbn; by rewrite lookup_insert_ne).
  rewrite (rb_get_node _ s3 x nx) by (rewrite Hs3, Hs2 by set_solver; done). cbn [mbind option_bind].
  assert (Hp2 : inorder (fill kr t2) ≡ₚ z :: inorder ry ++ inorder bz ++ knodes kr) by (rewrite inorder_fill; unfold t2; rewrite inorder_T'; cbn; solve_Permutation).
  assert (Hr3 : rep (rb_nodes s3) (Some x) (fill kr t2)).
  { eapply (rep_ext (rb_nodes s2)); [intros v Hv; apply Hs3; rewrite Hp2 in Hv; set_solver|].
    apply (rep_fill_change (rb_nodes s) _ kr t1); [done| |intros v Hv; apply Hs2; set_solver|done]. unfold t1, t2. intros q. rewrite !rep_T'. intros ((nz' & Hnz' & H1 & H2 & H3 & H4) & _ & H6).
    rewrite Hnz in Hnz'. injection Hnz' as <-. split; [|split].
    - eexists. cbn. rewrite lookup_insert_eq. done.
    - cbn. apply rep_insert; [set_solver|done].
    - eapply rep_ext; [|exact H6]. intros v Hv. apply Hs2; set_solver. }
  assert (Hptr : ptr (fill kr t1) = ptr (fill kr t2)) by (by apply ptr_fill).
  destruct (reparent_spec s3 (Some x) (Some y) (fill kr t2) Hr3) as (s4 & Hs4 & Hr4 & Hroot4 & Hout4).
  { rewrite Hp2. rewrite Permutation_swap in Hnd0. by apply NoDup_cons in Hnd0 as [_ ?]. }
  rewrite Hrx, Hptr. destruct (ptr (fill kr t2)) as [v|] eqn:Hv; cycle 1.
  { by apply ptr_fill_ne in Hv. }
  cbn [mbind option_bind]. rewrite Hs4. cbn [mbind option_bind]. exists s4, (set_child R (Some v) ny). split; [done|]. split; [exact Hr4|].
  split; [|split; [done|split; [by rewrite Hroot4|]]].
  - rewrite Hout4 by (rewrite Hp2; set_solver). cbn. by rewrite lookup_insert_eq, Hrx, Hptr.
  - intros w Hw. rewrite Hp in Hw. rewrite Hout4 by (rewrite Hp2; set_solver). rewrite Hs3, Hs2 by set_solver. done.
Qed.

Lemma erase_adopt_spec s k x y c l r nx ny :
  rb_nodes s !! x = Some nx → color nx = c → rb_parent nx = kparent k → rb_left nx = ptr l → l ≠ E →
  rb_nodes s !! y = Some ny → rb_right ny = ptr r →
  rep (rb_nodes s) (Some x) l → rep (rb_nodes s) (Some y) r → krep s k (Some y) → NoDup (x :: y :: inorder l ++ inorder r ++ knodes k) →
  ∃ s', erase_adopt s x y = Some s' ∧ holds s' (fill k (T c l y r)).
Proof.
  intros Hnx Hc Hp Hl Hle Hny Hr Hrl Hrr Hk Hnd. pose proof Hnd as [Hx [Hy (Hnl & Hdl & (_ & Hdr & _)%NoDup_app)%NoDup_app]%NoDup_cons]%NoDup_cons.
  unfold erase_adopt. rewrite (rb_get_node _ _ _ _ Hnx), Hc. cbn [mbind option_bind]. rewrite (rb_upd_node _ _ _ _ Hny). cbn [mbind option_bind].
  assert (Hxy : x ≠ y) by set_solver.
  rewrite (rb_get_node _ _ x nx) by (cbn; by rewrite lookup_insert_ne). rewrite Hp. cbn [mbind option_bind].
  erewrite (rb_upd_node _ _ y) by (cbn; apply lookup_insert_eq). cbn [mbind option_bind rb_nodes rb_node]. rewrite insert_insert_eq.
  rewrite (rb_get_node _ _ x nx) by (cbn; by rewrite lookup_insert_ne). rewrite Hl. cbn [mbind option_bind].
  erewrite (rb_upd_node _ _ y) by (cbn; apply lookup_insert_eq). cbn [mbind option_bind rb_nodes rb_node]. rewrite insert_insert_eq.
  rewrite (rb_get_node _ _ x nx) by (cbn; by rewrite lookup_insert_ne). rewrite Hl. cbn [mbind option_bind].
  set (s1 := mk_rbt _ _). assert (Hs1 : ∀ v, v ≠ y → rb_nodes s1 !! v = rb_nodes s !! v) by (intros v Hv; cbn; by rewrite lookup_insert_ne).
  destruct (reparent_spec s1 (Some x) (Some y) l) as (s2 & Hs2 & Hl2 & Hroot2 & Hout2);
    [eapply rep_ext; [|exact Hrl]; intros v Hv; apply Hs1; set_solver|done|].
  destruct (ptr l) as [v|] eqn:Hv; [|by destruct l]. cbn [mbind option_bind]. exists s2. split; [done|]. apply holds_fill. cbn [ptr]. split; [|split].
  - apply (krep_ext s); [|by rewrite Hroot2|exact Hk]. intros w Hw. rewrite Hout2, Hs1 by set_solver. done.
  - cbn [rep]. split; [|split].
    + eexists. rewrite Hout2 by set_solver. cbn. rewrite lookup_insert_eq. split; [done|]. cbn. by rewrite Hv.
    + done.
    + eapply rep_ext; [|exact Hrr]. intros w Hw. rewrite Hout2, Hs1 by set_solver. done.
  - apply NoDup_cons in Hnd as [_ Hnd]. cbn. by assert ((inorder l ++ y :: inorder r) ++ knodes k ≡ₚ y :: inorder l ++ inorder r ++ knodes k) as -> by solve_Permutation.
Qed.

Lemma left_path_before k : left_path k → kbefore k = [].
Proof. induction 1 as [|[[] c x b] k Hf _ IH]; done. Qed.

Lemma erase_swap_spec fuel s k c l x r v :
  holds s (fill k (T c l x r)) → l ≠ E → ptr r = Some v → (height (fill k (T c l x r)) <= fuel)%nat →
  ∃ s' K cy y ry, erase_swap fuel s x v = Some (s', (ptr ry, kparent K, cy)) ∧ holds s' (fill K ry) ∧
    (rbt (fill k (T c l x r)) → rbt (fill K (T' L cy E y ry))) ∧ (length K <= fuel)%nat ∧
    inorder (fill K ry) = kbefore k ++ (inorder l ++ inorder r) ++ kafter k.
Proof.
  intros Hh Hl Hv Hf. pose proof (height_fill k (T c l x r)) as Hkh. destruct r as [|cr rl v' rr]; [done|]. injection Hv as ->.
  destruct (leftmost_spec fuel s (F R c x l :: k) cr rl v rr) as (kr & cy & y & ry & Hlm & Heq & Hleft); [exact Hh|cbn in Hkh |- *; lia|].
  rewrite Heq in *. unfold erase_swap. rewrite Hlm. cbn [mbind option_bind]. rewrite (get_parent s k L c l x _ Hh). cbn [mbind option_bind].
  pose proof Hh as (Hk & ((nx & Hnx & Hcx & Hpx & Hlx & Hrx) & Hrl & Hrr) & Hnd)%holds_fill. cbn [ptr] in Hk. cbn [child flip] in Hlx, Hrx.
  set (t1 := fill kr (T cy E y ry)) in *. assert (Hp1 : inorder t1 ≡ₚ y :: inorder ry ++ knodes kr) by (unfold t1; rewrite inorder_fill; cbn; solve_Permutation).
  assert (Hnd' : NoDup (x :: inorder t1 ++ inorder l ++ knodes k)).
  { assert (x :: inorder t1 ++ inorder l ++ knodes k ≡ₚ inorder (T c l x t1) ++ knodes k) as -> by (cbn; solve_Permutation). done. }
  apply NoDup_cons in Hnd' as [Hx Hnd']. pose proof Hnd' as (Hnd1 & Hd1 & (Hndl & Hdl & Hndk)%NoDup_app)%NoDup_app.
  destruct (replace_spec L s k x (Some y) Hk) as (s1 & -> & Hk1 & Hs1); [set_solver|done|]. cbn [mbind option_bind].
  assert (Hr1 : rep (rb_nodes s1) (Some x) t1) by (eapply rep_ext; [|exact Hrr]; intros w Hw; apply Hs1; set_solver).
  pose proof (rep_sub _ _ _ _ Hr1) as Hsub. set (up := match kr with [] => x | f :: _ => fnode f end).
  replace (match kr with [] => Some x | f :: _ => Some (fnode f) end) with (Some up) in Hsub by (by destruct kr).
  destruct Hsub as ((ny & Hny & Hcy & Hpy & _ & Hry) & _ & Hryr). cbn [child flip] in Hry.
  rewrite (rb_get_node rb_right _ _ _ Hny), Hry. cbn [mbind option_bind]. rewrite (rb_get_node rb_parent _ _ _ Hny), Hpy. cbn [mbind option_bind].
  rewrite (rb_get_node color _ _ _ Hny), Hcy. cbn [mbind option_bind].
  destruct (erase_move_spec s1 x y kr cy ry nx up Hleft Hr1) as (s2 & ny2 & -> & Hr2 & Hny2 & Hrny2 & Hroot2 & Hout2); [apply NoDup_cons; split; [set_solver|done]|rewrite Hs1 by set_solver; done|done|done|].
  cbn [mbind option_bind]. fold t1 in Hout2.
  assert (Hp2 : inorder (fill kr ry) ≡ₚ inorder ry ++ knodes kr) by apply inorder_fill.
  destruct (erase_adopt_spec s2 k x y c l (fill kr ry) nx ny2) as (s3 & -> & Hh3); try done.
  - rewrite Hout2, Hs1 by set_solver. done.
  - eapply rep_ext; [|exact Hrl]. intros w Hw. rewrite Hout2, Hs1 by set_solver. done.
  - apply (krep_ext s1); [|by rewrite Hroot2|exact Hk1]. intros w Hw. apply Hout2. set_solver.
  - assert (x :: y :: inorder l ++ inorder (fill kr ry) ++ knodes k ≡ₚ x :: inorder t1 ++ inorder l ++ knodes k) as -> by (rewrite Hp1, Hp2; solve_Permutation).
    by apply NoDup_cons.
  - cbn [mbind option_bind]. assert (Hfill : ∀ t, fill k (T c l y (fill kr t)) = fill (kr ++ F R c y l :: k) t) by (intros t; by rewrite fill_app).
    rewrite Hfill in Hh3.
    exists s3, (kr ++ F R c y l :: k), cy, y, ry. split; [by destruct kr|]. split; [done|]. split; [|split].
    + intros Hr. rewrite <- Hfill. destruct (fill_bal_inv _ _ Hr) as (n & Hkb & Hn & Hc). by apply (fill_bal n).
    + pose proof (height_fill kr (T cy E y ry)) as Hkrh. fold t1 in Hkrh. cbn [height] in Hkh, Hkrh. rewrite length_app. cbn. lia.
    + rewrite <- Hfill, inorder_fill_eq. cbn [inorder]. unfold t1. rewrite !(inorder_fill_eq kr), (left_path_before kr Hleft). done.
Qed.

(** ** Erasing any node *)

(** The child that moves up, in its new place, and the colour that went. *)
Lemma erase_surgery fuel s k c l x r :
  holds s (fill k (T c l x r)) → (height (fill k (T c l x r)) <= fuel)%nat →
  ∃ s' K d cy y ry,
    (a ← rb_get rb_left s x; b ← rb_get rb_right s x;
     match a, b with None, r => erase_cut s x r | l, None => erase_cut s x l | Some _, Some r => erase_swap fuel s x r end)
      = Some (s', (ptr ry, kparent K, cy)) ∧ holds s' (fill K ry) ∧
    (rbt (fill k (T c l x r)) → rbt (fill K (T' d cy E y ry))) ∧ (length K <= fuel)%nat ∧
    inorder (fill K ry) = kbefore k ++ (inorder l ++ inorder r) ++ kafter k.
Proof.
  intros Hh Hf. pose proof (height_fill k (T c l x r)) as Hkh. cbn [height] in Hkh.
  change (rb_get rb_left s x) with (rb_get (child L) s x). change (rb_get rb_right s x) with (rb_get (child (flip L)) s x).
  rewrite (get_child s k L c l x r Hh), (get_other s k L c l x r Hh). cbn [mbind option_bind].
  destruct l as [|cl ll xl lr]; cbn [ptr]; [|destruct (ptr r) as [v|] eqn:Hv].
  - destruct (erase_cut_spec s k L c x r Hh) as (s' & -> & H1). exists s', k, L, c, x, r. rewrite inorder_fill_eq. repeat (split; [done|]). by split; [lia|].
  - destruct (erase_swap_spec fuel s k c (T cl ll xl lr) x r v Hh) as (s' & K & cy & y & ry & -> & H1); [done..|]. by exists s', K, L, cy, y, ry.
  - assert (r = E) as -> by (by destruct r). destruct (erase_cut_spec s k R c x (T cl ll xl lr) Hh) as (s' & He & H1). cbn [ptr] in He. rewrite He.
    exists s', k, R, c, x, (T cl ll xl lr). rewrite inorder_fill_eq. split; [done|]. split; [done|]. split; [done|]. split; [lia|]. by rewrite app_nil_r.
Qed.

Lemma erase_spec fuel s k c l x r :
  holds s (fill k (T c l x r)) → rbt (fill k (T c l x r)) → (height (fill k (T c l x r)) <= fuel)%nat →
  ∃ s' t', ep_rb_erase fuel s x = Some s' ∧ holds s' t' ∧ rbt t' ∧ inorder t' = kbefore k ++ (inorder l ++ inorder r) ++ kafter k.
Proof.
  intros Hh Hr Hf. destruct (erase_surgery fuel s k c l x r Hh Hf) as (s1 & K & d & cy & y & ry & He & Hh1 & Hr1 & HK & <-).
  unfold ep_rb_erase. destruct (rb_get rb_left s x) as [a|]; [|done]. destruct (rb_get rb_right s x) as [b|]; [|done]. cbn [mbind option_bind] in *.
  rewrite He. cbn [mbind option_bind]. by apply (repair_spec fuel s1 K d cy y ry); [|apply Hr1|].
Qed.
