(* ===== verification/RbTreeProps.v ===== *)
(** * The tree of an epoll instance is a red-black search tree

    Inserting, erasing and finding items by descriptor, alone and in any sequence. *)
From S2P Require Import Prelude.
From S2P Require Import RbTree.
From S2P Require Import RbTreeProofs.
From S2P Require Import RbTreeInsert.
From S2P Require Import RbTreeErase.

(** In the strict order of the descriptors. *)
Definition fd_sorted (fd : Z → Z) (l : list Z) : Prop := StronglySorted (λ x y, fd x < fd y) l.

Lemma fd_sorted_ordered fd l : fd_sorted fd l → ordered fd l.
Proof. induction 1 as [|x l Hs IH Hx]; constructor; [done|]. eapply Forall_impl; [exact Hx|]. cbn. lia. Qed.

Lemma height_length t : (height t <= length (inorder t))%nat.
Proof. induction t as [|c l IHl x r IHr]; cbn; [lia|]. rewrite length_app. cbn. lia. Qed.

(** ** Finding *)

Lemma find_walk_spec n fd s key k t : holds s (fill k t) → fd_sorted fd (inorder t) → (height t <= n)%nat →
  find_walk n fd s key (ptr t) = Some (list.head (filter (λ y, fd y = key) (inorder t))).
Proof.
  revert n k. induction t as [|c l IHl x r IHr]; intros n k Hh Hs Hn; [by destruct n|].
  destruct n as [|n]; [cbn in Hn; lia|]. cbn [find_walk ptr height inorder] in *.
  apply sorted_app in Hs as (Hl & [Hr Hx]%StronglySorted_inv & Hlr). rewrite Forall_forall in Hx.
  assert (Hlx : ∀ y, y ∈ inorder l → fd y < fd x) by (intros y Hy; apply Hlr; [done|left]).
  change (rb_get rb_right s x) with (rb_get (child (flip L)) s x). change (rb_get rb_left s x) with (rb_get (child L) s x).
  rewrite (get_child s k L c l x r Hh), (get_other s k L c l x r Hh). cbn [mbind option_bind]. rewrite filter_app, filter_cons.
  destruct (Z.ltb_spec (fd x) key) as [Hlt|Hge]; [|destruct (Z.ltb_spec key (fd x)) as [Hlt|Hge']].
  - rewrite (IHr n (F R c x l :: k) Hh Hr) by lia. rewrite decide_False by lia.
    rewrite (filter_none _ (inorder l)); [done|]. intros y Hy. specialize (Hlx y Hy). lia.
  - rewrite (IHl n (F L c x r :: k) Hh Hl) by lia. rewrite decide_False by lia.
    rewrite (filter_none _ (inorder r)), app_nil_r; [done|]. intros y Hy. specialize (Hx y Hy). lia.
  - rewrite decide_True by lia. rewrite (filter_none _ (inorder l)); [done|]. intros y Hy. specialize (Hlx y Hy). lia.
Qed.

(** A node of a tree has a path to it. *)
Lemma tree_path t x : x ∈ inorder t → ∃ k c l r, t = fill k (T c l x r).
Proof.
  induction t as [|c l IHl y r IHr]; cbn; [by intros ?%elem_of_nil|]. rewrite elem_of_app, elem_of_cons. intros [Hx|[->|Hx]].
  - destruct (IHl Hx) as (k & c' & l' & r' & ->). exists (k ++ [F L c y r]), c', l', r'. by rewrite fill_app.
  - by exists [], c, l, r.
  - destruct (IHr Hx) as (k & c' & l' & r' & ->). exists (k ++ [F R c y l]), c', l', r'. by rewrite fill_app.
Qed.

(** ** Operations on the sequence *)

Inductive tree_op := Ins (x : Z) | Del (x : Z).

Definition tree_do (fuel : nat) (fd : Z → Z) (s : rb_tree) (o : tree_op) : option rb_tree :=
  match o with Ins x => nsep_rbtree_insert fuel fd s x | Del x => ep_rb_erase fuel s x end.

Definition tseq_do (fd : Z → Z) (l : list Z) (o : tree_op) : list Z :=
  match o with
  | Ins x => filter (λ y, fd y < fd x) l ++ x :: filter (λ y, fd x < fd y) l
  | Del x => filter (λ y, y ≠ x) l
  end.

(** Only allocated nodes outside the tree with a new descriptor are inserted, at most as many as the pool has; only nodes of the tree are erased. *)
Definition tree_op_ok (fd : Z → Z) (s : rb_tree) (l : list Z) (o : tree_op) : Prop :=
  match o with
  | Ins x => (x ∉ l) ∧ is_Some (rb_nodes s !! x) ∧ (∀ y, y ∈ l → fd y ≠ fd x) ∧ Z.of_nat (length l) < NSTACK_MAX_EPITEM_NUM
  | Del x => x ∈ l
  end.

(** The state of an operation sequence: the tree in memory is red-black and holds the sequence. *)
Definition tree_inv (fd : Z → Z) (s : rb_tree) (l : list Z) : Prop := fd_sorted fd l ∧ ∃ t, holds s t ∧ rbt t ∧ inorder t = l.

Lemma insert_ok fd s l x fuel : tree_inv fd s l → tree_op_ok fd s l (Ins x) → (2 * Nat.log2 (S (length l)) <= fuel)%nat →
  ∃ s', nsep_rbtree_insert fuel fd s x = Some s' ∧ tree_inv fd s' (tseq_do fd l (Ins x)).
Proof.
  intros (Hs & t & Hh & Hr & <-) (Hx & [n Hn] & Hfd & Hmax) Hf. pose proof (rbt_height t Hr). pose proof (height_length t).
  destruct (rbtree_insert_spec fuel fd s t x n Hh Hr (fd_sorted_ordered _ _ Hs) Hx Hn) as (s' & t' & l1 & l2 & He & Hh' & Hr' & Hl & Hl' & H1 & H2); [lia..|].
  rewrite Hl in *. apply sorted_app in Hs as (Hs1 & Hs2 & Hs12). rewrite Forall_forall in H1, H2.
  assert (H2' : ∀ y, y ∈ l2 → fd x < fd y) by (intros y Hy; specialize (H2 y Hy); specialize (Hfd y ltac:(set_solver)); lia).
  assert (tseq_do fd (l1 ++ l2) (Ins x) = inorder t') as Heq.
  { cbn. rewrite !filter_app, (filter_whole _ l1), (filter_none _ l2), (filter_none _ l1), (filter_whole _ l2), app_nil_r, Hl'; [done|..]; try done.
    - intros y Hy. specialize (H1 y Hy). lia.
    - intros y Hy. specialize (H2' y Hy). lia. }
  exists s'. split; [done|]. rewrite Heq. split; [|eauto]. unfold fd_sorted. rewrite Hl'. apply sorted_app. split; [done|]. split.
  - constructor; [done|]. by apply Forall_forall.
  - intros a b Ha [->|Hb]%elem_of_cons; [by apply H1|by apply Hs12].
Qed.

Lemma erase_sequence k c l x r : NoDup (inorder (fill k (T c l x r))) →
  filter (λ y, y ≠ x) (inorder (fill k (T c l x r))) = kbefore k ++ (inorder l ++ inorder r) ++ kafter k.
Proof.
  rewrite inorder_fill_eq. cbn [inorder]. rewrite <- !app_assoc. cbn [app]. rewrite !app_assoc. intros Hnd.
  rewrite filter_ne_mid by done. by rewrite <- !app_assoc.
Qed.

Lemma erase_ok fd s l x fuel : tree_inv fd s l → x ∈ l → (2 * Nat.log2 (S (length l)) <= fuel)%nat →
  ∃ s', ep_rb_erase fuel s x = Some s' ∧ tree_inv fd s' (filter (λ y, y ≠ x) l).
Proof.
  intros (Hs & t & Hh & Hr & <-) Hx0 Hf. destruct (tree_path t x Hx0) as (k & c & tl & tr & ->). pose proof (rbt_height _ Hr).
  destruct (erase_spec fuel s k c tl x tr Hh Hr) as (s' & t' & He & Hh' & Hr' & Hin); [lia|]. exists s'. split; [done|].
  assert (filter (λ y, y ≠ x) (inorder (fill k (T c tl x tr))) = inorder t') as Heq by (by rewrite Hin, erase_sequence by apply Hh).
  split; [by apply sorted_filter|]. exists t'. by rewrite Heq.
Qed.

(** The rounds of a walk or of a repair in a tree of [n] nodes. *)
Definition rounds (n : nat) : nat := 2 * Nat.log2 (S n).

Lemma find_ok fd s l key n : tree_inv fd s l → (rounds (length l) <= n)%nat ∨ (length l <= n)%nat →
  find_walk n fd s key (rb_node s) = Some (list.head (filter (λ y, fd y = key) l)).
Proof.
  intros (Hs & t & Hh & Hr & <-) Hn. pose proof (rbt_height t Hr). pose proof (height_length t). unfold rounds in Hn.
  rewrite (h_root _ _ Hh). apply (find_walk_spec n fd s key []); [done|done|lia].
Qed.

Lemma first_ok fd s l n : tree_inv fd s l → (rounds (length l) <= n)%nat → ep_rb_first n s = Some (list.head l).
Proof.
  intros (Hs & t & Hh & Hr & <-) Hn. pose proof (rbt_height t Hr) as Hht. unfold rounds in Hn. unfold ep_rb_first. rewrite (h_root _ _ Hh).
  destruct t as [|c l x r]; [done|]. cbn [ptr].
  destruct (leftmost_spec n s [] c l x r Hh) as (kr & cy & y & ry & -> & -> & Hk); [lia|]. cbn [mbind option_bind].
  by rewrite inorder_fill_eq, (left_path_before _ Hk).
Qed.

(** Everything a sequence of insertions and erasures can lead to, from an empty root. *)
Inductive tree_run (fd : Z → Z) : rb_tree → list Z → Prop :=
  | tr_start s : rb_node s = None → tree_run fd s []
  | tr_step s l o s' : tree_run fd s l → tree_op_ok fd s l o → tree_do (rounds (length l)) fd s o = Some s' → tree_run fd s' (tseq_do fd l o).

Lemma tree_do_ok fd s l o : tree_inv fd s l → tree_op_ok fd s l o →
  ∃ s', tree_do (rounds (length l)) fd s o = Some s' ∧ tree_inv fd s' (tseq_do fd l o).
Proof. intros Hi Hok. destruct o as [x|x]; [by apply insert_ok|by apply erase_ok]. Qed.

Lemma tree_run_inv fd s l : tree_run fd s l → tree_inv fd s l.
Proof.
  induction 1 as [s Hs|s l o s' _ IH Hok Hdo].
  - split; [constructor|]. exists E. split; [split; [done|done|constructor]|]. split; [|done]. split; [done|by exists 0%nat].
  - destruct (tree_do_ok fd s l o IH Hok) as (s1 & Hdo1 & Hi). rewrite Hdo in Hdo1. by injection Hdo1 as <-.
Qed.

(** ** Properties *)

(** C14: Inserting an item whose descriptor is not in the tree returns, after at most [2 log2 (n + 1)] repair rounds for [n]
    items, and leaves a red-black tree whose sequence is the old one with the item at the place of its descriptor. *)
Theorem rbtree_insert_correct fd s t x :
  holds s t → rbt t → fd_sorted fd (inorder t) → tree_op_ok fd s (inorder t) (Ins x) →
  ∃ s' t', nsep_rbtree_insert (rounds (length (inorder t))) fd s x = Some s' ∧ holds s' t' ∧ rbt t' ∧
    inorder t' = filter (λ y, fd y < fd x) (inorder t) ++ x :: filter (λ y, fd x < fd y) (inorder t) ∧ fd_sorted fd (inorder t').
Proof.
  intros Hh Hr Hs Hok. destruct (insert_ok fd s (inorder t) x (rounds (length (inorder t)))) as (s' & He & Hs' & t' & H1 & H2 & H3); [split; eauto|done|done|].
  exists s', t'. rewrite H3. done.
Qed.

(** C15: Erasing any item returns, after at most [2 log2 (n + 1)] repair rounds for [n] items, and leaves a red-black tree whose sequence is
    the old one without the item. *)
Theorem rb_erase_correct s t x :
  holds s t → rbt t → x ∈ inorder t →
  ∃ s' t', ep_rb_erase (rounds (length (inorder t))) s x = Some s' ∧ holds s' t' ∧ rbt t' ∧
    inorder t' = filter (λ y, y ≠ x) (inorder t).
Proof.
  intros Hh Hr Hx. pose proof (rbt_height t Hr) as Hht. pose proof (h_nodup _ _ Hh) as Hnd.
  destruct (tree_path t x Hx) as (k & c & tl & tr & ->).
  destruct (erase_spec (rounds (length (inorder (fill k (T c tl x tr))))) s k c tl x tr Hh Hr) as (s' & t' & He & Hh' & Hr' & Hin); [done|].
  exists s', t'. split; [done|]. split; [done|]. split; [done|]. by rewrite Hin, erase_sequence.
Qed.

(** Looking a descriptor up returns the item that has it, or null when none has, in at most [2 log2 (n + 1)] rounds; the bound
    on the rounds in the code is never reached. *)
Lemma find_ep_correct fd s t key :
  holds s t → rbt t → fd_sorted fd (inorder t) → Z.of_nat (length (inorder t)) <= NSTACK_MAX_EPITEM_NUM →
  nsep_find_ep fd s key = Some (list.head (filter (λ y, fd y = key) (inorder t))) ∧
  find_walk (rounds (length (inorder t))) fd s key (rb_node s) = nsep_find_ep fd s key.
Proof.
  intros Hh Hr Hs Hn. assert (tree_inv fd s (inorder t)) as Hi by (split; eauto). unfold nsep_find_ep.
  rewrite !(find_ok fd s (inorder t)); [done|done|by left|done|]. right. unfold NSTACK_MAX_EPITEM_NUM in *. lia.
Qed.

(** C16: Whatever sequence of insertions and erasures an empty tree goes through, the memory holds a red-black tree, in the strict order of
    the descriptors, of exactly the items inserted and not erased; the next operation is defined, the first item is the one of the
    smallest descriptor, and its height is at most [2 log2 (n + 1)]. *)
Theorem tree_runs_wellformed fd s l :
  tree_run fd s l →
  fd_sorted fd l ∧ (∃ t, holds s t ∧ rbt t ∧ inorder t = l ∧ (height t <= rounds (length l))%nat) ∧
  (∀ o, tree_op_ok fd s l o → is_Some (tree_do (rounds (length l)) fd s o)) ∧
  ep_rb_first (rounds (length l)) s = Some (list.head l).
Proof.
  intros Hi%tree_run_inv. pose proof Hi as (Hs & t & Hh & Hr & Hl). split; [done|]. split; [|split].
  - exists t. split; [done|]. split; [done|]. split; [done|]. subst l. by apply rbt_height.
  - intros o Hok. destruct (tree_do_ok fd s l o Hi Hok) as (s' & -> & _). by eexists.
  - by apply (first_ok fd).
Qed.

(** ** An example *)

Definition ex_rb : rb_tree := mk_rbt (list_to_map ((λ x, (x, mk_rb 0 None None None)) <$> [10; 20; 30; 40; 50])) None.
Definition ex_run (ops : list tree_op) : option rb_tree := foldl (λ s o, s ← s; tree_do 10 (λ x, x) s o) (Some ex_rb) ops.
Definition ex_rb3 : rb_tree := Eval vm_compute in default ex_rb (ex_run [Ins 10; Ins 20; Ins 30]).
Definition ex_t3 : tree := T 1 (T 0 E 10 E) 20 (T 0 E 30 E).

Lemma ex_rb3_holds : holds ex_rb3 ex_t3.
Proof.
  split; [done| |repeat (apply NoDup_cons; split; [set_solver|]); apply NoDup_nil_2].
  repeat split; eexists; (split; [vm_compute; reflexivity|done]).
Qed.
Lemma ex_t3_rbt : rbt ex_t3.
Proof. split; [done|]. exists 1%nat. right. split; [done|]. exists 0%nat. split; [done|]. split; left; done. Qed.
Lemma ex_t3_sorted : fd_sorted (λ x, x) (inorder ex_t3).
Proof. repeat constructor; lia. Qed.

Lemma rbtree_insert_correct_witness :
  ∃ s' t', nsep_rbtree_insert 4 (λ x, x) ex_rb3 40 = Some s' ∧ holds s' t' ∧ rbt t' ∧ inorder t' = [10; 20; 30; 40].
Proof.
  destruct (rbtree_insert_correct (λ x, x) ex_rb3 ex_t3 40 ex_rb3_holds ex_t3_rbt ex_t3_sorted) as (s' & t' & H1 & H2 & H3 & H4 & _).
  - split; [set_solver|]. split; [vm_compute; eauto|]. split; [|vm_compute; reflexivity].
    intros y Hy. cbn in Hy. rewrite !elem_of_cons in Hy. destruct Hy as [->|[->|[->|Hy]]]; [lia..|by apply elem_of_nil in Hy].
  - exists s', t'. split; [exact H1|]. split; [exact H2|]. split; [exact H3|]. rewrite H4. vm_compute. reflexivity.
Defined.

Lemma rb_erase_correct_witness : ∃ s' t', ep_rb_erase 4 ex_rb3 20 = Some s' ∧ holds s' t' ∧ rbt t' ∧ inorder t' = [10; 30].
Proof.
  destruct (rb_erase_correct ex_rb3 ex_t3 20 ex_rb3_holds ex_t3_rbt) as (s' & t' & H1 & H2 & H3 & H4); [cbn; set_solver|].
  exists s', t'. split; [exact H1|]. split; [exact H2|]. split; [exact H3|]. rewrite H4. vm_compute. reflexivity.
Defined.

Lemma find_ep_correct_witness : nsep_find_ep (λ x, x) ex_rb3 30 = Some (Some 30).
Proof.
  destruct (find_ep_correct (λ x, x) ex_rb3 ex_t3 30 ex_rb3_holds ex_t3_rbt ex_t3_sorted) as [H _]; [vm_compute; congruence|].
  rewrite H. vm_compute. reflexivity.
Defined.

Lemma tree_runs_wellformed_witness : ∃ s t, tree_run (λ x, x) s [10] ∧ holds s t ∧ rbt t.
Proof.
  assert (Hrun : tree_run (λ x, x) (default ex_rb (ex_run [Ins 10])) [10]).
  { eapply (tr_step _ ex_rb [] (Ins 10)); [by constructor| |vm_compute; reflexivity].
    split; [set_solver|]. split; [vm_compute; eauto|]. split; [by intros y ?%elem_of_nil|vm_compute; reflexivity]. }
  destruct (tree_runs_wellformed _ _ _ Hrun) as (_ & (t & H1 & H2 & _) & _). eauto.
Defined.
