(* ===== verification/FwModule.v ===== *)
(** * Module registration and initialisation (src/src/framework/init)

    Modules register themselves with a name, a priority, an initialisation function
    and the names of the modules they depend on ([fw_module.c]); the framework then
    initialises them in dependency order ([fw_init.c]).  An instance is named by its
    index in the instance pool.  The manager's list and an instance's dependencies
    are the lists of their nodes in order. *)
From S2P Require Import Prelude.

Local Open Scope string_scope.
Local Open Scope list_scope.
Local Open Scope Z_scope.

(** ** Data *)

Definition NSFW_MODULE_INSTANCE_POOL_SIZE : Z := 64.
Definition NSFW_MODULE_DEPENDS_POOL_SIZE : Z := 128.
Definition NSFW_MAX_STRING_LENGTH : Z := 128.

Record nsfw_module_depends_t := mk_dep { d_name : string; isReady : bool }.

Inductive nsfw_module_instance_stat_t :=
  | NSFW_INST_STAT_CHECKING
  | NSFW_INST_STAT_DEPENDING
  | NSFW_INST_STAT_DONE
  | NSFW_INST_STAT_FAIL.

Record nsfw_module_instance_t := mk_inst {
  fnInit : option Z;
  i_name : string;
  fatherName : string;
  priority : Z;
  depends : list nsfw_module_depends_t;
  i_stat : nsfw_module_instance_stat_t;
  param : Z;
  father : option nat
}.

(** The pools, the manager's list and its list of done modules. *)
Record nsfw_module_manager_t := mk_mgr {
  module_instance_pool : list nsfw_module_instance_t;
  deps_last_idx : Z;
  insts : list nat;
  mgr_done : Z;
  doneHead : list nat
}.

Definition set_pool (m : nsfw_module_manager_t) (p : list nsfw_module_instance_t) : nsfw_module_manager_t :=
  mk_mgr p (deps_last_idx m) (insts m) (mgr_done m) (doneHead m).
Definition set_insts (m : nsfw_module_manager_t) (l : list nat) : nsfw_module_manager_t :=
  mk_mgr (module_instance_pool m) (deps_last_idx m) l (mgr_done m) (doneHead m).
Definition set_done (m : nsfw_module_manager_t) (d : Z) : nsfw_module_manager_t :=
  mk_mgr (module_instance_pool m) (deps_last_idx m) (insts m) d (doneHead m).
Definition set_doneHead (m : nsfw_module_manager_t) (l : list nat) : nsfw_module_manager_t :=
  mk_mgr (module_instance_pool m) (deps_last_idx m) (insts m) (mgr_done m) l.
Definition set_deps_idx (m : nsfw_module_manager_t) (n : Z) : nsfw_module_manager_t :=
  mk_mgr (module_instance_pool m) n (insts m) (mgr_done m) (doneHead m).

Definition inst_set_name (i : nsfw_module_instance_t) (n : string) : nsfw_module_instance_t :=
  mk_inst (fnInit i) n (fatherName i) (priority i) (depends i) (i_stat i) (param i) (father i).
Definition inst_set_fatherName (i : nsfw_module_instance_t) (n : string) : nsfw_module_instance_t :=
  mk_inst (fnInit i) (i_name i) n (priority i) (depends i) (i_stat i) (param i) (father i).
Definition inst_set_priority (i : nsfw_module_instance_t) (p : Z) : nsfw_module_instance_t :=
  mk_inst (fnInit i) (i_name i) (fatherName i) p (depends i) (i_stat i) (param i) (father i).
Definition inst_set_initfn (i : nsfw_module_instance_t) (f : option Z) : nsfw_module_instance_t :=
  mk_inst f (i_name i) (fatherName i) (priority i) (depends i) (i_stat i) (param i) (father i).
Definition inst_set_depends (i : nsfw_module_instance_t) (d : list nsfw_module_depends_t) : nsfw_module_instance_t :=
  mk_inst (fnInit i) (i_name i) (fatherName i) (priority i) d (i_stat i) (param i) (father i).
Definition inst_set_stat (i : nsfw_module_instance_t) (s : nsfw_module_instance_stat_t) : nsfw_module_instance_t :=
  mk_inst (fnInit i) (i_name i) (fatherName i) (priority i) (depends i) s (param i) (father i).
Definition inst_set_param (i : nsfw_module_instance_t) (p : Z) : nsfw_module_instance_t :=
  mk_inst (fnInit i) (i_name i) (fatherName i) (priority i) (depends i) (i_stat i) p (father i).
Definition inst_set_father (i : nsfw_module_instance_t) (f : option nat) : nsfw_module_instance_t :=
  mk_inst (fnInit i) (i_name i) (fatherName i) (priority i) (depends i) (i_stat i) (param i) f.

(** A store to an instance of the pool. *)
Definition inst_upd (m : nsfw_module_manager_t) (i : nat) (f : nsfw_module_instance_t → nsfw_module_instance_t) : option nsfw_module_manager_t :=
  x ← module_instance_pool m !! i; Some (set_pool m (<[i := f x]> (module_instance_pool m))).

(** ** Registration (fw_module.c) *)

Definition nsfw_module_create_instance (m : nsfw_module_manager_t) : option nat * nsfw_module_manager_t :=
  let last_idx := length (module_instance_pool m) in
  if NSFW_MODULE_INSTANCE_POOL_SIZE <=? Z.of_nat last_idx then (None, m)
  else (Some last_idx, set_pool m (module_instance_pool m ++ [mk_inst None "" "" 0 [] NSFW_INST_STAT_CHECKING 0 None])).

Definition nsfw_module_malloc_depends (m : nsfw_module_manager_t) : bool * nsfw_module_manager_t :=
  if NSFW_MODULE_DEPENDS_POOL_SIZE <=? deps_last_idx m then (false, m)
  else (true, set_deps_idx m (deps_last_idx m + 1)).

Definition nsfw_module_setChildInstance (m : nsfw_module_manager_t) (fa : option nat) (child : nat) : option nsfw_module_manager_t :=
  match fa with
  | None => Some m
  | Some f => inst_upd m child (λ x, inst_set_father x (Some f))
  end.

Fixpoint getModuleByName_walk (pool : list nsfw_module_instance_t) (l : list nat) (name : string) : option (option nat) :=
  match l with
  | [] => Some None
  | i :: l => x ← pool !! i; if String.eqb (i_name x) name then Some (Some i) else getModuleByName_walk pool l name
  end.
Definition nsfw_module_getModuleByName (m : nsfw_module_manager_t) (name : option string) : option (option nat) :=
  match name with
  | None => Some None
  | Some n => getModuleByName_walk (module_instance_pool m) (insts m) n
  end.

(** The walk behind the insertion point: equal priorities stay before. *)
Fixpoint add_walk (pool : list nsfw_module_instance_t) (p : Z) (inst : nat) (l : list nat) : option (list nat) :=
  match l with
  | [] => Some [inst]
  | i :: l' =>
      x ← pool !! i;
      if priority x <=? p then r ← add_walk pool p inst l'; Some (i :: r) else Some (inst :: l)
  end.

Definition nsfw_module_add_instance (m : nsfw_module_manager_t) (inst : nat) : option nsfw_module_manager_t :=
  x ← module_instance_pool m !! inst;
  match insts m with
  | [] => Some (set_insts m [inst])
  | cur :: l =>
      c ← module_instance_pool m !! cur;
      if priority x <? priority c then Some (set_insts m (inst :: cur :: l))
      else r ← add_walk (module_instance_pool m) (priority x) inst l; Some (set_insts m (cur :: r))
  end.

(** The manager's list without the first occurrence of [inst]. *)
Fixpoint unlink_first (inst : nat) (l : list nat) : list nat :=
  match l with
  | [] => []
  | i :: l => if (i =? inst)%nat then l else i :: unlink_first inst l
  end.

(** With an empty list the walk starts at a null pointer. *)
Definition nsfw_module_del_instance (m : nsfw_module_manager_t) (inst : nat) : option nsfw_module_manager_t :=
  match insts m with
  | [] => None
  | l => Some (set_insts m (unlink_first inst l))
  end.

Section strings.
Variable securec : bool.

Definition nsfw_module_create_depends (m : nsfw_module_manager_t) (name : option string) : option (option nsfw_module_depends_t * nsfw_module_manager_t) :=
  match name with
  | None => Some (None, m)
  | Some n =>
      let '(ok, m) := nsfw_module_malloc_depends m in
      if negb ok then Some (None, m)
      else c ← STRCPY_S securec NSFW_MAX_STRING_LENGTH n; Some (if (c : bool) then Some (mk_dep n false) else None, m)
  end.

(** The search for instances that named [inst] as their father before it had its name. *)
Fixpoint adopt_walk (m : nsfw_module_manager_t) (inst : nat) (name : string) (l : list nat) : option nsfw_module_manager_t :=
  match l with
  | [] => Some m
  | i :: l =>
      if (i =? inst)%nat then adopt_walk m inst name l
      else
        x ← module_instance_pool m !! i;
        m ← (if String.eqb (fatherName x) name && bool_decide (father x = None)
             then nsfw_module_setChildInstance m (Some inst) i else Some m);
        adopt_walk m inst name l
  end.

Definition nsfw_module_set_instance_name (m : nsfw_module_manager_t) (inst : option nat) (name : option string) : option nsfw_module_manager_t :=
  match inst, name with
  | Some i, Some n =>
      x ← module_instance_pool m !! i;
      if negb (String.eqb (i_name x) "") then Some m
      else
        c ← STRCPY_S securec NSFW_MAX_STRING_LENGTH n;
        if negb (c : bool) then Some m
        else m ← inst_upd m i (λ x, inst_set_name x n); adopt_walk m i n (insts m)
  | _, _ => Some m
  end.

Definition nsfw_module_set_instance_father (m : nsfw_module_manager_t) (inst : option nat) (fname : option string) : option nsfw_module_manager_t :=
  match inst, fname with
  | Some i, Some n =>
      c ← STRCPY_S securec NSFW_MAX_STRING_LENGTH n;
      if negb (c : bool) then inst_upd m i (λ x, inst_set_fatherName x "")
      else
        m ← inst_upd m i (λ x, inst_set_fatherName x n);
        fa ← nsfw_module_getModuleByName m (Some n);
        match fa with
        | Some f => nsfw_module_setChildInstance m (Some f) i
        | None => Some m
        end
  | _, _ => Some m
  end.

Definition nsfw_module_set_instance_priority (m : nsfw_module_manager_t) (inst : option nat) (p : Z) : option nsfw_module_manager_t :=
  match inst with
  | None => Some m
  | Some i =>
      m ← inst_upd m i (λ x, inst_set_priority x p);
      m ← nsfw_module_del_instance m i;
      nsfw_module_add_instance m i
  end.

Definition nsfw_module_set_instance_initfn (m : nsfw_module_manager_t) (inst : option nat) (f : option Z) : option nsfw_module_manager_t :=
  match inst with None => Some m | Some i => inst_upd m i (λ x, inst_set_initfn x f) end.

(** A new dependency becomes the successor of the first one, whatever followed it before. *)
Definition nsfw_module_set_instance_depends (m : nsfw_module_manager_t) (inst : option nat) (name : option string) : option nsfw_module_manager_t :=
  match inst, name with
  | Some i, Some n =>
      x ← module_instance_pool m !! i;
      if existsb (λ d, String.eqb (d_name d) n) (depends x) then Some m
      else
        '(dep, m) ← nsfw_module_create_depends m (Some n);
        match dep with
        | None => Some m
        | Some d =>
            inst_upd m i (λ x, inst_set_depends x
              (match depends x with [] => [d] | first :: _ => [first; d] end))
        end
  | _, _ => Some m
  end.
End strings.

(** [NSFW_INIT_CREATE_LOCAL_INSTANCE]: the instance of a source file is created by the first of
    its attributes; the result of a failed creation is used without a check. *)
Definition NSFW_INIT_CREATE_LOCAL_INSTANCE (m : nsfw_module_manager_t) (local : option nat) : option (nat * nsfw_module_manager_t) :=
  match local with
  | Some i => Some (i, m)
  | None =>
      let '(inst, m) := nsfw_module_create_instance m in
      i ← inst; m ← nsfw_module_add_instance m i; Some (i, m)
  end.

(** The attributes of the [NSFW_MODULE_*] macros. *)
Inductive module_attr :=
  | A_name (name : string)
  | A_father (name : string)
  | A_priority (p : Z)
  | A_depends (name : string)
  | A_initfn (f : Z).

(** [NSFW_SET_INSTANCE_VALUE]. *)
Definition NSFW_SET_INSTANCE_VALUE (securec : bool) (m : nsfw_module_manager_t) (i : nat) (a : module_attr) : option nsfw_module_manager_t :=
  match a with
  | A_name n => nsfw_module_set_instance_name securec m (Some i) (Some n)
  | A_father n => nsfw_module_set_instance_father securec m (Some i) (Some n)
  | A_priority p => nsfw_module_set_instance_priority m (Some i) p
  | A_depends n => nsfw_module_set_instance_depends securec m (Some i) (Some n)
  | A_initfn f => nsfw_module_set_instance_initfn m (Some i) (Some f)
  end.

(** One constructor function of a source file, with that file's local instance. *)
Definition NSFW_MODULE_ATTRIBUTE_DEFINE (securec : bool) (m : nsfw_module_manager_t) (local : option nat) (a : module_attr) : option (nat * nsfw_module_manager_t) :=
  '(i, m) ← NSFW_INIT_CREATE_LOCAL_INSTANCE m local;
  m ← NSFW_SET_INSTANCE_VALUE securec m i a;
  Some (i, m).

(** ** Initialisation (fw_init.c) *)

Definition nsfw_module_addDoneNode (alloc : bool) (m : nsfw_module_manager_t) (inst : nat) : Z * nsfw_module_manager_t :=
  if negb alloc then (-1, m) else (0, set_doneHead m (doneHead m ++ [inst])).

(** As in the source, true when a dependency is not ready. *)
Definition nsfw_module_instance_isIndepend (x : nsfw_module_instance_t) : bool :=
  existsb (λ d, negb (isReady d)) (depends x).

Definition mark_dep (name : string) (d : nsfw_module_depends_t) : nsfw_module_depends_t :=
  if negb (isReady d) && String.eqb (d_name d) name then mk_dep (d_name d) true else d.

Definition is_pending (x : nsfw_module_instance_t) : bool :=
  match i_stat x with
  | NSFW_INST_STAT_CHECKING | NSFW_INST_STAT_DEPENDING => true
  | _ => false
  end.

Fixpoint depend_check_walk (pool : list nsfw_module_instance_t) (inst : nat) (name : string) (l : list nat) : option (list nsfw_module_instance_t) :=
  match l with
  | [] => Some pool
  | i :: l =>
      if (i =? inst)%nat then depend_check_walk pool inst name l
      else
        x ← pool !! i;
        depend_check_walk
          (if is_pending x then <[i := inst_set_depends x (mark_dep name <$> depends x)]> pool else pool)
          inst name l
  end.

Definition nsfw_module_instance_depend_check (m : nsfw_module_manager_t) (inst : nat) : option nsfw_module_manager_t :=
  x ← module_instance_pool m !! inst;
  p ← depend_check_walk (module_instance_pool m) inst (i_name x) (insts m);
  Some (set_pool m p).

(** The report of an instance: the line that is logged, if the text fits. *)
Definition INFO_SIZE : Z := 1024.

Fixpoint info_depends (securec : bool) (info : string) (l : list nsfw_module_depends_t) : option (option string) :=
  match l with
  | [] => Some (Some info)
  | d :: l =>
      let s := String.append (d_name d) " " in
      c ← STRCPY_S securec (INFO_SIZE - Z.of_nat (String.length info)) s;
      if negb (c : bool) then Some None else info_depends securec (String.append info s) l
  end.

Definition nstack_framework_printInstanceInfo (securec : bool) (m : nsfw_module_manager_t) (inst : nat) : option (option string) :=
  x ← module_instance_pool m !! inst;
  fa ← match father x with None => Some "NULL" | Some f => y ← module_instance_pool m !! f; Some (i_name y) end;
  let info := String.append "Inst:" (String.append (i_name x) (String.append ",father:" (String.append fa ",depends:"))) in
  c ← STRCPY_S securec INFO_SIZE info;
  if negb (c : bool) then Some None
  else match depends x with
  | [] =>
      c ← STRCPY_S securec (INFO_SIZE - Z.of_nat (String.length info)) "NULL";
      Some (if (c : bool) then Some (String.append info "NULL") else None)
  | l => info_depends securec info l
  end.

Definition is_done (x : nsfw_module_instance_t) : bool :=
  match i_stat x with NSFW_INST_STAT_DONE => true | _ => false end.

Fixpoint report_undone (securec : bool) (m : nsfw_module_manager_t) (l : list nat) : option (list (option string)) :=
  match l with
  | [] => Some []
  | i :: l =>
      x ← module_instance_pool m !! i;
      if negb (is_done x) then
        s ← nstack_framework_printInstanceInfo securec m i;
        r ← report_undone securec m l; Some (s :: r)
      else report_undone securec m l
  end.

(** The reports of the done modules and of those that are not. *)
Definition nstack_framework_printInitialResult (securec : bool) (m : nsfw_module_manager_t) : option (list (option string) * list (option string)) :=
  done ← mapM (nstack_framework_printInstanceInfo securec m) (doneHead m);
  undone ← report_undone securec m (insts m);
  Some (done, undone).

Section init.
Variable securec : bool.
(** What an initialisation function returns for its parameter, and whether the node of a done
    module can be allocated. *)
Variable run_init : Z → Z → Z.
Variable node_ok : nat → bool.

(** The state of the loop: the manager, the rest of the list at the cursor, the modules whose
    initialisation was run in order, and the value returned. *)
Record init_loop := mk_loop {
  l_mgr : nsfw_module_manager_t;
  l_cur : list nat;
  l_ran : list nat;
  l_ret : option Z
}.

Definition init_run (m : nsfw_module_manager_t) (cur ran : list nat) (inst : nat) (x : nsfw_module_instance_t) : option init_loop :=
  let fails := match fnInit x with Some f => negb (run_init f (param x) =? 0) | None => false end in
  if fails then
    m ← inst_upd m inst (λ x, inst_set_stat x NSFW_INST_STAT_FAIL);
    Some (mk_loop m cur (ran ++ [inst]) (Some (-1)))
  else
    m ← inst_upd m inst (λ x, inst_set_stat x NSFW_INST_STAT_DONE);
    m ← nsfw_module_instance_depend_check m inst;
    let '(_, m) := nsfw_module_addDoneNode (node_ok inst) m inst in
    Some (mk_loop m (insts m) (ran ++ [inst]) None).

Definition init_step (fa : option nat) (s : init_loop) : option init_loop :=
  match l_cur s with
  | [] => Some s
  | inst :: next =>
      let m := l_mgr s in
      x ← module_instance_pool m !! inst;
      if negb (bool_decide (fa = father x)) then Some (mk_loop m next (l_ran s) None)
      else match i_stat x with
      | NSFW_INST_STAT_CHECKING =>
          if nsfw_module_instance_isIndepend x then
            m ← inst_upd m inst (λ x, inst_set_stat x NSFW_INST_STAT_DEPENDING);
            Some (mk_loop m next (l_ran s) None)
          else init_run m (l_cur s) (l_ran s) inst x
      | NSFW_INST_STAT_DEPENDING =>
          if negb (nsfw_module_instance_isIndepend x) then
            m ← inst_upd m inst (λ x, inst_set_stat x NSFW_INST_STAT_CHECKING);
            Some (mk_loop m (l_cur s) (l_ran s) None)
          else Some (mk_loop m next (l_ran s) None)
      | _ => Some (mk_loop m next (l_ran s) None)
      end
  end.

Definition init_cond (s : init_loop) : bool :=
  match l_cur s, l_ret s with _ :: _, None => true | _, _ => false end.

(** The return value, the modules whose initialisation was run, and the manager. *)
Definition nstack_framework_initChild_unsafe (fuel : nat) (fa : option nat) (m : nsfw_module_manager_t) : option (Z * list nat * nsfw_module_manager_t) :=
  s ← while_fuel fuel init_cond (init_step fa) (mk_loop m (insts m) [] None);
  Some (default 0 (l_ret s), l_ran s, l_mgr s).

(** [lock_ok] and [unlock_ok]: whether the mutex operations succeed. *)
Definition nstack_framework_init (fuel : nat) (lock_ok unlock_ok : bool) (m : nsfw_module_manager_t) : option (Z * list nat * nsfw_module_manager_t) :=
  let finished (ran : list nat) (m : nsfw_module_manager_t) := (if mgr_done m =? 1 then 0 else -1, ran, m) in
  if negb (mgr_done m =? 0) then Some (finished [] m)
  else if negb lock_ok then Some (-1, [], m)
  else
    '(ret, ran, m) ← nstack_framework_initChild_unsafe fuel None m;
    let m := set_done m (if ret =? 0 then 1 else -1) in
    _ ← nstack_framework_printInitialResult securec m;
    if negb unlock_ok then Some (-1, ran, m) else Some (finished ran m).

Definition nstack_framework_setModuleParam (m : nsfw_module_manager_t) (module : option string) (p : Z) : option (Z * nsfw_module_manager_t) :=
  inst ← nsfw_module_getModuleByName m module;
  match inst with
  | None => Some (-1, m)
  | Some i => m ← inst_upd m i (λ x, inst_set_param x p); Some (0, m)
  end.
End init.
