(* ===== verification/FwModuleProps.v ===== *)
(** * The modules are initialised once, after what they depend on, and as many as possible

    The registration invariant, which every attribute of a module keeps, and the loop of
    [nstack_framework_initChild_unsafe]: it ends, it runs exactly the modules whose dependencies
    can be met, each once and in dependency order. *)
From S2P Require Import Prelude.
From S2P Require Import FwModule.

Local Open Scope string_scope.
Local Open Scope list_scope.
Local Open Scope Z_scope.

(** ** Specification *)

(** The priority that orders the manager's list. *)
Definition prio_of (p : list nsfw_module_instance_t) (i : nat) : Z := from_option priority 0 (p !! i).

Definition fits (s : string) : Prop := Z.of_nat (String.length s) < NSFW_MAX_STRING_LENGTH.

Record inst_ok (n : nat) (x : nsfw_module_instance_t) : Prop := {
  io_name : fits (i_name x);
  io_fname : fits (fatherName x);
  io_deps : Forall (λ d, fits (d_name d) ∧ isReady d = false) (depends x);
  io_two : (length (depends x) <= 2)%nat;
  io_father : ∀ f, father x = Some f → (f < n)%nat;
  io_stat : i_stat x = NSFW_INST_STAT_CHECKING
}.

Record reg_inv (m : nsfw_module_manager_t) : Prop := {
  ri_pool : Z.of_nat (length (module_instance_pool m)) <= NSFW_MODULE_INSTANCE_POOL_SIZE;
  ri_inst : Forall (inst_ok (length (module_instance_pool m))) (module_instance_pool m);
  ri_in : Forall (λ i, (i < length (module_instance_pool m))%nat) (insts m);
  ri_nodup : NoDup (insts m);
  ri_sorted : StronglySorted (λ i j, prio_of (module_instance_pool m) i <= prio_of (module_instance_pool m) j) (insts m);
  ri_fresh : mgr_done m = 0 ∧ doneHead m = []
}.

(** ** The manager's list *)

Lemma unlink_first_notin i l : NoDup l → i ∉ unlink_first i l.
Proof.
  induction 1 as [|j l Hj Hl IH]; simpl; [by intros ?%elem_of_nil|].
  destruct (Nat.eqb_spec j i) as [->|]; [done|]. by intros [->|]%elem_of_cons.
Qed.

Lemma unlink_first_elem i j l : NoDup l → j ∈ unlink_first i l ↔ j ∈ l ∧ j ≠ i.
Proof.
  induction 1 as [|k l Hk Hl IH]; simpl; [set_solver|].
  destruct (Nat.eqb_spec k i) as [->|]; set_solver.
Qed.

Lemma unlink_first_sublist i l : sublist (unlink_first i l) l.
Proof.
  induction l as [|k l IH]; simpl; [constructor|].
  destruct (Nat.eqb_spec k i); [by apply sublist_cons|by apply sublist_skip].
Qed.

Lemma sorted_sublist {A} (R : A → A → Prop) l k : sublist k l → StronglySorted R l → StronglySorted R k.
Proof.
  intros Hs. induction Hs as [|x k l Hs IH|x k l Hs IH]; [done| |];
    intros [H1 H2]%StronglySorted_inv; [constructor; auto|auto].
  rewrite Forall_forall in *. intros y Hy. apply H2. eapply elem_of_sublist; eauto.
Qed.

(** Insertion behind the instances of at most its priority. *)
Lemma add_walk_spec p pr i l :
  Forall (λ j, (j < length p)%nat) l →
  StronglySorted (λ i j, prio_of p i <= prio_of p j) l →
  ∃ l1 l2, add_walk p pr i l = Some (l1 ++ i :: l2) ∧ l = l1 ++ l2 ∧
    Forall (λ j, prio_of p j <= pr) l1 ∧ Forall (λ j, pr < prio_of p j) l2.
Proof.
  induction l as [|j l IH]; intros Hl Hs; cbn [add_walk].
  - by exists [], [].
  - apply Forall_cons in Hl as [Hj Hl]. apply StronglySorted_inv in Hs as [Hs Hjs].
    destruct (lookup_lt_is_Some_2 p j Hj) as [x Hx]. rewrite Hx; cbn [mbind option_bind].
    assert (prio_of p j = priority x) as Hp by (unfold prio_of; by rewrite Hx).
    destruct (Z.leb_spec (priority x) pr).
    + destruct (IH Hl Hs) as (l1 & l2 & -> & -> & H1 & H2).
      exists (j :: l1), l2. split; [done|]. split; [done|]. split; [|done].
      constructor; [lia|done].
    + exists [], (j :: l). split; [done|]. split; [done|]. split; [constructor|].
      constructor; [lia|]. eapply Forall_impl; [exact Hjs|]. cbn. lia.
Qed.

Lemma add_instance_spec m i x :
  module_instance_pool m !! i = Some x →
  Forall (λ j, (j < length (module_instance_pool m))%nat) (insts m) →
  StronglySorted (λ i j, prio_of (module_instance_pool m) i <= prio_of (module_instance_pool m) j) (insts m) →
  ∃ l1 l2, nsfw_module_add_instance m i = Some (set_insts m (l1 ++ i :: l2)) ∧ insts m = l1 ++ l2 ∧
    Forall (λ j, prio_of (module_instance_pool m) j <= priority x) l1 ∧
    Forall (λ j, priority x < prio_of (module_instance_pool m) j) l2.
Proof.
  intros Hx Hl Hs. unfold nsfw_module_add_instance. rewrite Hx; cbn [mbind option_bind].
  destruct (insts m) as [|j l]; [by exists [], []|].
  apply Forall_cons in Hl as [Hj Hl]. apply StronglySorted_inv in Hs as [Hs Hjs].
  destruct (lookup_lt_is_Some_2 _ j Hj) as [y Hy]. rewrite Hy; cbn [mbind option_bind].
  assert (prio_of (module_instance_pool m) j = priority y) as Hp by (unfold prio_of; by rewrite Hy).
  destruct (Z.ltb_spec (priority x) (priority y)).
  - exists [], (j :: l). split; [done|]. split; [done|]. split; [constructor|].
    constructor; [lia|]. eapply Forall_impl; [exact Hjs|]. cbn. lia.
  - destruct (add_walk_spec _ (priority x) i l Hl Hs) as (l1 & l2 & -> & -> & H1 & H2).
    exists (j :: l1), l2. split; [done|]. split; [done|]. split; [|done]. constructor; [lia|done].
Qed.

Lemma sorted_middle {A} (R : A → A → Prop) l1 i l2 :
  StronglySorted R (l1 ++ l2) → Forall (λ j, R j i) l1 → Forall (R i) l2 →
  StronglySorted R (l1 ++ i :: l2).
Proof.
  intros (H1 & H2 & H12)%sorted_app Ha Hb. apply sorted_app. rewrite Forall_forall in Ha.
  split; [done|]. split; [by constructor|]. intros a b Ha' [->|]%elem_of_cons; auto.
Qed.

(** ** Registration keeps the invariant *)

Lemma inst_upd_Some m i x f :
  module_instance_pool m !! i = Some x →
  inst_upd m i f = Some (set_pool m (<[i := f x]> (module_instance_pool m))).
Proof. intros Hx. unfold inst_upd. by rewrite Hx. Qed.

Lemma prio_of_insert_ne p i j y : i ≠ j → prio_of (<[i := y]> p) j = prio_of p j.
Proof. intros ?. unfold prio_of. by rewrite list_lookup_insert_ne. Qed.

Lemma prio_of_insert_same p i j x y :
  p !! i = Some x → priority y = priority x → prio_of (<[i := y]> p) j = prio_of p j.
Proof.
  intros Hx Hy. destruct (decide (i = j)) as [<-|]; [|by apply prio_of_insert_ne].
  unfold prio_of. rewrite list_lookup_insert_eq by (by eapply lookup_lt_Some). by rewrite Hx.
Qed.

Lemma sorted_ext {A} (R R' : A → A → Prop) l :
  (∀ a b, a ∈ l → b ∈ l → R a b → R' a b) → StronglySorted R l → StronglySorted R' l.
Proof.
  induction l as [|x l IH]; intros HR; [constructor|].
  intros [H1 H2]%StronglySorted_inv. constructor.
  - apply IH; [|done]. intros a b Ha Hb. apply HR; by right.
  - rewrite Forall_forall in *. intros b Hb. apply HR; [left|by right|auto].
Qed.

Lemma reg_inv_upd m i x y :
  reg_inv m → module_instance_pool m !! i = Some x → priority y = priority x →
  inst_ok (length (module_instance_pool m)) y →
  reg_inv (set_pool m (<[i := y]> (module_instance_pool m))).
Proof.
  intros [H1 H2 H3 H4 H5 H6] Hx Hp Hy. split; cbn; rewrite ?length_insert; try done.
  - by apply Forall_insert.
  - eapply sorted_ext; [|exact H5]. intros a b _ _. cbn. by rewrite !(prio_of_insert_same _ _ _ _ _ Hx Hp).
Qed.

Lemma reg_inv_lookup m i : reg_inv m → i ∈ insts m →
  ∃ x, module_instance_pool m !! i = Some x ∧ inst_ok (length (module_instance_pool m)) x.
Proof.
  intros Hm Hi. pose proof (ri_in _ Hm) as Hin. rewrite Forall_forall in Hin. apply Hin in Hi.
  destruct (lookup_lt_is_Some_2 _ _ Hi) as [x Hx]. exists x. split; [done|].
  eapply Forall_lookup_1; [apply ri_inst, Hm|done].
Qed.

Lemma STRCPY_S_cases securec n :
  (securec = false → fits n) →
  STRCPY_S securec NSFW_MAX_STRING_LENGTH n = Some true ∧ fits n ∨
  STRCPY_S securec NSFW_MAX_STRING_LENGTH n = Some false.
Proof.
  unfold STRCPY_S, fits. intros Hf. destruct (Z.ltb_spec (Z.of_nat (String.length n)) NSFW_MAX_STRING_LENGTH); [auto|].
  destruct securec; [auto|]. specialize (Hf eq_refl). lia.
Qed.

Lemma empty_fits : fits "".
Proof. unfold fits, NSFW_MAX_STRING_LENGTH. cbn. lia. Qed.

(** A step that keeps the invariant and the manager's list. *)
Definition reg_step (m : nsfw_module_manager_t) (r : option nsfw_module_manager_t) : Prop :=
  ∃ m', r = Some m' ∧ reg_inv m' ∧ (∀ j, j ∈ insts m' ↔ j ∈ insts m) ∧
    length (module_instance_pool m') = length (module_instance_pool m).

Lemma reg_step_refl m : reg_inv m → reg_step m (Some m).
Proof. intros ?. by exists m. Qed.

Lemma reg_step_upd m i x f :
  reg_inv m → module_instance_pool m !! i = Some x → priority (f x) = priority x →
  inst_ok (length (module_instance_pool m)) (f x) → reg_step m (inst_upd m i f).
Proof.
  intros Hm Hx Hp Hf. rewrite (inst_upd_Some _ _ _ _ Hx).
  eexists. split; [done|]. split; [by eapply reg_inv_upd|]. split; [done|]. cbn. by rewrite length_insert.
Qed.

Lemma reg_step_bind m r k :
  reg_step m r → (∀ m', reg_inv m' → (∀ j, j ∈ insts m' ↔ j ∈ insts m) →
    length (module_instance_pool m') = length (module_instance_pool m) → reg_step m' (k m')) →
  reg_step m (m' ← r; k m').
Proof.
  intros (m1 & -> & H1 & H2 & H3) Hk. destruct (Hk m1 H1 H2 H3) as (m2 & Hm2 & H4 & H5 & H6).
  exists m2. split; [done|]. split; [done|]. split; [|congruence]. intros j. by rewrite H5, H2.
Qed.

Lemma setChild_step m f i : reg_inv m → i ∈ insts m → (f < length (module_instance_pool m))%nat →
  reg_step m (nsfw_module_setChildInstance m (Some f) i).
Proof.
  intros Hm Hi Hf. destruct (reg_inv_lookup m i Hm Hi) as (x & Hx & [??????]).
  eapply reg_step_upd; [done..|]. split; cbn; try done. by intros ? [= <-].
Qed.

Lemma adopt_step m i n l : reg_inv m → i ∈ insts m → (∀ j, j ∈ l → j ∈ insts m) →
  reg_step m (adopt_walk m i n l).
Proof.
  revert m. induction l as [|j l IH]; intros m Hm Hi Hl; cbn [adopt_walk]; [by apply reg_step_refl|].
  destruct (Nat.eqb_spec j i); [apply IH; set_solver|].
  destruct (reg_inv_lookup m j Hm) as (x & Hx & _); [set_solver|]. rewrite Hx; cbn [mbind option_bind].
  apply reg_step_bind.
  - destruct (_ && _); [|by apply reg_step_refl]. apply setChild_step; [done|set_solver|].
    pose proof (ri_in _ Hm) as Hin. rewrite Forall_forall in Hin. auto.
  - intros m' Hm' Hiff _. apply IH; [done|set_solver|set_solver].
Qed.

Lemma set_name_step securec m i n : reg_inv m → i ∈ insts m → (securec = false → fits n) →
  reg_step m (nsfw_module_set_instance_name securec m (Some i) (Some n)).
Proof.
  intros Hm Hi Hn. unfold nsfw_module_set_instance_name.
  destruct (reg_inv_lookup m i Hm Hi) as (x & Hx & [??????]). rewrite Hx; cbn [mbind option_bind].
  destruct (negb _); [by apply reg_step_refl|].
  destruct (STRCPY_S_cases securec n Hn) as [[-> Hfit]| ->]; cbn [mbind option_bind negb]; [|by apply reg_step_refl].
  apply reg_step_bind.
  - eapply reg_step_upd; [done..|]. by split.
  - intros m' Hm' Hiff _. apply adopt_step; set_solver.
Qed.

Lemma getModuleByName_walk_spec m n l : reg_inv m → (∀ j, j ∈ l → j ∈ insts m) →
  ∃ r, getModuleByName_walk (module_instance_pool m) l n = Some r ∧
    match r with
    | Some i => ∃ x l1 l2, l = l1 ++ i :: l2 ∧ module_instance_pool m !! i = Some x ∧ i_name x = n ∧
        ∀ j y, j ∈ l1 → module_instance_pool m !! j = Some y → i_name y ≠ n
    | None => ∀ j y, j ∈ l → module_instance_pool m !! j = Some y → i_name y ≠ n
    end.
Proof.
  intros Hm. induction l as [|i l IH]; intros Hl; cbn [getModuleByName_walk].
  - exists None. split; [done|]. by intros j y ?%elem_of_nil.
  - destruct (reg_inv_lookup m i Hm) as (x & Hx & _); [set_solver|]. rewrite Hx; cbn [mbind option_bind].
    destruct (String.eqb_spec (i_name x) n) as [He|Hne].
    + exists (Some i). split; [done|]. exists x, [], l. repeat split; try done. by intros j y ?%elem_of_nil.
    + destruct IH as (r & -> & Hr); [set_solver|]. exists r. split; [done|].
      destruct r as [j|].
      * destruct Hr as (y & l1 & l2 & -> & Hy & Hn & Hb). exists y, (i :: l1), l2. repeat split; try done.
        intros k z [->|Hk]%elem_of_cons Hz; [by simplify_eq|eauto].
      * intros k z [->|Hk]%elem_of_cons Hz; [by simplify_eq|eauto].
Qed.

Lemma set_father_step securec m i n : reg_inv m → i ∈ insts m → (securec = false → fits n) →
  reg_step m (nsfw_module_set_instance_father securec m (Some i) (Some n)).
Proof.
  intros Hm Hi Hn. unfold nsfw_module_set_instance_father.
  destruct (reg_inv_lookup m i Hm Hi) as (x & Hx & [??????]).
  destruct (STRCPY_S_cases securec n Hn) as [[-> Hfit]| ->]; cbn [mbind option_bind negb].
  - apply reg_step_bind; [eapply reg_step_upd; [done..|]; by split|].
    intros m' Hm' Hiff _. cbn [nsfw_module_getModuleByName].
    destruct (getModuleByName_walk_spec m' n (insts m') Hm') as (r & -> & Hr); [done|]. cbn [mbind option_bind].
    destruct r as [f|]; [|by apply reg_step_refl].
    destruct Hr as (y & l1 & l2 & _ & Hy & _). apply setChild_step; [done|set_solver|by eapply lookup_lt_Some].
  - eapply reg_step_upd; [done..|]. by split.
Qed.

Lemma set_depends_step securec m i n : reg_inv m → i ∈ insts m → (securec = false → fits n) →
  reg_step m (nsfw_module_set_instance_depends securec m (Some i) (Some n)).
Proof.
  intros Hm Hi Hn. unfold nsfw_module_set_instance_depends.
  destruct (reg_inv_lookup m i Hm Hi) as (x & Hx & [?? Hdeps ???]). rewrite Hx; cbn [mbind option_bind].
  destruct (existsb _ _); [by apply reg_step_refl|].
  unfold nsfw_module_create_depends, nsfw_module_malloc_depends.
  destruct (_ <=? _); cbn [negb mbind option_bind]; [by apply reg_step_refl|].
  assert (reg_inv (set_deps_idx m (deps_last_idx m + 1))) as Hm' by (destruct Hm; by split).
  destruct (STRCPY_S_cases securec n Hn) as [[-> Hfit]| ->]; cbn [mbind option_bind].
  - eapply (reg_step_upd (set_deps_idx _ _)); [done..|].
    destruct (depends x) as [|d l]; (split; cbn; try done; try lia).
    + by repeat constructor.
    + apply Forall_cons in Hdeps as [? _]. rewrite !Forall_cons. auto using Forall_nil_2.
  - by exists (set_deps_idx m (deps_last_idx m + 1)).
Qed.

Lemma set_priority_step m i p : reg_inv m → i ∈ insts m →
  reg_step m (nsfw_module_set_instance_priority m (Some i) p).
Proof.
  intros Hm Hi. unfold nsfw_module_set_instance_priority.
  destruct (reg_inv_lookup m i Hm Hi) as (x & Hx & Hxok).
  rewrite (inst_upd_Some _ _ _ _ Hx); cbn [mbind option_bind].
  destruct Hm as [H1 H2 H3 H4 H5 H6]. set (p' := <[i := _]> (module_instance_pool m)).
  assert (length p' = length (module_instance_pool m)) as Hlen by apply length_insert.
  set (l := unlink_first i (insts m)).
  assert (nsfw_module_del_instance (set_pool m p') i = Some (set_insts (set_pool m p') l)) as ->.
  { unfold nsfw_module_del_instance, l. cbn. destruct (insts m); [by apply elem_of_nil in Hi|done]. }
  cbn [mbind option_bind].
  assert (sublist l (insts m)) as Hsub by apply unlink_first_sublist.
  assert (Hl : ∀ j, j ∈ l ↔ j ∈ insts m ∧ j ≠ i) by (intros j; by apply unlink_first_elem).
  assert (Forall (λ j, (j < length p')%nat) l) as Hin.
  { rewrite Forall_forall in *. intros j [Hj _]%Hl. rewrite Hlen. auto. }
  destruct (add_instance_spec (set_insts (set_pool m p') l) i (inst_set_priority x p))
    as (l1 & l2 & -> & Hl12 & Ha & Hb); cbn in *.
  - apply list_lookup_insert_eq. by eapply lookup_lt_Some.
  - done.
  - eapply sorted_ext; [|by eapply sorted_sublist]. intros a b [_ Hna]%Hl [_ Hnb]%Hl. cbn.
    unfold p'. by rewrite !prio_of_insert_ne by auto.
  - assert (prio_of p' i = p) as Hpi.
    { unfold prio_of, p'. by rewrite list_lookup_insert_eq by (by eapply lookup_lt_Some). }
    assert (l1 ++ i :: l2 ≡ₚ i :: l) as Hperm by (rewrite Hl12; symmetry; apply Permutation_middle).
    eexists. split; [done|]. split; [split; cbn; rewrite ?Hlen; try done|].
    + apply Forall_insert; [done|]. destruct Hxok; by split.
    + rewrite Hperm. constructor; [by eapply lookup_lt_Some|by rewrite Hlen in Hin].
    + rewrite Hperm. constructor; [rewrite Hl; tauto|by eapply sublist_NoDup].
    + apply sorted_middle; [rewrite <- Hl12|by rewrite Hpi|rewrite Hpi; eapply Forall_impl; [exact Hb|cbn; lia]].
      eapply sorted_ext; [|by eapply sorted_sublist]. intros a b [_ Hna]%Hl [_ Hnb]%Hl. cbn.
      unfold p'. by rewrite !prio_of_insert_ne by auto.
    + split; [|done]. intros j. cbn. rewrite Hperm, elem_of_cons, Hl. destruct (decide (j = i)); naive_solver.
Qed.

Definition attr_fits (a : module_attr) : Prop :=
  match a with A_name n | A_father n | A_depends n => fits n | _ => True end.

Lemma set_value_step securec m i a : reg_inv m → i ∈ insts m → (securec = false → attr_fits a) →
  reg_step m (NSFW_SET_INSTANCE_VALUE securec m i a).
Proof.
  intros Hm Hi Ha. destruct a; cbn [NSFW_SET_INSTANCE_VALUE attr_fits] in *;
    auto using set_name_step, set_father_step, set_priority_step, set_depends_step.
  destruct (reg_inv_lookup m i Hm Hi) as (x & Hx & [??????]). eapply reg_step_upd; [done..|by split].
Qed.

Lemma create_local_spec m :
  reg_inv m → Z.of_nat (length (module_instance_pool m)) < NSFW_MODULE_INSTANCE_POOL_SIZE →
  ∃ m', NSFW_INIT_CREATE_LOCAL_INSTANCE m None = Some (length (module_instance_pool m), m') ∧
    reg_inv m' ∧ ∀ j, j ∈ insts m' ↔ j = length (module_instance_pool m) ∨ j ∈ insts m.
Proof.
  intros [H1 H2 H3 H4 H5 H6] Hn. unfold NSFW_INIT_CREATE_LOCAL_INSTANCE, nsfw_module_create_instance.
  destruct (Z.leb_spec NSFW_MODULE_INSTANCE_POOL_SIZE (Z.of_nat (length (module_instance_pool m)))); [lia|].
  cbn [mbind option_bind]. set (n := length (module_instance_pool m)) in *. set (e := mk_inst _ _ _ _ _ _ _ _).
  set (m1 := set_pool m (module_instance_pool m ++ [e])).
  assert (Hlen : length (module_instance_pool m1) = S n) by (cbn; rewrite length_app; cbn; lia).
  assert (Hm1 : Forall (λ j, (j < length (module_instance_pool m1))%nat) (insts m)).
  { rewrite Hlen. eapply Forall_impl; [exact H3|cbn; lia]. }
  assert (He : module_instance_pool m1 !! n = Some e) by (cbn; by rewrite lookup_app_r, Nat.sub_diag by (unfold n; lia)).
  assert (Hs : StronglySorted (λ i j, prio_of (module_instance_pool m1) i <= prio_of (module_instance_pool m1) j) (insts m)).
  { eapply sorted_ext; [|exact H5]. rewrite Forall_forall in H3. intros a b Ha Hb. cbn. unfold prio_of.
    rewrite !lookup_app_l by auto. done. }
  destruct (add_instance_spec m1 n e He Hm1 Hs) as (l1 & l2 & -> & Hl & Ha & Hb); cbn [mbind option_bind].
  assert (l1 ++ n :: l2 ≡ₚ n :: insts m) as Hperm by (cbn in Hl; rewrite Hl; symmetry; apply Permutation_middle).
  assert (prio_of (module_instance_pool m1) n = 0) as Hpn by (unfold prio_of; by rewrite He).
  eexists. split; [done|]. split; [split; cbn [set_insts insts module_instance_pool doneHead]; rewrite ?Hlen|].
  - cbn. unfold NSFW_MODULE_INSTANCE_POOL_SIZE in *. lia.
  - cbn. apply Forall_app. split; [|constructor; [|done]; split; cbn; auto using empty_fits; done].
    eapply Forall_impl; [exact H2|]. intros x [???? Hf ?]. split; try done. intros f Hx. specialize (Hf f Hx). lia.
  - rewrite Hperm. constructor; [lia|by rewrite <- Hlen].
  - rewrite Hperm. constructor; [|done]. rewrite Forall_forall in H3. intros Hin%H3. unfold n in Hin. lia.
  - apply sorted_middle; [by cbn in Hl; rewrite <- Hl|by rewrite Hpn|rewrite Hpn; eapply Forall_impl; [exact Hb|cbn; lia]].
  - done.
  - intros j. cbn. by rewrite Hperm, elem_of_cons.
Qed.

(** The states constructor functions reach, with the local instance of every source file. *)
Inductive registering (securec : bool) : nsfw_module_manager_t → gmap nat nat → Prop :=
  | reg_start : registering securec (mk_mgr [] 0 [] 0 []) ∅
  | reg_attr m locals file a i m' :
      registering securec m locals → (securec = false → attr_fits a) →
      NSFW_MODULE_ATTRIBUTE_DEFINE securec m (locals !! file) a = Some (i, m') →
      registering securec m' (<[file := i]> locals).

Lemma attribute_spec securec m local a :
  reg_inv m → (∀ i, local = Some i → i ∈ insts m) →
  (local = None → Z.of_nat (length (module_instance_pool m)) < NSFW_MODULE_INSTANCE_POOL_SIZE) →
  (securec = false → attr_fits a) →
  ∃ i m', NSFW_MODULE_ATTRIBUTE_DEFINE securec m local a = Some (i, m') ∧ reg_inv m' ∧ i ∈ insts m' ∧
    ∀ j, j ∈ insts m → j ∈ insts m'.
Proof.
  intros Hm Hl Hn Ha. unfold NSFW_MODULE_ATTRIBUTE_DEFINE.
  assert (∃ i m1, NSFW_INIT_CREATE_LOCAL_INSTANCE m local = Some (i, m1) ∧ reg_inv m1 ∧ i ∈ insts m1 ∧
    ∀ j, j ∈ insts m → j ∈ insts m1) as (i & m1 & -> & Hm1 & Hi & Hsub).
  { destruct local as [i|]; [by exists i, m; eauto|].
    destruct (create_local_spec m Hm (Hn eq_refl)) as (m1 & H1 & H2 & H3).
    eexists _, m1. split; [done|]. split; [done|]. rewrite H3. split; [auto|]. intros j. rewrite H3. auto. }
  cbn [mbind option_bind]. destruct (set_value_step securec m1 i a Hm1 Hi Ha) as (m2 & -> & H1 & H2 & _).
  exists i, m2. split; [done|]. split; [done|]. rewrite H2. split; [done|]. intros j. rewrite H2. auto.
Qed.

Lemma create_local_full m : Z.of_nat (length (module_instance_pool m)) = NSFW_MODULE_INSTANCE_POOL_SIZE →
  NSFW_INIT_CREATE_LOCAL_INSTANCE m None = None.
Proof.
  intros Hn. unfold NSFW_INIT_CREATE_LOCAL_INSTANCE, nsfw_module_create_instance. rewrite Hn. done.
Qed.

Lemma registering_inv securec m locals :
  registering securec m locals → reg_inv m ∧ ∀ f i, locals !! f = Some i → i ∈ insts m.
Proof.
  induction 1 as [|m locals file a i m' _ [IH1 IH2] Ha Hdef].
  - split; [|intros f i; by rewrite lookup_empty]. split; cbn; try constructor; done.
  - destruct (decide (locals !! file = None ∧
      Z.of_nat (length (module_instance_pool m)) = NSFW_MODULE_INSTANCE_POOL_SIZE)) as [[Hno Hfull]|Hroom].
    { unfold NSFW_MODULE_ATTRIBUTE_DEFINE in Hdef. by rewrite Hno, (create_local_full m Hfull) in Hdef. }
    destruct (attribute_spec securec m (locals !! file) a) as (i1 & m1 & H1 & H2 & H3 & H4); [done|by eauto| |done|].
    + intros Hno. pose proof (ri_pool m IH1). destruct (decide (Z.of_nat (length (module_instance_pool m)) = NSFW_MODULE_INSTANCE_POOL_SIZE)); [tauto|lia].
    + rewrite H1 in Hdef. simplify_eq. split; [done|].
      intros f j [[-> ->]|[_ Hf]]%lookup_insert_Some; [done|eauto].
Qed.

(** ** The initialisation loop *)

(** What initialisation does not change of an instance. *)
Definition static (x : nsfw_module_instance_t) : option Z * string * list string * Z * option nat :=
  (fnInit x, i_name x, d_name <$> depends x, param x, father x).

(** Some module of [l] is called [n]. *)
Definition named (p : list nsfw_module_instance_t) (l : list nat) (n : string) : Prop :=
  ∃ j x, j ∈ l ∧ p !! j = Some x ∧ i_name x = n.

(** Every module of [l] comes after modules of the names it depends on. *)
Definition dep_ordered (p : list nsfw_module_instance_t) (l : list nat) : Prop :=
  ∀ pre i post x n, l = pre ++ i :: post → p !! i = Some x → n ∈ d_name <$> depends x → named p pre n.

(** The modules that can be initialised: the least set closed under the dependencies. *)
Inductive initialisable (m : nsfw_module_manager_t) : nat → Prop :=
  | initialisable_intro i x (prov : string → nat) :
      i ∈ insts m → module_instance_pool m !! i = Some x → father x = None →
      (∀ n, n ∈ d_name <$> depends x → initialisable m (prov n)) →
      (∀ n, n ∈ d_name <$> depends x → ∃ y, module_instance_pool m !! prov n = Some y ∧ i_name y = n) →
      initialisable m i.

Lemma static_lookup (p p0 : list nsfw_module_instance_t) i x :
  static <$> p = static <$> p0 → p !! i = Some x → ∃ x0, p0 !! i = Some x0 ∧ static x = static x0.
Proof.
  intros H Hx. assert ((static <$> p0) !! i = Some (static x)) as H0 by (rewrite <- H, list_lookup_fmap, Hx; done).
  rewrite list_lookup_fmap in H0. destruct (p0 !! i) as [x0|]; [|done]. exists x0. split; [done|]. cbn in H0. congruence.
Qed.

Lemma static_named (p p0 : list nsfw_module_instance_t) l n : static <$> p = static <$> p0 → named p l n → named p0 l n.
Proof.
  intros H (j & x & Hj & Hx & <-). destruct (static_lookup _ _ _ _ H Hx) as (x0 & Hx0 & Hs).
  exists j, x0. split; [done|]. split; [done|]. unfold static in Hs. by simplify_eq.
Qed.

Lemma named_app p l1 l2 n : named p (l1 ++ l2) n ↔ named p l1 n ∨ named p l2 n.
Proof. unfold named. set_solver. Qed.

Lemma named_singleton p i x n : p !! i = Some x → named p [i] n ↔ i_name x = n.
Proof. intros Hx. unfold named. set_solver. Qed.

Lemma dep_ordered_snoc p l i x :
  dep_ordered p l → p !! i = Some x → (∀ n, n ∈ d_name <$> depends x → named p l n) → dep_ordered p (l ++ [i]).
Proof.
  intros Hl Hx Hn pre j post y n Heq Hy Hin. destruct post as [|k post _] using rev_ind.
  - apply app_inj_tail in Heq as [<- <-]. simplify_eq. auto.
  - rewrite app_comm_cons, app_assoc in Heq. apply app_inj_tail in Heq as [-> <-]. eauto.
Qed.

Lemma isIndepend_true x : nsfw_module_instance_isIndepend x = true ↔ ∃ d, d ∈ depends x ∧ isReady d = false.
Proof.
  unfold nsfw_module_instance_isIndepend. rewrite existsb_exists.
  split; intros (d & Hd & Hr); exists d; rewrite <- list_elem_of_In in *; by destruct (isReady d).
Qed.

Lemma isIndepend_false x : nsfw_module_instance_isIndepend x = false ↔ ∀ d, d ∈ depends x → isReady d = true.
Proof.
  rewrite <- not_true_iff_false, isIndepend_true. split.
  - intros H d Hd. destruct (isReady d) eqn:?; [done|]. exfalso. eauto.
  - intros H (d & Hd & Hr). rewrite H in Hr; done.
Qed.

(** Marking the dependencies on a module that became ready. *)
Definition mark_inst (name : string) (x : nsfw_module_instance_t) : nsfw_module_instance_t :=
  if is_pending x then inst_set_depends x (mark_dep name <$> depends x) else x.

Lemma static_mark n x : static (mark_inst n x) = static x.
Proof.
  unfold mark_inst, static. destruct (is_pending x); [|done]. cbn. do 2 f_equal. f_equal.
  rewrite <- list_fmap_compose. apply list_fmap_ext. intros _ d _. unfold mark_dep, compose. by case_match.
Qed.

Lemma i_stat_mark n x : i_stat (mark_inst n x) = i_stat x.
Proof. unfold mark_inst. by destruct (is_pending x). Qed.

Lemma is_pending_mark n x : is_pending (mark_inst n x) = is_pending x.
Proof. unfold is_pending. by rewrite i_stat_mark. Qed.

Lemma mark_dep_name n d : d_name (mark_dep n d) = d_name d.
Proof. unfold mark_dep. by case_match. Qed.

Lemma mark_dep_ready n d : isReady (mark_dep n d) = true ↔ isReady d = true ∨ d_name d = n.
Proof.
  unfold mark_dep. destruct (isReady d) eqn:Hr, (String.eqb_spec (d_name d) n); cbn; naive_solver.
Qed.

Lemma depend_check_walk_spec (p : list nsfw_module_instance_t) inst n l :
  NoDup l → Forall (λ i, (i < length p)%nat) l →
  ∃ p', depend_check_walk p inst n l = Some p' ∧ static <$> p' = static <$> p ∧
    ∀ i, p' !! i = if decide (i ∈ l ∧ i ≠ inst) then mark_inst n <$> p !! i else p !! i.
Proof.
  intros Hnd. revert p. induction Hnd as [|i l Hi Hnd IH]; intros p Hl; cbn [depend_check_walk].
  - exists p. split; [done|]. split; [done|]. intros i. rewrite decide_False; [done|]. by intros [?%elem_of_nil _].
  - apply Forall_cons in Hl as [Hip Hl]. destruct (Nat.eqb_spec i inst) as [->|Hne].
    + destruct (IH p Hl) as (p' & -> & H1 & H2). exists p'. split; [done|]. split; [done|].
      intros j. rewrite H2. repeat case_decide; set_solver.
    + destruct (lookup_lt_is_Some_2 p i Hip) as [x Hx]. rewrite Hx; cbn [mbind option_bind].
      set (p1 := if is_pending x then _ else _).
      assert (p1 = <[i := mark_inst n x]> p) as ->.
      { unfold p1, mark_inst. destruct (is_pending x); [done|]. by rewrite list_insert_id. }
      destruct (IH (<[i := mark_inst n x]> p)) as (p' & -> & H1 & H2).
      { by rewrite length_insert. }
      exists p'. split; [done|]. split.
      * rewrite H1, list_fmap_insert, static_mark. apply list_insert_id. by rewrite list_lookup_fmap, Hx.
      * intros j. rewrite H2. destruct (decide (j = i)) as [->|Hj].
        -- rewrite decide_False, decide_True by set_solver. rewrite list_lookup_insert_eq, Hx by done. done.
        -- rewrite list_lookup_insert_ne by done. repeat case_decide; set_solver.
Qed.

Section loop.
Context (run_init : Z → Z → Z) (node_ok : nat → bool) (m0 : nsfw_module_manager_t).
Abbreviation p0 := (module_instance_pool m0).

(** The modules of [ran] are initialised; the others know which of their dependencies are. *)
Record init_inv (m : nsfw_module_manager_t) (ran : list nat) : Prop := {
  ii_insts : insts m = insts m0;
  ii_static : static <$> module_instance_pool m = static <$> p0;
  ii_done : mgr_done m = mgr_done m0;
  ii_nodup : NoDup ran;
  ii_sub : ∀ i, i ∈ ran → i ∈ insts m0 ∧ ∀ x, p0 !! i = Some x → father x = None;
  ii_stat : ∀ i x, i ∈ insts m0 → module_instance_pool m !! i = Some x →
    if decide (i ∈ ran) then i_stat x = NSFW_INST_STAT_DONE else is_pending x = true;
  ii_ready : ∀ i x d, i ∈ insts m0 → module_instance_pool m !! i = Some x → i ∉ ran → d ∈ depends x →
    (isReady d = true ↔ named p0 ran (d_name d));
  ii_order : dep_ordered p0 ran;
  ii_doneHead : doneHead m = doneHead m0 ++ filter (λ i, node_ok i = true) ran
}.

Definition blocked (ran : list nat) (i : nat) : Prop :=
  ∀ x, p0 !! i = Some x → father x = None → i ∈ ran ∨ ∃ n, n ∈ d_name <$> depends x ∧ ¬ named p0 ran n.

(** What a failure leaves: the module that failed had its dependencies. *)
Definition init_failed (m : nsfw_module_manager_t) (ran : list nat) : Prop :=
  ∃ ran' i x f, ran = ran' ++ [i] ∧ p0 !! i = Some x ∧ fnInit x = Some f ∧ run_init f (param x) ≠ 0 ∧
    i ∈ insts m0 ∧ father x = None ∧ NoDup ran ∧ (∀ j, j ∈ ran → j ∈ insts m0) ∧ dep_ordered p0 ran ∧
    insts m = insts m0 ∧ static <$> module_instance_pool m = static <$> p0 ∧
    doneHead m = doneHead m0 ++ filter (λ i, node_ok i = true) ran' ∧
    ∃ y, module_instance_pool m !! i = Some y ∧ i_stat y = NSFW_INST_STAT_FAIL.

Definition loop_inv (s : init_loop) : Prop :=
  match l_ret s with
  | None => init_inv (l_mgr s) (l_ran s) ∧ ∃ pre, insts m0 = pre ++ l_cur s ∧ ∀ i, i ∈ pre → blocked (l_ran s) i
  | Some r => r = -1 ∧ init_failed (l_mgr s) (l_ran s)
  end.

Lemma init_inv_lookup m ran i x :
  init_inv m ran → module_instance_pool m !! i = Some x → ∃ x0, p0 !! i = Some x0 ∧
    fnInit x = fnInit x0 ∧ i_name x = i_name x0 ∧ d_name <$> depends x = d_name <$> depends x0 ∧
    param x = param x0 ∧ father x = father x0.
Proof.
  intros Hm Hx. destruct (static_lookup _ _ _ _ (ii_static _ _ Hm) Hx) as (x0 & Hx0 & Hs).
  exists x0. unfold static in Hs. by simplify_eq.
Qed.

Lemma static_stat_insert (p : list nsfw_module_instance_t) i x st :
  p !! i = Some x → static <$> <[i := inst_set_stat x st]> p = static <$> p.
Proof.
  intros Hx. rewrite list_fmap_insert. apply list_insert_id. by rewrite list_lookup_fmap, Hx.
Qed.

(** Between [CHECKING] and [DEPENDING]. *)
Lemma init_inv_restat m ran i x st :
  init_inv m ran → module_instance_pool m !! i = Some x → i ∉ ran →
  is_pending (inst_set_stat x st) = true →
  init_inv (set_pool m (<[i := inst_set_stat x st]> (module_instance_pool m))) ran.
Proof.
  intros [H1 H2 H3 H4 H5 H6 H7 H8 H9] Hx Hi Hst. split; cbn; try done.
  - by rewrite static_stat_insert.
  - intros j y Hj [[<- [<- _]]|[? Hy]]%list_lookup_insert_Some; [|by apply H6].
    rewrite decide_False by done. done.
  - intros j y d Hj [[<- [<- _]]|[? Hy]]%list_lookup_insert_Some; [|by apply H7]. cbn. by apply (H7 i).
Qed.

(** A module that is not ready has a dependency that no initialised module provides. *)
Lemma blocked_intro m ran i x :
  init_inv m ran → i ∈ insts m0 → module_instance_pool m !! i = Some x → i ∉ ran →
  nsfw_module_instance_isIndepend x = true → blocked ran i.
Proof.
  intros Hm Hi Hx Hni (d & Hd & Hr)%isIndepend_true x0 Hx0 _. right. exists (d_name d).
  destruct (init_inv_lookup _ _ _ _ Hm Hx) as (x1 & ? & _ & _ & Hds & _). simplify_eq.
  rewrite <- Hds. split; [by apply list_elem_of_fmap_2|].
  rewrite <- (ii_ready _ _ Hm i x d) by done. by rewrite Hr.
Qed.

Lemma ready_deps m ran i x :
  init_inv m ran → i ∈ insts m0 → module_instance_pool m !! i = Some x → i ∉ ran →
  nsfw_module_instance_isIndepend x = false → ∀ n, n ∈ d_name <$> depends x → named p0 ran n.
Proof.
  intros Hm Hi Hx Hni Hr n (d & -> & Hd)%list_elem_of_fmap_1.
  apply (ii_ready _ _ Hm i x d); [done..|]. by apply isIndepend_false with x.
Qed.

(** A module is initialised: the pool after the others have been told. *)
Lemma depend_check_done m ran i x :
  init_inv m ran → NoDup (insts m0) → Forall (λ j, (j < length p0)%nat) (insts m0) →
  module_instance_pool m !! i = Some x →
  ∃ p2, nsfw_module_instance_depend_check
      (set_pool m (<[i := inst_set_stat x NSFW_INST_STAT_DONE]> (module_instance_pool m))) i = Some (set_pool m p2) ∧
    static <$> p2 = static <$> p0 ∧ p2 !! i = Some (inst_set_stat x NSFW_INST_STAT_DONE) ∧
    ∀ j y, j ∈ insts m0 → j ≠ i → p2 !! j = Some y →
      ∃ y1, module_instance_pool m !! j = Some y1 ∧ y = mark_inst (i_name x) y1.
Proof.
  intros [H1 H2 _ _ _ _ _ _ _] Hnd Hlt Hx.
  assert (Hlen : length (module_instance_pool m) = length p0).
  { rewrite <- (length_fmap static), H2. apply length_fmap. }
  unfold nsfw_module_instance_depend_check. cbn [set_pool module_instance_pool insts].
  rewrite list_lookup_insert_eq by (by eapply lookup_lt_Some). cbn [mbind option_bind]. rewrite H1.
  set (p1 := <[i := _]> (module_instance_pool m)).
  destruct (depend_check_walk_spec p1 i (i_name x) (insts m0)) as (p2 & Hw & Hs & Hp2); [done|by unfold p1; rewrite length_insert, Hlen|].
  cbn [inst_set_stat i_name]. rewrite Hw. exists p2. split; [done|]. split; [|split].
  - rewrite Hs. unfold p1. by rewrite static_stat_insert.
  - rewrite Hp2, decide_False by tauto. apply list_lookup_insert_eq. by eapply lookup_lt_Some.
  - intros j y Hj Hji. rewrite Hp2, decide_True by done. unfold p1. rewrite list_lookup_insert_ne by done.
    intros (y1 & -> & Hy1)%fmap_Some. eauto.
Qed.

Lemma init_inv_done m ran i x :
  init_inv m ran → NoDup (insts m0) → Forall (λ j, (j < length p0)%nat) (insts m0) →
  i ∈ insts m0 → module_instance_pool m !! i = Some x → i ∉ ran → father x = None →
  nsfw_module_instance_isIndepend x = false →
  ∃ m1, nsfw_module_instance_depend_check
          (set_pool m (<[i := inst_set_stat x NSFW_INST_STAT_DONE]> (module_instance_pool m))) i = Some m1 ∧
    init_inv (snd (nsfw_module_addDoneNode (node_ok i) m1 i)) (ran ++ [i]).
Proof.
  intros Hm Hnd Hlt Hi Hx Hni Hf Hr.
  destruct (init_inv_lookup _ _ _ _ Hm Hx) as (x0 & Hx0 & _ & Hn0 & Hds & _ & Hf0).
  pose proof (ready_deps _ _ _ _ Hm Hi Hx Hni Hr) as Hdeps. rewrite Hds in Hdeps.
  destruct (depend_check_done m ran i x Hm Hnd Hlt Hx) as (p2 & -> & Hst & Hself & Hother).
  eexists. split; [done|]. destruct Hm as [H1 H2 H3 H4 H5 H6 H7 H8 H9].
  replace (snd _) with (set_doneHead (set_pool m p2) (doneHead m ++ if node_ok i then [i] else [])).
  2:{ unfold nsfw_module_addDoneNode. destruct (node_ok i); cbn; [done|]. by rewrite app_nil_r. }
  split; cbn; try done.
  - apply NoDup_app. split; [done|]. split; [|apply NoDup_singleton]. intros j Hj Hj'. apply list_elem_of_singleton in Hj' as ->. done.
  - intros j [Hj|Hj]%elem_of_app; [auto|]. apply list_elem_of_singleton in Hj as ->. split; [done|]. intros; simplify_eq. congruence.
  - intros j y Hj Hy. destruct (decide (j = i)) as [->|Hji].
    + rewrite decide_True by set_solver. by simplify_eq.
    + destruct (Hother j y Hj Hji Hy) as (y1 & Hy1 & ->). specialize (H6 j y1 Hj Hy1).
      rewrite i_stat_mark, is_pending_mark. repeat case_decide; set_solver.
  - intros j y d Hj Hy Hnj Hd. assert (j ≠ i ∧ j ∉ ran) as [Hji Hjr] by set_solver.
    destruct (Hother j y Hj Hji Hy) as (y1 & Hy1 & ->).
    pose proof (H6 j y1 Hj Hy1) as Hpend. rewrite decide_False in Hpend by done.
    unfold mark_inst in Hd. rewrite Hpend in Hd. cbn in Hd. apply list_elem_of_fmap_1 in Hd as (d1 & -> & Hd1).
    specialize (H7 j y1 d1 Hj Hy1 Hjr Hd1). rewrite named_app, named_singleton, mark_dep_ready, mark_dep_name by done.
    rewrite H7, Hn0. naive_solver.
  - apply dep_ordered_snoc with x0; auto.
  - rewrite H9, <- app_assoc, filter_app. do 2 f_equal. destruct (node_ok i) eqn:Hok.
    + by rewrite filter_cons_True.
    + by rewrite filter_cons_False by congruence.
Qed.

(** ** The loop ends *)

Definition head_depending (m : nsfw_module_manager_t) (cur : list nat) : nat :=
  match cur with
  | i :: _ => match i_stat <$> module_instance_pool m !! i with Some NSFW_INST_STAT_DEPENDING => 1 | _ => 0 end
  | [] => 0
  end%nat.

Definition loop_meas (s : init_loop) : nat :=
  ((length (insts m0) - length (l_ran s)) * (2 * length (insts m0) + 2) + 2 * length (l_cur s) +
   head_depending (l_mgr s) (l_cur s))%nat.

Lemma head_depending_le m cur : (head_depending m cur <= 1)%nat.
Proof. unfold head_depending. repeat case_match; lia. Qed.

Lemma ran_length m ran : init_inv m ran → (length ran <= length (insts m0))%nat.
Proof.
  intros Hm. apply submseteq_length, NoDup_submseteq; [apply Hm|]. intros i Hi. by apply (ii_sub _ _ Hm).
Qed.

Lemma meas_advance m m' i next ran : 
  (loop_meas (mk_loop m' next ran None) < loop_meas (mk_loop m (i :: next) ran None))%nat.
Proof. unfold loop_meas. cbn [l_mgr l_cur l_ran length]. pose proof (head_depending_le m' next). lia. Qed.

Lemma meas_run m m' cur cur' ran i r :
  (length (ran ++ [i]) <= length (insts m0))%nat → (length cur' <= length (insts m0))%nat →
  (loop_meas (mk_loop m' cur' (ran ++ [i]) r) < loop_meas (mk_loop m cur ran None))%nat.
Proof.
  unfold loop_meas. cbn [l_mgr l_cur l_ran]. rewrite length_app. cbn [length]. intros Hr Hc.
  pose proof (head_depending_le m' cur').
  replace (length (insts m0) - length ran)%nat with (S (length (insts m0) - (length ran + 1)))%nat by lia. lia.
Qed.

Context (Hnd : NoDup (insts m0)) (Hlt : Forall (λ j, (j < length p0)%nat) (insts m0)).

(** One module is run. *)
Lemma init_run_step m cur ran i x :
  init_inv m ran → i ∈ insts m0 → module_instance_pool m !! i = Some x → i ∉ ran → father x = None →
  nsfw_module_instance_isIndepend x = false → (length cur <= length (insts m0))%nat →
  ∃ s', init_run run_init node_ok m cur ran i x = Some s' ∧ loop_inv s' ∧
    (loop_meas s' < loop_meas (mk_loop m cur ran None))%nat.
Proof.
  intros Hm Hi Hx Hni Hf Hr Hcur. unfold init_run.
  destruct (init_inv_done m ran i x Hm Hnd Hlt Hi Hx Hni Hf Hr) as (m1 & Hm1 & Hinv).
  pose proof (ran_length _ _ Hinv) as Hlen.
  destruct (init_inv_lookup _ _ _ _ Hm Hx) as (x0 & Hx0 & Hfn & _ & _ & Hpar & Hf0).
  case_match eqn:Hfail.
  - rewrite (inst_upd_Some _ _ _ _ Hx). eexists. split; [done|]. split; [|by apply meas_run].
    split; [done|]. destruct (fnInit x) as [f|] eqn:Hfx; [|done]. apply negb_true_iff, Z.eqb_neq in Hfail.
    exists ran, i, x0, f. rewrite <- Hpar, <- Hfn, <- Hf0. destruct Hinv as [_ _ _ H1 H2 _ _ H3 _].
    destruct Hm as [G1 G2 _ _ _ _ _ _ G3].
    repeat (split; [done || by intros j Hj; apply H2|]). cbn. split; [by rewrite static_stat_insert|]. split; [done|].
    eexists. split; [apply list_lookup_insert_eq; by eapply lookup_lt_Some|done].
  - rewrite (inst_upd_Some _ _ _ _ Hx). cbn [mbind option_bind]. rewrite Hm1. cbn [mbind option_bind].
    destruct (nsfw_module_addDoneNode (node_ok i) m1 i) as [z m2]. cbn [snd] in Hinv.
    eexists. split; [done|]. pose proof (ii_insts _ _ Hinv) as Hins. split.
    + split; [done|]. exists []. cbn. rewrite Hins. split; [done|]. by intros j ?%elem_of_nil.
    + apply meas_run; [done|]. by rewrite Hins.
Qed.

Lemma loop_advance m m' i next ran pre :
  init_inv m' ran → insts m0 = pre ++ i :: next → (∀ j, j ∈ pre → blocked ran j) → blocked ran i →
  ∃ s', Some (mk_loop m' next ran None) = Some s' ∧ loop_inv s' ∧
    (loop_meas s' < loop_meas (mk_loop m (i :: next) ran None))%nat.
Proof.
  intros Hm Hpre Hb Hi. eexists. split; [done|]. split; [|apply meas_advance].
  split; [done|]. exists (pre ++ [i]). rewrite <- app_assoc. split; [done|]. cbn.
  intros j [?|Hj]%elem_of_app; [auto|]. by apply list_elem_of_singleton in Hj as ->.
Qed.

Lemma init_step_ok s :
  loop_inv s → init_cond s = true →
  ∃ s', init_step run_init node_ok None s = Some s' ∧ loop_inv s' ∧ (loop_meas s' < loop_meas s)%nat.
Proof.
  destruct s as [m [|i next] ran [r|]]; try done. intros [Hm (pre & Hpre & Hb)] _. cbn in Hm, Hpre, Hb.
  unfold init_step. cbn [l_cur l_mgr l_ran].
  assert (Hi : i ∈ insts m0) by (rewrite Hpre; set_solver).
  assert (Hlen : (length (i :: next) <= length (insts m0))%nat) by (rewrite Hpre, length_app; lia).
  assert (∃ x, module_instance_pool m !! i = Some x) as [x Hx].
  { apply lookup_lt_is_Some_2. rewrite <- (length_fmap static), (ii_static _ _ Hm), length_fmap.
    rewrite Forall_forall in Hlt. auto. }
  rewrite Hx. cbn [mbind option_bind].
  destruct (init_inv_lookup _ _ _ _ Hm Hx) as (x0 & Hx0 & _ & _ & _ & _ & Hf0).
  case_bool_decide as Hf; cbn [negb].
  2:{ eapply loop_advance; [done..|]. intros y Hy Hfy. simplify_eq. congruence. }
  pose proof (ii_stat _ _ Hm i x Hi Hx) as Hst. destruct (decide (i ∈ ran)) as [Hir|Hir].
  { rewrite Hst. eapply loop_advance; [done..|]. intros y Hy Hfy. by left. }
  unfold is_pending in Hst. destruct (i_stat x) eqn:Hsx; try done.
  - destruct (nsfw_module_instance_isIndepend x) eqn:Hr; [|by apply init_run_step].
    rewrite (inst_upd_Some _ _ _ _ Hx). eapply loop_advance; [by apply init_inv_restat|done..|by eapply blocked_intro].
  - destruct (nsfw_module_instance_isIndepend x) eqn:Hr; cbn [negb].
    + eapply loop_advance; [done..|]. by eapply blocked_intro.
    + rewrite (inst_upd_Some _ _ _ _ Hx). eexists. split; [done|]. split.
      * split; [by apply init_inv_restat|by eauto].
      * unfold loop_meas, head_depending. cbn [l_mgr l_cur l_ran set_pool module_instance_pool].
        rewrite Hx, list_lookup_insert_eq by (by eapply lookup_lt_Some). cbn. rewrite Hsx. lia.
Qed.
End loop.

(** ** The modules that are run are the ones that can be *)

Definition provider (p : list nsfw_module_instance_t) (l : list nat) (n : string) : nat :=
  default 0%nat (snd <$> list_find (λ j, i_name <$> p !! j = Some n) l).

Lemma provider_spec p l n : named p l n →
  ∃ x, provider p l n ∈ l ∧ p !! provider p l n = Some x ∧ i_name x = n.
Proof.
  intros (j & x & Hj & Hx & Hn). unfold provider.
  destruct (list_find_elem_of (λ j, i_name <$> p !! j = Some n) l j Hj) as [[k y] Hk]; [by rewrite Hx, <- Hn|].
  rewrite Hk. cbn. apply list_find_Some in Hk as (Hk & Hy & _).
  apply fmap_Some in Hy as (z & Hz & ->). exists z. split; [by eapply list_elem_of_lookup_2|done].
Qed.

Lemma ordered_initialisable m ran :
  (∀ i, i ∈ ran → i ∈ insts m ∧ ∃ x, module_instance_pool m !! i = Some x ∧ father x = None) →
  dep_ordered (module_instance_pool m) ran → ∀ i, i ∈ ran → initialisable m i.
Proof.
  induction ran as [|j ran IH] using rev_ind; intros Hin Hord i Hi; [by apply elem_of_nil in Hi|].
  assert (∀ k, k ∈ ran → initialisable m k) as Hran.
  { apply IH; [intros k Hk; apply Hin; set_solver|].
    intros pre k post x n Heq. apply (Hord pre k (post ++ [j])). rewrite Heq. by rewrite <- app_assoc. }
  apply elem_of_app in Hi as [Hi|Hi]; [auto|]. apply list_elem_of_singleton in Hi as ->.
  destruct (Hin j) as (Hj & x & Hx & Hf); [set_solver|].
  apply (initialisable_intro m j x (provider (module_instance_pool m) ran)); [done..| |];
    intros n Hn; destruct (provider_spec (module_instance_pool m) ran n) as (y & Hy & Hyx & Hyn); eauto.
Qed.

Lemma initialisable_ran m ran :
  (∀ i, i ∈ insts m → blocked m ran i) → ∀ i, initialisable m i → i ∈ ran.
Proof.
  intros Hb. induction 1 as [i x prov Hi Hx Hf _ IH Hprov].
  destruct (Hb i Hi x Hx Hf) as [|(n & Hn & Hno)]; [done|]. destruct Hno.
  destruct (Hprov n Hn) as (y & Hy & Hyn). exists (prov n), y. auto.
Qed.

Lemma init_inv_start node_ok m : reg_inv m → init_inv node_ok m m [].
Proof.
  intros Hm. destruct Hm as [H1 H2 H3 H4 H5 [H6 H7]]. rewrite Forall_lookup in H2.
  split; try done.
  - constructor.
  - by intros i ?%elem_of_nil.
  - intros i x _ Hx. rewrite decide_False by (by intros ?%elem_of_nil). unfold is_pending. by rewrite (io_stat _ _ (H2 i x Hx)).
  - intros i x d _ Hx _ Hd. pose proof (io_deps _ _ (H2 i x Hx)) as Hdeps. rewrite Forall_forall in Hdeps.
    destruct (Hdeps d Hd) as [_ ->]. split; [done|]. by intros (j & ? & ?%elem_of_nil & _).
  - intros pre i post x n Heq. by destruct pre.
  - by rewrite app_nil_r.
Qed.

Definition init_fuel (m : nsfw_module_manager_t) : nat :=
  ((length (insts m) + 1) * (2 * length (insts m) + 2))%nat.

Lemma initChild_spec run_init node_ok m fuel :
  reg_inv m → (init_fuel m <= fuel)%nat →
  ∃ r ran m', nstack_framework_initChild_unsafe run_init node_ok fuel None m = Some (r, ran, m') ∧
    ((r = 0 ∧ init_inv node_ok m m' ran ∧ ∀ i, i ∈ insts m → blocked m ran i) ∨
     (r = -1 ∧ init_failed run_init node_ok m m' ran)).
Proof.
  intros Hm Hfuel. unfold nstack_framework_initChild_unsafe.
  destruct (while_fuel_rule (loop_inv run_init node_ok m) (loop_meas m) init_cond (init_step run_init node_ok None)
    (init_step_ok run_init node_ok m (ri_nodup _ Hm) (ri_in _ Hm)) fuel (mk_loop m (insts m) [] None))
    as ([m' cur ran ret] & -> & Hinv & Hc).
  - split; [by apply init_inv_start|]. exists []. split; [done|]. by intros i ?%elem_of_nil.
  - unfold loop_meas. cbn [l_mgr l_cur l_ran]. pose proof (head_depending_le m (insts m)).
    unfold init_fuel in Hfuel. cbn [length]. lia.
  - cbn [mbind option_bind l_ran l_mgr l_ret]. eexists _, ran, m'. split; [done|].
    destruct ret as [r|]; cbn in *.
    + destruct Hinv as [-> Hf]. by right.
    + destruct cur; [|done]. destruct Hinv as (Hi & pre & Hpre & Hb). left. split; [done|]. split; [done|].
      rewrite app_nil_r in Hpre. rewrite Hpre. done.
Qed.

(** ** The report always fits *)

Lemma append_length s t : String.length (String.append s t) = (String.length s + String.length t)%nat.
Proof. induction s as [|a s IH]; [done|]. exact (f_equal S IH). Qed.

Lemma STRCPY_S_fits securec dmax s : Z.of_nat (String.length s) < dmax → STRCPY_S securec dmax s = Some true.
Proof. intros H. unfold STRCPY_S. by rewrite (proj2 (Z.ltb_lt _ _)). Qed.

Lemma info_depends_fits securec info l :
  Forall (λ d, fits (d_name d)) l →
  Z.of_nat (String.length info) + 128 * Z.of_nat (length l) < INFO_SIZE →
  ∃ s, info_depends securec info l = Some (Some s).
Proof.
  revert info. induction l as [|d l IH]; intros info Hl Hn; cbn [info_depends length] in *; [eauto|].
  apply Forall_cons in Hl as [Hd Hl]. unfold fits, NSFW_MAX_STRING_LENGTH in Hd.
  assert (String.length (String.append (d_name d) " ") = (String.length (d_name d) + 1)%nat) as Ha by (rewrite append_length; done).
  rewrite STRCPY_S_fits by lia. cbn [mbind option_bind negb]. apply IH; [done|]. rewrite append_length, Ha. lia.
Qed.

Lemma printInstanceInfo_fits securec m m0 i :
  reg_inv m0 → static <$> module_instance_pool m = static <$> module_instance_pool m0 → i ∈ insts m0 →
  ∃ s, nstack_framework_printInstanceInfo securec m i = Some (Some s).
Proof.
  intros Hm Hst Hi. destruct (reg_inv_lookup m0 i Hm Hi) as (x0 & Hx0 & [Hn _ Hd Htwo Hfa _]).
  destruct (static_lookup _ _ _ _ (eq_sym Hst) Hx0) as (x & Hx & Hs). unfold static in Hs. simplify_eq.
  unfold nstack_framework_printInstanceInfo. rewrite Hx. cbn [mbind option_bind].
  set (fa := match father x with None => _ | Some f => _ end).
  assert (∃ s, fa = Some s ∧ fits s) as (fn & -> & Hfn).
  { unfold fa. destruct (father x) as [f|] eqn:Hf; [|by exists "NULL"].
    destruct (lookup_lt_is_Some_2 (module_instance_pool m0) f) as [y0 Hy0]; [apply Hfa; congruence|].
    destruct (static_lookup _ _ _ _ (eq_sym Hst) Hy0) as (y & Hy & Hsy). rewrite Hy. cbn. exists (i_name y). split; [done|].
    unfold static in Hsy. assert (i_name y = i_name y0) as -> by congruence.
    apply (io_name (length (module_instance_pool m0))). eapply Forall_lookup_1; [apply ri_inst, Hm|done]. }
  cbn [mbind option_bind]. set (info := String.append "Inst:" _).
  assert (String.length info = 22 + String.length (i_name x) + String.length fn)%nat as Hinfo.
  { unfold info. rewrite !append_length. cbn. lia. }
  assert (i_name x0 = i_name x ∧ (d_name <$> depends x0 = d_name <$> depends x)) as [Hnx Hdx] by (split; congruence).
  assert (Hlen : length (depends x) = length (depends x0)) by (rewrite <- (length_fmap d_name), <- Hdx; apply length_fmap).
  rewrite Hnx in Hn. unfold fits, NSFW_MAX_STRING_LENGTH in Hn, Hfn.
  clearbody info. rewrite (STRCPY_S_fits securec INFO_SIZE info) by (unfold INFO_SIZE; lia). cbn [mbind option_bind negb].
  destruct (depends x) as [|d l].
  - rewrite STRCPY_S_fits by (unfold INFO_SIZE; cbn; lia). by eexists.
  - apply info_depends_fits; [|rewrite Hlen; unfold INFO_SIZE; lia].
    rewrite <- (Forall_fmap d_name fits), <- Hdx, Forall_fmap. eapply Forall_impl; [exact Hd|]. by intros ? [? _].
Qed.

Lemma printInitialResult_fits securec m m0 :
  reg_inv m0 → static <$> module_instance_pool m = static <$> module_instance_pool m0 → insts m = insts m0 →
  (∀ i, i ∈ doneHead m → i ∈ insts m0) →
  ∃ r, nstack_framework_printInitialResult securec m = Some r ∧ Forall is_Some r.1 ∧ Forall is_Some r.2.
Proof.
  intros Hm Hst Hins Hdone. unfold nstack_framework_printInitialResult. rewrite Hins.
  assert (∀ l, (∀ i, i ∈ l → i ∈ insts m0) → ∃ r, mapM (nstack_framework_printInstanceInfo securec m) l = Some r ∧ Forall is_Some r) as H1.
  { induction l as [|i l IH]; intros Hl; [by exists []|]. destruct IH as (r & Hr & Hf); [set_solver|].
    destruct (printInstanceInfo_fits securec m m0 i) as (s & Hs); [done..|set_solver|].
    exists (Some s :: r). cbn. rewrite Hs. cbn. rewrite Hr. split; [done|]. by constructor. }
  assert (∀ l, (∀ i, i ∈ l → i ∈ insts m0) → ∃ r, report_undone securec m l = Some r ∧ Forall is_Some r) as H2.
  { induction l as [|i l IH]; intros Hl; [by exists []|]. destruct IH as (r & Hr & Hf); [set_solver|].
    destruct (printInstanceInfo_fits securec m m0 i) as (s & Hs); [done..|set_solver|].
    destruct (reg_inv_lookup m0 i Hm) as (x0 & Hx0 & _); [set_solver|].
    destruct (static_lookup _ _ _ _ (eq_sym Hst) Hx0) as (x & Hx & _).
    cbn. rewrite Hx. cbn. destruct (is_done x); cbn; [by eauto|]. rewrite Hs, Hr. cbn.
    eexists. split; [done|]. by constructor. }
  destruct (H1 (doneHead m) Hdone) as (r1 & -> & Hf1). destruct (H2 (insts m0)) as (r2 & -> & Hf2); [done|].
  by exists (r1, r2).
Qed.

(** ** Properties *)

(** C23: After any registration by constructor functions [nstack_framework_init] returns.  It runs
    every module at most once and after modules of all the names it depends on.  It returns 0 when
    no initialisation function fails, and then the modules it ran are exactly those that can be
    initialised (the least set closed under the recorded dependencies); otherwise it returns -1 and the
    last module it ran is the one that failed.  Calling it again runs nothing and returns the same. *)
Theorem framework_init_correct securec run_init node_ok m locals fuel :
  registering securec m locals → (init_fuel m <= fuel)%nat →
  ∃ r ran m', nstack_framework_init securec run_init node_ok fuel true true m = Some (r, ran, m') ∧
    NoDup ran ∧ dep_ordered (module_instance_pool m) ran ∧
    ((r = 0 ∧ ∀ i, i ∈ ran ↔ initialisable m i) ∨
     (r = -1 ∧ ∃ ran' i x f, ran = ran' ++ [i] ∧ module_instance_pool m !! i = Some x ∧
        fnInit x = Some f ∧ run_init f (param x) ≠ 0)) ∧
    ∀ fuel', nstack_framework_init securec run_init node_ok fuel' true true m' = Some (r, [], m').
Proof.
  intros [Hm _]%registering_inv Hfuel. unfold nstack_framework_init at 1.
  destruct (ri_fresh _ Hm) as [Hd0 Hdh]. rewrite Hd0. cbn [Z.eqb negb].
  destruct (initChild_spec run_init node_ok m fuel Hm Hfuel) as (r & ran & m' & -> & Hcase); cbn [mbind option_bind].
  assert (Hrep : ∃ rep, nstack_framework_printInitialResult securec (set_done m' (if r =? 0 then 1 else -1)) = Some rep).
  { destruct (printInitialResult_fits securec (set_done m' (if r =? 0 then 1 else -1)) m) as (rep & Hrep & _); [done|..|eauto]; cbn.
    - destruct Hcase as [(_ & Hi & _)|(_ & ? & ? & ? & ? & H)]; [apply Hi|apply H].
    - destruct Hcase as [(_ & Hi & _)|(_ & ? & ? & ? & ? & H)]; [apply Hi|apply H].
    - intros i. destruct Hcase as [(_ & Hi & _)|(_ & ran' & k & ? & ? & Heq & _ & _ & _ & _ & _ & _ & Hsub & _ & _ & _ & -> & _)].
      + rewrite (ii_doneHead _ _ _ _ Hi), Hdh. intros [_ Hin]%list_elem_of_filter. by apply (ii_sub _ _ _ _ Hi).
      + rewrite Hdh. intros [_ Hin]%list_elem_of_filter. apply Hsub. set_solver. }
  destruct Hrep as [rep ->]. cbn [mbind option_bind negb]. eexists _, ran, _. split; [done|].
  destruct Hcase as [(-> & Hi & Hb)|(-> & ran' & i & x & f & -> & Hx & Hf & Hrun & _ & _ & Hnd & _ & Hord & _)].
  - split; [apply Hi|]. split; [apply Hi|]. split; [|done]. left. split; [done|].
    intros i. split; [|by apply initialisable_ran]. apply ordered_initialisable; [|apply Hi].
    intros j [Hj Hroot]%(ii_sub _ _ _ _ Hi). split; [done|].
    destruct (reg_inv_lookup m j Hm Hj) as (x & Hx & _). eauto.
  - split; [done|]. split; [done|]. split; [|done]. right. split; [done|]. by exists ran', i, x, f.
Qed.

(** Three modules of three source files: the first depends on the third, and the second, of the
    lowest priority, on a module that is missing. *)
Definition example_attrs : list (nat * module_attr) :=
  [(0, A_name "a"); (0, A_depends "c"); (0, A_initfn 10); (1, A_name "b"); (1, A_priority (-1));
   (1, A_depends "x"); (2, A_name "c"); (2, A_priority 5); (2, A_initfn 12)]%nat.

Fixpoint register_all (securec : bool) (l : list (nat * module_attr)) (m : nsfw_module_manager_t) (locals : gmap nat nat) : option (nsfw_module_manager_t * gmap nat nat) :=
  match l with
  | [] => Some (m, locals)
  | (file, a) :: l =>
      '(i, m) ← NSFW_MODULE_ATTRIBUTE_DEFINE securec m (locals !! file) a;
      register_all securec l m (<[file := i]> locals)
  end.

Lemma register_all_registering securec l m locals m' locals' :
  (securec = false → Forall (λ a, attr_fits a.2) l) → registering securec m locals →
  register_all securec l m locals = Some (m', locals') → registering securec m' locals'.
Proof.
  revert m locals. induction l as [|[file a] l IH]; intros m locals Hfit Hm; cbn [register_all]; [by intros [= <- <-]|].
  destruct (NSFW_MODULE_ATTRIBUTE_DEFINE securec m (locals !! file) a) as [[i m1]|] eqn:Hd; [|done]. cbn [mbind option_bind].
  apply IH.
  - intros Hs. specialize (Hfit Hs). by apply Forall_cons in Hfit as [_ ?].
  - eapply reg_attr; [exact Hm| |exact Hd]. intros Hs. specialize (Hfit Hs). by apply Forall_cons in Hfit as [? _].
Qed.

Definition example_mgr : nsfw_module_manager_t :=
  Eval vm_compute in default (mk_mgr [] 0 [] 0 []) (fst <$> register_all false example_attrs (mk_mgr [] 0 [] 0 []) ∅).
Definition example_locals : gmap nat nat :=
  Eval vm_compute in default ∅ (snd <$> register_all false example_attrs (mk_mgr [] 0 [] 0 []) ∅).

Lemma example_registering : registering false example_mgr example_locals.
Proof.
  apply (register_all_registering false example_attrs (mk_mgr [] 0 [] 0 []) ∅).
  - intros _. repeat constructor.
  - constructor.
  - vm_compute. reflexivity.
Qed.

Lemma framework_init_correct_witness :
  insts example_mgr = [1; 0; 2]%nat ∧
  ∃ r ran m', nstack_framework_init false (λ _ _, 0) (λ _, true) 32 true true example_mgr = Some (r, ran, m') ∧
    ran = [2; 0]%nat ∧ NoDup ran.
Proof.
  split; [reflexivity|].
  destruct (framework_init_correct false (λ _ _, 0) (λ _, true) example_mgr example_locals 32 example_registering)
    as (r & ran & m' & Hrun & Hnd & _); [vm_compute; lia|].
  exists r, ran, m'. split; [exact Hrun|]. split; [|exact Hnd].
  vm_compute in Hrun. congruence.
Defined.

(** Every state that constructor functions reach keeps the registration invariant: the pool is within
    its size, the manager's list has every module once, in ascending priority, every name fits its
    buffer; and every further attribute is defined as long as a new source file finds a free instance. *)
Lemma registration_invariant securec m locals file a :
  registering securec m locals →
  reg_inv m ∧
  ((securec = false → attr_fits a) →
   (locals !! file = None → Z.of_nat (length (module_instance_pool m)) < NSFW_MODULE_INSTANCE_POOL_SIZE) →
   ∃ i m', NSFW_MODULE_ATTRIBUTE_DEFINE securec m (locals !! file) a = Some (i, m') ∧ reg_inv m' ∧ i ∈ insts m').
Proof.
  intros [Hm Hl]%registering_inv. split; [done|]. intros Ha Hn.
  destruct (attribute_spec securec m (locals !! file) a) as (i & m' & H1 & H2 & H3 & _); eauto.
Qed.

Lemma registration_invariant_witness :
  reg_inv example_mgr ∧ ∃ i m', NSFW_MODULE_ATTRIBUTE_DEFINE false example_mgr None (A_name "d") = Some (i, m') ∧ reg_inv m'.
Proof.
  destruct (registration_invariant false example_mgr example_locals 7 (A_name "d") example_registering) as [H1 H2].
  split; [exact H1|].
  destruct H2 as (i & m' & H3 & H4 & _); [intros _; exact eq_refl|intros _; vm_compute; reflexivity|].
  exists i, m'. split; [exact H3|exact H4].
Defined.

(** A third dependency replaces the second one: the new node becomes the successor of the first
    node and what followed it is lost, so the module can be initialised before it. *)
Lemma third_dependency_drops_second securec m i x d1 d2 n :
  module_instance_pool m !! i = Some x → depends x = [d1; d2] →
  d_name d1 ≠ n → d_name d2 ≠ n → fits n → deps_last_idx m < NSFW_MODULE_DEPENDS_POOL_SIZE →
  ∃ m', nsfw_module_set_instance_depends securec m (Some i) (Some n) = Some m' ∧
    depends <$> module_instance_pool m' !! i = Some [d1; mk_dep n false].
Proof.
  intros Hx Hd H1 H2 Hn Hidx. unfold nsfw_module_set_instance_depends. rewrite Hx. cbn [mbind option_bind].
  rewrite Hd. cbn [existsb]. apply String.eqb_neq in H1, H2. rewrite H1, H2. cbn [orb].
  unfold nsfw_module_create_depends, nsfw_module_malloc_depends.
  destruct (Z.leb_spec NSFW_MODULE_DEPENDS_POOL_SIZE (deps_last_idx m)); [lia|]. cbn [negb].
  rewrite STRCPY_S_fits by done. cbn [mbind option_bind].
  rewrite (inst_upd_Some (set_deps_idx m _) i x) by done. eexists. split; [done|]. cbn.
  rewrite list_lookup_insert_eq by (by eapply lookup_lt_Some). cbn. by rewrite Hd.
Qed.

Lemma third_dependency_drops_second_witness :
  ∃ m', nsfw_module_set_instance_depends false
      (mk_mgr [mk_inst None "m" "" 0 [mk_dep "a" false; mk_dep "b" false] NSFW_INST_STAT_CHECKING 0 None] 2 [0%nat] 0 [])
      (Some 0%nat) (Some "c") = Some m' ∧
    depends <$> module_instance_pool m' !! 0%nat = Some [mk_dep "a" false; mk_dep "c" false].
Proof.
  eapply third_dependency_drops_second; [reflexivity|reflexivity|discriminate|discriminate|vm_compute; reflexivity|vm_compute; reflexivity].
Defined.
