(* ===== verification/RbTreeLocal.v ===== *)
(** * The operations on a tree leave the rest of the memory alone

    Several trees share the memory of nodes.  [local]: an operation that is defined on a part of the memory does the same
    on the whole memory and leaves the other part as it was.  Every operation of [RbTree] is local, so its theorems hold for
    each tree of a memory with many. *)
From S2P Require Import Prelude.
From S2P Require Import RbTree.
From S2P Require Import RbTreeProofs.
From S2P Require Import RbTreeInsert.
From S2P Require Import RbTreeErase.
From S2P Require Import RbTreeProps.

(** [s] has the nodes [D]; [S] is [s] with the memory [mf] besides. *)
Definition frames (D : gset Z) (mf : gmap Z ep_rb_node) (s S : rb_tree) : Prop :=
  dom (rb_nodes s) = D ∧ rb_nodes s ##ₘ mf ∧ rb_nodes S = rb_nodes s ∪ mf ∧ rb_node S = rb_node s.

(** What is defined on the left is defined on the right, with a related result. *)
Definition orel {A B} (R : A → B → Prop) (o1 : option A) (o2 : option B) : Prop := ∀ a, o1 = Some a → ∃ b, o2 = Some b ∧ R a b.

Lemma orel_bind {A B C D} (R : A → B → Prop) (R' : C → D → Prop) o1 o2 (k1 : A → option C) (k2 : B → option D) :
  orel R o1 o2 → (∀ a b, R a b → orel R' (k1 a) (k2 b)) → orel R' (o1 ≫= k1) (o2 ≫= k2).
Proof.
  intros H1 H2 c. destruct o1 as [a|]; [|done]. destruct (H1 a eq_refl) as (b & -> & Hab). cbn. by apply H2.
Qed.
Lemma orel_ret {A B} (R : A → B → Prop) a b : R a b → orel R (Some a) (Some b).
Proof. intros HR a' [= <-]. eauto. Qed.
Lemma orel_none {A B} (R : A → B → Prop) o : orel R None o.
Proof. by intros a. Qed.
Lemma orel_refl {A} (o : option A) : orel eq o o.
Proof. intros a ->. eauto. Qed.

Section frame.
Context (D : gset Z) (mf : gmap Z ep_rb_node).
Implicit Types s S : rb_tree.

Lemma frames_lookup s S x n : frames D mf s S → rb_nodes s !! x = Some n → rb_nodes S !! x = Some n.
Proof. intros (_ & _ & -> & _) Hx. by apply lookup_union_Some_l. Qed.

Lemma orel_get {A} (f : ep_rb_node → A) s S x : frames D mf s S → orel eq (rb_get f s x) (rb_get f S x).
Proof.
  intros HF v. unfold rb_get. destruct (rb_nodes s !! x) as [n|] eqn:Hx; [|done]. rewrite (frames_lookup _ _ _ _ HF Hx). eauto.
Qed.

Lemma orel_upd f s S x : frames D mf s S → orel (frames D mf) (rb_upd f s x) (rb_upd f S x).
Proof.
  intros HF s'. unfold rb_upd. destruct (rb_nodes s !! x) as [n|] eqn:Hx; [|done]. rewrite (frames_lookup _ _ _ _ HF Hx). cbn. intros [= <-].
  eexists. split; [done|]. destruct HF as (HD & Hd & -> & ->). split; [|split; [|split; [|done]]]; cbn.
  - rewrite dom_insert_lookup_L; [done|eauto].
  - apply map_disjoint_insert_l_2; [|done]. by apply (map_disjoint_Some_l _ _ _ _ Hd Hx).
  - by rewrite insert_union_l.
Qed.

Lemma frames_root v s S : frames D mf s S → frames D mf (set_root v s) (set_root v S).
Proof. intros (H1 & H2 & H3 & _). done. Qed.

(** States with a result besides. *)
Definition framed {A} (p q : rb_tree * A) : Prop := frames D mf p.1 q.1 ∧ p.2 = q.2.
End frame.

Create HintDb local.
#[export] Hint Resolve orel_get orel_upd frames_root orel_refl orel_none : local.

(** Follows the structure of an operation in both memories. *)
Ltac local_step :=
  lazymatch goal with
  | |- ∀ _, _ => intros ?
  | H : eq ?a ?b |- _ => is_var b; subst b
  | H : framed _ _ ?p ?q |- _ => destruct p as [? ?], q as [? ?], H as [? ?]; cbn [fst snd] in *
  | H : frames _ _ ?s ?S |- context [rb_node ?S] => rewrite (proj2 (proj2 (proj2 H)))
  | |- orel _ (Some _ ≫= _) _ => cbn [mbind option_bind]
  | H : frames ?D ?mf _ _ |- orel _ (_ ≫= _) (_ ≫= _) =>
      first [ eapply orel_bind; [solve [eauto with local]|]
            | eapply (orel_bind (frames D mf)); [solve [repeat local_step; eauto with local]|]
            | eapply (orel_bind (framed D mf)); [solve [repeat local_step; eauto with local]|]
            | eapply (orel_bind eq); [solve [repeat local_step; eauto with local]|] ]
  | |- orel _ (Some _) (Some _) => apply orel_ret
  | |- orel _ (if ?b then _ else _) _ => destruct b
  | |- orel _ (match ?x with _ => _ end) _ => destruct x
  | |- framed _ _ (_, _) (_, _) => split; cbn [fst snd]
  end.
Ltac local := repeat local_step; eauto with local.

Section ops.
Context (D : gset Z) (mf : gmap Z ep_rb_node).

Lemma leftmost_local fuel s S n : frames D mf s S → orel eq (leftmost fuel s n) (leftmost fuel S n).
Proof. intros HF. revert n. induction fuel as [|fuel IH]; intros n; cbn [leftmost]; local. Qed.

Lemma replace_local d s S p x v : frames D mf s S → orel (frames D mf) (replace_in_parent d s p x v) (replace_in_parent d S p x v).
Proof. intros HF. unfold replace_in_parent. local. Qed.
#[local] Hint Resolve leftmost_local replace_local : local.

Lemma rotate_local d s S X : frames D mf s S → orel (frames D mf) (rb_rotate d s X) (rb_rotate d S X).
Proof. intros HF. unfold rb_rotate. local. Qed.
#[local] Hint Resolve rotate_local : local.

Lemma parent_local s S X : frames D mf s S → orel eq (EP_RBTREE_PARENT s X) (EP_RBTREE_PARENT S X).
Proof. intros HF. unfold EP_RBTREE_PARENT. local. Qed.
#[local] Hint Resolve parent_local : local.
Lemma grandf_local s S X : frames D mf s S → orel eq (EP_RBTREE_GRANDF s X) (EP_RBTREE_GRANDF S X).
Proof. intros HF. unfold EP_RBTREE_GRANDF. local. Qed.
#[local] Hint Resolve grandf_local : local.

Lemma insert_finish_local d s S X : frames D mf s S → orel (frames D mf) (insert_finish d s X) (insert_finish d S X).
Proof. intros HF. unfold insert_finish. local. Qed.
#[local] Hint Resolve insert_finish_local : local.

Lemma insert_side_local d s S X : frames D mf s S → orel (framed D mf) (insert_side d s X) (insert_side d S X).
Proof. intros HF. unfold insert_side. local. Qed.
#[local] Hint Resolve insert_side_local : local.

Lemma insert_step_local s S X : frames D mf s S → orel (framed D mf) (insert_step s X) (insert_step S X).
Proof. intros HF. unfold insert_step. local. Qed.
#[local] Hint Resolve insert_step_local : local.

Lemma insert_loop_local fuel s S X : frames D mf s S → orel (frames D mf) (insert_loop fuel s X) (insert_loop fuel S X).
Proof. revert s S X. induction fuel as [|fuel IH]; intros s S X HF; cbn [insert_loop]; local. Qed.
#[local] Hint Resolve insert_loop_local : local.

Lemma insert_color_local fuel s S X : frames D mf s S → orel (frames D mf) (ep_rb_insert_color fuel s X) (ep_rb_insert_color fuel S X).
Proof. intros HF. unfold ep_rb_insert_color. local. Qed.
#[local] Hint Resolve insert_color_local : local.

Lemma link_load_local s S p : frames D mf s S → orel eq (link_load s p) (link_load S p).
Proof. intros HF. unfold link_load. local. Qed.
Lemma link_store_local s S p v : frames D mf s S → orel (frames D mf) (link_store s p v) (link_store S p v).
Proof. intros HF. unfold link_store. local. Qed.
#[local] Hint Resolve link_load_local link_store_local : local.
Lemma link_node_local s S x p l : frames D mf s S → orel (frames D mf) (ep_rb_link_node s x p l) (ep_rb_link_node S x p l).
Proof. intros HF. unfold ep_rb_link_node. local. Qed.
#[local] Hint Resolve link_node_local : local.

Lemma insert_walk_local n fd s S x p par : frames D mf s S → orel eq (insert_walk n fd s x p par) (insert_walk n fd S x p par).
Proof. intros HF. revert p par. induction n as [|n IH]; intros p par; cbn [insert_walk]; local. Qed.
#[local] Hint Resolve insert_walk_local : local.

Lemma rbtree_insert_local fuel fd s S x : frames D mf s S → orel (frames D mf) (nsep_rbtree_insert fuel fd s x) (nsep_rbtree_insert fuel fd S x).
Proof. intros HF. unfold nsep_rbtree_insert. local. Qed.

Lemma null_or_black_local s S p : frames D mf s S → orel eq (null_or_black s p) (null_or_black S p).
Proof. intros HF. unfold null_or_black. local. Qed.
#[local] Hint Resolve null_or_black_local : local.

Lemma erase_finish_local d s S P W : frames D mf s S → orel (frames D mf) (erase_finish d s P W) (erase_finish d S P W).
Proof. intros HF. unfold erase_finish. local. Qed.
#[local] Hint Resolve erase_finish_local : local.

Lemma erase_black_local d s S P W : frames D mf s S → orel (framed D mf) (erase_black d s P W) (erase_black d S P W).
Proof. intros HF. unfold erase_black. local. Qed.
#[local] Hint Resolve erase_black_local : local.

Lemma erase_side_local d s S P : frames D mf s S → orel (framed D mf) (erase_side d s P) (erase_side d S P).
Proof. intros HF. unfold erase_side. local. Qed.
#[local] Hint Resolve erase_side_local : local.

Lemma erase_loop_local fuel s S X P : frames D mf s S → orel (framed D mf) (erase_loop fuel s X P) (erase_loop fuel S X P).
Proof. revert s S X P. induction fuel as [|fuel IH]; intros s S X P HF; cbn [erase_loop]; local. Qed.
#[local] Hint Resolve erase_loop_local : local.

Lemma erase_color_local fuel s S X P : frames D mf s S → orel (frames D mf) (ep_rb_erase_color fuel s X P) (ep_rb_erase_color fuel S X P).
Proof. intros HF. unfold ep_rb_erase_color. local. Qed.
#[local] Hint Resolve erase_color_local : local.

Lemma erase_move_local s S x y c p : frames D mf s S → orel (framed D mf) (erase_move s x y c p) (erase_move S x y c p).
Proof. intros HF. unfold erase_move. local. Qed.
Lemma erase_adopt_local s S x y : frames D mf s S → orel (frames D mf) (erase_adopt s x y) (erase_adopt S x y).
Proof. intros HF. unfold erase_adopt. local. Qed.
#[local] Hint Resolve erase_move_local erase_adopt_local : local.

Lemma erase_swap_local fuel s S x r : frames D mf s S → orel (framed D mf) (erase_swap fuel s x r) (erase_swap fuel S x r).
Proof. intros HF. unfold erase_swap. local. Qed.
Lemma erase_cut_local s S x c : frames D mf s S → orel (framed D mf) (erase_cut s x c) (erase_cut S x c).
Proof. intros HF. unfold erase_cut. local. Qed.
#[local] Hint Resolve erase_swap_local erase_cut_local : local.

Lemma erase_local fuel s S x : frames D mf s S → orel (frames D mf) (ep_rb_erase fuel s x) (ep_rb_erase fuel S x).
Proof. intros HF. unfold ep_rb_erase. local. Qed.
End ops.

(** ** One tree of a memory with many *)

(** The part of the memory with the nodes [X]. *)
Definition part (X : list Z) (s : rb_tree) : rb_tree := mk_rbt (filter (λ '(y, _), y ∈ X) (rb_nodes s)) (rb_node s).
Definition rest (X : list Z) (s : rb_tree) : gmap Z ep_rb_node := filter (λ '(y, _), y ∉ X) (rb_nodes s).

Lemma part_lookup X s y : y ∈ X → rb_nodes (part X s) !! y = rb_nodes s !! y.
Proof. intros Hy. cbn. rewrite map_lookup_filter. destruct (rb_nodes s !! y); cbn; [|done]. by rewrite option_guard_True. Qed.

Lemma part_frames X s : frames (dom (rb_nodes (part X s))) (rest X s) (part X s) s.
Proof.
  split; [done|]. split; [apply map_disjoint_filter_complement|]. split; [|done]. symmetry. apply map_filter_union_complement.
Qed.

Lemma frames_outside X D s S S' y : frames D (rest X S) s S' → D ⊆ list_to_set X → y ∉ X → rb_nodes S' !! y = rb_nodes S !! y.
Proof.
  intros (HD & _ & -> & _) HX Hy. rewrite lookup_union_r.
  - unfold rest. rewrite map_lookup_filter. destruct (rb_nodes S !! y); cbn; [|done]. by rewrite option_guard_True.
  - apply not_elem_of_dom. rewrite HD. set_solver.
Qed.

Lemma frames_dom D mf s S : frames D mf s S → dom (rb_nodes S) = D ∪ dom mf.
Proof. intros (<- & _ & -> & _). by rewrite dom_union_L. Qed.

Lemma part_dom X s : dom (rb_nodes (part X s)) ⊆ (list_to_set X : gset Z).
Proof. intros y [n Hn]%elem_of_dom. cbn in Hn. apply map_lookup_filter_Some in Hn. set_solver. Qed.

Lemma tree_inv_ext fd s s' l : (∀ y, y ∈ l → rb_nodes s' !! y = rb_nodes s !! y) → rb_node s' = rb_node s → tree_inv fd s l → tree_inv fd s' l.
Proof.
  intros Hy Hr (Hs & t & [H1 H2 H3] & Hb & <-). split; [done|]. exists t. split; [|done]. split; [congruence| |done]. by apply (rep_ext (rb_nodes s)).
Qed.

Lemma tree_inv_frames fd D mf s S l : frames D mf s S → tree_inv fd s l → tree_inv fd S l.
Proof.
  intros HF (Hs & t & [H1 H2 H3] & Hb & <-). split; [done|]. exists t. split; [|done]. split; [rewrite (proj2 (proj2 (proj2 HF))); done| |done].
  revert H2. generalize (None : option Z). clear -HF. induction t as [|c l IHl x r IHr]; intros p; cbn; [done|]. intros ((n & Hn & Hrest) & H2 & H3). split; [|auto].
  exists n. split; [by apply (frames_lookup _ _ _ _ _ _ HF)|done].
Qed.

Lemma tree_op_frame fuel fd s l o (X : list Z) : tree_inv fd s l → tree_op_ok fd s l o → (rounds (length l) <= fuel)%nat → (∀ y, y ∈ l → y ∈ X) → (match o with Ins x => x ∈ X | Del _ => True end) →
  ∃ s', tree_do fuel fd s o = Some s' ∧ tree_inv fd s' (tseq_do fd l o) ∧ dom (rb_nodes s') = dom (rb_nodes s) ∧ ∀ y, y ∉ X → rb_nodes s' !! y = rb_nodes s !! y.
Proof.
  intros Hi Hok Hfu Hl Hx. assert (Hi' : tree_inv fd (part X s) l) by (apply (tree_inv_ext fd s); [intros y Hy; by apply part_lookup, Hl|done|done]).
  assert (Hok' : tree_op_ok fd (part X s) l o) by (destruct o; cbn [tree_op_ok] in *; [by rewrite part_lookup|done]).
  assert (∃ s1, tree_do fuel fd (part X s) o = Some s1 ∧ tree_inv fd s1 (tseq_do fd l o)) as (s1 & Hdo & Hi1) by
    (destruct o; [by apply insert_ok|by apply erase_ok]). pose proof (part_frames X s) as HF.
  assert (∃ s', tree_do fuel fd s o = Some s' ∧ frames (dom (rb_nodes (part X s))) (rest X s) s1 s') as (s' & -> & HF').
  { destruct o; cbn [tree_do] in *; [by eapply rbtree_insert_local|by eapply erase_local]. }
  exists s'. split; [done|]. split; [by eapply tree_inv_frames|]. split; [by rewrite (frames_dom _ _ _ _ HF), (frames_dom _ _ _ _ HF')|]. intros y Hy. eapply frames_outside; [done|apply part_dom|done].
Qed.
