(* ===== verification/EpList.v ===== *)
(** * The lists of the epoll code (src/src/framework/common/include/ephlist.h)

    [ep_hlist]: a list with a tail pointer whose nodes point back at the link that holds them; the link is the first
    field of a node, so that the code uses the address of the link as the address of the previous node.  [ep_list]: a singly linked list that is walked
    for every change.  Both begin with a node of their own.  A node is named by the address of the object that has it. *)
From S2P Require Import Prelude.

(** ** Lists with a tail pointer *)

Record ep_hlist_node := mk_hn { hn_next : option Z; hn_pprev : option Z }.
Record ep_hlist := mk_ehl { hl_head : option Z; hl_tail : option Z }.

Abbreviation hmem := (gmap Z ep_hlist_node).

Definition hn_get {A} (f : ep_hlist_node → A) (m : hmem) (x : Z) : option A := n ← m !! x; Some (f n).
Definition hn_set_next (v : option Z) (m : hmem) (x : Z) : option hmem := n ← m !! x; Some (<[x := mk_hn v (hn_pprev n)]> m).
Definition hn_set_pprev (v : option Z) (m : hmem) (x : Z) : option hmem := n ← m !! x; Some (<[x := mk_hn (hn_next n) v]> m).

Definition EP_HLIST_INIT_NODE (m : hmem) (x : Z) : option hmem := m ← hn_set_next None m x; hn_set_pprev None m x.
(** [x]: the list's own node. *)
Definition EP_HLIST_INIT (m : hmem) (x : Z) : option (hmem * ep_hlist) :=
  m ← EP_HLIST_INIT_NODE m x; Some (m, mk_ehl (Some x) (Some x)).

Definition EP_HLIST_EMPTY (m : hmem) (l : ep_hlist) : option bool :=
  h ← hl_head l; n ← hn_get hn_next m h; Some (bool_decide (n = None)).
Definition EP_HLIST_NODE_LINKED (m : hmem) (x : Z) : option bool :=
  p ← hn_get hn_pprev m x; Some (negb (bool_decide (p = None))).

Definition ep_hlist_del (m : hmem) (l : ep_hlist) (n : Z) : option (hmem * ep_hlist) :=
  linked ← EP_HLIST_NODE_LINKED m n;
  if negb linked then Some (m, l)
  else
    p ← hn_get hn_pprev m n; p ← p; nx ← hn_get hn_next m n;
    m ← hn_set_next nx m p;
    nx ← hn_get hn_next m n; pp ← hn_get hn_pprev m n;
    '(m, l) ← match nx with
              | Some x => m ← hn_set_pprev pp m x; Some (m, l)
              | None => Some (m, mk_ehl (hl_head l) pp)
              end;
    m ← EP_HLIST_INIT_NODE m n; Some (m, l).

Definition ep_hlist_add_tail (m : hmem) (l : ep_hlist) (node : Z) : option (hmem * ep_hlist) :=
  tail ← hl_tail l;
  m ← EP_HLIST_INIT_NODE m node;
  m ← hn_set_pprev (Some tail) m node;
  m ← hn_set_next (Some node) m tail;
  Some (m, mk_ehl (hl_head l) (Some node)).

(** ** Singly linked lists *)

Abbreviation lmem := (gmap Z (option Z)).

(** The walk from [node] to [n] (or to the end): the node before the last one visited, and that one. *)
Fixpoint ep_list_walk (fuel : nat) (m : lmem) (n prev node : option Z) : option (option Z * option Z) :=
  match node with
  | None => Some (prev, None)
  | Some x =>
      if bool_decide (Some x = n) then Some (prev, Some x)
      else match fuel with
      | O => None
      | S fuel => nx ← m !! x; ep_list_walk fuel m n (Some x) nx
      end
  end.

Definition ep_list_del (fuel : nat) (m : lmem) (head : option Z) (n : Z) : option lmem :=
  '(p_prev, p_node) ← ep_list_walk fuel m (Some n) None head;
  match p_node, p_prev with
  | Some _, Some p =>
      nx ← m !! n; _ ← m !! p; let m := <[p := nx]> m in
      _ ← m !! n; Some (<[n := None]> m)
  | _, _ => Some m
  end.

Definition ep_list_add_tail (fuel : nat) (m : lmem) (head : option Z) (node : Z) : option lmem :=
  '(p_prev, _) ← ep_list_walk fuel m None None head;
  match p_prev with
  | None => Some m
  | Some p => _ ← m !! node; let m := <[node := None]> m in _ ← m !! p; Some (<[p := Some node]> m)
  end.

(** ** The sequence of a list *)

(** The nodes after [p]. *)
Fixpoint hchain (m : hmem) (p : Z) (xs : list Z) : Prop :=
  match xs with
  | [] => hn_get hn_next m p = Some None
  | x :: xs => hn_get hn_next m p = Some (Some x) ∧ hn_get hn_pprev m x = Some (Some p) ∧ hchain m x xs
  end.

Fixpoint ep_last (h : Z) (xs : list Z) : Z := match xs with [] => h | x :: xs => ep_last x xs end.

Record ehlist (m : hmem) (l : ep_hlist) (h : Z) (xs : list Z) : Prop := {
  eh_head : hl_head l = Some h;
  eh_tail : hl_tail l = Some (ep_last h xs);
  eh_nodup : NoDup (h :: xs);
  eh_chain : hchain m h xs
}.

Lemma hn_get_Some {A} (f : ep_hlist_node → A) m x v : hn_get f m x = Some v ↔ ∃ n, m !! x = Some n ∧ f n = v.
Proof. unfold hn_get. destruct (m !! x) as [n|]; cbn; naive_solver. Qed.

Lemma hn_get_ext {A} (f : ep_hlist_node → A) m m' x : m' !! x = m !! x → hn_get f m' x = hn_get f m x.
Proof. unfold hn_get. by intros ->. Qed.

Lemma hn_get_insert {A} (f : ep_hlist_node → A) m x y n : hn_get f (<[y := n]> m) x = if decide (x = y) then Some (f n) else hn_get f m x.
Proof.
  unfold hn_get. destruct (decide (x = y)) as [->|Hne]; [by rewrite lookup_insert_eq|by rewrite lookup_insert_ne].
Qed.

(** The links along [xs], without what follows. *)
Fixpoint hpath (m : hmem) (p : Z) (xs : list Z) : Prop :=
  match xs with
  | [] => True
  | x :: xs => hn_get hn_next m p = Some (Some x) ∧ hn_get hn_pprev m x = Some (Some p) ∧ hpath m x xs
  end.

Lemma ep_last_app h l1 l2 : ep_last h (l1 ++ l2) = ep_last (ep_last h l1) l2.
Proof. revert h. induction l1 as [|x l1 IH]; intros h; [done|]. apply IH. Qed.

Lemma hchain_app m p l1 l2 : hchain m p (l1 ++ l2) ↔ hpath m p l1 ∧ hchain m (ep_last p l1) l2.
Proof.
  revert p. induction l1 as [|x l1 IH]; intros p; cbn [app hchain hpath]; [by split; [|intros [_ ?]]|].
  rewrite IH. cbn [ep_last]. tauto.
Qed.

Lemma ep_hpath_app m p l1 l2 : hpath m p (l1 ++ l2) ↔ hpath m p l1 ∧ hpath m (ep_last p l1) l2.
Proof.
  revert p. induction l1 as [|x l1 IH]; intros p; cbn [app hpath]; [by split; [|intros [_ ?]]|].
  rewrite IH. cbn [ep_last]. tauto.
Qed.

Lemma ep_last_in h xs : ep_last h xs ∈ h :: xs.
Proof.
  revert h. induction xs as [|x xs IH]; intros h; [left|]. right. apply (IH x).
Qed.

(** What the links of a chain read: the next field of all but the last node, the back pointers of all but the first. *)
Lemma ep_hpath_ext m m' p xs :
  (∀ y, y ∈ p :: xs → hn_get hn_next m' y = hn_get hn_next m y ∨ y = ep_last p xs) →
  (∀ y, y ∈ xs → hn_get hn_pprev m' y = hn_get hn_pprev m y) → NoDup (p :: xs) → hpath m p xs → hpath m' p xs.
Proof.
  revert p. induction xs as [|x xs IH]; intros p Hn Hp Hnd; [done|]. cbn [hpath]. intros (H1 & H2 & H3).
  apply NoDup_cons in Hnd as [Hx Hnd]. cbn [ep_last] in Hn. split; [|split].
  - destruct (Hn p) as [->|Hp']; [left|done|]. exfalso. apply Hx. rewrite Hp'. apply ep_last_in.
  - rewrite Hp by left. done.
  - apply IH; [|by intros y Hy; apply Hp; right|done|done]. intros y Hy. apply Hn. by right.
Qed.

Lemma hchain_ext m m' p xs :
  (∀ y, y ∈ p :: xs → hn_get hn_next m' y = hn_get hn_next m y) →
  (∀ y, y ∈ xs → hn_get hn_pprev m' y = hn_get hn_pprev m y) → hchain m p xs → hchain m' p xs.
Proof.
  revert p. induction xs as [|x xs IH]; intros p Hn Hp; cbn [hchain]; [rewrite Hn by left; done|]. intros (H1 & H2 & H3).
  rewrite Hn, Hp by left. split; [done|]. split; [done|]. apply IH; [|by intros y Hy; apply Hp; right|done]. intros y Hy. apply Hn. by right.
Qed.

Lemma hchain_alloc m p xs y : hchain m p xs → y ∈ p :: xs → is_Some (m !! y).
Proof.
  revert p. induction xs as [|x xs IH]; intros p; cbn [hchain].
  - intros (n & Hn & _)%hn_get_Some ->%list_elem_of_singleton. eauto.
  - intros ((n & Hn & _)%hn_get_Some & _ & H3) [->|Hy]%elem_of_cons; [eauto|by apply (IH x)].
Qed.

(** ** The operations *)

Lemma init_node_eq m x n : m !! x = Some n → EP_HLIST_INIT_NODE m x = Some (<[x := mk_hn None None]> m).
Proof.
  intros Hn. unfold EP_HLIST_INIT_NODE, hn_set_next, hn_set_pprev. rewrite Hn. cbn. rewrite lookup_insert_eq. cbn. by rewrite insert_insert_eq.
Qed.

Lemma ep_hlist_init_spec m x : is_Some (m !! x) →
  ∃ m' l, EP_HLIST_INIT m x = Some (m', l) ∧ ehlist m' l x [] ∧ ∀ y, y ≠ x → m' !! y = m !! y.
Proof.
  intros [n Hn]. unfold EP_HLIST_INIT. rewrite (init_node_eq _ _ _ Hn). cbn. eexists _, _. split; [done|]. split.
  - split; [done|done|by apply NoDup_singleton|]. cbn. by rewrite hn_get_insert, decide_True.
  - intros y Hy. by apply lookup_insert_ne.
Qed.

Lemma ep_hlist_empty_spec m l h xs : ehlist m l h xs → EP_HLIST_EMPTY m l = Some (match xs with [] => true | _ => false end).
Proof.
  intros [Hh _ _ Hc]. unfold EP_HLIST_EMPTY. rewrite Hh. cbn [mbind option_bind]. destruct xs as [|x xs]; cbn in Hc; [rewrite Hc|destruct Hc as [-> _]]; done.
Qed.

Lemma ep_hlist_add_tail_spec m l h xs x : ehlist m l h xs → x ∉ h :: xs → is_Some (m !! x) →
  ∃ m' l', ep_hlist_add_tail m l x = Some (m', l') ∧ ehlist m' l' h (xs ++ [x]) ∧ ∀ y, y ∉ x :: h :: xs → m' !! y = m !! y.
Proof.
  intros [Hh Ht Hnd Hc] Hx [nx Hnx]. unfold ep_hlist_add_tail. rewrite Ht. cbn [mbind option_bind]. rewrite (init_node_eq _ _ _ Hnx). cbn [mbind option_bind].
  pose proof (ep_last_in h xs) as Hin. set (t := ep_last h xs) in *. assert (t ≠ x) by (intros <-; done).
  unfold hn_set_pprev. rewrite lookup_insert_eq. cbn [mbind option_bind hn_next]. rewrite insert_insert_eq.
  destruct (hchain_alloc _ _ _ t Hc Hin) as [nt Hnt]. unfold hn_set_next. rewrite lookup_insert_ne, Hnt by done. cbn [mbind option_bind].
  eexists _, _. split; [done|]. split; [split|].
  - done.
  - cbn. by rewrite ep_last_app.
  - rewrite app_comm_cons. apply NoDup_app. split; [done|]. split; [|apply NoDup_singleton]. intros y Hy ->%list_elem_of_singleton. done.
  - rewrite <- (app_nil_r xs) in Hc. apply hchain_app in Hc as [Hc _]. apply hchain_app. split.
    + eapply ep_hpath_ext; [..|exact Hc]; [| |done]; intros y Hy; rewrite !hn_get_insert.
      * destruct (decide (y = t)) as [->|]; [by right|]. rewrite decide_False by set_solver. by left.
      * destruct (decide (y = t)) as [->|]; [symmetry; unfold hn_get; by rewrite Hnt|]. by rewrite decide_False by set_solver.
    + cbn. rewrite !hn_get_insert. fold t. rewrite (decide_True (P := t = t)) by done. rewrite !(decide_False (P := x = t)), !(decide_True (P := x = x)) by done. done.
  - intros y Hy. rewrite !lookup_insert_ne by set_solver. done.
Qed.

Lemma ep_hlist_linked_spec m l h xs x : ehlist m l h xs → x ∈ xs → EP_HLIST_NODE_LINKED m x = Some true.
Proof.
  intros [_ _ _ Hc] Hx. unfold EP_HLIST_NODE_LINKED. revert h Hc. induction xs as [|y xs IH]; [by apply elem_of_nil in Hx|].
  intros h (_ & Hp & Hc). apply elem_of_cons in Hx as [->|Hx]; [by rewrite Hp|by apply (IH Hx y)].
Qed.

Lemma ep_hlist_del_spec m l h l1 x l2 : ehlist m l h (l1 ++ x :: l2) →
  ∃ m' l', ep_hlist_del m l x = Some (m', l') ∧ ehlist m' l' h (l1 ++ l2) ∧ m' !! x = Some (mk_hn None None) ∧
    ∀ y, y ∉ h :: l1 ++ x :: l2 → m' !! y = m !! y.
Proof.
  intros Hl. pose proof (ep_hlist_linked_spec _ _ _ _ x Hl ltac:(set_solver)) as Hlk. destruct Hl as [Hh Ht Hnd Hc].
  unfold ep_hlist_del. rewrite Hlk. cbn [mbind option_bind negb]. apply hchain_app in Hc as [Hp Hc]. cbn in Hc. destruct Hc as (Hpn & Hxp & Hc).
  set (p := ep_last h l1) in *. assert (Hpin : p ∈ h :: l1) by apply ep_last_in.
  assert (Hnd' : NoDup (x :: (h :: l1) ++ l2)) by (rewrite Permutation_middle; exact Hnd). apply NoDup_cons in Hnd' as [Hx Hnd']. assert (p ≠ x) by set_solver.
  rewrite Hxp. cbn [mbind option_bind]. pose proof Hpn as (np & Hnp & _)%hn_get_Some. pose proof Hxp as (nx & Hnx & Hnxp)%hn_get_Some.
  assert (hn_get hn_next m x = Some (list.head l2)) as Hxn by (destruct l2; cbn in Hc; [done|by destruct Hc as [-> _]]).
  rewrite Hxn. cbn [mbind option_bind]. unfold hn_set_next at 1. rewrite Hnp. cbn [mbind option_bind].
  rewrite !hn_get_insert, !decide_False, Hxn, Hxp by done. cbn [mbind option_bind]. set (m1 := <[p := _]> m).
  destruct l2 as [|z l2]; cbn [list.head mbind option_bind].
  - rewrite (init_node_eq _ x nx) by (unfold m1; by rewrite lookup_insert_ne). cbn [mbind option_bind]. eexists _, _. split; [done|].
    rewrite app_nil_r in *. split; [split|split].
    + done.
    + done.
    + done.
    + rewrite <- (app_nil_r l1). apply hchain_app. split.
      * eapply ep_hpath_ext; [..|exact Hp]; [| |done]; unfold m1; intros y Hy; rewrite !hn_get_insert; (rewrite decide_False by set_solver).
        -- destruct (decide (y = p)) as [->|]; [by right|by left].
        -- destruct (decide (y = p)) as [->|]; [|done]. unfold hn_get. by rewrite Hnp.
      * cbn. unfold m1. rewrite !hn_get_insert. fold p. by rewrite decide_False, decide_True by done.
    + apply lookup_insert_eq.
    + intros y Hy. unfold m1. rewrite !lookup_insert_ne by set_solver. done.
  - destruct Hc as (_ & Hzp & Hc). pose proof Hzp as (nz & Hnz & _)%hn_get_Some.
    apply (NoDup_app (h :: l1)) in Hnd' as (Hnd1 & Hdis & [Hz _]%NoDup_cons). assert (z ≠ p) by (intros ->; apply (Hdis p Hpin); left).
    assert (m1 !! z = Some nz) as Hnz1 by (unfold m1; by rewrite lookup_insert_ne). unfold hn_set_pprev at 1. rewrite Hnz1. cbn [mbind option_bind]. set (m2 := <[z := _]> m1).
    rewrite (init_node_eq _ x nx) by (unfold m2, m1; rewrite !lookup_insert_ne by set_solver; done). cbn [mbind option_bind]. eexists _, _. split; [done|]. split; [split|split].
    + done.
    + cbn. rewrite Ht. f_equal. rewrite !ep_last_app. done.
    + rewrite app_comm_cons. apply NoDup_app. split; [done|]. split; [done|]. apply (NoDup_app (h :: l1 ++ [x])). rewrite <- app_comm_cons, <- app_assoc. done.
    + apply hchain_app. split.
      * eapply ep_hpath_ext; [..|exact Hp]; [| |done]; unfold m2, m1; intros y Hy; rewrite !hn_get_insert; (rewrite (decide_False (P := y = x)) by set_solver);
          (rewrite (decide_False (P := y = z)) by (intros ->; apply (Hdis z); [set_solver|left])).
        -- destruct (decide (y = p)) as [->|]; [by right|by left].
        -- destruct (decide (y = p)) as [->|]; [|done]. unfold hn_get. by rewrite Hnp.
      * cbn [hchain]. fold p. split; [|split].
        -- unfold m2, m1. rewrite !hn_get_insert. rewrite !decide_False, decide_True by done. done.
        -- unfold m2. rewrite !hn_get_insert. rewrite decide_False, decide_True by set_solver. done.
        -- eapply hchain_ext; [..|exact Hc]; unfold m2, m1; intros y Hy; rewrite !hn_get_insert.
           ++ assert (y ≠ p) by (intros ->; by apply (Hdis p)). rewrite (decide_False (P := y = x)), (decide_False (P := y = p)) by set_solver.
              destruct (decide (y = z)) as [->|]; [|done]. unfold hn_get. by rewrite Hnz.
           ++ rewrite !decide_False; [done|intros ->; apply (Hdis p Hpin); by right|set_solver|set_solver].
    + apply lookup_insert_eq.
    + intros y Hy. unfold m2, m1. rewrite !lookup_insert_ne by set_solver. done.
Qed.

(** ** Singly linked lists *)

Fixpoint schain (m : lmem) (p : Z) (xs : list Z) : Prop :=
  match xs with [] => m !! p = Some None | x :: xs => m !! p = Some (Some x) ∧ schain m x xs end.

(** The list whose own node is [h]. *)
Definition slist (m : lmem) (h : Z) (xs : list Z) : Prop := NoDup (h :: xs) ∧ schain m h xs.

Fixpoint spath (m : lmem) (p : Z) (xs : list Z) : Prop :=
  match xs with [] => True | x :: xs => m !! p = Some (Some x) ∧ spath m x xs end.

Lemma schain_app m p l1 l2 : schain m p (l1 ++ l2) ↔ spath m p l1 ∧ schain m (ep_last p l1) l2.
Proof.
  revert p. induction l1 as [|x l1 IH]; intros p; cbn; [by split; [|intros [_ ?]]|]. rewrite IH. tauto.
Qed.

Lemma spath_ext m m' p xs : (∀ y, y ∈ p :: xs → m' !! y = m !! y ∨ y = ep_last p xs) → NoDup (p :: xs) → spath m p xs → spath m' p xs.
Proof.
  revert p. induction xs as [|x xs IH]; intros p Hn [Hx Hnd]%NoDup_cons; [done|]. cbn. intros [H1 H2]. split.
  - destruct (Hn p) as [->|Hp]; [left|done|]. exfalso. apply Hx. rewrite Hp. apply (ep_last_in x).
  - apply IH; [|done|done]. intros y Hy. apply Hn. by right.
Qed.

Lemma schain_ext m m' p xs : (∀ y, y ∈ p :: xs → m' !! y = m !! y) → schain m p xs → schain m' p xs.
Proof.
  revert p. induction xs as [|x xs IH]; intros p Hn; cbn; rewrite Hn by left; [done|]. intros [H1 H2]. split; [done|].
  apply IH; [|done]. intros y Hy. apply Hn. by right.
Qed.

Lemma slist_ext m m' h xs : (∀ y, y ∈ h :: xs → m' !! y = m !! y) → slist m h xs → slist m' h xs.
Proof. intros Hn [H1 H2]. split; [done|]. by apply (schain_ext m). Qed.

Lemma list_walk_to fuel m n prev p l1 : spath m p l1 → ep_last p l1 = n → NoDup (p :: l1) → (length l1 <= fuel)%nat →
  ep_list_walk fuel m (Some n) prev (Some p) =
    Some (match l1 with [] => prev | _ => Some (ep_last p (removelast l1)) end, Some n).
Proof.
  revert fuel prev p. induction l1 as [|x l1 IH]; intros fuel prev p Hp Hn [Hx Hnd]%NoDup_cons Hf.
  { cbn in Hn. subst n. destruct fuel; cbn; by rewrite bool_decide_true. }
  destruct fuel as [|fuel]; [cbn in Hf; lia|]. cbn [ep_list_walk]. cbn in Hp, Hn. destruct Hp as [Hpx Hp].
  rewrite bool_decide_false. 2: { intros [= ->]. apply Hx. rewrite <- Hn. apply ep_last_in. }
  rewrite Hpx. cbn [mbind option_bind]. rewrite IH; [|done|done|done|cbn in Hf; lia]. destruct l1; done.
Qed.

Lemma list_walk_end fuel m prev p xs : schain m p xs → (length xs < fuel)%nat →
  ep_list_walk fuel m None prev (Some p) = Some (Some (ep_last p xs), None).
Proof.
  revert fuel prev p. induction xs as [|x xs IH]; intros fuel prev p Hp Hf; (destruct fuel as [|fuel]; [lia|]); cbn [ep_list_walk schain] in *;
    rewrite bool_decide_false by done.
  - rewrite Hp. cbn [mbind option_bind]. destruct fuel; done.
  - destruct Hp as [-> Hp]. cbn [mbind option_bind]. rewrite IH; [done|done|cbn in Hf; lia].
Qed.

Lemma ep_list_add_tail_spec fuel m h xs x : slist m h xs → x ∉ h :: xs → is_Some (m !! x) → (length xs < fuel)%nat →
  ∃ m', ep_list_add_tail fuel m (Some h) x = Some m' ∧ slist m' h (xs ++ [x]) ∧ ∀ y, y ∉ x :: h :: xs → m' !! y = m !! y.
Proof.
  intros [Hnd Hc] Hx [v Hv] Hf. unfold ep_list_add_tail. rewrite (list_walk_end fuel m None h xs) by done. cbn [mbind option_bind].
  rewrite Hv. cbn [mbind option_bind]. pose proof (ep_last_in h xs) as Hin. set (t := ep_last h xs) in *. assert (t ≠ x) by (intros <-; done).
  rewrite <- (app_nil_r xs) in Hc. apply schain_app in Hc as [Hp Ht]. fold t in Ht. cbn in Ht. rewrite lookup_insert_ne, Ht by done. cbn [mbind option_bind].
  eexists. split; [done|]. split; [split|].
  - rewrite app_comm_cons. apply NoDup_app. split; [done|]. split; [|apply NoDup_singleton]. intros y Hy ->%list_elem_of_singleton. done.
  - apply schain_app. split.
    + apply (spath_ext m); [|done|done]. intros y Hy. destruct (decide (y = t)) as [->|]; [by right|]. left. rewrite !lookup_insert_ne by set_solver. done.
    + cbn. fold t. rewrite lookup_insert_eq, lookup_insert_ne, lookup_insert_eq by done. done.
  - intros y Hy. rewrite !lookup_insert_ne by set_solver. done.
Qed.

Lemma ep_list_del_spec fuel m h l1 x l2 : slist m h (l1 ++ x :: l2) → (length (l1 ++ x :: l2) <= fuel)%nat →
  ∃ m', ep_list_del fuel m (Some h) x = Some m' ∧ slist m' h (l1 ++ l2) ∧ m' !! x = Some None ∧ ∀ y, y ∉ h :: l1 ++ x :: l2 → m' !! y = m !! y.
Proof.
  intros [Hnd Hc] Hf. unfold ep_list_del. pose proof Hc as Hc'. replace (l1 ++ x :: l2) with ((l1 ++ [x]) ++ l2) in Hc' by (by rewrite <- app_assoc).
  apply schain_app in Hc' as [Hw _]. rewrite (list_walk_to fuel m x None h (l1 ++ [x])); cycle 1.
  { done. }
  { by rewrite ep_last_app. }
  { apply (NoDup_app (h :: l1 ++ [x])) with (k := l2). rewrite <- app_comm_cons, <- app_assoc. done. }
  { rewrite !length_app in *. cbn in *. lia. }
  replace (match l1 ++ [x] with [] => None | _ :: _ => Some (ep_last h (removelast (l1 ++ [x]))) end) with (Some (ep_last h l1)) by
    (rewrite removelast_last; by destruct l1).
  cbn [mbind option_bind]. apply schain_app in Hc as [Hp [Hpx Hc]]. set (p := ep_last h l1) in *. assert (Hpin : p ∈ h :: l1) by apply ep_last_in.
  assert (Hnd' : NoDup (x :: (h :: l1) ++ l2)) by (rewrite Permutation_middle; exact Hnd). apply NoDup_cons in Hnd' as [Hx Hnd'].
  pose proof Hnd' as (Hnd1 & Hdis & _)%(NoDup_app (h :: l1)). assert (p ≠ x) by set_solver.
  assert (m !! x = Some (list.head l2)) as Hxn by (destruct l2; cbn in Hc; [done|by destruct Hc as [-> _]]).
  rewrite Hxn. cbn [mbind option_bind]. rewrite Hpx. cbn [mbind option_bind]. rewrite lookup_insert_ne, Hxn by done. cbn [mbind option_bind].
  eexists. split; [done|]. split; [split|split].
  - done.
  - apply schain_app. split.
    + apply (spath_ext m); [|done|done]. intros y Hy. destruct (decide (y = p)) as [->|]; [by right|]. left. rewrite !lookup_insert_ne by set_solver. done.
    + fold p. destruct l2 as [|z l2]; cbn; rewrite lookup_insert_ne, lookup_insert_eq by done; [done|]. split; [done|]. cbn in Hc. destruct Hc as [_ Hc].
      apply (schain_ext m); [|done]. intros y Hy. rewrite !lookup_insert_ne; [done| |set_solver]. intros ->. by apply (Hdis y Hpin).
  - apply lookup_insert_eq.
  - intros y Hy. rewrite !lookup_insert_ne by set_solver. done.
Qed.
