(* ===== verification/EpollData.v ===== *)
(** * The data of the epoll component (src/src/nSocket/include/nstack_eventpoll.h)

    Items, event polls and the information of descriptors live in shared memory; an object is named by its address.
    The nodes an item has in a tree, in a ready list and in the list of its descriptor are kept in three memories by the address
    of the item; the own nodes of the lists by the address of the event poll and of the information.  The three pools of objects are rings
    used through the contract [BoundedQueue].  The stacks below the epoll code, the process and the semaphores are
    an environment [stack_env] with a state of its own.  Operations are state transformers; [None] is undefined behaviour.  The locks
    are not part of the state: an operation runs while its locks are held. *)
From S2P Require Import Prelude.
From S2P Require Import Queue.
From S2P Require Import RbTree.
From S2P Require Import EpList.

(** ** Process identifiers of a descriptor *)

Definition NSTACK_FORK_NUM : Z := 32.
Definition NSEP_SMOD_MAX : Z := 8.
Definition NSTACK_MAX_MODULE_NUM : Z := 8.
Definition NSTACK_EPOL_FD : Z := 1.
Definition NSTACK_MAX_EPOLL_INFO_NUM : Z := 8192.

Record nsep_pidinfo := mk_pidinfo { pid_used_size : Z; pid_array : list Z }.

Definition nsep_for_pidinfo_init : nsep_pidinfo := mk_pidinfo 0 (replicate (Z.to_nat NSTACK_FORK_NUM) 0).

(** The first free cell takes the identifier. *)
Fixpoint add_pid_from (n : nat) (i : Z) (p : nsep_pidinfo) (pid : Z) : option (Z * nsep_pidinfo) :=
  match n with
  | O => Some (-1, p)
  | S n =>
      v ← aread (pid_array p) i;
      if 0 =? v then
        a ← awrite (pid_array p) i pid;
        Some (0, mk_pidinfo (if pid_used_size p <? i + 1 then i + 1 else pid_used_size p) a)
      else add_pid_from n (i + 1) p pid
  end.
Definition nsep_add_pid (p : nsep_pidinfo) (pid : Z) : option (Z * nsep_pidinfo) := add_pid_from (Z.to_nat NSTACK_FORK_NUM) 0 p pid.

(** The cells the walks visit: [i < pid_used_size && i < NSTACK_FORK_NUM]. *)
Definition pid_cells (p : nsep_pidinfo) : nat := Z.to_nat (Z.min (pid_used_size p) NSTACK_FORK_NUM).

Fixpoint del_pid_from (n : nat) (i : Z) (p : nsep_pidinfo) (pid : Z) : option (Z * nsep_pidinfo) :=
  match n with
  | O => Some (-1, p)
  | S n =>
      v ← aread (pid_array p) i;
      if pid =? v then a ← awrite (pid_array p) i 0; Some (0, mk_pidinfo (pid_used_size p) a)
      else del_pid_from n (i + 1) p pid
  end.
Definition nsep_del_pid (p : nsep_pidinfo) (pid : Z) : option (Z * nsep_pidinfo) := del_pid_from (pid_cells p) 0 p pid.

Fixpoint del_last_pid_from (n : nat) (i count : Z) (deleted : bool) (p : nsep_pidinfo) (pid : Z) : option (Z * nsep_pidinfo) :=
  match n with
  | O => Some (if deleted then count else -1, p)
  | S n =>
      v ← aread (pid_array p) i;
      if pid =? v then
        a ← awrite (pid_array p) i 0; del_last_pid_from n (i + 1) count true (mk_pidinfo (pid_used_size p) a) pid
      else del_last_pid_from n (i + 1) (if v =? 0 then count else count + 1) deleted p pid
  end.
Definition nsep_del_last_pid (p : nsep_pidinfo) (pid : Z) : option (Z * nsep_pidinfo) := del_last_pid_from (pid_cells p) 0 0 false p pid.

Fixpoint pid_exist_from (n : nat) (i : Z) (p : nsep_pidinfo) (pid : Z) : option Z :=
  match n with
  | O => Some 0
  | S n => v ← aread (pid_array p) i; if pid =? v then Some 1 else pid_exist_from n (i + 1) p pid
  end.
Definition nsep_is_pid_exist (p : nsep_pidinfo) (pid : Z) : option Z := pid_exist_from (pid_cells p) 0 p pid.

Fixpoint pid_empty_from (n : nat) (i : Z) (p : nsep_pidinfo) : option Z :=
  match n with
  | O => Some 1
  | S n => v ← aread (pid_array p) i; if v =? 0 then pid_empty_from n (i + 1) p else Some 0
  end.
Definition nsep_is_pid_array_empty (p : nsep_pidinfo) : option Z := pid_empty_from (pid_cells p) 0 p.

(** ** Objects *)

(** The allocation mark of a pooled object (src/src/framework/common/include/types.h). *)
Record nsfw_res := mk_res { alloc_flag : Z; u8Reserve : Z; chk_count : Z; res_data : Z }.
Definition res_alloc (r : nsfw_res) : nsfw_res := mk_res 1 0 0 (res_data r).
Definition res_free (r : nsfw_res) : Z * nsfw_res :=
  if negb (1 =? alloc_flag r) then (-1, r) else (0, mk_res 0 (u8Reserve r) 0 (res_data r)).

Record epoll_event := mk_ev { events : Z; data : Z }.

Definition EPOLLERR : Z := 8.
Definition EPOLLHUP : Z := 16.
Definition EPOLLET : Z := 2 ^ 31.

(** A pointer to an item that may be [NSEP_EP_UNACTIVE_PTR]. *)
Inductive ovf_ptr := NSEP_EP_UNACTIVE_PTR | Ovf (p : option Z).
#[global] Instance ovf_ptr_eq : EqDecision ovf_ptr.
Proof. solve_decision. Defined.

(** The nodes [rbn], [rdllink] and [fllink] are in the memories of nodes. *)
Record epitem := mk_epi {
  epi_lkFDllink : ep_hlist_node;
  epi_nwait : Z;
  epi_ep : option Z;
  epi_epInfo : option Z;
  epi_next : ovf_ptr;
  epi_event : epoll_event;
  epi_revents : Z;
  epi_ovf_revents : Z;
  epi_fd : Z;
  epi_pid : Z;
  epi_private_data : option Z;
  epi_res_chk : nsfw_res
}.

(** [ep_waitSem]: the value of the semaphore. *)
Record eventpoll := mk_ep {
  ep_waitSem : Z;
  ep_rdlist : ep_hlist;
  ep_ovflist : ovf_ptr;
  ep_rbr : option Z;
  ep_epfd : Z;
  ep_pid : Z;
  ep_res_chk : nsfw_res
}.

Record nsep_epollInfo_t := mk_info {
  info_fd : Z;
  info_epaddflag : Z;
  info_fdtype : Z;
  info_rlfd : Z;
  info_rmidx : Z;
  info_protoFD : list Z;
  info_ep : option Z;
  info_epiList : option Z;
  info_sleepTime : Z;
  info_pidinfo : nsep_pidinfo;
  info_private_data : option Z;
  info_res_chk : nsfw_res
}.

Inductive nstack_ep_triggle_ops_t := nstack_ep_triggle_add | nstack_ep_triggle_mod | nstack_ep_triggle_del.
#[global] Instance triggle_ops_eq : EqDecision nstack_ep_triggle_ops_t.
Proof. solve_decision. Defined.

(** ** The environment: the stack modules, the process and the system; [W] is its state *)

Record stack_env (W : Type) := {
  (** [nstack_extern_deal(m).ep_ctl (epFD, proFD, ops, event, info)]; [None]: not supplied *)
  se_ep_ctl : Z → option (Z → Z → nstack_ep_triggle_ops_t → epoll_event → Z → W → Z * W);
  (** [nstack_extern_deal(m).ep_getevt (epFD, profd, events)] *)
  se_ep_getevt : Z → option (Z → Z → Z → W → Z * W);
  (** [nstack_fix_fd_check ()(fd, STACK_FD_INVALID_CHECK)] *)
  se_fd_check : option (Z → W → Z * W);
  se_fix_mid : Z;
  se_modNum : Z;
  se_pid : Z;
  se_same_process : Z;
  se_kernel_fd_max : Z;
  (** [NSTACK_IS_FD_EPOLL_SOCKET] of the record of a descriptor *)
  se_is_epoll : Z → bool;
  (** the descriptor has a valid record with the flag [SOCK_CLOEXEC] *)
  se_cloexec : Z → bool;
  (** the addresses of the pools; an object's address is that of the pool plus its position *)
  se_itemBase : Z;
  se_epBase : Z;
  se_infoBase : Z;
  (** the result of [sem_init] and whether [malloc] succeeds *)
  se_sem_init : W → Z * W;
  se_malloc : W → bool * W
}.
Arguments se_ep_ctl {W}.
Arguments se_ep_getevt {W}.
Arguments se_fd_check {W}.
Arguments se_fix_mid {W}.
Arguments se_modNum {W}.
Arguments se_pid {W}.
Arguments se_same_process {W}.
Arguments se_kernel_fd_max {W}.
Arguments se_is_epoll {W}.
Arguments se_cloexec {W}.
Arguments se_itemBase {W}.
Arguments se_epBase {W}.
Arguments se_infoBase {W}.
Arguments se_sem_init {W}.
Arguments se_malloc {W}.

(** ** Updates of one field *)

Definition set_epi_lkFDllink (v : ep_hlist_node) (r : epitem) : epitem := mk_epi v (epi_nwait r) (epi_ep r) (epi_epInfo r) (epi_next r) (epi_event r) (epi_revents r) (epi_ovf_revents r) (epi_fd r) (epi_pid r) (epi_private_data r) (epi_res_chk r).
Definition set_epi_nwait (v : Z) (r : epitem) : epitem := mk_epi (epi_lkFDllink r) v (epi_ep r) (epi_epInfo r) (epi_next r) (epi_event r) (epi_revents r) (epi_ovf_revents r) (epi_fd r) (epi_pid r) (epi_private_data r) (epi_res_chk r).
Definition set_epi_ep (v : option Z) (r : epitem) : epitem := mk_epi (epi_lkFDllink r) (epi_nwait r) v (epi_epInfo r) (epi_next r) (epi_event r) (epi_revents r) (epi_ovf_revents r) (epi_fd r) (epi_pid r) (epi_private_data r) (epi_res_chk r).
Definition set_epi_epInfo (v : option Z) (r : epitem) : epitem := mk_epi (epi_lkFDllink r) (epi_nwait r) (epi_ep r) v (epi_next r) (epi_event r) (epi_revents r) (epi_ovf_revents r) (epi_fd r) (epi_pid r) (epi_private_data r) (epi_res_chk r).
Definition set_epi_next (v : ovf_ptr) (r : epitem) : epitem := mk_epi (epi_lkFDllink r) (epi_nwait r) (epi_ep r) (epi_epInfo r) v (epi_event r) (epi_revents r) (epi_ovf_revents r) (epi_fd r) (epi_pid r) (epi_private_data r) (epi_res_chk r).
Definition set_epi_event (v : epoll_event) (r : epitem) : epitem := mk_epi (epi_lkFDllink r) (epi_nwait r) (epi_ep r) (epi_epInfo r) (epi_next r) v (epi_revents r) (epi_ovf_revents r) (epi_fd r) (epi_pid r) (epi_private_data r) (epi_res_chk r).
Definition set_epi_revents (v : Z) (r : epitem) : epitem := mk_epi (epi_lkFDllink r) (epi_nwait r) (epi_ep r) (epi_epInfo r) (epi_next r) (epi_event r) v (epi_ovf_revents r) (epi_fd r) (epi_pid r) (epi_private_data r) (epi_res_chk r).
Definition set_epi_ovf_revents (v : Z) (r : epitem) : epitem := mk_epi (epi_lkFDllink r) (epi_nwait r) (epi_ep r) (epi_epInfo r) (epi_next r) (epi_event r) (epi_revents r) v (epi_fd r) (epi_pid r) (epi_private_data r) (epi_res_chk r).
Definition set_epi_fd (v : Z) (r : epitem) : epitem := mk_epi (epi_lkFDllink r) (epi_nwait r) (epi_ep r) (epi_epInfo r) (epi_next r) (epi_event r) (epi_revents r) (epi_ovf_revents r) v (epi_pid r) (epi_private_data r) (epi_res_chk r).
Definition set_epi_pid (v : Z) (r : epitem) : epitem := mk_epi (epi_lkFDllink r) (epi_nwait r) (epi_ep r) (epi_epInfo r) (epi_next r) (epi_event r) (epi_revents r) (epi_ovf_revents r) (epi_fd r) v (epi_private_data r) (epi_res_chk r).
Definition set_epi_private_data (v : option Z) (r : epitem) : epitem := mk_epi (epi_lkFDllink r) (epi_nwait r) (epi_ep r) (epi_epInfo r) (epi_next r) (epi_event r) (epi_revents r) (epi_ovf_revents r) (epi_fd r) (epi_pid r) v (epi_res_chk r).
Definition set_epi_res_chk (v : nsfw_res) (r : epitem) : epitem := mk_epi (epi_lkFDllink r) (epi_nwait r) (epi_ep r) (epi_epInfo r) (epi_next r) (epi_event r) (epi_revents r) (epi_ovf_revents r) (epi_fd r) (epi_pid r) (epi_private_data r) v.

Definition set_ep_waitSem (v : Z) (r : eventpoll) : eventpoll := mk_ep v (ep_rdlist r) (ep_ovflist r) (ep_rbr r) (ep_epfd r) (ep_pid r) (ep_res_chk r).
Definition set_ep_rdlist (v : ep_hlist) (r : eventpoll) : eventpoll := mk_ep (ep_waitSem r) v (ep_ovflist r) (ep_rbr r) (ep_epfd r) (ep_pid r) (ep_res_chk r).
Definition set_ep_ovflist (v : ovf_ptr) (r : eventpoll) : eventpoll := mk_ep (ep_waitSem r) (ep_rdlist r) v (ep_rbr r) (ep_epfd r) (ep_pid r) (ep_res_chk r).
Definition set_ep_rbr (v : option Z) (r : eventpoll) : eventpoll := mk_ep (ep_waitSem r) (ep_rdlist r) (ep_ovflist r) v (ep_epfd r) (ep_pid r) (ep_res_chk r).
Definition set_ep_epfd (v : Z) (r : eventpoll) : eventpoll := mk_ep (ep_waitSem r) (ep_rdlist r) (ep_ovflist r) (ep_rbr r) v (ep_pid r) (ep_res_chk r).
Definition set_ep_pid (v : Z) (r : eventpoll) : eventpoll := mk_ep (ep_waitSem r) (ep_rdlist r) (ep_ovflist r) (ep_rbr r) (ep_epfd r) v (ep_res_chk r).
Definition set_ep_res_chk (v : nsfw_res) (r : eventpoll) : eventpoll := mk_ep (ep_waitSem r) (ep_rdlist r) (ep_ovflist r) (ep_rbr r) (ep_epfd r) (ep_pid r) v.

Definition set_info_fd (v : Z) (r : nsep_epollInfo_t) : nsep_epollInfo_t := mk_info v (info_epaddflag r) (info_fdtype r) (info_rlfd r) (info_rmidx r) (info_protoFD r) (info_ep r) (info_epiList r) (info_sleepTime r) (info_pidinfo r) (info_private_data r) (info_res_chk r).
Definition set_info_epaddflag (v : Z) (r : nsep_epollInfo_t) : nsep_epollInfo_t := mk_info (info_fd r) v (info_fdtype r) (info_rlfd r) (info_rmidx r) (info_protoFD r) (info_ep r) (info_epiList r) (info_sleepTime r) (info_pidinfo r) (info_private_data r) (info_res_chk r).
Definition set_info_fdtype (v : Z) (r : nsep_epollInfo_t) : nsep_epollInfo_t := mk_info (info_fd r) (info_epaddflag r) v (info_rlfd r) (info_rmidx r) (info_protoFD r) (info_ep r) (info_epiList r) (info_sleepTime r) (info_pidinfo r) (info_private_data r) (info_res_chk r).
Definition set_info_rlfd (v : Z) (r : nsep_epollInfo_t) : nsep_epollInfo_t := mk_info (info_fd r) (info_epaddflag r) (info_fdtype r) v (info_rmidx r) (info_protoFD r) (info_ep r) (info_epiList r) (info_sleepTime r) (info_pidinfo r) (info_private_data r) (info_res_chk r).
Definition set_info_rmidx (v : Z) (r : nsep_epollInfo_t) : nsep_epollInfo_t := mk_info (info_fd r) (info_epaddflag r) (info_fdtype r) (info_rlfd r) v (info_protoFD r) (info_ep r) (info_epiList r) (info_sleepTime r) (info_pidinfo r) (info_private_data r) (info_res_chk r).
Definition set_info_protoFD (v : list Z) (r : nsep_epollInfo_t) : nsep_epollInfo_t := mk_info (info_fd r) (info_epaddflag r) (info_fdtype r) (info_rlfd r) (info_rmidx r) v (info_ep r) (info_epiList r) (info_sleepTime r) (info_pidinfo r) (info_private_data r) (info_res_chk r).
Definition set_info_ep (v : option Z) (r : nsep_epollInfo_t) : nsep_epollInfo_t := mk_info (info_fd r) (info_epaddflag r) (info_fdtype r) (info_rlfd r) (info_rmidx r) (info_protoFD r) v (info_epiList r) (info_sleepTime r) (info_pidinfo r) (info_private_data r) (info_res_chk r).
Definition set_info_epiList (v : option Z) (r : nsep_epollInfo_t) : nsep_epollInfo_t := mk_info (info_fd r) (info_epaddflag r) (info_fdtype r) (info_rlfd r) (info_rmidx r) (info_protoFD r) (info_ep r) v (info_sleepTime r) (info_pidinfo r) (info_private_data r) (info_res_chk r).
Definition set_info_sleepTime (v : Z) (r : nsep_epollInfo_t) : nsep_epollInfo_t := mk_info (info_fd r) (info_epaddflag r) (info_fdtype r) (info_rlfd r) (info_rmidx r) (info_protoFD r) (info_ep r) (info_epiList r) v (info_pidinfo r) (info_private_data r) (info_res_chk r).
Definition set_info_pidinfo (v : nsep_pidinfo) (r : nsep_epollInfo_t) : nsep_epollInfo_t := mk_info (info_fd r) (info_epaddflag r) (info_fdtype r) (info_rlfd r) (info_rmidx r) (info_protoFD r) (info_ep r) (info_epiList r) (info_sleepTime r) v (info_private_data r) (info_res_chk r).
Definition set_info_private_data (v : option Z) (r : nsep_epollInfo_t) : nsep_epollInfo_t := mk_info (info_fd r) (info_epaddflag r) (info_fdtype r) (info_rlfd r) (info_rmidx r) (info_protoFD r) (info_ep r) (info_epiList r) (info_sleepTime r) (info_pidinfo r) v (info_res_chk r).
Definition set_info_res_chk (v : nsfw_res) (r : nsep_epollInfo_t) : nsep_epollInfo_t := mk_info (info_fd r) (info_epaddflag r) (info_fdtype r) (info_rlfd r) (info_rmidx r) (info_protoFD r) (info_ep r) (info_epiList r) (info_sleepTime r) (info_pidinfo r) (info_private_data r) v.

(** ** The state *)

Record est (Q W : Type) := mk_est {
  es_rbn : gmap Z ep_rb_node;
  es_rdl : hmem;
  es_fll : lmem;
  es_items : gmap Z epitem;
  es_eps : gmap Z eventpoll;
  es_infos : gmap Z nsep_epollInfo_t;
  es_sockMap : option (list (option Z));
  es_itemPool : Q;
  es_epPool : Q;
  es_infoPool : Q;
  es_errno : Z;
  es_world : W
}.
Arguments mk_est {Q W}.
Arguments es_rbn {Q W}.
Arguments es_rdl {Q W}.
Arguments es_fll {Q W}.
Arguments es_items {Q W}.
Arguments es_eps {Q W}.
Arguments es_infos {Q W}.
Arguments es_sockMap {Q W}.
Arguments es_itemPool {Q W}.
Arguments es_epPool {Q W}.
Arguments es_infoPool {Q W}.
Arguments es_errno {Q W}.
Arguments es_world {Q W}.

Section state_updates.
Context {Q W : Type}.
Definition set_es_rbn (v : gmap Z ep_rb_node) (r : est Q W) : est Q W := mk_est v (es_rdl r) (es_fll r) (es_items r) (es_eps r) (es_infos r) (es_sockMap r) (es_itemPool r) (es_epPool r) (es_infoPool r) (es_errno r) (es_world r).
Definition set_es_rdl (v : hmem) (r : est Q W) : est Q W := mk_est (es_rbn r) v (es_fll r) (es_items r) (es_eps r) (es_infos r) (es_sockMap r) (es_itemPool r) (es_epPool r) (es_infoPool r) (es_errno r) (es_world r).
Definition set_es_fll (v : lmem) (r : est Q W) : est Q W := mk_est (es_rbn r) (es_rdl r) v (es_items r) (es_eps r) (es_infos r) (es_sockMap r) (es_itemPool r) (es_epPool r) (es_infoPool r) (es_errno r) (es_world r).
Definition set_es_items (v : gmap Z epitem) (r : est Q W) : est Q W := mk_est (es_rbn r) (es_rdl r) (es_fll r) v (es_eps r) (es_infos r) (es_sockMap r) (es_itemPool r) (es_epPool r) (es_infoPool r) (es_errno r) (es_world r).
Definition set_es_eps (v : gmap Z eventpoll) (r : est Q W) : est Q W := mk_est (es_rbn r) (es_rdl r) (es_fll r) (es_items r) v (es_infos r) (es_sockMap r) (es_itemPool r) (es_epPool r) (es_infoPool r) (es_errno r) (es_world r).
Definition set_es_infos (v : gmap Z nsep_epollInfo_t) (r : est Q W) : est Q W := mk_est (es_rbn r) (es_rdl r) (es_fll r) (es_items r) (es_eps r) v (es_sockMap r) (es_itemPool r) (es_epPool r) (es_infoPool r) (es_errno r) (es_world r).
Definition set_es_sockMap (v : option (list (option Z))) (r : est Q W) : est Q W := mk_est (es_rbn r) (es_rdl r) (es_fll r) (es_items r) (es_eps r) (es_infos r) v (es_itemPool r) (es_epPool r) (es_infoPool r) (es_errno r) (es_world r).
Definition set_es_itemPool (v : Q) (r : est Q W) : est Q W := mk_est (es_rbn r) (es_rdl r) (es_fll r) (es_items r) (es_eps r) (es_infos r) (es_sockMap r) v (es_epPool r) (es_infoPool r) (es_errno r) (es_world r).
Definition set_es_epPool (v : Q) (r : est Q W) : est Q W := mk_est (es_rbn r) (es_rdl r) (es_fll r) (es_items r) (es_eps r) (es_infos r) (es_sockMap r) (es_itemPool r) v (es_infoPool r) (es_errno r) (es_world r).
Definition set_es_infoPool (v : Q) (r : est Q W) : est Q W := mk_est (es_rbn r) (es_rdl r) (es_fll r) (es_items r) (es_eps r) (es_infos r) (es_sockMap r) (es_itemPool r) (es_epPool r) v (es_errno r) (es_world r).
Definition set_es_errno (v : Z) (r : est Q W) : est Q W := mk_est (es_rbn r) (es_rdl r) (es_fll r) (es_items r) (es_eps r) (es_infos r) (es_sockMap r) (es_itemPool r) (es_epPool r) (es_infoPool r) v (es_world r).
Definition set_es_world (v : W) (r : est Q W) : est Q W := mk_est (es_rbn r) (es_rdl r) (es_fll r) (es_items r) (es_eps r) (es_infos r) (es_sockMap r) (es_itemPool r) (es_epPool r) (es_infoPool r) (es_errno r) v.
End state_updates.
