(* ===== verification/Epoll.v ===== *)
(** * Epoll: objects, control and polling (src/src/adapt/nstack_epoll_comm.c, src/src/nSocket/nstack/event/epoll/nstack_eventpoll.c)

    Every operation of the two files that changes the shared objects of [EpollData], the callback of the stacks
    (src/src/adapt/nstack_dmm_adpt.c) and the control call of the interface (src/src/nSocket/nstack/nstack_socket.c). *)
From S2P Require Import Prelude.
From S2P Require Import Queue.
From S2P Require Import RbTree.
From S2P Require Import EpList.
From S2P Require Import EpollData.

Definition ENOENT : Z := 2.
Definition EBADF : Z := 9.
Definition ENOMEM : Z := 12.
Definition EFAULT : Z := 14.
Definition EEXIST : Z := 17.
Definition EINVAL : Z := 22.

Section epoll.
Context {Q W : Type} `{BoundedQueue Q} (env : stack_env W).
Abbreviation st := (est Q W).
Abbreviation M := (stM (est Q W)).

(** ** Access to the objects *)

Definition item_get {A} (f : epitem → A) (x : Z) : M A := m ← gets es_items; i ← lift (m !! x); mret (f i).
Definition item_upd (f : epitem → epitem) (x : Z) : M unit := m ← gets es_items; i ← lift (m !! x); modify (set_es_items (<[x := f i]> m)).
Definition ep_get {A} (f : eventpoll → A) (x : Z) : M A := m ← gets es_eps; i ← lift (m !! x); mret (f i).
Definition ep_upd (f : eventpoll → eventpoll) (x : Z) : M unit := m ← gets es_eps; i ← lift (m !! x); modify (set_es_eps (<[x := f i]> m)).
Definition info_get {A} (f : nsep_epollInfo_t → A) (x : Z) : M A := m ← gets es_infos; i ← lift (m !! x); mret (f i).
Definition info_upd (f : nsep_epollInfo_t → nsep_epollInfo_t) (x : Z) : M unit := m ← gets es_infos; i ← lift (m !! x); modify (set_es_infos (<[x := f i]> m)).
Definition set_errno (e : Z) : M unit := modify (set_es_errno e).

(** A call of the environment. *)
Definition ask {A} (f : W → A * W) : M A := w ← gets es_world; let '(a, w) := f w in _ ← modify (set_es_world w); mret a.

(** The operations of the lists and trees on their part of the state. *)
Definition rdl_get {A} (f : hmem → option A) : M A := m ← gets es_rdl; lift (f m).
Definition rdl_upd (f : hmem → option hmem) : M unit := m ← gets es_rdl; m ← lift (f m); modify (set_es_rdl m).
Definition fll_get {A} (f : lmem → option A) : M A := m ← gets es_fll; lift (f m).
Definition fll_upd (f : lmem → option lmem) : M unit := m ← gets es_fll; m ← lift (f m); modify (set_es_fll m).
(** The ready list of the event poll [ep]. *)
Definition rdlist_upd (f : hmem → ep_hlist → option (hmem * ep_hlist)) (ep : Z) : M unit :=
  m ← gets es_rdl; l ← ep_get ep_rdlist ep; '(m, l) ← lift (f m l); _ ← modify (set_es_rdl m); ep_upd (set_ep_rdlist l) ep.
Definition linked (epi : Z) : M bool := rdl_get (λ m, EP_HLIST_NODE_LINKED m epi).

(** The descriptor of the item a tree node belongs to. *)
Definition fd_of (s : st) (x : Z) : Z := match es_items s !! x with Some i => epi_fd i | None => 0 end.
(** The tree of [ep]. *)
Definition tree_of (ep : Z) : M rb_tree := m ← gets es_rbn; r ← ep_get ep_rbr ep; mret (mk_rbt m r).
Definition tree_upd (f : rb_tree → option rb_tree) (ep : Z) : M unit :=
  t ← tree_of ep; t ← lift (f t); _ ← modify (set_es_rbn (rb_nodes t)); ep_upd (set_ep_rbr (rb_node t)) ep.

(** The rounds given to the walks of one tree; no tree of the pool needs more. *)
Definition tree_fuel : nat := Z.to_nat NSTACK_MAX_EPITEM_NUM.
(** The rounds given to the walks of one list of items. *)
Definition list_fuel : nat := Z.to_nat NSTACK_MAX_EPITEM_NUM.

Definition epoll_find_ep (ep fd : Z) : M (option Z) := s ← gets id; t ← tree_of ep; lift (nsep_find_ep (fd_of s) t fd).
Definition epoll_rbtree_insert (ep epi : Z) : M unit := s ← gets id; tree_upd (λ t, nsep_rbtree_insert tree_fuel (fd_of s) t epi) ep.

(** ** The map from descriptors to their information *)

Definition nsep_set_infoSockMap (sock : Z) (info : option Z) : M unit :=
  m ← gets es_sockMap;
  match m with
  | None => mret tt
  | Some m =>
      if (sock <? 0) || (se_kernel_fd_max env <=? sock) then mret tt
      else m ← lift (awrite m sock info); modify (set_es_sockMap (Some m))
  end.

Definition nsep_get_infoBySock (sock : Z) : M (option Z) :=
  m ← gets es_sockMap;
  match m with
  | None => mret None
  | Some m => if (sock <? 0) || (se_kernel_fd_max env <=? sock) then mret None else lift (aread m sock)
  end.

Definition nsep_init_infoSockMap : M Z :=
  ok ← ask (se_malloc env);
  if negb ok then mret (-1)
  else _ ← modify (set_es_sockMap (Some (replicate (Z.to_nat (se_kernel_fd_max env)) None))); mret 0.

Definition NSEP_IS_SOCK_VALID (sock : Z) : bool := (0 <=? sock) && (sock <? se_kernel_fd_max env).

(** ** The pools *)

(** [nsfw_mem_ring_dequeue] into a variable that holds [NULL] before; the address is 0 when nothing came out. *)
Definition pool_dequeue (get : st → Q) (set : Q → st → st) : M (Z * Z) :=
  q ← gets get; '(k, out, q) ← lift (q_dequeuev q [0] 1); _ ← modify (set q); v ← lift (aread out 0); mret (k, v).
Definition pool_enqueue (get : st → Q) (set : Q → st → st) (v : Z) : M Z :=
  q ← gets get; '(k, q) ← lift (q_enqueue q v); _ ← modify (set q); mret k.

(** *** Items *)

Definition nsep_free_epitem (epi : Z) : M Z :=
  _ ← item_upd (set_epi_pid 0) epi;
  r ← item_get epi_res_chk epi;
  let '(e, r) := res_free r in
  if negb (e =? 0) then mret 0
  else _ ← item_upd (set_epi_res_chk r) epi; _ ← pool_enqueue es_itemPool set_es_itemPool epi; mret 0.

Definition nsep_init_epitem (epi : Z) : M Z :=
  _ ← (m ← gets es_rbn; n ← lift (m !! epi); modify (set_es_rbn (<[epi := set_parent (Some epi) n]> m)));
  _ ← rdl_upd (λ m, EP_HLIST_INIT_NODE m epi);
  _ ← item_upd (λ i, set_epi_event (mk_ev 0 0) (set_epi_next NSEP_EP_UNACTIVE_PTR (set_epi_ep None (set_epi_nwait 0 (set_epi_lkFDllink (mk_hn None None) i))))) epi;
  _ ← fll_upd (λ m, _ ← m !! epi; Some (<[epi := None]> m));
  _ ← item_upd (λ i, set_epi_private_data None (set_epi_fd (-1) (set_epi_ovf_revents 0 (set_epi_revents 0 i)))) epi;
  mret 0.

Definition nsep_alloc_epitem : M (Z * option Z) :=
  '(k, x) ← pool_dequeue es_itemPool set_es_itemPool;
  if (0 =? k) || (x =? 0) then mret (-1, None)
  else
    _ ← item_upd (λ i, set_epi_pid (se_pid env) (set_epi_res_chk (res_alloc (epi_res_chk i)) i)) x;
    e ← nsep_init_epitem x;
    if negb (e =? 0) then _ ← nsep_free_epitem x; mret (-1, None)
    else mret (0, Some x).

(** *** Information of descriptors *)

Definition nsep_initEpInfo (info : Z) : M unit :=
  _ ← fll_upd (λ m, _ ← m !! info; Some (<[info := None]> m));
  info_upd (λ i, set_info_pidinfo nsep_for_pidinfo_init (set_info_protoFD (replicate (Z.to_nat NSEP_SMOD_MAX) (-1))
    (set_info_epaddflag 0 (set_info_private_data None (set_info_fdtype 0 (set_info_ep None (set_info_fd (-1) (set_info_rmidx (-1)
    (set_info_rlfd (-1) (set_info_epiList (Some info) i)))))))))) info.

Definition nsep_alloc_epinfo : M (Z * option Z) :=
  '(k, x) ← pool_dequeue es_infoPool set_es_infoPool;
  if (0 =? k) || (x =? 0) then mret (-1, None)
  else
    _ ← info_upd (λ i, set_info_res_chk (res_alloc (info_res_chk i)) i) x;
    _ ← nsep_initEpInfo x;
    p ← info_get info_pidinfo x;
    '(_, p) ← lift (nsep_add_pid p (se_pid env));
    _ ← info_upd (set_info_pidinfo p) x;
    mret (0, Some x).

Definition nsep_free_epinfo (info : Z) : M Z :=
  _ ← info_upd (set_info_pidinfo nsep_for_pidinfo_init) info;
  r ← info_get info_res_chk info;
  let '(e, r) := res_free r in
  if negb (e =? 0) then mret 0
  else _ ← info_upd (set_info_res_chk r) info; _ ← pool_enqueue es_infoPool set_es_infoPool info; mret 0.

Definition nsep_alloc_infoWithSock (nfd : Z) : M Z :=
  if negb (NSEP_IS_SOCK_VALID nfd) then mret (-1)
  else
    '(e, x) ← nsep_alloc_epinfo;
    if -1 =? e then mret (-1)
    else x ← lift x; _ ← info_upd (set_info_fd nfd) x; _ ← nsep_set_infoSockMap nfd (Some x); mret 0.

Definition nsep_free_infoWithSock (nfd : Z) : M Z :=
  if (se_kernel_fd_max env <=? nfd) || (nfd <? 0) then mret (-1)
  else
    info ← nsep_get_infoBySock nfd;
    match info with
    | None => mret 0
    | Some info => _ ← nsep_set_infoSockMap nfd None; e ← nsep_free_epinfo info; mret (if -1 =? e then -1 else 0)
    end.

(** An access to the information of [fd], when it has one. *)
Definition with_info {A} (fd : Z) (dflt : A) (f : Z → M A) : M A :=
  info ← nsep_get_infoBySock fd; match info with None => mret dflt | Some i => f i end.

Definition nsep_set_infoProtoFD (fd modInx protoFD : Z) : M unit :=
  with_info fd tt (λ i,
    if (modInx <? 0) || (NSTACK_MAX_MODULE_NUM <=? modInx) then mret tt
    else p ← info_get info_protoFD i; p ← lift (awrite p modInx protoFD); info_upd (set_info_protoFD p) i).
Definition nsep_get_infoProtoFD (fd modInx : Z) : M Z := with_info fd (-1) (λ i, p ← info_get info_protoFD i; lift (aread p modInx)).
Definition nsep_set_infomdix (fd rmidx : Z) : M unit := with_info fd tt (λ i, info_upd (set_info_rmidx rmidx) i).
Definition nsep_get_infoMidx (fd : Z) : M Z := with_info fd (-1) (λ i, info_get info_rmidx i).
Definition nsep_set_infoRlfd (fd rlfd : Z) : M unit := with_info fd tt (λ i, info_upd (set_info_rlfd rlfd) i).
Definition nsep_get_infoRlfd (fd : Z) : M Z := with_info fd (-1) (λ i, info_get info_rlfd i).
Definition nsep_set_infoSleepTime (fd sleepTime : Z) : M unit := with_info fd tt (λ i, info_upd (set_info_sleepTime sleepTime) i).
Definition nsep_get_infoSleepTime (fd : Z) : M Z := with_info fd (-1) (λ i, t ← info_get info_sleepTime i; mret (to_i32 t)).
Definition nsep_set_infoEp (fd : Z) (ep : option Z) : M unit := with_info fd tt (λ i, info_upd (λ r, set_info_fdtype NSTACK_EPOL_FD (set_info_ep ep r)) i).
Definition nsep_get_infoEp (fd : Z) : M (option Z) := with_info fd None (λ i, info_get info_ep i).

(** *** Event polls *)

Definition nsep_init_eventpoll (ep : Z) : M Z :=
  e ← ask (se_sem_init env);
  if negb (0 =? e) then mret (-1)
  else
    _ ← ep_upd (set_ep_waitSem 0) ep;
    _ ← rdlist_upd (λ m _, EP_HLIST_INIT m ep) ep;
    _ ← ep_upd (λ r, set_ep_epfd (-1) (set_ep_rbr None (set_ep_ovflist NSEP_EP_UNACTIVE_PTR r))) ep;
    mret 0.

Definition nsep_free_eventpoll (ep : Z) : M Z :=
  _ ← ep_upd (set_ep_pid 0) ep;
  r ← ep_get ep_res_chk ep;
  let '(e, r) := res_free r in
  if negb (e =? 0) then mret 0
  else _ ← ep_upd (set_ep_res_chk r) ep; _ ← pool_enqueue es_epPool set_es_epPool ep; mret 0.

Definition nsep_alloc_eventpoll : M (Z * option Z) :=
  '(k, x) ← pool_dequeue es_epPool set_es_epPool;
  if (0 =? k) || (x =? 0) then mret (-1, None)
  else
    _ ← ep_upd (λ r, set_ep_pid (se_pid env) (set_ep_res_chk (res_alloc (ep_res_chk r)) r)) x;
    e ← nsep_init_eventpoll x;
    if negb (0 =? e) then _ ← nsep_free_eventpoll x; mret (-1, None)
    else mret (0, Some x).

(** *** What the resource manager frees again *)

Definition nsep_force_epinfo_free (info : Z) : M Z :=
  p ← info_get info_pidinfo info; e ← lift (nsep_is_pid_array_empty p);
  if e =? 0 then mret 0
  else _ ← info_upd (λ i, set_info_res_chk (res_alloc (info_res_chk i)) i) info; _ ← nsep_free_epinfo info; mret 1.
Definition nsep_force_epitem_free (epi : Z) : M Z :=
  p ← item_get epi_pid epi;
  if negb (0 =? p) then mret 0
  else _ ← item_upd (λ i, set_epi_res_chk (res_alloc (epi_res_chk i)) i) epi; _ ← nsep_free_epitem epi; mret 1.
Definition nsep_force_epevent_free (ep : Z) : M Z :=
  p ← ep_get ep_pid ep;
  if negb (0 =? p) then mret 0
  else _ ← ep_upd (λ r, set_ep_res_chk (res_alloc (ep_res_chk r)) r) ep; _ ← nsep_free_eventpoll ep; mret 1.

(** ** Registration *)

Definition has (a b : Z) : bool := negb (Z.land a b =? 0).

Definition nsep_ctl_event_add (epi ep : Z) (triggle_ops : nstack_ep_triggle_ops_t) (evs : Z) : M unit :=
  ev ← item_get epi_event epi;
  match triggle_ops with
  | nstack_ep_triggle_add =>
      when (has evs (events ev))
        (l ← linked epi;
         _ ← when (negb l) (rdlist_upd (λ m l, ep_hlist_add_tail m l epi) ep);
         ep_upd (λ r, set_ep_waitSem (ep_waitSem r + 1) r) ep)
  | nstack_ep_triggle_mod =>
      if has evs (events ev) then
        l ← linked epi;
        when (negb l)
          (_ ← rdlist_upd (λ m l, ep_hlist_add_tail m l epi) ep;
           ep_upd (λ r, set_ep_waitSem (ep_waitSem r + 1) r) ep)
      else
        l ← linked epi;
        when (l && has (events ev) EPOLLET) (rdlist_upd (λ m l, ep_hlist_del m l epi) ep)
  | nstack_ep_triggle_del => mret tt
  end.

(** [NSTACK_EP_TRIGGLE]: [ret] keeps its value when the module supplies no [ep_ctl]; only then is [epInfo->protoFD] not read. *)
Definition NSTACK_EP_TRIGGLE (epInfo : option Z) (proFD modInx : Z) (ops : nstack_ep_triggle_ops_t) (epi info : Z) (ret : Z) : M Z :=
  match se_ep_ctl env modInx with
  | None => mret ret
  | Some f =>
      epInfo ← lift epInfo; p ← info_get info_protoFD epInfo; epFD ← lift (aread p modInx);
      ev ← item_get epi_event epi; ask (f epFD proFD ops ev info)
  end.

(** The event of a module is taken over. *)
Definition triggle_take (epi ep info modInx : Z) (ops : nstack_ep_triggle_ops_t) (revents ret : Z) : M unit :=
  when ((0 <=? ret) && negb (bool_decide (ops = nstack_ep_triggle_del)))
    (_ ← item_upd (set_epi_revents revents) epi;
     _ ← nsep_ctl_event_add epi ep ops revents;
     info_upd (λ i, set_info_epaddflag (Z.lor (info_epaddflag i) (Z.shiftl 1 modInx)) i) info).

Fixpoint triggle_modules (n : nat) (modInx : Z) (epi ep info : Z) (epInfo : option Z) (ops : nstack_ep_triggle_ops_t) (ret : Z) : M unit :=
  match n with
  | O => mret tt
  | S n =>
      p ← info_get info_protoFD info; protoFd ← lift (aread p modInx);
      if protoFd <? 0 then triggle_modules n (modInx + 1) epi ep info epInfo ops ret
      else
        ret ← NSTACK_EP_TRIGGLE epInfo protoFd modInx ops epi info ret;
        r ← item_get epi_revents epi;
        _ ← triggle_take epi ep info modInx ops (Z.lor r ret) ret;
        triggle_modules n (modInx + 1) epi ep info epInfo ops ret
  end.

Definition nsep_epctl_triggle (epi info : Z) (ops : nstack_ep_triggle_ops_t) : M unit :=
  ep ← item_get epi_ep epi; ep ← lift ep;
  epfd ← ep_get ep_epfd ep;
  epInfo ← nsep_get_infoBySock epfd;
  rmidx ← info_get info_rmidx info;
  if 0 <=? rmidx then
    if (NSEP_SMOD_MAX <=? rmidx) || (NSTACK_MAX_MODULE_NUM <=? rmidx) then mret tt
    else
      rlfd ← info_get info_rlfd info;
      ret ← NSTACK_EP_TRIGGLE epInfo rlfd rmidx ops epi info 0;
      triggle_take epi ep info rmidx ops ret ret
  else triggle_modules (Z.to_nat (se_modNum env)) 0 epi ep info epInfo ops 0.

Definition nsep_insert_node (ep : Z) (event : epoll_event) (fdInfo : Z) : M Z :=
  '(e, epi) ← nsep_alloc_epitem;
  if negb (e =? 0) then _ ← set_errno ENOMEM; mret (-1)
  else
    epi ← lift epi;
    _ ← rdl_upd (λ m, EP_HLIST_INIT_NODE m epi);
    fd ← info_get info_fd fdInfo;
    _ ← item_upd (λ i, set_epi_event event (set_epi_ovf_revents 0 (set_epi_revents 0 (set_epi_epInfo (Some fdInfo) (set_epi_ep (Some ep)
                       (set_epi_nwait 0 (set_epi_lkFDllink (mk_hn None None) i))))))) epi;
    _ ← fll_upd (λ m, _ ← m !! epi; Some (<[epi := None]> m));
    _ ← item_upd (λ i, set_epi_fd fd (set_epi_revents 0 i)) epi;
    head ← info_get info_epiList fdInfo;
    _ ← fll_upd (λ m, ep_list_add_tail list_fuel m head epi);
    _ ← item_upd (set_epi_private_data (Some fdInfo)) epi;
    _ ← epoll_rbtree_insert ep epi;
    _ ← nsep_epctl_triggle epi fdInfo nstack_ep_triggle_add;
    mret 0.

Definition nsep_isAddValid (fd : Z) : M Z :=
  if (0 <=? se_fix_mid env) && (se_fix_mid env <? NSTACK_MAX_MODULE_NUM) then
    match se_fd_check env with Some f => ask (f fd) | None => mret 0 end
  else mret 0.

Definition nsep_epctl_add (ep fd : Z) (event : epoll_event) : M Z :=
  fdInfo ← nsep_get_infoBySock fd;
  fdInfo ← match fdInfo with
           | Some i => mret (inl i)
           | None =>
               v ← nsep_isAddValid fd;
               if 0 =? v then mret (inr (-1))
               else
                 e ← nsep_alloc_infoWithSock fd;
                 if -1 =? e then mret (inr (-1))
                 else
                   _ ← nsep_set_infoProtoFD fd (se_fix_mid env) fd;
                   i ← nsep_get_infoBySock fd; i ← lift i; mret (inl i)
           end;
  match fdInfo with
  | inr e => mret e
  | inl i => e ← nsep_insert_node ep event i; mret (if negb (0 =? e) then -1 else 0)
  end.

Definition nstack_ep_unlink (ep epi : Z) : M Z :=
  m ← gets es_rbn; n ← lift (m !! epi);
  if bool_decide (rb_parent n = Some epi) then mret ENOENT
  else
    _ ← item_upd (λ i, set_epi_event (mk_ev 0 (data (epi_event i))) i) epi;
    _ ← tree_upd (λ t, ep_rb_erase tree_fuel t epi) ep;
    _ ← (m ← gets es_rbn; n ← lift (m !! epi); modify (set_es_rbn (<[epi := set_parent (Some epi) n]> m)));
    l ← linked epi;
    _ ← when l (rdlist_upd (λ m l, ep_hlist_del m l epi) ep);
    mret 0.

Definition nsep_epctl_del (ep epi : Z) : M Z :=
  info ← item_get epi_private_data epi; info ← lift info;
  _ ← nsep_epctl_triggle epi info nstack_ep_triggle_del;
  head ← info_get info_epiList info;
  _ ← fll_upd (λ m, ep_list_del list_fuel m head epi);
  ret ← nstack_ep_unlink ep epi;
  _ ← nsep_free_epitem epi;
  mret ret.

Definition nsep_epctl_mod (ep : Z) (epInfo : option Z) (epi : Z) (event : epoll_event) : M Z :=
  match epInfo with
  | None => _ ← set_errno EINVAL; mret (-1)
  | Some i => _ ← item_upd (set_epi_event event) epi; _ ← nsep_epctl_triggle epi i nstack_ep_triggle_mod; mret 0
  end.

Inductive epoll_op := EPOLL_CTL_ADD | EPOLL_CTL_DEL | EPOLL_CTL_MOD | EPOLL_CTL_OTHER.
#[global] Instance epoll_op_eq : EqDecision epoll_op.
Proof. solve_decision. Defined.

(** The operation itself, [ep->sem] held. *)
Definition epoll_ctl_op (ep : Z) (op : epoll_op) (fd : Z) (full : epoll_event) : M Z :=
  epi ← epoll_find_ep ep fd;
  match op, epi with
  | EPOLL_CTL_ADD, None => nsep_epctl_add ep fd full
  | EPOLL_CTL_ADD, Some _ => _ ← set_errno EEXIST; mret (-1)
  | EPOLL_CTL_DEL, Some epi => nsep_epctl_del ep epi
  | EPOLL_CTL_MOD, Some epi => i ← nsep_get_infoBySock fd; nsep_epctl_mod ep i epi full
  | EPOLL_CTL_DEL, None | EPOLL_CTL_MOD, None => _ ← set_errno ENOENT; mret (-1)
  | EPOLL_CTL_OTHER, _ => _ ← set_errno EINVAL; mret (-1)
  end.

(** From the checks on, once the descriptors are known to be open and are locked. *)
Definition nstack_epoll_ctl (epfd : Z) (op : epoll_op) (fd : Z) (event : option epoll_event) : M Z :=
  if negb (se_is_epoll env epfd) || (fd =? epfd) then _ ← set_errno EINVAL; mret (-1)
  else if negb (NSEP_IS_SOCK_VALID fd) then _ ← set_errno EBADF; mret (-1)
  else
    epInfo ← nsep_get_infoBySock epfd;
    match epInfo with
    | None => _ ← set_errno EINVAL; mret (-1)
    | Some epInfo =>
        ep ← info_get info_ep epInfo;
        match ep with
        | None => _ ← set_errno EINVAL; mret (-1)
        | Some ep =>
            if bool_decide (event = None ∧ op ≠ EPOLL_CTL_DEL) then _ ← set_errno EFAULT; mret (-1)
            else
              let ep_event := match event with Some e => e | None => mk_ev 0 0 end in
              let full := mk_ev (Z.lor (events ep_event) (Z.lor EPOLLERR EPOLLHUP)) (data ep_event) in
              epoll_ctl_op ep op fd full
        end
    end.
End epoll.
