(* ===== verification/EpollPoll.v ===== *)
(** * Epoll: polling, events of the stacks, closing and recycling (the rest of the operations on the data of [EpollData]) *)
From S2P Require Import Prelude.
From S2P Require Import Queue.
From S2P Require Import RbTree.
From S2P Require Import EpList.
From S2P Require Import EpollData.
From S2P Require Import Epoll.

(** The part of a ready list that a poll has detached. *)
Record ep_node_list := mk_nl { nl_head : option Z; nl_tail : option Z }.
(** What a poll writes: the caller's array of events and the flags of the modules ([None]: a null pointer). *)
Record poll_out := mk_po { po_events : list epoll_event; po_flag : option (list Z) }.

Section poll.
Context {Q W : Type} `{BoundedQueue Q} (env : stack_env W).
Abbreviation M := (stM (est Q W)).

(** ** [nsep_ep_poll] *)

Definition nstack_ep_getEvt (epFD profd modInx evs ret : Z) : M Z :=
  if (modInx <? 0) || (NSTACK_MAX_MODULE_NUM <=? modInx) then lift None
  else match se_ep_getevt env modInx with
  | None => mret ret
  | Some f => r ← ask (f epFD profd evs); mret (Z.lor ret (wrap32 r))
  end.

(** [eventflag[rmidx] = 1] when there are flags and the module has one. *)
Definition mark_flag (flag : option (list Z)) (rmidx num : Z) : M (option (list Z)) :=
  match flag with
  | Some f => if (0 <=? rmidx) && (rmidx <? num) then f ← lift (awrite f rmidx 1); mret (Some f) else mret flag
  | None => mret None
  end.

(** One round of the loop of [nsep_events_proc] for the item [epi], up to the test of [maxevents]. *)
Definition proc_item (ep epi num : Z) (o : poll_out) (evt : Z) : M (poll_out * Z) :=
  _ ← rdl_upd (λ m, EP_HLIST_INIT_NODE m epi);
  info ← item_get epi_private_data epi; info ← lift info;
  rmidx ← info_get info_rmidx info;
  ev ← item_get epi_event epi;
  _ ← when (negb (rmidx =? -1))
        (epfd ← ep_get ep_epfd ep; rlfd ← info_get info_rlfd info; r ← item_get epi_revents epi;
         r ← nstack_ep_getEvt epfd rlfd rmidx (events ev) r;
         item_upd (set_epi_revents r) epi);
  r ← item_get epi_revents epi;
  '(o, evt) ← (if negb (r =? 0) then
                 fl ← mark_flag (po_flag o) rmidx num;
                 evs ← lift (awrite (po_events o) evt (mk_ev r (data ev)));
                 mret (mk_po evs fl, evt + 1)
               else mret (o, evt));
  _ ← when (negb (r =? 0) && negb (EPOLLET =? Z.land (events ev) EPOLLET)) (rdlist_upd (λ m l, ep_hlist_add_tail m l epi) ep);
  _ ← item_upd (set_epi_revents 0) epi;
  mret (o, evt).

Fixpoint events_loop (fuel : nat) (ep maxevents num : Z) (head : option Z) (o : poll_out) (evt : Z) : M (option Z * poll_out * Z) :=
  match head with
  | None => mret (None, o, evt)
  | Some epi =>
      match fuel with
      | O => lift None
      | S fuel =>
          next ← rdl_get (λ m, hn_get hn_next m epi);
          '(o, evt) ← proc_item ep epi num o evt;
          if maxevents <=? evt then mret (next, o, evt) else events_loop fuel ep maxevents num next o evt
      end
  end.

Definition nsep_events_proc (ep : Z) (nhead : ep_node_list) (o : poll_out) (maxevents num : Z) : M (ep_node_list * poll_out * Z) :=
  '(head, o, evt) ← events_loop list_fuel ep maxevents num (nl_head nhead) o 0;
  mret (mk_nl head (if bool_decide (head = None) then None else nl_tail nhead), o, evt).

(** The ready list is detached; from now on events go to [ovflist].  [None]: the list has no head. *)
Definition poll_detach (ep : Z) : M (option ep_node_list) :=
  l ← ep_get ep_rdlist ep;
  match hl_head l with
  | None => mret None
  | Some h =>
      nx ← rdl_get (λ m, hn_get hn_next m h);
      _ ← rdlist_upd (λ m _, EP_HLIST_INIT m ep) ep;
      _ ← ep_upd (set_ep_ovflist (Ovf None)) ep;
      mret (Some (mk_nl nx (hl_tail l)))
  end.

(** What was not processed goes back behind what was queued again. *)
Definition put_rest (ep : Z) (nhead : ep_node_list) : M unit :=
  match nl_head nhead with
  | None => mret tt
  | Some h =>
      l ← ep_get ep_rdlist ep; tail ← lift (hl_tail l);
      _ ← rdl_upd (λ m, m ← hn_set_next (Some h) m tail; hn_set_pprev (Some tail) m h);
      ep_upd (set_ep_rdlist (mk_ehl (hl_head l) (nl_tail nhead))) ep
  end.

(** The events that came during the poll. *)
Fixpoint put_ovf (fuel : nat) (ep num : Z) (nepi : ovf_ptr) (flag : option (list Z)) : M (option (list Z)) :=
  match nepi with
  | NSEP_EP_UNACTIVE_PTR => lift None
  | Ovf None => mret flag
  | Ovf (Some epi) =>
      match fuel with
      | O => lift None
      | S fuel =>
          _ ← item_upd (λ i, set_epi_revents (Z.lor (epi_revents i) (epi_ovf_revents i)) i) epi;
          info ← item_get epi_private_data epi;
          flag ← match info with
                 | Some info => rmidx ← info_get info_rmidx info; mark_flag flag rmidx num
                 | None => mret flag
                 end;
          _ ← item_upd (set_epi_ovf_revents 0) epi;
          l ← linked epi;
          _ ← when (negb l) (rdlist_upd (λ m l, ep_hlist_add_tail m l epi) ep);
          nepi ← item_get epi_next epi;
          _ ← item_upd (set_epi_next NSEP_EP_UNACTIVE_PTR) epi;
          put_ovf fuel ep num nepi flag
      end
  end.

Definition poll_finish (ep num : Z) (nhead : ep_node_list) (flag : option (list Z)) : M (option (list Z)) :=
  _ ← put_rest ep nhead;
  ovf ← ep_get ep_ovflist ep;
  flag ← put_ovf list_fuel ep num ovf flag;
  _ ← ep_upd (set_ep_ovflist NSEP_EP_UNACTIVE_PTR) ep;
  mret flag.

Definition rdlist_empty (ep : Z) : M bool := l ← ep_get ep_rdlist ep; rdl_get (λ m, EP_HLIST_EMPTY m l).

Definition nsep_ep_poll (ep : Z) (o : poll_out) (maxevents num : Z) : M (poll_out * Z) :=
  e ← rdlist_empty ep;
  if (e : bool) then mret (o, 0)
  else
    e ← rdlist_empty ep;
    if (e : bool) then mret (o, 0)
    else
      nhead ← poll_detach ep;
      match nhead with
      | None => mret (o, 0)
      | Some nhead =>
          '(nhead, o, evt) ← nsep_events_proc ep nhead o maxevents num;
          flag ← poll_finish ep num nhead (po_flag o);
          mret (mk_po (po_events o) flag, evt)
      end.

(** ** [nstack_event_callback] *)

(** What the callback does for one item, [ep->lock] held. *)
Definition callback_item (epi ep evs : Z) : M unit :=
  o ← ep_get ep_ovflist ep;
  if negb (bool_decide (o = NSEP_EP_UNACTIVE_PTR)) then
    n ← item_get epi_next epi;
    _ ← when (bool_decide (n = NSEP_EP_UNACTIVE_PTR))
          (_ ← item_upd (set_epi_next o) epi; ep_upd (set_ep_ovflist (Ovf (Some epi))) ep);
    item_upd (λ i, set_epi_ovf_revents (Z.lor (epi_ovf_revents i) (wrap32 evs)) i) epi
  else
    l ← linked epi;
    _ ← when (negb l)
          (_ ← rdlist_upd (λ m l, ep_hlist_add_tail m l epi) ep; ep_upd (λ r, set_ep_waitSem (ep_waitSem r + 1) r) ep);
    item_upd (λ i, set_epi_revents (Z.lor (epi_revents i) (Z.land (events (epi_event i)) (wrap32 evs))) i) epi.

Fixpoint callback_walk (fuel : nat) (node : option Z) (evs : Z) : M unit :=
  match node with
  | None => mret tt
  | Some epi =>
      match fuel with
      | O => lift None
      | S fuel =>
          next ← fll_get (λ m, m !! epi);
          ep ← item_get epi_ep epi;
          ev ← item_get epi_event epi;
          if negb (has (events ev) (wrap32 evs)) then callback_walk fuel next evs
          else
            ep ← lift ep;
            p ← ep_get ep_pid ep;
            if negb (p =? se_pid env) && negb (se_same_process env =? 0) then callback_walk fuel next evs
            else _ ← callback_item epi ep evs; callback_walk fuel next evs
      end
  end.

Definition nstack_event_callback (pdata : option Z) (evs : Z) : M Z :=
  match pdata with
  | None => mret (-1)
  | Some info =>
      head ← info_get info_epiList info; head ← lift head;
      node ← fll_get (λ m, m !! head);
      _ ← callback_walk list_fuel node evs;
      mret 0
  end.

(** ** Closing *)

Definition FREE_LIST_SIZE : Z := 128.

(** The items of this process leave the list of the descriptor; [n]: the rounds left.  The blocks of the release list are one list [acc];
    a block more is allocated when [FREE_LIST_SIZE] divides its length. *)
Fixpoint remove_collect (n : nat) (prenode : Z) (nextnode : option Z) (acc : list Z) : M (list Z) :=
  match nextnode, n with
  | None, _ | _, O => mret acc
  | Some epi, S n =>
      p ← item_get epi_pid epi;
      if se_pid env =? p then
        nx ← fll_get (λ m, m !! epi);
        _ ← fll_upd (λ m, _ ← m !! prenode; let m := <[prenode := nx]> m in _ ← m !! epi; Some (<[epi := None]> m));
        ok ← (if (Z.of_nat (length acc) mod FREE_LIST_SIZE =? 0) && negb (Z.of_nat (length acc) =? 0) then ask (se_malloc env) else mret true);
        if negb ok then mret acc
        else nextnode ← fll_get (λ m, m !! prenode); remove_collect n prenode nextnode (acc ++ [epi])
      else nextnode ← fll_get (λ m, m !! epi); remove_collect n epi nextnode acc
  end.

Fixpoint remove_release (pinfo : Z) (l : list Z) : M unit :=
  match l with
  | [] => mret tt
  | epi :: l =>
      ep ← item_get epi_ep epi;
      _ ← match ep with
          | None => mret tt
          | Some ep =>
              fd ← info_get info_fd pinfo;
              tepi ← epoll_find_ep ep fd;
              match tepi with
              | None => mret tt
              | Some tepi =>
                  _ ← nsep_epctl_triggle env tepi pinfo nstack_ep_triggle_del;
                  _ ← nstack_ep_unlink ep tepi;
                  _ ← nsep_free_epitem epi;
                  mret tt
              end
          end;
      remove_release pinfo l
  end.

Definition nsep_remove_epfd (pinfo : option Z) : M unit :=
  match pinfo with
  | None => mret tt
  | Some pinfo =>
      head ← info_get info_epiList pinfo; head ← lift head;
      node ← fll_get (λ m, m !! head);
      l ← remove_collect (Z.to_nat NSTACK_MAX_EPOLL_INFO_NUM) head node [];
      remove_release pinfo l
  end.

Fixpoint close_loop (fuel : nat) (ep : Z) : M unit :=
  t ← tree_of ep;
  node ← lift (ep_rb_first tree_fuel t);
  match node with
  | None => mret tt
  | Some epi =>
      match fuel with
      | O => lift None
      | S fuel => ret ← nsep_epctl_del env ep epi; if negb (ret =? 0) then mret tt else close_loop fuel ep
      end
  end.

Definition nsep_close_epfd (ep : option Z) : M unit :=
  match ep with
  | None => mret tt
  | Some ep => _ ← close_loop tree_fuel ep; _ ← nsep_free_eventpoll ep; mret tt
  end.

(** [nsep_del_last_pid] on the identifiers of [info]. *)
Definition info_del_last_pid (info pid : Z) : M Z :=
  p ← info_get info_pidinfo info; '(c, p) ← lift (nsep_del_last_pid p pid); _ ← info_upd (set_info_pidinfo p) info; mret c.

Definition nsp_epoll_close_kernel_fd (info : Z) : M Z :=
  _ ← nsep_remove_epfd (Some info);
  left_count ← info_del_last_pid info (se_pid env);
  if 0 =? left_count then nsep_free_epinfo info else mret 0.

Definition nsp_epoll_close_spl_fd (info : Z) : M Z := _ ← nsep_remove_epfd (Some info); mret 0.

Definition nsp_epoll_close_ep_fd (info : Z) : M Z :=
  ep ← info_get info_ep info;
  left_count ← info_del_last_pid info (se_pid env);
  _ ← when (0 =? left_count)
        (_ ← info_upd (set_info_ep None) info; _ ← nsep_close_epfd ep; _ ← nsep_free_epinfo info; mret tt);
  mret 0.

(** Some module has no bit in [flag]. *)
Fixpoint module_missing (n : nat) (modInx flag : Z) : bool :=
  match n with
  | O => false
  | S n => (Z.land flag (Z.shiftl 1 modInx) =? 0) || module_missing n (modInx + 1) flag
  end.

Definition nsep_epoll_close (sock : Z) : M Z :=
  info ← nsep_get_infoBySock env sock;
  match info with
  | None => mret 0
  | Some info =>
      t ← info_get info_fdtype info;
      if NSTACK_EPOL_FD =? t then
        ret ← nsp_epoll_close_ep_fd info; _ ← nsep_set_infoSockMap env sock None; mret ret
      else
        _ ← nsep_set_infoSockMap env sock None;
        f ← info_get info_epaddflag info;
        if negb (module_missing (Z.to_nat (se_modNum env)) 0 f) then nsp_epoll_close_kernel_fd info else nsp_epoll_close_spl_fd info
  end.

(** ** After a process has exited *)

Fixpoint epitem_remove_loop (n : nat) (prenode : Z) (nextnode : option Z) (pid icnt : Z) : M Z :=
  match nextnode, n with
  | None, _ | _, O => mret icnt
  | Some epi, S n =>
      p ← item_get epi_pid epi;
      nx ← fll_get (λ m, m !! epi);
      if pid =? p then
        _ ← fll_upd (λ m, _ ← m !! prenode; let m := <[prenode := nx]> m in _ ← m !! epi; Some (<[epi := None]> m));
        _ ← nsep_free_epitem epi;
        nextnode ← fll_get (λ m, m !! prenode);
        epitem_remove_loop n prenode nextnode pid (icnt + 1)
      else epitem_remove_loop n epi nx pid icnt
  end.

Definition nsep_epitem_remove (pinfo pid : Z) : M Z :=
  head ← info_get info_epiList pinfo; head ← lift head;
  node ← fll_get (λ m, m !! head);
  epitem_remove_loop (S (Z.to_nat NSTACK_MAX_EPOLL_INFO_NUM)) head node pid 0.

Definition nsep_recycle_epfd (info pid : Z) : M unit :=
  ileftcnt ← info_del_last_pid info pid;
  if -1 =? ileftcnt then mret tt
  else
    t ← info_get info_fdtype info;
    if NSTACK_EPOL_FD =? t then
      when (0 =? ileftcnt)
        (ep ← info_get info_ep info;
         _ ← info_upd (set_info_ep None) info;
         _ ← match ep with Some ep => nsep_free_eventpoll ep | None => mret (-1) end;
         _ ← nsep_free_epinfo info; mret tt)
    else
      _ ← nsep_epitem_remove info pid;
      when (0 =? ileftcnt) (_ ← nsep_free_epinfo info; mret tt).

(** [f] on the objects of a pool, in the order of the pool. *)
Fixpoint pool_each (n : nat) (x : Z) (f : Z → M unit) : M unit :=
  match n with O => mret tt | S n => _ ← f x; pool_each n (x + 1) f end.

Definition nsep_recycle_ep (pid : Z) : M Z :=
  _ ← pool_each (Z.to_nat NSTACK_MAX_EPOLL_INFO_NUM) (se_infoBase env) (λ x, nsep_recycle_epfd x pid); mret 0.
Definition nsep_recycle_epItem (pid : Z) : M Z :=
  _ ← pool_each (Z.to_nat NSTACK_MAX_EPITEM_NUM) (se_itemBase env)
        (λ x, p ← item_get epi_pid x; when (p =? pid) (_ ← nsep_free_epitem x; mret tt)); mret 0.
Definition nsep_recycle_eventpoll (pid : Z) : M Z :=
  _ ← pool_each (Z.to_nat NSTACK_MAX_EPOLL_INFO_NUM) (se_epBase env)
        (λ x, p ← ep_get ep_pid x; when (p =? pid) (_ ← nsep_free_eventpoll x; mret tt)); mret 0.
Definition nsep_recycle_resource (exit_pid : Z) : M unit :=
  _ ← nsep_recycle_epItem exit_pid; _ ← nsep_recycle_eventpoll exit_pid; mret tt.

(** ** Forking *)

(** [f] on the descriptors that have an information. *)
Fixpoint sock_each (n : nat) (pos : Z) (f : Z → Z → M unit) : M unit :=
  match n with
  | O => mret tt
  | S n =>
      m ← gets es_sockMap; m ← lift m; i ← lift (aread m pos);
      _ ← match i with Some i => f pos i | None => mret tt end;
      sock_each n (pos + 1) f
  end.

Definition nsep_fork_parent_proc (cpid : Z) : M unit :=
  m ← gets es_sockMap;
  match m with
  | None => mret tt
  | Some _ =>
      sock_each (Z.to_nat (se_kernel_fd_max env)) 0 (λ pos i,
        when (negb (se_cloexec env pos))
          (p ← info_get info_pidinfo i; '(_, p) ← lift (nsep_add_pid p cpid); info_upd (set_info_pidinfo p) i))
  end.

Definition nsep_fork_child_proc : M unit :=
  m ← gets es_sockMap;
  match m with
  | None => mret tt
  | Some _ =>
      sock_each (Z.to_nat (se_kernel_fd_max env)) 0 (λ pos i,
        p ← info_get info_pidinfo i; e ← lift (nsep_is_pid_exist p (se_pid env));
        when (e =? 0) (nsep_set_infoSockMap env pos None))
  end.

(** ** Creation of the pools *)

Definition res0 : nsfw_res := mk_res 0 0 0 0.
Definition epitem0 : epitem := mk_epi (mk_hn None None) 0 None None (Ovf None) (mk_ev 0 0) 0 0 0 0 None res0.
Definition eventpoll0 : eventpoll := mk_ep 0 (mk_ehl None None) (Ovf None) None 0 0 res0.
Definition epinfo0 : nsep_epollInfo_t :=
  mk_info 0 0 0 0 0 (replicate (Z.to_nat NSEP_SMOD_MAX) 0) None None 0 nsep_for_pidinfo_init None res0.

(** The test for [-1]: [nsfw_mem_ring_enqueue] returns 0 or 1. *)
Fixpoint pool_fill (n : nat) (x : Z) (zero : Z → M unit) (enq : Z → M Z) : M Z :=
  match n with
  | O => mret 0
  | S n => _ ← zero x; e ← enq x; if -1 =? e then mret (-1) else pool_fill n (x + 1) zero enq
  end.

Definition nsep_epPoolInit : M Z :=
  pool_fill (Z.to_nat NSTACK_MAX_EPOLL_INFO_NUM) (se_epBase env)
    (λ x, _ ← modify (λ s, set_es_eps (<[x := eventpoll0]> (es_eps s)) s); modify (λ s, set_es_rdl (<[x := mk_hn None None]> (es_rdl s)) s))
    (pool_enqueue es_epPool set_es_epPool).
Definition nsep_epitemPoolInit : M Z :=
  pool_fill (Z.to_nat NSTACK_MAX_EPITEM_NUM) (se_itemBase env)
    (λ x, _ ← modify (λ s, set_es_items (<[x := epitem0]> (es_items s)) s);
          _ ← modify (λ s, set_es_rbn (<[x := mk_rb 0 None None None]> (es_rbn s)) s);
          _ ← modify (λ s, set_es_rdl (<[x := mk_hn None None]> (es_rdl s)) s);
          modify (λ s, set_es_fll (<[x := None]> (es_fll s)) s))
    (pool_enqueue es_itemPool set_es_itemPool).
Definition nsep_epInfoPoolInit : M Z :=
  pool_fill (Z.to_nat NSTACK_MAX_EPOLL_INFO_NUM) (se_infoBase env)
    (λ x, _ ← modify (λ s, set_es_infos (<[x := epinfo0]> (es_infos s)) s); modify (λ s, set_es_fll (<[x := None]> (es_fll s)) s))
    (pool_enqueue es_infoPool set_es_infoPool).
End poll.
