(* ===== verification/EpollInv.v ===== *)
(** * Epoll: the invariant of the shared objects

    [einv s g]: every event poll in use has a red-black tree of items in the order of their descriptors, a ready list of
    some of them and, during a poll, a detached list and a list of the items with events that came meanwhile; every information in use has
    the list of the items of its descriptor; what is in a pool is not in use.  The ghost state [g] names the sequences. *)
From S2P Require Import Prelude.
From S2P Require Import Queue.
From S2P Require Import RbTree.
From S2P Require Import RbTreeProofs.
From S2P Require Import RbTreeProps.
From S2P Require Import RbTreeLocal.
From S2P Require Import EpList.
From S2P Require Import EpollData.
From S2P Require Import Epoll.
From S2P Require Import EpollPoll.

(** ** Ghost state *)

(** Of an event poll: no poll under way; one with the items still detached and the items of [ovflist]; or the end of one,
    that has come to the item [p] of [ovflist], with [ovf] to go. *)
Inductive phase := Idle | Polling (rest ovf : list Z) | Merging (p : ovf_ptr) (ovf : list Z).
Record gep := mk_gep { ge_tree : list Z; ge_ready : list Z; ge_phase : phase }.
Record ghost := mk_gh { g_eps : gmap Z gep; g_fl : gmap Z (list Z) }.

Definition ph_rest (p : phase) : list Z := match p with Polling d _ => d | _ => [] end.
Definition ph_ovf (p : phase) : list Z := match p with Idle => [] | Polling _ o | Merging _ o => o end.

Definition set_tree (l : list Z) (e : gep) : gep := mk_gep l (ge_ready e) (ge_phase e).
Definition set_ready (l : list Z) (e : gep) : gep := mk_gep (ge_tree e) l (ge_phase e).
Definition set_phase (p : phase) (e : gep) : gep := mk_gep (ge_tree e) (ge_ready e) p.
Definition gep_upd (ep : Z) (e : gep) (g : ghost) : ghost := mk_gh (<[ep := e]> (g_eps g)) (g_fl g).
Definition fl_upd (i : Z) (l : list Z) (g : ghost) : ghost := mk_gh (g_eps g) (<[i := l]> (g_fl g)).

(** The identifiers of a descriptor. *)
Definition pid_ok (p : nsep_pidinfo) : Prop := length (pid_array p) = Z.to_nat NSTACK_FORK_NUM ∧ 0 <= pid_used_size p <= NSTACK_FORK_NUM.

(** The pointers of [ovflist]: the item after [x] is its [next]. *)
Fixpoint ovf_chain (m : gmap Z epitem) (p : ovf_ptr) (l : list Z) : Prop :=
  match l with
  | [] => p = Ovf None
  | x :: l => p = Ovf (Some x) ∧ ∃ it, m !! x = Some it ∧ ovf_chain m (epi_next it) l
  end.

(** The detached items: linked one to the next, the last one to nothing. *)
Definition detached (m : hmem) (l : list Z) : Prop :=
  match l with [] => True | x :: l => hchain m x l ∧ ∃ p, hn_get hn_pprev m x = Some (Some p) end.

Section inv.
Context {Q W : Type} `{BoundedQueue Q} (env : stack_env W).
Abbreviation st := (est Q W).
Implicit Types (s : st) (g : ghost).

(** A pool: a queue of distinct objects that are not in use, with room for all. *)
Record pool_ok {A} (q : Q) (m : gmap Z A) (flag : A → Z) : Prop := {
  po_inv : q_inv q;
  po_nodup : NoDup (q_contents q);
  po_free : ∀ x, x ∈ q_contents q → ∃ a, m !! x = Some a ∧ flag a = 0;
  po_cap : Z.of_nat (size m) <= q_cap q < 2 ^ 32;
  po_null : m !! 0 = None
}.

(** An item of the tree of [ep]; [z]: the items that are being added or removed. *)
Definition item_ok (z : list Z) s g (ep : Z) (e : gep) (x : Z) : Prop :=
  ∃ it, es_items s !! x = Some it ∧ epi_ep it = Some ep ∧ alloc_flag (epi_res_chk it) = 1 ∧ epi_pid it = se_pid env ∧
    (x ∉ ph_ovf (ge_phase e) → epi_next it = NSEP_EP_UNACTIVE_PTR) ∧
    (x ∉ z → ∃ i l r, epi_private_data it = Some i ∧ g_fl g !! i = Some l ∧ x ∈ l ∧ es_infos s !! i = Some r ∧ info_fd r = epi_fd it).

(** An event poll in use. *)
Record ep_ok (z : list Z) s g (ep : Z) (e : gep) (r : eventpoll) : Prop := {
  eo_tree : tree_inv (fd_of s) (mk_rbt (es_rbn s) (ep_rbr r)) (ge_tree e);
  eo_ready : ehlist (es_rdl s) (ep_rdlist r) ep (ge_ready e);
  eo_rest : detached (es_rdl s) (ph_rest (ge_phase e));
  eo_queued : NoDup (ge_ready e ++ ph_rest (ge_phase e));
  eo_sub : ∀ x, x ∈ ge_ready e ++ ph_rest (ge_phase e) ++ ph_ovf (ge_phase e) → x ∈ ge_tree e;
  eo_ovf : match ge_phase e with
           | Idle => ep_ovflist r = NSEP_EP_UNACTIVE_PTR
           | Polling _ o => ovf_chain (es_items s) (ep_ovflist r) o ∧ NoDup o
           | Merging p o => ovf_chain (es_items s) p o ∧ NoDup o
           end;
  eo_unlinked : ∀ x, x ∈ ge_tree e → x ∉ ge_ready e ++ ph_rest (ge_phase e) → es_rdl s !! x = Some (mk_hn None None);
  eo_items : ∀ x, x ∈ ge_tree e → item_ok z s g ep e x;
  eo_flag : alloc_flag (ep_res_chk r) = 1;
  eo_info : ∃ m i, es_sockMap s = Some m ∧ aread m (ep_epfd r) = Some (Some i) ∧ 0 <= ep_epfd r < se_kernel_fd_max env
}.

(** An information in use. *)
Record info_ok (z : list Z) s g (i : Z) (l : list Z) (r : nsep_epollInfo_t) : Prop := {
  io_list : slist (es_fll s) i l;
  io_head : info_epiList r = Some i;
  io_items : ∀ x, x ∈ l → is_Some (es_items s !! x) ∧ (x ∉ z →
    ∃ ep e it, g_eps g !! ep = Some e ∧ x ∈ ge_tree e ∧ es_items s !! x = Some it ∧ epi_private_data it = Some i);
  io_flag : alloc_flag (info_res_chk r) = 1;
  io_proto : length (info_protoFD r) = Z.to_nat NSEP_SMOD_MAX;
  io_rmidx : -1 <= info_rmidx r < NSEP_SMOD_MAX;
  io_pids : pid_ok (info_pidinfo r)
}.

(** The objects' memories. *)
Record mem_ok s : Prop := {
  mo_items : ∀ x, is_Some (es_items s !! x) → is_Some (es_rbn s !! x) ∧ is_Some (es_rdl s !! x) ∧ is_Some (es_fll s !! x);
  mo_eps : ∀ x, is_Some (es_eps s !! x) → is_Some (es_rdl s !! x) ∧ es_items s !! x = None;
  mo_infos : ∀ x, is_Some (es_infos s !! x) → is_Some (es_fll s !! x) ∧ es_items s !! x = None;
  mo_max : Z.of_nat (size (es_items s)) <= NSTACK_MAX_EPITEM_NUM ∧ Z.of_nat (size (es_eps s)) <= NSTACK_MAX_EPOLL_INFO_NUM
}.

(** The event poll [ep] is in use, for the descriptor [fd]. *)
Definition live s g (ep fd : Z) : Prop := ∃ e q, g_eps g !! ep = Some e ∧ es_eps s !! ep = Some q ∧ ep_epfd q = fd.

(** The map of the descriptors. *)
Definition sock_ok s g : Prop :=
  ∃ m, es_sockMap s = Some m ∧ Z.of_nat (length m) = se_kernel_fd_max env ∧
    ∀ fd i, aread m fd = Some (Some i) → ∃ r, es_infos s !! i = Some r ∧ is_Some (g_fl g !! i) ∧ info_fd r = fd ∧
      (∀ ep, info_ep r = Some ep → live s g ep fd).

Record einvx (z : list Z) s g : Prop := {
  ei_mem : mem_ok s;
  ei_ipool : pool_ok (es_itemPool s) (es_items s) (λ i, alloc_flag (epi_res_chk i));
  ei_epool : pool_ok (es_epPool s) (es_eps s) (λ r, alloc_flag (ep_res_chk r));
  ei_fpool : pool_ok (es_infoPool s) (es_infos s) (λ r, alloc_flag (info_res_chk r));
  ei_eps : ∀ ep e, g_eps g !! ep = Some e → ∃ r, es_eps s !! ep = Some r ∧ ep_ok z s g ep e r;
  ei_infos : ∀ i l, g_fl g !! i = Some l → ∃ r, es_infos s !! i = Some r ∧ info_ok z s g i l r;
  ei_disj : ∀ i j l l', g_fl g !! i = Some l → g_fl g !! j = Some l' → i ≠ j → ∀ x, x ∈ l → x ∉ l';
  ei_sock : sock_ok s g;
  ei_mods : 0 <= se_modNum env <= NSTACK_MAX_MODULE_NUM
}.
Definition einv : st → ghost → Prop := einvx [].

Definition in_tree g (x : Z) : Prop := ∃ ep e, g_eps g !! ep = Some e ∧ x ∈ ge_tree e.

(** ** What the invariant reads of the state *)

(** The fields of an item and of an information that the invariant speaks of. *)
Definition item_key (it : epitem) := (epi_ep it, epi_next it, epi_fd it, epi_pid it, epi_private_data it, alloc_flag (epi_res_chk it)).
Definition item_key0 (it : epitem) := (epi_ep it, epi_fd it, epi_pid it, epi_private_data it, alloc_flag (epi_res_chk it)).
Definition ep_key (r : eventpoll) := (ep_rdlist r, ep_ovflist r, ep_rbr r, ep_epfd r, alloc_flag (ep_res_chk r)).
Definition info_key (r : nsep_epollInfo_t) :=
  (info_fd r, info_rmidx r, length (info_protoFD r), info_ep r, info_epiList r, info_pidinfo r, alloc_flag (info_res_chk r)).

Lemma fmap_eq_Some {A B} (f : A → B) (o o' : option A) a : f <$> o' = f <$> o → o = Some a → ∃ a', o' = Some a' ∧ f a' = f a.
Proof. intros Heq ->. cbn in Heq. apply fmap_Some in Heq as (a' & -> & Ha). eauto. Qed.

Lemma fd_of_key s s' x : item_key <$> (es_items s' !! x) = item_key <$> (es_items s !! x) → fd_of s' x = fd_of s x.
Proof.
  unfold fd_of. destruct (es_items s !! x) as [it|] eqn:Hx; [|by destruct (es_items s' !! x)].
  intros (it' & -> & Hk)%(fmap_eq_Some _ _ _ it); [|done]. unfold item_key in Hk. congruence.
Qed.

Lemma fd_sorted_ext fd fd' l : (∀ x, x ∈ l → fd' x = fd x) → fd_sorted fd l → fd_sorted fd' l.
Proof.
  unfold fd_sorted. intros Hx Hs. induction Hs as [|x l Hs IH Hf]; constructor.
  - apply IH. intros y Hy. apply Hx. by right.
  - rewrite Forall_forall in *. intros y Hy. rewrite !Hx; [by apply Hf|by right|left].
Qed.

Lemma tree_inv_frame fd fd' t t' l : (∀ x, x ∈ l → fd' x = fd x) → (∀ y, y ∈ l → rb_nodes t' !! y = rb_nodes t !! y) → rb_node t' = rb_node t →
  tree_inv fd t l → tree_inv fd' t' l.
Proof.
  intros Hfd Hn Hr Hi. apply (tree_inv_ext fd t t' l Hn Hr) in Hi as [H1 H2]. split; [|done]. by apply (fd_sorted_ext fd).
Qed.

Lemma ehlist_ext m m' l h xs : (∀ y, y ∈ h :: xs → m' !! y = m !! y) → ehlist m l h xs → ehlist m' l h xs.
Proof.
  intros Hy [H1 H2 H3 H4]. split; [done..|]. apply (hchain_ext m); [| |done]; intros y Hin; apply hn_get_ext, Hy; [done|by right].
Qed.

Lemma detached_ext m m' l : (∀ y, y ∈ l → m' !! y = m !! y) → detached m l → detached m' l.
Proof.
  destruct l as [|x l]; [done|]. intros Hy [Hc [p Hp]]. split.
  - apply (hchain_ext m); [| |done]; intros y Hin; apply hn_get_ext, Hy; [done|by right].
  - exists p. rewrite <- Hp. apply hn_get_ext, Hy. left.
Qed.

Lemma ovf_chain_ext m m' p l : (∀ x, x ∈ l → epi_next <$> (m' !! x) = epi_next <$> (m !! x)) → ovf_chain m p l → ovf_chain m' p l.
Proof.
  revert p. induction l as [|x l IH]; intros p Hx; [done|]. cbn. intros (-> & it & Hit & Hc). split; [done|].
  destruct (fmap_eq_Some _ _ _ _ (Hx x ltac:(left)) Hit) as (it' & Hit' & Hn). exists it'. split; [done|]. rewrite Hn. apply IH; [|done].
  intros y Hy. apply Hx. by right.
Qed.

(** Where the invariant of an event poll looks. *)
Lemma ep_ok_frame z s s' g g' ep e r r' :
  (∀ x, x ∈ ge_tree e → es_rbn s' !! x = es_rbn s !! x) →
  (∀ x, x ∈ ep :: ge_tree e → es_rdl s' !! x = es_rdl s !! x) →
  (∀ x, x ∈ ge_tree e → item_key <$> (es_items s' !! x) = item_key <$> (es_items s !! x)) →
  (∀ i l q, g_fl g !! i = Some l → es_infos s !! i = Some q → ∃ l' q', g_fl g' !! i = Some l' ∧ es_infos s' !! i = Some q' ∧ info_fd q' = info_fd q ∧
     ∀ x, x ∈ ge_tree e → x ∈ l → x ∈ l') →
  (∀ m i, es_sockMap s = Some m → aread m (ep_epfd r) = Some (Some i) → ∃ m' i', es_sockMap s' = Some m' ∧ aread m' (ep_epfd r) = Some (Some i')) →
  ep_key r' = ep_key r → ep_ok z s g ep e r → ep_ok z s' g' ep e r'.
Proof.
  intros Hrbn Hrdl Hk Hi Hsk Hr [H1 H2 H3 H4 H5 H6 H7 H8 H9 H10]. injection Hr as E1 E2 E3 E4 E5.
  assert (Hsub : ∀ x, x ∈ ge_ready e ++ ph_rest (ge_phase e) ++ ph_ovf (ge_phase e) → x ∈ ge_tree e) by done.
  split; rewrite ?E1, ?E2, ?E3, ?E4, ?E5; try done.
  - apply (tree_inv_frame (fd_of s) _ (mk_rbt (es_rbn s) (ep_rbr r))); [intros x Hx; by apply fd_of_key, Hk|done|done|done].
  - apply (ehlist_ext (es_rdl s)); [|done]. intros y Hy. apply Hrdl. set_solver.
  - apply (detached_ext (es_rdl s)); [|done]. intros y Hy. apply Hrdl. set_solver.
  - destruct (ge_phase e) as [|d o|p o]; [done|..]; destruct H6 as [H6 H6']; (split; [|done]); (apply (ovf_chain_ext (es_items s)); [|done]);
      intros x Hx; specialize (Hk x (Hsub x ltac:(set_solver))); destruct (es_items s' !! x), (es_items s !! x); cbn in *; try done; unfold item_key in Hk; congruence.
  - intros x Hx Hn. rewrite Hrdl by set_solver. by apply H7.
  - intros x Hx. destruct (H8 x Hx) as (it & Hit & I1 & I2 & I3 & I4 & I5). destruct (fmap_eq_Some _ _ _ _ (Hk x Hx) Hit) as (it' & Hit' & Hkk).
    injection Hkk as K1 K2 K3 K4 K5 K6. exists it'. rewrite K1, K2, K3, K4, K5, K6. split; [done|]. split; [done|]. split; [done|]. split; [done|]. split; [done|]. intros Hz.
    destruct (I5 Hz) as (i & l & q & J1 & J2 & J3 & J4 & J5). destruct (Hi i l q J2 J4) as (l' & q' & L1 & L2 & L3 & L4). exists i, l', q'.
    split; [done|]. split; [done|]. split; [by apply L4|]. split; [done|]. congruence.
  - destruct H10 as (m & i & M1 & M2 & M3). destruct (Hsk m i M1 M2) as (m' & i' & M4 & M5). eauto.
Qed.

Lemma info_ok_frame z s s' g g' i l r r' :
  (∀ x, x ∈ i :: l → es_fll s' !! x = es_fll s !! x) →
  (∀ x, x ∈ l → epi_private_data <$> (es_items s' !! x) = epi_private_data <$> (es_items s !! x)) →
  (∀ x, x ∈ l → in_tree g x → in_tree g' x) →
  info_key r' = info_key r → info_ok z s g i l r → info_ok z s' g' i l r'.
Proof.
  intros Hf Hk Ht Hr [H1 H2 H3 H4 H5 H6 H7]. injection Hr as E1 E2 E3 E4 E5 E6 E7. split; rewrite ?E2, ?E3, ?E5, ?E6, ?E7; try done.
  - by apply (slist_ext (es_fll s)).
  - intros x Hx. destruct (H3 x Hx) as [[it Hit] Hin]. destruct (fmap_eq_Some _ _ _ _ (Hk x Hx) Hit) as (it' & Hit' & Hp). split; [eauto|].
    intros Hz. destruct (Hin Hz) as (ep & e & it1 & J1 & J2 & J3 & J4). simplify_eq. destruct (Ht x Hx) as (ep' & e' & J5 & J6); [by exists ep, e|].
    exists ep', e', it'. split; [done|]. split; [done|]. split; [done|]. congruence.
Qed.

Lemma pool_ok_frame {A} (q : Q) (m m' : gmap Z A) flag : (∀ x, flag <$> (m' !! x) = flag <$> (m !! x)) → pool_ok q m flag → pool_ok q m' flag.
Proof.
  intros Hx [H1 H2 H3 H4 H5]. assert (dom m' = dom m) as Hd.
  { apply set_eq. intros x. rewrite !elem_of_dom. specialize (Hx x). destruct (m' !! x), (m !! x); cbn in Hx; [split; by eexists|done|done|done]. }
  split; [done|done| | |].
  - intros x Hin. destruct (H3 x Hin) as (a & Ha & Hfl). destruct (fmap_eq_Some _ _ _ _ (Hx x) Ha) as (a' & Ha' & Hf). exists a'. split; [done|]. congruence.
  - rewrite <- size_dom, Hd, size_dom. done.
  - specialize (Hx 0). rewrite H5 in Hx. by destruct (m' !! 0).
Qed.

(** States that differ only in what the invariant does not read: events, counts, the error number, the environment. *)
Record soft s s' : Prop := {
  so_rbn : es_rbn s' = es_rbn s;
  so_rdl : es_rdl s' = es_rdl s;
  so_fll : es_fll s' = es_fll s;
  so_sock : es_sockMap s' = es_sockMap s;
  so_ipool : es_itemPool s' = es_itemPool s;
  so_epool : es_epPool s' = es_epPool s;
  so_fpool : es_infoPool s' = es_infoPool s;
  so_items : ∀ x, item_key <$> (es_items s' !! x) = item_key <$> (es_items s !! x);
  so_eps : ∀ x, ep_key <$> (es_eps s' !! x) = ep_key <$> (es_eps s !! x);
  so_infos : ∀ x, info_key <$> (es_infos s' !! x) = info_key <$> (es_infos s !! x)
}.

#[global] Instance soft_equivalence : Equivalence soft.
Proof.
  split.
  - intros s. by split.
  - intros s s' [? ? ? ? ? ? ? K1 K2 K3]. split; [done..| | |]; intros x; symmetry; [apply K1|apply K2|apply K3].
  - intros s s' s'' [? ? ? ? ? ? ? K1 K2 K3] [? ? ? ? ? ? ? L1 L2 L3]. split; [congruence..| | |]; intros x; [by rewrite L1|by rewrite L2|by rewrite L3].
Qed.

Lemma fmap_sub {A B C} (f : A → B) (h : B → C) (f' : A → C) (o o' : option A) : (∀ a, f' a = h (f a)) → f <$> o' = f <$> o → f' <$> o' = f' <$> o.
Proof. intros Hh. destruct o, o'; cbn; intros Heq; simplify_eq; [|done]. f_equal. rewrite !Hh. congruence. Qed.

Lemma key_some {A B} (f : A → B) (o o' : option A) : f <$> o' = f <$> o → is_Some o' → is_Some o.
Proof. destruct o, o'; cbn; intros ? [? ?]; eauto; done. Qed.

Lemma mem_ok_soft s s' : soft s s' → mem_ok s → mem_ok s'.
Proof.
  intros [R1 R2 R3 _ _ _ _ Ki Ke Kf] [H1 H2 H3 H4].
  assert (Hnone : ∀ x, es_items s !! x = None → es_items s' !! x = None) by (intros x Hx; specialize (Ki x); rewrite Hx in Ki; by destruct (es_items s' !! x)).
  split; rewrite ?R1, ?R2, ?R3.
  - intros x Hx. apply H1. exact (key_some _ _ _ (Ki x) Hx).
  - intros x Hx. destruct (H2 x (key_some _ _ _ (Ke x) Hx)) as [? ?]; auto.
  - intros x Hx. destruct (H3 x (key_some _ _ _ (Kf x) Hx)) as [? ?]; auto.
  - assert (Hsz : ∀ {A B} (f : A → B) (m m' : gmap Z A), (∀ x, f <$> m' !! x = f <$> m !! x) → size m' = size m).
    { intros A B f m m' Hf. rewrite <- !size_dom. f_equal. apply set_eq. intros x. rewrite !elem_of_dom. split; eapply key_some; [exact (Hf x)|symmetry; exact (Hf x)]. }
    by rewrite (Hsz _ _ _ _ _ Ki), (Hsz _ _ _ _ _ Ke).
Qed.

Lemma einvx_soft z s s' g : soft s s' → einvx z s g → einvx z s' g.
Proof.
  intros Hs [H1 H2 H3 H4 H5 H6 H7 H8 H9]. pose proof Hs as [R1 R2 R3 R4 R5 R6 R7 Ki Ke Kf]. split; rewrite ?R5, ?R6, ?R7; try done.
  - by apply (mem_ok_soft s).
  - eapply pool_ok_frame; [|exact H2]. intros x. eapply (fmap_sub item_key snd); [done|apply Ki].
  - eapply pool_ok_frame; [|exact H3]. intros x. eapply (fmap_sub ep_key snd); [done|apply Ke].
  - eapply pool_ok_frame; [|exact H4]. intros x. eapply (fmap_sub info_key snd); [done|apply Kf].
  - intros ep e He. destruct (H5 ep e He) as (r & Hr & Hok). destruct (fmap_eq_Some _ _ _ _ (Ke ep) Hr) as (r' & Hr' & Hk). exists r'. split; [done|].
    eapply ep_ok_frame; [..|exact Hok]; rewrite ?R1, ?R2, ?R4; try done; [|eauto].
    intros i l q Hl Hq. destruct (fmap_eq_Some _ _ _ _ (Kf i) Hq) as (q' & Hq' & Hkq). exists l, q'. injection Hkq as ? _ _ _ _ _. done.
  - intros i l Hl. destruct (H6 i l Hl) as (r & Hr & Hok). destruct (fmap_eq_Some _ _ _ _ (Kf i) Hr) as (r' & Hr' & Hk). exists r'. split; [done|].
    eapply info_ok_frame; [..|exact Hok]; rewrite ?R3; try done. intros x Hx. eapply (fmap_sub item_key (λ k, k.1.2)); [done|apply Ki].
  - destruct H8 as (m & M1 & M2 & M3). exists m. rewrite R4. split; [done|]. split; [done|]. intros fd i Ha. destruct (M3 fd i Ha) as (r & Hr & J1 & J2 & J3).
    destruct (fmap_eq_Some _ _ _ _ (Kf i) Hr) as (r' & Hr' & Hk). injection Hk as K1 _ _ K4 _ _. exists r'. rewrite K1, K4.
    split; [done|]. split; [done|]. split; [done|]. intros ep Hep. destruct (J3 ep Hep) as (e & q & L1 & L2 & L3).
    destruct (fmap_eq_Some _ _ _ _ (Ke ep) L2) as (q' & Hq' & Hkq). injection Hkq as _ _ _ Hkq _. exists e, q'. split; [done|]. split; [done|]. congruence.
Qed.

Lemma einvx_pools z s g qi qe qf : einvx z s g → pool_ok qi (es_items s) (λ i, alloc_flag (epi_res_chk i)) →
  pool_ok qe (es_eps s) (λ r, alloc_flag (ep_res_chk r)) → pool_ok qf (es_infos s) (λ r, alloc_flag (info_res_chk r)) →
  einvx z (set_es_itemPool qi (set_es_epPool qe (set_es_infoPool qf s))) g.
Proof.
  intros [H1 H2 H3 H4 H5 H6 H7 H8 H9] Pi Pe Pf. split; try done.
  - by destruct H1.
  - intros ep e He. destruct (H5 ep e He) as (r & Hr & Hok). exists r. split; [done|]. eapply ep_ok_frame; [..|exact Hok]; try done; naive_solver.
  - intros i l Hl. destruct (H6 i l Hl) as (r & Hr & Hok). exists r. split; [done|]. by eapply info_ok_frame; [..|exact Hok].
Qed.

#[global] Instance einvx_proper z : Proper (soft ==> eq ==> iff) (einvx z).
Proof. intros s s' Hs g _ <-. split; apply einvx_soft; [done|by symmetry]. Qed.

(** ** Runs of the accesses *)

Lemma item_get_run {A} (f : epitem → A) x s i : es_items s !! x = Some i → item_get f x s = Some (f i, s).
Proof. intros Hx. unfold item_get, mbind, stM_bind, gets, lift. by rewrite Hx. Qed.
Lemma item_upd_run f x s i : es_items s !! x = Some i → item_upd f x s = Some (tt, set_es_items (<[x := f i]> (es_items s)) s).
Proof. intros Hx. unfold item_upd, mbind, stM_bind, gets, lift. by rewrite Hx. Qed.
Lemma ep_get_run {A} (f : eventpoll → A) x s i : es_eps s !! x = Some i → ep_get f x s = Some (f i, s).
Proof. intros Hx. unfold ep_get, mbind, stM_bind, gets, lift. by rewrite Hx. Qed.
Lemma ep_upd_run f x s i : es_eps s !! x = Some i → ep_upd f x s = Some (tt, set_es_eps (<[x := f i]> (es_eps s)) s).
Proof. intros Hx. unfold ep_upd, mbind, stM_bind, gets, lift. by rewrite Hx. Qed.
Lemma info_get_run {A} (f : nsep_epollInfo_t → A) x s i : es_infos s !! x = Some i → info_get f x s = Some (f i, s).
Proof. intros Hx. unfold info_get, mbind, stM_bind, gets, lift. by rewrite Hx. Qed.
Lemma info_upd_run f x s i : es_infos s !! x = Some i → info_upd f x s = Some (tt, set_es_infos (<[x := f i]> (es_infos s)) s).
Proof. intros Hx. unfold info_upd, mbind, stM_bind, gets, lift. by rewrite Hx. Qed.
Lemma rdl_upd_run f s m : f (es_rdl s) = Some m → rdl_upd f s = Some (tt, set_es_rdl m s).
Proof. intros Hx. unfold rdl_upd, mbind, stM_bind, gets, lift. by rewrite Hx. Qed.
Lemma fll_upd_run f s m : f (es_fll s) = Some m → fll_upd f s = Some (tt, set_es_fll m s).
Proof. intros Hx. unfold fll_upd, mbind, stM_bind, gets, lift. by rewrite Hx. Qed.
Lemma rdl_get_run {A} (f : hmem → option A) s a : f (es_rdl s) = Some a → rdl_get f s = Some (a, s).
Proof. intros Hx. unfold rdl_get, mbind, stM_bind, gets, lift. by rewrite Hx. Qed.
Lemma fll_get_run {A} (f : lmem → option A) s a : f (es_fll s) = Some a → fll_get f s = Some (a, s).
Proof. intros Hx. unfold fll_get, mbind, stM_bind, gets, lift. by rewrite Hx. Qed.
Lemma ask_run {A} (f : W → A * W) s : ask f s = Some ((f (es_world s)).1, set_es_world (f (es_world s)).2 s).
Proof. unfold ask, mbind, stM_bind, gets, modify, mret, stM_ret. by destruct (f (es_world s)). Qed.
Lemma rdlist_upd_run f ep s r m l : es_eps s !! ep = Some r → f (es_rdl s) (ep_rdlist r) = Some (m, l) →
  rdlist_upd f ep s = Some (tt, set_es_eps (<[ep := set_ep_rdlist l r]> (es_eps s)) (set_es_rdl m s)).
Proof.
  intros Hr Hf. unfold rdlist_upd, ep_get, ep_upd, mbind, stM_bind, gets, lift, modify, mret, stM_ret. rewrite Hr, Hf. cbn. by rewrite Hr.
Qed.

(** ** Soft changes *)

Lemma soft_item f x s i : es_items s !! x = Some i → item_key (f i) = item_key i → soft s (set_es_items (<[x := f i]> (es_items s)) s).
Proof.
  intros Hx Hk. split; try done. intros y. cbn. destruct (decide (y = x)) as [->|]; [rewrite lookup_insert_eq, Hx; cbn; by rewrite Hk|by rewrite lookup_insert_ne].
Qed.
Lemma soft_ep f x s i : es_eps s !! x = Some i → ep_key (f i) = ep_key i → soft s (set_es_eps (<[x := f i]> (es_eps s)) s).
Proof.
  intros Hx Hk. split; try done. intros y. cbn. destruct (decide (y = x)) as [->|]; [rewrite lookup_insert_eq, Hx; cbn; by rewrite Hk|by rewrite lookup_insert_ne].
Qed.
Lemma soft_info f x s i : es_infos s !! x = Some i → info_key (f i) = info_key i → soft s (set_es_infos (<[x := f i]> (es_infos s)) s).
Proof.
  intros Hx Hk. split; try done. intros y. cbn. destruct (decide (y = x)) as [->|]; [rewrite lookup_insert_eq, Hx; cbn; by rewrite Hk|by rewrite lookup_insert_ne].
Qed.
Lemma soft_world w s : soft s (set_es_world w s).
Proof. by split. Qed.
Lemma soft_errno e s : soft s (set_es_errno e s).
Proof. by split. Qed.

(** ** Ready lists *)

Section ready.
Context {z : list Z} {s : st} {g : ghost} (Hi : einvx z s g).

Lemma ep_get_ok ep e : g_eps g !! ep = Some e → ∃ r, es_eps s !! ep = Some r ∧ ep_ok z s g ep e r.
Proof. apply (ei_eps _ _ _ Hi). Qed.

Lemma tree_item ep e x : g_eps g !! ep = Some e → x ∈ ge_tree e → item_ok z s g ep e x.
Proof. intros He Hx. destruct (ep_get_ok ep e He) as (r & _ & Hok). by apply (eo_items _ _ _ _ _ _ Hok). Qed.

Lemma tree_disj ep e ep' e' x : g_eps g !! ep = Some e → g_eps g !! ep' = Some e' → x ∈ ge_tree e → x ∈ ge_tree e' → ep = ep'.
Proof.
  intros He He' Hx Hx'. destruct (tree_item _ _ _ He Hx) as (it & H1 & H2 & _). destruct (tree_item _ _ _ He' Hx') as (it' & H1' & H2' & _). congruence.
Qed.

Lemma ep_not_item ep e : g_eps g !! ep = Some e → es_items s !! ep = None.
Proof. intros He. destruct (ep_get_ok ep e He) as (r & Hr & _). by apply (mo_eps _ (ei_mem _ _ _ Hi)). Qed.

Lemma tree_not_ep ep e x ep' e' : g_eps g !! ep = Some e → g_eps g !! ep' = Some e' → x ∈ ge_tree e → x ≠ ep'.
Proof. intros He He' Hx ->. destruct (tree_item _ _ _ He Hx) as (it & H1 & _). by rewrite (ep_not_item _ _ He') in H1. Qed.

(** A change of the list nodes, of one event poll and of what its items have in [ovflist]. *)
Lemma einvx_gep ep e e' r r' m mi : g_eps g !! ep = Some e → es_eps s !! ep = Some r → ge_tree e' = ge_tree e →
  (∀ x, x ∉ ep :: ge_tree e → m !! x = es_rdl s !! x) → (∀ x, is_Some (es_rdl s !! x) → is_Some (m !! x)) →
  (∀ x, item_key0 <$> (mi !! x) = item_key0 <$> (es_items s !! x)) → (∀ x, x ∉ ge_tree e → mi !! x = es_items s !! x) →
  alloc_flag (ep_res_chk r') = alloc_flag (ep_res_chk r) → ep_epfd r' = ep_epfd r →
  let s' := set_es_eps (<[ep := r']> (es_eps s)) (set_es_items mi (set_es_rdl m s)) in
  ep_ok z s' (gep_upd ep e' g) ep e' r' → einvx z s' (gep_upd ep e' g).
Proof.
  intros He Hr Ht Hm Hdom Hk0 Hko Hfl Hfdr s' Hok. pose proof Hi as [H1 H2 H3 H4 H5 H6 H7 H8 H9].
  assert (Hnone : ∀ x, es_items s !! x = None → mi !! x = None) by (intros x Hx; specialize (Hk0 x); rewrite Hx in Hk0; by destruct (mi !! x)). split; try done.
  - destruct H1 as [M1 M2 M3 M4]. split; cbn.
    + intros x Hx. destruct (M1 x (key_some _ _ _ (Hk0 x) Hx)) as (? & ? & ?). auto.
    + intros x Hx. assert (is_Some (es_eps s !! x)) as Hx'.
      { destruct (decide (x = ep)) as [->|]; [eauto|]. by rewrite lookup_insert_ne in Hx. }
      destruct (M2 x Hx') as [? ?]. auto.
    + intros x Hx. destruct (M3 x Hx). auto.
    + rewrite <- (size_dom (<[ep := r']> (es_eps s))), dom_insert_lookup_L, size_dom by eauto. rewrite <- (size_dom mi).
      replace (dom mi) with (dom (es_items s)); [by rewrite size_dom|]. apply set_eq. intros x. rewrite !elem_of_dom. split; eapply key_some; [symmetry|]; exact (Hk0 x).
  - eapply pool_ok_frame; [|exact H2]. intros x. eapply (fmap_sub item_key0 snd); [done|apply Hk0].
  - eapply pool_ok_frame; [|exact H3]. intros x. cbn. destruct (decide (x = ep)) as [->|]; [rewrite lookup_insert_eq, Hr; cbn; by rewrite Hfl|by rewrite lookup_insert_ne].
  - cbn. intros ep2 e2 He2. destruct (decide (ep2 = ep)) as [->|Hne].
    + rewrite lookup_insert_eq in He2. injection He2 as <-. exists r'. split; [apply lookup_insert_eq|done].
    + rewrite lookup_insert_ne in He2 by done. destruct (H5 ep2 e2 He2) as (r2 & Hr2 & Hok2). exists r2. split; [by rewrite lookup_insert_ne|].
      assert (Hd : ∀ x, x ∈ ge_tree e2 → x ∉ ge_tree e) by (intros x Hx Hx'; apply Hne; by apply (tree_disj ep2 e2 ep e x)).
      eapply ep_ok_frame; [..|exact Hok2]; try done; cbn; [|intros x Hx; by rewrite Hko by auto|naive_solver..].
      intros x Hx. apply Hm. intros [->|Hx']%elem_of_cons.
      * apply elem_of_cons in Hx as [->|Hx]; [done|]. by apply (tree_not_ep _ _ _ _ _ He2 He) in Hx.
      * apply elem_of_cons in Hx as [->|Hx]; [by apply (tree_not_ep _ _ _ _ _ He He2) in Hx'|]. by apply (Hd x).
  - cbn. intros i l Hl. destruct (H6 i l Hl) as (q & Hq & Hokq). exists q. split; [done|]. eapply info_ok_frame; [..|exact Hokq]; try done.
    + intros x Hx. cbn. eapply (fmap_sub item_key0 (λ k, k.1.2)); [done|apply Hk0].
    + intros x Hx (ep2 & e2 & He2 & Hx2). destruct (decide (ep2 = ep)) as [->|].
      * exists ep, e'. cbn. rewrite lookup_insert_eq. split; [done|]. rewrite Ht. congruence.
      * exists ep2, e2. cbn. by rewrite lookup_insert_ne.
  - destruct H8 as (mm & M1 & M2 & M3). exists mm. split; [done|]. split; [done|]. intros fd i Ha. destruct (M3 fd i Ha) as (q & Hq & J1 & J2 & J3).
    exists q. split; [done|]. split; [done|]. split; [done|]. intros ep2 Hep2. destruct (J3 ep2 Hep2) as (e2 & q2 & L1 & L2 & L3). unfold live. cbn.
    destruct (decide (ep2 = ep)) as [->|]; [rewrite !lookup_insert_eq; exists e', r'|rewrite !lookup_insert_ne by done; exists e2, q2]; [|done].
    split; [done|]. split; [done|]. congruence.
Qed.

(** [ge_ready] and the detached items of [ep] change, nothing else. *)
Lemma einvx_queues ep e e' r m l : g_eps g !! ep = Some e → es_eps s !! ep = Some r → ge_tree e' = ge_tree e →
  (match ge_phase e, ge_phase e' with Idle, Idle => True | Polling _ o, Polling _ o' => o' = o | Merging p o, Merging p' o' => p' = p ∧ o' = o | _, _ => False end) →
  (∀ x, x ∈ ge_ready e' ++ ph_rest (ge_phase e') → x ∈ ge_tree e) → NoDup (ge_ready e' ++ ph_rest (ge_phase e')) →
  (∀ x, x ∉ ep :: ge_tree e → m !! x = es_rdl s !! x) → (∀ x, is_Some (es_rdl s !! x) → is_Some (m !! x)) →
  ehlist m l ep (ge_ready e') → detached m (ph_rest (ge_phase e')) →
  (∀ x, x ∈ ge_tree e → x ∉ ge_ready e' ++ ph_rest (ge_phase e') → m !! x = Some (mk_hn None None)) →
  einvx z (set_es_eps (<[ep := set_ep_rdlist l r]> (es_eps s)) (set_es_rdl m s)) (gep_upd ep e' g).
Proof.
  intros He Hr Ht Hph Hsub Hnd Hm Hdom Hl Hd Hu. apply (einvx_gep ep e e' r _ m (es_items s)); [done|done|done|done|done|done|done|done|done|].
  destruct (ep_get_ok ep e He) as (r1 & Hr1 & [H1 H2 H3 H4 H5 H6 H7 H8 H9 H10]). rewrite Hr in Hr1. injection Hr1 as <-.
  assert (ph_ovf (ge_phase e') = ph_ovf (ge_phase e)) as Hovf by (destruct (ge_phase e), (ge_phase e'); cbn; naive_solver).
  split; rewrite ?Ht; try done.
  - intros x Hx. rewrite Hovf in Hx. rewrite app_assoc in Hx. apply elem_of_app in Hx as [Hx|Hx]; [by apply Hsub|]. apply H5. set_solver.
  - destruct (ge_phase e), (ge_phase e'); try done; naive_solver.
  - intros x Hx. specialize (H8 x Hx). unfold item_ok in *. by rewrite Hovf.
Qed.

Lemma ready_add ep e r x : g_eps g !! ep = Some e → es_eps s !! ep = Some r → x ∈ ge_tree e → x ∉ ge_ready e ++ ph_rest (ge_phase e) →
  ∃ m l, let s' := set_es_eps (<[ep := set_ep_rdlist l r]> (es_eps s)) (set_es_rdl m s) in
    rdlist_upd (λ m l, ep_hlist_add_tail m l x) ep s = Some (tt, s') ∧ einvx z s' (gep_upd ep (set_ready (ge_ready e ++ [x]) e) g).
Proof.
  intros He Hr Hx Hnx. destruct (ep_get_ok ep e He) as (r1 & Hr1 & Hok). rewrite Hr in Hr1. injection Hr1 as <-. destruct (tree_item _ _ _ He Hx) as (it & Hit & _).
  destruct (mo_items _ (ei_mem _ _ _ Hi) x) as (_ & Hrx & _); [eauto|]. pose proof (tree_not_ep _ _ _ _ _ He He Hx) as Hxep.
  assert (Hinit : ∀ y, y ∈ ge_ready e → y ≠ ep) by (intros y Hy; apply (tree_not_ep _ _ _ _ _ He He), (eo_sub _ _ _ _ _ _ Hok); set_solver).
  destruct (ep_hlist_add_tail_spec _ _ _ _ x (eo_ready _ _ _ _ _ _ Hok)) as (m & l & Hadd & Hl & Hout); [set_solver|done|]. exists m, l. split; [by apply rdlist_upd_run|].
  assert (Hsub : ∀ y, y ∈ ge_ready e ++ ph_rest (ge_phase e) → y ∈ ge_tree e) by (intros y Hy; apply (eo_sub _ _ _ _ _ _ Hok); rewrite app_assoc, elem_of_app; by left).
  apply (einvx_queues ep e); cbn [set_ready ge_tree ge_phase ge_ready]; [done|done|done|by destruct (ge_phase e)| | | | |done| |].
  - intros y Hy. rewrite <- app_assoc in Hy. apply elem_of_app in Hy as [Hy|[->|Hy]%elem_of_cons]; [apply Hsub; set_solver|done|apply Hsub; set_solver].
  - rewrite <- app_assoc. cbn [app]. rewrite <- Permutation_middle. constructor; [done|]. apply (eo_queued _ _ _ _ _ _ Hok).
  - intros y Hy. apply Hout. intros Hy'. apply Hy. rewrite !elem_of_cons in *. destruct Hy' as [->|[->|Hy']]; [by right|by left|]. right. apply Hsub. set_solver.
  - intros y Hy. destruct (decide (y ∈ x :: ep :: ge_ready e)) as [Hin|Hin]; [|by rewrite Hout].
    destruct Hl as [_ _ _ Hc]. apply (hchain_alloc _ _ _ _ Hc). set_solver.
  - apply (detached_ext (es_rdl s)); [|apply (eo_rest _ _ _ _ _ _ Hok)]. intros y Hy. apply Hout.
    pose proof (eo_queued _ _ _ _ _ _ Hok) as (_ & Hd & _)%NoDup_app. pose proof (tree_not_ep _ _ _ _ _ He He (Hsub y ltac:(set_solver))). set_solver.
  - intros y Hy Hny. rewrite Hout; [apply (eo_unlinked _ _ _ _ _ _ Hok); set_solver|]. pose proof (tree_not_ep _ _ _ _ _ He He Hy). set_solver.
Qed.

Lemma ready_del ep e r x l1 l2 : g_eps g !! ep = Some e → es_eps s !! ep = Some r → ge_ready e = l1 ++ x :: l2 →
  ∃ m l, let s' := set_es_eps (<[ep := set_ep_rdlist l r]> (es_eps s)) (set_es_rdl m s) in
    ep_hlist_del (es_rdl s) (ep_rdlist r) x = Some (m, l) ∧ einvx z s' (gep_upd ep (set_ready (l1 ++ l2) e) g).
Proof.
  intros He Hr Hsp. destruct (ep_get_ok ep e He) as (r1 & Hr1 & Hok). rewrite Hr in Hr1. injection Hr1 as <-.
  pose proof (eo_ready _ _ _ _ _ _ Hok) as Hrd. rewrite Hsp in Hrd. destruct (ep_hlist_del_spec _ _ _ _ _ _ Hrd) as (m & l & Hdel & Hl & Hmx & Hout).
  exists m, l. split; [done|].
  assert (Hsub : ∀ y, y ∈ ge_ready e ++ ph_rest (ge_phase e) → y ∈ ge_tree e) by (intros y Hy; apply (eo_sub _ _ _ _ _ _ Hok); rewrite app_assoc, elem_of_app; by left).
  pose proof (eo_queued _ _ _ _ _ _ Hok) as Hnd. rewrite Hsp in Hnd, Hsub. pose proof Hnd as (_ & Hd & _)%NoDup_app.
  apply (einvx_queues ep e); cbn [set_ready ge_tree ge_phase ge_ready]; [done|done|done|by destruct (ge_phase e)| | | | |done| |].
  - intros y Hy. apply Hsub. set_solver.
  - rewrite <- app_assoc in *. cbn in Hnd. rewrite <- Permutation_middle in Hnd. by apply NoDup_cons in Hnd as [_ ?].
  - intros y Hy. apply Hout. intros Hy'. apply Hy. apply elem_of_cons in Hy' as [->|Hy']; [left|right]. apply Hsub. set_solver.
  - intros y Hy. destruct (decide (y = x)) as [->|Hyx]; [eauto|]. destruct (decide (y ∈ ep :: l1 ++ x :: l2)) as [Hin|Hin]; [|by rewrite Hout].
    destruct Hl as [_ _ _ Hc]. apply (hchain_alloc _ _ _ _ Hc). set_solver.
  - apply (detached_ext (es_rdl s)); [|apply (eo_rest _ _ _ _ _ _ Hok)]. intros y Hy. apply Hout.
    pose proof (tree_not_ep _ _ _ _ _ He He (Hsub y ltac:(set_solver))). set_solver.
  - intros y Hy Hny. destruct (decide (y = x)) as [->|Hyx]; [done|]. rewrite Hout; [apply (eo_unlinked _ _ _ _ _ _ Hok); rewrite ?Hsp; set_solver|].
    pose proof (tree_not_ep _ _ _ _ _ He He Hy). set_solver.
Qed.
End ready.
End inv.
