(* ===== verification/EpollCtl.v ===== *)
(** * Epoll: the control operations keep the invariant *)
From S2P Require Import Prelude.
From S2P Require Import Queue.
From S2P Require Import RbTree.
From S2P Require Import RbTreeProofs.
From S2P Require Import RbTreeProps.
From S2P Require Import RbTreeLocal.
From S2P Require Import EpList.
From S2P Require Import EpollData.
From S2P Require Import Epoll.
From S2P Require Import EpollPoll.
From S2P Require Import EpollInv.

Section ctl.
Context {Q W : Type} `{BoundedQueue Q} (env : stack_env W).
Abbreviation st := (est Q W).
Abbreviation einvx := (einvx env).
Implicit Types (s : st) (g : ghost).

Lemma ready_hn m l : detached m l → ∀ x, x ∈ l → ∃ p, hn_get hn_pprev m x = Some (Some p).
Proof.
  destruct l as [|y l]; [intros _ x Hx; by apply elem_of_nil in Hx|]. intros [Hc Hp] x [->|Hx]%elem_of_cons; [done|]. clear Hp.
  revert y Hc. induction l as [|w l IH]; intros y; [by apply elem_of_nil in Hx|]. cbn. intros (_ & Hw & Hc). apply elem_of_cons in Hx as [->|Hx]; [eauto|by apply (IH Hx w)].
Qed.

Lemma linked_eq z s g ep e x : einvx z s g → g_eps g !! ep = Some e → x ∈ ge_tree e →
  EP_HLIST_NODE_LINKED (es_rdl s) x = Some (bool_decide (x ∈ ge_ready e ++ ph_rest (ge_phase e))).
Proof.
  intros Hi He Hx. destruct (ep_get_ok _ Hi ep e He) as (r & Hr & Hok). case_bool_decide as Hq.
  - apply elem_of_app in Hq as [Hq|Hq]; [by eapply ep_hlist_linked_spec; [apply (eo_ready _ _ _ _ _ _ _ Hok)|]|].
    destruct (ready_hn _ _ (eo_rest _ _ _ _ _ _ _ Hok) x Hq) as (p & Hp). unfold EP_HLIST_NODE_LINKED. by rewrite Hp.
  - unfold EP_HLIST_NODE_LINKED, hn_get. by rewrite (eo_unlinked _ _ _ _ _ _ _ Hok x Hx Hq).
Qed.

Lemma linked_run z s g ep e x : einvx z s g → g_eps g !! ep = Some e → x ∈ ge_tree e →
  linked x s = Some (bool_decide (x ∈ ge_ready e ++ ph_rest (ge_phase e)), s).
Proof. intros Hi He Hx. by eapply rdl_get_run, linked_eq. Qed.

(** ** What the registration with the stacks changes *)

(** All but the ready list of [ep], what it counts, the pending events of items and the record of modules. *)
Record quiet (ep : Z) s s' : Prop := {
  qu_rbn : es_rbn s' = es_rbn s;
  qu_fll : es_fll s' = es_fll s;
  qu_sock : es_sockMap s' = es_sockMap s;
  qu_ipool : es_itemPool s' = es_itemPool s;
  qu_epool : es_epPool s' = es_epPool s;
  qu_fpool : es_infoPool s' = es_infoPool s;
  qu_items : ∀ x, set_epi_revents 0 <$> (es_items s' !! x) = set_epi_revents 0 <$> (es_items s !! x);
  qu_eps : ∀ x, x ≠ ep → es_eps s' !! x = es_eps s !! x;
  qu_ep : (λ r, set_ep_waitSem 0 (set_ep_rdlist (mk_ehl None None) r)) <$> (es_eps s' !! ep) =
          (λ r, set_ep_waitSem 0 (set_ep_rdlist (mk_ehl None None) r)) <$> (es_eps s !! ep);
  qu_infos : ∀ i, set_info_epaddflag 0 <$> (es_infos s' !! i) = set_info_epaddflag 0 <$> (es_infos s !! i)
}.

#[global] Instance quiet_preorder ep : PreOrder (quiet ep).
Proof.
  split.
  - intros s. by split.
  - intros s s' s'' [? ? ? ? ? ? K1 K2 K3 K4] [? ? ? ? ? ? L1 L2 L3 L4]. split; [congruence|congruence|congruence|congruence|congruence|congruence| | |by rewrite L3|]; intros x; [by rewrite L1|intros Hx; by rewrite L2, K2|by rewrite L4].
Qed.

Lemma quiet_item ep x v s i : es_items s !! x = Some i → quiet ep s (set_es_items (<[x := set_epi_revents v i]> (es_items s)) s).
Proof.
  intros Hx. split; try done. intros y. cbn. destruct (decide (y = x)) as [->|]; [by rewrite lookup_insert_eq, Hx|by rewrite lookup_insert_ne].
Qed.
Lemma quiet_info ep x v s i : es_infos s !! x = Some i → quiet ep s (set_es_infos (<[x := set_info_epaddflag v i]> (es_infos s)) s).
Proof.
  intros Hx. split; try done. intros y. cbn. destruct (decide (y = x)) as [->|]; [by rewrite lookup_insert_eq, Hx|by rewrite lookup_insert_ne].
Qed.
Lemma quiet_sem ep v s r : es_eps s !! ep = Some r → quiet ep s (set_es_eps (<[ep := set_ep_waitSem v r]> (es_eps s)) s).
Proof. intros Hr. split; try done; cbn; [intros x Hx; by rewrite lookup_insert_ne|by rewrite lookup_insert_eq, Hr]. Qed.
Lemma quiet_rdlist ep m l s r : es_eps s !! ep = Some r → quiet ep s (set_es_eps (<[ep := set_ep_rdlist l r]> (es_eps s)) (set_es_rdl m s)).
Proof. intros Hr. split; try done; cbn; [intros x Hx; by rewrite lookup_insert_ne|by rewrite lookup_insert_eq, Hr]. Qed.
Lemma quiet_world ep w s : quiet ep s (set_es_world w s).
Proof. by split. Qed.

(** The invariant with the ready list of [ep] replaced. *)
Definition ready_is (z : list Z) (ep : Z) (e : gep) (g : ghost) (R : list Z) s : Prop := einvx z s (gep_upd ep (set_ready R e) g).

Lemma ready_is_refl z ep e g s : g_eps g !! ep = Some e → einvx z s g → ready_is z ep e g (ge_ready e) s.
Proof.
  intros He Hi. unfold ready_is. replace (gep_upd ep (set_ready (ge_ready e) e) g) with g; [done|]. destruct g as [ge gf], e as [t R p]. unfold gep_upd. cbn in *.
  by rewrite insert_id.
Qed.

Lemma ready_is_soft z ep e g R s s' : soft s s' → ready_is z ep e g R s → ready_is z ep e g R s'.
Proof. apply einvx_soft. Qed.

(** What the registration of [x] does with the ready list. *)
Definition requeued (x : Z) (R R' : list Z) : Prop := filter (λ y, y ≠ x) R' = filter (λ y, y ≠ x) R.

Lemma requeued_add x R : requeued x R (R ++ [x]).
Proof. unfold requeued. rewrite filter_app, filter_cons_False by auto. by rewrite app_nil_r. Qed.
Lemma requeued_del x l1 l2 : requeued x (l1 ++ x :: l2) (l1 ++ l2).
Proof. unfold requeued. rewrite !filter_app, filter_cons_False by auto. done. Qed.

(** ** [nsep_ctl_event_add] *)

Definition push (x : Z) (R : list Z) : list Z := if bool_decide (x ∈ R) then R else R ++ [x].

(** The ready list after the events [v] of an item with the interest [ev]. *)
Definition queue_after (ops : nstack_ep_triggle_ops_t) (v : Z) (ev : epoll_event) (x : Z) (R : list Z) : list Z :=
  match ops with
  | nstack_ep_triggle_add => if has v (events ev) then push x R else R
  | nstack_ep_triggle_mod =>
      if has v (events ev) then push x R else if has (events ev) EPOLLET then filter (λ y, y ≠ x) R else R
  | nstack_ep_triggle_del => R
  end.

Lemma elem_of_push x R : x ∈ push x R.
Proof. unfold push. case_bool_decide; [done|]. apply elem_of_app. right. left. Qed.
Lemma requeued_push x R : requeued x R (push x R).
Proof. unfold push. case_bool_decide; [done|apply requeued_add]. Qed.
Lemma requeued_filter x R : requeued x R (filter (λ y, y ≠ x) R).
Proof.
  unfold requeued. apply filter_whole. intros y Hy. by apply list_elem_of_filter in Hy as [? _].
Qed.
Lemma requeued_after ops v ev x R : requeued x R (queue_after ops v ev x R).
Proof.
  destruct ops; cbn; [| |done].
  - destruct (has _ _); [apply requeued_push|done].
  - destruct (has _ _); [apply requeued_push|]. destruct (has _ _); [apply requeued_filter|done].
Qed.

Lemma gep_upd_twice ep e R R' g : gep_upd ep (set_ready R' (set_ready R e)) (gep_upd ep (set_ready R e) g) = gep_upd ep (set_ready R' e) g.
Proof. unfold gep_upd. cbn. by rewrite insert_insert_eq. Qed.

Section ready_ops.
Context {z : list Z} {ep : Z} {e : gep} {g : ghost} (Hidle : ge_phase e = Idle) (x : Z) (Hx : x ∈ ge_tree e).

Lemma ready_is_ep R s : ready_is z ep e g R s → ∃ r, es_eps s !! ep = Some r.
Proof. intros Hr. destruct (ep_get_ok _ Hr ep (set_ready R e)) as (r & Hr' & _); [apply lookup_insert_eq|eauto]. Qed.

Lemma linked_ready R s : ready_is z ep e g R s → linked x s = Some (bool_decide (x ∈ R), s).
Proof.
  intros Hr. rewrite (linked_run z s _ ep (set_ready R e) x Hr); [|apply lookup_insert_eq|done]. cbn. rewrite Hidle. cbn. by rewrite app_nil_r.
Qed.

(** The item is added at the end unless it is there. *)
Lemma push_spec R s : ready_is z ep e g R s → x ∉ R →
  ∃ s', rdlist_upd (λ m l, ep_hlist_add_tail m l x) ep s = Some (tt, s') ∧ quiet ep s s' ∧ ready_is z ep e g (R ++ [x]) s' ∧
    es_items s' = es_items s ∧ es_infos s' = es_infos s.
Proof.
  intros Hr Hn. destruct (ready_is_ep R s Hr) as (r & Her).
  destruct (ready_add _ Hr ep (set_ready R e) r x) as (m & l & Hrun & Hi); [apply lookup_insert_eq|done|done|cbn; rewrite Hidle; cbn; by rewrite app_nil_r|].
  eexists. split; [exact Hrun|]. split; [by apply quiet_rdlist|]. split; [|done]. unfold ready_is. by rewrite gep_upd_twice in Hi.
Qed.

Lemma drop_spec R s : ready_is z ep e g R s → x ∈ R →
  ∃ s', rdlist_upd (λ m l, ep_hlist_del m l x) ep s = Some (tt, s') ∧ quiet ep s s' ∧ ready_is z ep e g (filter (λ y, y ≠ x) R) s' ∧
    es_items s' = es_items s ∧ es_infos s' = es_infos s ∧ es_rdl s' !! x = Some (mk_hn None None).
Proof.
  intros Hr Hin. destruct (ready_is_ep R s Hr) as (r & Her). destruct (ep_get_ok _ Hr ep (set_ready R e)) as (r1 & _ & Hok); [apply lookup_insert_eq|].
  pose proof (eo_queued _ _ _ _ _ _ _ Hok) as Hnd. cbn in Hnd. apply NoDup_app in Hnd as [Hnd _]. apply list_elem_of_split in Hin as (l1 & l2 & ->).
  destruct (ready_del _ Hr ep (set_ready (l1 ++ x :: l2) e) r x l1 l2) as (m & l & Hrun & Hi); [apply lookup_insert_eq|done|done|].
  eexists. split; [by apply rdlist_upd_run|]. split; [by apply quiet_rdlist|]. rewrite gep_upd_twice in Hi. rewrite filter_ne_mid by done. split; [exact Hi|]. split; [done|]. split; [done|].
  destruct (ep_get_ok _ Hi ep (set_ready (l1 ++ l2) e)) as (r2 & _ & Hok2); [apply lookup_insert_eq|]. apply (eo_unlinked _ _ _ _ _ _ _ Hok2 x Hx).
  cbn. rewrite Hidle. cbn. rewrite app_nil_r. rewrite <- Permutation_middle in Hnd. by apply NoDup_cons in Hnd as [? _].
Qed.

(** One more event is counted. *)
Lemma post_spec R s : ready_is z ep e g R s →
  ∃ s', ep_upd (λ r, set_ep_waitSem (ep_waitSem r + 1) r) ep s = Some (tt, s') ∧ quiet ep s s' ∧ ready_is z ep e g R s' ∧
    es_items s' = es_items s ∧ es_infos s' = es_infos s.
Proof.
  intros Hr. destruct (ready_is_ep R s Hr) as (r & Her). eexists. split; [by apply ep_upd_run|]. split; [by apply quiet_sem|]. split; [|done].
  eapply ready_is_soft; [|exact Hr]. by apply (soft_ep (λ r, set_ep_waitSem (ep_waitSem r + 1) r)).
Qed.

Lemma ctl_event_add_spec ops v R s it : ready_is z ep e g R s → es_items s !! x = Some it →
  ∃ s', nsep_ctl_event_add x ep ops v s = Some (tt, s') ∧ quiet ep s s' ∧ ready_is z ep e g (queue_after ops v (epi_event it) x R) s' ∧
    es_items s' = es_items s ∧ es_infos s' = es_infos s.
Proof.
  intros Hr Hit. unfold nsep_ctl_event_add. rewrite (bind_run _ _ _ _ _ (item_get_run _ _ _ _ Hit)). unfold push.
  destruct ops; cbn [queue_after]; unfold when, push; [| |exists s; done].
  - destruct (has _ _); [|exists s; done]. rewrite (bind_run _ _ _ _ _ (linked_ready R s Hr)). case_bool_decide as Hin; cbn [negb].
    + rewrite (bind_run _ _ _ tt s) by done. by apply post_spec.
    + destruct (push_spec R s Hr Hin) as (s1 & H1 & Hq1 & Hr1 & E1 & E1'). rewrite (bind_run _ _ _ _ _ H1).
      destruct (post_spec _ _ Hr1) as (s2 & H2 & Hq2 & Hr2 & E2 & E2'). exists s2. split; [done|]. split; [by etrans|]. split; [done|]. split; congruence.
  - destruct (has v _).
    + rewrite (bind_run _ _ _ _ _ (linked_ready R s Hr)). case_bool_decide as Hin; cbn [negb]; [exists s; done|].
      destruct (push_spec R s Hr Hin) as (s1 & H1 & Hq1 & Hr1 & E1 & E1'). rewrite (bind_run _ _ _ _ _ H1).
      destruct (post_spec _ _ Hr1) as (s2 & H2 & Hq2 & Hr2 & E2 & E2'). exists s2. split; [done|]. split; [by etrans|]. split; [done|]. split; congruence.
    + rewrite (bind_run _ _ _ _ _ (linked_ready R s Hr)). destruct (has _ EPOLLET); [|rewrite andb_false_r; exists s; done].
      rewrite andb_true_r. case_bool_decide as Hin.
      * destruct (drop_spec R s Hr Hin) as (s1 & H1 & Hq1 & Hr1 & E1 & E1' & _). by exists s1.
      * rewrite filter_ne_absent by done. by exists s.
Qed.

(** ** [nsep_epctl_triggle] *)

(** An item with an event of interest is on the ready list. *)
Definition armed (R : list Z) s : Prop := ∀ it, es_items s !! x = Some it → has (epi_revents it) (events (epi_event it)) = true → x ∈ R.

(** The operation is defined; it changes what [quiet] allows, requeues at most [x], and keeps [x] armed. *)
Definition registers (m : stM st unit) R s : Prop :=
  ∃ s' R', m s = Some (tt, s') ∧ quiet ep s s' ∧ ready_is z ep e g R' s' ∧ requeued x R R' ∧ (armed R s → armed R' s').

Lemma registers_ret R s : ready_is z ep e g R s → registers (mret tt) R s.
Proof. intros Hr. exists s, R. done. Qed.

Lemma registers_bind {A} (m : stM st A) a k R R' s s' : m s = Some (a, s') → quiet ep s s' → requeued x R R' → (armed R s → armed R' s') →
  registers (k a) R' s' → registers (m ≫= k) R s.
Proof.
  intros Hm Hq HR Ha (s2 & R2 & Hk & Hq2 & Hr2 & HR2 & Ha2). exists s2, R2. rewrite (bind_run _ _ _ _ _ Hm). split; [done|]. split; [by etrans|]. split; [done|].
  split; [|auto]. unfold requeued in *. congruence.
Qed.

Lemma ready_is_item R s : ready_is z ep e g R s → ∃ it, es_items s !! x = Some it.
Proof. intros Hr. destruct (tree_item _ Hr ep (set_ready R e) x) as (it & Hit & _); [apply lookup_insert_eq|done|eauto]. Qed.

Lemma ready_is_info R s i : ready_is z ep e g R s → is_Some (g_fl g !! i) → ∃ q, es_infos s !! i = Some q ∧ length (info_protoFD q) = 8%nat.
Proof. intros Hr [l Hl]. destruct (ei_infos _ _ _ _ Hr i l Hl) as (q & Hq & Hok). exists q. split; [done|]. apply (io_proto _ _ _ _ _ _ Hok). Qed.

Lemma triggle_take_spec i modInx ops v ret R s : ready_is z ep e g R s → is_Some (g_fl g !! i) → registers (triggle_take x ep i modInx ops v ret) R s.
Proof.
  intros Hr Hf. unfold triggle_take, when. destruct (_ && _) eqn:Hb; [|by apply registers_ret]. destruct (ready_is_item R s Hr) as (it & Hit).
  set (s1 := set_es_items (<[x := set_epi_revents v it]> (es_items s)) s). assert (Hr1 : ready_is z ep e g R s1) by (eapply ready_is_soft; [by apply soft_item|exact Hr]).
  assert (Hit1 : es_items s1 !! x = Some (set_epi_revents v it)) by apply lookup_insert_eq.
  destruct (ctl_event_add_spec ops v R s1 _ Hr1 Hit1) as (s2 & H2 & Hq2 & Hr2 & E2 & E2'). destruct (ready_is_info _ _ i Hr2 Hf) as (q & Hq & _).
  eexists _, _. rewrite (bind_run _ _ _ _ _ (item_upd_run _ _ _ _ Hit)). fold s1. rewrite (bind_run _ _ _ _ _ H2). split; [by apply info_upd_run|]. split; [|split; [|split]].
  - etrans; [by apply quiet_item|]. etrans; [exact Hq2|]. by apply quiet_info.
  - eapply ready_is_soft; [|exact Hr2]. by apply (soft_info (λ i, set_info_epaddflag (Z.lor (info_epaddflag i) (Z.shiftl 1 modInx)) i)).
  - apply requeued_after.
  - intros _ it2. cbn. rewrite E2, Hit1. intros [= <-]. cbn. unfold queue_after. intros Hh. destruct ops; cbn in *; rewrite ?Hh.
    + apply elem_of_push.
    + apply elem_of_push.
    + rewrite andb_false_r in Hb. done.
Qed.

Lemma NSTACK_EP_TRIGGLE_spec j p m ops i ret R s : ready_is z ep e g R s → is_Some (g_fl g !! j) → 0 <= m < 8 →
  ∃ ret' s', NSTACK_EP_TRIGGLE env (Some j) p m ops x i ret s = Some (ret', s') ∧ quiet ep s s' ∧ ready_is z ep e g R s' ∧ es_items s' = es_items s.
Proof.
  intros Hr Hj Hm. unfold NSTACK_EP_TRIGGLE. destruct (se_ep_ctl env m) as [f|]; [|by exists ret, s]. cbn [lift].
  destruct (ready_is_info R s j Hr Hj) as (q & Hq & Hlen). destruct (ready_is_item R s Hr) as (it & Hit).
  destruct (aread_is_Some (info_protoFD q) m) as (v & Hv & _); [lia|]. rewrite (bind_run _ _ _ j s) by done.
  rewrite (bind_run _ _ _ _ _ (info_get_run _ _ _ _ Hq)), (bind_run _ _ _ v s) by (unfold lift; by rewrite Hv).
  rewrite (bind_run _ _ _ _ _ (item_get_run _ _ _ _ Hit)), ask_run. eexists _, _. split; [done|]. split; [apply quiet_world|]. split; [|done].
  eapply ready_is_soft; [apply soft_world|done].
Qed.

Lemma triggle_modules_spec n modInx j i ops ret R s : ready_is z ep e g R s → is_Some (g_fl g !! j) → is_Some (g_fl g !! i) →
  0 <= modInx → modInx + Z.of_nat n <= 8 → registers (triggle_modules env n modInx x ep i (Some j) ops ret) R s.
Proof.
  revert modInx ret R s. induction n as [|n IH]; intros modInx ret R s Hr Hj Hf Hm Hn; cbn [triggle_modules]; [by apply registers_ret|].
  destruct (ready_is_info R s i Hr Hf) as (q & Hq & Hlen). destruct (aread_is_Some (info_protoFD q) modInx) as (v & Hv & _); [lia|].
  eapply (registers_bind _ (info_protoFD q) _ R R s s); [by apply info_get_run|done|done|done|].
  eapply (registers_bind _ v _ R R s s); [unfold lift; by rewrite Hv|done|done|done|].
  destruct (v <? 0); [apply IH; [done|done|done|lia|lia]|].
  destruct (NSTACK_EP_TRIGGLE_spec j v modInx ops i ret R s Hr Hj) as (ret1 & s1 & H1 & Hq1 & Hr1 & E1); [lia|].
  eapply (registers_bind _ ret1 _ R R s s1); [done|done|done|unfold armed; by rewrite E1|].
  destruct (ready_is_item R s1 Hr1) as (it & Hit). eapply (registers_bind _ (epi_revents it) _ R R s1 s1); [by apply item_get_run|done|done|done|].
  destruct (triggle_take_spec i modInx ops (Z.lor (epi_revents it) ret1) ret1 R s1 Hr1 Hf) as (s2 & R2 & H2 & Hq2 & Hr2 & HR2 & Ha2).
  eapply (registers_bind _ tt _ R R2 s1 s2); [done|done|done|done|]. apply IH; [done|done|done|lia|lia].
Qed.

(** The registration of an item with the stacks. *)
Lemma epctl_triggle_spec i ops R s : ready_is z ep e g R s → is_Some (g_fl g !! i) → registers (nsep_epctl_triggle env x i ops) R s.
Proof.
  intros Hr Hf. unfold nsep_epctl_triggle. destruct (tree_item _ Hr ep (set_ready R e) x) as (it & Hit & Hep & _); [apply lookup_insert_eq|done|].
  destruct (ep_get_ok _ Hr ep (set_ready R e)) as (r & Her & Hok); [apply lookup_insert_eq|]. destruct (eo_info _ _ _ _ _ _ _ Hok) as (m & j & Hm & Hj & Hfd).
  destruct (ei_sock _ _ _ _ Hr) as (m' & Hm' & Hlen & Hsk). rewrite Hm in Hm'. injection Hm' as <-. destruct (Hsk _ _ Hj) as (qj & Hqj & Hgj & _ & _).
  destruct (ready_is_info R s i Hr Hf) as (q & Hq & Hlq).
  eapply (registers_bind _ (Some ep) _ R R s s); [rewrite <- Hep; by apply item_get_run|done|done|done|].
  eapply (registers_bind _ ep _ R R s s); [done|done|done|done|].
  eapply (registers_bind _ (ep_epfd r) _ R R s s); [by apply ep_get_run|done|done|done|].
  eapply (registers_bind _ (Some j) _ R R s s); [|done|done|done|].
  { unfold nsep_get_infoBySock. rewrite (bind_run _ _ _ (Some m) s) by (unfold gets; by rewrite Hm). cbn [orb].
    destruct (Z.ltb_spec (ep_epfd r) 0); [lia|]. destruct (Z.leb_spec (se_kernel_fd_max env) (ep_epfd r)); [lia|]. cbn. unfold lift. by rewrite Hj. }
  eapply (registers_bind _ (info_rmidx q) _ R R s s); [by apply info_get_run|done|done|done|].
  destruct (Z.leb_spec 0 (info_rmidx q)).
  - destruct (_ || _) eqn:Hb; [by apply registers_ret|]. apply orb_false_iff in Hb as [_ Hb]. apply Z.leb_gt in Hb. unfold NSTACK_MAX_MODULE_NUM in Hb.
    eapply (registers_bind _ (info_rlfd q) _ R R s s); [by apply info_get_run|done|done|done|].
    destruct (NSTACK_EP_TRIGGLE_spec j (info_rlfd q) (info_rmidx q) ops i 0 R s Hr Hgj) as (ret1 & s1 & H1 & Hq1 & Hr1 & E1); [lia|].
    eapply (registers_bind _ ret1 _ R R s s1); [done|done|done|unfold armed; by rewrite E1|]. by apply triggle_take_spec.
  - pose proof (ei_mods _ _ _ _ Hr) as Hmods. unfold NSTACK_MAX_MODULE_NUM in Hmods. apply triggle_modules_spec; [done|done|done|lia|lia].
Qed.
End ready_ops.
End ctl.
