(* ===== verification/EpollAlloc.v ===== *)
(** * Epoll: pools, items that are not registered, and their way in and out of the lists and trees *)
From S2P Require Import Prelude.
From S2P Require Import Queue.
From S2P Require Import RbTree.
From S2P Require Import RbTreeProofs.
From S2P Require Import RbTreeProps.
From S2P Require Import RbTreeLocal.
From S2P Require Import EpList.
From S2P Require Import EpollData.
From S2P Require Import Epoll.
From S2P Require Import EpollPoll.
From S2P Require Import EpollInv.

Section alloc.
Context {Q W : Type} `{BoundedQueue Q} (env : stack_env W).
Abbreviation st := (est Q W).
Abbreviation einvx := (einvx env).
Implicit Types (s : st) (g : ghost) (z : list Z).

(** ** Pools *)

Lemma pool_dequeue_spec (get : st → Q) set s : q_inv (get s) →
  match q_contents (get s) with
  | [] => ∃ q, pool_dequeue get set s = Some ((0, 0), set q s) ∧ q_inv q ∧ q_cap q = q_cap (get s) ∧ q_contents q = []
  | x :: l => ∃ q, pool_dequeue get set s = Some ((1, x), set q s) ∧ q_inv q ∧ q_cap q = q_cap (get s) ∧ q_contents q = l
  end.
Proof.
  intros Hq. pose proof (q_dequeuev_spec (get s) [0] 1 Hq ltac:(unfold is_u32; lia) ltac:(cbn; lia)) as Hd. unfold fifo_dequeue in Hd.
  destruct (q_contents (get s)) as [|x l]; [|replace (Z.min 1 (Z.of_nat (length (x :: l)))) with 1 in Hd by (cbn; lia)]; cbn in Hd;
    destruct Hd as (q & Hd & H1 & H2 & H3); exists q; unfold pool_dequeue, mbind, stM_bind, gets, lift, modify, mret, stM_ret; rewrite Hd; cbn; done.
Qed.

Lemma pool_enqueue_spec (get : st → Q) set s v : q_inv (get s) → Z.of_nat (length (q_contents (get s))) < q_cap (get s) →
  ∃ q, pool_enqueue get set v s = Some (1, set q s) ∧ q_inv q ∧ q_cap q = q_cap (get s) ∧ q_contents q = q_contents (get s) ++ [v].
Proof.
  intros Hq Hc. pose proof (q_enqueue_spec (get s) v Hq) as He. unfold fifo_enqueue in He. destruct (Z.ltb_spec (Z.of_nat (length (q_contents (get s)))) (q_cap (get s))); [|lia].
  destruct He as (q & He & H1 & H2 & H3). exists q. unfold pool_enqueue, mbind, stM_bind, gets, lift, modify, mret, stM_ret. rewrite He. done.
Qed.

(** An object leaves the pool, or another one changes. *)
Lemma pool_ok_sub {A} (q q' : Q) (m m' : gmap Z A) flag x : pool_ok q m flag → q_inv q' → q_cap q' = q_cap q → NoDup (q_contents q') →
  (∀ y, y ∈ q_contents q' → y ∈ q_contents q ∧ y ≠ x) → is_Some (m !! x) → is_Some (m' !! x) → (∀ y, y ≠ x → m' !! y = m !! y) → pool_ok q' m' flag.
Proof.
  intros [H1 H2 H3 H4 H5] Hi Hc Hn Hsub Hx Hx' Hy. assert (dom m' = dom m) as Hd.
  { apply set_eq. intros y. rewrite !elem_of_dom. destruct (decide (y = x)) as [->|]; [done|by rewrite Hy]. }
  assert (x ≠ 0) by (intros ->; rewrite H5 in Hx; by destruct Hx). split; [done|done| |by rewrite Hc, <- size_dom, Hd, size_dom|by rewrite Hy].
  intros y [Hin Hne]%Hsub. rewrite Hy by done. by apply H3.
Qed.

(** An object in use comes back to the pool. *)
Lemma pool_ok_room {A} (q : Q) (m : gmap Z A) flag x : pool_ok q m flag → is_Some (m !! x) → x ∉ q_contents q → Z.of_nat (length (q_contents q)) < q_cap q.
Proof.
  intros [H1 H2 H3 H4 H5] Hx Hn. assert (length (x :: q_contents q) <= size (dom m))%nat as Hle.
  { rewrite <- (size_list_to_set (C := gset Z) (x :: q_contents q)) by (by constructor). apply subseteq_size.
    intros y Hy. apply elem_of_list_to_set in Hy. apply elem_of_dom. apply elem_of_cons in Hy as [->|Hy]; [done|]. destruct (H3 y Hy) as (a & Ha & _). eauto. }
  rewrite size_dom in Hle. cbn in Hle. lia.
Qed.

Lemma pool_ok_back {A} (q q' : Q) (m m' : gmap Z A) flag x a : pool_ok q m flag → q_inv q' → q_cap q' = q_cap q → q_contents q' = q_contents q ++ [x] →
  x ∉ q_contents q → is_Some (m !! x) → m' !! x = Some a → flag a = 0 → (∀ y, y ≠ x → m' !! y = m !! y) → pool_ok q' m' flag.
Proof.
  intros Hq Hi Hc Hl Hn Hx Ha Hf Hy. assert (pool_ok q m' flag) as [H1 H2 H3 H4 H5].
  { eapply pool_ok_sub; [exact Hq|apply Hq|done|apply Hq| |done|eauto|done]. intros y Hin. split; [done|]. by intros ->. }
  split; [done| | |by rewrite Hc|done].
  - rewrite Hl. apply NoDup_app. split; [done|]. split; [|apply NoDup_singleton]. intros y Hin ->%list_elem_of_singleton. done.
  - intros y. rewrite Hl, elem_of_app, list_elem_of_singleton. intros [Hin| ->]; [by apply H3|]. eauto.
Qed.

(** ** Items that are not registered *)

Lemma not_in_tree_pool z s g x : einvx z s g → x ∈ q_contents (es_itemPool s) → ¬ in_tree g x.
Proof.
  intros Hi Hx (ep & e & He & Hin). destruct (tree_item _ Hi ep e x He Hin) as (it & Hit & _ & Hf & _).
  destruct (po_free _ _ _ (ei_ipool _ _ _ _ Hi) x Hx) as (a & Ha & Hfa). rewrite Hit in Ha. injection Ha as <-. congruence.
Qed.

Lemma einvx_float z s s' g x : einvx z s g → ¬ in_tree g x → is_Some (es_items s !! x) →
  (∀ y, y ≠ x → es_rbn s' !! y = es_rbn s !! y ∧ es_rdl s' !! y = es_rdl s !! y ∧ es_fll s' !! y = es_fll s !! y ∧ es_items s' !! y = es_items s !! y) →
  is_Some (es_rbn s' !! x) ∧ is_Some (es_rdl s' !! x) ∧ is_Some (es_fll s' !! x) ∧ is_Some (es_items s' !! x) →
  (∀ i l, g_fl g !! i = Some l → x ∈ l → x ∈ z ∧ es_fll s' !! x = es_fll s !! x) →
  es_eps s' = es_eps s → es_infos s' = es_infos s → es_sockMap s' = es_sockMap s → es_epPool s' = es_epPool s → es_infoPool s' = es_infoPool s →
  pool_ok (es_itemPool s') (es_items s') (λ i, alloc_flag (epi_res_chk i)) → einvx z s' g.
Proof.
  intros [H1 H2 H3 H4 H5 H6 H7 H8 H9] Hnt Hx Hy (X1 & X2 & X3 & X4) Hfl E1 E2 E3 E4 E5 Hp.
  split; rewrite ?E1, ?E2, ?E4, ?E5; try done.
  - destruct H1 as [M1 M2 M3 M4]. split; rewrite ?E1, ?E2.
    + intros y Hiy. destruct (decide (y = x)) as [->|Hne]; [done|]. destruct (Hy y Hne) as (Y1 & Y2 & Y3 & Y4). rewrite Y1, Y2, Y3. apply M1. by rewrite <- Y4.
    + intros y Hey. destruct (M2 y Hey) as [? Hn]. assert (y ≠ x) by (intros ->; rewrite Hn in Hx; by destruct Hx). destruct (Hy y) as (Y1 & Y2 & Y3 & Y4); [done|]. by rewrite Y2, Y4.
    + intros y Hey. destruct (M3 y Hey) as [? Hn]. assert (y ≠ x) by (intros ->; rewrite Hn in Hx; by destruct Hx). destruct (Hy y) as (Y1 & Y2 & Y3 & Y4); [done|]. by rewrite Y3, Y4.
    + assert (dom (es_items s') = dom (es_items s)) as Hd.
      { apply set_eq. intros y. rewrite !elem_of_dom. destruct (decide (y = x)) as [->|Hne]; [done|]. destruct (Hy y Hne) as (_ & _ & _ & ->). done. }
      by rewrite <- (size_dom (es_items s')), Hd, size_dom.
  - intros ep e He. destruct (H5 ep e He) as (r & Hr & Hok). exists r. split; [done|].
    assert (Hne : ∀ y, y ∈ ge_tree e → y ≠ x) by (intros y Hin ->; apply Hnt; by exists ep, e).
    eapply ep_ok_frame; [..|exact Hok]; rewrite ?E2, ?E3; try done; [..|naive_solver|naive_solver]; intros y Hin.
    + by apply Hy, Hne.
    + apply Hy. apply elem_of_cons in Hin as [->|Hin]; [|by apply Hne]. intros ->. destruct (mo_eps _ H1 x) as [_ Hn]; [eauto|]. rewrite Hn in Hx. by destruct Hx.
    + by destruct (Hy y (Hne y Hin)) as (_ & _ & _ & ->).
  - intros i l Hl. destruct (H6 i l Hl) as (r & Hr & Hok). exists r. split; [done|]. assert (i ≠ x).
    { intros ->. destruct (mo_infos _ H1 x) as [_ Hn]; [eauto|]. rewrite Hn in Hx. by destruct Hx. }
    destruct (decide (x ∈ l)) as [Hin|Hin].
    + destruct (Hfl i l Hl Hin) as [Hz Hfx]. destruct Hok as [I1 I2 I3 I4 I5 I6 I7]. split; try done.
      * apply (slist_ext (es_fll s)); [|done]. intros y _. destruct (decide (y = x)) as [->|Hne]; [done|by apply Hy].
      * intros y Hyl. destruct (decide (y = x)) as [->|Hne]; [split; [done|by intros []]|]. destruct (Hy y Hne) as (_ & _ & _ & ->). by apply I3.
    + eapply info_ok_frame; [..|exact Hok]; try done.
      * intros y [->|Hyl]%elem_of_cons; apply Hy; [done|by intros ->].
      * intros y Hyl. destruct (Hy y) as (_ & _ & _ & ->); [by intros ->|done].
  - destruct H8 as (m & M1 & M2 & M3). exists m. rewrite E2, E3. split; [done|]. split; [done|]. unfold live. by rewrite E1.
Qed.

Definition floating g (x : Z) : Prop := ¬ in_tree g x ∧ ∀ i l, g_fl g !! i = Some l → x ∉ l.

(** All that an item at [x] does not belong to. *)
Record away (x : Z) s s' : Prop := {
  aw_eps : es_eps s' = es_eps s;
  aw_infos : es_infos s' = es_infos s;
  aw_sock : es_sockMap s' = es_sockMap s;
  aw_epool : es_epPool s' = es_epPool s;
  aw_fpool : es_infoPool s' = es_infoPool s;
  aw_world : es_world s' = es_world s;
  aw_rest : ∀ y, y ≠ x → es_rbn s' !! y = es_rbn s !! y ∧ es_rdl s' !! y = es_rdl s !! y ∧ es_fll s' !! y = es_fll s !! y ∧ es_items s' !! y = es_items s !! y
}.
#[global] Instance away_preorder x : PreOrder (away x).
Proof.
  split.
  - intros s. by split.
  - intros s s' s'' [? ? ? ? ? ? K] [? ? ? ? ? ? L]. split; [congruence..|]. intros y Hy. destruct (K y Hy) as (<- & <- & <- & <-). by apply L.
Qed.

(** The nodes of an item. *)
Definition nodes s (x : Z) : Prop := is_Some (es_rbn s !! x) ∧ is_Some (es_rdl s !! x) ∧ is_Some (es_fll s !! x) ∧ is_Some (es_items s !! x).

Lemma item_nodes z s g x : einvx z s g → is_Some (es_items s !! x) → nodes s x.
Proof. intros Hi Hx. destruct (mo_items _ (ei_mem _ _ _ _ Hi) x Hx) as (? & ? & ?). done. Qed.

Lemma einvx_away z s s' g x : einvx z s g → floating g x → nodes s x → away x s s' → nodes s' x →
  pool_ok (es_itemPool s') (es_items s') (λ i, alloc_flag (epi_res_chk i)) → einvx z s' g.
Proof.
  intros Hi [Hnt Hnl] (_ & _ & _ & Hx) [? ? ? ? ? ? Hy] (X1 & X2 & X3 & X4) Hp. eapply einvx_float; try done. intros i l Hl Hin. by destruct (Hnl i l Hl).
Qed.

Lemma init_epitem_run s x it : nodes s x → es_items s !! x = Some it →
  ∃ s', nsep_init_epitem x s = Some (0, s') ∧ away x s s' ∧ nodes s' x ∧ es_itemPool s' = es_itemPool s ∧
    es_items s' !! x = Some (mk_epi (mk_hn None None) 0 None (epi_epInfo it) NSEP_EP_UNACTIVE_PTR (mk_ev 0 0) 0 0 (-1) (epi_pid it) None (epi_res_chk it)) ∧
    es_rdl s' !! x = Some (mk_hn None None).
Proof.
  intros ([n Hn] & [h Hh] & [f Hf] & _) Hit. unfold nsep_init_epitem.
  rewrite (bind_run _ _ _ tt (set_es_rbn (<[x := set_parent (Some x) n]> (es_rbn s)) s)) by (unfold mbind, stM_bind, gets, lift, modify; by rewrite Hn).
  erewrite bind_run by (apply rdl_upd_run; by eapply init_node_eq). erewrite bind_run by (apply item_upd_run; exact Hit).
  erewrite bind_run by (apply fll_upd_run; cbn; by rewrite Hf). erewrite bind_run by (apply item_upd_run; apply lookup_insert_eq). eexists. split; [done|]. cbn. split; [|split; [|split; [|split]]].
  - split; try done. intros y Hy. cbn. by rewrite !lookup_insert_ne by done.
  - unfold nodes. cbn. rewrite !lookup_insert_eq. eauto 10.
  - done.
  - by rewrite lookup_insert_eq.
  - apply lookup_insert_eq.
Qed.

Lemma floating_pool s g x : einvx [] s g → x ∈ q_contents (es_itemPool s) → floating g x.
Proof.
  intros Hi Hx. pose proof (not_in_tree_pool _ _ _ _ Hi Hx) as Hnt. split; [done|]. intros i l Hl Hin. destruct (ei_infos _ _ _ _ Hi i l Hl) as (r & _ & Hok).
  destruct (io_items _ _ _ _ _ _ Hok x Hin) as [_ Hin']. destruct Hin' as (ep & e & it & He & Ht & _); [apply not_elem_of_nil|]. apply Hnt. by exists ep, e.
Qed.

(** An item comes out of the pool, if there is one. *)
Lemma alloc_epitem_spec s g : einvx [] s g →
  match q_contents (es_itemPool s) with
  | [] => ∃ s', nsep_alloc_epitem env s = Some ((-1, None), s') ∧ soft s (set_es_itemPool (es_itemPool s) s') ∧ einvx [] s' g ∧ es_items s' = es_items s
  | x :: l => ∃ s', nsep_alloc_epitem env s = Some ((0, Some x), s') ∧ einvx [] s' g ∧ floating g x ∧ away x s s' ∧ nodes s x ∧ nodes s' x ∧
      q_contents (es_itemPool s') = l ∧ (x ∉ l) ∧ es_rdl s' !! x = Some (mk_hn None None) ∧
      ∃ it, es_items s' !! x = Some it ∧ epi_pid it = se_pid env ∧ epi_next it = NSEP_EP_UNACTIVE_PTR ∧ alloc_flag (epi_res_chk it) = 1
  end.
Proof.
  intros Hi. pose proof (ei_ipool _ _ _ _ Hi) as Hp. pose proof (pool_dequeue_spec es_itemPool set_es_itemPool s (po_inv _ _ _ Hp)) as Hd. unfold nsep_alloc_epitem.
  destruct (q_contents (es_itemPool s)) as [|x l] eqn:Hc; destruct Hd as (q & Hd & Hq1 & Hq2 & Hq3); rewrite (bind_run _ _ _ _ _ Hd); cbn [Z.eqb orb].
  { eexists. split; [done|]. split; [by split|]. split; [|done].
    apply (einvx_pools env [] s g q (es_epPool s) (es_infoPool s)); [done| |apply Hi|apply Hi]. destruct Hp as [P1 P2 P3 P4 P5].
    split; [done| | |by rewrite Hq2|done]; rewrite Hq3; [constructor|intros y Hy; by apply elem_of_nil in Hy]. }
  destruct (po_free _ _ _ Hp x) as (it & Hit & Hfl); [rewrite Hc; left|]. assert (Hx0 : x ≠ 0) by (intros ->; rewrite (po_null _ _ _ Hp) in Hit; done).
  destruct (Z.eqb_spec x 0); [done|]. assert (Hfloat : floating g x) by (apply (floating_pool s); [done|rewrite Hc; left]).
  assert (Hnx : nodes s x) by (eapply item_nodes; [done|eauto]). pose proof (po_nodup _ _ _ Hp) as Hnd. rewrite Hc in Hnd. apply NoDup_cons in Hnd as [Hxl Hnd].
  rewrite (bind_run _ _ _ _ _ (item_upd_run _ x (set_es_itemPool q s) it Hit)). set (s1 := set_es_items _ _). set (it1 := set_epi_pid _ _) in s1.
  assert (Hit1 : es_items s1 !! x = Some it1) by apply lookup_insert_eq.
  assert (Hn1 : nodes s1 x) by (destruct Hnx as (? & ? & ? & ?); unfold nodes; rewrite Hit1; cbn; eauto).
  destruct (init_epitem_run s1 x it1 Hn1 Hit1) as (s2 & Hr2 & Ha2 & Hn2 & Hp2 & Hit2 & Hrd2). rewrite (bind_run _ _ _ _ _ Hr2). cbn [Z.eqb negb].
  assert (Ha : away x s s2) by (etrans; [|exact Ha2]; split; try done; intros y Hy; cbn; by rewrite lookup_insert_ne).
  exists s2. split; [done|]. split; [|split; [done|split; [done|split; [done|split; [done|split; [by rewrite Hp2|split; [done|split; [done|eauto]]]]]]]].
  eapply einvx_away; [done|done|done|done|done|]. eapply pool_ok_sub; [exact Hp|by rewrite Hp2|by rewrite Hp2|rewrite Hp2; cbn; by rewrite Hq3| |eauto|apply Hn2|apply Ha].
  intros y. rewrite Hp2. cbn. rewrite Hq3, Hc. intros Hy. split; [by right|]. by intros ->.
Qed.

(** An item that is in nothing goes back to the pool. *)
Lemma free_epitem_spec z s g x it : einvx z s g → floating g x → es_items s !! x = Some it → alloc_flag (epi_res_chk it) = 1 →
  ∃ s' it', nsep_free_epitem x s = Some (0, s') ∧ einvx z s' g ∧ away x s s' ∧ es_items s' !! x = Some it' ∧ epi_pid it' = 0 ∧ alloc_flag (epi_res_chk it') = 0 ∧
    q_contents (es_itemPool s') = q_contents (es_itemPool s) ++ [x].
Proof.
  intros Hi Hfloat Hit Hfl. pose proof (item_nodes _ _ _ _ Hi (mk_is_Some _ _ Hit)) as Hn. unfold nsep_free_epitem. rewrite (bind_run _ _ _ _ _ (item_upd_run _ x s it Hit)).
  rewrite (bind_run _ _ _ _ _ (item_get_run _ x _ _ (lookup_insert_eq _ _ _))). cbn [set_epi_pid epi_res_chk]. unfold res_free. rewrite Hfl. cbn [Z.eqb negb Pos.eqb].
  rewrite (bind_run _ _ _ _ _ (item_upd_run _ x _ _ (lookup_insert_eq _ _ _))). set (s1 := set_es_items _ _).
  pose proof (ei_ipool _ _ _ _ Hi) as Hp. assert (Hnc : x ∉ q_contents (es_itemPool s)).
  { intros Hin. destruct (po_free _ _ _ Hp x Hin) as (a & Ha & Hfa). rewrite Hit in Ha. injection Ha as <-. cbn in Hfa. congruence. }
  destruct (pool_enqueue_spec es_itemPool set_es_itemPool s1 x (po_inv _ _ _ Hp)) as (q & He & Q1 & Q2 & Q3); [by eapply pool_ok_room; [exact Hp|eauto|]|].
  rewrite (bind_run _ _ _ _ _ He). set (s2 := set_es_itemPool q s1).
  assert (Ha : away x s s2) by (split; try done; intros y Hy; cbn; by rewrite !lookup_insert_ne).
  assert (Hn2 : nodes s2 x) by (destruct Hn as (? & ? & ? & ?); unfold nodes; cbn; rewrite lookup_insert_eq; eauto).
  eexists s2, _. split; [done|]. split; [|split; [done|split; [apply lookup_insert_eq|split; [done|split; [done|exact Q3]]]]].
  eapply einvx_away; [done|done|done|done|done|]. eapply (pool_ok_back (es_itemPool s)); [exact Hp|exact Q1|exact Q2|exact Q3|done|eauto|cbn; by rewrite lookup_insert_eq|done|apply Ha].
Qed.

(** ** The items under way *)

Lemma einvx_exempt z z' s g : einvx z s g →
  (∀ ep e x, g_eps g !! ep = Some e → x ∈ ge_tree e → item_ok env z s g ep e x → item_ok env z' s g ep e x) →
  (∀ i l r, g_fl g !! i = Some l → info_ok z s g i l r → info_ok z' s g i l r) → einvx z' s g.
Proof.
  intros [H1 H2 H3 H4 H5 H6 H7 H8 H9] He Hl. split; try done.
  - intros ep e Hep. destruct (H5 ep e Hep) as (r & Hr & Hok). exists r. split; [done|]. destruct Hok as [O1 O2 O3 O4 O5 O6 O7 O8 O9 O10]. split; try done. eauto.
  - intros i l Hil. destruct (H6 i l Hil) as (r & Hr & Hok). eauto.
Qed.

Lemma einvx_weaken z z' s g : (∀ y, y ∈ z → y ∈ z') → einvx z s g → einvx z' s g.
Proof.
  intros Hz Hi. apply (einvx_exempt z); [done| |].
  - intros ep e x He Hx (it & H1 & H2 & H3 & H4 & H5 & H6). exists it. eauto 10.
  - intros i l r Hl [O1 O2 O3 O4 O5 O6 O7]. split; try done. intros x Hx. destruct (O3 x Hx) as [? Hin]. split; [done|]. eauto.
Qed.

(** [x] is in a tree and in the list of its descriptor, or in neither. *)
Definition settled s g (x : Z) : Prop :=
  (∀ ep e, g_eps g !! ep = Some e → x ∈ ge_tree e → item_ok env [] s g ep e x) ∧
  (∀ i l, g_fl g !! i = Some l → x ∈ l → ∃ it, in_tree g x ∧ es_items s !! x = Some it ∧ epi_private_data it = Some i).

Lemma floating_settled s g x : floating g x → settled s g x.
Proof. intros [H1 H2]. split; [intros ep e He Hx; exfalso; apply H1; by exists ep, e|]. intros i l Hl Hx. by destruct (H2 i l Hl). Qed.

Lemma einvx_settle z s g x : einvx (x :: z) s g → settled s g x → einvx z s g.
Proof.
  intros Hi [Ht Hl]. apply (einvx_exempt (x :: z)); [done| |].
  - intros ep e y He Hy (it & H1 & H2 & H3 & H4 & H5 & H6). destruct (decide (y = x)) as [->|Hne].
    + destruct (Ht ep e He Hy) as (it' & J1 & J2 & J3 & J4 & J5 & J6). exists it'. split; [done|]. split; [done|]. split; [done|]. split; [done|]. split; [done|].
      intros _. apply J6, not_elem_of_nil.
    + exists it. split; [done|]. split; [done|]. split; [done|]. split; [done|]. split; [done|]. intros Hz. apply H6. set_solver.
  - intros i l r Hil [O1 O2 O3 O4 O5 O6 O7]. split; try done. intros y Hy. destruct (O3 y Hy) as [? Hin]. split; [done|]. intros Hz.
    destruct (decide (y = x)) as [->|Hne]; [|apply Hin; set_solver]. destruct (Hl i l Hil Hy) as (it & (ep & e & He & Hx) & J1 & J2). by exists ep, e, it.
Qed.

(** ** Lists of items *)

Lemma list_length_items z s g i l x : einvx z s g → g_fl g !! i = Some l → is_Some (es_items s !! x) → x ∉ l → (length l < list_fuel)%nat.
Proof.
  intros Hi Hl Hx Hnx. destruct (ei_infos _ _ _ _ Hi i l Hl) as (r & _ & [[Hnd _] _ Hit _ _ _ _]). apply NoDup_cons in Hnd as [_ Hnd].
  assert (length (x :: l) <= size (dom (es_items s)))%nat as Hle.
  { rewrite <- (size_list_to_set (C := gset Z) (x :: l)) by (by constructor). apply subseteq_size.
    intros y Hy. apply elem_of_list_to_set in Hy. apply elem_of_dom. apply elem_of_cons in Hy as [->|Hy]; [done|]. by apply Hit. }
  rewrite size_dom in Hle. pose proof (proj1 (mo_max _ (ei_mem _ _ _ _ Hi))). unfold list_fuel. cbn in Hle. lia.
Qed.

(** The list of [i] changes; what leaves it or joins it is under way. *)
Lemma einvx_fll z s g i l l' m : einvx z s g → g_fl g !! i = Some l → slist m i l' →
  (∀ y, y ∉ i :: l ++ l' → m !! y = es_fll s !! y) → (∀ y, is_Some (es_fll s !! y) → is_Some (m !! y)) →
  (∀ y, y ∈ l' → y ∈ l ∨ y ∈ z ∧ floating g y ∧ is_Some (es_items s !! y)) → (∀ y, y ∈ l → y ∈ l' ∨ y ∈ z) →
  einvx z (set_es_fll m s) (fl_upd i l' g).
Proof.
  intros Hi Hl Hm Hout Hdom Hjoin Hleave. pose proof Hi as [H1 H2 H3 H4 H5 H6 H7 H8 H9]. split; try done.
  - destruct H1 as [M1 M2 M3 M4]. split; cbn; try done.
    + intros y Hy. destruct (M1 y Hy) as (? & ? & ?). auto.
    + intros y Hy. destruct (M3 y Hy). auto.
  - intros ep e He. destruct (H5 ep e He) as (r & Hr & Hok). exists r. split; [done|]. destruct Hok as [O1 O2 O3 O4 O5 O6 O7 O8 O9 O10]. split; try done.
    intros y Hy. destruct (O8 y Hy) as (it & I1 & I2 & I3 & I4 & I5 & I6). exists it. split; [done|]. split; [done|]. split; [done|]. split; [done|]. split; [done|]. intros Hz.
    destruct (I6 Hz) as (j & lj & q & J1 & J2 & J3 & J4 & J5). destruct (decide (j = i)) as [->|].
    + rewrite Hl in J2. injection J2 as <-. exists i, l', q. cbn. rewrite lookup_insert_eq. split; [done|]. split; [done|]. split; [|done]. by destruct (Hleave y J3).
    + exists j, lj, q. cbn. by rewrite lookup_insert_ne.
  - cbn. intros j lj Hj. destruct (decide (j = i)) as [->|Hne].
    + rewrite lookup_insert_eq in Hj. injection Hj as <-. destruct (H6 i l Hl) as (r & Hr & Hok). exists r. split; [done|]. destruct Hok as [O1 O2 O3 O4 O5 O6 O7]. split; try done.
      intros y Hy. destruct (Hjoin y Hy) as [Hyl|(Hz & _ & Hity)]; [by apply O3|]. split; [done|]. by intros [].
    + rewrite lookup_insert_ne in Hj by done. destruct (H6 j lj Hj) as (r & Hr & Hok). exists r. split; [done|]. eapply info_ok_frame; [..|exact Hok]; try done. cbn.
      intros y Hy. apply Hout. intros Hy'. assert (Hitem : ∀ k lk w, g_fl g !! k = Some lk → w ∈ lk → is_Some (es_items s !! w)).
      { intros k lk w Hk Hw. destruct (H6 k lk Hk) as (qk & _ & Hokk). by apply (io_items _ _ _ _ _ _ Hokk). }
      assert (Hinfo : ∀ k lk, g_fl g !! k = Some lk → es_items s !! k = None).
      { intros k lk Hk. destruct (H6 k lk Hk) as (qk & Hqk & _). apply (mo_infos _ H1). eauto. }
      pose proof (Hinfo i l Hl) as Hii. pose proof (Hinfo j lj Hj) as Hij.
      assert (Hin' : ∀ w, w ∈ l ++ l' → is_Some (es_items s !! w) ∧ w ∉ lj).
      { intros w [Hw|Hw]%elem_of_app; [exact (conj (Hitem i l w Hl Hw) (H7 i j l lj Hl Hj (not_eq_sym Hne) w Hw))|]. destruct (Hjoin w Hw) as [Hw'|(_ & [_ Hf] & Hs)]; [exact (conj (Hitem i l w Hl Hw') (H7 i j l lj Hl Hj (not_eq_sym Hne) w Hw'))|]. split; [done|exact (Hf j lj Hj)]. }
      apply elem_of_cons in Hy as [->|Hy]; apply elem_of_cons in Hy' as [->|Hy'].
      * done.
      * destruct (Hin' j Hy') as [Hs _]. rewrite Hij in Hs. by destruct Hs.
      * pose proof (Hitem _ _ _ Hj Hy) as Hs. rewrite Hii in Hs. by destruct Hs.
      * by apply (Hin' y Hy').
  - cbn. intros j1 j2 l1 l2 Hj1 Hj2 Hne y Hy1 Hy2.
    assert (Hl' : ∀ j lj, g_fl g !! j = Some lj → j ≠ i → y ∈ l' → y ∉ lj).
    { intros j lj Hj Hji Hyl'. destruct (Hjoin y Hyl') as [Hyl|(_ & [_ Hf] & _)]; [exact (H7 i j l lj Hl Hj (not_eq_sym Hji) y Hyl)|exact (Hf j lj Hj)]. }
    destruct (decide (j1 = i)) as [->|]; [|rewrite lookup_insert_ne in Hj1 by done]; (destruct (decide (j2 = i)) as [->|]; [|rewrite lookup_insert_ne in Hj2 by done]).
    + done.
    + rewrite lookup_insert_eq in Hj1. injection Hj1 as <-. by apply (Hl' j2 l2).
    + rewrite lookup_insert_eq in Hj2. injection Hj2 as <-. by apply (Hl' j1 l1).
    + by apply (H7 j1 j2 l1 l2 Hj1 Hj2 Hne y).
  - destruct H8 as (mm & M1 & M2 & M3). exists mm. split; [done|]. split; [done|]. intros fd j Ha. destruct (M3 fd j Ha) as (q & Hq & J1 & J2 & J3).
    exists q. split; [done|]. cbn. split; [|done]. destruct (decide (j = i)) as [->|]; [rewrite lookup_insert_eq; eauto|by rewrite lookup_insert_ne].
Qed.

Lemma slist_alloc m h xs y : slist m h xs → y ∈ h :: xs → is_Some (m !! y).
Proof.
  intros [_ Hc]. revert h Hc. induction xs as [|x xs IH]; intros h Hc Hy; cbn in Hc.
  - apply list_elem_of_singleton in Hy as ->. eauto.
  - destruct Hc as [Hh Hc]. apply elem_of_cons in Hy as [->|Hy]; [eauto|by apply (IH x)].
Qed.

Lemma info_not_item z s g i l x : einvx z s g → g_fl g !! i = Some l → is_Some (es_items s !! x) → x ≠ i.
Proof.
  intros Hi Hl Hx ->. destruct (ei_infos _ _ _ _ Hi i l Hl) as (r & Hr & _). destruct (mo_infos _ (ei_mem _ _ _ _ Hi) i) as [_ Hn]; [eauto|]. rewrite Hn in Hx. by destruct Hx.
Qed.

Lemma fl_add_spec z s g i l x : einvx z s g → g_fl g !! i = Some l → x ∈ z → floating g x → is_Some (es_items s !! x) →
  ∃ m, ep_list_add_tail list_fuel (es_fll s) (Some i) x = Some m ∧ einvx z (set_es_fll m s) (fl_upd i (l ++ [x]) g).
Proof.
  intros Hi Hl Hz Hf Hx. destruct (ei_infos _ _ _ _ Hi i l Hl) as (r & Hr & Hok). destruct (mo_items _ (ei_mem _ _ _ _ Hi) x Hx) as (_ & _ & Hfx).
  pose proof (proj2 Hf i l Hl) as Hxl. pose proof (info_not_item _ _ _ _ _ _ Hi Hl Hx) as Hxi.
  destruct (ep_list_add_tail_spec list_fuel _ _ _ x (io_list _ _ _ _ _ _ Hok)) as (m & Hm & Hs & Hout); [set_solver|done|by eapply list_length_items|].
  exists m. split; [done|]. apply (einvx_fll z s g i l); [done|done|done| | | |].
  - intros y Hy. apply Hout. set_solver.
  - intros y Hy. destruct (decide (y ∈ x :: i :: l)) as [Hin|Hin]; [|by rewrite Hout]. apply (slist_alloc _ _ _ _ Hs). set_solver.
  - intros y [Hy|Hy]%elem_of_app; [by left|]. apply list_elem_of_singleton in Hy as ->. by right.
  - intros y Hy. left. set_solver.
Qed.

Lemma fl_del_spec z s g i l1 x l2 : einvx z s g → g_fl g !! i = Some (l1 ++ x :: l2) →
  ∃ m, ep_list_del list_fuel (es_fll s) (Some i) x = Some m ∧ einvx (x :: z) (set_es_fll m s) (fl_upd i (l1 ++ l2) g).
Proof.
  intros Hi Hl. destruct (ei_infos _ _ _ _ Hi i _ Hl) as (r & Hr & Hok). pose proof (io_list _ _ _ _ _ _ Hok) as [Hnd _].
  assert (length (l1 ++ x :: l2) <= list_fuel)%nat as Hlen.
  { apply NoDup_cons in Hnd as [_ Hnd]. assert (length (l1 ++ x :: l2) <= size (dom (es_items s)))%nat as Hle.
    { rewrite <- (size_list_to_set (C := gset Z) (l1 ++ x :: l2)) by done. apply subseteq_size. intros y Hy. apply elem_of_list_to_set in Hy. apply elem_of_dom.
      by apply (io_items _ _ _ _ _ _ Hok). }
    rewrite size_dom in Hle. pose proof (proj1 (mo_max _ (ei_mem _ _ _ _ Hi))). unfold list_fuel. lia. }
  destruct (ep_list_del_spec list_fuel _ _ _ _ _ (io_list _ _ _ _ _ _ Hok) Hlen) as (m & Hm & Hs & Hmx & Hout). exists m. split; [done|].
  apply (einvx_fll (x :: z) s g i (l1 ++ x :: l2)); [by eapply einvx_weaken; [|done]; set_solver|done|done| | | |].
  - intros y Hy. apply Hout. set_solver.
  - intros y Hy. destruct (decide (y = x)) as [->|]; [eauto|]. destruct (decide (y ∈ i :: l1 ++ x :: l2)) as [Hin|Hin]; [|by rewrite Hout]. apply (slist_alloc _ _ _ _ Hs). set_solver.
  - intros y Hy. left. set_solver.
  - intros y Hy. set_solver.
Qed.

(** ** Trees *)

(** The tree of [ep] changes; what joins it is under way and has all but its place. *)
Lemma einvx_tree z s g ep e r T m root : einvx z s g → g_eps g !! ep = Some e → es_eps s !! ep = Some r →
  tree_inv (fd_of s) (mk_rbt m root) T → (∀ y, y ∉ ge_tree e ++ T → m !! y = es_rbn s !! y) → (∀ y, is_Some (es_rbn s !! y) → is_Some (m !! y)) →
  (∀ y, y ∈ T → y ∈ ge_tree e ∨ ¬ in_tree g y ∧ es_rdl s !! y = Some (mk_hn None None) ∧ item_ok env z s g ep e y) →
  (∀ y, y ∈ ge_tree e → y ∈ T ∨ (y ∉ ge_ready e ++ ph_rest (ge_phase e) ++ ph_ovf (ge_phase e)) ∧ ∀ i l, g_fl g !! i = Some l → y ∉ l) →
  einvx z (set_es_eps (<[ep := set_ep_rbr root r]> (es_eps s)) (set_es_rbn m s)) (gep_upd ep (set_tree T e) g).
Proof.
  intros Hi He Hr Ht Hout Hdom Hjoin Hleave. pose proof Hi as [H1 H2 H3 H4 H5 H6 H7 H8 H9]. split; try done.
  - destruct H1 as [M1 M2 M3 M4]. split; cbn; try done.
    + intros x Hx. destruct (M1 x Hx) as (? & ? & ?). auto.
    + intros x Hx. apply M2. destruct (decide (x = ep)) as [->|]; [eauto|]. by rewrite lookup_insert_ne in Hx.
    + rewrite <- (size_dom (<[ep := _]> (es_eps s))), dom_insert_lookup_L, size_dom; eauto.
  - eapply pool_ok_frame; [|exact H3]. intros x. cbn. destruct (decide (x = ep)) as [->|]; [by rewrite lookup_insert_eq, Hr|by rewrite lookup_insert_ne].
  - cbn. intros ep2 e2 He2. destruct (decide (ep2 = ep)) as [->|Hne].
    + rewrite lookup_insert_eq in He2. injection He2 as <-. exists (set_ep_rbr root r). split; [apply lookup_insert_eq|].
      destruct (H5 ep e He) as (r1 & Hr1 & [O1 O2 O3 O4 O5 O6 O7 O8 O9 O10]). rewrite Hr in Hr1. injection Hr1 as <-. split; try done; cbn.
      * intros y Hy. by destruct (Hleave y (O5 y Hy)) as [|[? _]].
      * intros y Hy Hny. destruct (Hjoin y Hy) as [Hyt|(_ & Hu & _)]; [by apply O7|done].
      * intros y Hy. destruct (Hjoin y Hy) as [Hyt|(_ & _ & Hu)]; [by apply O8|done].
    + rewrite lookup_insert_ne in He2 by done. destruct (H5 ep2 e2 He2) as (r2 & Hr2 & Hok2). exists r2. split; [by rewrite lookup_insert_ne|].
      eapply ep_ok_frame; [..|exact Hok2]; try done; cbn; [|naive_solver..]. intros x Hx. apply Hout. intros [Hx'|Hx']%elem_of_app.
      * apply Hne. by apply (tree_disj _ Hi ep2 e2 ep e x).
      * destruct (Hjoin x Hx') as [Hx2|(Hn & _)]; [apply Hne; by apply (tree_disj _ Hi ep2 e2 ep e x)|]. apply Hn. by exists ep2, e2.
  - cbn. intros i l Hl. destruct (H6 i l Hl) as (q & Hq & Hokq). exists q. split; [done|]. eapply info_ok_frame; [..|exact Hokq]; try done.
    intros x Hx (ep2 & e2 & He2 & Hx2). destruct (decide (ep2 = ep)) as [->|].
    + rewrite He in He2. injection He2 as <-. exists ep, (set_tree T e). cbn. rewrite lookup_insert_eq. split; [done|].
      destruct (Hleave x Hx2) as [|[_ Hn]]; [done|]. by destruct (Hn i l Hl).
    + exists ep2, e2. cbn. by rewrite lookup_insert_ne.
  - destruct H8 as (mm & M1 & M2 & M3). exists mm. split; [done|]. split; [done|]. intros fd i Ha. destruct (M3 fd i Ha) as (q & Hq & J1 & J2 & J3).
    exists q. split; [done|]. split; [done|]. split; [done|]. intros ep2 Hep2. destruct (J3 ep2 Hep2) as (e2 & q2 & L1 & L2 & L3). unfold live. cbn.
    destruct (decide (ep2 = ep)) as [->|]; [rewrite !lookup_insert_eq; eexists _, _; split; [done|]; split; [done|]; cbn; congruence|rewrite !lookup_insert_ne by done; by exists e2, q2].
Qed.
End alloc.
