(* ===== verification/EpollOps.v ===== *)
(** * Epoll: registration, removal and change of interest *)
From S2P Require Import Prelude.
From S2P Require Import Queue.
From S2P Require Import RbTree.
From S2P Require Import RbTreeProofs.
From S2P Require Import RbTreeProps.
From S2P Require Import RbTreeLocal.
From S2P Require Import EpList.
From S2P Require Import EpollData.
From S2P Require Import Epoll.
From S2P Require Import EpollPoll.
From S2P Require Import EpollInv.
From S2P Require Import EpollCtl.
From S2P Require Import EpollAlloc.

(** Enough rounds for every tree of the pool. *)
Lemma rounds_fuel n : Z.of_nat n <= NSTACK_MAX_EPITEM_NUM → (rounds n <= tree_fuel)%nat.
Proof.
  unfold NSTACK_MAX_EPITEM_NUM. intros Hn. assert (Nat.log2 (S n) <= 15)%nat as Hl.
  { rewrite <- (Nat.log2_pow2 15) by lia. apply Nat.log2_le_mono. apply Nat2Z.inj_le. rewrite Nat2Z.inj_pow. lia. }
  unfold rounds, tree_fuel. apply Nat2Z.inj_le. rewrite Z2Nat.id; unfold NSTACK_MAX_EPITEM_NUM; lia.
Qed.

Section ops.
Context {Q W : Type} `{BoundedQueue Q} (env : stack_env W).
Abbreviation st := (est Q W).
Abbreviation einvx := (einvx env).
Abbreviation einv := (einv env).
Implicit Types (s : st) (g : ghost) (z : list Z).

Lemma tree_length z s g ep e X : einvx z s g → g_eps g !! ep = Some e → NoDup X → (∀ x, x ∈ X → is_Some (es_items s !! x)) → Z.of_nat (length X) <= NSTACK_MAX_EPITEM_NUM.
Proof.
  intros Hi He Hnd HX. assert (length X <= size (dom (es_items s)))%nat as Hle.
  { rewrite <- (size_list_to_set (C := gset Z) X) by done. apply subseteq_size. intros y Hy. apply elem_of_list_to_set in Hy. by apply elem_of_dom, HX. }
  rewrite size_dom in Hle. pose proof (proj1 (mo_max _ (ei_mem _ _ _ _ Hi))). lia.
Qed.

Lemma tree_of_run ep s r : es_eps s !! ep = Some r → tree_of ep s = Some (mk_rbt (es_rbn s) (ep_rbr r), s).
Proof. intros Hr. unfold tree_of, mbind, stM_bind, gets. by rewrite (ep_get_run _ _ _ _ Hr). Qed.

Lemma tree_upd_run f ep s r t : es_eps s !! ep = Some r → f (mk_rbt (es_rbn s) (ep_rbr r)) = Some t →
  tree_upd f ep s = Some (tt, set_es_eps (<[ep := set_ep_rbr (rb_node t) r]> (es_eps s)) (set_es_rbn (rb_nodes t) s)).
Proof.
  intros Hr Hf. unfold tree_upd. erewrite bind_run by (by apply tree_of_run). rewrite (bind_run _ _ _ t s) by (unfold lift; by rewrite Hf).
  erewrite bind_run by done. exact (ep_upd_run _ ep (set_es_rbn (rb_nodes t) s) r Hr).
Qed.

Lemma sorted_nodup fd l : fd_sorted fd l → NoDup l.
Proof.
  intros Hs. induction Hs as [|x l Hs IH Hf]; constructor; [|done]. intros Hx. rewrite Forall_forall in Hf. specialize (Hf x Hx). lia.
Qed.

Lemma tree_nodup z s g ep e r : ep_ok env z s g ep e r → NoDup (ge_tree e).
Proof. intros Hok. destruct (eo_tree _ _ _ _ _ _ _ Hok) as [Hs _]. by eapply sorted_nodup. Qed.

(** ** The tree of an event poll *)

Lemma tree_insert_spec z s g ep e r x it : einvx z s g → g_eps g !! ep = Some e → es_eps s !! ep = Some r → x ∈ z → ¬ in_tree g x →
  es_items s !! x = Some it → item_ok env z s g ep e x → es_rdl s !! x = Some (mk_hn None None) → (∀ y, y ∈ ge_tree e → fd_of s y ≠ epi_fd it) →
  ∃ t, epoll_rbtree_insert ep x s = Some (tt, set_es_eps (<[ep := set_ep_rbr (rb_node t) r]> (es_eps s)) (set_es_rbn (rb_nodes t) s)) ∧
    einvx z (set_es_eps (<[ep := set_ep_rbr (rb_node t) r]> (es_eps s)) (set_es_rbn (rb_nodes t) s)) (gep_upd ep (set_tree (tseq_do (fd_of s) (ge_tree e) (Ins x)) e) g).
Proof.
  intros Hi He Hr Hz Hnt Hit Hok Hrd Hfd. destruct (ep_get_ok _ Hi ep e He) as (r1 & Hr1 & Hep). rewrite Hr in Hr1. injection Hr1 as <-.
  assert (Hxt : x ∉ ge_tree e) by (intros Hx; apply Hnt; by exists ep, e). pose proof (tree_nodup _ _ _ _ _ _ Hep) as Hnd.
  assert (Hlen : Z.of_nat (length (x :: ge_tree e)) <= NSTACK_MAX_EPITEM_NUM).
  { eapply tree_length; [done|done|by constructor|]. intros y [->|Hy]%elem_of_cons; [eauto|]. destruct (tree_item _ Hi ep e y He Hy) as (? & ? & _). eauto. }
  cbn [length] in Hlen. assert (Hfx : fd_of s x = epi_fd it) by (unfold fd_of; by rewrite Hit).
  destruct (mo_items _ (ei_mem _ _ _ _ Hi) x) as (Hrbx & _ & _); [eauto|].
  destruct (tree_op_frame tree_fuel (fd_of s) (mk_rbt (es_rbn s) (ep_rbr r)) (ge_tree e) (Ins x) (x :: ge_tree e)) as (t & Hrun & Hti & Hdom & Hout).
  { apply (eo_tree _ _ _ _ _ _ _ Hep). }
  { cbn. split; [done|]. split; [done|]. split; [by rewrite Hfx|]. lia. }
  { apply rounds_fuel. lia. }
  { set_solver. }
  { set_solver. }
  exists t. split.
  { unfold epoll_rbtree_insert. erewrite bind_run by done. by apply tree_upd_run. }
  assert (Hperm : ∀ y, y ∈ tseq_do (fd_of s) (ge_tree e) (Ins x) ↔ y = x ∨ y ∈ ge_tree e).
  { intros y. cbn. rewrite elem_of_app, elem_of_cons, !list_elem_of_filter. split; [naive_solver|]. intros [->|Hy]; [by right; left|].
    pose proof (Hfd y Hy). rewrite <- Hfx in *. destruct (Z.lt_trichotomy (fd_of s y) (fd_of s x)) as [|[|]]; [naive_solver|lia|naive_solver]. }
  apply einvx_tree; [done|done|done|by destruct t| | | |].
  - intros y Hy. apply Hout. rewrite elem_of_app, Hperm in Hy. rewrite elem_of_cons. tauto.
  - intros y Hy. apply elem_of_dom. rewrite Hdom. by apply elem_of_dom.
  - intros y [->|Hy]%Hperm; [right|by left]. done.
  - intros y Hy. left. rewrite Hperm. by right.
Qed.

(** ** Registration *)

(** A floating item with the fields of its registration gets its places. *)
Definition ready_item s (x ep fd : Z) (event : epoll_event) (it : epitem) : Prop :=
  es_items s !! x = Some it ∧ es_rdl s !! x = Some (mk_hn None None) ∧ epi_ep it = Some ep ∧ epi_fd it = fd ∧ epi_event it = event ∧ epi_pid it = se_pid env ∧
  epi_next it = NSEP_EP_UNACTIVE_PTR ∧ alloc_flag (epi_res_chk it) = 1 ∧ epi_revents it = 0.

(** The ghost state after [x] has been registered in [ep] for [i]. *)
Definition g_link s g (ep i x : Z) (e : gep) (l : list Z) : ghost :=
  gep_upd ep (set_tree (tseq_do (fd_of s) (ge_tree e) (Ins x)) e) (fl_upd i (l ++ [x]) g).

Lemma private_data_spec s g i l x it m : einvx [x] (set_es_fll m s) (fl_upd i l g) → ¬ in_tree g x → es_items s !! x = Some it →
  einvx [x] (set_es_items (<[x := set_epi_private_data (Some i) it]> (es_items s)) (set_es_fll m s)) (fl_upd i l g).
Proof.
  intros Hi Hnt Hit. pose proof (item_nodes env _ _ _ x Hi (mk_is_Some _ _ Hit)) as (N1 & N2 & N3 & N4).
  eapply (einvx_float env [x] _ _ _ x Hi); try done.
  - intros y Hy. cbn. by rewrite lookup_insert_ne.
  - cbn in *. rewrite lookup_insert_eq. eauto.
  - intros j lj Hj Hin. split; [left|done].
  - eapply pool_ok_frame; [|exact (ei_ipool _ _ _ _ Hi)]. intros y. cbn. destruct (decide (y = x)) as [->|]; [by rewrite lookup_insert_eq, Hit|by rewrite lookup_insert_ne].
Qed.

Lemma link_spec s g ep e i l q x it event : einv s g → g_eps g !! ep = Some e → ge_phase e = Idle → g_fl g !! i = Some l → es_infos s !! i = Some q →
  floating g x → ready_item s x ep (info_fd q) event it → (∀ y, y ∈ ge_tree e → fd_of s y ≠ info_fd q) →
  ∃ s', (_ ← fll_upd (λ m, ep_list_add_tail list_fuel m (Some i) x); _ ← item_upd (set_epi_private_data (Some i)) x; epoll_rbtree_insert ep x) s = Some (tt, s') ∧
    einv s' (g_link s g ep i x e l) ∧ es_items s' = <[x := set_epi_private_data (Some i) it]> (es_items s) ∧ es_infos s' = es_infos s ∧ es_sockMap s' = es_sockMap s ∧
    es_itemPool s' = es_itemPool s ∧ es_infoPool s' = es_infoPool s ∧ es_epPool s' = es_epPool s ∧ ∀ ep', ep' ≠ ep → es_eps s' !! ep' = es_eps s !! ep'.
Proof.
  intros Hi He Hidle Hl Hq Hf (Hit & Hrd & E1 & E2 & E3 & E4 & E5 & E6 & E7) Hfd. destruct (ep_get_ok _ Hi ep e He) as (r & Hr & Hep).
  assert (Hi' : einvx [x] s g) by (eapply einvx_weaken; [|exact Hi]; intros y Hy; by apply elem_of_nil in Hy).
  destruct (fl_add_spec env [x] s g i l x Hi' Hl ltac:(left) Hf (mk_is_Some _ _ Hit)) as (m & Hm & Hi1). erewrite bind_run by (by apply fll_upd_run).
  pose proof (private_data_spec s g i (l ++ [x]) x it m Hi1 (proj1 Hf) Hit) as Hi2. erewrite bind_run by (apply item_upd_run; exact Hit).
  set (it' := set_epi_private_data (Some i) it) in *. set (s2 := set_es_items _ _) in *. change (es_items (set_es_fll m s)) with (es_items s). fold s2.
  assert (Hit2 : es_items s2 !! x = Some it') by apply lookup_insert_eq.
  assert (Hfd2 : ∀ y, fd_of s2 y = fd_of s y) by (intros y; unfold fd_of; cbn; destruct (decide (y = x)) as [->|]; [by rewrite lookup_insert_eq, Hit|by rewrite lookup_insert_ne]).
  assert (Hok : ∀ z, item_ok env z s2 (fl_upd i (l ++ [x]) g) ep e x).
  { intros z. exists it'. cbn. rewrite E2. split; [done|]. split; [done|]. split; [done|]. split; [done|]. split; [done|]. intros _. exists i, (l ++ [x]), q.
    split; [done|]. split; [apply lookup_insert_eq|]. split; [set_solver|done]. }
  destruct (tree_insert_spec [x] s2 (fl_upd i (l ++ [x]) g) ep e r x it') as (t & Hrun & Hi3); [done|done|done|left|apply Hf|done|apply Hok|done| |].
  { intros y Hy. rewrite Hfd2. cbn. rewrite E2. by apply Hfd. }
  eexists. split; [exact Hrun|]. split; [|split; [done|split; [done|split; [done|split; [done|split; [done|split; [done|]]]]]]].
  - assert (tseq_do (fd_of s2) (ge_tree e) (Ins x) = tseq_do (fd_of s) (ge_tree e) (Ins x)) as Hts.
    { cbn. f_equal; [|f_equal]; apply list_filter_iff; intros y; by rewrite !Hfd2. }
    rewrite Hts in Hi3. apply (einvx_settle env [] _ _ x Hi3). split.
    + intros ep2 e2. cbn. destruct (decide (ep2 = ep)) as [->|Hne]; [rewrite lookup_insert_eq; intros [= <-] _; apply (Hok [])|].
      rewrite lookup_insert_ne by done. intros He2 Hx2. destruct Hf as [Hnt _]. exfalso. apply Hnt. by exists ep2, e2.
    + intros j lj Hj Hin. exists it'. split; [|split; [done|]].
      * exists ep, (set_tree (tseq_do (fd_of s) (ge_tree e) (Ins x)) e). cbn. rewrite lookup_insert_eq. split; [done|]. cbn. set_solver.
      * cbn in Hj. destruct (decide (j = i)) as [->|]; [done|]. rewrite lookup_insert_ne in Hj by done. by destruct (proj2 Hf j lj Hj).
  - intros ep' Hne. cbn. by rewrite lookup_insert_ne.
Qed.

Lemma bind_run3 {A B C D} (a : stM st A) (b : stM st B) (c : stM st C) (k : C → stM st D) s v s' :
  (_ ← a; _ ← b; c) s = Some (v, s') → (_ ← a; _ ← b; x ← c; k x) s = k v s'.
Proof.
  unfold mbind, stM_bind. destruct (a s) as [[? s1]|]; [|done]. destruct (b s1) as [[? s2]|]; [|done]. by intros ->.
Qed.

(** The fields of a new item, up to its places. *)
Lemma prepare_spec s g ep e i q x event it0 : einv s g → floating g x → es_items s !! x = Some it0 → epi_pid it0 = se_pid env → epi_next it0 = NSEP_EP_UNACTIVE_PTR →
  alloc_flag (epi_res_chk it0) = 1 → g_eps g !! ep = Some e → es_infos s !! i = Some q →
  ∃ s' it, (_ ← rdl_upd (λ m, EP_HLIST_INIT_NODE m x);
     fd ← info_get info_fd i;
     _ ← item_upd (λ i', set_epi_event event (set_epi_ovf_revents 0 (set_epi_revents 0 (set_epi_epInfo (Some i) (set_epi_ep (Some ep)
                       (set_epi_nwait 0 (set_epi_lkFDllink (mk_hn None None) i'))))))) x;
     _ ← fll_upd (λ m, _ ← m !! x; Some (<[x := None]> m));
     item_upd (λ i', set_epi_fd fd (set_epi_revents 0 i')) x) s = Some (tt, s') ∧
   einv s' g ∧ away x s s' ∧ ready_item s' x ep (info_fd q) event it ∧ es_itemPool s' = es_itemPool s.
Proof.
  intros Hi Hf Hit F1 F2 F3 He Hq. pose proof (item_nodes env _ _ _ x Hi (mk_is_Some _ _ Hit)) as Hn. pose proof Hn as ([n Hn1] & [h Hh] & [f Hfl] & _).
  erewrite bind_run by (apply rdl_upd_run; by eapply init_node_eq). erewrite bind_run by (apply info_get_run; exact Hq). erewrite bind_run by (apply item_upd_run; exact Hit).
  erewrite bind_run by (apply fll_upd_run; cbn; by rewrite Hfl). rewrite (item_upd_run _ x _ _ (lookup_insert_eq _ _ _)). cbn. eexists _, _. split; [done|].
  set (s' := set_es_items _ _). assert (Ha : away x s s') by (split; try done; intros y Hy; cbn; by rewrite !lookup_insert_ne).
  split; [|split; [done|split; [|done]]].
  - eapply (einvx_away env [] s s' g x); [done|done|done|done|unfold nodes; cbn; rewrite !lookup_insert_eq; eauto|].
    eapply pool_ok_frame; [|exact (ei_ipool _ _ _ _ Hi)]. intros y. cbn. destruct (decide (y = x)) as [->|]; [rewrite lookup_insert_eq, Hit; done|by rewrite !lookup_insert_ne].
  - unfold ready_item. cbn. rewrite !lookup_insert_eq. done.
Qed.

Lemma bind_run5 {A B C D E F} (a : stM st A) (b : stM st B) (c : B → stM st C) (d : stM st D) (f : B → stM st E) (k : stM st F) s v s' :
  (_ ← a; y ← b; _ ← c y; _ ← d; f y) s = Some (v, s') → (_ ← a; y ← b; _ ← c y; _ ← d; _ ← f y; k) s = k s'.
Proof.
  unfold mbind, stM_bind. destruct (a s) as [[? s1]|]; [|done]. destruct (b s1) as [[y s2]|]; [|done]. destruct (c y s2) as [[? s3]|]; [|done].
  destruct (d s3) as [[? s4]|]; [|done]. by intros ->.
Qed.

(** Items differ at most in the events that are pending. *)
Definition same_items s s' (P : Z → Prop) : Prop := ∀ y, P y → set_epi_revents 0 <$> (es_items s' !! y) = set_epi_revents 0 <$> (es_items s !! y).

Lemma insert_node_spec s g ep e i l q event : einv s g → g_eps g !! ep = Some e → ge_phase e = Idle → g_fl g !! i = Some l → es_infos s !! i = Some q →
  (∀ y, y ∈ ge_tree e → fd_of s y ≠ info_fd q) →
  match q_contents (es_itemPool s) with
  | [] => ∃ s', nsep_insert_node env ep event i s = Some (-1, s') ∧ einv s' g ∧ es_items s' = es_items s ∧ es_errno s' = ENOMEM ∧ es_infoPool s' = es_infoPool s
  | x :: pool => ∃ s' R it, nsep_insert_node env ep event i s = Some (0, s') ∧
      einv s' (gep_upd ep (mk_gep (tseq_do (fd_of s') (ge_tree e) (Ins x)) R Idle) (fl_upd i (l ++ [x]) g)) ∧ requeued x (ge_ready e) R ∧
      floating g x ∧ same_items s s' (λ y, y ≠ x) ∧ es_items s' !! x = Some it ∧ epi_fd it = info_fd q ∧ epi_event it = event ∧
      (has (epi_revents it) (events event) = true → x ∈ R) ∧ es_infoPool s' = es_infoPool s
  end.
Proof.
  intros Hi He Hidle Hl Hq Hfd. unfold nsep_insert_node. pose proof (alloc_epitem_spec env s g Hi) as Ha. destruct (q_contents (es_itemPool s)) as [|x pool] eqn:Hc.
  { destruct Ha as (s1 & Hrun & Hs1 & Hi1 & E1). erewrite bind_run by exact Hrun. cbn [Z.eqb negb]. eexists. split; [done|]. split; [by eapply einvx_soft; [apply soft_errno|]|].
    split; [done|]. split; [done|]. exact (so_fpool _ _ Hs1). }
  destruct Ha as (s1 & Hrun & Hi1 & Hf & Ha & Hn & Hn1 & Hp1 & Hxl & Hrd1 & it1 & Hit1 & F1 & F2 & F3). erewrite bind_run by exact Hrun. cbn [Z.eqb negb].
  erewrite (bind_run _ _ _ x s1) by done. assert (Hq1 : es_infos s1 !! i = Some q) by (by rewrite (aw_infos _ _ _ Ha)).
  destruct (prepare_spec s1 g ep e i q x event it1 Hi1 Hf Hit1 F1 F2 F3 He Hq1) as (s2 & it2 & Hrun2 & Hi2 & Ha2 & Hri & Hp2). erewrite bind_run5 by exact Hrun2.
  assert (Ha02 : away x s s2) by (by etrans). assert (Hq2 : es_infos s2 !! i = Some q) by (by rewrite (aw_infos _ _ _ Ha2)).
  destruct (ei_infos _ _ _ _ Hi2 i l Hl) as (q' & Hq' & Hok). rewrite Hq2 in Hq'. injection Hq' as <-.
  erewrite bind_run by (apply info_get_run; exact Hq2). rewrite (io_head _ _ _ _ _ _ Hok).
  assert (Hnx : ∀ y, y ∈ ge_tree e → y ≠ x) by (intros y Hy ->; apply (proj1 Hf); by exists ep, e).
  assert (Hfd2 : ∀ y, y ≠ x → fd_of s2 y = fd_of s y) by (intros y Hy; unfold fd_of; by destruct (aw_rest _ _ _ Ha02 y Hy) as (_ & _ & _ & ->)).
  destruct (link_spec s2 g ep e i l q x it2 event Hi2 He Hidle Hl Hq2 Hf Hri) as (s3 & Hrun3 & Hi3 & G1 & G2 & G3 & G4 & G5 & G6 & G7).
  { intros y Hy. rewrite Hfd2 by auto. by apply Hfd. }
  erewrite bind_run3 by exact Hrun3. destruct Hri as (Hit2 & _ & R1 & R2 & R3 & R4 & R5 & R6 & R7).
  set (e3 := set_tree (tseq_do (fd_of s2) (ge_tree e) (Ins x)) e). assert (Hx3 : x ∈ ge_tree e3) by (cbn; set_solver).
  assert (He3 : g_eps (g_link s2 g ep i x e l) !! ep = Some e3) by apply lookup_insert_eq.
  destruct (epctl_triggle_spec env (z := []) (ep := ep) (e := e3) (g := g_link s2 g ep i x e l) Hidle x Hx3 i nstack_ep_triggle_add (ge_ready e) s3) as
    (s4 & R & Hrun4 & Hq4 & Hr4 & HR & Harm); [by apply (ready_is_refl env [] ep e3)|cbn; rewrite lookup_insert_eq; eauto|].
  erewrite bind_run by exact Hrun4.
  assert (Hs4 : ∀ y, set_epi_revents 0 <$> (es_items s4 !! y) = set_epi_revents 0 <$> (<[x := set_epi_private_data (Some i) it2]> (es_items s2) !! y)) by
    (intros y; rewrite (qu_items _ _ _ Hq4), G1; done).
  assert (Hit4 : ∃ it4, es_items s4 !! x = Some it4 ∧ epi_fd it4 = info_fd q ∧ epi_event it4 = event).
  { specialize (Hs4 x). rewrite lookup_insert_eq in Hs4. destruct (es_items s4 !! x) as [it4|]; [|done]. injection Hs4 as ? ? ? ? ? Hev ? Hfd4 ? ? ?. exists it4. by rewrite Hfd4, Hev. }
  assert (Hfd4 : ∀ y, fd_of s4 y = fd_of s2 y).
  { intros y. unfold fd_of. specialize (Hs4 y). destruct (decide (y = x)) as [->|Hne].
    - destruct Hit4 as (it4 & -> & -> & _). by rewrite Hit2.
    - rewrite lookup_insert_ne in Hs4 by done. destruct (es_items s4 !! y), (es_items s2 !! y); try done. by injection Hs4. }
  destruct Hit4 as (it4 & Hit4 & Hf4 & Hev4). exists s4, R, it4. split; [done|]. split; [|split; [done|split; [done|split; [|split; [done|split; [done|split; [done|split]]]]]]].
  - assert (tseq_do (fd_of s4) (ge_tree e) (Ins x) = tseq_do (fd_of s2) (ge_tree e) (Ins x)) as -> by (cbn; f_equal; [|f_equal]; apply list_filter_iff; intros y; by rewrite !Hfd4).
    unfold ready_is, g_link in Hr4. unfold gep_upd in *. cbn in Hr4. rewrite insert_insert_eq in Hr4. unfold set_ready in Hr4. cbn in Hr4. by rewrite Hidle in Hr4.
  - intros y Hy. rewrite Hs4, lookup_insert_ne by done. by destruct (aw_rest _ _ _ Ha02 y Hy) as (_ & _ & _ & ->).
  - intros Hh. refine (Harm _ it4 Hit4 _); [|by rewrite Hev4]. intros it3. rewrite G1, lookup_insert_eq. intros [= <-]. cbn. rewrite R7. unfold has. by rewrite Z.land_0_l.
  - rewrite (qu_fpool _ _ _ Hq4), G5. apply Ha02.
Qed.

(** ** Removal *)

Lemma tree_erase_spec z s g ep e r x : einvx z s g → g_eps g !! ep = Some e → es_eps s !! ep = Some r → ge_phase e = Idle → x ∈ ge_tree e → x ∉ ge_ready e →
  (∀ i l, g_fl g !! i = Some l → x ∉ l) →
  ∃ t, ep_rb_erase tree_fuel (mk_rbt (es_rbn s) (ep_rbr r)) x = Some t ∧ is_Some (rb_nodes t !! x) ∧
    einvx z (set_es_eps (<[ep := set_ep_rbr (rb_node t) r]> (es_eps s)) (set_es_rbn (rb_nodes t) s)) (gep_upd ep (set_tree (filter (λ y, y ≠ x) (ge_tree e)) e) g).
Proof.
  intros Hi He Hr Hidle Hx Hnr Hnl. destruct (ep_get_ok _ Hi ep e He) as (r1 & Hr1 & Hep). rewrite Hr in Hr1. injection Hr1 as <-.
  pose proof (tree_nodup _ _ _ _ _ _ Hep) as Hnd. assert (Hitem : ∀ y, y ∈ ge_tree e → is_Some (es_items s !! y)).
  { intros y Hy. destruct (tree_item _ Hi ep e y He Hy) as (? & ? & _). eauto. }
  destruct (tree_op_frame tree_fuel (fd_of s) (mk_rbt (es_rbn s) (ep_rbr r)) (ge_tree e) (Del x) (ge_tree e)) as (t & Hrun & Hti & Hdom & Hout).
  { apply (eo_tree _ _ _ _ _ _ _ Hep). }
  { done. }
  { apply rounds_fuel. by eapply tree_length. }
  { done. }
  { done. }
  exists t. split; [done|]. split; [apply elem_of_dom; rewrite Hdom; apply elem_of_dom; by apply (mo_items _ (ei_mem _ _ _ _ Hi)), Hitem|].
  apply einvx_tree; [done|done|done|by destruct t| | | |].
  - intros y Hy. apply Hout. set_solver.
  - intros y Hy. apply elem_of_dom. rewrite Hdom. by apply elem_of_dom.
  - intros y [_ Hy]%list_elem_of_filter. by left.
  - intros y Hy. destruct (decide (y = x)) as [->|Hne]; [right|left; by apply list_elem_of_filter]. split; [|done]. rewrite Hidle. cbn. by rewrite app_nil_r.
Qed.

(** A node of a tree is not its own parent. *)
Lemma tree_parent fd t l x n : tree_inv fd t l → x ∈ l → rb_nodes t !! x = Some n → rb_parent n ≠ Some x.
Proof.
  intros (_ & tr & Hh & _ & <-) Hx Hn Hp. destruct (tree_path tr x Hx) as (k & c & tl & rr & ->). pose proof Hh as (_ & _ & Hnd)%holds_fill.
  destruct (holds_node t k L c tl x rr Hh) as (n' & Hn' & Hpk). rewrite Hn in Hn'. injection Hn' as <-. cbn in Hpk. assert (kparent k = Some x) as Hk by (rewrite <- Hp; by destruct Hpk as (_ & ? & _)).
  destruct k as [|f k]; [done|]. injection Hk as Hk. apply NoDup_app in Hnd as (_ & Hd & _). apply (Hd x); [cbn; set_solver|]. destruct f as [d c' y b]. cbn in Hk. subst y.
  rewrite knodes_cons. left.
Qed.

(** The item leaves the ready list, if it is on it. *)
Lemma ready_drop z s g ep e r x : einvx z s g → g_eps g !! ep = Some e → es_eps s !! ep = Some r → ge_phase e = Idle → x ∈ ge_tree e →
  ∃ m l, (if bool_decide (x ∈ ge_ready e) then ep_hlist_del (es_rdl s) (ep_rdlist r) x = Some (m, l) else m = es_rdl s ∧ l = ep_rdlist r) ∧
    einvx z (set_es_eps (<[ep := set_ep_rdlist l r]> (es_eps s)) (set_es_rdl m s)) (gep_upd ep (set_ready (filter (λ y, y ≠ x) (ge_ready e)) e) g).
Proof.
  intros Hi He Hr Hidle Hx. destruct (ep_get_ok _ Hi ep e He) as (r1 & Hr1 & Hok). pose proof (eo_queued _ _ _ _ _ _ _ Hok) as (Hnd & _)%NoDup_app. case_bool_decide as Hin.
  - apply list_elem_of_split in Hin as (l1 & l2 & Hsp). rewrite Hsp in *. rewrite filter_ne_mid by done.
    destruct (ready_del _ Hi ep e r x l1 l2) as (m & l & Hd & Hi'); [done..|]. eauto.
  - exists (es_rdl s), (ep_rdlist r). split; [done|]. rewrite filter_ne_absent by done. unfold set_es_eps, set_es_rdl. cbn.
    rewrite insert_id by (by destruct r). pose proof (ready_is_refl env z ep e g s He Hi) as Hr'. unfold ready_is in Hr'. by destruct s.
Qed.

Lemma unlink_spec z s g ep e x it : einvx z s g → g_eps g !! ep = Some e → ge_phase e = Idle → x ∈ ge_tree e → (∀ i l, g_fl g !! i = Some l → x ∉ l) → es_items s !! x = Some it →
  ∃ s', nstack_ep_unlink ep x s = Some (0, s') ∧ einvx z s' (gep_upd ep (mk_gep (filter (λ y, y ≠ x) (ge_tree e)) (filter (λ y, y ≠ x) (ge_ready e)) Idle) g) ∧
    es_items s' = <[x := set_epi_event (mk_ev 0 (data (epi_event it))) it]> (es_items s) ∧ es_infos s' = es_infos s ∧ es_sockMap s' = es_sockMap s ∧
    es_itemPool s' = es_itemPool s ∧ es_infoPool s' = es_infoPool s ∧ es_epPool s' = es_epPool s ∧ (∀ ep', ep' ≠ ep → es_eps s' !! ep' = es_eps s !! ep') ∧
    (∀ r, es_eps s !! ep = Some r → ∃ r', es_eps s' !! ep = Some r' ∧ ep_epfd r' = ep_epfd r ∧ ep_res_chk r' = ep_res_chk r).
Proof.
  intros Hi He Hidle Hx Hnl Hit. destruct (ep_get_ok _ Hi ep e He) as (r & Hr & Hok). set (it' := set_epi_event _ it).
  set (s1 := set_es_items (<[x := it']> (es_items s)) s).
  assert (Hi1 : einvx z s1 g) by (eapply einvx_soft; [by apply (soft_item (λ i, set_epi_event (mk_ev 0 (data (epi_event i))) i))|done]).
  destruct (ready_drop z s1 g ep e r x Hi1 He Hr Hidle Hx) as (m & l & Hdel & Hi2). set (R := filter (λ y, y ≠ x) (ge_ready e)) in *.
  set (s2 := set_es_eps _ _) in Hi2. set (g2 := gep_upd _ _ _) in Hi2.
  destruct (tree_erase_spec z s2 g2 ep (set_ready R e) (set_ep_rdlist l r) x) as (t & Hrun & Hnx & Hi3); [done|apply lookup_insert_eq|apply lookup_insert_eq|done|done| |done|].
  { cbn. unfold R. intros [? _]%list_elem_of_filter. done. }
  change (ep_rb_erase tree_fuel (mk_rbt (es_rbn s) (ep_rbr r)) x = Some t) in Hrun. destruct (mo_items _ (ei_mem _ _ _ _ Hi) x) as ([n Hn] & _ & _); [eauto|].
  pose proof (tree_parent _ _ _ x n (eo_tree _ _ _ _ _ _ _ Hok) Hx Hn) as Hpar. destruct Hnx as [nx Hnx].
  unfold nstack_ep_unlink. rewrite (bind_run _ _ _ (es_rbn s) s) by done. rewrite (bind_run _ _ _ n s) by (unfold lift; by rewrite Hn). rewrite bool_decide_false by done.
  rewrite (bind_run _ _ _ tt s1) by exact (item_upd_run _ x s it Hit). set (s3 := set_es_eps (<[ep := set_ep_rbr (rb_node t) r]> (es_eps s)) (set_es_rbn (rb_nodes t) s1)).
  rewrite (bind_run _ _ _ tt s3) by exact (tree_upd_run _ ep s1 r t Hr Hrun). rewrite (bind_run _ _ _ tt (set_es_rbn (<[x := set_parent (Some x) nx]> (rb_nodes t)) s3)); cycle 1.
  { unfold mbind, stM_bind, gets, lift, modify. cbn. by rewrite Hnx. }
  pose proof (linked_eq env z s g ep e x Hi He Hx) as Hlk. rewrite Hidle in Hlk. cbn in Hlk. rewrite app_nil_r in Hlk. erewrite bind_run by (apply rdl_get_run; exact Hlk).
  set (s4 := set_es_rbn (<[x := set_parent (Some x) nx]> (rb_nodes t)) s3). set (sF := set_es_eps (<[ep := set_ep_rdlist l (set_ep_rbr (rb_node t) r)]> (es_eps s)) (set_es_rdl m s4)).
  assert ((when (bool_decide (x ∈ ge_ready e)) (rdlist_upd (λ m l, ep_hlist_del m l x) ep)) s4 = Some (tt, sF)) as Hwhen.
  { unfold sF. destruct (bool_decide (x ∈ ge_ready e)); cbn [when].
    - erewrite rdlist_upd_run; [|apply lookup_insert_eq|exact Hdel]. cbn. by rewrite insert_insert_eq.
    - destruct Hdel as [-> ->]. done. }
  rewrite (bind_run _ _ _ _ _ Hwhen). exists sF. split; [done|].
  set (gF := gep_upd ep (mk_gep (filter (λ y, y ≠ x) (ge_tree e)) R Idle) g).
  assert (Hi4 : einvx z (set_es_eps (<[ep := set_ep_rdlist l (set_ep_rbr (rb_node t) r)]> (es_eps s)) (set_es_rbn (rb_nodes t) (set_es_rdl m s1))) gF).
  { unfold gF, g2, gep_upd, set_tree, set_ready in *. cbn in Hi3. rewrite !insert_insert_eq, Hidle in Hi3. exact Hi3. }
  split; [|split; [done|split; [done|split; [done|split; [done|split; [done|split; [done|split]]]]]]].
  - eapply (einvx_float env z _ sF gF x Hi4); try done.
    + intros (ep2 & e2 & He2 & Hx2). cbn in He2. destruct (decide (ep2 = ep)) as [->|Hne].
      * rewrite lookup_insert_eq in He2. injection He2 as <-. cbn in Hx2. by apply list_elem_of_filter in Hx2 as [? _].
      * rewrite lookup_insert_ne in He2 by done. apply Hne. by apply (tree_disj _ Hi ep2 e2 ep e x).
    + cbn. rewrite lookup_insert_eq. eauto.
    + intros y Hy. cbn. by rewrite !lookup_insert_ne by done.
    + pose proof (item_nodes env _ _ _ x Hi4) as (? & ? & ? & ?); [cbn; rewrite lookup_insert_eq; eauto|]. cbn in *. rewrite lookup_insert_eq. eauto.
    + intros i li Hli Hin. by destruct (Hnl i li Hli).
    + exact (ei_ipool _ _ _ _ Hi4).
  - intros ep' Hne. cbn. by rewrite lookup_insert_ne.
  - intros r1 Hr1. rewrite Hr in Hr1. injection Hr1 as <-. cbn. rewrite lookup_insert_eq. eauto.
Qed.

Lemma quiet_items ep s s' : quiet ep s s' → same_items s s' (λ _, True).
Proof. intros Hq y _. apply (qu_items _ _ _ Hq). Qed.

Lemma quiet_item_at ep s s' x it : quiet ep s s' → es_items s !! x = Some it → ∃ v, es_items s' !! x = Some (set_epi_revents v it).
Proof.
  intros Hq Hit. destruct (fmap_eq_Some _ _ _ _ (qu_items _ _ _ Hq x) Hit) as (it' & Hit' & Hk). exists (epi_revents it'). rewrite Hit'. f_equal.
  destruct it as [? ? ? ? ? ? ? ? ? ? ? ?], it' as [? ? ? ? ? ? ? ? ? ? ? ?]. unfold set_epi_revents in *. cbn in *. congruence.
Qed.

Lemma not_listed z s g i l1 x l2 j lj : einvx z s g → g_fl g !! i = Some (l1 ++ x :: l2) → g_fl (fl_upd i (l1 ++ l2) g) !! j = Some lj → x ∉ lj.
Proof.
  intros Hi Hl Hj. destruct (decide (j = i)) as [->|Hne].
  - cbn in Hj. rewrite lookup_insert_eq in Hj. injection Hj as <-. destruct (ei_infos _ _ _ _ Hi i _ Hl) as (r & _ & Hok). pose proof (io_list _ _ _ _ _ _ Hok) as [Hnd _].
    apply NoDup_cons in Hnd as [_ Hnd]. rewrite <- Permutation_middle in Hnd. by apply NoDup_cons in Hnd as [? _].
  - cbn in Hj. rewrite lookup_insert_ne in Hj by done. apply (ei_disj _ _ _ _ Hi i j (l1 ++ x :: l2) lj); [done|done|done|set_solver].
Qed.

(** What is left of the event poll without [x]. *)
Definition gep_del (x : Z) (e : gep) : gep := mk_gep (filter (λ y, y ≠ x) (ge_tree e)) (filter (λ y, y ≠ x) (ge_ready e)) Idle.

(** The unlinked item goes back to the pool. *)
Lemma unlink_free_spec z s g ep e x it : einvx (x :: z) s g → g_eps g !! ep = Some e → ge_phase e = Idle → x ∈ ge_tree e → (∀ i l, g_fl g !! i = Some l → x ∉ l) →
  es_items s !! x = Some it → alloc_flag (epi_res_chk it) = 1 →
  ∃ s1 s', nstack_ep_unlink ep x s = Some (0, s1) ∧ nsep_free_epitem x s1 = Some (0, s') ∧ einvx z s' (gep_upd ep (gep_del x e) g) ∧
    (∀ y, y ≠ x → es_items s' !! y = es_items s !! y) ∧ is_Some (es_items s' !! x) ∧ es_infos s' = es_infos s ∧ es_sockMap s' = es_sockMap s ∧
    q_contents (es_itemPool s') = q_contents (es_itemPool s) ++ [x] ∧ es_infoPool s' = es_infoPool s ∧ es_epPool s' = es_epPool s ∧
    (∀ ep', ep' ≠ ep → es_eps s' !! ep' = es_eps s !! ep') ∧
    (∀ r, es_eps s !! ep = Some r → ∃ r', es_eps s' !! ep = Some r' ∧ ep_epfd r' = ep_epfd r ∧ ep_res_chk r' = ep_res_chk r).
Proof.
  intros Hi He Hidle Hx Hnl Hit Hfl. destruct (unlink_spec (x :: z) s g ep e x it Hi He Hidle Hx Hnl Hit) as (s1 & Hr1 & Hi1 & E1 & E2 & E3 & E4 & E5 & E6 & E7 & E8).
  fold (gep_del x e) in Hi1. set (g1 := gep_upd ep (gep_del x e) g) in *. assert (Hf : floating g1 x).
  { split; [|done]. intros (ep2 & e2 & He2 & Hx2). cbn in He2. destruct (decide (ep2 = ep)) as [->|Hne].
    - rewrite lookup_insert_eq in He2. injection He2 as <-. cbn in Hx2. by apply list_elem_of_filter in Hx2 as [? _].
    - rewrite lookup_insert_ne in He2 by done. apply Hne. by apply (tree_disj _ Hi ep2 e2 ep e x). }
  destruct (free_epitem_spec env (x :: z) s1 g1 x (set_epi_event (mk_ev 0 (data (epi_event it))) it) Hi1 Hf) as (s2 & it2 & Hr2 & Hi2 & Ha & Hit2 & _ & _ & Hp); [rewrite E1; apply lookup_insert_eq|done|].
  destruct Ha as [A1 A2 A3 A4 A5 A6 A7]. exists s1, s2. split; [done|]. split; [done|]. split; [apply (einvx_settle env z _ _ x Hi2), floating_settled, Hf|].
  split; [|split; [eauto|split; [congruence|split; [congruence|split; [congruence|split; [congruence|split; [congruence|split]]]]]]].
  - intros y Hy. destruct (A7 y Hy) as (_ & _ & _ & ->). rewrite E1. by apply lookup_insert_ne.
  - intros ep' Hne. rewrite A1. by apply E7.
  - intros r Hr. rewrite A1. by apply E8.
Qed.

Lemma epctl_del_spec s g ep e x : einv s g → g_eps g !! ep = Some e → ge_phase e = Idle → x ∈ ge_tree e →
  ∃ s' i l, nsep_epctl_del env ep x s = Some (0, s') ∧ g_fl g !! i = Some l ∧ x ∈ l ∧ einv s' (gep_upd ep (gep_del x e) (fl_upd i (filter (λ y, y ≠ x) l) g)) ∧
    same_items s s' (λ y, y ≠ x) ∧ q_contents (es_itemPool s') = q_contents (es_itemPool s) ++ [x] ∧ es_infoPool s' = es_infoPool s ∧ es_epPool s' = es_epPool s ∧
    (∀ ep', ep' ≠ ep → es_eps s' !! ep' = es_eps s !! ep') ∧ es_sockMap s' = es_sockMap s ∧
    (∀ r, es_eps s !! ep = Some r → ∃ r', es_eps s' !! ep = Some r' ∧ ep_epfd r' = ep_epfd r ∧ ep_res_chk r' = ep_res_chk r) ∧
    (∀ j, set_info_epaddflag 0 <$> (es_infos s' !! j) = set_info_epaddflag 0 <$> (es_infos s !! j)).
Proof.
  intros Hi He Hidle Hx. destruct (tree_item _ Hi ep e x He Hx) as (it & Hit & F1 & F2 & F3 & F4 & Hlk). destruct Hlk as (i & l & q & P1 & P2 & P3 & P4 & P5); [apply not_elem_of_nil|].
  unfold nsep_epctl_del. erewrite bind_run by (apply item_get_run; exact Hit). rewrite P1. rewrite (bind_run _ _ _ i s) by done.
  destruct (epctl_triggle_spec env (z := []) (ep := ep) (e := e) (g := g) Hidle x Hx i nstack_ep_triggle_del (ge_ready e) s) as (s1 & R & Hr1 & Hq1 & Hi1 & HR & _);
    [by apply (ready_is_refl env [] ep e)|eauto|]. erewrite bind_run by exact Hr1. unfold ready_is in Hi1. set (g1 := gep_upd ep (set_ready R e) g) in *.
  destruct (ei_infos _ _ _ _ Hi1 i l P2) as (q1 & Hq1i & Hok1). erewrite bind_run by (apply info_get_run; exact Hq1i). rewrite (io_head _ _ _ _ _ _ Hok1).
  pose proof (io_list _ _ _ _ _ _ Hok1) as [Hnd _]. apply NoDup_cons in Hnd as [_ Hnd]. apply list_elem_of_split in P3 as P3'. destruct P3' as (l1 & l2 & ->).
  destruct (fl_del_spec env [] s1 g1 i l1 x l2 Hi1 P2) as (m & Hm & Hi2). erewrite bind_run by (apply fll_upd_run; exact Hm).
  destruct (quiet_item_at ep s s1 x it Hq1 Hit) as (v & Hit1).
  destruct (unlink_free_spec [] (set_es_fll m s1) (fl_upd i (l1 ++ l2) g1) ep (set_ready R e) x (set_epi_revents v it)) as
    (s3 & s4 & Hr3 & Hr4 & Hi4 & E1 & E2 & E3 & E4 & E5 & E6 & E7 & E8 & E9); [done|apply lookup_insert_eq|done|done|intros j lj Hj; by apply (not_listed [] s1 g1 i l1 x l2 j lj Hi1 P2)|done|done|].
  erewrite bind_run by exact Hr3. erewrite bind_run by exact Hr4. exists s4, i, (l1 ++ x :: l2). split; [done|]. split; [done|]. split; [done|].
  split; [|split; [|split; [|split; [|split; [|split; [|split; [|split]]]]]]].
  - rewrite filter_ne_mid by done. unfold gep_del, set_ready in Hi4. cbn in Hi4. unfold requeued in HR. rewrite HR in Hi4. unfold gep_upd, fl_upd, g1 in *. cbn in *. by rewrite insert_insert_eq in Hi4.
  - intros y Hy. rewrite E1 by done. apply (qu_items _ _ _ Hq1).
  - rewrite E5. cbn. by rewrite (qu_ipool _ _ _ Hq1).
  - rewrite E6. apply (qu_fpool _ _ _ Hq1).
  - rewrite E7. apply (qu_epool _ _ _ Hq1).
  - intros ep' Hne. rewrite E8 by done. by apply (qu_eps _ _ _ Hq1).
  - rewrite E4. apply (qu_sock _ _ _ Hq1).
  - intros r Hr. destruct (fmap_eq_Some _ _ _ _ (qu_ep _ _ _ Hq1) Hr) as (r1 & Hr1' & Hk). injection Hk as _ _ Hk1 _ Hk2. destruct (E9 r1 Hr1') as (r' & ? & ? & ?). exists r'. split; [done|]. split; congruence.
  - intros j. rewrite E3. apply (qu_infos _ _ _ Hq1).
Qed.
End ops.
