(* ===== verification/EpollInfo.v ===== *)
(** * Epoll: the information of descriptors comes and goes *)
From S2P Require Import Prelude.
From S2P Require Import Queue.
From S2P Require Import RbTree.
From S2P Require Import RbTreeProofs.
From S2P Require Import RbTreeProps.
From S2P Require Import EpList.
From S2P Require Import EpollData.
From S2P Require Import Epoll.
From S2P Require Import EpollPoll.
From S2P Require Import EpollInv.
From S2P Require Import EpollCtl.
From S2P Require Import EpollAlloc.

Section info.
Context {Q W : Type} `{BoundedQueue Q} (env : stack_env W).
Abbreviation st := (est Q W).
Abbreviation einvx := (einvx env).
Abbreviation einv := (einv env).
Implicit Types (s : st) (g : ghost) (z : list Z).

(** The information of a descriptor, and the event poll of an epoll descriptor. *)
Definition info_of s (fd : Z) : option Z := m ← es_sockMap s; x ← aread m fd; x.
Definition ep_of s (fd : Z) : option Z := i ← info_of s fd; r ← es_infos s !! i; info_ep r.

Lemma infoBySock_run z s g sock : einvx z s g → nsep_get_infoBySock env sock s = Some (info_of s sock, s).
Proof.
  intros Hi. destruct (ei_sock _ _ _ _ Hi) as (m & Hm & Hlen & _). unfold nsep_get_infoBySock, info_of. rewrite (bind_run _ _ _ (Some m) s) by (unfold gets; by rewrite Hm).
  rewrite Hm. cbn [mbind option_bind]. destruct (Z.ltb_spec sock 0), (Z.leb_spec (se_kernel_fd_max env) sock); cbn [orb].
  1-3: assert (aread m sock = None) as ->; [unfold aread; destruct (Z.leb_spec 0 sock); [apply lookup_ge_None_2; lia|done]|done].
  destruct (aread_is_Some m sock) as (v & -> & _); [lia|]. by destruct v.
Qed.

Lemma info_of_ok z s g fd i : einvx z s g → info_of s fd = Some i →
  ∃ r l, es_infos s !! i = Some r ∧ g_fl g !! i = Some l ∧ info_ok z s g i l r ∧ info_fd r = fd ∧ ∀ ep, info_ep r = Some ep → live s g ep fd.
Proof.
  intros Hi Hf. destruct (ei_sock _ _ _ _ Hi) as (m & Hm & _ & Hsk). unfold info_of in Hf. rewrite Hm in Hf. cbn in Hf. destruct (aread m fd) as [v|] eqn:Ha; [|done]. cbn in Hf. subst v.
  destruct (Hsk fd i Ha) as (r & Hr & [l Hl] & J1 & J2). destruct (ei_infos _ _ _ _ Hi i l Hl) as (r' & Hr' & Hok). rewrite Hr in Hr'. injection Hr' as <-. by exists r, l.
Qed.

(** ** A new information *)

Lemma pid_init_ok : pid_ok nsep_for_pidinfo_init.
Proof. split; [apply length_replicate|]. cbn. unfold NSTACK_FORK_NUM. lia. Qed.

(** A new pid is put into the first free cell, if there is one. *)
Lemma add_pid_from_ok n i p pid : pid_ok p → 0 <= i → i + Z.of_nat n <= NSTACK_FORK_NUM → ∃ r p', add_pid_from n i p pid = Some (r, p') ∧ pid_ok p'.
Proof.
  intros [Hl Hu]. revert i. induction n as [|n IH]; intros i Hi Hn; cbn [add_pid_from]; [by exists (-1), p|].
  destruct (aread_is_Some (pid_array p) i) as (v & -> & Hv); [rewrite Hl; unfold NSTACK_FORK_NUM in *; lia|]. cbn [mbind option_bind]. destruct (0 =? v); [|apply IH; lia].
  rewrite awrite_Some by (rewrite Hl; unfold NSTACK_FORK_NUM in *; lia). cbn [mbind option_bind]. eexists _, _. split; [done|].
  split; cbn; [by rewrite length_insert|]. destruct (Z.ltb_spec (pid_used_size p) (i + 1)); lia.
Qed.

Lemma add_pid_ok p pid : pid_ok p → ∃ r p', nsep_add_pid p pid = Some (r, p') ∧ pid_ok p'.
Proof. intros Hp. apply add_pid_from_ok; [done|lia|]. unfold NSTACK_FORK_NUM. lia. Qed.

(** What an information that is about to be used has. *)
Record fresh_info (i fd : Z) (q : nsep_epollInfo_t) : Prop := {
  fi_fd : info_fd q = fd;
  fi_list : info_epiList q = Some i;
  fi_flag : alloc_flag (info_res_chk q) = 1;
  fi_proto : length (info_protoFD q) = Z.to_nat NSEP_SMOD_MAX;
  fi_rmidx : info_rmidx q = -1;
  fi_pids : pid_ok (info_pidinfo q);
  fi_ep : info_ep q = None;
  fi_type : info_fdtype q = 0;
  fi_add : info_epaddflag q = 0;
  fi_own : ∃ r, nsep_add_pid nsep_for_pidinfo_init (se_pid env) = Some (r, info_pidinfo q)
}.

Lemma einvx_new_info z s g i q m fd pool : einvx z s g → g_fl g !! i = None → is_Some (es_infos s !! i) → es_sockMap s = Some m → 0 <= fd < se_kernel_fd_max env →
  fresh_info i fd q → pool_ok pool (<[i := q]> (es_infos s)) (λ r, alloc_flag (info_res_chk r)) →
  einvx z (set_es_sockMap (Some (<[Z.to_nat fd := Some i]> m)) (set_es_infos (<[i := q]> (es_infos s)) (set_es_fll (<[i := None]> (es_fll s)) (set_es_infoPool pool s))))
    (fl_upd i [] g).
Proof.
  intros Hi Hni Hinf Hm Hfd [F1 F2 F3 F4 F5 F6 F7 _ _ _] Hp. pose proof Hi as [H1 H2 H3 H4 H5 H6 H7 H8 H9]. destruct H8 as (m' & Hm' & Hlen & Hsk). rewrite Hm in Hm'. injection Hm' as <-.
  assert (Hii : es_items s !! i = None) by (by apply (mo_infos _ H1)). split; try done.
  - destruct H1 as [M1 M2 M3 M4]. split; cbn; try done.
    + intros x Hx. destruct (M1 x Hx) as (? & ? & ?). split; [done|]. split; [done|]. destruct (decide (x = i)) as [->|]; [rewrite lookup_insert_eq; eauto|by rewrite lookup_insert_ne].
    + intros x Hx. destruct (decide (x = i)) as [->|]; [rewrite lookup_insert_eq; eauto|]. rewrite lookup_insert_ne in Hx by done. rewrite lookup_insert_ne by done. by apply M3.
  - intros ep e He. destruct (H5 ep e He) as (r & Hr & Hok). exists r. split; [done|]. eapply ep_ok_frame; [..|exact Hok]; try done; cbn.
    + intros j l q0 Hl Hq0. exists l, q0. assert (j ≠ i) by (intros ->; by rewrite Hni in Hl). by rewrite !lookup_insert_ne.
    + intros m1 j Hm1 Hj. rewrite Hm in Hm1. injection Hm1 as <-. exists (<[Z.to_nat fd := Some i]> m), (if decide (ep_epfd r = fd) then i else j).
      split; [done|]. rewrite aread_insert by lia. by destruct (decide (ep_epfd r = fd)).
  - cbn. intros j l Hl. destruct (decide (j = i)) as [->|Hne].
    + rewrite lookup_insert_eq in Hl. injection Hl as <-. exists q. split; [apply lookup_insert_eq|]. split; try done.
      * cbn. split; [apply NoDup_singleton|]. apply lookup_insert_eq.
      * intros x Hx. by apply elem_of_nil in Hx.
      * rewrite F5. unfold NSEP_SMOD_MAX. lia.
    + rewrite lookup_insert_ne in Hl by done. destruct (H6 j l Hl) as (r & Hr & Hok). exists r. split; [by rewrite lookup_insert_ne|].
      eapply info_ok_frame; [..|exact Hok]; try done. cbn. intros x Hx. apply lookup_insert_ne. intros ->. apply elem_of_cons in Hx as [->|Hx]; [done|].
      destruct (io_items _ _ _ _ _ _ Hok x Hx) as [Hs _]. rewrite Hii in Hs. by destruct Hs.
  - cbn. intros j1 j2 l1 l2 Hj1 Hj2 Hne x Hx1 Hx2. destruct (decide (j1 = i)) as [->|]; [rewrite lookup_insert_eq in Hj1; injection Hj1 as <-; by apply elem_of_nil in Hx1|].
    destruct (decide (j2 = i)) as [->|]; [rewrite lookup_insert_eq in Hj2; injection Hj2 as <-; by apply elem_of_nil in Hx2|].
    rewrite lookup_insert_ne in Hj1, Hj2 by done. by apply (H7 j1 j2 l1 l2 Hj1 Hj2 Hne x).
  - eexists. split; [done|]. rewrite length_insert. split; [done|]. intros fd' j. rewrite aread_insert by lia. cbn. destruct (decide (fd' = fd)) as [->|].
    + intros [= <-]. exists q. rewrite !lookup_insert_eq. split; [done|]. split; [eauto|]. split; [done|]. by rewrite F7.
    + intros Ha. destruct (Hsk fd' j Ha) as (r & Hr & Hj & J1 & J2). assert (j ≠ i) by (intros ->; rewrite Hni in Hj; by destruct Hj). exists r. by rewrite !lookup_insert_ne.
Qed.

Lemma alloc_epinfo_run s i pq q0 fi : pool_dequeue es_infoPool set_es_infoPool s = Some ((1, i), set_es_infoPool pq s) → i ≠ 0 → es_infos s !! i = Some q0 → es_fll s !! i = Some fi →
  ∃ q, nsep_alloc_epinfo env s = Some ((0, Some i), set_es_infos (<[i := q]> (es_infos s)) (set_es_fll (<[i := None]> (es_fll s)) (set_es_infoPool pq s))) ∧ fresh_info i (-1) q.
Proof.
  intros Hd Hi0 Hq0 Hfi. destruct (add_pid_ok nsep_for_pidinfo_init (se_pid env) pid_init_ok) as (rp & pinf & Hadd & Hpok).
  unfold nsep_alloc_epinfo. rewrite (bind_run _ _ _ _ _ Hd). replace ((0 =? 1) || (i =? 0)) with false by (destruct (Z.eqb_spec i 0); done).
  erewrite bind_run by (apply info_upd_run; exact Hq0). unfold nsep_initEpInfo.
  erewrite bind_run; [|erewrite bind_run by (apply fll_upd_run; cbn; by rewrite Hfi); apply info_upd_run; apply lookup_insert_eq].
  erewrite bind_run by (apply info_get_run; apply lookup_insert_eq). cbn [set_info_pidinfo info_pidinfo]. erewrite bind_run by (unfold lift; by rewrite Hadd). cbn beta iota.
  erewrite bind_run by (apply info_upd_run; apply lookup_insert_eq). cbn. eexists. split.
  - unfold mret, stM_ret, set_es_infos. cbn. rewrite !insert_insert_eq. done.
  - split; try done. by exists rp.
Qed.

(** An information comes out of the pool and is entered for the descriptor. *)
Lemma alloc_infoWithSock_spec s g fd : einv s g → 0 <= fd < se_kernel_fd_max env →
  match q_contents (es_infoPool s) with
  | [] => ∃ s', nsep_alloc_infoWithSock env fd s = Some (-1, s') ∧ einv s' g ∧ es_items s' = es_items s ∧ es_itemPool s' = es_itemPool s ∧
      es_infos s' = es_infos s ∧ es_sockMap s' = es_sockMap s ∧ es_eps s' = es_eps s ∧ es_world s' = es_world s ∧ q_contents (es_infoPool s') = [] ∧ es_errno s' = es_errno s
  | i :: pl => ∃ s' q, nsep_alloc_infoWithSock env fd s = Some (0, s') ∧ einv s' (fl_upd i [] g) ∧ g_fl g !! i = None ∧ info_of s' fd = Some i ∧
      es_infos s' !! i = Some q ∧ info_fd q = fd ∧ es_items s' = es_items s ∧ es_itemPool s' = es_itemPool s ∧ fresh_info i fd q ∧
      (∀ j, j ≠ i → es_infos s' !! j = es_infos s !! j) ∧ (∀ fd', fd' ≠ fd → info_of s' fd' = info_of s fd') ∧ es_eps s' = es_eps s ∧ es_world s' = es_world s ∧
      q_contents (es_infoPool s') = pl
  end.
Proof.
  intros Hi Hfd. unfold nsep_alloc_infoWithSock, NSEP_IS_SOCK_VALID. destruct (Z.leb_spec 0 fd), (Z.ltb_spec fd (se_kernel_fd_max env)); try lia. cbn [andb negb].
  pose proof (ei_fpool _ _ _ _ Hi) as Hp. pose proof (pool_dequeue_spec es_infoPool set_es_infoPool s (po_inv _ _ _ Hp)) as Hd.
  destruct (q_contents (es_infoPool s)) as [|i l] eqn:Hc; destruct Hd as (pq & Hd & Hq1 & Hq2 & Hq3).
  { erewrite bind_run; [|unfold nsep_alloc_epinfo; rewrite (bind_run _ _ _ _ _ Hd); done]. cbn. eexists. split; [done|]. split; [|done].
    apply (einvx_pools env [] s g (es_itemPool s) (es_epPool s) pq); [done|apply Hi|apply Hi|]. destruct Hp as [P1 P2 P3 P4 P5].
    split; [done| | |by rewrite Hq2|done]; rewrite Hq3; [constructor|intros y Hy; by apply elem_of_nil in Hy]. }
  destruct (po_free _ _ _ Hp i) as (q0 & Hq0 & Hfl); [rewrite Hc; left|]. assert (Hi0 : i ≠ 0) by (intros ->; rewrite (po_null _ _ _ Hp) in Hq0; done).
  assert (Hni : g_fl g !! i = None).
  { destruct (g_fl g !! i) as [li|] eqn:Hli; [|done]. destruct (ei_infos _ _ _ _ Hi i li Hli) as (r & Hr & Hok). rewrite Hq0 in Hr. injection Hr as <-. pose proof (io_flag _ _ _ _ _ _ Hok). congruence. }
  destruct (mo_infos _ (ei_mem _ _ _ _ Hi) i) as [[fi Hfi] Hii]; [eauto|]. destruct (ei_sock _ _ _ _ Hi) as (m & Hm & Hlen & _).
  destruct (alloc_epinfo_run s i pq q0 fi Hd Hi0 Hq0 Hfi) as (q & Hrun & [F1 F2 F3 F4 F5 F6 F7 F8 F9 F10]). erewrite bind_run by exact Hrun. cbn [Z.eqb].
  rewrite (bind_run _ _ _ i _ eq_refl). erewrite bind_run by (apply info_upd_run; apply lookup_insert_eq).
  set (q' := set_info_fd fd q). set (s2 := set_es_infos (<[i := q']> (es_infos s)) (set_es_fll (<[i := None]> (es_fll s)) (set_es_infoPool pq s))).
  assert (Hfr : fresh_info i fd q') by (by split).
  exists (set_es_sockMap (Some (<[Z.to_nat fd := Some i]> m)) s2), q'. split; [|split; [|split; [done|split; [|split; [apply lookup_insert_eq|split; [done|split; [done|split; [done|split; [done|split; [|split; [|done]]]]]]]]]]].
  - unfold nsep_set_infoSockMap, mbind, stM_bind, gets. cbn. rewrite Hm. destruct (Z.ltb_spec fd 0), (Z.leb_spec (se_kernel_fd_max env) fd); try lia. cbn.
    unfold lift. rewrite awrite_Some by lia. unfold modify. cbn. unfold s2, set_es_infos, set_es_sockMap. cbn. by rewrite insert_insert_eq.
  - apply einvx_new_info; [done|done|eauto|done|lia|done|]. eapply pool_ok_sub; [exact Hp|done|done| | |eauto|rewrite lookup_insert_eq; eauto|intros y Hy; by apply lookup_insert_ne].
    + rewrite Hq3. pose proof (po_nodup _ _ _ Hp) as Hnd. rewrite Hc in Hnd. by apply NoDup_cons in Hnd as [_ ?].
    + rewrite Hq3, Hc. intros y Hy. split; [by right|]. intros ->. pose proof (po_nodup _ _ _ Hp) as Hnd. rewrite Hc in Hnd. by apply NoDup_cons in Hnd as [? _].
  - unfold info_of. cbn. rewrite aread_insert by lia. by rewrite decide_True.
  - intros j Hj. by apply lookup_insert_ne.
  - intros fd' Hne. unfold info_of. rewrite Hm. cbn. rewrite aread_insert by lia. by rewrite decide_False.
Qed.
End info.
