(* ===== verification/EpollFrame.v ===== *)
(** * Epoll: what the operations on items leave alone

    Registration, change and removal of items touch neither the map of the descriptors nor what an information says about its descriptor, nor the ledger [led] of the world.  [keeps m]
    says so of a computation; it is closed under sequencing, so that it holds of an operation by its syntax. *)
From S2P Require Import Prelude.
From S2P Require Import Queue.
From S2P Require Import RbTree.
From S2P Require Import EpList.
From S2P Require Import EpollData.
From S2P Require Import Epoll.
From S2P Require Import EpollPoll.
From S2P Require Import EpollInv.

Create HintDb keeps.

Section frame.
Context {Q W : Type} `{BoundedQueue Q} (env : stack_env W) {L : Type} (led : W → L).
Abbreviation st := (est Q W).
Abbreviation M := (stM (est Q W)).
Implicit Types (s : st).

(** What an information says about its descriptor. *)
Definition ikey (r : nsep_epollInfo_t) := (info_fd r, info_ep r, info_fdtype r, alloc_flag (info_res_chk r), info_pidinfo r).

Record frame s s' : Prop := {
  fr_sock : es_sockMap s' = es_sockMap s;
  fr_fpool : q_contents (es_infoPool s') = q_contents (es_infoPool s);
  fr_infos : ∀ i, ikey <$> (es_infos s' !! i) = ikey <$> (es_infos s !! i);
  fr_epfd : ∀ x, ep_epfd <$> (es_eps s' !! x) = ep_epfd <$> (es_eps s !! x);
  fr_led : led (es_world s') = led (es_world s)
}.

#[global] Instance frame_preorder : PreOrder frame.
Proof.
  split.
  - intros s. by split.
  - intros s s' s'' [? ? I1 E1 ?] [? ? I2 E2 ?]. split; congruence.
Qed.

(** The calls of the environment that do not change the ledger. *)
Record env_keeps : Prop := {
  ek_ctl : ∀ m f epFD proFD ops ev info w, se_ep_ctl env m = Some f → led (f epFD proFD ops ev info w).2 = led w;
  ek_check : ∀ f fd w, se_fd_check env = Some f → led (f fd w).2 = led w;
  ek_sem : ∀ w, led (se_sem_init env w).2 = led w;
  ek_malloc : ∀ w, led (se_malloc env w).2 = led w
}.
Context (Hek : env_keeps).

Definition keeps {A} (m : M A) : Prop := ∀ s a s', m s = Some (a, s') → frame s s'.

Lemma keeps_ret {A} (a : A) : keeps (mret a).
Proof. intros s a' s' [= <- <-]. done. Qed.
Lemma keeps_bind {A B} (m : M A) (k : A → M B) : keeps m → (∀ a, keeps (k a)) → keeps (m ≫= k).
Proof.
  intros Hm Hk s b s'. unfold mbind, stM_bind. destruct (m s) as [[a s1]|] eqn:E; [|done]. intros Hr. etrans; [by eapply Hm|by eapply Hk].
Qed.
Lemma keeps_gets {A} (f : st → A) : keeps (gets f).
Proof. intros s a' s' [= <- <-]. done. Qed.
Lemma keeps_lift {A} (o : option A) : keeps (lift o).
Proof. intros s a s'. unfold lift. destruct o; [|done]. by intros [= <- <-]. Qed.
Lemma keeps_modify f : (∀ s, frame s (f s)) → keeps (modify f).
Proof. intros Hf s a s' [= <- <-]. done. Qed.
Lemma keeps_when b (m : M unit) : keeps m → keeps (when b m).
Proof. intros Hm. destruct b; [done|apply keeps_ret]. Qed.

Lemma frame_items m s : frame s (set_es_items m s). Proof. by split. Qed.
Lemma frame_rbn m s : frame s (set_es_rbn m s). Proof. by split. Qed.
Lemma frame_rdl m s : frame s (set_es_rdl m s). Proof. by split. Qed.
Lemma frame_fll m s : frame s (set_es_fll m s). Proof. by split. Qed.
Lemma frame_errno e s : frame s (set_es_errno e s). Proof. by split. Qed.
Lemma frame_ipool q s : frame s (set_es_itemPool q s). Proof. by split. Qed.

Lemma keeps_ep_upd f x : (∀ r, ep_epfd (f r) = ep_epfd r) → keeps (ep_upd f x).
Proof.
  intros Hf s a s'. unfold ep_upd, mbind, stM_bind, gets, lift, modify. destruct (es_eps s !! x) as [r|] eqn:Hx; [|done]. intros [= <- <-]. split; try done. intros y. cbn.
  destruct (decide (y = x)) as [->|Hne]; [rewrite lookup_insert_eq, Hx; cbn; by rewrite Hf|by rewrite lookup_insert_ne].
Qed.
Lemma keeps_info_upd f x : (∀ r, ikey (f r) = ikey r) → keeps (info_upd f x).
Proof.
  intros Hf s a s'. unfold info_upd, mbind, stM_bind, gets, lift, modify. destruct (es_infos s !! x) as [r|] eqn:Hx; [|done]. intros [= <- <-]. split; try done. intros y. cbn.
  destruct (decide (y = x)) as [->|Hne]; [rewrite lookup_insert_eq, Hx; cbn; by rewrite Hf|by rewrite lookup_insert_ne].
Qed.
Lemma keeps_ask {A} (f : W → A * W) : (∀ w, led (f w).2 = led w) → keeps (ask f).
Proof. intros Hf s a s'. rewrite ask_run. intros [= <- <-]. split; try done. apply Hf. Qed.

#[local] Hint Resolve keeps_ret keeps_gets keeps_lift keeps_when frame_items frame_rbn frame_rdl frame_fll frame_errno frame_ipool keeps_modify : keeps.

(** Through the binds and branches of an operation. *)
Ltac keeps_step :=
  match goal with
  | |- keeps (mbind _ _) => apply keeps_bind; [|intros ?]
  | |- keeps (when _ _) => apply keeps_when
  | |- keeps (if ?b then _ else _) => destruct b
  | |- keeps (let '_ := ?b in _) => destruct b
  | |- keeps (match ?b with _ => _ end) => destruct b
  | _ => solve [eauto with keeps]
  end.
Ltac keeps := repeat keeps_step.

Lemma keeps_item_get {A} (f : epitem → A) x : keeps (item_get f x). Proof. unfold item_get. keeps. Qed.
Lemma keeps_ep_get {A} (f : eventpoll → A) x : keeps (ep_get f x). Proof. unfold ep_get. keeps. Qed.
Lemma keeps_info_get {A} (f : nsep_epollInfo_t → A) x : keeps (info_get f x). Proof. unfold info_get. keeps. Qed.
Lemma keeps_item_upd f x : keeps (item_upd f x). Proof. unfold item_upd. keeps. Qed.
Lemma keeps_set_errno e : keeps (set_errno e). Proof. unfold set_errno. keeps. Qed.
Lemma keeps_rdl_get {A} (f : hmem → option A) : keeps (rdl_get f). Proof. unfold rdl_get. keeps. Qed.
Lemma keeps_rdl_upd f : keeps (rdl_upd f). Proof. unfold rdl_upd. keeps. Qed.
Lemma keeps_fll_get {A} (f : lmem → option A) : keeps (fll_get f). Proof. unfold fll_get. keeps. Qed.
Lemma keeps_fll_upd f : keeps (fll_upd f). Proof. unfold fll_upd. keeps. Qed.
#[local] Hint Resolve keeps_item_get keeps_ep_get keeps_info_get keeps_item_upd keeps_set_errno keeps_rdl_get keeps_rdl_upd keeps_fll_get keeps_fll_upd keeps_ep_upd keeps_info_upd : keeps.

Lemma keeps_linked x : keeps (linked x). Proof. unfold linked. keeps. Qed.
Lemma keeps_rdlist_upd f ep : keeps (rdlist_upd f ep). Proof. unfold rdlist_upd. keeps. Qed.
Lemma keeps_tree_of ep : keeps (tree_of ep). Proof. unfold tree_of. keeps. Qed.
#[local] Hint Resolve keeps_linked keeps_rdlist_upd keeps_tree_of : keeps.
Lemma keeps_tree_upd f ep : keeps (tree_upd f ep). Proof. unfold tree_upd. keeps. Qed.
#[local] Hint Resolve keeps_tree_upd : keeps.
Lemma keeps_find_ep ep fd : keeps (epoll_find_ep ep fd). Proof. unfold epoll_find_ep. keeps. Qed.
Lemma keeps_rb_insert ep x : keeps (epoll_rbtree_insert ep x). Proof. unfold epoll_rbtree_insert. keeps. Qed.
Lemma keeps_infoBySock fd : keeps (nsep_get_infoBySock env fd). Proof. unfold nsep_get_infoBySock. keeps. Qed.
Lemma keeps_free_epitem x : keeps (nsep_free_epitem x). Proof. unfold nsep_free_epitem, pool_enqueue. keeps. Qed.
Lemma keeps_init_epitem x : keeps (nsep_init_epitem x). Proof. unfold nsep_init_epitem. keeps. Qed.
#[local] Hint Resolve keeps_find_ep keeps_rb_insert keeps_infoBySock keeps_free_epitem keeps_init_epitem : keeps.
Lemma keeps_alloc_epitem : keeps (nsep_alloc_epitem env). Proof. unfold nsep_alloc_epitem, pool_dequeue. keeps. Qed.
Lemma keeps_event_add x ep ops v : keeps (nsep_ctl_event_add x ep ops v). Proof. unfold nsep_ctl_event_add. keeps. Qed.
#[local] Hint Resolve keeps_alloc_epitem keeps_event_add : keeps.
Lemma keeps_take x ep i m ops v r : keeps (triggle_take x ep i m ops v r). Proof. unfold triggle_take. keeps. Qed.
Lemma keeps_TRIGGLE j p m ops x i r : keeps (NSTACK_EP_TRIGGLE env j p m ops x i r).
Proof. unfold NSTACK_EP_TRIGGLE. destruct (se_ep_ctl env m) eqn:E; keeps. apply keeps_ask. intros w. by eapply ek_ctl. Qed.
#[local] Hint Resolve keeps_take keeps_TRIGGLE : keeps.
Lemma keeps_modules n m x ep i j ops r : keeps (triggle_modules env n m x ep i j ops r).
Proof. revert m r. induction n as [|n IH]; intros m r; cbn [triggle_modules]; keeps. Qed.
#[local] Hint Resolve keeps_modules : keeps.
Lemma keeps_triggle x i ops : keeps (nsep_epctl_triggle env x i ops). Proof. unfold nsep_epctl_triggle. keeps. Qed.
Lemma keeps_unlink ep x : keeps (nstack_ep_unlink ep x). Proof. unfold nstack_ep_unlink. keeps. Qed.
#[local] Hint Resolve keeps_triggle keeps_unlink : keeps.

Lemma keeps_insert_node ep ev i : keeps (nsep_insert_node env ep ev i). Proof. unfold nsep_insert_node. keeps. Qed.
Lemma keeps_epctl_del ep x : keeps (nsep_epctl_del env ep x). Proof. unfold nsep_epctl_del. keeps. Qed.
Lemma keeps_epctl_mod ep i x ev : keeps (nsep_epctl_mod env ep i x ev). Proof. unfold nsep_epctl_mod. keeps. Qed.
Lemma keeps_isAddValid fd : keeps (nsep_isAddValid env fd).
Proof. unfold nsep_isAddValid. destruct (_ && _); [|keeps]. destruct (se_fd_check env) eqn:E; [|keeps]. apply keeps_ask. intros w. by eapply ek_check. Qed.
#[local] Hint Resolve keeps_epctl_del : keeps.

Lemma keeps_collect n p x acc : keeps (remove_collect env n p x acc).
Proof.
  revert p x acc. induction n as [|n IH]; intros p x acc; cbn [remove_collect]; keeps. apply keeps_ask, (ek_malloc Hek).
Qed.
Lemma keeps_release i l : keeps (remove_release env i l).
Proof. induction l as [|x l IH]; cbn [remove_release]; keeps. Qed.
#[local] Hint Resolve keeps_collect keeps_release : keeps.
Lemma keeps_remove_epfd i : keeps (nsep_remove_epfd env i). Proof. unfold nsep_remove_epfd. keeps. Qed.
Lemma keeps_close_loop n ep : keeps (close_loop env n ep).
Proof. induction n as [|n IH]; cbn [close_loop]; keeps. Qed.
End frame.

(** Every environment keeps a ledger that says nothing. *)
Lemma env_keeps_unit {W : Type} (env : stack_env W) : env_keeps env (λ _, tt).
Proof. by split. Qed.
