(* ===== verification/EpollProps.v ===== *)
(** * Epoll: the control operations implement a map from descriptors to events of interest

    The abstract state of the component is, for each event poll, the finite map from the registered descriptors to the
    events asked for.  [nstack_epoll_ctl] is proved to implement the operations of that map, with the errors it reports. *)
From S2P Require Import Prelude.
From S2P Require Import Queue.
From S2P Require Import RbTree.
From S2P Require Import RbTreeProofs.
From S2P Require Import RbTreeProps.
From S2P Require Import EpList.
From S2P Require Import EpollData.
From S2P Require Import Epoll.
From S2P Require Import EpollPoll.
From S2P Require Import EpollInv.
From S2P Require Import EpollCtl.
From S2P Require Import EpollAlloc.
From S2P Require Import EpollOps.
From S2P Require Import EpollInfo.
From S2P Require Import EpollFrame.

(** ** The abstract state *)

Abbreviation watch := (gmap Z (gmap Z epoll_event)).

Section view.
Context {Q W : Type}.
Implicit Types (s : est Q W) (g : ghost).

Definition event_of s (x : Z) : epoll_event := match es_items s !! x with Some i => epi_event i | None => mk_ev 0 0 end.
Definition interest s (T : list Z) : gmap Z epoll_event := list_to_map ((λ x, (fd_of s x, event_of s x)) <$> T).
Definition watched s g : watch := (λ e, interest s (ge_tree e)) <$> g_eps g.

Lemma sorted_fds fd l : fd_sorted fd l → NoDup (fd <$> l).
Proof.
  intros Hs. induction Hs as [|x l Hs IH Hf]; cbn; constructor; [|done]. intros (y & Hy & Hin)%list_elem_of_fmap. rewrite Forall_forall in Hf. specialize (Hf y Hin). lia.
Qed.

Lemma sorted_inj fd l x y : fd_sorted fd l → x ∈ l → y ∈ l → fd x = fd y → x = y.
Proof.
  intros Hs [i Hi]%list_elem_of_lookup [j Hj]%list_elem_of_lookup Heq. assert (i = j) as ->; [|congruence].
  eapply (NoDup_lookup _ i j (fd y) (sorted_fds _ _ Hs)); rewrite list_lookup_fmap, ?Hi, ?Hj; cbn; congruence.
Qed.

Lemma interest_lookup s T fd ev : fd_sorted (fd_of s) T → interest s T !! fd = Some ev ↔ ∃ x, x ∈ T ∧ fd_of s x = fd ∧ event_of s x = ev.
Proof.
  intros Hs. unfold interest. rewrite <- elem_of_list_to_map.
  - rewrite list_elem_of_fmap. naive_solver.
  - rewrite <- list_fmap_compose. by apply (sorted_fds (fd_of s)).
Qed.

Lemma interest_ext s s' T : (∀ x, x ∈ T → fd_of s' x = fd_of s x ∧ event_of s' x = event_of s x) → interest s' T = interest s T.
Proof.
  intros Hx. unfold interest. f_equal. apply list_fmap_ext. intros i x Hi. destruct (Hx x) as [-> ->]; [by eapply list_elem_of_lookup_2|done].
Qed.

Lemma interest_none s T fd : fd_sorted (fd_of s) T → interest s T !! fd = None ↔ ∀ y, y ∈ T → fd_of s y ≠ fd.
Proof.
  intros Hs. split.
  - intros Hn y Hy Heq. assert (interest s T !! fd = Some (event_of s y)) as Hs' by (apply interest_lookup; eauto). by rewrite Hn in Hs'.
  - intros Hy. apply eq_None_not_Some. intros [ev (x & Hx & Hf & _)%interest_lookup]; [by apply (Hy x)|done].
Qed.

(** A sequence with [x] in place. *)
Lemma interest_add s T T' x : fd_sorted (fd_of s) T → fd_sorted (fd_of s) T' → (∀ y, y ∈ T' ↔ y = x ∨ y ∈ T) → (∀ y, y ∈ T → fd_of s y ≠ fd_of s x) →
  interest s T' = <[fd_of s x := event_of s x]> (interest s T).
Proof.
  intros Hs Hs' Hin Hfd. apply map_eq. intros fd. apply option_eq. intros ev. rewrite interest_lookup by done. destruct (decide (fd = fd_of s x)) as [->|Hne].
  - rewrite lookup_insert_eq. split.
    + intros (y & [->|Hy]%Hin & Hy2 & <-); [done|]. by destruct (Hfd y Hy).
    + intros [= <-]. exists x. rewrite Hin. auto.
  - rewrite lookup_insert_ne, interest_lookup by done. split.
    + intros (y & [->|Hy]%Hin & Hy2 & Hy3); [done|]. eauto.
    + intros (y & Hy & Hy2). exists y. rewrite Hin. auto.
Qed.

Lemma interest_del s T x : fd_sorted (fd_of s) T → x ∈ T → interest s (filter (λ y, y ≠ x) T) = delete (fd_of s x) (interest s T).
Proof.
  intros Hs Hx. assert (Hs' : fd_sorted (fd_of s) (filter (λ y, y ≠ x) T)) by (by apply sorted_filter).
  apply map_eq. intros fd. apply option_eq. intros ev. rewrite interest_lookup by done. rewrite lookup_delete_Some, interest_lookup by done. split.
  - intros (y & [Hyx Hy]%list_elem_of_filter & <- & <-). split; [|eauto]. intros Heq. apply Hyx. by apply (sorted_inj (fd_of s) T).
  - intros (Hne & y & Hy & <- & <-). exists y. split; [|done]. apply list_elem_of_filter. split; [|done]. by intros ->.
Qed.
End view.

Section ctl.
Context {Q W : Type} `{BoundedQueue Q} (env : stack_env W).
Abbreviation st := (est Q W).
Abbreviation einvx := (einvx env).
Abbreviation einv := (einv env).
Implicit Types (s : st) (g : ghost).

(** No poll is under way. *)
Definition idle g : Prop := ∀ ep e, g_eps g !! ep = Some e → ge_phase e = Idle.

Lemma idle_upd g ep e : idle g → ge_phase e = Idle → idle (gep_upd ep e g).
Proof.
  intros Hi He ep' e'. cbn. destruct (decide (ep' = ep)) as [->|]; [rewrite lookup_insert_eq; by intros [= <-]|rewrite lookup_insert_ne by done; apply Hi].
Qed.

Lemma watched_upd s g ep e : watched s (gep_upd ep e g) = <[ep := interest s (ge_tree e)]> (watched s g).
Proof. unfold watched. cbn. by rewrite fmap_insert. Qed.

Lemma watched_lookup s g ep e : g_eps g !! ep = Some e → watched s g !! ep = Some (interest s (ge_tree e)).
Proof. intros He. unfold watched. by rewrite lookup_fmap, He. Qed.

Lemma same_view s s' P x : same_items s s' P → P x → fd_of s' x = fd_of s x ∧ event_of s' x = event_of s x.
Proof.
  intros Hs Hx. specialize (Hs x Hx). unfold fd_of, event_of. destruct (es_items s' !! x), (es_items s !! x); try done. by injection Hs as _ _ _ _ _ -> _ -> _ _ _.
Qed.

Lemma watched_same s s' g : (∀ x, in_tree g x → fd_of s' x = fd_of s x ∧ event_of s' x = event_of s x) → watched s' g = watched s g.
Proof.
  intros Hx. unfold watched. apply map_fmap_ext. intros ep e He. apply interest_ext. intros x Hin. apply Hx. by exists ep, e.
Qed.

Lemma watched_items s s' g : es_items s' = es_items s → watched s' g = watched s g.
Proof. intros He. apply watched_same. intros x _. unfold fd_of, event_of. by rewrite He. Qed.

(** Other event polls do not see [x]. *)
Lemma watched_other s s' g ep e m : einvx [] s g → g_eps g !! ep = Some e → (∀ y, in_tree g y → y ∉ ge_tree e → fd_of s' y = fd_of s y ∧ event_of s' y = event_of s y) →
  <[ep := m]> (watched s' g) = <[ep := m]> (watched s g).
Proof.
  intros Hi He Hy. apply map_eq. intros ep2. destruct (decide (ep2 = ep)) as [->|Hne]; [by rewrite !lookup_insert_eq|]. rewrite !lookup_insert_ne by done.
  unfold watched. rewrite !lookup_fmap. destruct (g_eps g !! ep2) as [e2|] eqn:He2; [|done]. cbn. f_equal. apply interest_ext. intros x Hx. apply Hy; [by exists ep2, e2|].
  intros Hx'. apply Hne. by apply (tree_disj _ Hi ep2 e2 ep e x).
Qed.

Lemma tree_sorted z s g ep e : einvx z s g → g_eps g !! ep = Some e → fd_sorted (fd_of s) (ge_tree e).
Proof. intros Hi He. destruct (ep_get_ok _ Hi ep e He) as (r & _ & Hok). apply (eo_tree _ _ _ _ _ _ _ Hok). Qed.

(** ** Finding an item *)

Lemma find_ep_spec z s g ep e fd : einvx z s g → g_eps g !! ep = Some e →
  epoll_find_ep ep fd s = Some (list.head (filter (λ y, fd_of s y = fd) (ge_tree e)), s).
Proof.
  intros Hi He. destruct (ep_get_ok _ Hi ep e He) as (r & Hr & Hok). unfold epoll_find_ep. rewrite (bind_run _ _ _ s s) by done.
  rewrite (bind_run _ _ _ _ _ (tree_of_run _ _ _ Hr)). unfold lift, nsep_find_ep.
  assert (Z.of_nat (length (ge_tree e)) <= NSTACK_MAX_EPITEM_NUM) as Hlen.
  { eapply tree_length; [done|done|by eapply tree_nodup|]. intros y Hy. destruct (tree_item _ Hi ep e y He Hy) as (? & ? & _). eauto. }
  by rewrite (find_ok _ _ (ge_tree e)) by (first [apply (eo_tree _ _ _ _ _ _ _ Hok)|right; lia]).
Qed.

(** The item of a registered descriptor, or none. *)
Lemma find_ep_cases z s g ep e fd : einvx z s g → g_eps g !! ep = Some e →
  match interest s (ge_tree e) !! fd with
  | Some ev => ∃ x, epoll_find_ep ep fd s = Some (Some x, s) ∧ x ∈ ge_tree e ∧ fd_of s x = fd ∧ event_of s x = ev
  | None => epoll_find_ep ep fd s = Some (None, s)
  end.
Proof.
  intros Hi He. pose proof (tree_sorted _ _ _ _ _ Hi He) as Hs. rewrite (find_ep_spec _ _ _ _ _ fd Hi He). destruct (interest s (ge_tree e) !! fd) as [ev|] eqn:Hl.
  - apply interest_lookup in Hl as (x & Hx & Hf & Hev); [|done]. destruct (filter (λ y, fd_of s y = fd) (ge_tree e)) as [|y l] eqn:Hfl.
    + assert (x ∈ filter (λ y, fd_of s y = fd) (ge_tree e)) as Hin by (by apply list_elem_of_filter). rewrite Hfl in Hin. by apply elem_of_nil in Hin.
    + cbn. assert (y ∈ filter (λ y, fd_of s y = fd) (ge_tree e)) as [Hfy Hy]%list_elem_of_filter by (rewrite Hfl; left). exists y. split; [done|]. split; [done|]. split; [done|].
      enough (y = x) by congruence. apply (sorted_inj (fd_of s) (ge_tree e)); [done|done|done|congruence].
  - rewrite filter_none; [done|]. by apply interest_none.
Qed.

(** ** The operations on the map *)

(** [m'] is defined, keeps the invariant and the event polls idle, and leads to the map [A]. *)
(** An item of a tree was there before, for the same descriptor and information, or it belongs to the information of its descriptor. *)
Definition homes s g s' g' : Prop := ∀ x it', in_tree g' x → es_items s' !! x = Some it' →
  (∃ it, in_tree g x ∧ es_items s !! x = Some it ∧ epi_fd it' = epi_fd it ∧ epi_private_data it' = epi_private_data it) ∨ info_of s' (epi_fd it') = epi_private_data it'.

Definition ctl_ok (m : stM st Z) s g (r : Z) (P : st → Prop) (A : watch) : Prop :=
  ∃ s' g', m s = Some (r, s') ∧ einv s' g' ∧ idle g' ∧ watched s' g' = A ∧ P s' ∧ homes s g s' g'.

Lemma homes_items s s' g g' : es_items s' = es_items s → (∀ x, in_tree g' x → in_tree g x) → homes s g s' g'.
Proof. intros He Ht x it Hx Hit. left. exists it. rewrite <- He. auto. Qed.

Lemma homes_same s s' g g' P : same_items s s' P → (∀ x, in_tree g' x → in_tree g x ∧ P x) → homes s g s' g'.
Proof.
  intros Hs Ht x it' Hx Hit'. left. destruct (Ht x Hx) as [Hx' HP]. specialize (Hs x HP). rewrite Hit' in Hs. cbn in Hs. symmetry in Hs. apply fmap_Some in Hs as (it & Hit & Hk).
  exists it. split; [done|]. split; [done|]. unfold set_epi_revents in Hk. injection Hk. auto.
Qed.

Lemma homes_trans s1 g1 s2 g2 s3 g3 : homes s1 g1 s2 g2 → homes s2 g2 s3 g3 → (∀ fd, info_of s3 fd = info_of s2 fd) → homes s1 g1 s3 g3.
Proof.
  intros H1 H2 Hi x it3 Hx Hit3. destruct (H2 x it3 Hx Hit3) as [(it2 & Hx2 & Hit2 & E1 & E2)|?]; [|by right].
  destruct (H1 x it2 Hx2 Hit2) as [(it & Hx1 & Hit & E3 & E4)|Hn]; [left; exists it; by rewrite E1, E2, E3, E4|right]. by rewrite Hi, E1, E2.
Qed.

Lemma info_of_sock s s' fd : es_sockMap s' = es_sockMap s → info_of s' fd = info_of s fd.
Proof. unfold info_of. by intros ->. Qed.

(** A new item belongs to the information it was added for. *)
Lemma insert_home s' g ep e i l x it : einv s' (gep_upd ep e (fl_upd i (l ++ [x]) g)) → x ∈ ge_tree e → floating g x → es_items s' !! x = Some it → epi_private_data it = Some i.
Proof.
  intros Hi Hx [_ Hf] Hit. destruct (tree_item _ Hi ep e x (lookup_insert_eq _ _ _) Hx) as (it' & Hit' & _ & _ & _ & _ & Hp). rewrite Hit in Hit'. injection Hit' as <-.
  destruct Hp as (j & lj & q & Hj & Hl & Hxl & _); [apply not_elem_of_nil|]. rewrite Hj. f_equal. destruct (decide (j = i)) as [|Hne]; [done|].
  cbn in Hl. rewrite lookup_insert_ne in Hl by done. by destruct (Hf j lj Hl).
Qed.

Lemma in_tree_upd g ep e x : in_tree (gep_upd ep e g) x → x ∈ ge_tree e ∨ in_tree g x.
Proof.
  intros (ep' & e' & He & Hx). cbn in He. destruct (decide (ep' = ep)) as [->|Hne].
  - rewrite lookup_insert_eq in He. injection He as <-. by left.
  - rewrite lookup_insert_ne in He by done. right. by exists ep', e'.
Qed.

Lemma insert_node_view s g ep e i l q event : einv s g → idle g → g_eps g !! ep = Some e → g_fl g !! i = Some l → es_infos s !! i = Some q →
  info_of s (info_fd q) = Some i → interest s (ge_tree e) !! info_fd q = None →
  (q_contents (es_itemPool s) ≠ [] ∧ ctl_ok (nsep_insert_node env ep event i) s g 0 (λ _, True) (<[ep := <[info_fd q := event]> (interest s (ge_tree e))]> (watched s g))) ∨
  (q_contents (es_itemPool s) = [] ∧ ctl_ok (nsep_insert_node env ep event i) s g (-1) (λ s', es_errno s' = ENOMEM) (watched s g)).
Proof.
  intros Hi Hidle He Hl Hq Hqi Hn. pose proof (tree_sorted _ _ _ _ _ Hi He) as Hs. rewrite interest_none in Hn by done.
  pose proof (insert_node_spec env s g ep e i l q event Hi He (Hidle _ _ He) Hl Hq Hn) as Hspec. destruct (q_contents (es_itemPool s)) as [|x pool].
  - right. split; [done|]. destruct Hspec as (s' & Hrun & Hi' & E1 & E2 & _). exists s', g. split; [done|]. split; [done|]. split; [done|]. split; [by apply watched_items|]. split; [done|by apply homes_items].
  - left. split; [done|]. destruct Hspec as (s' & R & it & Hrun & Hi' & _ & Hf & Hsame & Hit & F1 & F2 & _ & _).
    set (T := tseq_do (fd_of s') (ge_tree e) (Ins x)) in *. eexists s', _. split; [exact Hrun|]. split; [exact Hi'|]. split; [by apply idle_upd|].
    assert (HT : ∀ y, y ∈ T → y = x ∨ y ∈ ge_tree e) by (unfold T; cbn; intros y; rewrite elem_of_app, elem_of_cons, !list_elem_of_filter; naive_solver).
    split; [|split; [done|]]; cycle 1.
    { intros y it' [[->|Hy]%HT|Hy]%in_tree_upd Hit'.
      - right. rewrite Hit in Hit'. injection Hit' as <-. rewrite F1, (insert_home _ _ _ _ _ _ _ _ Hi' ltac:(unfold T; cbn; rewrite elem_of_app, elem_of_cons; naive_solver) Hf Hit), <- Hqi.
        apply info_of_sock. apply (fr_sock (λ _, tt)). by eapply (keeps_insert_node env _ (env_keeps_unit env)).
      - eapply (homes_same s s' g g); [exact Hsame| |by exists ep, e|done]. intros z Hz. split; [done|]. intros ->. by apply (proj1 Hf).
      - eapply (homes_same s s' g g); [exact Hsame| |exact Hy|done]. intros z Hz. split; [done|]. intros ->. by apply (proj1 Hf). }
    assert (Hfx : fd_of s' x = info_fd q) by (unfold fd_of; by rewrite Hit). assert (Hex : event_of s' x = event) by (unfold event_of; by rewrite Hit).
    assert (Hnx : ∀ y, y ∈ ge_tree e → y ≠ x) by (intros y Hy ->; apply (proj1 Hf); by exists ep, e).
    assert (Hv : ∀ y, in_tree g y → fd_of s' y = fd_of s y ∧ event_of s' y = event_of s y) by (intros y Hy; apply (same_view s s' (λ y, y ≠ x)); [done|intros ->; by apply (proj1 Hf)]).
    assert (Hvt : ∀ y, y ∈ ge_tree e → fd_of s' y = fd_of s y ∧ event_of s' y = event_of s y) by (intros y Hy; apply Hv; by exists ep, e).
    assert (Hs1 : fd_sorted (fd_of s') (ge_tree e)) by (eapply fd_sorted_ext; [|exact Hs]; intros y Hy; by apply Hvt).
    rewrite watched_upd. cbn [ge_tree]. assert (Hs2 : fd_sorted (fd_of s') T) by (apply (tree_sorted [] s' _ ep (mk_gep T R Idle) Hi'); cbn; apply lookup_insert_eq).
    rewrite (interest_add s' (ge_tree e) T x); [|done|done| |].
    + rewrite Hfx, Hex, (interest_ext s s' (ge_tree e)) by done. change (watched s' (fl_upd i (l ++ [x]) g)) with (watched s' g). f_equal. by apply watched_same.
    + intros y. unfold T. cbn. rewrite elem_of_app, elem_of_cons, !list_elem_of_filter. split; [naive_solver|]. intros [->|Hy]; [by right; left|].
      pose proof (Hn y Hy). rewrite <- (proj1 (Hvt y Hy)), <- Hfx in *. destruct (Z.lt_trichotomy (fd_of s' y) (fd_of s' x)) as [|[|]]; [naive_solver|lia|naive_solver].
    + intros y Hy. rewrite (proj1 (Hvt y Hy)), Hfx. by apply Hn.
Qed.

Lemma epctl_del_view s g ep e x : einv s g → idle g → g_eps g !! ep = Some e → x ∈ ge_tree e →
  ctl_ok (nsep_epctl_del env ep x) s g 0 (λ _, True) (<[ep := delete (fd_of s x) (interest s (ge_tree e))]> (watched s g)).
Proof.
  intros Hi Hidle He Hx. pose proof (tree_sorted _ _ _ _ _ Hi He) as Hs. destruct (epctl_del_spec env s g ep e x Hi He (Hidle _ _ He) Hx) as (s' & i & l & Hrun & Hl & Hxl & Hi' & Hsame & _).
  eexists s', _. split; [exact Hrun|]. split; [exact Hi'|]. split; [by apply idle_upd|]. split; [|split; [done|]]; cycle 1.
  { eapply homes_same; [exact Hsame|]. intros y (ep' & e' & He' & Hy). cbn in He'. destruct (decide (ep' = ep)) as [->|Hne].
    - rewrite lookup_insert_eq in He'. injection He' as <-. apply list_elem_of_filter in Hy as [Hyx Hy]. split; [by exists ep, e|done].
    - rewrite lookup_insert_ne in He' by done. split; [by exists ep', e'|]. intros ->. apply Hne. by apply (tree_disj _ Hi ep' e' ep e x). }
  assert (Hv : ∀ y, y ≠ x → fd_of s' y = fd_of s y ∧ event_of s' y = event_of s y) by (intros y Hy; by apply (same_view s s' (λ y, y ≠ x))).
  rewrite watched_upd. cbn [ge_tree gep_del]. rewrite <- interest_del by done.
  rewrite (interest_ext s s') by (intros y [Hy _]%list_elem_of_filter; by apply Hv). change (watched s' (fl_upd i (filter (λ y, y ≠ x) l) g)) with (watched s' g).
  apply (watched_other s s' g ep e); [done|done|]. intros y _ Hy. apply Hv. by intros ->.
Qed.

Lemma epctl_mod_view s g ep e x i event : einv s g → idle g → g_eps g !! ep = Some e → x ∈ ge_tree e → is_Some (g_fl g !! i) →
  ctl_ok (nsep_epctl_mod env ep (Some i) x event) s g 0 (λ _, True) (<[ep := <[fd_of s x := event]> (interest s (ge_tree e))]> (watched s g)).
Proof.
  intros Hi Hidle He Hx Hf. pose proof (tree_sorted _ _ _ _ _ Hi He) as Hs. destruct (tree_item _ Hi ep e x He Hx) as (it & Hit & _). unfold ctl_ok, nsep_epctl_mod.
  erewrite bind_run by (apply item_upd_run; exact Hit). set (s1 := set_es_items _ s).
  assert (Hi1 : einv s1 g) by (eapply einvx_soft; [by apply (soft_item (set_epi_event event))|done]).
  destruct (epctl_triggle_spec env (z := []) (ep := ep) (e := e) (g := g) (Hidle _ _ He) x Hx i nstack_ep_triggle_mod (ge_ready e) s1) as (s2 & R & Hr & Hq & Hi2 & _ & _);
    [by apply (ready_is_refl env [] ep e)|done|]. erewrite bind_run by exact Hr. eexists s2, _. split; [done|]. split; [exact Hi2|]. split; [apply idle_upd; [done|exact (Hidle ep e He)]|]. split; [|split; [done|]]; cycle 1.
  { apply (homes_trans s g s1 g); [|eapply homes_same; [exact (quiet_items ep _ _ Hq)|]; intros y [Hy|Hy]%in_tree_upd; split; try done; by exists ep, e|intros fd; apply info_of_sock, (qu_sock _ _ _ Hq)].
    intros y it' Hy Hit'. left. cbn in Hit'. destruct (decide (y = x)) as [->|]; [rewrite lookup_insert_eq in Hit'; injection Hit' as <-; by exists it|rewrite lookup_insert_ne in Hit' by done; by exists it']. }
  assert (Hv : ∀ y, fd_of s2 y = fd_of s y ∧ event_of s2 y = if decide (y = x) then event else event_of s y).
  { intros y. destruct (same_view s1 s2 (λ _, True) y) as [-> ->]; [by apply (quiet_items ep)|done|]. unfold fd_of, event_of. cbn.
    destruct (decide (y = x)) as [->|]; [by rewrite lookup_insert_eq, Hit|by rewrite lookup_insert_ne]. }
  assert (Hs2 : fd_sorted (fd_of s2) (ge_tree e)) by (eapply fd_sorted_ext; [|exact Hs]; intros y _; apply Hv).
  rewrite watched_upd. cbn [ge_tree set_ready]. transitivity (<[ep := <[fd_of s x := event]> (interest s (ge_tree e))]> (watched s2 g)).
  - f_equal. apply map_eq. intros fd. apply option_eq. intros ev. rewrite interest_lookup by done. destruct (decide (fd = fd_of s x)) as [->|Hne].
    + rewrite lookup_insert_eq. split.
      * intros (y & Hy & Hfy & <-). destruct (Hv y) as [Hfy' ->]. rewrite Hfy' in Hfy. assert (y = x) as -> by (by apply (sorted_inj (fd_of s) (ge_tree e))). by rewrite decide_True.
      * intros [= <-]. exists x. destruct (Hv x) as [-> ->]. by rewrite decide_True.
    + rewrite lookup_insert_ne, interest_lookup by done. split; intros (y & Hy & Hfy & <-); exists y; destruct (Hv y) as [Hfy' Hey].
      * assert (y ≠ x) by (intros ->; congruence). rewrite Hey, decide_False by done. split; [done|]. split; congruence.
      * assert (y ≠ x) by (intros ->; congruence). rewrite Hey, decide_False by done. split; [done|]. split; congruence.
  - apply (watched_other s s2 g ep e); [done|done|]. intros y _ Hy. destruct (Hv y) as [-> ->]. rewrite decide_False; [done|]. by intros ->.
Qed.

Lemma set_infoProtoFD_spec s g fd mid v : einv s g → ∃ s', nsep_set_infoProtoFD env fd mid v s = Some (tt, s') ∧ soft s s' ∧ es_items s' = es_items s ∧ info_of s' fd = info_of s fd.
Proof.
  intros Hi. unfold nsep_set_infoProtoFD, with_info. erewrite bind_run by (by eapply infoBySock_run). destruct (info_of s fd) as [i|] eqn:Hf; [|by exists s].
  destruct (_ || _) eqn:Hb; [by exists s|]. apply orb_false_iff in Hb as [Hb1%Z.ltb_ge Hb2%Z.leb_gt]. destruct (info_of_ok env _ _ _ _ _ Hi Hf) as (r & l & Hr & Hl & Hok & _).
  erewrite bind_run by (apply info_get_run; exact Hr). pose proof (io_proto _ _ _ _ _ _ Hok) as Hlen. unfold NSTACK_MAX_MODULE_NUM, NSEP_SMOD_MAX in *.
  erewrite bind_run by (unfold lift; rewrite awrite_Some by (rewrite Hlen; lia); done). rewrite (info_upd_run _ _ _ _ Hr). eexists. split; [done|]. split; [|done].
  apply (soft_info (set_info_protoFD (<[Z.to_nat mid := v]> (info_protoFD r)))); [done|]. unfold info_key. cbn. by rewrite length_insert.
Qed.

Lemma isAddValid_run s fd : ∃ v w, nsep_isAddValid env fd s = Some (v, set_es_world w s).
Proof.
  unfold nsep_isAddValid. destruct (_ && _); [destruct (se_fd_check env) as [f|]|].
  - rewrite ask_run. eauto.
  - exists 0, (es_world s). by destruct s.
  - exists 0, (es_world s). by destruct s.
Qed.

(** The descriptor has no information and none can be had: the descriptor is not valid or the pool is empty. *)
Definition no_info s (fd : Z) : Prop :=
  info_of s fd = None ∧ (q_contents (es_infoPool s) = [] ∨ ∃ s', nsep_isAddValid env fd s = Some (0, s')).

(** Why a registration fails: no item is left, or the descriptor has no information and none can be had. *)
Definition add_refused s (fd : Z) : Prop := q_contents (es_itemPool s) = [] ∨ no_info s fd.

(** The error number a failed registration leaves: [ENOMEM] when no item is left; when there is no information it is not set. *)
Definition add_errno s (fd : Z) s' : Prop :=
  (no_info s fd ∧ es_errno s' = es_errno s) ∨ (¬ no_info s fd ∧ es_errno s' = ENOMEM).

Lemma epctl_add_view s g ep e fd event : einv s g → idle g → g_eps g !! ep = Some e → 0 <= fd < se_kernel_fd_max env → interest s (ge_tree e) !! fd = None →
  (add_refused s fd ∧ ctl_ok (nsep_epctl_add env ep fd event) s g (-1) (add_errno s fd) (watched s g)) ∨
  (¬ add_refused s fd ∧ ctl_ok (nsep_epctl_add env ep fd event) s g 0 (λ _, True) (<[ep := <[fd := event]> (interest s (ge_tree e))]> (watched s g))).
Proof.
  intros Hi Hidle He Hfd Hn. unfold ctl_ok, nsep_epctl_add, add_refused, add_errno, no_info. erewrite bind_run by (by eapply infoBySock_run). destruct (info_of s fd) as [i|] eqn:Hf.
  { destruct (info_of_ok env _ _ _ _ _ Hi Hf) as (q & l & Hq & Hl & _ & Hqf & _). rewrite (bind_run _ _ _ (inl i) s) by done.
    destruct (insert_node_view s g ep e i l q event Hi Hidle He Hl Hq) as [(Hp & s' & g' & Hrun & Hi' & Hid & Hw & _ & Hh)|(Hp & s' & g' & Hrun & Hi' & Hid & Hw & Herr & Hh)]; [by rewrite Hqf|by rewrite Hqf| |].
    - right. split; [naive_solver|]. erewrite bind_run by exact Hrun. rewrite Hqf in Hw. by exists s', g'.
    - left. split; [by left|]. erewrite bind_run by exact Hrun. exists s', g'. do 4 (split; [done|]). split; [right; naive_solver|done]. }
  destruct (isAddValid_run s fd) as (v & w & Hv). set (s1 := set_es_world w s) in *. assert (Hi1 : einv s1 g) by (by eapply einvx_soft; [apply soft_world|]).
  destruct (Z.eqb_spec 0 v) as [<-|Hv0].
  { left. split; [right; eauto|]. erewrite bind_run by (erewrite bind_run by exact Hv; done). exists s1, g. split; [done|]. split; [done|]. split; [done|]. split; [by apply watched_items|]. split; [left; split; [eauto|done]|by apply homes_items]. }
  pose proof (alloc_infoWithSock_spec env s1 g fd Hi1 Hfd) as Ha. cbn [s1 es_infoPool set_es_world] in Ha. destruct (q_contents (es_infoPool s)) as [|i pl] eqn:Hp.
  { left. split; [right; eauto|]. destruct Ha as (s2 & Hr2 & Hi2 & E2 & _ & _ & _ & _ & _ & _ & Eerr). rewrite (bind_run _ _ _ (inr (-1)) s2); cycle 1.
    { erewrite bind_run by exact Hv. destruct (Z.eqb_spec 0 v); [done|]. erewrite bind_run by exact Hr2. done. }
    exists s2, g. split; [done|]. split; [done|]. split; [done|]. split; [by apply watched_items; rewrite E2|]. split; [left; split; [eauto|by rewrite Eerr]|by apply homes_items]. }
  destruct Ha as (s2 & q & Hr2 & Hi2 & Hni & Hf2 & Hq & Hqf & E2 & E3 & _). destruct (set_infoProtoFD_spec s2 _ fd (se_fix_mid env) fd Hi2) as (s3 & Hr3 & Hs3 & E4 & Hf3).
  pose proof (einvx_soft env [] _ _ _ Hs3 Hi2) as Hi3. destruct (fmap_eq_Some _ _ _ _ (so_infos _ _ Hs3 i) Hq) as (q3 & Hq3 & Hk). injection Hk as Hk _ _ _ _ _.
  rewrite (bind_run _ _ _ (inl i) s3); cycle 1.
  { erewrite bind_run by exact Hv. destruct (Z.eqb_spec 0 v); [done|]. erewrite bind_run by exact Hr2. cbn [Z.eqb]. erewrite bind_run by exact Hr3.
    erewrite bind_run by (by eapply infoBySock_run). rewrite Hf3, Hf2. done. }
  assert (Hint : interest s3 (ge_tree e) = interest s (ge_tree e)) by (apply interest_ext; intros y _; unfold fd_of, event_of; by rewrite E4, E2).
  assert (Hw3 : watched s3 (fl_upd i [] g) = watched s g) by (change (watched s3 (fl_upd i [] g)) with (watched s3 g); apply watched_items; by rewrite E4, E2).
  assert (Hp3 : es_itemPool s3 = es_itemPool s) by (by rewrite (so_ipool _ _ Hs3), E3).
  destruct (insert_node_view s3 (fl_upd i [] g) ep e i [] q3 event Hi3 Hidle He) as [(Hp' & s' & g' & Hrun & Hi' & Hid & Hw & _ & Hh)|(Hp' & s' & g' & Hrun & Hi' & Hid & Hw & Herr & Hh)];
    [apply lookup_insert_eq|done|by rewrite Hk, Hqf, Hf3|by rewrite Hk, Hqf, Hint|..]; rewrite Hp3 in Hp'; erewrite bind_run by exact Hrun;
    (assert (homes s g s' g') as Hh' by (eapply homes_trans; [apply (homes_items s s3 g (fl_upd i [] g)); [by rewrite E4, E2|done]|exact Hh|];
      intros fd'; apply info_of_sock, (fr_sock (λ _, tt)); by eapply (keeps_insert_node env _ (env_keeps_unit env)))).
  - right. split; [|rewrite Hk, Hqf, Hint, Hw3 in Hw; by exists s', g']. intros [|[_ [|(s'' & Hv')]]]; [done|done|]. rewrite Hv in Hv'. by injection Hv' as ->.
  - left. split; [by left|]. rewrite Hw3 in Hw. exists s', g'. do 4 (split; [done|]). split; [right; split; [|done]|done].
    intros [_ [|(s'' & Hv')]]; [done|]. rewrite Hv in Hv'. by injection Hv' as ->.
Qed.

(** The events that are registered: errors and hang-ups always are. *)
Definition full_event (event : option epoll_event) : epoll_event :=
  let e := match event with Some e => e | None => mk_ev 0 0 end in mk_ev (Z.lor (events e) (Z.lor EPOLLERR EPOLLHUP)) (data e).

(** The error a call is refused with; [m]: the map of the event poll of [epfd], when it has one. *)
Definition ctl_errno (m : option (gmap Z epoll_event)) (epfd : Z) (op : epoll_op) (fd : Z) (event : option epoll_event) : option Z :=
  if negb (se_is_epoll env epfd) || (fd =? epfd) then Some EINVAL
  else if negb (NSEP_IS_SOCK_VALID env fd) then Some EBADF
  else match m with
  | None => Some EINVAL
  | Some m =>
      if bool_decide (event = None ∧ op ≠ EPOLL_CTL_DEL) then Some EFAULT
      else match op, m !! fd with
      | EPOLL_CTL_ADD, Some _ => Some EEXIST
      | EPOLL_CTL_DEL, None | EPOLL_CTL_MOD, None => Some ENOENT
      | EPOLL_CTL_OTHER, _ => Some EINVAL
      | _, _ => None
      end
  end.

(** What a call that is not refused does with the map. *)
Definition ctl_done (m : stM st Z) s g (A : watch) (ep fd : Z) (op : epoll_op) (ev : epoll_event) (I : gmap Z epoll_event) : Prop :=
  match op with
  | EPOLL_CTL_ADD =>
      (add_refused s fd ∧ ctl_ok m s g (-1) (add_errno s fd) A) ∨ (¬ add_refused s fd ∧ ctl_ok m s g 0 (λ _, True) (<[ep := <[fd := ev]> I]> A))
  | EPOLL_CTL_DEL => ctl_ok m s g 0 (λ _, True) (<[ep := delete fd I]> A)
  | EPOLL_CTL_MOD =>
      match info_of s fd with
      | Some _ => ctl_ok m s g 0 (λ _, True) (<[ep := <[fd := ev]> I]> A)
      | None => ctl_ok m s g (-1) (λ s', es_errno s' = EINVAL) A
      end
  | EPOLL_CTL_OTHER => False
  end.

Lemma set_errno_ok s g e : einv s g → idle g → ctl_ok (_ ← set_errno e; mret (-1)) s g (-1) (λ s', es_errno s' = e) (watched s g).
Proof.
  intros Hi Hidle. eexists _, g. split; [done|]. split; [by eapply einvx_soft; [apply soft_errno|]|]. split; [done|]. split; [by apply watched_items|]. split; [done|by apply homes_items].
Qed.

Lemma ctl_ok_step m m' s g r P A : m s = m' s → ctl_ok m' s g r P A → ctl_ok m s g r P A.
Proof. unfold ctl_ok. by intros ->. Qed.

(** The errors of the operation itself. *)
Definition op_errno (op : epoll_op) (o : option epoll_event) : option Z :=
  match op, o with
  | EPOLL_CTL_ADD, Some _ => Some EEXIST
  | EPOLL_CTL_DEL, None | EPOLL_CTL_MOD, None => Some ENOENT
  | EPOLL_CTL_OTHER, _ => Some EINVAL
  | _, _ => None
  end.

Lemma epoll_ctl_op_spec s g ep e op fd ev : einv s g → idle g → g_eps g !! ep = Some e → 0 <= fd < se_kernel_fd_max env →
  match op_errno op (interest s (ge_tree e) !! fd) with
  | Some c => ctl_ok (epoll_ctl_op env ep op fd ev) s g (-1) (λ s', es_errno s' = c) (watched s g)
  | None => ctl_done (epoll_ctl_op env ep op fd ev) s g (watched s g) ep fd op ev (interest s (ge_tree e))
  end.
Proof.
  intros Hi Hidle He Hfd. pose proof (find_ep_cases _ s g ep e fd Hi He) as Hfind. unfold epoll_ctl_op.
  destruct (interest s (ge_tree e) !! fd) as [ev0|] eqn:Hl; [destruct Hfind as (x & Hfind & Hx & Hfx & Hex)|]; (destruct op; cbn [op_errno ctl_done];
    [ | | |by eapply ctl_ok_step; [exact (bind_run _ _ _ _ _ Hfind)|apply set_errno_ok]]).
  - by eapply ctl_ok_step; [exact (bind_run _ _ _ _ _ Hfind)|apply set_errno_ok].
  - eapply ctl_ok_step; [exact (bind_run _ _ _ _ _ Hfind)|]. cbn. rewrite <- Hfx. by apply epctl_del_view.
  - destruct (info_of s fd) as [i|] eqn:Hf; (eapply ctl_ok_step; [rewrite (bind_run _ _ _ _ _ Hfind); exact (bind_run _ _ _ _ _ (infoBySock_run env _ _ _ fd Hi))|]); rewrite Hf.
    + destruct (info_of_ok env _ _ _ _ _ Hi Hf) as (q & l & Hq & Hl' & _). rewrite <- Hfx. apply epctl_mod_view; eauto.
    + by apply set_errno_ok.
  - destruct (epctl_add_view s g ep e fd ev Hi Hidle He Hfd Hl) as [[Hr Hok]|[Hr Hok]]; [left|right]; (split; [done|]); (eapply ctl_ok_step; [exact (bind_run _ _ _ _ _ Hfind)|done]).
  - by eapply ctl_ok_step; [exact (bind_run _ _ _ _ _ Hfind)|apply set_errno_ok].
  - by eapply ctl_ok_step; [exact (bind_run _ _ _ _ _ Hfind)|apply set_errno_ok].
Qed.

Lemma ctl_done_step m m' s g A ep fd op ev I : m s = m' s → ctl_done m' s g A ep fd op ev I → ctl_done m s g A ep fd op ev I.
Proof. intros Heq. destruct op; unfold ctl_done, ctl_ok; by rewrite ?Heq. Qed.

Lemma epoll_ctl_spec s g epfd op fd event : einv s g → idle g →
  match ctl_errno (ep ← ep_of s epfd; watched s g !! ep) epfd op fd event with
  | Some e => ctl_ok (nstack_epoll_ctl env epfd op fd event) s g (-1) (λ s', es_errno s' = e) (watched s g)
  | None => ∃ ep I, ep_of s epfd = Some ep ∧ watched s g !! ep = Some I ∧
      ctl_done (nstack_epoll_ctl env epfd op fd event) s g (watched s g) ep fd op (full_event event) I
  end.
Proof.
  intros Hi Hidle. unfold ctl_errno, nstack_epoll_ctl. destruct (_ || _); [by apply set_errno_ok|]. destruct (NSEP_IS_SOCK_VALID env fd) eqn:Hv; cbn [negb]; [|by apply set_errno_ok].
  apply andb_true_iff in Hv as [Hv1%Z.leb_le Hv2%Z.ltb_lt]. pose proof (infoBySock_run env _ _ _ epfd Hi) as Hb. unfold ep_of. destruct (info_of s epfd) as [i|] eqn:Hf; cbn [mbind option_bind].
  2: { eapply ctl_ok_step; [exact (bind_run _ _ _ _ _ Hb)|]. by apply set_errno_ok. }
  destruct (info_of_ok env _ _ _ _ _ Hi Hf) as (q & l & Hq & Hl & _ & Hqf & Hqe). rewrite Hq. cbn [mbind option_bind].
  destruct (info_ep q) as [ep|] eqn:Hep; cbn [mbind option_bind]; cycle 1.
  { eapply ctl_ok_step; [rewrite (bind_run _ _ _ _ _ Hb), (bind_run _ _ _ _ _ (info_get_run info_ep i s q Hq)), Hep; reflexivity|]. by apply set_errno_ok. }
  destruct (Hqe ep eq_refl) as (e & rq & He & _). rewrite (watched_lookup s g ep e He). cbn [mbind option_bind]. case_bool_decide as Hev.
  { eapply ctl_ok_step; [rewrite (bind_run _ _ _ _ _ Hb), (bind_run _ _ _ _ _ (info_get_run info_ep i s q Hq)), Hep; reflexivity|]. by apply set_errno_ok. }
  pose proof (epoll_ctl_op_spec s g ep e op fd (full_event event) Hi Hidle He (conj Hv1 Hv2)) as Hop. unfold op_errno in Hop. destruct op, (interest s (ge_tree e) !! fd) eqn:Hif; cbn beta iota in *;
    first [eapply ctl_ok_step; [|exact Hop] | exists ep, (interest s (ge_tree e)); split; [done|]; split; [by apply watched_lookup|]; eapply ctl_done_step; [|exact Hop]];
    rewrite (bind_run _ _ _ _ _ Hb), (bind_run _ _ _ _ _ (info_get_run info_ep i s q Hq)), Hep; reflexivity.
Qed.
End ctl.
