(* ===== verification/EpollClose.v ===== *)
(** * Epoll: closing

    Closing a descriptor takes its items out of all event polls; closing an epoll descriptor takes out all items of its event poll and gives the event poll
    and the information back. *)
From S2P Require Import Prelude.
From S2P Require Import Queue.
From S2P Require Import RbTree.
From S2P Require Import RbTreeProofs.
From S2P Require Import RbTreeProps.
From S2P Require Import EpList.
From S2P Require Import EpollData.
From S2P Require Import Epoll.
From S2P Require Import EpollPoll.
From S2P Require Import EpollInv.
From S2P Require Import EpollCtl.
From S2P Require Import EpollAlloc.
From S2P Require Import EpollOps.
From S2P Require Import EpollInfo.
From S2P Require Import EpollFrame.
From S2P Require Import EpollProps.

Section close.
Context {Q W : Type} `{BoundedQueue Q} (env : stack_env W).
Abbreviation st := (est Q W).
Abbreviation einvx := (einvx env).
Abbreviation einv := (einv env).
Implicit Types (s : st) (g : ghost).

(** ** The items of a descriptor *)

Lemma schain_head m p l : schain m p l → m !! p = Some (list.head l).
Proof. destruct l; cbn; [done|by intros []]. Qed.

(** The list is emptied from the front, when memory for the release list can be had. *)
Lemma collect_run n s i l acc : (∀ w, (se_malloc env w).1 = true) → NoDup (i :: l) → schain (es_fll s) i l → (length l <= n)%nat →
  (∀ x, x ∈ l → ∃ it, es_items s !! x = Some it ∧ epi_pid it = se_pid env) →
  ∃ m w, remove_collect env n i (list.head l) acc s = Some (acc ++ l, set_es_world w (set_es_fll m s)) ∧ m !! i = Some None ∧ (∀ x, x ∈ l → m !! x = Some None) ∧
    ∀ y, y ∉ i :: l → m !! y = es_fll s !! y.
Proof.
  intros Hmal. revert n s acc. induction l as [|x l IH]; intros n s acc Hnd Hc Hn Hit.
  { exists (es_fll s), (es_world s). split; [destruct n; cbn; rewrite app_nil_r; by destruct s|]. split; [done|]. split; [intros y Hy; by apply elem_of_nil in Hy|done]. }
  destruct n as [|n]; [cbn in Hn; lia|]. destruct (Hit x) as (it & Hx & Hpid); [left|]. cbn [list.head remove_collect]. erewrite bind_run by (apply item_get_run; exact Hx). rewrite Hpid, Z.eqb_refl.
  destruct Hc as [Hci Hcx]. pose proof (schain_head _ _ _ Hcx) as Hnx. erewrite bind_run by (apply fll_get_run; exact Hnx). apply NoDup_cons in Hnd as [Hi Hnd]. pose proof Hnd as [Hxl Hnd']%NoDup_cons.
  assert (Hxi : x ≠ i) by (intros ->; apply Hi; left).
  erewrite bind_run by (apply fll_upd_run; rewrite Hci; cbn [mbind option_bind]; rewrite lookup_insert_ne, Hnx by done; done). set (m1 := <[x := None]> (<[i := list.head l]> (es_fll s))).
  assert (∃ w1, (if (Z.of_nat (length acc) mod FREE_LIST_SIZE =? 0) && negb (Z.of_nat (length acc) =? 0) then ask (se_malloc env) else mret true) (set_es_fll m1 s) = Some (true, set_es_world w1 (set_es_fll m1 s))) as (w1 & Hw1).
  { destruct (_ && _); [rewrite ask_run, Hmal; eauto|]. exists (es_world s). by destruct s. }
  erewrite bind_run by exact Hw1. cbn [negb]. assert (Hm1 : m1 !! i = Some (list.head l)) by (unfold m1; rewrite lookup_insert_ne by done; apply lookup_insert_eq).
  erewrite bind_run by (apply fll_get_run; exact Hm1). destruct (IH n (set_es_world w1 (set_es_fll m1 s)) (acc ++ [x])) as (m & w & Hrun & H1 & H2 & H3).
  - apply NoDup_cons. split; [|done]. intros ?. apply Hi. by right.
  - destruct l as [|y l]; cbn in *; [done|]. split; [done|]. eapply (schain_ext (es_fll s)); [|apply Hcx]. intros z Hz. unfold m1. rewrite !lookup_insert_ne; [done|set_solver|set_solver].
  - cbn in Hn. lia.
  - intros y Hy. apply Hit. by right.
  - exists m, w. rewrite Hrun, <- app_assoc. split; [done|]. split; [done|]. split.
    + intros y [->|Hy]%elem_of_cons; [|by apply H2]. rewrite H3 by set_solver. apply lookup_insert_eq.
    + intros y Hy. rewrite H3 by set_solver. cbn. unfold m1. rewrite !lookup_insert_ne; [done|set_solver|set_solver].
Qed.

(** An item of the list of [i] is in the tree of its event poll, under the descriptor of [i]. *)
Lemma listed_item s g i l q x : einv s g → g_fl g !! i = Some l → es_infos s !! i = Some q → x ∈ l →
  ∃ ep e it, g_eps g !! ep = Some e ∧ x ∈ ge_tree e ∧ es_items s !! x = Some it ∧ epi_ep it = Some ep ∧ epi_fd it = info_fd q ∧ epi_pid it = se_pid env ∧ alloc_flag (epi_res_chk it) = 1.
Proof.
  intros Hi Hl Hq Hx. destruct (ei_infos _ _ _ _ Hi i l Hl) as (q' & Hq' & Hok). rewrite Hq in Hq'. injection Hq' as <-.
  destruct (io_items _ _ _ _ _ _ Hok x Hx) as [_ Hin]. destruct Hin as (ep & e & it & He & Ht & Hit & Hp); [apply not_elem_of_nil|].
  destruct (tree_item _ Hi ep e x He Ht) as (it' & Hit' & I1 & I2 & I3 & _ & I5). rewrite Hit in Hit'. injection Hit' as <-.
  destruct I5 as (j & lj & r & J1 & J2 & J3 & J4 & J5); [apply not_elem_of_nil|]. rewrite Hp in J1. injection J1 as <-. rewrite Hq in J4. injection J4 as <-. by exists ep, e, it.
Qed.

(** Each event poll has at most one item of a descriptor. *)
Lemma listed_few s g i l q : einv s g → g_fl g !! i = Some l → es_infos s !! i = Some q → (length l <= Z.to_nat NSTACK_MAX_EPOLL_INFO_NUM)%nat.
Proof.
  intros Hi Hl Hq. set (f x := match es_items s !! x with Some it => default 0 (epi_ep it) | None => 0 end).
  destruct (ei_infos _ _ _ _ Hi i l Hl) as (q' & _ & Hok). pose proof (io_list _ _ _ _ _ _ Hok) as [Hnd _]. apply NoDup_cons in Hnd as [_ Hnd].
  assert (Hf : ∀ x, x ∈ l → ∃ e, g_eps g !! f x = Some e ∧ x ∈ ge_tree e ∧ fd_of s x = info_fd q).
  { intros x Hx. destruct (listed_item s g i l q x Hi Hl Hq Hx) as (ep & e & it & He & Ht & Hit & Hep & Hfd & _). exists e. unfold f, fd_of. rewrite Hit, Hep. done. }
  assert (NoDup (f <$> l)) as Hnf.
  { apply NoDup_fmap_2_strong; [|done]. intros x y Hx Hy Hxy. destruct (Hf x Hx) as (e & He & Ht & Hfx), (Hf y Hy) as (e' & He' & Ht' & Hfy). rewrite Hxy, He' in He. injection He as <-.
    apply (sorted_inj (fd_of s) (ge_tree e')); [by eapply tree_sorted|done|done|congruence]. }
  assert (length (f <$> l) <= size (dom (es_eps s)))%nat as Hle.
  { rewrite <- (size_list_to_set (C := gset Z) (f <$> l)) by done. apply subseteq_size. intros y Hy. apply elem_of_list_to_set, list_elem_of_fmap in Hy as (x & -> & Hx). apply elem_of_dom.
    destruct (Hf x Hx) as (e & He & _). destruct (ei_eps _ _ _ _ Hi _ e He) as (r & Hr & _). eauto. }
  rewrite length_fmap, size_dom in Hle. pose proof (proj2 (mo_max _ (ei_mem _ _ _ _ Hi))). lia.
Qed.

Lemma collect_spec s g i l q : (∀ w, (se_malloc env w).1 = true) → einv s g → g_fl g !! i = Some l → es_infos s !! i = Some q →
  ∃ m w, remove_collect env (Z.to_nat NSTACK_MAX_EPOLL_INFO_NUM) i (list.head l) [] s = Some (l, set_es_world w (set_es_fll m s)) ∧ einvx l (set_es_world w (set_es_fll m s)) (fl_upd i [] g).
Proof.
  intros Hmal Hi Hl Hq. destruct (ei_infos _ _ _ _ Hi i l Hl) as (q' & _ & Hok). pose proof (io_list _ _ _ _ _ _ Hok) as [Hnd Hc].
  destruct (collect_run (Z.to_nat NSTACK_MAX_EPOLL_INFO_NUM) s i l [] Hmal Hnd Hc) as (m & w & Hrun & H1 & H2 & H3); [by eapply listed_few| |].
  { intros x Hx. destruct (listed_item s g i l q x Hi Hl Hq Hx) as (? & ? & it & _ & _ & Hit & _ & _ & Hp & _). eauto. }
  exists m, w. split; [done|]. eapply einvx_soft; [apply soft_world|]. apply (einvx_fll env l s g i l []); [eapply einvx_weaken; [|exact Hi]; intros y Hy; by apply elem_of_nil in Hy|done|split; [apply NoDup_singleton|done]| | |intros y Hy; by apply elem_of_nil in Hy|auto].
  - intros y Hy. apply H3. by rewrite app_nil_r in Hy.
  - intros y Hy. destruct (decide (y ∈ i :: l)) as [[->|Hin]%elem_of_cons|Hn]; [eauto|rewrite H2 by done; eauto|by rewrite H3].
Qed.

(** ** The release of the items *)

(** The trees without the items [l]. *)
Definition gone (l : list Z) g g' : Prop :=
  g_fl g' = g_fl g ∧ (∀ ep, ge_tree <$> (g_eps g' !! ep) = (λ e, filter (λ y, y ∉ l) (ge_tree e)) <$> (g_eps g !! ep)).

Lemma release_one z s g i x q ep e : einvx (x :: z) s g → idle g → g_eps g !! ep = Some e → x ∈ ge_tree e → (∀ j lj, g_fl g !! j = Some lj → x ∉ lj) →
  is_Some (g_fl g !! i) → es_infos s !! i = Some q → fd_of s x = info_fd q →
  ∃ s', remove_release env i [x] s = Some (tt, s') ∧ einvx z s' (gep_upd ep (gep_del x e) g) ∧ same_items s s' (λ y, y ≠ x).
Proof.
  intros Hi Hidle He Hx Hnl Hf Hq Hfd. destruct (tree_item _ Hi ep e x He Hx) as (it & Hit & I1 & I2 & _). cbn [remove_release].
  erewrite bind_run by (apply item_get_run; exact Hit). rewrite I1. cbn beta iota. pose proof (tree_sorted _ _ _ _ _ _ Hi He) as Hs.
  pose proof (find_ep_cases _ _ s g ep e (info_fd q) Hi He) as Hfind. destruct (interest s (ge_tree e) !! info_fd q) as [ev|] eqn:Hint.
  2: { rewrite interest_none in Hint by done. by destruct (Hint x Hx). }
  destruct Hfind as (y & Hfind & Hy & Hfy & _). assert (y = x) as -> by (apply (sorted_inj (fd_of s) (ge_tree e)); [done|done|done|congruence]). clear Hint.
  destruct (epctl_triggle_spec env (z := x :: z) (ep := ep) (e := e) (g := g) (Hidle _ _ He) x Hx i nstack_ep_triggle_del (ge_ready e) s) as (s1 & R & Hr1 & Hq1 & Hi1 & HR & _);
    [by apply (ready_is_refl env (x :: z) ep e)|done|]. unfold ready_is in Hi1. set (g1 := gep_upd ep (set_ready R e) g) in *.
  destruct (quiet_item_at ep s s1 x it Hq1 Hit) as (v & Hit1).
  destruct (unlink_free_spec env z s1 g1 ep (set_ready R e) x (set_epi_revents v it)) as (s3 & s4 & Hr3 & Hr4 & Hi4 & E1 & _); [done|apply lookup_insert_eq|by apply Hidle in He|done|done|done|done|].
  exists s4. split; [|split].
  - rewrite (bind_run _ _ _ tt s4); [done|]. erewrite bind_run by (apply info_get_run; exact Hq). erewrite bind_run by exact Hfind. cbn beta iota. erewrite bind_run by exact Hr1. erewrite bind_run by exact Hr3. by erewrite bind_run by exact Hr4.
  - unfold gep_del, set_ready in Hi4. cbn in Hi4. unfold requeued in HR. rewrite HR in Hi4. unfold gep_upd, g1 in *. cbn in *. by rewrite insert_insert_eq in Hi4.
  - intros y Hy'. rewrite E1 by done. apply (qu_items _ _ _ Hq1).
Qed.

Lemma bind_last {A} (a : stM st A) (b : A → stM st unit) (k : stM st unit) s s1 : (v ← a; _ ← b v; mret tt) s = Some (tt, s1) → (v ← a; _ ← b v; k) s = k s1.
Proof. unfold mbind, stM_bind. destruct (a s) as [[v s0]|]; [|done]. destruct (b v s0) as [[u s2]|]; [|done]. by intros [= ->]. Qed.

Lemma release_cons i x l s s1 : remove_release env i [x] s = Some (tt, s1) → remove_release env i (x :: l) s = remove_release env i l s1.
Proof. cbn [remove_release]. intros Hr. exact (bind_last _ _ _ _ _ Hr). Qed.

Lemma gone_one z s g x ep e : einvx z s g → g_eps g !! ep = Some e → x ∈ ge_tree e → gone [x] g (gep_upd ep (gep_del x e) g).
Proof.
  intros Hi He Hx. split; [done|]. intros ep'. cbn. destruct (decide (ep' = ep)) as [->|Hne].
  - rewrite lookup_insert_eq, He. cbn. f_equal. apply list_filter_iff. intros y. rewrite list_elem_of_singleton. done.
  - rewrite lookup_insert_ne by done. destruct (g_eps g !! ep') as [e'|] eqn:He'; [|done]. cbn. f_equal. symmetry. apply filter_whole. intros y Hy. rewrite list_elem_of_singleton. intros ->.
    apply Hne. by apply (tree_disj _ Hi ep' e' ep e x).
Qed.

Lemma gone_cons x l g g1 g' : gone [x] g g1 → gone l g1 g' → gone (x :: l) g g'.
Proof.
  intros [F1 T1] [F2 T2]. split; [congruence|]. intros ep. rewrite T2. specialize (T1 ep). destruct (g_eps g1 !! ep) as [e1|], (g_eps g !! ep) as [e|]; try done. cbn in *. injection T1 as ->. f_equal.
  rewrite list_filter_filter. apply list_filter_iff. intros y. rewrite list_elem_of_singleton, not_elem_of_cons. tauto.
Qed.

Lemma gone_in_tree l g g' x : gone l g g' → in_tree g' x ↔ in_tree g x ∧ x ∉ l.
Proof.
  intros [_ Ht]. split.
  - intros (ep & e' & He' & Hx). specialize (Ht ep). rewrite He' in Ht. cbn in Ht. symmetry in Ht. apply fmap_Some in Ht as (e & He & Hte). rewrite Hte in Hx. apply list_elem_of_filter in Hx as [? ?]. split; [by exists ep, e|done].
  - intros [(ep & e & He & Hx) Hn]. specialize (Ht ep). rewrite He in Ht. cbn in Ht. apply fmap_Some in Ht as (e' & He' & Hte). exists ep, e'. split; [done|]. rewrite <- Hte. by apply list_elem_of_filter.
Qed.

Lemma release_spec l s g i q : einvx l s g → idle g → NoDup l → is_Some (g_fl g !! i) → es_infos s !! i = Some q →
  (∀ x, x ∈ l → in_tree g x ∧ fd_of s x = info_fd q ∧ ∀ j lj, g_fl g !! j = Some lj → x ∉ lj) →
  ∃ s' g', remove_release env i l s = Some (tt, s') ∧ einv s' g' ∧ idle g' ∧ gone l g g' ∧ same_items s s' (λ y, y ∉ l).
Proof.
  revert s g q. induction l as [|x l IH]; intros s g q Hi Hidle Hnd Hf Hq Hl.
  { exists s, g. split; [done|]. split; [done|]. split; [done|]. split; [|by intros y]. split; [done|]. intros ep. destruct (g_eps g !! ep) as [e|]; [|done]. cbn. f_equal. symmetry. apply filter_whole. set_solver. }
  apply NoDup_cons in Hnd as [Hxl Hnd]. destruct (Hl x) as ((ep & e & He & Hx) & Hfd & Hnl); [left|].
  destruct (release_one l s g i x q ep e Hi Hidle He Hx Hnl Hf Hq Hfd) as (s1 & Hr1 & Hi1 & Hs1). pose proof (gone_one _ _ _ _ _ _ Hi He Hx) as Hg1. set (g1 := gep_upd ep (gep_del x e) g) in *.
  pose proof (fr_infos _ _ _ (keeps_release env (λ _, tt) (env_keeps_unit env) i [x] s tt s1 Hr1) i) as Hk. destruct (fmap_eq_Some _ _ _ _ Hk Hq) as (q1 & Hq1 & [= Hfd1 _ _ _ _]).
  destruct (IH s1 g1 q1) as (s' & g' & Hr' & Hi' & Hid' & Hg' & Hs'); [done|by apply idle_upd|done|done|done| |].
  - intros y Hy. destruct (Hl y) as (Hty & Hfy & Hny); [by right|]. assert (y ≠ x) by (intros ->; done). split; [|split].
    + apply (gone_in_tree [x] g g1 y Hg1). split; [done|]. by rewrite list_elem_of_singleton.
    + rewrite (proj1 (same_view s s1 (λ y, y ≠ x) y Hs1 H0)). congruence.
    + exact Hny.
  - exists s', g'. split; [by rewrite (release_cons _ _ _ _ _ Hr1)|]. split; [done|]. split; [done|]. split; [by eapply gone_cons|]. intros y [Hyx Hyl]%not_elem_of_cons. rewrite Hs' by done. by apply Hs1.
Qed.

(** All items of the descriptor of [i] leave the event polls. *)
Lemma remove_epfd_spec s g i l q : (∀ w, (se_malloc env w).1 = true) → einv s g → idle g → g_fl g !! i = Some l → es_infos s !! i = Some q →
  ∃ s' g', nsep_remove_epfd env (Some i) s = Some (tt, s') ∧ einv s' g' ∧ idle g' ∧ gone l (fl_upd i [] g) g' ∧ same_items s s' (λ y, y ∉ l).
Proof.
  intros Hmal Hi Hidle Hl Hq. destruct (ei_infos _ _ _ _ Hi i l Hl) as (q' & Hq' & Hok). pose proof (io_list _ _ _ _ _ _ Hok) as [Hnd Hc]. rewrite Hq in Hq'. injection Hq' as <-.
  unfold nsep_remove_epfd. erewrite bind_run by (apply info_get_run; exact Hq). rewrite (io_head _ _ _ _ _ _ Hok), (bind_run _ _ _ i s) by done.
  erewrite bind_run by (apply fll_get_run; by apply schain_head). destruct (collect_spec s g i l q Hmal Hi Hl Hq) as (m & w & Hrun & Hi1). erewrite bind_run by exact Hrun.
  destruct (release_spec l (set_es_world w (set_es_fll m s)) (fl_upd i [] g) i q) as (s' & g' & Hr' & Hi' & Hid' & Hg' & Hs'); [done|done|by apply NoDup_cons in Hnd as []|cbn; rewrite lookup_insert_eq; eauto|done| |].
  - intros x Hx. destruct (listed_item s g i l q x Hi Hl Hq Hx) as (ep & e & it & He & Ht & Hit & _ & Hfd & _). split; [by exists ep, e|]. split; [unfold fd_of; cbn; by rewrite Hit|].
    intros j lj Hj. cbn in Hj. destruct (decide (j = i)) as [->|Hne]; [rewrite lookup_insert_eq in Hj; injection Hj as <-; apply not_elem_of_nil|]. rewrite lookup_insert_ne in Hj by done.
    by apply (ei_disj _ _ _ _ Hi i j l lj).
  - by exists s', g'.
Qed.

(** ** The items of an event poll *)

(** Trees and lists without the items [l]. *)
Definition dropped (l : list Z) g g' : Prop :=
  (∀ i, g_fl g' !! i = filter (λ y, y ∉ l) <$> (g_fl g !! i)) ∧ (∀ ep, ge_tree <$> (g_eps g' !! ep) = (λ e, filter (λ y, y ∉ l) (ge_tree e)) <$> (g_eps g !! ep)).

Lemma dropped_one s g x ep e i l : einv s g → g_eps g !! ep = Some e → x ∈ ge_tree e → g_fl g !! i = Some l → x ∈ l →
  dropped [x] g (gep_upd ep (gep_del x e) (fl_upd i (filter (λ y, y ≠ x) l) g)).
Proof.
  intros Hi He Hx Hl Hxl. split.
  - intros j. cbn. destruct (decide (j = i)) as [->|Hne].
    + rewrite lookup_insert_eq, Hl. cbn. f_equal. apply list_filter_iff. intros y. by rewrite list_elem_of_singleton.
    + rewrite lookup_insert_ne by done. destruct (g_fl g !! j) as [lj|] eqn:Hj; [|done]. cbn. f_equal. symmetry. apply filter_whole. intros y Hy. rewrite list_elem_of_singleton. intros ->.
      by apply (ei_disj _ _ _ _ Hi i j l lj Hl Hj (not_eq_sym Hne) x).
  - intros ep'. exact (proj2 (gone_one _ _ _ _ _ _ Hi He Hx) ep').
Qed.

Lemma dropped_trans l1 l2 g g1 g' : dropped l1 g g1 → dropped l2 g1 g' → dropped (l1 ++ l2) g g'.
Proof.
  intros [F1 T1] [F2 T2]. split.
  - intros i. rewrite F2, F1. destruct (g_fl g !! i) as [l|]; [|done]. cbn. f_equal. rewrite list_filter_filter. apply list_filter_iff. intros y. rewrite not_elem_of_app. tauto.
  - intros ep. rewrite T2. specialize (T1 ep). destruct (g_eps g1 !! ep) as [e1|], (g_eps g !! ep) as [e|]; try done. cbn in *. injection T1 as ->. f_equal.
    rewrite list_filter_filter. apply list_filter_iff. intros y. rewrite not_elem_of_app. tauto.
Qed.

Lemma dropped_nil g : dropped [] g g.
Proof.
  split; [intros i; destruct (g_fl g !! i) as [l|]|intros ep; destruct (g_eps g !! ep) as [e|]]; try done; cbn; f_equal; symmetry; apply filter_whole; intros; apply not_elem_of_nil.
Qed.

Lemma tree_first z s g ep e r : einvx z s g → g_eps g !! ep = Some e → es_eps s !! ep = Some r → ep_rb_first tree_fuel (mk_rbt (es_rbn s) (ep_rbr r)) = Some (list.head (ge_tree e)).
Proof.
  intros Hi He Hr. destruct (ep_get_ok _ Hi ep e He) as (r' & Hr' & Hok). rewrite Hr in Hr'. injection Hr' as <-. apply (first_ok (fd_of s)); [apply (eo_tree _ _ _ _ _ _ _ Hok)|].
  apply rounds_fuel. eapply tree_length; [done|done|by eapply tree_nodup|]. intros y Hy. destruct (tree_item _ Hi ep e y He Hy) as (? & ? & _). eauto.
Qed.

(** The loop of [nsep_close_epfd] ends with the tree empty. *)
Lemma close_loop_spec n s g ep e : einv s g → idle g → g_eps g !! ep = Some e → (length (ge_tree e) <= n)%nat →
  ∃ s' g', close_loop env n ep s = Some (tt, s') ∧ einv s' g' ∧ idle g' ∧ dropped (ge_tree e) g g' ∧ same_items s s' (λ y, y ∉ ge_tree e).
Proof.
  revert s g e. induction n as [|n IH]; intros s g e Hi Hidle He Hn; destruct (ep_get_ok _ Hi ep e He) as (r & Hr & Hok); cbn [close_loop];
    erewrite bind_run by (apply tree_of_run; exact Hr); erewrite bind_run by (unfold lift; by rewrite (tree_first _ _ _ _ _ _ Hi He Hr)); destruct (ge_tree e) as [|x T] eqn:HT; cbn [list.head].
  1, 3: exists s, g; (split; [done|]; split; [done|]; split; [done|]; split; [apply dropped_nil|by intros y]).
  { cbn in Hn. lia. }
  assert (Hx : x ∈ ge_tree e) by (rewrite HT; left). destruct (epctl_del_spec env s g ep e x Hi He (Hidle _ _ He) Hx) as (s1 & i & l & Hr1 & Hl & Hxl & Hi1 & Hs1 & _).
  erewrite bind_run by exact Hr1. cbn [Z.eqb negb]. pose proof (dropped_one s g x ep e i l Hi He Hx Hl Hxl) as Hd1. set (g1 := gep_upd _ _ _) in *.
  assert (Hnd : x ∉ T) by (pose proof (tree_nodup _ _ _ _ _ _ _ Hok) as Hnd; rewrite HT in Hnd; by apply NoDup_cons in Hnd as []).
  assert (HT1 : ge_tree (gep_del x e) = T).
  { cbn. rewrite HT, filter_cons_False by naive_solver. apply filter_whole. intros y Hy ->. done. }
  destruct (IH s1 g1 (gep_del x e)) as (s' & g' & Hr' & Hi' & Hid' & Hd' & Hs'); [done|by apply idle_upd|apply lookup_insert_eq|rewrite HT1; cbn in Hn; lia|]. rewrite HT1 in Hd', Hs'.
  exists s', g'. split; [done|]. split; [done|]. split; [done|]. split; [exact (dropped_trans [x] T g g1 g' Hd1 Hd')|]. intros y [Hyx HyT]%not_elem_of_cons. rewrite Hs' by done. by apply Hs1.
Qed.
End close.
