(* ===== verification/EpollFree.v ===== *)
(** * Epoll: changes of single informations and event polls, and their return to the pools *)
From S2P Require Import Prelude.
From S2P Require Import Queue.
From S2P Require Import RbTree.
From S2P Require Import RbTreeProofs.
From S2P Require Import RbTreeProps.
From S2P Require Import EpList.
From S2P Require Import EpollData.
From S2P Require Import Epoll.
From S2P Require Import EpollPoll.
From S2P Require Import EpollInv.
From S2P Require Import EpollCtl.
From S2P Require Import EpollAlloc.
From S2P Require Import EpollInfo.

Section free.
Context {Q W : Type} `{BoundedQueue Q} (env : stack_env W).
Abbreviation st := (est Q W).
Abbreviation einvx := (einvx env).
Abbreviation einv := (einv env).
Implicit Types (s : st) (g : ghost) (z : list Z).

(** Field by field, what a change of an information has to respect. *)
Record info_change s g (r r' : nsep_epollInfo_t) : Prop := {
  ic_fd : info_fd r' = info_fd r;
  ic_list : info_epiList r' = info_epiList r;
  ic_flag : alloc_flag (info_res_chk r') = alloc_flag (info_res_chk r);
  ic_proto : length (info_protoFD r') = length (info_protoFD r);
  ic_rmidx : -1 <= info_rmidx r' < NSEP_SMOD_MAX;
  ic_pids : pid_ok (info_pidinfo r');
  ic_ep : ∀ ep, info_ep r' = Some ep → info_ep r = Some ep ∨ live s g ep (info_fd r)
}.

Lemma einvx_info z s g i l r r' : einvx z s g → g_fl g !! i = Some l → es_infos s !! i = Some r → info_change s g r r' → einvx z (set_es_infos (<[i := r']> (es_infos s)) s) g.
Proof.
  intros Hi Hl Hr [C1 C2 C3 C4 C5 C6 C7]. pose proof Hi as [H1 H2 H3 H4 H5 H6 H7 H8 H9]. split; try done.
  - destruct H1 as [M1 M2 M3 M4]. split; try done. cbn. intros x Hx. apply M3. destruct (decide (x = i)) as [->|]; [eauto|by rewrite lookup_insert_ne in Hx].
  - eapply pool_ok_frame; [|exact H4]. intros x. cbn. destruct (decide (x = i)) as [->|]; [rewrite lookup_insert_eq, Hr; cbn; by rewrite C3|by rewrite lookup_insert_ne].
  - intros ep e He. destruct (H5 ep e He) as (q & Hq & Hok). exists q. split; [done|]. eapply ep_ok_frame; [..|exact Hok]; try done; [|eauto]. cbn.
    intros j lj qj Hlj Hqj. destruct (decide (j = i)) as [->|]; [rewrite Hr in Hqj; injection Hqj as <-; exists lj, r'; by rewrite lookup_insert_eq|exists lj, qj; by rewrite lookup_insert_ne].
  - cbn. intros j lj Hlj. destruct (H6 j lj Hlj) as (q & Hq & Hok). destruct (decide (j = i)) as [->|].
    + rewrite Hr in Hq. injection Hq as <-. exists r'. rewrite lookup_insert_eq. split; [done|]. destruct Hok as [O1 O2 O3 O4 O5 O6 O7]. split; [done|congruence|done|congruence|congruence|done|done].
    + exists q. rewrite lookup_insert_ne by done. split; [done|]. by eapply info_ok_frame; [..|exact Hok].
  - destruct H8 as (m & M1 & M2 & M3). exists m. split; [done|]. split; [done|]. cbn. intros fd j Ha. destruct (M3 fd j Ha) as (q & Hq & J1 & J2 & J3). destruct (decide (j = i)) as [->|].
    + rewrite Hr in Hq. injection Hq as <-. exists r'. rewrite lookup_insert_eq. split; [done|]. split; [done|]. split; [congruence|]. intros ep Hep. destruct (C7 ep Hep) as [?|?]; [by apply J3|by rewrite <- J2].
    + exists q. by rewrite lookup_insert_ne.
Qed.

(** A descriptor that is no epoll descriptor is forgotten. *)
Lemma einvx_unmap z s g fd m : einvx z s g → es_sockMap s = Some m → 0 <= fd < se_kernel_fd_max env →
  (∀ ep e r, g_eps g !! ep = Some e → es_eps s !! ep = Some r → ep_epfd r ≠ fd) → einvx z (set_es_sockMap (Some (<[Z.to_nat fd := None]> m)) s) g.
Proof.
  intros Hi Hm Hfd Hne. pose proof Hi as [H1 H2 H3 H4 H5 H6 H7 H8 H9]. destruct H8 as (m' & Hm' & Hlen & M3). rewrite Hm in Hm'. injection Hm' as <-. split; try done.
  - by destruct H1; split.
  - intros ep e He. destruct (H5 ep e He) as (q & Hq & Hok). exists q. split; [done|]. eapply ep_ok_frame; [..|exact Hok]; try done; [intros i l q0 Hil Hiq; by exists l, q0|]. cbn.
    intros m1 i Hm1 Ha. rewrite Hm in Hm1. injection Hm1 as <-. eexists _, i. split; [done|]. rewrite aread_insert by lia. rewrite decide_False by (by eapply Hne). done.
  - intros i l Hl. destruct (H6 i l Hl) as (r & Hr & Hok). exists r. split; [done|]. by eapply info_ok_frame; [..|exact Hok].
  - eexists. split; [done|]. rewrite length_insert. split; [done|]. intros fd' i. rewrite aread_insert by lia. destruct (decide (fd' = fd)) as [->|]; [done|]. apply M3.
Qed.

(** ** Back to the pools *)

Lemma free_epinfo_run s i r : es_infos s !! i = Some r → alloc_flag (info_res_chk r) = 1 → pool_ok (es_infoPool s) (es_infos s) (λ r, alloc_flag (info_res_chk r)) →
  ∃ r' pool, nsep_free_epinfo i s = Some (0, set_es_infoPool pool (set_es_infos (<[i := r']> (es_infos s)) s)) ∧
    pool_ok pool (<[i := r']> (es_infos s)) (λ r, alloc_flag (info_res_chk r)) ∧ q_contents pool = q_contents (es_infoPool s) ++ [i].
Proof.
  intros Hr Hf Hp. unfold nsep_free_epinfo. rewrite (bind_run _ _ _ _ _ (info_upd_run _ i s r Hr)). rewrite (bind_run _ _ _ _ _ (info_get_run _ i _ _ (lookup_insert_eq _ _ _))).
  cbn [set_info_pidinfo info_res_chk]. unfold res_free. rewrite Hf. cbn [Z.eqb negb Pos.eqb]. rewrite (bind_run _ _ _ _ _ (info_upd_run _ i _ _ (lookup_insert_eq _ _ _))).
  assert (Hnc : i ∉ q_contents (es_infoPool s)) by (intros Hin; destruct (po_free _ _ _ Hp i Hin) as (a & Ha & Hfa); rewrite Hr in Ha; injection Ha as <-; cbn in Hfa; congruence).
  set (s1 := set_es_infos _ _). destruct (pool_enqueue_spec es_infoPool set_es_infoPool s1 i (po_inv _ _ _ Hp)) as (q & He & Q1 & Q2 & Q3); [by eapply pool_ok_room; [exact Hp|eauto|]|].
  rewrite (bind_run _ _ _ _ _ He). eexists _, q. split; [unfold s1, set_es_infoPool, set_es_infos; cbn; by rewrite insert_insert_eq|]. split; [|exact Q3].
  eapply (pool_ok_back (es_infoPool s)); [exact Hp|exact Q1|exact Q2|exact Q3|done|eauto|apply lookup_insert_eq|done|]. intros y Hy. by apply lookup_insert_ne.
Qed.

Lemma free_eventpoll_run s ep r : es_eps s !! ep = Some r → alloc_flag (ep_res_chk r) = 1 → pool_ok (es_epPool s) (es_eps s) (λ r, alloc_flag (ep_res_chk r)) →
  ∃ r' pool, nsep_free_eventpoll ep s = Some (0, set_es_epPool pool (set_es_eps (<[ep := r']> (es_eps s)) s)) ∧
    pool_ok pool (<[ep := r']> (es_eps s)) (λ r, alloc_flag (ep_res_chk r)) ∧ ep_epfd r' = ep_epfd r.
Proof.
  intros Hr Hf Hp. unfold nsep_free_eventpoll. rewrite (bind_run _ _ _ _ _ (ep_upd_run _ ep s r Hr)). rewrite (bind_run _ _ _ _ _ (ep_get_run _ ep _ _ (lookup_insert_eq _ _ _))).
  cbn [set_ep_pid ep_res_chk]. unfold res_free. rewrite Hf. cbn [Z.eqb negb Pos.eqb]. rewrite (bind_run _ _ _ _ _ (ep_upd_run _ ep _ _ (lookup_insert_eq _ _ _))).
  assert (Hnc : ep ∉ q_contents (es_epPool s)) by (intros Hin; destruct (po_free _ _ _ Hp ep Hin) as (a & Ha & Hfa); rewrite Hr in Ha; injection Ha as <-; cbn in Hfa; congruence).
  set (s1 := set_es_eps _ _). destruct (pool_enqueue_spec es_epPool set_es_epPool s1 ep (po_inv _ _ _ Hp)) as (q & He & Q1 & Q2 & Q3); [by eapply pool_ok_room; [exact Hp|eauto|]|].
  rewrite (bind_run _ _ _ _ _ He). eexists _, q. split; [unfold s1, set_es_epPool, set_es_eps; cbn; by rewrite insert_insert_eq|]. split; [|done].
  eapply (pool_ok_back (es_epPool s)); [exact Hp|exact Q1|exact Q2|exact Q3|done|eauto|apply lookup_insert_eq|done|]. intros y Hy. by apply lookup_insert_ne.
Qed.

(** An information that no descriptor has, and that has no items. *)
Lemma einvx_free_info z s g i r r' pool : einvx z s g → g_fl g !! i = Some [] → es_infos s !! i = Some r → (∀ fd, info_of s fd ≠ Some i) →
  pool_ok pool (<[i := r']> (es_infos s)) (λ r, alloc_flag (info_res_chk r)) →
  einvx z (set_es_infoPool pool (set_es_infos (<[i := r']> (es_infos s)) s)) (mk_gh (g_eps g) (delete i (g_fl g))).
Proof.
  intros Hi Hl Hr Hno Hp. pose proof Hi as [H1 H2 H3 H4 H5 H6 H7 H8 H9]. split; try done.
  - destruct H1 as [M1 M2 M3 M4]. split; try done. cbn. intros x Hx. apply M3. destruct (decide (x = i)) as [->|]; [eauto|by rewrite lookup_insert_ne in Hx].
  - intros ep e He. destruct (H5 ep e He) as (q & Hq & [O1 O2 O3 O4 O5 O6 O7 O8 O9 O10]). exists q. split; [done|]. split; try done.
    intros x Hx. destruct (O8 x Hx) as (it & I1 & I2 & I3 & I4 & I5 & I6). exists it. split; [done|]. split; [done|]. split; [done|]. split; [done|]. split; [done|]. intros Hz.
    destruct (I6 Hz) as (j & lj & qj & J1 & J2 & J3 & J4 & J5). assert (j ≠ i) by (intros ->; rewrite Hl in J2; injection J2 as <-; by apply elem_of_nil in J3). exists j, lj, qj. cbn. by rewrite lookup_delete_ne, lookup_insert_ne.
  - cbn. intros j lj Hlj. assert (j ≠ i) by (intros ->; by rewrite lookup_delete_eq in Hlj). rewrite lookup_delete_ne in Hlj by done. destruct (H6 j lj Hlj) as (q & Hq & Hok). exists q. rewrite lookup_insert_ne by done.
    split; [done|]. by eapply info_ok_frame; [..|exact Hok].
  - cbn. intros j1 j2 l1 l2 Hj1 Hj2. apply lookup_delete_Some in Hj1 as [_ Hj1]. apply lookup_delete_Some in Hj2 as [_ Hj2]. by apply H7.
  - destruct H8 as (m & M1 & M2 & M3). exists m. split; [done|]. split; [done|]. cbn. intros fd j Ha. destruct (M3 fd j Ha) as (q & Hq & J1 & J2 & J3).
    assert (j ≠ i) by (intros ->; apply (Hno fd); unfold info_of; rewrite M1; cbn; by rewrite Ha). exists q. by rewrite lookup_insert_ne, lookup_delete_ne.
Qed.

(** An event poll without items that no information refers to. *)
Lemma einvx_free_ep z s g ep e r r' pool : einvx z s g → g_eps g !! ep = Some e → ge_tree e = [] → es_eps s !! ep = Some r →
  (∀ fd i q, info_of s fd = Some i → es_infos s !! i = Some q → info_ep q ≠ Some ep) → pool_ok pool (<[ep := r']> (es_eps s)) (λ r, alloc_flag (ep_res_chk r)) →
  einvx z (set_es_epPool pool (set_es_eps (<[ep := r']> (es_eps s)) s)) (mk_gh (delete ep (g_eps g)) (g_fl g)).
Proof.
  intros Hi He HT Hr Hno Hp. pose proof Hi as [H1 H2 H3 H4 H5 H6 H7 H8 H9]. split; try done.
  - destruct H1 as [M1 M2 M3 [M4 M5]]. split; try done; cbn.
    + intros x Hx. apply M2. destruct (decide (x = ep)) as [->|]; [eauto|by rewrite lookup_insert_ne in Hx].
    + split; [done|]. by rewrite map_size_insert_Some by eauto.
  - cbn. intros ep' e' He'. apply lookup_delete_Some in He' as [Hne He']. destruct (H5 ep' e' He') as (q & Hq & Hok). exists q. rewrite lookup_insert_ne by done. split; [done|].
    eapply ep_ok_frame; [..|exact Hok]; try done; [intros i l q0 Hil Hiq; by exists l, q0|eauto].
  - intros i l Hl. destruct (H6 i l Hl) as (q & Hq & Hok). exists q. split; [done|]. eapply info_ok_frame; [..|exact Hok]; try done. intros x Hx (ep' & e' & He' & Hx'). exists ep', e'. split; [|done]. cbn.
    rewrite lookup_delete_ne; [done|]. intros <-. rewrite He in He'. injection He' as <-. rewrite HT in Hx'. by apply elem_of_nil in Hx'.
  - destruct H8 as (m & M1 & M2 & M3). exists m. split; [done|]. split; [done|]. cbn. intros fd j Ha. destruct (M3 fd j Ha) as (q & Hq & J1 & J2 & J3). exists q. split; [done|]. split; [done|]. split; [done|].
    intros ep' Hep'. destruct (J3 ep' Hep') as (e' & q' & L1 & L2 & L3). assert (ep' ≠ ep) as Hne.
    { intros ->. apply (Hno fd j q); [unfold info_of; rewrite M1; cbn; by rewrite Ha|done|done]. }
    exists e', q'. cbn. by rewrite lookup_delete_ne, lookup_insert_ne.
Qed.

(** ** The identifiers of the processes *)

Lemma del_last_pid_from_ok n i c d p pid : pid_ok p → 0 <= i → i + Z.of_nat n <= NSTACK_FORK_NUM → ∃ r p', del_last_pid_from n i c d p pid = Some (r, p') ∧ pid_ok p'.
Proof.
  revert i c d p. induction n as [|n IH]; intros i c d p Hp Hi Hn; cbn [del_last_pid_from]; [eauto|]. pose proof Hp as [Hl Hu].
  destruct (aread_is_Some (pid_array p) i) as (v & -> & Hv); [rewrite Hl; unfold NSTACK_FORK_NUM in *; lia|]. cbn [mbind option_bind]. destruct (pid =? v); [|apply IH; [done|lia|lia]].
  rewrite awrite_Some by (rewrite Hl; unfold NSTACK_FORK_NUM in *; lia). cbn [mbind option_bind]. apply IH; [|lia|lia]. split; cbn; [by rewrite length_insert|done].
Qed.

Lemma del_last_pid_ok p pid : pid_ok p → ∃ r p', nsep_del_last_pid p pid = Some (r, p') ∧ pid_ok p'.
Proof. intros Hp. pose proof Hp as [_ Hu]. apply del_last_pid_from_ok; [done|lia|]. unfold pid_cells, NSTACK_FORK_NUM in *. lia. Qed.

(** This process alone has the descriptor. *)
Definition alone (p : nsep_pidinfo) : Prop := ∃ p', nsep_del_last_pid p (se_pid env) = Some (0, p').

Lemma alone_new pinf r : nsep_add_pid nsep_for_pidinfo_init (se_pid env) = Some (r, pinf) → alone pinf.
Proof.
  unfold alone. generalize (se_pid env) as pid. intros pid [= <- <-]. unfold nsep_del_last_pid. change (pid_cells _) with 1%nat. eexists. cbn [del_last_pid_from pid_array]. unfold aread at 1. change (Z.to_nat 0) with O. cbn [Z.leb Z.compare lookup list_lookup mbind option_bind]. rewrite Z.eqb_refl. reflexivity.
Qed.
End free.
