(* ===== verification/EpollTable.v ===== *)
(** * Epoll: a table of descriptors

    The component as its users see it: a table that says of each known descriptor whether it is an epoll descriptor, and if so which descriptors it watches for which events.
    [table_inv D s]: the state [s] implements the table [D].  Every operation is shown to be defined on such states and to implement an operation on the table; the ledger [led] of the world
    stays as it is. *)
From S2P Require Import Prelude.
From S2P Require Import Queue.
From S2P Require Import RbTree.
From S2P Require Import EpList.
From S2P Require Import EpollData.
From S2P Require Import Epoll.
From S2P Require Import EpollPoll.
From S2P Require Import EpollInv.
From S2P Require Import EpollCtl.
From S2P Require Import EpollAlloc.
From S2P Require Import EpollOps.
From S2P Require Import EpollInfo.
From S2P Require Import EpollFrame.
From S2P Require Import EpollProps.
From S2P Require Import EpollClose.
From S2P Require Import EpollFree.

(** [None]: a descriptor that is no epoll descriptor; [Some m]: one with the interests [m]. *)
Abbreviation table := (gmap Z (option (gmap Z epoll_event))).

(** The interests of an epoll descriptor. *)
Definition watches (D : table) (fd : Z) : option (gmap Z epoll_event) := match D !! fd with Some o => o | None => None end.

(** A closed descriptor is known no more and watched by nobody. *)
Definition close_desc (fd : Z) (D : table) : table := (λ o : option (gmap Z epoll_event), match o with Some m => Some (delete fd m) | None => None end) <$> (delete fd D : table).

(** What a control call does that is not refused. *)
Definition apply_ctl (op : epoll_op) (fd : Z) (ev : epoll_event) (m : gmap Z epoll_event) : gmap Z epoll_event :=
  match op with EPOLL_CTL_DEL => delete fd m | EPOLL_CTL_OTHER => m | _ => <[fd := ev]> m end.

(** A descriptor becomes known when it is watched. *)
Definition learn (fd : Z) (D : table) : table := match D !! fd with Some _ => D | None => <[fd := None]> D end.

Section table.
Context {Q W : Type} `{BoundedQueue Q} (env : stack_env W) {L : Type} (led : W → L) (Hek : env_keeps env led).
Abbreviation st := (est Q W).
Abbreviation einv := (einv env).
Implicit Types (s : st) (g : ghost) (D : table).

(** The entry of [fd], given the interests by event poll. *)
Definition desc_in s (A : watch) (fd : Z) : option (option (gmap Z epoll_event)) :=
  i ← info_of s fd; r ← es_infos s !! i; match info_ep r with None => Some None | Some ep => Some <$> (A !! ep) end.
Definition desc s g : Z → option (option (gmap Z epoll_event)) := desc_in s (watched s g).

Record desc_ok s g D : Prop := {
  do_table : ∀ fd, D !! fd = desc s g fd;
  do_live : ∀ ep e r, g_eps g !! ep = Some e → es_eps s !! ep = Some r → ep_of s (ep_epfd r) = Some ep;
  do_type : ∀ fd i r, info_of s fd = Some i → es_infos s !! i = Some r → info_fdtype r = NSTACK_EPOL_FD ↔ is_Some (info_ep r);
  do_pids : ∀ fd i r, info_of s fd = Some i → es_infos s !! i = Some r → alone env (info_pidinfo r);
  do_home : ∀ x it, in_tree g x → es_items s !! x = Some it → info_of s (epi_fd it) = epi_private_data it
}.

Definition table_inv D s : Prop := ∃ g, einv s g ∧ idle g ∧ desc_ok s g D.

(** ** Changes that keep the informations *)

Lemma ep_of_frame s s' fd : frame led s s' → ep_of s' fd = ep_of s fd.
Proof.
  intros Hf. unfold ep_of. rewrite (info_of_sock s s' fd (fr_sock _ _ _ Hf)). destruct (info_of s fd) as [i|]; [|done]. cbn. pose proof (fr_infos _ _ _ Hf i) as Hk.
  destruct (es_infos s' !! i), (es_infos s !! i); try done. cbn in *. by injection Hk.
Qed.

Lemma desc_ok_keep s s' g g' D D' : desc_ok s g D → frame led s s' → homes s g s' g' → (∀ ep e', g_eps g' !! ep = Some e' → is_Some (g_eps g !! ep)) →
  (∀ fd, D' !! fd = desc s' g' fd) → desc_ok s' g' D'.
Proof.
  intros [D1 D2 D3 D4 D5] Hf Hh He Hd. pose proof (λ fd, info_of_sock s s' fd (fr_sock _ _ _ Hf)) as Hio. split; [done|..].
  - intros ep e' r' He' Hr'. destruct (He ep e' He') as [e Hge]. pose proof (fr_epfd _ _ _ Hf ep) as Hk. rewrite Hr' in Hk. cbn in Hk. symmetry in Hk. apply fmap_Some in Hk as (r & Hr & ->).
    rewrite (ep_of_frame _ _ _ Hf). eauto.
  - intros fd i r' Hi Hr'. rewrite Hio in Hi. pose proof (fr_infos _ _ _ Hf i) as Hk. rewrite Hr' in Hk. cbn in Hk. symmetry in Hk. apply fmap_Some in Hk as (r & Hr & [= K1 K2 K3 K4 K5]). rewrite K2, K3. eauto.
  - intros fd i r' Hi Hr'. rewrite Hio in Hi. pose proof (fr_infos _ _ _ Hf i) as Hk. rewrite Hr' in Hk. cbn in Hk. symmetry in Hk. apply fmap_Some in Hk as (r & Hr & [= K1 K2 K3 K4 K5]). rewrite K5. eauto.
  - intros x it' Hx Hit'. destruct (Hh x it' Hx Hit') as [(it & Hx0 & Hit & -> & ->)|?]; [|done]. rewrite Hio. eauto.
Qed.

Lemma desc_frame s s' A fd : frame led s s' → desc_in s' A fd = desc_in s A fd.
Proof.
  intros Hf. unfold desc_in. rewrite (info_of_sock s s' fd (fr_sock _ _ _ Hf)). destruct (info_of s fd) as [i|]; [|done]. cbn. pose proof (fr_infos _ _ _ Hf i) as Hk.
  destruct (es_infos s' !! i), (es_infos s !! i); try done. cbn in *. by injection Hk as _ -> _ _ _.
Qed.

Lemma watched_dom s g ep : is_Some (watched s g !! ep) ↔ is_Some (g_eps g !! ep).
Proof. unfold watched. rewrite lookup_fmap. apply fmap_is_Some. Qed.

(** The table and the maps by event poll. *)
Lemma watches_ep s g D fd : desc_ok s g D → watches D fd = (ep ← ep_of s fd; watched s g !! ep).
Proof.
  intros HD. unfold watches, ep_of. rewrite (do_table _ _ _ HD). unfold desc, desc_in. destruct (info_of s fd) as [i|]; [|done]. cbn. destruct (es_infos s !! i) as [r|]; [|done]. cbn.
  destruct (info_ep r) as [ep|]; [|done]. cbn. by destruct (watched s g !! ep).
Qed.

Lemma ep_of_live s g fd ep : einv s g → ep_of s fd = Some ep → live s g ep fd.
Proof.
  intros Hi. unfold ep_of. destruct (info_of s fd) as [i|] eqn:Hf; [|done]. cbn. destruct (info_of_ok env _ _ _ _ _ Hi Hf) as (r & l & -> & _ & _ & _ & Hl). cbn. apply Hl.
Qed.

Lemma desc_same s s' g g' D fd : desc_ok s g D → frame led s s' → watched s' g' = watched s g → D !! fd = desc s' g' fd.
Proof. intros HD Hf Hw. unfold desc. rewrite (desc_frame _ _ _ _ Hf), Hw. apply (do_table _ _ _ HD). Qed.

(** The interests of one event poll change. *)
Lemma desc_upd s g D fd ep epfd m : einv s g → desc_ok s g D → ep_of s epfd = Some ep → desc_in s (<[ep := m]> (watched s g)) fd = <[epfd := Some m]> D !! fd.
Proof.
  intros Hi HD Hep. destruct (ep_of_live _ _ _ _ Hi Hep) as (e & q & He & Hq & Hqf). unfold desc_in. destruct (decide (fd = epfd)) as [->|Hne].
  - rewrite lookup_insert_eq. unfold ep_of in Hep. destruct (info_of s epfd) as [i|]; [|done]. cbn in *. destruct (es_infos s !! i) as [r|]; [|done]. cbn in *. rewrite Hep. by rewrite lookup_insert_eq.
  - rewrite lookup_insert_ne by done. rewrite (do_table _ _ _ HD). unfold desc, desc_in. destruct (info_of s fd) as [i|] eqn:Hio; [|done]. cbn. destruct (es_infos s !! i) as [r|] eqn:Hr; [|done]. cbn.
    destruct (info_ep r) as [ep'|] eqn:Hep'; [|done]. destruct (ep_of_live s g fd ep' Hi) as (e' & q' & He' & Hq' & Hqf'); [unfold ep_of; rewrite Hio; cbn; by rewrite Hr|].
    rewrite lookup_insert_ne; [done|]. intros <-. congruence.
Qed.

Lemma table_keep D s s' g : einv s g → idle g → desc_ok s g D → frame led s s' → einv s' g → es_items s' = es_items s → table_inv D s'.
Proof.
  intros Hi Hid HD Hf Hi' He. exists g. split; [done|]. split; [done|]. eapply desc_ok_keep; [exact HD|done|by apply homes_items|eauto|]. intros fd. eapply desc_same; [done|done|]. by apply watched_items.
Qed.

(** ** Single fields of an information *)

Lemma setter_table D s fd f : table_inv D s → (∀ r, ikey (f r) = ikey r) → (∀ r, info_epiList (f r) = info_epiList r) → (∀ r, length (info_protoFD (f r)) = length (info_protoFD r)) →
  (∀ r, -1 <= info_rmidx r < NSEP_SMOD_MAX → -1 <= info_rmidx (f r) < NSEP_SMOD_MAX) →
  ∃ s', with_info env fd tt (info_upd f) s = Some (tt, s') ∧ table_inv D s' ∧ frame led s s'.
Proof.
  intros (g & Hi & Hid & HD) Hk Hl Hp Hm. unfold with_info. erewrite bind_run by (by eapply infoBySock_run). destruct (info_of s fd) as [i|] eqn:Hf; [|exists s; split; [done|]; split; [by exists g|done]].
  destruct (info_of_ok env _ _ _ _ _ Hi Hf) as (r & l & Hr & Hgl & Hok & _). rewrite (info_upd_run f i s r Hr). set (s' := set_es_infos _ s).
  assert (Hfr : frame led s s') by (eapply (keeps_info_upd led f i); [done|by apply info_upd_run]). exists s'. split; [done|]. split; [|done]. specialize (Hk r). injection Hk as K1 K2 K3 K4 K5.
  eapply (table_keep D s s' g); [done|done|done|done| |done]. eapply einvx_info; [done|done|done|]. destruct Hok as [O1 O2 O3 O4 O5 O6 O7]. split; [done|done|congruence|done|by apply Hm|by rewrite K5|]. intros ep. rewrite K2. by left.
Qed.

Lemma set_infomdix_table D s fd v : table_inv D s → -1 <= v < NSEP_SMOD_MAX → ∃ s', nsep_set_infomdix env fd v s = Some (tt, s') ∧ table_inv D s' ∧ frame led s s'.
Proof. intros. by apply setter_table. Qed.
Lemma set_infoRlfd_table D s fd v : table_inv D s → ∃ s', nsep_set_infoRlfd env fd v s = Some (tt, s') ∧ table_inv D s' ∧ frame led s s'.
Proof. intros. by apply setter_table. Qed.
Lemma set_infoSleepTime_table D s fd v : table_inv D s → ∃ s', nsep_set_infoSleepTime env fd v s = Some (tt, s') ∧ table_inv D s' ∧ frame led s s'.
Proof. intros. by apply setter_table. Qed.
Lemma get_infoSleepTime_table D s fd : table_inv D s → ∃ v, nsep_get_infoSleepTime env fd s = Some (v, s).
Proof.
  intros (g & Hi & _). unfold nsep_get_infoSleepTime, with_info. erewrite bind_run by (by eapply infoBySock_run). destruct (info_of s fd) as [i|] eqn:Hf; [|eauto].
  destruct (info_of_ok env _ _ _ _ _ Hi Hf) as (r & l & Hr & _). erewrite bind_run by (apply info_get_run; exact Hr). eauto.
Qed.
Lemma set_infoProtoFD_table D s fd m v : table_inv D s → ∃ s', nsep_set_infoProtoFD env fd m v s = Some (tt, s') ∧ table_inv D s' ∧ frame led s s'.
Proof.
  intros (g & Hi & Hid & HD). destruct (set_infoProtoFD_spec env s g fd m v Hi) as (s' & Hr & Hs & He & _). assert (frame led s s') as Hf.
  { assert (keeps led (nsep_set_infoProtoFD (Q := Q) env fd m v)) as Hk; [|by eapply Hk]. unfold nsep_set_infoProtoFD, with_info. apply keeps_bind; [apply keeps_infoBySock|]. intros [i|]; [|apply keeps_ret].
    destruct (_ || _); [apply keeps_ret|]. apply keeps_bind; [apply keeps_info_get|intros p]. apply keeps_bind; [apply keeps_lift|intros p']. by apply keeps_info_upd. }
  exists s'. split; [done|]. split; [|done]. eapply (table_keep D s s' g); [done|done|done|done| |done]. by eapply einvx_soft.
Qed.

(** ** A new information *)

(** The informations are as before, but for a new one for [fd]. *)
Record grown (fd : Z) s s' : Prop := {
  gr_new : ∃ i r, info_of s' fd = Some i ∧ es_infos s' !! i = Some r ∧ info_ep r = None ∧ info_fdtype r = 0 ∧ alone env (info_pidinfo r) ∧ ∀ fd', fd' ≠ fd → info_of s fd' ≠ Some i;
  gr_old : info_of s fd = None;
  gr_map : ∀ fd', fd' ≠ fd → info_of s' fd' = info_of s fd';
  gr_infos : ∀ fd' j, fd' ≠ fd → info_of s fd' = Some j → ikey <$> (es_infos s' !! j) = ikey <$> (es_infos s !! j);
  gr_epfd : ∀ x, ep_epfd <$> (es_eps s' !! x) = ep_epfd <$> (es_eps s !! x);
  gr_led : led (es_world s') = led (es_world s)
}.

Lemma grown_frame fd s s1 s' : grown fd s s1 → frame led s1 s' → grown fd s s'.
Proof.
  intros [(i & r & N1 & N2 & N3 & N4 & N5 & N6) G2 G3 G4 G5 G6] Hf. pose proof (λ fd, info_of_sock s1 s' fd (fr_sock _ _ _ Hf)) as Hio. split.
  - pose proof (fr_infos _ _ _ Hf i) as Hk. rewrite N2 in Hk. apply fmap_Some in Hk as (r' & Hr' & [= K1 K2 K3 K4 K5]). exists i, r'. rewrite Hio, <- K2, <- K3, <- K5. done.
  - done.
  - intros fd' Hne. rewrite Hio. auto.
  - intros fd' j Hne Hj. rewrite (fr_infos _ _ _ Hf j). eauto.
  - intros x. by rewrite (fr_epfd _ _ _ Hf x).
  - by rewrite (fr_led _ _ _ Hf).
Qed.

Lemma frame_grown fd s s1 s' : frame led s s1 → grown fd s1 s' → grown fd s s'.
Proof.
  intros Hf [(i & r & N1 & N2 & N3 & N4 & N5 & N6) G2 G3 G4 G5 G6]. pose proof (λ fd, info_of_sock s s1 fd (fr_sock _ _ _ Hf)) as Hio. split.
  - exists i, r. do 5 (split; [done|]). intros fd' Hne. rewrite <- Hio. auto.
  - by rewrite <- Hio.
  - intros fd' Hne. rewrite <- Hio. auto.
  - intros fd' j Hne Hj. rewrite <- Hio in Hj. rewrite <- (fr_infos _ _ _ Hf j). eauto.
  - intros x. by rewrite <- (fr_epfd _ _ _ Hf x).
  - by rewrite <- (fr_led _ _ _ Hf).
Qed.

(** The table after that. *)
Lemma grown_desc fd fd' s s' A : grown fd s s' → desc_in s' A fd' = if decide (fd' = fd) then Some None else desc_in s A fd'.
Proof.
  intros [(i & r & N1 & N2 & N3 & _) G2 G3 G4 _ _]. unfold desc_in. destruct (decide (fd' = fd)) as [->|Hne]; [rewrite N1; cbn; rewrite N2; cbn; by rewrite N3|].
  rewrite (G3 fd' Hne). destruct (info_of s fd') as [j|] eqn:Hj; [|done]. cbn. pose proof (G4 fd' j Hne Hj) as Hk. destruct (es_infos s' !! j), (es_infos s !! j); try done. cbn in *. by injection Hk as _ -> _ _ _.
Qed.

Lemma desc_ok_grow fd s s' g g' D D' : einv s g → desc_ok s g D → grown fd s s' → homes s g s' g' → (∀ ep e', g_eps g' !! ep = Some e' → is_Some (g_eps g !! ep)) →
  (∀ fd', D' !! fd' = desc s' g' fd') → desc_ok s' g' D'.
Proof.
  intros Hi [D1 D2 D3 D4 D5] [(i & r & N1 & N2 & N3 & N4 & N5 & N6) G2 G3 G4 G5 G6] Hh He Hd.
  assert (Hinf : ∀ fd' j r', fd' ≠ fd → info_of s' fd' = Some j → es_infos s' !! j = Some r' → ∃ r0, info_of s fd' = Some j ∧ es_infos s !! j = Some r0 ∧ ikey r' = ikey r0).
  { intros fd' j r' Hne Hj Hr'. rewrite G3 in Hj by done. pose proof (G4 fd' j Hne Hj) as Hk. rewrite Hr' in Hk. cbn in Hk. symmetry in Hk. apply fmap_Some in Hk as (r0 & Hr0 & Hk). eauto. }
  split; [done|..].
  - intros ep e' r' He' Hr'. destruct (He ep e' He') as [e Hge]. pose proof (G5 ep) as Hk. rewrite Hr' in Hk. cbn in Hk. symmetry in Hk. apply fmap_Some in Hk as (r1 & Hr1 & ->).
    pose proof (D2 ep e r1 Hge Hr1) as Hep. assert (ep_epfd r1 ≠ fd) as Hne by (intros Heq; unfold ep_of in Hep; rewrite Heq, G2 in Hep; done). unfold ep_of in *. rewrite G3 by done.
    destruct (info_of s (ep_epfd r1)) as [j|] eqn:Hj; [|done]. cbn in *. pose proof (G4 _ j Hne Hj) as Hk. destruct (es_infos s' !! j), (es_infos s !! j); try done. cbn in *. injection Hk as _ -> _ _ _. done.
  - intros fd' j r' Hj Hr'. destruct (decide (fd' = fd)) as [->|Hne].
    + rewrite N1 in Hj. injection Hj as <-. rewrite N2 in Hr'. injection Hr' as <-. rewrite N3, N4. split; [done|by intros []].
    + destruct (Hinf fd' j r' Hne Hj Hr') as (r0 & J1 & J2 & [= K1 K2 K3 K4 K5]). rewrite K2, K3. eauto.
  - intros fd' j r' Hj Hr'. destruct (decide (fd' = fd)) as [->|Hne]; [congruence|]. destruct (Hinf fd' j r' Hne Hj Hr') as (r0 & J1 & J2 & [= K1 K2 K3 K4 K5]). rewrite K5. eauto.
  - intros x it' Hx Hit'. destruct (Hh x it' Hx Hit') as [(it & Hx0 & Hit & E1 & E2)|?]; [|done]. rewrite E1, E2, <- (D5 x it Hx0 Hit). apply G3. intros Heq. pose proof (D5 x it Hx0 Hit) as Hp. rewrite Heq, G2 in Hp.
    destruct Hx0 as (ep & e & Hep & Hxe). destruct (tree_item _ Hi ep e x Hep Hxe) as (it0 & Hit0 & _ & _ & _ & _ & Hpr). rewrite Hit in Hit0. injection Hit0 as <-.
    destruct Hpr as (? & ? & ? & Hp' & _); [apply not_elem_of_nil|]. congruence.
Qed.

Lemma known_iff s g D fd : einv s g → desc_ok s g D → D !! fd = None ↔ info_of s fd = None.
Proof.
  intros Hi HD. rewrite (do_table _ _ _ HD). unfold desc, desc_in. destruct (info_of s fd) as [i|] eqn:Hf; [|done]. cbn. destruct (info_of_ok env _ _ _ _ _ Hi Hf) as (r & l & -> & _ & _ & _ & Hl). cbn.
  destruct (info_ep r) as [ep|] eqn:Hep; [|done]. destruct (Hl ep eq_refl) as (e & q & He & _). rewrite (watched_lookup s g ep e He). done.
Qed.

Lemma alloc_grown s g fd : einv s g → 0 <= fd < se_kernel_fd_max env → info_of s fd = None →
  (q_contents (es_infoPool s) = [] ∧ ∃ s', nsep_alloc_infoWithSock env fd s = Some (-1, s') ∧ einv s' g ∧ es_items s' = es_items s ∧ frame led s s') ∨
  (∃ i s', nsep_alloc_infoWithSock env fd s = Some (0, s') ∧ einv s' (fl_upd i [] g) ∧ es_items s' = es_items s ∧ grown fd s s' ∧ info_of s' fd = Some i ∧
    (info_epaddflag <$> (es_infos s' !! i)) = Some 0 ∧ q_contents (es_infoPool s) = i :: q_contents (es_infoPool s')).
Proof.
  intros Hi Hfd Hn. pose proof (alloc_infoWithSock_spec env s g fd Hi Hfd) as Ha. destruct (q_contents (es_infoPool s)) as [|i pl] eqn:Hc.
  - left. split; [done|]. destruct Ha as (s' & Hr & Hi' & E1 & _ & E3 & E4 & E5 & E6 & E7 & _). exists s'. split; [done|]. split; [done|]. split; [done|].
    split; try done; [by rewrite E7, Hc|intros j; by rewrite E3|intros x; by rewrite E5|by rewrite E6].
  - right. destruct Ha as (s' & q & Hr & Hi' & Hni & Hf & Hq & Hqf & E1 & _ & [F1 F2 F3 F4 F5 F6 F7 F8 F9 [rr F10]] & E3 & E4 & E5 & E6 & E7). exists i, s'. split; [done|]. split; [done|]. split; [done|].
    split; [|split; [done|split; [rewrite Hq; cbn; by rewrite F9|by rewrite E7]]]. assert (Hold : ∀ fd', info_of s fd' ≠ Some i).
    { intros fd' Hi2. destruct (info_of_ok env _ _ _ _ _ Hi Hi2) as (? & l & _ & Hl & _). congruence. }
    split; [|done|done| | |by rewrite E6].
    + exists i, q. split; [done|]. split; [done|]. split; [done|]. split; [done|]. split; [by eapply alone_new|]. intros fd' _. apply Hold.
    + intros fd' j _ Hj. rewrite E3; [done|]. intros ->. by apply (Hold fd').
    + intros x. by rewrite E5.
Qed.

(** [nsep_alloc_infoWithSock] makes a descriptor known, while there are informations left. *)
Lemma alloc_table D s fd : table_inv D s → 0 <= fd < se_kernel_fd_max env → D !! fd = None →
  ∃ r s', nsep_alloc_infoWithSock env fd s = Some (r, s') ∧ led (es_world s') = led (es_world s) ∧
    ((r = -1 ∧ table_inv D s') ∨ (r = 0 ∧ table_inv (<[fd := None]> D) s')).
Proof.
  intros (g & Hi & Hid & HD) Hfd Hn. rewrite (known_iff s g D fd Hi HD) in Hn. destruct (alloc_grown s g fd Hi Hfd Hn) as [(_ & s' & Hr & Hi' & He & Hf)|(i & s' & Hr & Hi' & He & Hg & _)].
  - exists (-1), s'. split; [done|]. split; [apply (fr_led _ _ _ Hf)|]. left. split; [done|]. exact (table_keep D s s' g Hi Hid HD Hf Hi' He).
  - exists 0, s'. split; [done|]. split; [apply (gr_led _ _ _ Hg)|]. right. split; [done|]. exists (fl_upd i [] g). split; [done|]. split; [done|].
    eapply (desc_ok_grow fd s s' g); [done|done|done|by apply homes_items|eauto|]. intros fd'. unfold desc. rewrite (grown_desc fd fd' s s' _ Hg), (watched_items s s' (fl_upd i [] g)) by done.
    destruct (decide (fd' = fd)) as [->|]; [by rewrite lookup_insert_eq|rewrite lookup_insert_ne by done; apply (do_table _ _ _ HD)].
Qed.

(** ** Control *)

Lemma bind_inv {A B} (m : stM st A) (k : A → stM st B) s b s' : (m ≫= k) s = Some (b, s') → ∃ a s1, m s = Some (a, s1) ∧ k a s1 = Some (b, s').
Proof. unfold mbind, stM_bind. destruct (m s) as [[a s1]|]; [|done]. eauto. Qed.

Lemma epctl_add_frame s g ep fd ev r s' : einv s g → 0 <= fd < se_kernel_fd_max env → nsep_epctl_add env ep fd ev s = Some (r, s') →
  (frame led s s' ∧ (info_of s fd = None → r = -1)) ∨ grown fd s s'.
Proof.
  intros Hi Hfd. unfold nsep_epctl_add. erewrite bind_run by (by eapply infoBySock_run). destruct (info_of s fd) as [i|] eqn:Hf.
  { rewrite (bind_run _ _ _ (inl i) s) by done. intros (e & s1 & H1 & H2)%bind_inv. injection H2 as _ <-. left. split; [by eapply keeps_insert_node|done]. }
  intros (f & s1 & H1 & H2)%bind_inv. assert (frame led s1 s') as Hf1.
  { destruct f as [i|e]; [apply bind_inv in H2 as (e & s2 & H2 & [= _ <-]); by eapply keeps_insert_node|by injection H2 as _ <-]. }
  enough ((frame led s s1 ∧ f = inr (-1)) ∨ grown fd s s1) as [[? ->]|Hg]; [left; split; [by etrans|by injection H2]|right; by eapply grown_frame|]. clear H2 Hf1 r s'.
  apply bind_inv in H1 as (v & s2 & Hv & H1). pose proof (keeps_isAddValid env led Hek fd s v s2 Hv) as Hf2. destruct (0 =? v); [injection H1 as <- <-; by left|].
  assert (einv s2 g) as Hi2 by (destruct (isAddValid_run env s fd) as (v' & w & Hv'); rewrite Hv in Hv'; injection Hv' as _ ->; by eapply einvx_soft; [apply soft_world|]).
  apply bind_inv in H1 as (e & s3 & He & H1). destruct (alloc_grown s2 g fd Hi2 Hfd) as [(_ & s3' & Hr & _ & _ & Hf3)|(i & s3' & Hr & _ & _ & Hg & _)]; [by rewrite (info_of_sock s s2 fd (fr_sock _ _ _ Hf2))| |];
    rewrite He in Hr; injection Hr as -> ->.
  - injection H1 as <- <-. left. split; [by etrans|done].
  - right. cbn [Z.eqb] in H1. apply bind_inv in H1 as ([] & s4 & H4 & H1). apply bind_inv in H1 as (j & s5 & H5 & H1). apply bind_inv in H1 as (j' & s6 & H6 & [= _ <-]).
    eapply frame_grown; [exact Hf2|]. eapply grown_frame; [exact Hg|]. transitivity s4; [|transitivity s5; [by eapply keeps_infoBySock|by eapply keeps_lift]].
    revert H4. unfold nsep_set_infoProtoFD, with_info. intros (o & s7 & H7 & H8)%bind_inv. transitivity s7; [by eapply keeps_infoBySock|]. destruct o as [o|]; [|by injection H8 as <-].
    destruct (_ || _); [by injection H8 as <-|]. apply bind_inv in H8 as (p & s8 & H8 & H9). transitivity s8; [by eapply keeps_info_get|]. apply bind_inv in H9 as (p' & s9 & H9 & H10).
    transitivity s9; [by eapply keeps_lift|]. eapply keeps_info_upd; [|exact H10]. done.
Qed.

(** The outcome of a control call: refused with an error, carried out, or, for want of memory, a registration that failed. *)
Definition ctl_result D (epfd : Z) (op : epoll_op) (fd : Z) (event : option epoll_event) (r : Z) D' : Prop :=
  match ctl_errno env (watches D epfd) epfd op fd event with
  | Some e => r = -1 ∧ D' = D
  | None => ∃ m, watches D epfd = Some m ∧
      ((r = 0 ∧ D' = <[epfd := Some (apply_ctl op fd (full_event event) m)]> (learn fd D)) ∨ (op = EPOLL_CTL_ADD ∧ r = -1 ∧ (D' = D ∨ D' = learn fd D)))
  end.

Lemma ctl_frame s g epfd op fd event r s' : einv s g → nstack_epoll_ctl env epfd op fd event s = Some (r, s') →
  (frame led s s' ∧ (op = EPOLL_CTL_ADD → info_of s fd = None → r = -1)) ∨
  (op = EPOLL_CTL_ADD ∧ grown fd s s' ∧ ctl_errno env (ep ← ep_of s epfd; watched s g !! ep) epfd op fd event = None).
Proof.
  intros Hi. assert (Herr : ∀ e, (_ ← set_errno e; mret (-1)) s = Some (r, s') → frame led s s' ∧ (op = EPOLL_CTL_ADD → info_of s fd = None → r = -1)) by (intros e [= <- <-]; split; [by split|done]).
  unfold nstack_epoll_ctl, ctl_errno. destruct (_ || _); [left; by eapply Herr|]. destruct (NSEP_IS_SOCK_VALID env fd) eqn:Hv; cbn [negb]; [|left; by eapply Herr]. apply andb_true_iff in Hv as [Hv1%Z.leb_le Hv2%Z.ltb_lt].
  erewrite bind_run by (by eapply infoBySock_run). destruct (info_of s epfd) as [i|] eqn:Hio; [|left; by eapply Herr]. destruct (info_of_ok env _ _ _ _ _ Hi Hio) as (q & l & Hq & _ & _ & _ & Hlv).
  erewrite bind_run by (apply info_get_run; exact Hq). destruct (info_ep q) as [ep|] eqn:Hqe; [|left; by eapply Herr]. destruct (Hlv ep eq_refl) as (e & rr & He & _).
  assert ((ep ← ep_of s epfd; watched s g !! ep) = Some (interest s (ge_tree e))) as -> by (unfold ep_of; rewrite Hio; cbn; rewrite Hq; cbn; rewrite Hqe; cbn; by apply watched_lookup).
  destruct (bool_decide _); [left; by eapply Herr|]. pose proof (find_ep_cases env [] s g ep e fd Hi He) as Hfind. intros H2.
  unfold epoll_ctl_op in H2. apply bind_inv in H2 as (x & s5 & H5 & H2).
  assert (s5 = s) as -> by (revert H5; unfold epoll_find_ep, tree_of, ep_get, mbind, stM_bind, gets, lift, mret, stM_ret; cbn; repeat case_match; naive_solver).
  destruct op, x as [x|]; try (left; by eapply Herr).
  - destruct (epctl_add_frame s g ep fd _ r s' Hi (conj Hv1 Hv2) H2) as [[? ?]|?]; [by left|]. right. split; [done|]. split; [done|].
    destruct (interest s (ge_tree e) !! fd) as [ev|]; [|done]. destruct Hfind as (y & Hfind & _). rewrite H5 in Hfind. done.
  - left. split; [by eapply keeps_epctl_del|done].
  - left. split; [|done]. apply bind_inv in H2 as (j & s6 & H6 & H7). etrans; [by eapply keeps_infoBySock|by eapply keeps_epctl_mod].
Qed.

Lemma watched_is_Some s g s' g' (A : watch) : watched s' g' = A → (∀ ep, is_Some (A !! ep) → is_Some (watched s g !! ep)) → ∀ ep e', g_eps g' !! ep = Some e' → is_Some (g_eps g !! ep).
Proof. intros <- Hs ep e' He'. apply watched_dom with s, Hs, watched_dom. eauto. Qed.

Lemma ctl_ok_table D D1 m s g r P A fd : einv s g → desc_ok s g D → ctl_ok env m s g r P A → (∀ ep, is_Some (A !! ep) → is_Some (watched s g !! ep)) → (∀ fd', D1 !! fd' = desc_in s A fd') →
  (∀ s', m s = Some (r, s') → frame led s s' ∨ grown fd s s') →
  ∃ s' D', m s = Some (r, s') ∧ led (es_world s') = led (es_world s) ∧ table_inv D' s' ∧ ((frame led s s' ∧ D' = D1) ∨ (grown fd s s' ∧ D' = <[fd := None]> D1)).
Proof.
  intros Hi HD (s' & g' & Hr & Hi' & Hid' & HA & _ & Hh) Hdom HD1 Hf. pose proof (watched_is_Some s g s' g' A HA Hdom) as Hge. destruct (Hf s' Hr) as [Hfr|Hg].
  - exists s', D1. split; [done|]. split; [apply (fr_led _ _ _ Hfr)|]. split; [|by left]. exists g'. split; [done|]. split; [done|].
    eapply desc_ok_keep; [exact HD|done|done|done|]. intros fd'. unfold desc. by rewrite HA, (desc_frame _ _ _ _ Hfr).
  - exists s', (<[fd := None]> D1). split; [done|]. split; [apply (gr_led _ _ _ Hg)|]. split; [|by right]. exists g'. split; [done|]. split; [done|].
    eapply (desc_ok_grow fd); [exact Hi|exact HD|done|done|done|]. intros fd'. unfold desc. rewrite HA, (grown_desc fd fd' s s' A Hg). destruct (decide (fd' = fd)) as [->|]; [by rewrite lookup_insert_eq|by rewrite lookup_insert_ne].
Qed.

(** A descriptor that is watched is known. *)
Lemma watched_known s g D epfd m fd : einv s g → desc_ok s g D → watches D epfd = Some m → is_Some (m !! fd) → is_Some (D !! fd).
Proof.
  intros Hi HD Hm [ev Hev]. destruct (D !! fd) as [o|] eqn:Ho; [eauto|]. apply (known_iff s g D fd Hi HD) in Ho. rewrite (watches_ep s g D epfd HD) in Hm. destruct (ep_of s epfd) as [ep|]; [|done]. cbn in Hm.
  unfold watched in Hm. rewrite lookup_fmap in Hm. apply fmap_Some in Hm as (e & He & ->). apply interest_lookup in Hev as (x & Hx & Hfx & _); [|by eapply tree_sorted].
  destruct (tree_item _ Hi ep e x He Hx) as (it & Hit & _ & _ & _ & _ & Hp). destruct Hp as (i & _ & _ & Hp & _); [apply not_elem_of_nil|]. pose proof (do_home _ _ _ HD x it (ex_intro _ ep (ex_intro _ e (conj He Hx))) Hit) as Hh.
  unfold fd_of in Hfx. rewrite Hit in Hfx. rewrite Hfx, Ho, Hp in Hh. done.
Qed.

Lemma learn_known fd D : is_Some (D !! fd) → learn fd D = D.
Proof. intros [o Ho]. unfold learn. by rewrite Ho. Qed.

Lemma ctl_table D s epfd op fd event : table_inv D s →
  ∃ r s' D', nstack_epoll_ctl env epfd op fd event s = Some (r, s') ∧ led (es_world s') = led (es_world s) ∧ table_inv D' s' ∧ ctl_result D epfd op fd event r D'.
Proof.
  intros (g & Hi & Hid & HD). pose proof (epoll_ctl_spec env s g epfd op fd event Hi Hid) as Hc. pose proof (λ r s', ctl_frame s g epfd op fd event r s' Hi) as Hfr.
  rewrite <- (watches_ep s g D epfd HD) in Hc, Hfr. unfold ctl_result. set (run := nstack_epoll_ctl env epfd op fd event) in *.
  assert (Hsame : ∀ P, ctl_ok env run s g (-1) P (watched s g) → ∃ s' D', run s = Some (-1, s') ∧ led (es_world s') = led (es_world s) ∧ table_inv D' s' ∧ ((frame led s s' ∧ D' = D) ∨ (grown fd s s' ∧ D' = <[fd := None]> D))).
  { intros P Hok. apply (ctl_ok_table D D run s g (-1) P (watched s g) fd); [done|done|done|done|apply (do_table _ _ _ HD)|]. intros s' Hr. destruct (Hfr _ _ Hr) as [[? _]|(_ & ? & _)]; auto. }
  assert (Hgrow : ∀ s', grown fd s s' → D !! fd = None) by (intros s' Hg; apply (known_iff s g D fd Hi HD), (gr_old _ _ _ Hg)).
  destruct (ctl_errno env (watches D epfd) epfd op fd event) as [e|] eqn:Herr.
  { destruct (Hsame _ Hc) as (s' & D' & Hr & Hl & Hti & Hcase). exists (-1), s', D'. split; [done|]. split; [done|]. split; [done|]. split; [done|].
    destruct Hcase as [[_ ?]|[Hg _]]; [done|]. destruct (Hfr _ _ Hr) as [[Hf _]|(_ & _ & ?)]; [|done]. pose proof (gr_old _ _ _ Hg) as H1. destruct (gr_new _ _ _ Hg) as (i & _ & H2 & _).
    rewrite (info_of_sock s s' fd (fr_sock _ _ _ Hf)) in H2. congruence. }
  destruct Hc as (ep & m & Hep & Hm & Hdone). assert (Hw : watches D epfd = Some m) by (rewrite (watches_ep s g D epfd HD), Hep; done).
  assert (Hupd : ∀ m', ctl_ok env run s g 0 (λ _, True) (<[ep := m']> (watched s g)) →
    ∃ s' D', run s = Some (0, s') ∧ led (es_world s') = led (es_world s) ∧ table_inv D' s' ∧ ((frame led s s' ∧ D' = <[epfd := Some m']> D) ∨ (grown fd s s' ∧ D' = <[fd := None]> (<[epfd := Some m']> D)))).
  { intros m' Hok. eapply ctl_ok_table; [done|done|exact Hok| |intros fd'; symmetry; by apply desc_upd|intros s' Hr; destruct (Hfr _ _ Hr) as [[? _]|(_ & ? & _)]; auto].
    intros ep' [v Hv]. destruct (decide (ep' = ep)) as [->|]; [eauto|]. rewrite lookup_insert_ne in Hv by done. eauto. }
  assert (Hne : fd ≠ epfd) by (unfold ctl_errno in Herr; destruct (Z.eqb_spec fd epfd); [rewrite orb_true_r in Herr; done|done]).
  assert (Hkn : op ≠ EPOLL_CTL_ADD → is_Some (D !! fd)).
  { intros Hop. eapply watched_known; [exact Hi|exact HD|exact Hw|]. unfold ctl_errno in Herr. rewrite Hw in Herr. destruct (_ || _); [done|]. destruct (negb _); [done|]. destruct (bool_decide _); [done|]. destruct op; [done| | |]; destruct (m !! fd); try done; eauto. }
  destruct op; cbn [ctl_done] in Hdone; [..|done].
  - destruct Hdone as [[_ Hok]|[_ Hok]].
    + destruct (Hsame _ Hok) as (s' & D' & Hr & Hl & Hti & Hcase). exists (-1), s', D'. split; [done|]. split; [done|]. split; [done|]. exists m. split; [done|]. right. split; [done|]. split; [done|].
      destruct Hcase as [[_ ?]|[Hg ->]]; [by left|right]. unfold learn. by rewrite (Hgrow _ Hg).
    + destruct (Hupd _ Hok) as (s' & D' & Hr & Hl & Hti & Hcase). exists 0, s', D'. split; [done|]. split; [done|]. split; [done|]. exists m. split; [done|]. left. split; [done|]. cbn [apply_ctl].
      destruct Hcase as [[Hf ->]|[Hg ->]]; [|unfold learn; rewrite (Hgrow _ Hg); by apply insert_insert_ne]. rewrite learn_known; [done|]. destruct (D !! fd) as [o|] eqn:Ho; [eauto|]. exfalso.
      apply (known_iff s g D fd Hi HD) in Ho. destruct (Hfr _ _ Hr) as [[_ Hx]|(_ & Hg & _)]; [by specialize (Hx eq_refl Ho)|]. destruct (gr_new _ _ _ Hg) as (i & _ & H2 & _). rewrite (info_of_sock s s' fd (fr_sock _ _ _ Hf)) in H2. congruence.
  - destruct (Hupd _ Hdone) as (s' & D' & Hr & Hl & Hti & Hcase). exists 0, s', D'. split; [done|]. split; [done|]. split; [done|]. exists m. split; [done|]. left. split; [done|].
    specialize (Hkn ltac:(done)). rewrite (learn_known fd D Hkn). destruct Hcase as [[_ ->]|[Hg _]]; [done|]. rewrite (Hgrow _ Hg) in Hkn. by destruct Hkn.
  - specialize (Hkn ltac:(done)). destruct (info_of s fd) as [i|] eqn:Hio; [|apply (known_iff s g D fd Hi HD) in Hio; rewrite Hio in Hkn; by destruct Hkn].
    destruct (Hupd _ Hdone) as (s' & D' & Hr & Hl & Hti & Hcase). exists 0, s', D'. split; [done|]. split; [done|]. split; [done|]. exists m. split; [done|]. left. split; [done|].
    rewrite (learn_known fd D Hkn). destruct Hcase as [[_ ->]|[Hg _]]; [done|]. rewrite (Hgrow _ Hg) in Hkn. by destruct Hkn.
Qed.
End table.
