(* ===== verification/EpollTableOps.v ===== *)
(** * Epoll: a table of descriptors, creation and closing *)
From S2P Require Import Prelude.
From S2P Require Import Queue.
From S2P Require Import RbTree.
From S2P Require Import RbTreeProofs.
From S2P Require Import RbTreeProps.
From S2P Require Import EpList.
From S2P Require Import EpollData.
From S2P Require Import Epoll.
From S2P Require Import EpollPoll.
From S2P Require Import EpollInv.
From S2P Require Import EpollCtl.
From S2P Require Import EpollAlloc.
From S2P Require Import EpollOps.
From S2P Require Import EpollInfo.
From S2P Require Import EpollFrame.
From S2P Require Import EpollProps.
From S2P Require Import EpollClose.
From S2P Require Import EpollFree.
From S2P Require Import EpollTable.

(** What [nstack_epoll_create] does once the descriptor has its record: [nsep_alloc_eventpoll], [ep->epfd = epfd] and [nsep_set_infoEp]; the result is that of the first. *)
Definition epoll_attach {Q W : Type} `{BoundedQueue Q} (env : stack_env W) (epfd : Z) : stM (est Q W) Z :=
  '(e, x) ← nsep_alloc_eventpoll env;
  if negb (e =? 0) then mret e
  else x ← lift x; _ ← ep_upd (set_ep_epfd epfd) x; _ ← nsep_set_infoEp env epfd (Some x); mret 0.

Section ops.
Context {Q W : Type} `{BoundedQueue Q} (env : stack_env W) {L : Type} (led : W → L) (Hek : env_keeps env led).
Abbreviation st := (est Q W).
Abbreviation einvx := (einvx env).
Abbreviation einv := (einv env).
Implicit Types (s : st) (g : ghost) (D : table) (z : list Z).

(** ** A new event poll *)

(** An event poll that is not in use changes. *)
Lemma einvx_ep_out z s g x r r' pool m w : einvx z s g → g_eps g !! x = None → es_eps s !! x = Some r → pool_ok pool (<[x := r']> (es_eps s)) (λ r, alloc_flag (ep_res_chk r)) →
  is_Some (m !! x) → (∀ y, y ≠ x → m !! y = es_rdl s !! y) →
  einvx z (set_es_epPool pool (set_es_eps (<[x := r']> (es_eps s)) (set_es_rdl m (set_es_world w s)))) g.
Proof.
  intros Hi Hx Hr Hp Hmx Hm. pose proof Hi as [H1 H2 H3 H4 H5 H6 H7 H8 H9]. assert (Hix : es_items s !! x = None) by (apply (mo_eps _ H1); eauto). split; try done.
  - destruct H1 as [M1 M2 M3 [M4 M5]]. split; cbn; try done.
    + intros y Hy. destruct (M1 y Hy) as (? & ? & ?). split; [done|]. split; [|done]. rewrite Hm; [done|]. intros ->. rewrite Hix in Hy. by destruct Hy.
    + intros y Hy. destruct (decide (y = x)) as [->|]; [done|]. rewrite lookup_insert_ne in Hy by done. rewrite Hm by done. by apply M2.
    + split; [done|]. by rewrite map_size_insert_Some by eauto.
  - intros ep e He. assert (ep ≠ x) by (intros ->; congruence). destruct (H5 ep e He) as (q & Hq & Hok). exists q. cbn. rewrite lookup_insert_ne by done. split; [done|].
    eapply ep_ok_frame; [..|exact Hok]; try done; cbn; [|intros i l q0 Hil Hiq; by exists l, q0|eauto]. intros y Hy. apply Hm. intros ->. apply elem_of_cons in Hy as [->|Hy]; [done|].
    destruct (tree_item _ Hi ep e x He Hy) as (it & Hit & _). congruence.
  - intros i l Hl. destruct (H6 i l Hl) as (q & Hq & Hok). exists q. split; [done|]. by eapply info_ok_frame; [..|exact Hok].
  - destruct H8 as (mm & M1 & M2 & M3). exists mm. split; [done|]. split; [done|]. cbn. intros fd j Ha. destruct (M3 fd j Ha) as (q & Hq & J1 & J2 & J3). exists q. split; [done|]. split; [done|]. split; [done|].
    intros ep' Hep'. destruct (J3 ep' Hep') as (e' & q' & L1 & L2 & L3). exists e', q'. cbn. rewrite lookup_insert_ne by (intros ->; congruence). done.
Qed.

(** An event poll without items comes into use. *)
Lemma einvx_new_ep z s g x r i : einvx z s g → g_eps g !! x = None → es_eps s !! x = Some r → alloc_flag (ep_res_chk r) = 1 → ep_rbr r = None → ep_ovflist r = NSEP_EP_UNACTIVE_PTR →
  ehlist (es_rdl s) (ep_rdlist r) x [] → info_of s (ep_epfd r) = Some i → einvx z s (gep_upd x (mk_gep [] [] Idle) g).
Proof.
  intros Hi Hx Hr Hfl Hrb Hov Hl Hio. pose proof Hi as [H1 H2 H3 H4 H5 H6 H7 H8 H9]. pose proof H8 as (m & M1 & M2 & M3). split; try done.
  - intros ep e He. cbn in He. destruct (decide (ep = x)) as [->|]; [|rewrite lookup_insert_ne in He by done; destruct (H5 ep e He) as (q & Hq & Hok); exists q; split; [done|]; eapply ep_ok_frame; [..|exact Hok]; try done; [intros j l q0 Hil Hiq; by exists l, q0|eauto]].
    rewrite lookup_insert_eq in He. injection He as <-. exists r. split; [done|]. split; cbn; try done; try (intros y Hy; by apply elem_of_nil in Hy).
    + rewrite Hrb. apply tree_run_inv. by constructor.
    + constructor.
    + exists m, i. split; [done|]. unfold info_of in Hio. rewrite M1 in Hio. cbn in Hio. destruct (aread m (ep_epfd r)) as [o|] eqn:Ha; [|done]. cbn in Hio. subst o. split; [done|]. apply aread_Some in Ha as [? ?%lookup_lt_Some]. lia.
  - intros j l Hj. destruct (H6 j l Hj) as (q & Hq & Hok). exists q. split; [done|]. eapply info_ok_frame; [..|exact Hok]; try done. intros y _ (ep & e & He & Hy). exists ep, e. cbn. rewrite lookup_insert_ne by (intros <-; congruence). done.
  - exists m. split; [done|]. split; [done|]. intros fd j Ha. destruct (M3 fd j Ha) as (q & Hq & J1 & J2 & J3). exists q. split; [done|]. split; [done|]. split; [done|].
    intros ep' Hep'. destruct (J3 ep' Hep') as (e' & q' & L1 & L2 & L3). exists e', q'. cbn. rewrite lookup_insert_ne by (intros <-; congruence). done.
Qed.

Lemma init_eventpoll_run s x r n : es_eps s !! x = Some r → es_rdl s !! x = Some n →
  nsep_init_eventpoll env x s = if 0 =? (se_sem_init env (es_world s)).1
    then Some (0, set_es_eps (<[x := set_ep_epfd (-1) (set_ep_rbr None (set_ep_ovflist NSEP_EP_UNACTIVE_PTR (set_ep_rdlist (mk_ehl (Some x) (Some x)) (set_ep_waitSem 0 r))))]> (es_eps s))
                   (set_es_rdl (<[x := mk_hn None None]> (es_rdl s)) (set_es_world (se_sem_init env (es_world s)).2 s)))
    else Some (-1, set_es_world (se_sem_init env (es_world s)).2 s).
Proof.
  intros Hr Hn. unfold nsep_init_eventpoll. erewrite bind_run by apply ask_run. destruct (0 =? _); [|done]. cbn [negb]. erewrite bind_run by (apply ep_upd_run; exact Hr).
  erewrite bind_run by (eapply rdlist_upd_run; [apply lookup_insert_eq|]; unfold EP_HLIST_INIT; cbn [es_rdl set_es_eps set_es_world]; rewrite (init_node_eq _ _ _ Hn); done).
  erewrite bind_run by (apply ep_upd_run; apply lookup_insert_eq). unfold mret, stM_ret, set_es_eps, set_es_rdl, set_es_world. cbn. rewrite !insert_insert_eq. done.
Qed.

(** An event poll comes out of the pool, ready for use, or there is none or its semaphore cannot be had. *)
Lemma alloc_eventpoll_spec s g : einv s g →
  (∃ s', nsep_alloc_eventpoll env s = Some ((-1, None), s') ∧ einv s' g ∧ es_items s' = es_items s ∧ frame led s s') ∨
  (∃ x r m w pool, nsep_alloc_eventpoll env s = Some ((0, Some x), set_es_epPool pool (set_es_eps (<[x := r]> (es_eps s)) (set_es_rdl m (set_es_world w s)))) ∧
    einv (set_es_epPool pool (set_es_eps (<[x := r]> (es_eps s)) (set_es_rdl m (set_es_world w s)))) g ∧ g_eps g !! x = None ∧ is_Some (es_eps s !! x) ∧
    alloc_flag (ep_res_chk r) = 1 ∧ ep_rbr r = None ∧ ep_ovflist r = NSEP_EP_UNACTIVE_PTR ∧ ehlist m (ep_rdlist r) x [] ∧ led w = led (es_world s)).
Proof.
  intros Hi. pose proof (ei_epool _ _ _ _ Hi) as Hp. pose proof (pool_dequeue_spec es_epPool set_es_epPool s (po_inv _ _ _ Hp)) as Hd. unfold nsep_alloc_eventpoll.
  destruct (q_contents (es_epPool s)) as [|x l] eqn:Hc; destruct Hd as (pq & Hd & Q1 & Q2 & Q3); erewrite bind_run by exact Hd; cbn [Z.eqb orb].
  { left. eexists. split; [done|]. split; [|split; [done|by split]]. apply (einvx_pools env [] s g (es_itemPool s) pq (es_infoPool s)); [done|apply Hi| |apply Hi]. destruct Hp as [P1 P2 P3 P4 P5].
    split; [done| | |by rewrite Q2|done]; rewrite Q3; [constructor|intros y Hy; by apply elem_of_nil in Hy]. }
  destruct (po_free _ _ _ Hp x) as (r0 & Hr0 & Hfl); [rewrite Hc; left|]. assert (x ≠ 0) as Hx0 by (intros ->; rewrite (po_null _ _ _ Hp) in Hr0; done). destruct (Z.eqb_spec x 0) as [|_]; [done|]. cbn [orb].
  assert (Hgx : g_eps g !! x = None).
  { destruct (g_eps g !! x) as [e|] eqn:He; [|done]. destruct (ei_eps _ _ _ _ Hi x e He) as (r & Hr & Hok). rewrite Hr0 in Hr. injection Hr as <-. pose proof (eo_flag _ _ _ _ _ _ _ Hok). congruence. }
  set (r1 := set_ep_pid (se_pid env) (set_ep_res_chk (res_alloc (ep_res_chk r0)) r0)). set (s1 := set_es_eps (<[x := r1]> (es_eps s)) (set_es_epPool pq s)).
  rewrite (bind_run _ _ _ tt s1) by exact (ep_upd_run _ x (set_es_epPool pq s) r0 Hr0). destruct (mo_eps _ (ei_mem _ _ _ _ Hi) x) as [[n Hn] _]; [eauto|].
  assert (Hpool : ∀ r', pool_ok pq (<[x := r']> (es_eps s)) (λ r, alloc_flag (ep_res_chk r))).
  { intros r'. pose proof (po_nodup _ _ _ Hp) as Hnd. rewrite Hc in Hnd. apply NoDup_cons in Hnd as [Hxl Hnd]. eapply pool_ok_sub; [exact Hp|done|done|by rewrite Q3| |eauto|rewrite lookup_insert_eq; eauto|intros y Hy; by apply lookup_insert_ne].
    rewrite Q3, Hc. intros y Hy. split; [by right|]. by intros ->. }
  pose proof (init_eventpoll_run s1 x r1 n (lookup_insert_eq _ _ _) Hn) as Hinit. cbn [s1 es_world set_es_eps set_es_epPool] in Hinit. set (w := (se_sem_init env (es_world s)).2) in *.
  destruct (Z.eqb_spec 0 (se_sem_init env (es_world s)).1) as [_|_]; erewrite bind_run by exact Hinit; cbn [Z.eqb negb].
  - right. exists x. eexists _, (<[x := mk_hn None None]> (es_rdl s)), w, pq. split; [unfold mret, stM_ret, s1, set_es_eps, set_es_rdl, set_es_world, set_es_epPool; cbn; rewrite insert_insert_eq; done|].
    split; [|split; [done|split; [eauto|split; [done|split; [done|split; [done|split; [|by apply (ek_sem _ _ Hek)]]]]]]].
    + eapply einvx_ep_out; [done|done|done|apply Hpool|rewrite lookup_insert_eq; eauto|intros y Hy; by apply lookup_insert_ne].
    + split; [done|done|apply NoDup_singleton|]. cbn. by rewrite hn_get_insert, decide_True.
  - left. destruct (free_eventpoll_run (set_es_world w s1) x r1) as (r' & pool & Hrun & Hpk & Hfd); [apply lookup_insert_eq|done|apply Hpool|]. erewrite bind_run by exact Hrun.
    replace (set_es_epPool pool _) with (set_es_epPool pool (set_es_eps (<[x := r']> (es_eps s)) (set_es_rdl (es_rdl s) (set_es_world w s)))) by (unfold s1, set_es_eps, set_es_rdl, set_es_world, set_es_epPool; cbn; by rewrite insert_insert_eq).
    eexists. split; [done|]. split; [|split; [done|]].
    + eapply einvx_ep_out; [done|done|done| |eauto|done]. cbn in Hpk. by rewrite insert_insert_eq in Hpk.
    + split; try done; [|apply (ek_sem _ _ Hek)]. cbn. intros y. destruct (decide (y = x)) as [->|]; [rewrite lookup_insert_eq, Hr0; cbn; by rewrite Hfd|by rewrite lookup_insert_ne].
Qed.

(** The record of a descriptor that is no epoll descriptor. *)
Lemma plain_info s g D fd : einv s g → desc_ok env s g D → D !! fd = Some None →
  ∃ i r l, info_of s fd = Some i ∧ es_infos s !! i = Some r ∧ g_fl g !! i = Some l ∧ info_ok [] s g i l r ∧ info_fd r = fd ∧ info_ep r = None ∧ ∀ ep e q, g_eps g !! ep = Some e → es_eps s !! ep = Some q → ep_epfd q ≠ fd.
Proof.
  intros Hi HD Hn. rewrite (do_table _ _ _ _ HD) in Hn. unfold desc, desc_in in Hn. destruct (info_of s fd) as [i|] eqn:Hio; [|done]. destruct (info_of_ok env _ _ _ _ _ Hi Hio) as (r & l & Hr & Hl & Hok & Hfd & _). cbn in Hn.
  rewrite Hr in Hn. cbn in Hn. destruct (info_ep r) as [ep|] eqn:Hep; [by destruct (watched s g !! ep)|]. exists i, r, l. do 6 (split; [done|]). intros ep e q He Hq <-. pose proof (do_live _ _ _ _ HD ep e q He Hq) as Hl2.
  unfold ep_of in Hl2. rewrite Hio in Hl2. cbn in Hl2. rewrite Hr in Hl2. cbn in Hl2. congruence.
Qed.

(** Two descriptors have different informations. *)
Lemma info_of_inj s g fd fd' i : einv s g → info_of s fd = Some i → info_of s fd' = Some i → fd = fd'.
Proof.
  intros Hi H1 H2. destruct (info_of_ok env _ _ _ _ _ Hi H1) as (r & l & Hr & _ & _ & <- & _), (info_of_ok env _ _ _ _ _ Hi H2) as (r' & l' & Hr' & _ & _ & <- & _). congruence.
Qed.

Lemma attach_desc D s g s' x r i q : einv s g → desc_ok env s g D → info_of s (ep_epfd r) = Some i → D !! ep_epfd r = Some None → g_eps g !! x = None → es_infos s !! i = Some q →
  (∀ y, y ≠ x → es_eps s' !! y = es_eps s !! y) → es_eps s' !! x = Some r → es_sockMap s' = es_sockMap s → es_items s' = es_items s →
  es_infos s' = <[i := set_info_fdtype NSTACK_EPOL_FD (set_info_ep (Some x) q)]> (es_infos s) → desc_ok env s' (gep_upd x (mk_gep [] [] Idle) g) (<[ep_epfd r := Some ∅]> D).
Proof.
  intros Hi HD Hio Hn Hx Hq Hy Hr Hsk Hit Hinf. pose proof (λ fd, info_of_sock s s' fd Hsk) as Hof. destruct (plain_info s g D (ep_epfd r) Hi HD Hn) as (i' & q' & l & Hio' & Hq' & _ & _ & _ & _ & Hlive).
  rewrite Hio in Hio'. injection Hio' as <-. rewrite Hq in Hq'. injection Hq' as <-. set (g' := gep_upd x (mk_gep [] [] Idle) g).
  assert (Hw : watched s' g' = <[x := ∅]> (watched s g)) by (unfold g'; rewrite watched_upd; cbn; f_equal; by apply watched_items).
  assert (Hoth : ∀ fd' j r', info_of s' fd' = Some j → es_infos s' !! j = Some r' → fd' ≠ ep_epfd r → info_of s fd' = Some j ∧ es_infos s !! j = Some r').
  { intros fd' j r' Hj Hr' Hne. rewrite Hof in Hj. split; [done|]. rewrite Hinf, lookup_insert_ne in Hr'; [done|]. intros <-. apply Hne. by eapply info_of_inj. }
  assert (Hsame : ∀ r', info_of s' (ep_epfd r) = Some i ∧ (es_infos s' !! i = Some r' → r' = set_info_fdtype NSTACK_EPOL_FD (set_info_ep (Some x) q))).
  { intros r'. rewrite Hof, Hinf, lookup_insert_eq. split; [done|]. by intros [= <-]. }
  split.
  - intros fd'. unfold desc, desc_in. rewrite Hw, Hof. destruct (decide (fd' = ep_epfd r)) as [->|Hne].
    + rewrite lookup_insert_eq, Hio. cbn. rewrite Hinf, lookup_insert_eq. cbn. by rewrite lookup_insert_eq.
    + rewrite lookup_insert_ne, (do_table _ _ _ _ HD) by done. unfold desc, desc_in. destruct (info_of s fd') as [j|] eqn:Hj; [|done]. cbn. rewrite Hinf, lookup_insert_ne by (intros <-; apply Hne; by eapply info_of_inj).
      destruct (info_of_ok env _ _ _ _ _ Hi Hj) as (rj & lj & Hrj & _ & _ & _ & Hlj). rewrite Hrj. cbn. destruct (info_ep rj) as [ep|] eqn:Hepj; [|done]. destruct (Hlj ep eq_refl) as (e & qq & He & _).
      by rewrite lookup_insert_ne by (intros <-; congruence).
  - intros ep e' r' He' Hr'. cbn in He'. destruct (decide (ep = x)) as [->|Hne].
    + rewrite Hr in Hr'. injection Hr' as <-. unfold ep_of. rewrite Hof, Hio. cbn. rewrite Hinf, lookup_insert_eq. done.
    + rewrite lookup_insert_ne in He' by done. rewrite Hy in Hr' by done. pose proof (do_live _ _ _ _ HD ep e' r' He' Hr') as Hl2. pose proof (Hlive ep e' r' He' Hr') as Hnf. unfold ep_of in *. rewrite Hof.
      destruct (info_of s (ep_epfd r')) as [j|] eqn:Hj; [|done]. cbn in *. rewrite Hinf, lookup_insert_ne; [done|]. intros <-. apply Hnf. by eapply info_of_inj.
  - intros fd' j r' Hj Hr'. destruct (decide (fd' = ep_epfd r)) as [->|Hne].
    + destruct (Hsame r') as [Hj' Hs]. rewrite Hj in Hj'. injection Hj' as ->. rewrite (Hs Hr'). cbn. split; [eauto|done].
    + destruct (Hoth fd' j r' Hj Hr' Hne). by eapply (do_type _ _ _ _ HD).
  - intros fd' j r' Hj Hr'. destruct (decide (fd' = ep_epfd r)) as [->|Hne].
    + destruct (Hsame r') as [Hj' Hs]. rewrite Hj in Hj'. injection Hj' as ->. rewrite (Hs Hr'). cbn. by eapply (do_pids _ _ _ _ HD).
    + destruct (Hoth fd' j r' Hj Hr' Hne). by eapply (do_pids _ _ _ _ HD).
  - intros y it [Hin|Hin]%in_tree_upd Hity; [by apply elem_of_nil in Hin|]. rewrite Hof. rewrite Hit in Hity. by eapply (do_home _ _ _ _ HD).
Qed.

(** A known descriptor becomes an epoll descriptor without interests. *)
Lemma attach_table D s fd : table_inv env D s → D !! fd = Some None →
  ∃ r s', epoll_attach env fd s = Some (r, s') ∧ led (es_world s') = led (es_world s) ∧ ((r = -1 ∧ table_inv env D s') ∨ (r = 0 ∧ table_inv env (<[fd := Some ∅]> D) s')).
Proof.
  intros (g & Hi & Hid & HD) Hn. unfold epoll_attach. destruct (alloc_eventpoll_spec s g Hi) as [(s' & Hr & Hi' & He & Hf)|(x & r & m & w & pool & Hr & Hi1 & Hgx & [r0 Hr0] & F1 & F2 & F3 & F4 & Hw)]; erewrite bind_run by exact Hr; cbn [Z.eqb negb].
  { exists (-1), s'. split; [done|]. split; [apply (fr_led _ _ _ Hf)|]. left. split; [done|]. exact (table_keep env led D s s' g Hi Hid HD Hf Hi' He). }
  rewrite (bind_run _ _ _ x _ eq_refl). set (s1 := set_es_epPool _ _) in *. set (r' := set_ep_epfd fd r). destruct (plain_info s g D fd Hi HD Hn) as (i & q & l & Hio & Hq & Hl & Hok & Hqf & Hqe & _).
  set (s2 := set_es_eps (<[x := r']> (es_eps s1)) s1). rewrite (bind_run _ _ _ tt s2) by exact (ep_upd_run _ x s1 r (lookup_insert_eq _ _ _)).
  assert (Hi2 : einv s2 g).
  { change s2 with (set_es_epPool (es_epPool s1) (set_es_eps (<[x := r']> (es_eps s1)) (set_es_rdl (es_rdl s1) (set_es_world (es_world s1) s1)))).
    eapply einvx_ep_out; [done|done|apply lookup_insert_eq| | |done].
    - eapply pool_ok_frame; [|exact (ei_epool _ _ _ _ Hi1)]. intros y. cbn. destruct (decide (y = x)) as [->|]; [by rewrite !lookup_insert_eq|by rewrite !lookup_insert_ne].
    - apply (mo_eps _ (ei_mem _ _ _ _ Hi1) x). cbn. rewrite lookup_insert_eq. eauto. }
  assert (Hr' : es_eps s2 !! x = Some r') by apply lookup_insert_eq. assert (Hio2 : info_of s2 fd = Some i) by done.
  pose proof (einvx_new_ep [] s2 g x r' i Hi2 Hgx Hr' F1 F2 F3 F4 Hio2) as Hi3. set (g' := gep_upd x (mk_gep [] [] Idle) g) in *.
  set (q' := set_info_fdtype NSTACK_EPOL_FD (set_info_ep (Some x) q)). set (s3 := set_es_infos (<[i := q']> (es_infos s2)) s2).
  rewrite (bind_run _ _ _ tt s3); cycle 1.
  { unfold nsep_set_infoEp, with_info. erewrite bind_run by (by eapply infoBySock_run). rewrite Hio2. exact (info_upd_run _ i s2 q Hq). }
  exists 0, s3. split; [done|]. split; [exact Hw|]. right. split; [done|]. exists g'. split; [|split; [by apply idle_upd|]].
  - eapply einvx_info; [exact Hi3|exact Hl|exact Hq|]. destruct Hok as [O1 O2 O3 O4 O5 O6 O7]. split; [done|done|done|done|done|done|]. cbn. intros ep [= <-]. right. exists (mk_gep [] [] Idle), r'.
    split; [apply lookup_insert_eq|]. split; [done|]. by rewrite Hqf.
  - apply (attach_desc D s g s3 x r' i q); try done. cbn. intros y Hy. by rewrite !lookup_insert_ne.
Qed.

(** ** Closing *)

Lemma interest_gone s s' (T l : list Z) fd : fd_sorted (fd_of s) T → (∀ y, y ∈ T → y ∈ l ↔ fd_of s y = fd) → same_items s s' (λ y, y ∉ l) →
  interest s' (filter (λ y, y ∉ l) T) = delete fd (interest s T).
Proof.
  intros Hs Hl Hsame. assert (Hv : ∀ y, y ∉ l → fd_of s' y = fd_of s y ∧ event_of s' y = event_of s y) by (intros y Hy; by apply (same_view s s' (λ y, y ∉ l))).
  assert (Hs' : fd_sorted (fd_of s') (filter (λ y, y ∉ l) T)).
  { eapply fd_sorted_ext; [|by apply sorted_filter]. intros y [Hy _]%list_elem_of_filter. by apply Hv. }
  apply map_eq. intros k. apply option_eq. intros ev. rewrite interest_lookup by done. rewrite lookup_delete_Some, interest_lookup by done. split.
  - intros (y & [Hyl Hy]%list_elem_of_filter & <- & <-). destruct (Hv y Hyl) as [-> ->]. split; [|eauto]. intros ->. by apply Hyl, Hl.
  - intros (Hne & y & Hy & <- & <-). assert (y ∉ l) as Hyl by (rewrite Hl by done; intros Heq; by apply Hne). destruct (Hv y Hyl) as [<- <-]. exists y. split; [by apply list_elem_of_filter|done].
Qed.

(** What remains true of the other descriptors when one is forgotten. *)
Record forgets (fd : Z) s g s' g' : Prop := {
  fg_map : ∀ fd', fd' ≠ fd → info_of s' fd' = info_of s fd';
  fg_gone : info_of s' fd = None;
  fg_infos : ∀ fd' j, fd' ≠ fd → info_of s fd' = Some j → ikey <$> (es_infos s' !! j) = ikey <$> (es_infos s !! j);
  fg_eps : ∀ ep e' r', g_eps g' !! ep = Some e' → es_eps s' !! ep = Some r' → ∃ e r, g_eps g !! ep = Some e ∧ es_eps s !! ep = Some r ∧ ep_epfd r' = ep_epfd r ∧ ep_epfd r ≠ fd;
  fg_watch : ∀ ep fd', fd' ≠ fd → ep_of s fd' = Some ep → watched s' g' !! ep = delete fd <$> (watched s g !! ep);
  fg_items : ∀ x it', in_tree g' x → es_items s' !! x = Some it' →
    ∃ it, in_tree g x ∧ es_items s !! x = Some it ∧ epi_fd it' = epi_fd it ∧ epi_private_data it' = epi_private_data it ∧ epi_fd it ≠ fd
}.

Lemma forgets_desc D s g s' g' fd : desc_ok env s g D → forgets fd s g s' g' → desc_ok env s' g' (close_desc fd D).
Proof.
  intros HD [F1 F2 F3 F4 F5 F6].
  assert (Hinf : ∀ fd' j r', info_of s' fd' = Some j → es_infos s' !! j = Some r' → ∃ r, info_of s fd' = Some j ∧ es_infos s !! j = Some r ∧ ikey r' = ikey r).
  { intros fd' j r' Hj Hr'. destruct (decide (fd' = fd)) as [->|Hne]; [congruence|]. rewrite F1 in Hj by done. pose proof (F3 fd' j Hne Hj) as Hk. rewrite Hr' in Hk. cbn in Hk. symmetry in Hk. apply fmap_Some in Hk as (r & Hr & Hk). eauto. }
  split.
  - intros fd'. unfold close_desc. rewrite lookup_fmap. destruct (decide (fd' = fd)) as [->|Hne]; [rewrite lookup_delete_eq; unfold desc, desc_in; by rewrite F2|].
    rewrite lookup_delete_ne, (do_table _ _ _ _ HD) by done. unfold desc, desc_in. rewrite F1 by done. destruct (info_of s fd') as [j|] eqn:Hj; [|done]. cbn. pose proof (F3 fd' j Hne Hj) as Hk.
    destruct (es_infos s' !! j) as [r'|], (es_infos s !! j) as [r|] eqn:Hr; try done. cbn in *. injection Hk as _ K2 _ _ _. rewrite K2. destruct (info_ep r) as [ep|] eqn:Hep; [|done].
    rewrite (F5 ep fd' Hne) by (unfold ep_of; rewrite Hj; cbn; by rewrite Hr). by destruct (watched s g !! ep).
  - intros ep e' r' He' Hr'. destruct (F4 ep e' r' He' Hr') as (e & r & He & Hr & -> & Hne). pose proof (do_live _ _ _ _ HD ep e r He Hr) as Hl. unfold ep_of in *. rewrite F1 by done.
    destruct (info_of s (ep_epfd r)) as [j|] eqn:Hj; [|done]. cbn in *. pose proof (F3 _ j Hne Hj) as Hk. destruct (es_infos s' !! j), (es_infos s !! j); try done. cbn in *. injection Hk as _ -> _ _ _. done.
  - intros fd' j r' Hj Hr'. destruct (Hinf fd' j r' Hj Hr') as (r & J1 & J2 & [= K1 K2 K3 K4 K5]). rewrite K2, K3. by eapply (do_type _ _ _ _ HD).
  - intros fd' j r' Hj Hr'. destruct (Hinf fd' j r' Hj Hr') as (r & J1 & J2 & [= K1 K2 K3 K4 K5]). rewrite K5. by eapply (do_pids _ _ _ _ HD).
  - intros x it' Hx Hit'. destruct (F6 x it' Hx Hit') as (it & Hx0 & Hit & -> & -> & Hne). rewrite F1 by done. by eapply (do_home _ _ _ _ HD).
Qed.

Lemma set_infoSockMap_run' s fd m : es_sockMap s = Some m → 0 <= fd < se_kernel_fd_max env → 0 <= fd < Z.of_nat (length m) →
  nsep_set_infoSockMap env fd None s = Some (tt, set_es_sockMap (Some (<[Z.to_nat fd := None]> m)) s).
Proof.
  intros Hm Hfd Hlen. unfold nsep_set_infoSockMap, mbind, stM_bind, gets. rewrite Hm. destruct (Z.ltb_spec fd 0), (Z.leb_spec (se_kernel_fd_max env) fd); try lia. cbn. unfold lift. rewrite awrite_Some by lia. done.
Qed.

Lemma set_infoSockMap_run z s g fd m : einvx z s g → es_sockMap s = Some m → 0 <= fd < se_kernel_fd_max env →
  nsep_set_infoSockMap env fd None s = Some (tt, set_es_sockMap (Some (<[Z.to_nat fd := None]> m)) s).
Proof.
  intros Hi Hm Hfd. destruct (ei_sock _ _ _ _ Hi) as (m' & Hm' & Hlen & _). rewrite Hm in Hm'. injection Hm' as <-. apply set_infoSockMap_run'; [done|done|lia].
Qed.

Lemma info_of_unmap s m fd fd' : es_sockMap s = Some m → 0 <= fd < Z.of_nat (length m) →
  info_of (set_es_sockMap (Some (<[Z.to_nat fd := None]> m)) s) fd' = if decide (fd' = fd) then None else info_of s fd'.
Proof. intros Hm Hfd. unfold info_of. rewrite Hm. cbn. rewrite aread_insert by lia. by destruct (decide (fd' = fd)). Qed.

Lemma info_of_range z s g fd i : einvx z s g → info_of s fd = Some i → ∃ m, es_sockMap s = Some m ∧ 0 <= fd < se_kernel_fd_max env ∧ 0 <= fd < Z.of_nat (length m).
Proof.
  intros Hi Hio. destruct (ei_sock _ _ _ _ Hi) as (m & Hm & Hlen & _). exists m. split; [done|]. unfold info_of in Hio. rewrite Hm in Hio. cbn in Hio. destruct (aread m fd) as [o|] eqn:Ha; [|done].
  apply aread_Some in Ha as [? ?%lookup_lt_Some]. lia.
Qed.

(** Another information changes, or goes back to its pool. *)
Lemma forgets_info fd s g s2 g2 s3 g3 i : forgets fd s g s2 g2 → (∀ fd', fd' ≠ fd → info_of s fd' ≠ Some i) → (∀ j, j ≠ i → es_infos s3 !! j = es_infos s2 !! j) →
  es_sockMap s3 = es_sockMap s2 → es_eps s3 = es_eps s2 → es_items s3 = es_items s2 → g_eps g3 = g_eps g2 → forgets fd s g s3 g3.
Proof.
  intros [F1 F2 F3 F4 F5 F6] Hi Hj Hsk Hep Hit Hg. assert (Hin : ∀ x, in_tree g3 x ↔ in_tree g2 x) by (intros x; unfold in_tree; by rewrite Hg). split.
  - intros fd' Hne. rewrite (info_of_sock s2 s3 fd' Hsk). auto.
  - by rewrite (info_of_sock s2 s3 fd Hsk).
  - intros fd' j Hne Hf. rewrite Hj; [eauto|]. intros ->. by apply (Hi fd').
  - intros ep e' r'. rewrite Hg, Hep. apply F4.
  - intros ep fd' Hne Hf. rewrite <- (F5 ep fd' Hne Hf), <- (watched_items s2 s3 g2 Hit). unfold watched. by rewrite Hg.
  - intros x it'. rewrite Hin, Hit. apply F6.
Qed.

(** All items of the descriptor are on the list of its information. *)
Lemma items_of_fd D s g fd i r l ep e x : einv s g → desc_ok env s g D → info_of s fd = Some i → es_infos s !! i = Some r → g_fl g !! i = Some l → info_fd r = fd →
  g_eps g !! ep = Some e → x ∈ ge_tree e → x ∈ l ↔ fd_of s x = fd.
Proof.
  intros Hi HD Hio Hr Hl Hfd He Hx. unfold fd_of. split.
  - intros Hxl. destruct (listed_item env s g i l r x Hi Hl Hr Hxl) as (_ & _ & it & _ & _ & -> & _ & Hf & _). congruence.
  - destruct (tree_item _ Hi ep e x He Hx) as (it & Hit & _ & _ & _ & _ & Hp). rewrite Hit. intros Hf. destruct Hp as (j & lj & rj & J1 & J2 & J3 & _); [apply not_elem_of_nil|].
    pose proof (do_home _ _ _ _ HD x it (ex_intro _ ep (ex_intro _ e (conj He Hx))) Hit) as Hh. rewrite Hf, Hio, J1 in Hh. injection Hh as <-. congruence.
Qed.

Lemma removed_forgets D s g fd i r l m s1 s2 g2 : einv s g → desc_ok env s g D → info_of s fd = Some i → es_infos s !! i = Some r → g_fl g !! i = Some l → info_fd r = fd →
  (∀ ep e q, g_eps g !! ep = Some e → es_eps s !! ep = Some q → ep_epfd q ≠ fd) → es_sockMap s = Some m → 0 <= fd < Z.of_nat (length m) →
  s1 = set_es_sockMap (Some (<[Z.to_nat fd := None]> m)) s → frame led s1 s2 → gone l (fl_upd i [] g) g2 → same_items s1 s2 (λ y, y ∉ l) → forgets fd s g s2 g2.
Proof.
  intros Hi HD Hio Hr Hl Hfd Hlive Hm Hrng -> Hf Hg Hsame. pose proof (λ fd', info_of_unmap s m fd fd' Hm Hrng) as Hun. set (s1 := set_es_sockMap _ s) in *.
  assert (Hof : ∀ fd', info_of s2 fd' = if decide (fd' = fd) then None else info_of s fd') by (intros fd'; by rewrite <- Hun, (info_of_sock s1 s2 fd' (fr_sock _ _ _ Hf))).
  assert (Hgt : ∀ ep, ge_tree <$> (g_eps g2 !! ep) = (λ e, filter (λ y, y ∉ l) (ge_tree e)) <$> (g_eps g !! ep)) by exact (proj2 Hg). split.
  - intros fd' Hne. by rewrite Hof, decide_False.
  - by rewrite Hof, decide_True.
  - intros fd' j _ _. apply (fr_infos _ _ _ Hf j).
  - intros ep e' r' He' Hr'. specialize (Hgt ep). rewrite He' in Hgt. cbn in Hgt. symmetry in Hgt. apply fmap_Some in Hgt as (e & He & _). pose proof (fr_epfd _ _ _ Hf ep) as Hk. rewrite Hr' in Hk. cbn in Hk. symmetry in Hk.
    apply fmap_Some in Hk as (q & Hq & Hqf). exists e, q. split; [done|]. split; [done|]. split; [done|]. by eapply Hlive.
  - intros ep fd' _ _. unfold watched. rewrite !lookup_fmap. specialize (Hgt ep). destruct (g_eps g2 !! ep) as [e'|], (g_eps g !! ep) as [e|] eqn:He; try done. cbn in *. injection Hgt as ->. f_equal.
    apply (interest_gone s1 s2); [exact (tree_sorted env [] s g ep e Hi He)|intros y Hy; exact (items_of_fd D s g fd i r l ep e y Hi HD Hio Hr Hl Hfd He Hy)|done].
  - intros x it' [Hx Hxl]%(gone_in_tree l (fl_upd i [] g) g2 x Hg) Hit'. specialize (Hsame x Hxl). rewrite Hit' in Hsame. cbn in Hsame. symmetry in Hsame. apply fmap_Some in Hsame as (it & Hit & Hk).
    destruct Hx as (ep & e & He & Hx). exists it. split; [by exists ep, e|]. split; [done|]. unfold set_epi_revents in Hk. injection Hk as _ _ _ _ _ _ _ K1 _ K2 _. split; [done|]. split; [done|].
    intros Heq. apply Hxl. eapply items_of_fd; [exact Hi|exact HD|exact Hio|exact Hr|exact Hl|done|exact He|exact Hx|]. unfold fd_of. cbn in Hit. by rewrite Hit.
Qed.

(** [nsep_free_epinfo] on an information that no descriptor has. *)
Lemma free_unmapped fd s0 g0 s g i r : forgets fd s0 g0 s g → (∀ fd', fd' ≠ fd → info_of s0 fd' ≠ Some i) → einv s g → g_fl g !! i = Some [] → es_infos s !! i = Some r →
  ∃ s' g', nsep_free_epinfo i s = Some (0, s') ∧ einv s' g' ∧ g_eps g' = g_eps g ∧ forgets fd s0 g0 s' g' ∧ es_world s' = es_world s ∧ q_contents (es_infoPool s') = q_contents (es_infoPool s) ++ [i].
Proof.
  intros Hfg Hne Hi Hl Hr. destruct (ei_infos _ _ _ _ Hi i [] Hl) as (r' & Hr' & Hok). rewrite Hr in Hr'. injection Hr' as <-.
  destruct (free_epinfo_run s i r Hr (io_flag _ _ _ _ _ _ Hok) (ei_fpool _ _ _ _ Hi)) as (r' & pool & Hrun & Hp & Hc). eexists _, (mk_gh (g_eps g) (delete i (g_fl g))). split; [exact Hrun|]. split; [|split; [done|split; [|done]]].
  - apply (einvx_free_info env [] s g i r); [done|done|done| |done]. intros fd'. destruct (decide (fd' = fd)) as [->|Hn]; [by rewrite (fg_gone _ _ _ _ _ Hfg)|]. rewrite (fg_map _ _ _ _ _ Hfg) by done. by apply Hne.
  - apply (forgets_info fd s0 g0 s g _ _ i); try done. intros j Hj. cbn. by rewrite lookup_insert_ne.
Qed.

Lemma idle_eps g g' : g_eps g' = g_eps g → idle g → idle g'.
Proof. unfold idle. by intros ->. Qed.

(** An information is freed at once only when every module has its bit in [epaddflag]. *)
Definition kept_open s (i : Z) : Prop := ∃ r, es_infos s !! i = Some r ∧ module_missing (Z.to_nat (se_modNum env)) 0 (info_epaddflag r) = true.

Context (Hmal : ∀ w, (se_malloc env w).1 = true).

Lemma close_plain D s fd : table_inv env D s → D !! fd = Some None →
  ∃ s', nsep_epoll_close env fd s = Some (0, s') ∧ led (es_world s') = led (es_world s) ∧ table_inv env (close_desc fd D) s' ∧
    (∀ i, info_of s fd = Some i → kept_open s i → q_contents (es_infoPool s') = q_contents (es_infoPool s)).
Proof.
  intros (g & Hi & Hid & HD) Hn. destruct (plain_info s g D fd Hi HD Hn) as (i & r & l & Hio & Hr & Hl & Hok & Hqf & Hqe & Hlive). destruct (info_of_range [] s g fd i Hi Hio) as (m & Hm & Hrng & Hrng').
  assert (Hft : info_fdtype r ≠ NSTACK_EPOL_FD) by (rewrite (do_type _ _ _ _ HD fd i r Hio Hr), Hqe; by intros []).
  set (s1 := set_es_sockMap (Some (<[Z.to_nat fd := None]> m)) s). pose proof (einvx_unmap env [] s g fd m Hi Hm Hrng Hlive) as Hi1.
  destruct (remove_epfd_spec env s1 g i l r Hmal Hi1 Hid Hl Hr) as (s2 & g2 & Hrun & Hi2 & Hid2 & Hg2 & Hs2). pose proof (keeps_remove_epfd env led Hek (Some i) s1 tt s2 Hrun) as Hf.
  pose proof (removed_forgets D s g fd i r l m s1 s2 g2 Hi HD Hio Hr Hl Hqf Hlive Hm Hrng' eq_refl Hf Hg2 Hs2) as Hfg.
  unfold nsep_epoll_close. erewrite bind_run by (by eapply infoBySock_run). rewrite Hio. erewrite bind_run by (apply info_get_run; exact Hr). destruct (Z.eqb_spec NSTACK_EPOL_FD (info_fdtype r)); [congruence|].
  erewrite bind_run by (by eapply set_infoSockMap_run). erewrite bind_run by (apply info_get_run; exact Hr). destruct (module_missing _ _ _) eqn:Hmm; cbn [negb].
  - exists s2. unfold nsp_epoll_close_spl_fd. erewrite bind_run by exact Hrun. split; [done|]. split; [apply (fr_led _ _ _ Hf)|]. split; [exists g2; split; [done|]; split; [done|by eapply forgets_desc]|]. intros j _ _. apply (fr_fpool _ _ _ Hf).
  - unfold nsp_epoll_close_kernel_fd, info_del_last_pid. erewrite bind_run by exact Hrun. destruct (fmap_eq_Some _ _ _ _ (fr_infos _ _ _ Hf i) Hr) as (r2 & Hr2 & [= _ _ _ _ Hpid]).
    destruct (do_pids _ _ _ _ HD fd i r Hio Hr) as (p' & Hp'). rewrite <- Hpid in Hp'. assert (Hl2 : g_fl g2 !! i = Some []) by (rewrite (proj1 Hg2); cbn; apply lookup_insert_eq).
    destruct (ei_infos _ _ _ _ Hi2 i [] Hl2) as (r2' & Hr2' & Hok2). rewrite Hr2 in Hr2'. injection Hr2' as <-.
    set (s3 := set_es_infos (<[i := set_info_pidinfo p' r2]> (es_infos s2)) s2). erewrite (bind_run _ _ _ 0 s3); cycle 1.
    { erewrite bind_run by (apply info_get_run; exact Hr2). erewrite bind_run by (unfold lift; by rewrite Hp'). cbn beta iota. by erewrite bind_run by (apply info_upd_run; exact Hr2). }
    cbn [Z.eqb]. assert (Hoth : ∀ fd', fd' ≠ fd → info_of s fd' ≠ Some i) by (intros fd' Hne Hio'; apply Hne; exact (info_of_inj s g fd' fd i Hi Hio' Hio)).
    assert (Hi3 : einv s3 g2).
    { eapply einvx_info; [exact Hi2|exact Hl2|exact Hr2|]. destruct Hok2 as [O1 O2 O3 O4 O5 O6 O7]. split; [done|done|done|done|done| |by left]. destruct (del_last_pid_ok _ (se_pid env) O7) as (c & p2 & Hd & Hpok). cbn. congruence. }
    assert (Hfg3 : forgets fd s g s3 g2) by (apply (forgets_info fd s g s2 g2 s3 g2 i); try done; intros j Hj; cbn; by rewrite lookup_insert_ne).
    destruct (free_unmapped fd s g s3 g2 i (set_info_pidinfo p' r2) Hfg3 Hoth Hi3 Hl2 (lookup_insert_eq _ _ _)) as (s4 & g4 & Hr4 & Hi4 & Hg4 & Hfg4 & Hw4 & _). exists s4. split; [done|]. split; [rewrite Hw4; apply (fr_led _ _ _ Hf)|].
    split; [exists g4; split; [done|]; split; [by eapply idle_eps|by eapply forgets_desc]|]. intros j Hj (rj & Hrj & Hmm'). injection Hj as <-. rewrite Hr in Hrj. injection Hrj as <-. congruence.
Qed.

(** ** Closing an epoll descriptor *)

(** No epoll descriptor watches [fd]. *)
Definition unwatched (fd : Z) (D : table) : Prop := ∀ epfd m, watches D epfd = Some m → m !! fd = None.

Lemma close_unwatched fd D : unwatched fd D → close_desc fd D = delete fd D.
Proof.
  intros Hu. apply map_eq. intros fd'. unfold close_desc. rewrite lookup_fmap. destruct (decide (fd' = fd)) as [->|Hne]; [by rewrite lookup_delete_eq|]. rewrite lookup_delete_ne by done.
  destruct (D !! fd') as [[m|]|] eqn:Hd; [|done..]. cbn. rewrite delete_id; [done|]. apply (Hu fd'). unfold watches. by rewrite Hd.
Qed.

Lemma unwatched_items D s g fd ep e x : einv s g → desc_ok env s g D → unwatched fd D → g_eps g !! ep = Some e → x ∈ ge_tree e → fd_of s x ≠ fd.
Proof.
  intros Hi HD Hu He Hx. destruct (ei_eps _ _ _ _ Hi ep e He) as (r & Hr & _). specialize (Hu (ep_epfd r) (interest s (ge_tree e))).
  rewrite (watches_ep env s g D _ HD), (do_live _ _ _ _ HD ep e r He Hr) in Hu. cbn in Hu. rewrite (watched_lookup s g ep e He) in Hu. specialize (Hu eq_refl). rewrite interest_none in Hu by (by eapply tree_sorted). auto.
Qed.

Lemma unwatched_list D s g fd i r l : einv s g → desc_ok env s g D → unwatched fd D → g_fl g !! i = Some l → es_infos s !! i = Some r → info_fd r = fd → l = [].
Proof.
  intros Hi HD Hu Hl Hr Hfd. destruct l as [|x l]; [done|]. destruct (listed_item env s g i (x :: l) r x Hi Hl Hr) as (ep & e & it & He & Hx & Hit & _ & Hf & _); [left|].
  destruct (unwatched_items D s g fd ep e x Hi HD Hu He Hx). unfold fd_of. rewrite Hit. congruence.
Qed.

(** The record of an epoll descriptor. *)
Lemma epoll_info s g D fd m : einv s g → desc_ok env s g D → D !! fd = Some (Some m) →
  ∃ i r l ep e q, info_of s fd = Some i ∧ es_infos s !! i = Some r ∧ g_fl g !! i = Some l ∧ info_fd r = fd ∧ info_ep r = Some ep ∧ info_fdtype r = NSTACK_EPOL_FD ∧
    g_eps g !! ep = Some e ∧ es_eps s !! ep = Some q ∧ ep_epfd q = fd ∧ (∀ fd', ep_of s fd' = Some ep → fd' = fd) ∧ (∀ ep' e' q', g_eps g !! ep' = Some e' → es_eps s !! ep' = Some q' → ep_epfd q' = fd → ep' = ep).
Proof.
  intros Hi HD Hn. rewrite (do_table _ _ _ _ HD) in Hn. unfold desc, desc_in in Hn. destruct (info_of s fd) as [i|] eqn:Hio; [|done]. destruct (info_of_ok env _ _ _ _ _ Hi Hio) as (r & l & Hr & Hl & Hok & Hfd & Hlv). cbn in Hn.
  rewrite Hr in Hn. cbn in Hn. destruct (info_ep r) as [ep|] eqn:Hep; [|done]. destruct (Hlv ep eq_refl) as (e & q & He & Hq & Hqf). exists i, r, l, ep, e, q. do 5 (split; [done|]).
  split; [apply (do_type _ _ _ _ HD fd i r Hio Hr); rewrite Hep; eauto|]. do 3 (split; [done|]). split.
  - intros fd' Hf'. destruct (ep_of_live env s g fd' ep Hi Hf') as (e' & q' & _ & Hq' & <-). congruence.
  - intros ep' e' q' He' Hq' Hf'. pose proof (do_live _ _ _ _ HD ep' e' q' He' Hq') as Hl'. rewrite Hf' in Hl'. unfold ep_of in Hl'. rewrite Hio in Hl'. cbn in Hl'. rewrite Hr in Hl'. cbn in Hl'. congruence.
Qed.

(** The event poll has lost its items and is freed. *)
Lemma dropped_forgets D s g fd i m ep e q s3 g3 s4 : einv s g → desc_ok env s g D → unwatched fd D → es_sockMap s = Some m → 0 <= fd < Z.of_nat (length m) → g_eps g !! ep = Some e → es_eps s !! ep = Some q → ep_epfd q = fd →
  info_of s fd = Some i → (∀ fd', ep_of s fd' = Some ep → fd' = fd) → (∀ ep' e' q', g_eps g !! ep' = Some e' → es_eps s !! ep' = Some q' → ep_epfd q' = fd → ep' = ep) →
  es_sockMap s3 = es_sockMap s → (∀ j, j ≠ i → ikey <$> (es_infos s3 !! j) = ikey <$> (es_infos s !! j)) → (∀ x, ep_epfd <$> (es_eps s3 !! x) = ep_epfd <$> (es_eps s !! x)) →
  dropped (ge_tree e) g g3 → same_items s s3 (λ y, y ∉ ge_tree e) →
  es_sockMap s4 = Some (<[Z.to_nat fd := None]> m) → es_infos s4 = es_infos s3 → es_items s4 = es_items s3 → (∀ y, y ≠ ep → es_eps s4 !! y = es_eps s3 !! y) →
  forgets fd s g s4 (mk_gh (delete ep (g_eps g3)) (g_fl g3)).
Proof.
  intros Hi HD Hu Hm Hrng He Hq Hqf Hio Huniq Hep1 Hsk Hinf Hepf [_ Hd] Hsame Hsk4 Hinf4 Hit4 Heps4.
  assert (Hof : ∀ fd', info_of s4 fd' = if decide (fd' = fd) then None else info_of s fd') by (intros fd'; unfold info_of; rewrite Hsk4, Hm; cbn; rewrite aread_insert by lia; by destruct (decide (fd' = fd))).
  assert (Hother : ∀ ep' e3, delete ep (g_eps g3) !! ep' = Some e3 → ep' ≠ ep ∧ ∃ e', g_eps g !! ep' = Some e' ∧ ge_tree e3 = ge_tree e' ∧ ∀ y, y ∈ ge_tree e' → y ∉ ge_tree e).
  { intros ep' e3 [Hne He3]%lookup_delete_Some. split; [done|]. specialize (Hd ep'). rewrite He3 in Hd. cbn in Hd. symmetry in Hd. apply fmap_Some in Hd as (e' & He' & Ht). exists e'. split; [done|].
    assert (∀ y, y ∈ ge_tree e' → y ∉ ge_tree e) as Hdis by (intros y Hy Hy'; apply Hne; symmetry; by apply (tree_disj _ Hi ep' e' ep e y)). split; [|done]. rewrite Ht. by apply filter_whole. }
  split.
  - intros fd' Hne. by rewrite Hof, decide_False.
  - by rewrite Hof, decide_True.
  - intros fd' j Hne Hj. rewrite Hinf4. apply Hinf. intros ->. apply Hne. exact (info_of_inj s g fd' fd i Hi Hj Hio).
  - cbn. intros ep' e3 r' He3 Hr'. destruct (Hother ep' e3 He3) as (Hne & e' & He' & _ & _). rewrite Heps4 in Hr' by done. pose proof (Hepf ep') as Hk. rewrite Hr' in Hk. cbn in Hk. symmetry in Hk. apply fmap_Some in Hk as (q' & Hq' & Hf').
    exists e', q'. split; [done|]. split; [done|]. split; [done|]. intros Hfd. apply Hne. by eapply Hep1.
  - intros ep' fd' Hne Hf'. assert (ep' ≠ ep) as Hne' by (intros ->; apply Hne; by apply Huniq). destruct (ep_of_live env s g fd' ep' Hi Hf') as (e' & q' & He' & Hq' & _). unfold watched. rewrite !lookup_fmap, He'. cbn. rewrite lookup_delete_ne by done.
    specialize (Hd ep'). rewrite He' in Hd. cbn in Hd. apply fmap_Some in Hd as (e3 & He3 & Ht). rewrite He3. cbn. f_equal. destruct (Hother ep' e3) as (_ & e'' & He'' & Ht' & Hdis); [by rewrite lookup_delete_ne|]. rewrite He' in He''. injection He'' as <-.
    rewrite delete_id.
    + rewrite Ht'. apply interest_ext. intros y Hy. destruct (same_view s s3 (λ y, y ∉ ge_tree e) y Hsame (Hdis y Hy)) as [H1 H2]. unfold fd_of, event_of in *. by rewrite Hit4.
    + rewrite interest_none by (by eapply tree_sorted). intros y Hy. by eapply unwatched_items.
  - intros x it' (ep' & e3 & He3 & Hx) Hit'. cbn in He3. destruct (Hother ep' e3 He3) as (Hne & e' & He' & Ht & Hdis). rewrite Ht in Hx. specialize (Hsame x (Hdis x Hx)). rewrite Hit4 in Hit'. rewrite Hit' in Hsame. cbn in Hsame. symmetry in Hsame.
    apply fmap_Some in Hsame as (it & Hit & Hk). exists it. split; [by exists ep', e'|]. split; [done|]. unfold set_epi_revents in Hk. injection Hk as _ _ _ _ _ _ _ K1 _ K2 _. split; [done|]. split; [done|].
    pose proof (unwatched_items D s g fd ep' e' x Hi HD Hu He' Hx) as Hn. unfold fd_of in Hn. by rewrite Hit in Hn.
Qed.

(** [nsep_close_epfd]: the items and the event poll are released. *)
Lemma close_epfd_spec s g ep e : einv s g → idle g → g_eps g !! ep = Some e → (∀ fd i q, info_of s fd = Some i → es_infos s !! i = Some q → info_ep q ≠ Some ep) →
  ∃ s3 g3 s4, nsep_close_epfd env (Some ep) s = Some (tt, s4) ∧ frame led s s3 ∧ dropped (ge_tree e) g g3 ∧ same_items s s3 (λ y, y ∉ ge_tree e) ∧
    einv s4 (mk_gh (delete ep (g_eps g3)) (g_fl g3)) ∧ idle (mk_gh (delete ep (g_eps g3)) (g_fl g3)) ∧
    ∃ q pool, s4 = set_es_epPool pool (set_es_eps (<[ep := q]> (es_eps s3)) s3).
Proof.
  intros Hi Hid He Hno. destruct (ei_eps _ _ _ _ Hi ep e He) as (q & Hq & Hok).
  assert (Hlen : (length (ge_tree e) <= tree_fuel)%nat).
  { apply Nat2Z.inj_le. unfold tree_fuel. rewrite Z2Nat.id by done. apply (tree_length env [] s g ep e); [done|done|by eapply tree_nodup|]. intros x Hx. destruct (tree_item env Hi ep e x He Hx) as (it & Hit & _). eauto. }
  destruct (close_loop_spec env tree_fuel s g ep e Hi Hid He Hlen) as (s3 & g3 & Hrun & Hi3 & Hid3 & Hdr & Hsame). pose proof (keeps_close_loop env led Hek tree_fuel ep s tt s3 Hrun) as Hf.
  pose proof (proj2 Hdr ep) as He3. rewrite He in He3. cbn in He3. apply fmap_Some in He3 as (e3 & He3 & Ht3). destruct (ei_eps _ _ _ _ Hi3 ep e3 He3) as (q3 & Hq3 & Hok3).
  destruct (free_eventpoll_run s3 ep q3 Hq3 (eo_flag _ _ _ _ _ _ _ Hok3) (ei_epool _ _ _ _ Hi3)) as (q' & pool & Hfr & Hp & _).
  exists s3, g3. eexists. split; [unfold nsep_close_epfd; erewrite bind_run by exact Hrun; by erewrite bind_run by exact Hfr|]. split; [done|]. split; [done|]. split; [done|]. split; [|split].
  - apply (einvx_free_ep env [] s3 g3 ep e3 q3); try done.
    + rewrite <- Ht3. destruct (filter _ _) as [|y T] eqn:HT; [done|]. assert (y ∈ filter (λ y, y ∉ ge_tree e) (ge_tree e)) as [Hn Hy]%list_elem_of_filter by (rewrite HT; left). done.
    + intros fd i r Hio Hr. rewrite (info_of_sock s s3 fd (fr_sock _ _ _ Hf)) in Hio. destruct (es_infos s !! i) as [r0|] eqn:Hr0.
      * destruct (fmap_eq_Some _ _ _ _ (fr_infos _ _ _ Hf i) Hr0) as (r' & Hr' & [= _ K _ _ _]). rewrite Hr in Hr'. injection Hr' as <-. rewrite K. by eapply Hno.
      * pose proof (fr_infos _ _ _ Hf i) as Hk. by rewrite Hr, Hr0 in Hk.
  - intros ep' e'. cbn. intros [_ He']%lookup_delete_Some. by eapply Hid3.
  - eauto.
Qed.

Lemma close_ep D s fd m0 : table_inv env D s → D !! fd = Some (Some m0) → unwatched fd D →
  ∃ s', nsep_epoll_close env fd s = Some (0, s') ∧ led (es_world s') = led (es_world s) ∧ table_inv env (close_desc fd D) s'.
Proof.
  intros (g & Hi & Hid & HD) Hn Hu. destruct (epoll_info s g D fd m0 Hi HD Hn) as (i & r & l & ep & e & q & Hio & Hr & Hl & Hqf & Hqe & Hft & He & Hq & Hepf & Huniq & Hep1).
  destruct (info_of_range [] s g fd i Hi Hio) as (m & Hm & Hrng & Hrng'). rewrite (unwatched_list D s g fd i r l Hi HD Hu Hl Hr Hqf) in Hl.
  destruct (do_pids _ _ _ _ HD fd i r Hio Hr) as (p' & Hp'). set (r2 := set_info_ep None (set_info_pidinfo p' r)). set (s2 := set_es_infos (<[i := r2]> (es_infos s)) s).
  destruct (ei_infos _ _ _ _ Hi i [] Hl) as (r' & Hr' & Hok). rewrite Hr in Hr'. injection Hr' as <-.
  assert (Hi2 : einv s2 g).
  { eapply einvx_info; [exact Hi|exact Hl|exact Hr|]. destruct Hok as [O1 O2 O3 O4 O5 O6 O7]. split; [done|done|done|done|done| |done]. destruct (del_last_pid_ok _ (se_pid env) O7) as (c & p2 & Hd & Hpok). cbn. congruence. }
  assert (Hno : ∀ fd' j x, info_of s2 fd' = Some j → es_infos s2 !! j = Some x → info_ep x ≠ Some ep).
  { intros fd' j x Hj Hx Hxe. cbn in Hx. destruct (decide (j = i)) as [->|Hji]; [rewrite lookup_insert_eq in Hx; injection Hx as <-; done|]. rewrite lookup_insert_ne in Hx by done.
    assert (fd' = fd) as -> by (apply Huniq; unfold ep_of; change (info_of s fd') with (info_of s2 fd'); rewrite Hj; cbn; by rewrite Hx). apply Hji. change (info_of s2 fd) with (info_of s fd) in Hj. congruence. }
  destruct (close_epfd_spec s2 g ep e Hi2 Hid He Hno) as (s3 & g3 & s4 & Hrun & Hf & Hdr & Hsame & Hi4 & Hid4 & q' & pool & Hs4). pose proof (fr_sock _ _ _ Hf) as Hsk3. pose proof (fr_led _ _ _ Hf) as Hled.
  set (g4 := mk_gh (delete ep (g_eps g3)) (g_fl g3)) in *. assert (Hl4 : g_fl g4 !! i = Some []) by (cbn; rewrite (proj1 Hdr), Hl; done).
  assert (Hm4 : es_sockMap s4 = Some m) by (rewrite Hs4; cbn; rewrite Hsk3; done). set (s5 := set_es_sockMap (Some (<[Z.to_nat fd := None]> m)) s4).
  assert (Hfg : forgets fd s g s5 g4).
  { apply (dropped_forgets D s g fd i m ep e q s3 g3 s5); try done; [| |by unfold s5; rewrite Hs4..|].
    - intros j Hj. rewrite (fr_infos _ _ _ Hf). cbn. by rewrite lookup_insert_ne.
    - intros x. rewrite (fr_epfd _ _ _ Hf). done.
    - intros y Hy. unfold s5. rewrite Hs4. cbn. by rewrite lookup_insert_ne. }
  assert (Hi5 : einv s5 g4).
  { apply einvx_unmap; [done|done|done|]. intros ep' e' q'' He' Hq'' Hf''. destruct (fg_eps _ _ _ _ _ Hfg ep' e' q'' He' Hq'') as (e0 & q0 & _ & _ & Hk & Hne). congruence. }
  destruct (ei_infos _ _ _ _ Hi4 i [] Hl4) as (r4 & Hr4 & Hok4). destruct (free_epinfo_run s4 i r4 Hr4 (io_flag _ _ _ _ _ _ Hok4) (ei_fpool _ _ _ _ Hi4)) as (r5 & fp & Hfree & Hp & _).
  set (s6 := set_es_infoPool fp (set_es_infos (<[i := r5]> (es_infos s5)) s5)). exists s6. split; [|split].
  - unfold nsep_epoll_close. erewrite bind_run by (by eapply infoBySock_run). rewrite Hio. erewrite bind_run by (apply info_get_run; exact Hr). rewrite Hft. cbn [Z.eqb NSTACK_EPOL_FD Pos.eqb].
    unfold nsp_epoll_close_ep_fd, info_del_last_pid. erewrite (bind_run _ _ s); cycle 1.
    { erewrite bind_run by (apply info_get_run; exact Hr). erewrite (bind_run _ _ s 0); cycle 1.
      { erewrite bind_run by (apply info_get_run; exact Hr). erewrite bind_run by (unfold lift; by rewrite Hp'). cbn beta iota. by erewrite bind_run by (apply info_upd_run; exact Hr). }
      cbn [Z.eqb when]. rewrite Hqe. erewrite (bind_run _ _ _ tt); cycle 1.
      { erewrite bind_run by (apply info_upd_run; apply lookup_insert_eq). erewrite bind_run; cycle 1.
        { cbn [set_es_infos es_infos]. rewrite insert_insert_eq. exact Hrun. } by erewrite bind_run by exact Hfree. }
      done. }
    erewrite bind_run; [done|]. exact (set_infoSockMap_run' (set_es_infoPool fp (set_es_infos (<[i := r5]> (es_infos s4)) s4)) fd m Hm4 Hrng Hrng').
  - unfold s6, s5. rewrite Hs4. cbn. exact Hled.
  - exists (mk_gh (g_eps g4) (delete i (g_fl g4))). assert (Hoth : ∀ fd', info_of s5 fd' ≠ Some i).
    { intros fd' Hio'. destruct (decide (fd' = fd)) as [->|Hne]; [by rewrite (fg_gone _ _ _ _ _ Hfg) in Hio'|]. rewrite (fg_map _ _ _ _ _ Hfg) in Hio' by done. apply Hne. exact (info_of_inj s g fd' fd i Hi Hio' Hio). }
    split; [by apply (einvx_free_info env [] s5 g4 i r4)|]. split; [by eapply idle_eps|]. apply (forgets_desc D s g); [done|]. apply (forgets_info fd s g s5 g4 _ _ i); try done.
    + intros fd' Hne Hio'. apply Hne. exact (info_of_inj s g fd' fd i Hi Hio' Hio).
    + intros j Hj. cbn. by rewrite lookup_insert_ne.
Qed.

(** [nsep_epoll_close] on any descriptor; an epoll descriptor must not be watched itself. *)
Lemma close_table D s fd : table_inv env D s → (is_Some (watches D fd) → unwatched fd D) →
  ∃ s', nsep_epoll_close env fd s = Some (0, s') ∧ led (es_world s') = led (es_world s) ∧ table_inv env (close_desc fd D) s'.
Proof.
  intros HT Hu. unfold watches in Hu. destruct (D !! fd) as [[m|]|] eqn:Hn; [eapply close_ep; eauto| |].
  - destruct (close_plain D s fd HT Hn) as (s' & ? & ? & ? & _). eauto.
  - exists s. destruct HT as (g & Hi & Hid & HD). split; [|split; [done|]].
    + unfold nsep_epoll_close. erewrite bind_run by (by eapply infoBySock_run). rewrite (proj1 (known_iff env s g D fd Hi HD) Hn). done.
    + exists g. split; [done|]. split; [done|]. rewrite close_unwatched, delete_id; [done|done|]. intros epfd m Hm. destruct (m !! fd) eqn:Hf; [|done]. destruct (watched_known env s g D epfd m fd Hi HD Hm); [eauto|congruence].
Qed.

(** [nsep_free_infoWithSock] on a descriptor that is neither an epoll descriptor nor watched. *)
Lemma free_table D s fd : table_inv env D s → D !! fd = Some None → unwatched fd D →
  ∃ s', nsep_free_infoWithSock env fd s = Some (0, s') ∧ es_world s' = es_world s ∧ table_inv env (delete fd D) s' ∧ length (q_contents (es_infoPool s')) = S (length (q_contents (es_infoPool s))).
Proof.
  intros (g & Hi & Hid & HD) Hn Hu. destruct (plain_info s g D fd Hi HD Hn) as (i & r & l & Hio & Hr & Hl & Hok & Hqf & Hqe & Hlive). destruct (info_of_range [] s g fd i Hi Hio) as (m & Hm & Hrng & Hrng').
  pose proof (unwatched_list D s g fd i r l Hi HD Hu Hl Hr Hqf) as ->. set (s1 := set_es_sockMap (Some (<[Z.to_nat fd := None]> m)) s). pose proof (einvx_unmap env [] s g fd m Hi Hm Hrng Hlive) as Hi1.
  assert (Hg : fl_upd i [] g = g) by (destruct g; unfold fl_upd; cbn in *; by rewrite insert_id).
  assert (Hfg : forgets fd s g s1 g).
  { eapply (removed_forgets D s g fd i r [] m s1 s1 g); try done. rewrite Hg. split; [done|]. intros ep. destruct (g_eps g !! ep) as [e|]; [|done]. cbn. f_equal. symmetry. apply filter_whole. intros y _. apply not_elem_of_nil. }
  assert (Hoth : ∀ fd', fd' ≠ fd → info_of s fd' ≠ Some i) by (intros fd' Hne Hio'; apply Hne; exact (info_of_inj s g fd' fd i Hi Hio' Hio)).
  destruct (free_unmapped fd s g s1 g i r Hfg Hoth Hi1 Hl Hr) as (s4 & g4 & Hr4 & Hi4 & Hg4 & Hfg4 & Hw4 & Hp4). exists s4. split; [|split; [done|split]].
  - unfold nsep_free_infoWithSock. destruct (Z.leb_spec (se_kernel_fd_max env) fd), (Z.ltb_spec fd 0); try lia. cbn [orb]. erewrite bind_run by (by eapply infoBySock_run). rewrite Hio.
    erewrite bind_run by (by eapply set_infoSockMap_run). by erewrite bind_run by exact Hr4.
  - exists g4. split; [done|]. split; [by eapply idle_eps|]. rewrite <- (close_unwatched fd D Hu). by eapply forgets_desc.
  - rewrite Hp4, length_app. cbn. lia.
Qed.
End ops.
