(* ===== verification/EpollPollProofs.v ===== *)
(** * Epoll: the steps of a poll and the events of the stacks keep the invariant *)
From S2P Require Import Prelude.
From S2P Require Import Queue.
From S2P Require Import RbTree.
From S2P Require Import RbTreeProofs.
From S2P Require Import RbTreeProps.
From S2P Require Import EpList.
From S2P Require Import EpollData.
From S2P Require Import Epoll.
From S2P Require Import EpollPoll.
From S2P Require Import EpollInv.
From S2P Require Import EpollCtl.
From S2P Require Import EpollAlloc.
From S2P Require Import EpollOps.

Section poll.
Context {Q W : Type} `{BoundedQueue Q} (env : stack_env W).
Abbreviation st := (est Q W).
Abbreviation einvx := (einvx env).
Abbreviation einv := (einv env).
Implicit Types (s : st) (g : ghost).

Lemma rdlist_id s ep r : es_eps s !! ep = Some r → set_es_eps (<[ep := set_ep_rdlist (ep_rdlist r) r]> (es_eps s)) (set_es_rdl (es_rdl s) s) = s.
Proof. intros Hr. unfold set_es_eps. cbn. replace (set_ep_rdlist (ep_rdlist r) r) with r by (by destruct r). rewrite (insert_id (es_eps s) ep r Hr). by destruct s. Qed.

(** Only what is known of an event poll changes. *)
Lemma einvx_ghost z s g ep e e' r : einvx z s g → g_eps g !! ep = Some e → es_eps s !! ep = Some r → ge_tree e' = ge_tree e →
  ep_ok env z s (gep_upd ep e' g) ep e' r → einvx z s (gep_upd ep e' g).
Proof.
  intros Hi He Hr Ht Hok. pose proof (einvx_gep env (z := z) Hi ep e e' r r (es_rdl s) (es_items s) He Hr Ht) as Hc. cbn zeta in Hc.
  assert (set_es_eps (<[ep := r]> (es_eps s)) (set_es_items (es_items s) (set_es_rdl (es_rdl s) s)) = s) as Hs by (unfold set_es_eps; cbn; rewrite insert_id by done; by destruct s).
  rewrite Hs in Hc. by apply Hc.
Qed.

Lemma rdlist_empty_run z s g ep e : einvx z s g → g_eps g !! ep = Some e → rdlist_empty ep s = Some (bool_decide (ge_ready e = []), s).
Proof.
  intros Hi He. destruct (ep_get_ok _ Hi ep e He) as (r & Hr & Hok). unfold rdlist_empty. erewrite bind_run by (by apply ep_get_run). apply rdl_get_run.
  rewrite (ep_hlist_empty_spec _ _ _ _ (eo_ready _ _ _ _ _ _ _ Hok)). by destruct (ge_ready e).
Qed.

(** ** The ready list is detached *)

Lemma poll_detach_spec z s g ep e r : einvx z s g → g_eps g !! ep = Some e → es_eps s !! ep = Some r → ge_phase e = Idle →
  ∃ m l, let s' := set_es_eps (<[ep := set_ep_ovflist (Ovf None) (set_ep_rdlist l r)]> (es_eps s)) (set_es_rdl m s) in
    poll_detach ep s = Some (Some (mk_nl (list.head (ge_ready e)) (Some (ep_last ep (ge_ready e)))), s') ∧
    einvx z s' (gep_upd ep (mk_gep (ge_tree e) [] (Polling (ge_ready e) [])) g).
Proof.
  intros Hi He Hr Hidle. destruct (ep_get_ok _ Hi ep e He) as (r1 & Hr1 & Hok). rewrite Hr in Hr1. injection Hr1 as <-.
  pose proof (eo_ready _ _ _ _ _ _ _ Hok) as [R1 R2 R3 R4]. destruct (mo_eps _ (ei_mem _ _ _ _ Hi) ep) as [Hrd _]; [eauto|].
  destruct (ep_hlist_init_spec (es_rdl s) ep Hrd) as (m & l & Hinit & Hl & Hout). exists m, l. split.
  - unfold poll_detach. erewrite bind_run by (by apply ep_get_run). rewrite R1.
    assert (hn_get hn_next (es_rdl s) ep = Some (list.head (ge_ready e))) as Hn by (destruct (ge_ready e); cbn in R4; [done|by destruct R4]).
    erewrite bind_run by (by apply rdl_get_run). erewrite bind_run by (by apply rdlist_upd_run). erewrite bind_run by (apply ep_upd_run, lookup_insert_eq).
    cbn. rewrite insert_insert_eq, R2. done.
  - destruct Hok as [O1 O2 O3 O4 O5 O6 O7 O8 O9 O10]. rewrite Hidle in *. cbn in *. rewrite app_nil_r in *. assert (Hne : ∀ y, y ∈ ge_ready e → y ≠ ep) by (intros y Hy ->; by apply NoDup_cons in R3 as [? _]).
    apply (einvx_gep env Hi ep e _ r _ m (es_items s)); [done|done|done| | |done|done|done|done|].
    + intros x Hx. apply Hout. set_solver.
    + intros x Hx. destruct (decide (x = ep)) as [->|]; [|by rewrite Hout]. destruct Hl as [_ _ _ Hc]. cbn in Hc. apply hn_get_Some in Hc as (n & ? & _). eauto.
    + split; cbn; try done.
      * destruct (ge_ready e) as [|x R]; [done|]. destruct R4 as (_ & Hpx & Hc). split.
        -- apply (hchain_ext (es_rdl s)); [| |done]; intros y Hy; apply hn_get_ext, Hout, Hne; set_solver.
        -- exists ep. rewrite <- Hpx. apply hn_get_ext, Hout, Hne. left.
      * intros x Hx. rewrite app_nil_r in Hx. by apply O5.
      * split; [done|constructor].
      * intros x Hx Hnx. rewrite Hout; [by apply O7|]. intros ->. destruct (O8 ep Hx) as (it & Hit & _). by rewrite (ep_not_item _ Hi ep e He) in Hit.
      * intros x Hx. specialize (O8 x Hx). unfold item_ok in *. rewrite Hidle in O8. exact O8.
Qed.

(** ** One item *)

(** The events of an item when a poll comes to it. *)
Definition poll_value (epfd : Z) (q : nsep_epollInfo_t) (it : epitem) (w : W) : Z * W :=
  if info_rmidx q =? -1 then (epi_revents it, w)
  else match se_ep_getevt env (info_rmidx q) with
  | None => (epi_revents it, w)
  | Some f => let '(v, w) := f epfd (info_rlfd q) (events (epi_event it)) w in (Z.lor (epi_revents it) (wrap32 v), w)
  end.

Definition level_triggered (it : epitem) : bool := negb (EPOLLET =? Z.land (events (epi_event it)) EPOLLET).

Lemma getEvt_spec s ep r i q x it : es_eps s !! ep = Some r → es_infos s !! i = Some q → es_items s !! x = Some it → -1 <= info_rmidx q < 8 →
  let '(v, w) := poll_value (ep_epfd r) q it (es_world s) in
  (when (negb (info_rmidx q =? -1))
     (epfd ← ep_get ep_epfd ep; rlfd ← info_get info_rlfd i; r ← item_get epi_revents x;
      r ← nstack_ep_getEvt env epfd rlfd (info_rmidx q) (events (epi_event it)) r; item_upd (set_epi_revents r) x)) s =
   Some (tt, set_es_items (<[x := set_epi_revents v it]> (es_items s)) (set_es_world w s)).
Proof.
  intros Hr Hq Hit Hm. unfold poll_value. assert (Hid : set_epi_revents (epi_revents it) it = it) by (by destruct it).
  assert (Hs : set_es_items (<[x := set_epi_revents (epi_revents it) it]> (es_items s)) (set_es_world (es_world s) s) = s) by (rewrite Hid, insert_id by done; by destruct s).
  destruct (Z.eqb_spec (info_rmidx q) (-1)) as [Heq|Hne]; cbn [negb when]; [unfold mret, stM_ret; by rewrite Hs|].
  erewrite bind_run by (by apply ep_get_run). erewrite bind_run by (by apply info_get_run). erewrite bind_run by (by apply item_get_run).
  unfold nstack_ep_getEvt, NSTACK_MAX_MODULE_NUM. destruct (Z.ltb_spec (info_rmidx q) 0), (Z.leb_spec 8 (info_rmidx q)); try lia. cbn [orb].
  destruct (se_ep_getevt env (info_rmidx q)) as [f|].
  - pose proof (ask_run (f (ep_epfd r) (info_rlfd q) (events (epi_event it))) s) as Ha. destruct (f _ _ _ _) as [v w] eqn:Hf. cbn [fst snd] in Ha.
    erewrite bind_run by (erewrite bind_run by exact Ha; done). exact (item_upd_run _ x (set_es_world w s) it Hit).
  - rewrite (bind_run _ _ _ (epi_revents it) s) by done. rewrite (item_upd_run _ _ _ _ Hit), Hid, insert_id by done. by rewrite Hid, insert_id in Hs by done.
Qed.

Lemma mark_flag_run flag rmidx num s : (match flag with Some f => num <= Z.of_nat (length f) | None => True end) →
  ∃ flag', mark_flag flag rmidx num s = Some (flag', s) ∧ length <$> flag' = length <$> flag.
Proof.
  intros Hf. unfold mark_flag. destruct flag as [f|]; [|by exists None]. destruct (Z.leb_spec 0 rmidx), (Z.ltb_spec rmidx num); cbn [andb]; try by exists (Some f).
  erewrite bind_run by (unfold lift; rewrite awrite_Some by lia; done). eexists. split; [done|]. cbn. by rewrite length_insert.
Qed.

(** What a poll has room for. *)
Definition out_ok (o : poll_out) (num evt : Z) : Prop :=
  0 <= evt < Z.of_nat (length (po_events o)) ∧ match po_flag o with Some f => num <= Z.of_nat (length f) | None => True end.

(** The detached item [x] is taken off. *)
Lemma detach_first z s g ep e r x D O n : einvx z s g → g_eps g !! ep = Some e → es_eps s !! ep = Some r → ge_phase e = Polling (x :: D) O → es_rdl s !! x = Some n →
  einvx z (set_es_rdl (<[x := mk_hn None None]> (es_rdl s)) s) (gep_upd ep (set_phase (Polling D O) e) g).
Proof.
  intros Hi He Hr Hph Hn. destruct (ep_get_ok _ Hi ep e He) as (r1 & Hr1 & Hok). rewrite Hr in Hr1. injection Hr1 as <-. destruct Hok as [O1 O2 O3 O4 O5 O6 O7 O8 O9 O10].
  rewrite Hph in *. cbn in O3, O4, O5, O7. assert (HxT : x ∈ ge_tree e) by (apply O5; set_solver). pose proof (tree_not_ep _ Hi _ _ _ _ _ He He HxT) as Hxep.
  assert (Hnd : NoDup (x :: ge_ready e ++ D)) by (by rewrite <- Permutation_middle in O4). apply NoDup_cons in Hnd as [Hx Hnd].
  pose proof (einvx_queues env Hi ep e (set_phase (Polling D O) e) r (<[x := mk_hn None None]> (es_rdl s)) (ep_rdlist r) He Hr eq_refl) as Hc. rewrite Hph in Hc. cbn in Hc.
  replace (set_ep_rdlist (ep_rdlist r) r) with r in Hc by (by destruct r).
  assert (set_es_eps (<[ep := r]> (es_eps s)) (set_es_rdl (<[x := mk_hn None None]> (es_rdl s)) s) = set_es_rdl (<[x := mk_hn None None]> (es_rdl s)) s) as Hs by
    (unfold set_es_eps; cbn; by rewrite (insert_id (es_eps s) ep r Hr)). rewrite Hs in Hc. apply Hc; [done| |done| | | | |].
  - intros y Hy. apply O5. set_solver.
  - intros y Hy. rewrite lookup_insert_ne by set_solver. done.
  - intros y Hy. destruct (decide (y = x)) as [->|]; [rewrite lookup_insert_eq; eauto|by rewrite lookup_insert_ne].
  - apply (ehlist_ext (es_rdl s)); [|done]. intros y Hy. apply lookup_insert_ne. set_solver.
  - destruct D as [|y D]; [done|]. destruct O3 as [(H1 & H2 & H3) _]. split.
    + apply (hchain_ext (es_rdl s)); [| |done]; intros w Hw; apply hn_get_ext, lookup_insert_ne; set_solver.
    + exists x. rewrite <- H2. apply hn_get_ext, lookup_insert_ne. set_solver.
  - intros y Hy Hny. destruct (decide (y = x)) as [->|]; [by rewrite lookup_insert_eq|]. rewrite lookup_insert_ne by done. apply O7; [done|set_solver].
Qed.

(** What a poll does with the item [x] whose events are [v]. *)
Definition out_after (o : poll_out) (evt v : Z) (it : epitem) (flag : option (list Z)) : poll_out :=
  mk_po (if v =? 0 then po_events o else <[Z.to_nat evt := mk_ev v (data (epi_event it))]> (po_events o)) flag.
Definition evt_after (evt v : Z) : Z := if v =? 0 then evt else evt + 1.
Definition ready_after (R : list Z) (x v : Z) (it : epitem) : list Z := if negb (v =? 0) && level_triggered it then R ++ [x] else R.

Lemma requeue_spec s g ep e r x it v : einv s g → g_eps g !! ep = Some e → es_eps s !! ep = Some r → x ∈ ge_tree e → x ∉ ge_ready e ++ ph_rest (ge_phase e) →
  ∃ m l, let s' := set_es_eps (<[ep := set_ep_rdlist l r]> (es_eps s)) (set_es_rdl m s) in
    (when (negb (v =? 0) && negb (EPOLLET =? Z.land (events (epi_event it)) EPOLLET)) (rdlist_upd (λ m l, ep_hlist_add_tail m l x) ep)) s = Some (tt, s') ∧
    einv s' (gep_upd ep (set_ready (ready_after (ge_ready e) x v it) e) g).
Proof.
  intros Hi He Hr Hx Hn. unfold ready_after, level_triggered. destruct (_ && _); cbn [when].
  - destruct (ready_add _ Hi ep e r x He Hr Hx Hn) as (m & l & Hrun & Hi'). exists m, l. done.
  - exists (es_rdl s), (ep_rdlist r). cbn zeta. rewrite rdlist_id by done. split; [done|]. exact (ready_is_refl env [] ep e g s He Hi).
Qed.

Lemma proc_item_spec s g ep e r x D O it i q o num evt : einv s g → g_eps g !! ep = Some e → es_eps s !! ep = Some r → ge_phase e = Polling (x :: D) O →
  es_items s !! x = Some it → epi_private_data it = Some i → es_infos s !! i = Some q → is_Some (g_fl g !! i) → out_ok o num evt →
  let '(v, w) := poll_value (ep_epfd r) q it (es_world s) in
  ∃ s' l flag, proc_item env ep x num o evt s = Some ((out_after o evt v it flag, evt_after evt v), s') ∧
    einv s' (gep_upd ep (mk_gep (ge_tree e) (ready_after (ge_ready e) x v it) (Polling D O)) g) ∧ es_items s' = <[x := set_epi_revents 0 it]> (es_items s) ∧
    es_infos s' = es_infos s ∧ es_world s' = w ∧ es_eps s' = <[ep := set_ep_rdlist l r]> (es_eps s) ∧ length <$> flag = length <$> po_flag o.
Proof.
  intros Hi He Hr Hph Hit Hpi Hq [li Hli] [Hevt Hflag]. destruct (ep_get_ok _ Hi ep e He) as (r1 & Hr1 & Hok). rewrite Hr in Hr1. injection Hr1 as <-.
  assert (HxT : x ∈ ge_tree e) by (apply (eo_sub _ _ _ _ _ _ _ Hok); rewrite Hph; cbn; set_solver). destruct (mo_items _ (ei_mem _ _ _ _ Hi) x) as (_ & [n Hn] & _); [eauto|].
  pose proof (eo_queued _ _ _ _ _ _ _ Hok) as Hnd. rewrite Hph in Hnd. cbn in Hnd. rewrite <- Permutation_middle in Hnd. apply NoDup_cons in Hnd as [Hnx _].
  pose proof (detach_first _ s g ep e r x D O n Hi He Hr Hph Hn) as Hi1. set (s1 := set_es_rdl _ s) in Hi1. set (e1 := set_phase (Polling D O) e) in Hi1. set (g1 := gep_upd ep e1 g) in Hi1.
  destruct (ei_infos _ _ _ _ Hi i li Hli) as (q' & Hq' & Hokq). rewrite Hq in Hq'. injection Hq' as <-. pose proof (io_rmidx _ _ _ _ _ _ Hokq) as Hm. unfold NSEP_SMOD_MAX in Hm.
  pose proof (getEvt_spec s1 ep r i q x it Hr Hq Hit Hm) as Hge. change (es_world s1) with (es_world s) in Hge.
  destruct (poll_value (ep_epfd r) q it (es_world s)) as [v w] eqn:Hv. set (s2 := set_es_items _ _) in Hge.
  assert (Hi2 : einv s2 g1). { eapply einvx_soft; [|exact Hi1]. etrans; [apply (soft_world w)|]. exact (soft_item (set_epi_revents v) x (set_es_world w s1) it Hit eq_refl). }
  assert (Hit2 : es_items s2 !! x = Some (set_epi_revents v it)) by apply lookup_insert_eq.
  destruct (requeue_spec s2 g1 ep e1 r x it v Hi2) as (m & l & Hrq & Hi3); [apply lookup_insert_eq|done|done|done|]. set (s3 := set_es_eps _ _) in Hrq, Hi3.
  unfold proc_item. erewrite bind_run by (apply rdl_upd_run; by eapply init_node_eq). fold s1. erewrite bind_run by (by apply item_get_run). rewrite Hpi. rewrite (bind_run _ _ _ i s1) by done.
  erewrite bind_run by (by apply info_get_run). erewrite bind_run by (by apply item_get_run). rewrite (bind_run _ _ _ _ _ Hge). erewrite bind_run by (by apply item_get_run). cbn [epi_revents set_epi_revents].
  destruct (mark_flag_run (po_flag o) (info_rmidx q) num s2 Hflag) as (flag & Hfl & Hflen).
  assert (Hout : ∃ flag', (if negb (v =? 0) then (fl ← mark_flag (po_flag o) (info_rmidx q) num; evs ← lift (awrite (po_events o) evt (mk_ev v (data (epi_event it)))); mret (mk_po evs fl, evt + 1))
      else mret (o, evt)) s2 = Some ((out_after o evt v it flag', evt_after evt v), s2) ∧ length <$> flag' = length <$> po_flag o).
  { unfold out_after, evt_after. destruct (Z.eqb_spec v 0); cbn [negb].
    - exists (po_flag o). split; [|done]. by destruct o.
    - exists flag. split; [|done]. erewrite bind_run by exact Hfl. erewrite bind_run by (unfold lift; rewrite awrite_Some by lia; done). done. }
  destruct Hout as (flag' & Hout & Hfl'). rewrite (bind_run _ _ _ _ _ Hout). cbn beta iota. rewrite (bind_run _ _ _ _ _ Hrq). erewrite bind_run by (apply (item_upd_run _ x s3 _ Hit2)).
  eexists _, l, flag'. split; [done|]. split; [|split; [|split; [done|split; [done|split; [done|done]]]]].
  - eapply einvx_soft; [exact (soft_item (set_epi_revents 0) x s3 _ Hit2 eq_refl)|]. unfold g1, gep_upd in Hi3 |- *. cbn in Hi3. by rewrite insert_insert_eq in Hi3.
  - cbn. by rewrite insert_insert_eq.
Qed.

(** ** The detached items *)

(** An item with the information of its descriptor. *)
Definition item_view s (x : Z) : option (epitem * nsep_epollInfo_t) :=
  it ← es_items s !! x; i ← epi_private_data it; q ← es_infos s !! i; Some (it, q).

(** What a poll does with the items [D]: the events it reports, the items it queues again behind [R], the items it leaves. *)
Fixpoint polled s (epfd max : Z) (D : list Z) (w : W) (evs : list epoll_event) (R : list Z) : option (list epoll_event * list Z * list Z * W) :=
  match D with
  | [] => Some (evs, R, [], w)
  | x :: D =>
      '(it, q) ← item_view s x;
      let '(v, w) := poll_value epfd q it w in
      let evs := if v =? 0 then evs else evs ++ [mk_ev v (data (epi_event it))] in
      let R := ready_after R x v it in
      if max <=? Z.of_nat (length evs) then Some (evs, R, D, w) else polled s epfd max D w evs R
  end.

Lemma rest_view s g ep e x : einv s g → g_eps g !! ep = Some e → x ∈ ge_tree e →
  ∃ it i q, es_items s !! x = Some it ∧ epi_private_data it = Some i ∧ es_infos s !! i = Some q ∧ is_Some (g_fl g !! i) ∧ item_view s x = Some (it, q).
Proof.
  intros Hi He Hx. destruct (tree_item _ Hi ep e x He Hx) as (it & Hit & _ & _ & _ & _ & Hin). destruct (Hin ltac:(by apply not_elem_of_nil)) as (i & l & q & H1 & H2 & _ & H3 & _).
  exists it, i, q. split; [done|]. split; [done|]. split; [done|]. split; [eauto|]. unfold item_view. rewrite Hit. cbn. rewrite H1. cbn. by rewrite H3.
Qed.

Lemma detached_next m x D : detached m (x :: D) → hn_get hn_next m x = Some (list.head D).
Proof. intros [Hc _]. destruct D; cbn in *; [done|by destruct Hc]. Qed.

Lemma polled_grows s epfd max D w evs R evs' R' D' w' : polled s epfd max D w evs R = Some (evs', R', D', w') → (length evs <= length evs')%nat.
Proof.
  revert evs R w. induction D as [|y D IH]; intros evs R w; cbn; [by intros [= <- _ _ _]|]. destruct (item_view s y) as [[it q]|]; [|done]. cbn.
  destruct (poll_value _ _ _ _) as [v w2]. destruct (_ <=? _); [intros [= <- _ _ _]|intros ?%IH]; destruct (v =? 0); rewrite ?length_app in *; cbn in *; lia.
Qed.

(** The state [s] in which the loop stands, [s0] the one it started in: the items of [D] are as they were. *)
Lemma events_loop_spec s0 num max fuel s g ep e r D O o evs w : einv s g → g_eps g !! ep = Some e → es_eps s !! ep = Some r → ge_phase e = Polling D O →
  es_world s = w → es_infos s = es_infos s0 → (∀ x, x ∈ D → es_items s !! x = es_items s0 !! x) →
  (length D <= fuel)%nat → Z.of_nat (length evs) < max → max <= Z.of_nat (length (po_events o)) → take (length evs) (po_events o) = evs →
  (match po_flag o with Some f => num <= Z.of_nat (length f) | None => True end) →
  ∃ evs' R' P D' w' s' l o', polled s0 (ep_epfd r) max D w evs (ge_ready e) = Some (evs', R', D', w') ∧ D = P ++ D' ∧
    events_loop env fuel ep max num (list.head D) o (Z.of_nat (length evs)) s = Some ((list.head D', o', Z.of_nat (length evs')), s') ∧
    po_events o' = evs' ++ drop (length evs') (po_events o) ∧ length <$> po_flag o' = length <$> po_flag o ∧ Z.of_nat (length evs') <= max ∧
    einv s' (gep_upd ep (mk_gep (ge_tree e) R' (Polling D' O)) g) ∧ es_world s' = w' ∧ es_infos s' = es_infos s ∧ es_eps s' = <[ep := set_ep_rdlist l r]> (es_eps s) ∧
    (∀ x, es_items s' !! x = (if bool_decide (x ∈ P) then set_epi_revents 0 <$> (es_items s !! x) else es_items s !! x)).
Proof.
  revert fuel s g e r o evs w. induction D as [|x D IH]; intros fuel s g e r o evs w Hi He Hr Hph Hw Hinf Hsame Hfuel Hlt Hmax Htk Hflag.
  { exists evs, (ge_ready e), [], [], w, s, (ep_rdlist r), o. split; [done|]. split; [done|]. split; [by destruct fuel|].
    split; [rewrite <- Htk at 1; by rewrite take_drop|]. split; [done|]. split; [lia|].
    split; [pose proof (ready_is_refl env [] ep e g s He Hi) as Hc; unfold ready_is, set_ready in Hc; by rewrite Hph in Hc|].
    split; [done|]. split; [done|]. split; [|done]. replace (set_ep_rdlist (ep_rdlist r) r) with r by (by destruct r). by rewrite insert_id. }
  destruct (ep_get_ok _ Hi ep e He) as (r1 & Hr1 & Hok). rewrite Hr in Hr1. injection Hr1 as <-. pose proof (eo_rest _ _ _ _ _ _ _ Hok) as Hrest. rewrite Hph in Hrest.
  assert (HxT : x ∈ ge_tree e) by (apply (eo_sub _ _ _ _ _ _ _ Hok); rewrite Hph; cbn; set_solver). pose proof (eo_queued _ _ _ _ _ _ _ Hok) as Hnd. rewrite Hph in Hnd. cbn in Hnd.
  apply NoDup_app in Hnd as (_ & _ & Hnd). apply NoDup_cons in Hnd as [HxD Hnd].
  destruct (rest_view s g ep e x Hi He HxT) as (it & i & q & Hit & Hpi & Hq & Hfl & _). assert (Hlen : length evs = length (take (length evs) (po_events o))) by (by rewrite Htk).
  rewrite length_take in Hlen. pose proof (proc_item_spec s g ep e r x D O it i q o num (Z.of_nat (length evs)) Hi He Hr Hph Hit Hpi Hq Hfl) as Hp.
  assert (Hv0 : item_view s0 x = Some (it, q)). { unfold item_view. rewrite <- (Hsame x ltac:(left)), Hit. cbn. rewrite Hpi. cbn. by rewrite <- Hinf, Hq. }
  cbn [polled]. rewrite Hv0. cbn [mbind option_bind]. rewrite <- Hw. destruct (poll_value (ep_epfd r) q it (es_world s)) as [v w1] eqn:Hv.
  destruct Hp as (s1 & l1 & flag & Hrun & Hi1 & Hit1 & Hinf1 & Hw1 & Heps1 & Hfl1); [split; [lia|done]|].
  set (evs1 := if v =? 0 then evs else evs ++ [mk_ev v (data (epi_event it))]). set (o1 := out_after o (Z.of_nat (length evs)) v it flag) in *.
  assert (Hevt : evt_after (Z.of_nat (length evs)) v = Z.of_nat (length evs1)) by (unfold evt_after, evs1; destruct (v =? 0); [done|rewrite length_app; cbn; lia]).
  assert (Hlen1 : length (po_events o1) = length (po_events o)) by (unfold o1, out_after; cbn; destruct (v =? 0); [done|apply length_insert]).
  assert (Htk1 : take (length evs1) (po_events o1) = evs1 ∧ drop (length evs1) (po_events o1) = drop (length evs1) (po_events o)).
  { unfold o1, out_after, evs1; cbn. destruct (v =? 0); [done|]. rewrite Nat2Z.id, length_app. cbn. rewrite Nat.add_1_r. split.
    - rewrite insert_take_drop, Htk, cons_middle, app_assoc by lia. rewrite take_app_length'; [done|]. rewrite length_app. cbn. lia.
    - rewrite drop_insert_lt by lia; done. }
  destruct Htk1 as [Htk1 Hdr1]. destruct fuel as [|fuel]; [cbn in Hfuel; lia|]. cbn [list.head events_loop].
  erewrite bind_run by (apply rdl_get_run; by apply (detached_next _ x D)). rewrite (bind_run _ _ _ _ _ Hrun). cbn beta iota. rewrite Hevt.
  set (e1 := mk_gep _ _ _) in Hi1. assert (Hr1 : es_eps s1 !! ep = Some (set_ep_rdlist l1 r)) by (rewrite Heps1; apply lookup_insert_eq).
  destruct (Z.leb_spec max (Z.of_nat (length evs1))) as [Hge|Hlt1].
  - exists evs1, (ready_after (ge_ready e) x v it), [x], D, w1, s1, l1, o1. split; [done|]. split; [done|]. split; [done|]. split; [rewrite <- Hdr1, <- Htk1 at 1; by rewrite take_drop|].
    split; [exact Hfl1|]. split; [unfold evs1 in *; destruct (v =? 0); rewrite ?length_app in *; cbn in *; lia|]. split; [exact Hi1|]. split; [done|]. split; [done|]. split; [done|].
    intros y. rewrite Hit1. case_bool_decide as Hy; [apply list_elem_of_singleton in Hy as ->; by rewrite lookup_insert_eq, Hit|]. rewrite lookup_insert_ne; [done|]. intros ->. apply Hy. left.
  - destruct (IH fuel s1 (gep_upd ep e1 g) e1 (set_ep_rdlist l1 r) o1 evs1 w1) as (evs' & R' & P & D' & w' & s' & l & o' & A1 & A2 & A3 & A4 & A5 & A6 & A7 & A8 & A9 & A10 & A11);
      [done|apply lookup_insert_eq|done|done|done|congruence| |cbn in Hfuel; lia|done|by rewrite Hlen1|done| |].
    { intros y Hy. rewrite Hit1, lookup_insert_ne by (by intros ->). apply Hsame. by right. }
    { unfold o1. cbn. destruct (po_flag o), flag; cbn in Hfl1; simplify_eq; [lia|done]. }
    exists evs', R', (x :: P), D', w', s', l, o'. split; [exact A1|]. split; [cbn; by rewrite A2|]. split; [exact A3|]. split.
    { rewrite A4. f_equal. pose proof (polled_grows _ _ _ _ _ _ _ _ _ _ _ A1) as Hle.
      rewrite <- (Nat.sub_add _ _ Hle), Nat.add_comm, <- !drop_drop. by rewrite Hdr1. }
    split; [unfold o1 in A5; cbn in A5; congruence|]. split; [done|]. split; [unfold gep_upd in A7 |- *; cbn in A7; by rewrite insert_insert_eq in A7|]. split; [done|]. split; [congruence|].
    split; [rewrite A10, Heps1, insert_insert_eq; by destruct r|]. intros y. rewrite A11, Hit1. destruct (decide (y = x)) as [->|Hne].
    + rewrite lookup_insert_eq, Hit, (bool_decide_eq_true_2 (x ∈ x :: P)) by left. cbn. by case_bool_decide.
    + rewrite lookup_insert_ne by done. repeat case_bool_decide; set_solver.
Qed.

(** ** What is left goes back *)

Definition dlast (D : list Z) : option Z := match D with [] => None | x :: D => Some (ep_last x D) end.

(** Two chains of nodes are joined. *)
Lemma join_chains m l h R x D : ehlist m l h R → detached m (x :: D) → NoDup (h :: R ++ x :: D) →
  ∃ m1 m2, hn_set_next (Some x) m (ep_last h R) = Some m1 ∧ hn_set_pprev (Some (ep_last h R)) m1 x = Some m2 ∧
    ehlist m2 (mk_ehl (hl_head l) (Some (ep_last x D))) h (R ++ x :: D) ∧ (∀ y, y ∉ h :: R ++ x :: D → m2 !! y = m !! y) ∧ (∀ y, is_Some (m !! y) → is_Some (m2 !! y)).
Proof.
  intros [H1 H2 H3 H4] [Hc [p Hp]] Hnd. pose proof (ep_last_in h R) as Hin. set (t := ep_last h R) in *.
  apply (NoDup_app (h :: R)) in Hnd as Hnd'. destruct Hnd' as (Hn1 & Hd & Hn2). apply NoDup_cons in Hn2 as [HxD Hn2]. assert (Htx : t ≠ x) by (intros Heq; apply (Hd t Hin); rewrite Heq; left).
  destruct (hchain_alloc _ _ _ t H4 Hin) as [nt Hnt]. destruct (hchain_alloc _ _ _ x Hc ltac:(left)) as [nx Hnx].
  unfold hn_set_next, hn_set_pprev. rewrite Hnt. cbn [mbind option_bind]. eexists _, _. split; [done|]. rewrite lookup_insert_ne by done. rewrite Hnx. cbn [mbind option_bind]. split; [done|].
  set (m2 := <[x := _]> _). assert (Hg : ∀ {A} (f : ep_hlist_node → A) y, y ≠ x → y ≠ t → hn_get f m2 y = hn_get f m y) by
    (intros A f y Hy1 Hy2; unfold m2; by rewrite !hn_get_insert, !decide_False by done).
  assert (Hgn : ∀ y, y ≠ t → hn_get hn_next m2 y = hn_get hn_next m y).
  { intros y Hy. destruct (decide (y = x)) as [->|]; [|by apply Hg]. unfold m2. rewrite hn_get_insert, decide_True by done. unfold hn_get. by rewrite Hnx. }
  assert (Hgp : ∀ y, y ≠ x → hn_get hn_pprev m2 y = hn_get hn_pprev m y).
  { intros y Hy. unfold m2. rewrite hn_get_insert, decide_False, hn_get_insert by done. destruct (decide (y = t)) as [->|]; [|done]. unfold hn_get. by rewrite Hnt. }
  split; [split|split].
  - done.
  - cbn. by rewrite ep_last_app.
  - done.
  - apply hchain_app. split.
    + rewrite <- (app_nil_r R) in H4. apply hchain_app in H4 as [H4 _]. eapply ep_hpath_ext; [..|exact H4]; [| |done].
      * intros y Hy. destruct (decide (y = t)) as [->|]; [by right|left]. by apply Hgn.
      * intros y Hy. apply Hgp. intros ->. apply (Hd x); [by right|left].
    + fold t. cbn. split; [|split].
      * unfold m2. rewrite hn_get_insert, decide_False, hn_get_insert, decide_True by done. done.
      * unfold m2. by rewrite hn_get_insert, decide_True by done.
      * apply (hchain_ext m); [| |done]; intros y Hy; [apply Hgn; intros ->; by apply (Hd t)|apply Hgp; by intros ->].
  - intros y Hy. unfold m2. rewrite !lookup_insert_ne; [done| |]; intros ->; apply Hy; rewrite app_comm_cons, elem_of_app; [left; exact Hin|right; left].
  - intros y Hy. unfold m2. destruct (decide (y = x)) as [->|]; [rewrite lookup_insert_eq; eauto|]. rewrite lookup_insert_ne by done.
    destruct (decide (y = t)) as [->|]; [rewrite lookup_insert_eq; eauto|by rewrite lookup_insert_ne].
Qed.

Lemma put_rest_spec z s g ep e r D O tl : einvx z s g → g_eps g !! ep = Some e → es_eps s !! ep = Some r → ge_phase e = Polling D O → (D ≠ [] → tl = dlast D) →
  ∃ m l, let s' := set_es_eps (<[ep := set_ep_rdlist l r]> (es_eps s)) (set_es_rdl m s) in
    put_rest ep (mk_nl (list.head D) tl) s = Some (tt, s') ∧ einvx z s' (gep_upd ep (mk_gep (ge_tree e) (ge_ready e ++ D) (Polling [] O)) g).
Proof.
  intros Hi He Hr Hph Htl. destruct (ep_get_ok _ Hi ep e He) as (r1 & Hr1 & Hok). rewrite Hr in Hr1. injection Hr1 as <-. destruct D as [|x D].
  { exists (es_rdl s), (ep_rdlist r). cbn zeta. rewrite rdlist_id by done. split; [done|]. rewrite app_nil_r. pose proof (ready_is_refl env z ep e g s He Hi) as Hr'. unfold ready_is, set_ready in Hr'. by rewrite Hph in Hr'. }
  destruct Hok as [O1 O2 O3 O4 O5 O6 O7 O8 O9 O10]. rewrite Hph in *. cbn in O3, O4, O5, O7. assert (HT : ∀ y, y ∈ ge_ready e ++ x :: D → y ∈ ge_tree e) by (intros y Hy; apply O5; set_solver).
  assert (Hnd : NoDup (ep :: ge_ready e ++ x :: D)) by (constructor; [intros Hy; by apply (tree_not_ep _ Hi _ _ _ _ _ He He (HT ep Hy))|done]).
  destruct (join_chains _ _ _ _ x D O2 O3 Hnd) as (m1 & m2 & H1 & H2 & H3 & H4 & H5). exists m2, (mk_ehl (hl_head (ep_rdlist r)) tl). split.
  - unfold put_rest. cbn [list.head nl_head nl_tail]. erewrite bind_run by (by apply ep_get_run). rewrite (bind_run _ _ _ (ep_last ep (ge_ready e)) s) by (unfold lift; by rewrite (eh_tail _ _ _ _ O2)).
    erewrite bind_run by (apply rdl_upd_run; rewrite H1; exact H2). exact (ep_upd_run _ ep (set_es_rdl m2 s) r Hr).
  - rewrite (Htl ltac:(done)). apply (einvx_queues env Hi ep e); cbn; [done|done|done|by rewrite Hph|by rewrite app_nil_r|by rewrite app_nil_r| |done|done|done|].
    + intros y Hy. apply H4. intros [->|Hy']%elem_of_cons; apply Hy; [left|right; by apply HT].
    + intros y Hy Hny. rewrite app_nil_r in Hny. rewrite H4; [by apply O7|]. intros [->|Hy']%elem_of_cons; [by apply (tree_not_ep _ Hi _ _ _ _ _ He He Hy)|done].
Qed.

(** ** The items with events that came meanwhile *)

(** An item of [ovflist] when it is put back. *)
Definition merged (it : epitem) : epitem := set_epi_next NSEP_EP_UNACTIVE_PTR (set_epi_ovf_revents 0 (set_epi_revents (Z.lor (epi_revents it) (epi_ovf_revents it)) it)).

(** The first item of [ovflist] is taken off it. *)
Lemma unchain z s g ep e r x it O : einvx z s g → g_eps g !! ep = Some e → es_eps s !! ep = Some r → ge_phase e = Merging (Ovf (Some x)) (x :: O) → es_items s !! x = Some it →
  einvx z (set_es_items (<[x := set_epi_next NSEP_EP_UNACTIVE_PTR it]> (es_items s)) s) (gep_upd ep (set_phase (Merging (epi_next it) O) e) g).
Proof.
  intros Hi He Hr Hph Hit. destruct (ep_get_ok _ Hi ep e He) as (r1 & Hr1 & Hok). rewrite Hr in Hr1. injection Hr1 as <-. destruct Hok as [O1 O2 O3 O4 O5 O6 O7 O8 O9 O10].
  rewrite Hph in *. cbn in O5, O6. destruct O6 as [(_ & it' & Hit' & Hch) Hnd]. rewrite Hit in Hit'. injection Hit' as <-. apply NoDup_cons in Hnd as [HxO Hnd].
  set (mi := <[x := _]> (es_items s)). assert (Hk : ∀ y, item_key0 <$> (mi !! y) = item_key0 <$> (es_items s !! y)) by
    (intros y; unfold mi; destruct (decide (y = x)) as [->|]; [by rewrite lookup_insert_eq, Hit|by rewrite lookup_insert_ne]).
  pose proof (einvx_gep env Hi ep e (set_phase (Merging (epi_next it) O) e) r r (es_rdl s) mi He Hr eq_refl) as Hc. cbn zeta in Hc.
  replace (set_es_eps (<[ep := r]> (es_eps s)) (set_es_items mi (set_es_rdl (es_rdl s) s))) with (set_es_items mi s) in Hc by
    (unfold set_es_eps; cbn; rewrite (insert_id (es_eps s) ep r Hr); by destruct s).
  apply Hc; [done|done|done| |done|done|].
  - intros y Hy. unfold mi. rewrite lookup_insert_ne; [done|]. intros <-. apply Hy, O5. rewrite elem_of_app. right. left.
  - split; cbn; rewrite ?Hph; cbn; try done.
    + eapply tree_inv_frame; [..|exact O1]; [|done|done]. intros y Hy. unfold fd_of. cbn. specialize (Hk y). destruct (mi !! y), (es_items s !! y); cbn in Hk; unfold item_key0 in Hk; congruence.
    + intros y Hy. apply O5. set_solver.
    + split; [|done]. apply (ovf_chain_ext (es_items s)); [|done]. intros y Hy. unfold mi. rewrite lookup_insert_ne; [done|by intros ->].
    + intros y Hy. destruct (O8 y Hy) as (it1 & H1 & H2 & H3 & H4 & H5 & H6). unfold item_ok. cbn. unfold mi. destruct (decide (y = x)) as [->|Hne].
      * rewrite Hit in H1. injection H1 as <-. rewrite lookup_insert_eq. eexists. split; [done|]. cbn. split; [done|]. split; [done|]. split; [done|]. split; [done|]. exact H6.
      * rewrite lookup_insert_ne by done. exists it1. split; [done|]. split; [done|]. split; [done|]. split; [done|]. split; [|exact H6]. intros HyO. apply H5. rewrite Hph. cbn. set_solver.
Qed.

Lemma push_any z s g ep e r x : einvx z s g → g_eps g !! ep = Some e → es_eps s !! ep = Some r → x ∈ ge_tree e → ph_rest (ge_phase e) = [] →
  ∃ m l, let s' := set_es_eps (<[ep := set_ep_rdlist l r]> (es_eps s)) (set_es_rdl m s) in
    linked x s = Some (bool_decide (x ∈ ge_ready e), s) ∧ when (negb (bool_decide (x ∈ ge_ready e))) (rdlist_upd (λ m l, ep_hlist_add_tail m l x) ep) s = Some (tt, s') ∧ einvx z s' (gep_upd ep (set_ready (push x (ge_ready e)) e) g).
Proof.
  intros Hi He Hr Hx Hrest. rewrite (linked_run env z s g ep e) by done. rewrite Hrest, app_nil_r. unfold push. case_bool_decide as Hin; cbn [negb when].
  - exists (es_rdl s), (ep_rdlist r). cbn zeta. rewrite rdlist_id by done. split; [done|]. split; [done|]. exact (ready_is_refl env z ep e g s He Hi).
  - destruct (ready_add _ Hi ep e r x He Hr Hx) as (m & l & Hrun & Hi'); [by rewrite Hrest, app_nil_r|]. by exists m, l.
Qed.

Definition push_all (O R : list Z) : list Z := foldl (λ R x, push x R) R O.

Lemma put_ovf_spec num fuel s g ep e r p O flag : einv s g → g_eps g !! ep = Some e → es_eps s !! ep = Some r → ge_phase e = Merging p O → (length O <= fuel)%nat →
  (match flag with Some f => num <= Z.of_nat (length f) | None => True end) →
  ∃ s' l flag', put_ovf fuel ep num p flag s = Some (flag', s') ∧ length <$> flag' = length <$> flag ∧
    einv s' (gep_upd ep (mk_gep (ge_tree e) (push_all O (ge_ready e)) (Merging (Ovf None) [])) g) ∧
    es_world s' = es_world s ∧ es_infos s' = es_infos s ∧ es_eps s' = <[ep := set_ep_rdlist l r]> (es_eps s) ∧
    (∀ x, es_items s' !! x = (if bool_decide (x ∈ O) then merged <$> (es_items s !! x) else es_items s !! x)).
Proof.
  revert fuel s g e r p flag. induction O as [|x O IH]; intros fuel s g e r p flag Hi He Hr Hph Hfuel Hflag; destruct (ep_get_ok _ Hi ep e He) as (r1 & Hr1 & Hok);
    rewrite Hr in Hr1; injection Hr1 as <-; pose proof (eo_ovf _ _ _ _ _ _ _ Hok) as Hov; rewrite Hph in Hov; cbn in Hov.
  { destruct Hov as [-> _]. exists s, (ep_rdlist r), flag. split; [by destruct fuel|]. split; [done|].
    split; [pose proof (ready_is_refl env [] ep e g s He Hi) as Hc; unfold ready_is, set_ready in Hc; by rewrite Hph in Hc|].
    split; [done|]. split; [done|]. split; [|done]. replace (set_ep_rdlist (ep_rdlist r) r) with r by (by destruct r). by rewrite insert_id. }
  destruct Hov as [(-> & it & Hit & Hch) Hnd]. apply NoDup_cons in Hnd as [HxO Hnd]. destruct fuel as [|fuel]; [cbn in Hfuel; lia|]. cbn [put_ovf].
  assert (HxT : x ∈ ge_tree e) by (apply (eo_sub _ _ _ _ _ _ _ Hok); rewrite Hph; cbn; set_solver). destruct (rest_view s g ep e x Hi He HxT) as (it' & i & q & Hit' & Hpi & Hq & Hfl & _).
  rewrite Hit in Hit'. injection Hit' as <-. erewrite bind_run by (by apply item_upd_run). cbn beta. set (it1 := set_epi_revents (Z.lor (epi_revents it) (epi_ovf_revents it)) it). set (s1 := set_es_items _ s).
  assert (Hi1 : einv s1 g) by (eapply einvx_soft; [|exact Hi]; by apply (soft_item (λ i, set_epi_revents (Z.lor (epi_revents i) (epi_ovf_revents i)) i))).
  assert (Hit1 : es_items s1 !! x = Some it1) by apply lookup_insert_eq. erewrite bind_run by (by apply item_get_run). change (epi_private_data it1) with (epi_private_data it). rewrite Hpi.
  destruct (mark_flag_run flag (info_rmidx q) num s1 Hflag) as (flag1 & Hfl1 & Hlen1). rewrite (bind_run _ _ _ flag1 s1) by (erewrite bind_run by (by apply info_get_run); done).
  erewrite bind_run by (by apply item_upd_run). set (it2 := set_epi_ovf_revents 0 it1). set (s2 := set_es_items _ s1). assert (Hi2 : einv s2 g) by (eapply einvx_soft; [|exact Hi1]; by apply soft_item).
  assert (Hit2 : es_items s2 !! x = Some it2) by apply lookup_insert_eq.
  destruct (push_any [] s2 g ep e r x Hi2 He Hr HxT) as (m & l1 & Hl & Hpu & Hi3); [by rewrite Hph|]. set (s3 := set_es_eps _ _) in Hpu, Hi3. rewrite (bind_run _ _ _ _ _ Hl), (bind_run _ _ _ _ _ Hpu).
  erewrite bind_run by (by apply item_get_run). erewrite bind_run by (by apply item_upd_run). set (e3 := set_ready _ e) in Hi3.
  pose proof (unchain [] s3 (gep_upd ep e3 g) ep e3 (set_ep_rdlist l1 r) x it2 O Hi3 ltac:(apply lookup_insert_eq) ltac:(apply lookup_insert_eq) Hph Hit2) as Hi4.
  set (s4 := set_es_items _ s3) in *. change (epi_next it2) with (epi_next it) in *. set (e4 := set_phase _ e3) in Hi4.
  destruct (IH fuel s4 (gep_upd ep e4 (gep_upd ep e3 g)) e4 (set_ep_rdlist l1 r) (epi_next it) flag1) as (s' & l & flag' & A1 & A2 & A3 & A4 & A5 & A6 & A7);
    [exact Hi4|apply lookup_insert_eq|apply lookup_insert_eq|done|cbn in Hfuel; lia|destruct flag, flag1; cbn in Hlen1; simplify_eq; [lia|done]|].
  exists s', l, flag'. split; [exact A1|]. split; [congruence|]. split; [unfold gep_upd in A3 |- *; cbn in A3; by rewrite !insert_insert_eq in A3|]. split; [done|]. split; [done|].
  split; [rewrite A6; cbn; rewrite insert_insert_eq; by destruct r|]. intros y. rewrite A7. cbn. destruct (decide (y = x)) as [->|Hne].
  - rewrite !lookup_insert_eq, bool_decide_eq_false_2, bool_decide_eq_true_2, Hit by (done || left). done.
  - rewrite !lookup_insert_ne by done. repeat case_bool_decide; set_solver.
Qed.

(** ** The end of a poll *)

Lemma merge_begin z s g ep e r O : einvx z s g → g_eps g !! ep = Some e → es_eps s !! ep = Some r → ge_phase e = Polling [] O →
  einvx z s (gep_upd ep (set_phase (Merging (ep_ovflist r) O) e) g).
Proof.
  intros Hi He Hr Hph. destruct (ep_get_ok _ Hi ep e He) as (r1 & Hr1 & Hok). rewrite Hr in Hr1. injection Hr1 as <-. apply (einvx_ghost z s g ep e _ r Hi He Hr); [done|].
  destruct Hok as [O1 O2 O3 O4 O5 O6 O7 O8 O9 O10]. rewrite Hph in *. split; cbn; try done. intros x Hx. specialize (O8 x Hx). unfold item_ok in *. rewrite Hph in O8. exact O8.
Qed.

Lemma merge_end z s g ep e r : einvx z s g → g_eps g !! ep = Some e → es_eps s !! ep = Some r → ge_phase e = Merging (Ovf None) [] →
  einvx z (set_es_eps (<[ep := set_ep_ovflist NSEP_EP_UNACTIVE_PTR r]> (es_eps s)) s) (gep_upd ep (set_phase Idle e) g).
Proof.
  intros Hi He Hr Hph. destruct (ep_get_ok _ Hi ep e He) as (r1 & Hr1 & Hok). rewrite Hr in Hr1. injection Hr1 as <-.
  pose proof (einvx_gep env Hi ep e (set_phase Idle e) r (set_ep_ovflist NSEP_EP_UNACTIVE_PTR r) (es_rdl s) (es_items s) He Hr eq_refl) as Hc. cbn zeta in Hc.
  replace (set_es_items (es_items s) (set_es_rdl (es_rdl s) s)) with s in Hc by (by destruct s). apply Hc; try done.
  destruct Hok as [O1 O2 O3 O4 O5 O6 O7 O8 O9 O10]. rewrite Hph in *. split; cbn; try done. intros x Hx. specialize (O8 x Hx). unfold item_ok in *. rewrite Hph in O8. exact O8.
Qed.

Lemma list_fuel_enough s g ep e X : einv s g → g_eps g !! ep = Some e → NoDup X → (∀ x, x ∈ X → x ∈ ge_tree e) → (length X <= list_fuel)%nat.
Proof.
  intros Hi He Hnd Hsub. assert (Z.of_nat (length X) <= NSTACK_MAX_EPITEM_NUM) as Hl.
  { eapply tree_length; [exact Hi|exact He|done|]. intros x Hx. destruct (tree_item _ Hi ep e x He (Hsub x Hx)) as (it & Hit & _). eauto. }
  unfold list_fuel. lia.
Qed.

Lemma poll_finish_spec num s g ep e r D O tl flag : einv s g → g_eps g !! ep = Some e → es_eps s !! ep = Some r → ge_phase e = Polling D O → (D ≠ [] → tl = dlast D) →
  (match flag with Some f => num <= Z.of_nat (length f) | None => True end) →
  ∃ s' l flag', poll_finish ep num (mk_nl (list.head D) tl) flag s = Some (flag', s') ∧ length <$> flag' = length <$> flag ∧
    einv s' (gep_upd ep (mk_gep (ge_tree e) (push_all O (ge_ready e ++ D)) Idle) g) ∧
    es_world s' = es_world s ∧ es_infos s' = es_infos s ∧ es_eps s' = <[ep := set_ep_ovflist NSEP_EP_UNACTIVE_PTR (set_ep_rdlist l r)]> (es_eps s) ∧
    (∀ x, es_items s' !! x = (if bool_decide (x ∈ O) then merged <$> (es_items s !! x) else es_items s !! x)).
Proof.
  intros Hi He Hr Hph Htl Hflag. destruct (ep_get_ok _ Hi ep e He) as (r1 & Hr1 & Hok). rewrite Hr in Hr1. injection Hr1 as <-.
  pose proof (eo_ovf _ _ _ _ _ _ _ Hok) as Hov. rewrite Hph in Hov. destruct Hov as [_ Hnd].
  assert (Hfuel : (length O <= list_fuel)%nat) by (apply (list_fuel_enough s g ep e O Hi He Hnd); intros x Hx; apply (eo_sub _ _ _ _ _ _ _ Hok); rewrite Hph; cbn; set_solver).
  destruct (put_rest_spec [] s g ep e r D O tl Hi He Hr Hph Htl) as (m & l1 & H1 & Hi1). set (s1 := set_es_eps _ _) in H1, Hi1. set (e1 := mk_gep _ _ _) in Hi1.
  assert (Hr1 : es_eps s1 !! ep = Some (set_ep_rdlist l1 r)) by apply lookup_insert_eq.
  pose proof (merge_begin [] s1 _ ep e1 _ O Hi1 (lookup_insert_eq _ _ _) Hr1 eq_refl) as Hi2. set (e2 := set_phase _ e1) in Hi2.
  destruct (put_ovf_spec num list_fuel s1 _ ep e2 _ (ep_ovflist (set_ep_rdlist l1 r)) O flag Hi2 (lookup_insert_eq _ _ _) Hr1 eq_refl Hfuel Hflag) as (s3 & l3 & flag3 & A1 & A2 & A3 & A4 & A5 & A6 & A7).
  assert (Hr3 : es_eps s3 !! ep = Some (set_ep_rdlist l3 (set_ep_rdlist l1 r))) by (rewrite A6; apply lookup_insert_eq).
  pose proof (merge_end [] s3 _ ep _ _ A3 (lookup_insert_eq _ _ _) Hr3 eq_refl) as Hi4. eexists _, l3, flag3. split.
  { unfold poll_finish. rewrite (bind_run _ _ _ _ _ H1). erewrite bind_run by (by apply ep_get_run). rewrite (bind_run _ _ _ _ _ A1). erewrite bind_run by (by apply ep_upd_run). done. }
  split; [done|]. split; [unfold gep_upd in Hi4 |- *; cbn in Hi4; by rewrite !insert_insert_eq in Hi4|]. split; [done|]. split; [done|]. split; [|done].
  cbn. rewrite A6. cbn. rewrite !insert_insert_eq. by destruct r.
Qed.

(** ** A poll without interruption *)

Lemma dlast_suffix h P D : D ≠ [] → Some (ep_last h (P ++ D)) = dlast D.
Proof. destruct D as [|x D]; [done|]. intros _. cbn. by rewrite ep_last_app. Qed.

Lemma ep_poll_spec s g ep e r o max num : einv s g → g_eps g !! ep = Some e → es_eps s !! ep = Some r → ge_phase e = Idle →
  0 < max <= Z.of_nat (length (po_events o)) → (match po_flag o with Some f => num <= Z.of_nat (length f) | None => True end) →
  ∃ evs R' P D' w' s' o', polled s (ep_epfd r) max (ge_ready e) (es_world s) [] [] = Some (evs, R', D', w') ∧ ge_ready e = P ++ D' ∧
    nsep_ep_poll env ep o max num s = Some ((o', Z.of_nat (length evs)), s') ∧ po_events o' = evs ++ drop (length evs) (po_events o) ∧ Z.of_nat (length evs) <= max ∧
    einv s' (gep_upd ep (mk_gep (ge_tree e) (R' ++ D') Idle) g) ∧ es_world s' = w' ∧ es_infos s' = es_infos s ∧
    (∀ x, es_items s' !! x = (if bool_decide (x ∈ P) then set_epi_revents 0 <$> (es_items s !! x) else es_items s !! x)) ∧
    (∃ l, es_eps s' = <[ep := set_ep_rdlist l r]> (es_eps s)) ∧ length <$> po_flag o' = length <$> po_flag o.
Proof.
  intros Hi He Hr Hidle Hmax Hflag. assert (Hovf : ep_ovflist r = NSEP_EP_UNACTIVE_PTR).
  { destruct (ep_get_ok _ Hi ep e He) as (r1 & Hr1 & Hok). rewrite Hr in Hr1. injection Hr1 as <-. pose proof (eo_ovf _ _ _ _ _ _ _ Hok) as Hov. by rewrite Hidle in Hov. }
  unfold nsep_ep_poll. erewrite bind_run by (by apply (rdlist_empty_run [] s g ep e)). destruct (ge_ready e) as [|x R] eqn:HR.
  { exists [], [], [], [], (es_world s), s, o. split; [done|]. split; [done|]. split; [done|]. split; [done|]. split; [cbn; lia|].
    split; [pose proof (ready_is_refl env [] ep e g s He Hi) as Hc; unfold ready_is, set_ready in Hc; by rewrite Hidle, HR in Hc|]. split; [done|]. split; [done|]. split; [done|]. split; [|done].
    exists (ep_rdlist r). replace (set_ep_rdlist (ep_rdlist r) r) with r by (by destruct r). by rewrite insert_id. }
  rewrite bool_decide_eq_false_2 by done. erewrite bind_run by (by apply (rdlist_empty_run [] s g ep e)). rewrite HR, bool_decide_eq_false_2, <- HR by done.
  destruct (poll_detach_spec [] s g ep e r Hi He Hr Hidle) as (m & l & H1 & Hi1). rewrite (bind_run _ _ _ _ _ H1). set (s1 := set_es_eps _ _) in *. set (e1 := mk_gep _ _ _) in Hi1.
  assert (Hfuel : (length (ge_ready e) <= list_fuel)%nat).
  { destruct (ep_get_ok _ Hi ep e He) as (r1 & _ & Hok). apply (list_fuel_enough s g ep e _ Hi He); [by apply (NoDup_app (ge_ready e) (ph_rest (ge_phase e))), (eo_queued _ _ _ _ _ _ _ Hok)|].
    intros y Hy. apply (eo_sub _ _ _ _ _ _ _ Hok). set_solver. }
  destruct (events_loop_spec s num max list_fuel s1 (gep_upd ep e1 g) ep e1 (set_ep_ovflist (Ovf None) (set_ep_rdlist l r)) (ge_ready e) [] o [] (es_world s)) as (evs & R' & P & D' & w' & s2 & l2 & o2 & A1 & A2 & A3 & A4 & A5 & A6 & A7 & A8 & A9 & A10 & A11);
    [exact Hi1|apply lookup_insert_eq|apply lookup_insert_eq|done|done|done|done|done|cbn; lia|lia|done|done|].
  unfold nsep_events_proc. cbn [nl_head nl_tail]. change (Z.of_nat (length (@nil epoll_event))) with 0 in A3. erewrite bind_run by (rewrite (bind_run _ _ _ _ _ A3); cbn beta iota; done). cbn beta iota.
  destruct (poll_finish_spec num s2 _ ep _ _ D' [] (if bool_decide (list.head D' = None) then None else Some (ep_last ep (ge_ready e))) (po_flag o2) A7 (lookup_insert_eq _ _ _)
    ltac:(rewrite A10; apply lookup_insert_eq) eq_refl) as (s3 & l3 & flag3 & B1 & B2 & B3 & B4 & B5 & B6 & B7).
  { intros HD. rewrite A2, bool_decide_eq_false_2 by (by destruct D'). by apply dlast_suffix. }
  { destruct (po_flag o), (po_flag o2); cbn in A5; simplify_eq; [lia|done]. }
  rewrite (bind_run _ _ _ _ _ B1). exists evs, R', P, D', w', s3, (mk_po (po_events o2) flag3). split; [exact A1|]. split; [done|]. split; [done|]. split; [done|]. split; [done|].
  split; [unfold gep_upd in B3 |- *; cbn in B3; by rewrite !insert_insert_eq in B3|]. split; [congruence|]. split; [by rewrite B5, A9|].
  split; [intros y; rewrite B7, A11, (bool_decide_eq_false_2 (y ∈ [])) by apply not_elem_of_nil; reflexivity|]. split; [|cbn; congruence].
  exists l3. rewrite B6, A10. cbn. rewrite !insert_insert_eq. f_equal. unfold set_ep_ovflist, set_ep_rdlist. cbn. by rewrite Hovf.
Qed.
End poll.
