(* ===== verification/EpollEvents.v ===== *)
(** * Epoll: events that come while an event poll is polled

    The callback of the stacks puts an item on the ready list, or on [ovflist] while a poll has the ready list.  A poll and the callbacks
    exclude each other only during the detaching of the list and the end of the poll, so they are the steps of a machine here; no event is lost in
    any order of the steps. *)
From S2P Require Import Prelude.
From S2P Require Import Queue.
From S2P Require Import RbTree.
From S2P Require Import RbTreeProofs.
From S2P Require Import EpList.
From S2P Require Import EpollData.
From S2P Require Import Epoll.
From S2P Require Import EpollPoll.
From S2P Require Import EpollInv.
From S2P Require Import EpollCtl.
From S2P Require Import EpollPollProofs.

Section events.
Context {Q W : Type} `{BoundedQueue Q} (env : stack_env W).
Abbreviation st := (est Q W).
Abbreviation einvx := (einvx env).
Abbreviation einv := (einv env).
Implicit Types (s : st) (g : ghost).

(** ** The callback on one item *)

Lemma callback_idle s g ep e r x it evs : einv s g → g_eps g !! ep = Some e → es_eps s !! ep = Some r → ge_phase e = Idle → x ∈ ge_tree e → es_items s !! x = Some it →
  ∃ s', callback_item x ep evs s = Some (tt, s') ∧ einv s' (gep_upd ep (set_ready (push x (ge_ready e)) e) g) ∧
    es_items s' = <[x := set_epi_revents (Z.lor (epi_revents it) (Z.land (events (epi_event it)) (wrap32 evs))) it]> (es_items s) ∧
    (∃ l, es_eps s' = <[ep := set_ep_waitSem (ep_waitSem r + (if bool_decide (x ∈ ge_ready e) then 0 else 1)) (set_ep_rdlist l r)]> (es_eps s)) ∧
    es_infos s' = es_infos s ∧ es_world s' = es_world s.
Proof.
  intros Hi He Hr Hidle Hx Hit. destruct (ep_get_ok _ Hi ep e He) as (r1 & Hr1 & Hok). rewrite Hr in Hr1. injection Hr1 as <-.
  pose proof (eo_ovf _ _ _ _ _ _ _ Hok) as Hov. rewrite Hidle in Hov. unfold callback_item. erewrite bind_run by (by apply ep_get_run). rewrite Hov, bool_decide_eq_true_2 by done. cbn [negb].
  destruct (push_any env [] s g ep e r x Hi He Hr Hx) as (m & l & Hl & Hpu & Hi1); [by rewrite Hidle|]. rewrite (bind_run _ _ _ _ _ Hl). set (s1 := set_es_eps _ _) in *.
  assert (∃ s2, (when (negb (bool_decide (x ∈ ge_ready e))) (_ ← rdlist_upd (λ m l, ep_hlist_add_tail m l x) ep; ep_upd (λ r, set_ep_waitSem (ep_waitSem r + 1) r) ep)) s = Some (tt, s2) ∧
    soft s1 s2 ∧ es_items s2 = es_items s ∧ es_infos s2 = es_infos s ∧ es_world s2 = es_world s ∧ 
    es_eps s2 = <[ep := set_ep_waitSem (ep_waitSem r + (if bool_decide (x ∈ ge_ready e) then 0 else 1)) (set_ep_rdlist l r)]> (es_eps s)) as (s2 & H2 & Hs2 & E1 & E2 & E3 & E4).
  { case_bool_decide; cbn [negb when] in *.
    - exists s1. split; [exact Hpu|]. split; [done|]. split; [done|]. split; [done|]. split; [done|]. cbn. rewrite Z.add_0_r. by destruct r.
    - eexists. split; [rewrite (bind_run _ _ _ _ _ Hpu); apply ep_upd_run, lookup_insert_eq|]. split; [apply (soft_ep (λ r, set_ep_waitSem (ep_waitSem r + 1) r)); [apply lookup_insert_eq|done]|].
      split; [done|]. split; [done|]. split; [done|]. cbn. by rewrite insert_insert_eq. }
  rewrite (bind_run _ _ _ _ _ H2). rewrite <- E1 in Hit. eexists. split; [by apply item_upd_run|]. split; [|split; [by rewrite <- E1|split; [by exists l|done]]].
  eapply einvx_soft; [by apply (soft_item (λ i, set_epi_revents (Z.lor (epi_revents i) (Z.land (events (epi_event i)) (wrap32 evs))) i))|]. by eapply einvx_soft.
Qed.

(** An item of [ovflist] points at the next one. *)
Lemma ovf_chain_next m p O x it : ovf_chain m p O → x ∈ O → m !! x = Some it → epi_next it ≠ NSEP_EP_UNACTIVE_PTR.
Proof.
  revert p. induction O as [|y O IH]; intros p; [by intros _ ?%elem_of_nil|]. cbn. intros (_ & it' & Hy & Hc) Hx Hit. apply elem_of_cons in Hx as [->|Hx]; [|by eapply IH].
  rewrite Hit in Hy. injection Hy as <-. destruct O; cbn in Hc; [by rewrite Hc|]. destruct Hc as [-> _]. done.
Qed.

Definition ovf_add (x : Z) (O : list Z) : list Z := if bool_decide (x ∈ O) then O else x :: O.

(** The item becomes the first of [ovflist]. *)
Lemma chain_add z s g ep e r x it D O : einvx z s g → g_eps g !! ep = Some e → es_eps s !! ep = Some r → ge_phase e = Polling D O → x ∈ ge_tree e → x ∉ O → es_items s !! x = Some it →
  einvx z (set_es_eps (<[ep := set_ep_ovflist (Ovf (Some x)) r]> (es_eps s)) (set_es_items (<[x := set_epi_next (ep_ovflist r) it]> (es_items s)) s))
    (gep_upd ep (set_phase (Polling D (x :: O)) e) g).
Proof.
  intros Hi He Hr Hph HxT HxO Hit. destruct (ep_get_ok _ Hi ep e He) as (r1 & Hr1 & Hok). rewrite Hr in Hr1. injection Hr1 as <-. destruct Hok as [O1 O2 O3 O4 O5 O6 O7 O8 O9 O10].
  rewrite Hph in *. cbn in O3, O4, O5, O6, O7. destruct O6 as [Hch Hnd]. set (mi := <[x := _]> (es_items s)).
  assert (Hk : ∀ y, item_key0 <$> (mi !! y) = item_key0 <$> (es_items s !! y)) by (intros y; unfold mi; destruct (decide (y = x)) as [->|]; [by rewrite lookup_insert_eq, Hit|by rewrite lookup_insert_ne]).
  pose proof (einvx_gep env Hi ep e (set_phase (Polling D (x :: O)) e) r (set_ep_ovflist (Ovf (Some x)) r) (es_rdl s) mi He Hr eq_refl) as Hc. cbn zeta in Hc.
  replace (set_es_items mi (set_es_rdl (es_rdl s) s)) with (set_es_items mi s) in Hc by (by destruct s). apply Hc; [done|done|done| |done|done|].
  - intros y Hy. unfold mi. rewrite lookup_insert_ne; [done|by intros ->].
  - split; cbn; try done.
    + eapply tree_inv_frame; [..|exact O1]; [|done|done]. intros y Hy. unfold fd_of. cbn. specialize (Hk y). destruct (mi !! y), (es_items s !! y); cbn in Hk; unfold item_key0 in Hk; congruence.
    + intros y Hy. rewrite !elem_of_app, elem_of_cons in Hy. destruct Hy as [?|[?|[->|?]]]; [apply O5; set_solver|apply O5; set_solver|done|apply O5; set_solver].
    + split; [|by constructor]. split; [done|]. eexists. split; [apply lookup_insert_eq|]. cbn. apply (ovf_chain_ext (es_items s)); [|done]. intros y Hy. unfold mi. rewrite lookup_insert_ne; [done|by intros ->].
    + intros y Hy. destruct (O8 y Hy) as (it1 & H1 & H2 & H3 & H4 & H5 & H6). rewrite Hph in H5. cbn in H5. unfold item_ok. cbn. unfold mi. destruct (decide (y = x)) as [->|Hne].
      * rewrite Hit in H1. injection H1 as <-. rewrite lookup_insert_eq. eexists. split; [done|]. cbn. split; [done|]. split; [done|]. split; [done|]. split; [intros []; left|]. exact H6.
      * rewrite lookup_insert_ne by done. exists it1. split; [done|]. split; [done|]. split; [done|]. split; [done|]. split; [|exact H6]. intros HyO. apply H5. set_solver.
Qed.

Lemma callback_polling s g ep e r x it evs D O : einv s g → g_eps g !! ep = Some e → es_eps s !! ep = Some r → ge_phase e = Polling D O → x ∈ ge_tree e → es_items s !! x = Some it →
  ∃ s' n, callback_item x ep evs s = Some (tt, s') ∧ einv s' (gep_upd ep (set_phase (Polling D (ovf_add x O)) e) g) ∧
    es_items s' = <[x := set_epi_ovf_revents (Z.lor (epi_ovf_revents it) (wrap32 evs)) (set_epi_next n it)]> (es_items s) ∧
    (∃ p, es_eps s' = <[ep := set_ep_ovflist p r]> (es_eps s)) ∧ es_infos s' = es_infos s ∧ es_world s' = es_world s ∧ es_rdl s' = es_rdl s.
Proof.
  intros Hi He Hr Hph Hx Hit. destruct (ep_get_ok _ Hi ep e He) as (r1 & Hr1 & Hok). rewrite Hr in Hr1. injection Hr1 as <-.
  pose proof (eo_ovf _ _ _ _ _ _ _ Hok) as Hov. rewrite Hph in Hov. destruct Hov as [Hch Hnd]. unfold callback_item. erewrite bind_run by (by apply ep_get_run).
  assert (Hact : ep_ovflist r ≠ NSEP_EP_UNACTIVE_PTR) by (destruct O; cbn in Hch; [by rewrite Hch|by destruct Hch as [-> _]]). rewrite bool_decide_eq_false_2 by done. cbn [negb].
  erewrite bind_run by (by apply item_get_run). unfold ovf_add. destruct (decide (x ∈ O)) as [HxO|HxO].
  - rewrite bool_decide_eq_false_2 by (by eapply ovf_chain_next). rewrite (bind_run _ _ _ tt s) by done. rewrite bool_decide_eq_true_2 by done.
    eexists _, (epi_next it). split; [by apply item_upd_run|]. split; [|split; [by destruct it|split; [exists (ep_ovflist r); replace (set_ep_ovflist (ep_ovflist r) r) with r by (by destruct r); by rewrite (insert_id (es_eps s) ep r Hr)|done]]].
    eapply einvx_soft; [by apply (soft_item (λ i, set_epi_ovf_revents (Z.lor (epi_ovf_revents i) (wrap32 evs)) i))|]. rewrite <- Hph.
    pose proof (ready_is_refl env [] ep e g s He Hi) as Hc. unfold ready_is in Hc. by destruct e.
  - assert (epi_next it = NSEP_EP_UNACTIVE_PTR) as Hn. { destruct (tree_item _ Hi ep e x He Hx) as (it' & Hit' & _ & _ & _ & Hn & _). rewrite Hit in Hit'. injection Hit' as <-. apply Hn. by rewrite Hph. }
    rewrite Hn, bool_decide_eq_true_2 by done. cbn [when]. pose proof (chain_add [] s g ep e r x it D O Hi He Hr Hph Hx HxO Hit) as Hi1. set (s1 := set_es_eps _ _) in Hi1.
    rewrite (bind_run _ _ _ tt s1) by (erewrite bind_run by (by apply item_upd_run); by apply (ep_upd_run _ ep (set_es_items _ s))). rewrite bool_decide_eq_false_2 by done.
    assert (Hit1 : es_items s1 !! x = Some (set_epi_next (ep_ovflist r) it)) by apply lookup_insert_eq. eexists _, (ep_ovflist r). split; [by apply item_upd_run|]. split; [|split; [|split; [by eexists|done]]].
    + eapply einvx_soft; [by apply (soft_item (λ i, set_epi_ovf_revents (Z.lor (epi_ovf_revents i) (wrap32 evs)) i))|exact Hi1].
    + cbn. by rewrite insert_insert_eq.
Qed.

(** ** The machine *)

Section machine.
(** The event poll, the size of the caller's array, the number of flags, the registered items. *)
Context (ep max num : Z) (X : list Z).

(** Where a poll is: none, in the loop of [nsep_events_proc], behind it. *)
Inductive pc := Out | Loop (head tail : option Z) (o : poll_out) (evt : Z) | Ending (nhead : ep_node_list) (o : poll_out) (evt : Z).
Inductive label := LTau | LEvent (x v : Z) | LReport (x v : Z).

Definition room (o : poll_out) : Prop := max <= Z.of_nat (length (po_events o)) ∧ match po_flag o with Some f => num <= Z.of_nat (length f) | None => True end.

(** The events written when the count goes from [evt] to [evt']. *)
Definition reported (o : poll_out) (evt evt' : Z) : Z := if evt <? evt' then default 0 (events <$> aread (po_events o) evt) else 0.

Inductive step : st * pc → label → st * pc → Prop :=
| step_event s p x it evs s' : x ∈ X → es_items s !! x = Some it → has (events (epi_event it)) (wrap32 evs) = true → callback_item x ep evs s = Some (tt, s') →
    step (s, p) (LEvent x (Z.land (events (epi_event it)) (wrap32 evs))) (s', p)
| step_begin s s' nh o : room o → rdlist_empty ep s = Some (false, s) → poll_detach ep s = Some (Some nh, s') → step (s, Out) LTau (s', Loop (nl_head nh) (nl_tail nh) o 0)
| step_item s h t o evt next s' o' evt' : hn_get hn_next (es_rdl s) h = Some next → proc_item env ep h num o evt s = Some ((o', evt'), s') →
    step (s, Loop (Some h) t o evt) (LReport h (reported o' evt evt'))
      (s', if max <=? evt' then Ending (mk_nl next (if bool_decide (next = None) then None else t)) o' evt' else Loop next t o' evt')
| step_drained s t o evt : step (s, Loop None t o evt) LTau (s, Ending (mk_nl None None) o evt)
| step_end s nh o evt flag s' : poll_finish ep num nh (po_flag o) s = Some (flag, s') → step (s, Ending nh o evt) LTau (s', Out).

Inductive run : st * pc → list label → st * pc → Prop :=
| run_nil m : run m [] m
| run_cons m l m1 tr m2 : step m l m1 → run m1 tr m2 → run m (l :: tr) m2.

(** What the place of the poll says of the ghost state. *)
Definition at_pc (p : pc) (ph : phase) : Prop :=
  match p, ph with
  | Out, Idle => True
  | Loop h t o evt, Polling D _ => h = list.head D ∧ (D ≠ [] → t = dlast D) ∧ room o ∧ 0 <= evt < max
  | Ending nh o _, Polling D _ => (∃ tl, nh = mk_nl (list.head D) tl ∧ (D ≠ [] → tl = dlast D)) ∧ room o
  | _, _ => False
  end.

Definition minv (m : st * pc) (e : gep) : Prop := ∃ g, einv m.1 g ∧ g_eps g !! ep = Some e ∧ ge_tree e = X ∧ at_pc m.2 (ge_phase e).

(** The event bit [b] of the item [x] is yet to be reported. *)
Definition owes (m : st * pc) (e : gep) (x b : Z) : Prop :=
  ∃ it, es_items m.1 !! x = Some it ∧
    ((x ∈ ge_ready e ++ ph_rest (ge_phase e) ∧ Z.testbit (epi_revents it) b = true) ∨ (x ∈ ph_ovf (ge_phase e) ∧ Z.testbit (epi_ovf_revents it) b = true)).

(** A step keeps what is owed or reports it; an event is owed. *)
Definition step_ok (m : st * pc) (e : gep) (l : label) (m' : st * pc) (e' : gep) : Prop :=
  minv m' e' ∧ (∀ x b, owes m e x b → owes m' e' x b ∨ ∃ v, l = LReport x v ∧ Z.testbit v b = true) ∧ (∀ x v b, l = LEvent x v → Z.testbit v b = true → owes m' e' x b).

Lemma elem_of_push' x y R : y ∈ R → y ∈ push x R.
Proof. unfold push. case_bool_decide; [done|]. rewrite elem_of_app. by left. Qed.
Lemma elem_of_push_all y O R : y ∈ O ∨ y ∈ R → y ∈ push_all O R.
Proof.
  revert R. induction O as [|x O IH]; intros R; cbn; [by intros [?%elem_of_nil|]|]. intros Hy. apply IH. destruct Hy as [[->|Hy]%elem_of_cons|Hy]; [right; apply elem_of_push|by left|right; by apply elem_of_push'].
Qed.

Lemma minv_ep m e : minv m e → ∃ g r, einv m.1 g ∧ g_eps g !! ep = Some e ∧ es_eps m.1 !! ep = Some r ∧ ge_tree e = X ∧ at_pc m.2 (ge_phase e).
Proof. intros (g & Hi & He & Ht & Hpc). destruct (ep_get_ok _ Hi ep e He) as (r & Hr & _). by exists g, r. Qed.

Lemma step_event_ok s p e x it evs s' : minv (s, p) e → x ∈ X → es_items s !! x = Some it → callback_item x ep evs s = Some (tt, s') →
  ∃ e', step_ok (s, p) e (LEvent x (Z.land (events (epi_event it)) (wrap32 evs))) (s', p) e'.
Proof.
  intros Hm Hx Hit Hrun. destruct (minv_ep _ _ Hm) as (g & r & Hi & He & Hr & Ht & Hpc). cbn in Hi, Hr, Hpc. rewrite <- Ht in Hx.
  destruct (ge_phase e) as [|D O|] eqn:Hph; [| |by destruct p].
  - destruct (callback_idle s g ep e r x it evs Hi He Hr Hph Hx Hit) as (s1 & H1 & Hi1 & Hit1 & _). rewrite Hrun in H1. injection H1 as <-.
    exists (set_ready (push x (ge_ready e)) e). split; [|split].
    + exists (gep_upd ep (set_ready (push x (ge_ready e)) e) g). cbn. rewrite Hph. split; [done|]. split; [apply lookup_insert_eq|done].
    + intros y b (it1 & Hy & Ho). cbn in Hy. rewrite Hph in Ho. cbn in Ho. rewrite app_nil_r in Ho. destruct Ho as [[HyR Hb]|[?%elem_of_nil _]]; [|done]. left. unfold owes. cbn. rewrite Hit1, Hph. cbn. rewrite app_nil_r.
      destruct (decide (y = x)) as [->|Hne]; [|rewrite lookup_insert_ne by done; exists it1; split; [done|left; split; [by apply elem_of_push'|done]]].
      rewrite Hit in Hy. injection Hy as <-. rewrite lookup_insert_eq. eexists. split; [done|]. left. split; [by apply elem_of_push'|]. cbn. by rewrite Z.lor_spec, Hb.
    + intros y v b [= <- <-] Hb. unfold owes. cbn. rewrite Hit1, lookup_insert_eq, Hph. cbn. eexists. split; [done|]. left. split; [rewrite app_nil_r; apply elem_of_push|]. cbn. by rewrite Z.lor_spec, Hb, orb_true_r.
  - destruct (callback_polling s g ep e r x it evs D O Hi He Hr Hph Hx Hit) as (s1 & n & H1 & Hi1 & Hit1 & _). rewrite Hrun in H1. injection H1 as <-.
    assert (Hadd : ∀ y, y ∈ O ∨ y = x → y ∈ ovf_add x O) by (intros y Hy; unfold ovf_add; case_bool_decide; [naive_solver|rewrite elem_of_cons; naive_solver]).
    exists (set_phase (Polling D (ovf_add x O)) e). split; [|split].
    + exists (gep_upd ep (set_phase (Polling D (ovf_add x O)) e) g). cbn. split; [done|]. split; [apply lookup_insert_eq|]. split; [done|]. by destruct p.
    + intros y b (it1 & Hy & Ho). cbn in Hy. rewrite Hph in Ho. cbn in Ho. left. unfold owes. cbn. rewrite Hit1. destruct (decide (y = x)) as [->|Hne].
      * rewrite Hit in Hy. injection Hy as <-. rewrite lookup_insert_eq. eexists. split; [done|]. cbn. destruct Ho as [Ho|[Ho Hb]]; [by left|right]. split; [auto|]. by rewrite Z.lor_spec, Hb.
      * rewrite lookup_insert_ne by done. exists it1. split; [done|]. destruct Ho as [Ho|[Ho Hb]]; [by left|right]. auto.
    + intros y v b [= <- <-] Hb. unfold owes. cbn. rewrite Hit1, lookup_insert_eq. eexists. split; [done|]. cbn. right. split; [auto|]. rewrite Z.land_spec in Hb. apply andb_true_iff in Hb as [_ Hb].
      by rewrite Z.lor_spec, Hb, orb_true_r.
Qed.

Lemma begin_run s e o : minv (s, Out) e → room o → 0 < max →
  ∃ nh s' e', poll_detach ep s = Some (Some nh, s') ∧ rdlist_empty ep s = Some (bool_decide (ge_ready e = []), s) ∧ step_ok (s, Out) e LTau (s', Loop (nl_head nh) (nl_tail nh) o 0) e'.
Proof.
  intros Hm Ho Hmax. destruct (minv_ep _ _ Hm) as (g & r & Hi & He & Hr & Ht & Hpc). cbn in Hi, Hr, Hpc. destruct (ge_phase e) eqn:Hph; [|done..].
  destruct (poll_detach_spec env [] s g ep e r Hi He Hr Hph) as (m & l & H1 & Hi1). eexists _, _, _. split; [exact H1|]. split; [by apply (rdlist_empty_run env [] s g)|]. split; [|split; [|done]].
  - eexists. cbn. split; [exact Hi1|]. split; [apply lookup_insert_eq|]. split; [done|]. split; [done|]. split; [|done]. intros HD. by rewrite <- (dlast_suffix ep [] (ge_ready e) HD).
  - intros y b (it & Hy & Hob). left. exists it. cbn in *. rewrite Hph in Hob. cbn in Hob. rewrite app_nil_r in Hob. split; [done|naive_solver].
Qed.

Lemma poll_value_bits epfd q it w b : Z.testbit (epi_revents it) b = true → Z.testbit (poll_value env epfd q it w).1 b = true.
Proof.
  intros Hb. unfold poll_value. destruct (_ =? _); [done|]. destruct (se_ep_getevt env (info_rmidx q)) as [f|]; [|done]. destruct (f _ _ _ _) as [v w']. cbn. by rewrite Z.lor_spec, Hb.
Qed.

Lemma reported_after o evt v it flag : 0 <= evt < Z.of_nat (length (po_events o)) → reported (out_after o evt v it flag) evt (evt_after evt v) = v.
Proof.
  intros He. unfold reported, out_after, evt_after. destruct (Z.eqb_spec v 0) as [->|Hv]; [by rewrite Z.ltb_irrefl|].
  rewrite (proj2 (Z.ltb_lt _ _)) by lia. cbn. rewrite (proj2 (aread_Some _ evt (mk_ev v (data (epi_event it))))); [done|]. split; [lia|]. apply list_lookup_insert_eq. lia.
Qed.

Lemma item_run s e h t o evt : minv (s, Loop (Some h) t o evt) e →
  ∃ next s' o' evt' e', hn_get hn_next (es_rdl s) h = Some next ∧ proc_item env ep h num o evt s = Some ((o', evt'), s') ∧
    step_ok (s, Loop (Some h) t o evt) e (LReport h (reported o' evt evt'))
      (s', if max <=? evt' then Ending (mk_nl next (if bool_decide (next = None) then None else t)) o' evt' else Loop next t o' evt') e' ∧
    length (ph_rest (ge_phase e)) = S (length (ph_rest (ge_phase e'))).
Proof.
  intros Hm. destruct (minv_ep _ _ Hm) as (g & r & Hi & He & Hr & Ht & Hpc). cbn in Hi, Hr, Hpc. destruct (ge_phase e) as [|D O|] eqn:Hph; [done| |done]. destruct Hpc as (Hh & Htl & [Hroom Hflag] & Hevt).
  destruct D as [|x D]; [done|]. cbn in Hh. injection Hh as ->. destruct (ep_get_ok _ Hi ep e He) as (r1 & Hr1 & Hok). rewrite Hr in Hr1. injection Hr1 as <-.
  pose proof (eo_rest _ _ _ _ _ _ _ Hok) as Hrest. rewrite Hph in Hrest. assert (HxT : x ∈ ge_tree e) by (apply (eo_sub _ _ _ _ _ _ _ Hok); rewrite Hph; cbn; set_solver).
  destruct (rest_view env s g ep e x Hi He HxT) as (it & i & q & Hit & Hpi & Hq & Hfl & _). pose proof (poll_value_bits (ep_epfd r) q it (es_world s)) as Hbits.
  pose proof (proc_item_spec env s g ep e r x D O it i q o num evt Hi He Hr Hph Hit Hpi Hq Hfl) as Hp. destruct (poll_value env (ep_epfd r) q it (es_world s)) as [v w].
  destruct Hp as (s1 & l & flag & Hrun & Hi1 & Hit1 & _ & _ & _ & Hlen); [split; [lia|done]|]. cbn in Hbits. set (o1 := out_after o evt v it flag). set (e1 := mk_gep _ _ _) in Hi1.
  exists (list.head D), s1, o1, (evt_after evt v), e1. split; [by apply detached_next|]. split; [exact Hrun|].
  unfold o1 at 1. rewrite reported_after by lia. split; [|done]. split; [|split; [|done]].
  - assert (Hroom1 : room o1). { split; [unfold o1; cbn; destruct (v =? 0); rewrite ?length_insert; lia|]. unfold o1. cbn. destruct (po_flag o), flag; cbn in Hlen; simplify_eq; [lia|done]. }
    assert (Htl1 : D ≠ [] → t = dlast D) by (intros HD; rewrite Htl by done; exact (dlast_suffix x [] D HD)).
    exists (gep_upd ep e1 g). cbn. split; [exact Hi1|]. split; [apply lookup_insert_eq|]. split; [done|]. destruct (Z.leb_spec max (evt_after evt v)) as [Hge|Hlt]; cbn.
    + split; [|done]. eexists. split; [done|]. intros HD. rewrite bool_decide_eq_false_2 by (by destruct D). by apply Htl1.
    + split; [done|]. split; [done|]. split; [done|]. unfold evt_after in *. destruct (v =? 0); lia.
  - intros y b (it1 & Hy & Ho). cbn in Hy. rewrite Hph in Ho. cbn in Ho. unfold owes. cbn [fst]. rewrite Hit1. destruct (decide (y = x)) as [->|Hne].
    + rewrite Hit in Hy. injection Hy as <-. destruct Ho as [[_ Hb]|[HO Hb]]; [right; eauto|]. left. rewrite lookup_insert_eq. eexists. split; [done|]. cbn. by right.
    + left. rewrite lookup_insert_ne by done. exists it1. split; [done|]. cbn. destruct Ho as [[Hin Hb]|Ho]; [left|by right]. split; [|done]. unfold ready_after. destruct (_ && _); set_solver.
Qed.

Lemma end_run s e nh o evt : minv (s, Ending nh o evt) e → ∃ flag s' e', poll_finish ep num nh (po_flag o) s = Some (flag, s') ∧ step_ok (s, Ending nh o evt) e LTau (s', Out) e'.
Proof.
  intros Hm. destruct (minv_ep _ _ Hm) as (g & r & Hi & He & Hr & Ht & Hpc). cbn in Hi, Hr, Hpc. destruct (ge_phase e) as [|D O|] eqn:Hph; [done| |done]. destruct Hpc as ((tl & -> & Htl) & [_ Hflag]).
  destruct (poll_finish_spec env num s g ep e r D O tl (po_flag o) Hi He Hr Hph Htl Hflag) as (s' & l & flag & Hrun & _ & Hi' & _ & _ & _ & Hit'). eexists flag, s', _. split; [exact Hrun|]. split; [|split; [|done]].
  - eexists. cbn. split; [exact Hi'|]. split; [apply lookup_insert_eq|done].
  - intros y b (it & Hy & Ho). cbn in Hy. rewrite Hph in Ho. cbn in Ho. left. unfold owes. cbn. rewrite Hit', Hy, app_nil_r. case_bool_decide as HyO; cbn.
    + eexists. split; [done|]. left. split; [apply elem_of_push_all; by left|]. cbn. rewrite Z.lor_spec. destruct Ho as [[_ ->]|[_ ->]]; [done|apply orb_true_r].
    + eexists. split; [done|]. left. destruct Ho as [[Hin Hb]|[? _]]; [|done]. split; [apply elem_of_push_all; by right|done].
Qed.

Lemma step_inv m e l m' : 0 < max → minv m e → step m l m' → ∃ e', step_ok m e l m' e'.
Proof.
  intros Hmax Hm Hs. destruct Hs as [s p x it evs s' Hx Hit _ Hrun|s s' nh o Ho _ Hrun|s h t o evt next s' o' evt' Hn Hrun|s t o evt|s nh o evt flag s' Hrun].
  - by eapply step_event_ok.
  - destruct (begin_run s e o Hm Ho Hmax) as (nh' & s1 & e' & H1 & _ & Hok). rewrite Hrun in H1. injection H1 as <- <-. eauto.
  - destruct (item_run s e h t o evt Hm) as (next' & s1 & o1 & evt1 & e' & H1 & H2 & Hok & _). rewrite Hn in H1. injection H1 as <-. rewrite Hrun in H2. injection H2 as <- <- <-. eauto.
  - exists e. split; [|split; [by left|done]]. destruct Hm as (g & Hi & He & Ht & Hpc). exists g. split; [done|]. split; [done|]. split; [done|]. cbn in *. destruct (ge_phase e) as [|D O|]; [done| |done].
    destruct Hpc as (Hh & _ & Hroom & _). destruct D; [|done]. split; [by exists None|done].
  - destruct (end_run s e nh o evt Hm) as (flag' & s1 & e' & H1 & Hok). rewrite Hrun in H1. injection H1 as <- <-. eauto.
Qed.

(** What is owed at the start of a run is reported in it or owed at its end. *)
Lemma run_inv m tr m' e : 0 < max → run m tr m' → minv m e → ∃ e', minv m' e' ∧
  (∀ x b, owes m e x b → owes m' e' x b ∨ ∃ v, LReport x v ∈ tr ∧ Z.testbit v b = true) ∧
  (∀ tr1 tr2 x v b, tr = tr1 ++ LEvent x v :: tr2 → Z.testbit v b = true → owes m' e' x b ∨ ∃ v', LReport x v' ∈ tr2 ∧ Z.testbit v' b = true).
Proof.
  intros Hmax Hr. revert e. induction Hr as [m|m l m1 tr m2 Hs Hr IH]; intros e Hm.
  { exists e. split; [done|]. split; [by left|]. by intros [|? tr1]. }
  destruct (step_inv m e l m1 Hmax Hm Hs) as (e1 & Hm1 & Hk & Hnew). destruct (IH e1 Hm1) as (e2 & Hm2 & Hk2 & Hnew2). exists e2. split; [done|]. split.
  - intros x b Ho. destruct (Hk x b Ho) as [Ho1|(v & -> & Hv)]; [|right; exists v; split; [left|done]]. destruct (Hk2 x b Ho1) as [|(v & Hv & Hb)]; [by left|right]. exists v. split; [by right|done].
  - intros [|l' tr1] tr2 x v b Heq Hb; cbn in Heq; injection Heq as -> Heq; [|by eapply Hnew2]. subst tr. apply Hk2. by eapply Hnew.
Qed.

(** ** A poll always comes to its end *)

Definition is_event (l : label) : Prop := match l with LEvent _ _ => True | _ => False end.

Lemma run_snoc m tr m1 l m2 : run m tr m1 → step m1 l m2 → run m (tr ++ [l]) m2.
Proof. intros Hr Hs. induction Hr as [m|m l1 m1 tr m3 Hs1 Hr IH]; cbn; econstructor; eauto; constructor. Qed.
Lemma run_app m tr m1 tr' m2 : run m tr m1 → run m1 tr' m2 → run m (tr ++ tr') m2.
Proof. induction 1; intros Hr'; cbn; [done|]. econstructor; eauto. Qed.

Lemma poll_ends n s p e : 0 < max → minv (s, p) e → (length (ph_rest (ge_phase e)) <= n)%nat → p ≠ Out →
  ∃ tr s', run (s, p) tr (s', Out) ∧ (length tr <= n + 2)%nat ∧ Forall (λ l, ¬ is_event l) tr.
Proof.
  intros Hmax. revert s p e.
  assert (Hend : ∀ s nh o evt e, minv (s, Ending nh o evt) e → ∃ tr s', run (s, Ending nh o evt) tr (s', Out) ∧ (length tr <= 1)%nat ∧ Forall (λ l, ¬ is_event l) tr).
  { intros s nh o evt e Hm. destruct (end_run s e nh o evt Hm) as (flag & s' & e' & Hrun & _). exists [LTau], s'. split; [|split; [cbn; lia|by repeat constructor; intros []]].
    econstructor; [by econstructor|constructor]. }
  induction n as [|n IH]; intros s p e Hm Hn Hp; (destruct p as [|h t o evt|nh o evt]; [done| |destruct (Hend _ _ _ _ _ Hm) as (tr & s' & ? & ? & ?); exists tr, s'; split; [done|]; split; [lia|done]]).
  - pose proof Hm as (g & _ & _ & _ & Hpc). cbn in Hpc. destruct (ge_phase e) as [|D O|] eqn:Hph; [done| |done]. destruct Hpc as (-> & _). destruct D as [|x D]; [|cbn in Hn; lia].
    assert (Hs : step (s, Loop None t o evt) LTau (s, Ending (mk_nl None None) o evt)) by constructor.
    destruct (step_inv _ _ _ _ Hmax Hm Hs) as (e' & Hm' & _). destruct (Hend _ _ _ _ _ Hm') as (tr & s' & Hr & Hl & Hf). exists (LTau :: tr), s'. split; [by econstructor|]. split; [cbn; lia|]. constructor; [by intros []|done].
  - destruct h as [h|].
    + destruct (item_run s e h t o evt Hm) as (next & s1 & o1 & evt1 & e1 & H1 & H2 & (Hm1 & _) & Hlen). set (p1 := if max <=? evt1 then _ else _) in Hm1.
      destruct (IH s1 p1 e1 Hm1) as (tr & s' & Hr & Hl & Hf); [lia|unfold p1; by destruct (max <=? evt1)|].
      exists (LReport h (reported o1 evt evt1) :: tr), s'. split; [econstructor; [by econstructor|exact Hr]|]. split; [cbn; lia|]. constructor; [by intros []|done].
    + assert (Hs : step (s, Loop None t o evt) LTau (s, Ending (mk_nl None None) o evt)) by constructor.
      destruct (step_inv _ _ _ _ Hmax Hm Hs) as (e' & Hm' & _). destruct (Hend _ _ _ _ _ Hm') as (tr & s' & Hr & Hl & Hf). exists (LTau :: tr), s'. split; [by econstructor|]. split; [cbn; lia|]. constructor; [by intros []|done].
Qed.

Lemma rest_length m e : minv m e → (length (ph_rest (ge_phase e)) <= length X)%nat.
Proof.
  intros (g & Hi & He & <- & _). destruct (ep_get_ok _ Hi ep e He) as (r & _ & Hok). pose proof (eo_queued _ _ _ _ _ _ _ Hok) as (_ & _ & Hnd)%NoDup_app.
  apply submseteq_length, NoDup_submseteq; [done|]. intros x Hx. apply (eo_sub _ _ _ _ _ _ _ Hok). set_solver.
Qed.

(** The function [nsep_ep_poll] is a run of the machine in which no event comes. *)
Lemma events_loop_run fuel s head t o evt head' o' evt' s' : evt < max → events_loop env fuel ep max num head o evt s = Some ((head', o', evt'), s') →
  ∃ tr, run (s, Loop head t o evt) tr (s', Ending (mk_nl head' (if bool_decide (head' = None) then None else t)) o' evt') ∧ Forall (λ l, ¬ is_event l) tr.
Proof.
  revert s head o evt. induction fuel as [|fuel IH]; intros s head o evt Hevt; (destruct head as [h|]; cbn [events_loop]; [|intros [= <- <- <- <-]; exists [LTau]; split; [|by repeat constructor; intros []]; econstructor; [|constructor]; rewrite bool_decide_eq_true_2 by done; constructor]).
  - done.
  - unfold mbind at 1, stM_bind at 1. destruct (rdl_get _ s) as [[next s1]|] eqn:Hn; [|done]. unfold rdl_get, mbind, stM_bind, gets, lift in Hn. cbn in Hn. destruct (hn_get hn_next (es_rdl s) h) as [next'|] eqn:Hn'; [|done]. injection Hn as <- <-.
    unfold mbind at 1, stM_bind at 1. destruct (proc_item env ep h num o evt s) as [[[o1 evt1] s1]|] eqn:Hp; [|done]. pose proof (step_item s h t o evt next' s1 o1 evt1 Hn' Hp) as Hs.
    destruct (Z.leb_spec max evt1) as [Hge|Hlt].
    + intros [= <- <- <- <-]. exists [LReport h (reported o1 evt evt1)]. split; [econstructor; [exact Hs|constructor]|]. by repeat constructor; intros [].
    + intros Hl. destruct (IH s1 next' o1 evt1 Hlt Hl) as (tr & Hr & Hf). exists (LReport h (reported o1 evt evt1) :: tr). split; [econstructor; [exact Hs|exact Hr]|]. constructor; [by intros []|done].
Qed.

Lemma ep_poll_run s o o' n s' e : 0 < max → room o → minv (s, Out) e → ge_ready e ≠ [] → nsep_ep_poll env ep o max num s = Some ((o', n), s') →
  ∃ tr, run (s, Out) tr (s', Out) ∧ Forall (λ l, ¬ is_event l) tr.
Proof.
  intros Hmax Ho Hm Hne. destruct (begin_run s e o Hm Ho Hmax) as (nh & s1 & e1 & Hd & Hem & _). rewrite bool_decide_eq_false_2 in Hem by done.
  unfold nsep_ep_poll. rewrite (bind_run _ _ _ _ _ Hem), (bind_run _ _ _ _ _ Hem), (bind_run _ _ _ _ _ Hd). unfold nsep_events_proc, mbind, stM_bind.
  destruct (events_loop env list_fuel ep max num (nl_head nh) o 0 s1) as [[[[h1 o1] evt1] s2]|] eqn:Hl; [|done]. cbn. set (nh1 := mk_nl h1 _).
  destruct (poll_finish ep num nh1 (po_flag o1) s2) as [[flag s3]|] eqn:Hf; [|done]. intros [= <- <- <-].
  destruct (events_loop_run list_fuel s1 (nl_head nh) (nl_tail nh) o 0 h1 o1 evt1 s2 Hmax Hl) as (tr & Hr & Hfa). exists (LTau :: tr ++ [LTau]). split.
  - econstructor; [by econstructor|]. eapply run_snoc; [exact Hr|]. by econstructor.
  - constructor; [by intros []|]. apply Forall_app. split; [done|]. by repeat constructor; intros [].
Qed.
End machine.

(** ** An event that comes during a poll is not announced *)

(** The only item of the ready list has nothing to report; its event comes once the poll has looked at it.  The poll reports nothing, the item is back on the
    ready list with the event, and the semaphore is as it was. *)
Lemma unannounced s g ep e r x it i q w evs max num o : einv s g → g_eps g !! ep = Some e → es_eps s !! ep = Some r → ge_phase e = Idle → ge_ready e = [x] →
  es_items s !! x = Some it → epi_private_data it = Some i → es_infos s !! i = Some q → poll_value env (ep_epfd r) q it (es_world s) = (0, w) →
  has (events (epi_event it)) (wrap32 evs) = true → 0 < max → room max num o →
  ∃ s' r' it', run ep max num (ge_tree e) (s, Out) [LTau; LReport x 0; LEvent x (Z.land (events (epi_event it)) (wrap32 evs)); LTau; LTau] (s', Out) ∧
    einv s' (gep_upd ep (mk_gep (ge_tree e) [x] Idle) g) ∧ es_eps s' !! ep = Some r' ∧ ep_waitSem r' = ep_waitSem r ∧
    es_items s' !! x = Some it' ∧ epi_event it' = epi_event it ∧ has (events (epi_event it)) (epi_revents it') = true.
Proof.
  intros Hi He Hr Hidle HR Hit Hpi Hq Hpv Hhas Hmax Ho. destruct (ep_get_ok _ Hi ep e He) as (r1 & Hr1 & Hok). rewrite Hr in Hr1. injection Hr1 as <-.
  assert (HxT : x ∈ ge_tree e) by (apply (eo_sub _ _ _ _ _ _ _ Hok); rewrite HR; left).
  assert (Hfl : is_Some (g_fl g !! i)). { destruct (tree_item _ Hi ep e x He HxT) as (it0 & Hit0 & _ & _ & _ & _ & Hin). rewrite Hit in Hit0. injection Hit0 as <-. destruct (Hin ltac:(apply not_elem_of_nil)) as (i' & l & q' & P1 & P2 & _). rewrite Hpi in P1. injection P1 as <-. eauto. }
  pose proof (poll_detach_spec env [] s g ep e r Hi He Hr Hidle) as (m & l & D1 & Hi1). rewrite HR in D1, Hi1. set (s1 := set_es_eps _ _) in D1, Hi1. set (e1 := mk_gep _ _ _) in Hi1. set (r1 := set_ep_ovflist _ _) in s1.
  assert (Hr1 : es_eps s1 !! ep = Some r1) by apply lookup_insert_eq. destruct Ho as [Ho1 Ho2].
  pose proof (proc_item_spec env s1 (gep_upd ep e1 g) ep e1 r1 x [] [] it i q o num 0 Hi1 (lookup_insert_eq _ _ _) Hr1 eq_refl Hit Hpi Hq Hfl) as Hp. change (es_world s1) with (es_world s) in Hp. change (ep_epfd r1) with (ep_epfd r) in Hp.
  rewrite Hpv in Hp. destruct Hp as (s2 & l2 & flag & P1 & Hi2 & Hit2 & _ & _ & Heps2 & Hflag); [split; [lia|done]|]. cbn in P1. unfold ready_after in Hi2. cbn in Hi2. set (e2 := mk_gep _ _ _) in Hi2. set (o2 := out_after o 0 0 it flag) in P1.
  assert (Hr2 : es_eps s2 !! ep = Some (set_ep_rdlist l2 r1)) by (rewrite Heps2; apply lookup_insert_eq). assert (Hx2 : es_items s2 !! x = Some (set_epi_revents 0 it)) by (rewrite Hit2; apply lookup_insert_eq).
  destruct (callback_polling s2 _ ep e2 _ x _ evs [] [] Hi2 (lookup_insert_eq _ _ _) Hr2 eq_refl HxT Hx2) as (s3 & n & C1 & Hi3 & Hit3 & (p3 & Heps3) & _). cbn in Hi3.
  assert (Hr3 : es_eps s3 !! ep = Some (set_ep_ovflist p3 (set_ep_rdlist l2 r1))) by (rewrite Heps3; apply lookup_insert_eq).
  destruct (poll_finish_spec env num s3 _ ep _ _ [] [x] None (po_flag o2) Hi3 (lookup_insert_eq _ _ _) Hr3 eq_refl) as (s4 & l4 & flag4 & F1 & _ & Hi4 & _ & _ & Heps4 & Hit4); [done|unfold o2; cbn; destruct (po_flag o), flag; cbn in Hflag; simplify_eq; [lia|done]|].
  assert (Hit4' := Hit4 x). rewrite bool_decide_eq_true_2, Hit3, lookup_insert_eq in Hit4' by left. cbn in Hit4'.
  eexists s4, _, _. split; [|split; [|split; [rewrite Heps4; apply lookup_insert_eq|split; [done|split; [exact Hit4'|split; [done|]]]]]].
  - econstructor; [eapply (step_begin ep max num (ge_tree e) s s1); [by split| |exact D1]|]. { rewrite (rdlist_empty_run env [] s g ep e Hi He), HR. done. } cbn.
    econstructor; [pose proof (step_item ep max num (ge_tree e) s1 x (Some (ep_last ep [x])) o 0 None s2 o2 0) as Hs|]. 
    { destruct (ep_get_ok _ Hi1 ep e1 (lookup_insert_eq _ _ _)) as (r1' & _ & Hok1). pose proof (eo_rest _ _ _ _ _ _ _ Hok1) as Hrest. apply detached_next in Hrest. rewrite (proj2 (Z.leb_gt max 0)) in Hs by lia. exact (Hs Hrest P1). }
    econstructor; [eapply (step_event ep max num (ge_tree e) s2 _ x (set_epi_revents 0 it) evs s3); done|]. econstructor; [apply step_drained|]. econstructor; [by eapply step_end|]. constructor.
  - unfold gep_upd in Hi4 |- *. cbn in Hi4. rewrite !insert_insert_eq in Hi4. exact Hi4.
  - cbn. rewrite Z.lor_0_l. unfold has in *. apply negb_true_iff, Z.eqb_neq. apply negb_true_iff, Z.eqb_neq in Hhas. intros Hz. apply Hhas. apply Z.bits_inj_0. intros b.
    assert (Hzb := f_equal (λ v, Z.testbit v b) Hz). cbn in Hzb. rewrite Z.bits_0, Z.land_spec, Z.lor_spec in Hzb. rewrite Z.land_spec. destruct (Z.testbit (events (epi_event it)) b), (Z.testbit (wrap32 evs) b); try done. by rewrite orb_true_r in Hzb.
Qed.
End events.
