(* ===== verification/EpollInit.v ===== *)
(** * Epoll: creation of the pools (src/src/adapt/nstack_epoll_comm.c), and the invariant it establishes *)
From S2P Require Import Prelude.
From S2P Require Import Queue.
From S2P Require Import RbTree.
From S2P Require Import EpList.
From S2P Require Import EpollData.
From S2P Require Import Epoll.
From S2P Require Import EpollPoll.
From S2P Require Import EpollInv.
From S2P Require Import EpollAlloc.

Section init.
Context {Q W : Type} `{BoundedQueue Q} (env : stack_env W).
Abbreviation st := (est Q W).
Abbreviation M := (stM (est Q W)).
Implicit Types (s : st).

(** ** The creation *)

(** The zone and its objects; [zone] says whether the memory manager supplies it. *)
Definition nsep_create_shmem (zone : bool) (initFn : M Z) : M Z :=
  if negb zone then mret (-1)
  else e ← initFn; mret (if negb (0 =? e) then -1 else 0).

(** [ring] says whether the memory manager supplies the ring of the pool. *)
Definition nsep_create_epInfoMem (ring zone : bool) : M Z := if negb ring then mret (-1) else nsep_create_shmem zone (nsep_epInfoPoolInit env).
Definition nsep_create_epItemMem (ring zone : bool) : M Z := if negb ring then mret (-1) else nsep_create_shmem zone (nsep_epitemPoolInit env).
Definition nsep_create_eventpollMem (ring zone : bool) : M Z := if negb ring then mret (-1) else nsep_create_shmem zone (nsep_epPoolInit env).

(** The functions of the table [createFuncs], until one fails. *)
Fixpoint create_all (fs : list (M Z)) : M Z :=
  match fs with [] => mret 0 | f :: fs => e ← f; if -1 =? e then mret (-1) else create_all fs end.
Definition nsep_create_memory (got : Z → bool) : M Z :=
  create_all [nsep_create_epInfoMem (got 0) (got 1); nsep_create_epItemMem (got 2) (got 3); nsep_create_eventpollMem (got 4) (got 5)].

(** ** The invariant *)

(** The objects from [base] up to [y] are there and are in the pool in order. *)
Record filled {A} (base y : Z) (m : gmap Z A) (a : A) (q q0 : Q) : Prop := {
  fd_lookup : ∀ k, m !! k = if decide (base <= k < y) then Some a else None;
  fd_size : Z.of_nat (size m) = y - base;
  fd_inv : q_inv q;
  fd_cap : q_cap q = q_cap q0;
  fd_contents : q_contents q = seqZ base (y - base)
}.

Lemma filled_start {A} base (a : A) q : q_inv q → q_contents q = [] → filled base base ∅ a q q.
Proof. intros Hq Hc. split; [|by rewrite map_size_empty; lia|done|done|by rewrite Hc, Z.sub_diag]. intros k. rewrite lookup_empty, decide_False by lia. done. Qed.

Lemma filled_next {A} base y (m : gmap Z A) a q q1 q0 : filled base y m a q q0 → base <= y → q_inv q1 → q_cap q1 = q_cap q → q_contents q1 = q_contents q ++ [y] → filled base (y + 1) (<[y := a]> m) a q1 q0.
Proof.
  intros [H1 H2 H3 H4 H5] Hy I1 I2 I3. split; [| |done|congruence|].
  - intros k. destruct (decide (k = y)) as [->|]; [rewrite lookup_insert_eq, decide_True by lia; done|]. rewrite lookup_insert_ne, H1 by done. repeat case_decide; try done; lia.
  - rewrite map_size_insert_None by (rewrite H1, decide_False by lia; done). lia.
  - rewrite I3, H5. replace (y + 1 - base) with ((y - base) + 1) by lia. rewrite seqZ_app by lia. f_equal. rewrite seqZ_cons by lia. cbn. f_equal. lia.
Qed.

Lemma filled_pool {A} base n (m : gmap Z A) a q q0 flag : filled base (base + n) m a q q0 → 0 < base → 0 <= n <= q_cap q0 → q_cap q0 < 2 ^ 32 → flag a = 0 → pool_ok q m flag.
Proof.
  intros [H1 H2 H3 H4 H5] Hb Hn Hc Hf. split; [done| | |by rewrite H4; lia|rewrite H1, decide_False by lia; done].
  - rewrite H5. apply NoDup_seqZ.
  - intros x. rewrite H5, elem_of_seqZ. intros Hx. exists a. by rewrite H1, decide_True by lia.
Qed.

Lemma filled_is_Some {A} base y (m : gmap Z A) a q q0 x : filled base y m a q q0 → is_Some (m !! x) ↔ base <= x < y.
Proof. intros [H1 _ _ _ _]. rewrite H1. by case_decide. Qed.

(** A pool is filled step by step. *)
Lemma pool_fill_ind (P : Z → st → Prop) zero enq n x s : P x s →
  (∀ y s, x <= y < x + Z.of_nat n → P y s → ∃ s1 s2, zero y s = Some (tt, s1) ∧ enq y s1 = Some (1, s2) ∧ P (y + 1) s2) →
  ∃ s', pool_fill n x zero enq s = Some (0, s') ∧ P (x + Z.of_nat n) s'.
Proof.
  revert x s. induction n as [|n IH]; intros x s Hx Hstep; cbn [pool_fill]; [exists s; split; [done|by rewrite Z.add_0_r]|].
  destruct (Hstep x s) as (s1 & s2 & H1 & H2 & H3); [lia|done|]. rewrite (bind_run _ _ _ _ _ H1), (bind_run _ _ _ _ _ H2). cbn [Z.eqb Pos.eqb].
  destruct (IH (x + 1) s2 H3) as (s' & Hr & Hp); [intros y s3 Hy; apply Hstep; lia|]. exists s'. split; [done|]. by replace (x + Z.of_nat (S n)) with (x + 1 + Z.of_nat n) by lia.
Qed.

(** The nodes of the objects from [base] up to [y] are there, the others are as they were. *)
Definition noded {A} (base y : Z) (m m0 : gmap Z A) : Prop := ∀ k, is_Some (m !! k) ↔ is_Some (m0 !! k) ∨ base <= k < y.
Lemma noded_start {A} base (m : gmap Z A) : noded base base m m.
Proof. intros k. split; [by left|]. intros [|]; [done|lia]. Qed.
Lemma noded_next {A} base y (m m0 : gmap Z A) a : noded base y m m0 → base <= y → noded base (y + 1) (<[y := a]> m) m0.
Proof.
  intros Hm Hy k. destruct (decide (k = y)) as [->|]; [rewrite lookup_insert_eq; split; [intros _; right; lia|eauto]|]. rewrite lookup_insert_ne, (Hm k) by done. split; intros [|]; auto; right; lia.
Qed.

(** What the three pools do not have in common. *)
Definition others_info s s' : Prop := es_rbn s' = es_rbn s ∧ es_rdl s' = es_rdl s ∧ es_items s' = es_items s ∧ es_eps s' = es_eps s ∧
  es_itemPool s' = es_itemPool s ∧ es_epPool s' = es_epPool s ∧ es_sockMap s' = es_sockMap s ∧ es_world s' = es_world s.
Definition others_item s s' : Prop := es_infos s' = es_infos s ∧ es_eps s' = es_eps s ∧ es_infoPool s' = es_infoPool s ∧ es_epPool s' = es_epPool s ∧
  es_sockMap s' = es_sockMap s ∧ es_world s' = es_world s.
Definition others_ep s s' : Prop := es_rbn s' = es_rbn s ∧ es_fll s' = es_fll s ∧ es_infos s' = es_infos s ∧ es_items s' = es_items s ∧ es_infoPool s' = es_infoPool s ∧
  es_itemPool s' = es_itemPool s ∧ es_sockMap s' = es_sockMap s ∧ es_world s' = es_world s.

Definition empty_queue (q : Q) (n : Z) : Prop := q_inv q ∧ q_contents q = [] ∧ n <= q_cap q < 2 ^ 32.

Lemma epInfoPoolInit_spec s : let b := se_infoBase env in let n := NSTACK_MAX_EPOLL_INFO_NUM in es_infos s = ∅ → empty_queue (es_infoPool s) n →
  ∃ s', nsep_epInfoPoolInit env s = Some (0, s') ∧ filled b (b + n) (es_infos s') epinfo0 (es_infoPool s') (es_infoPool s) ∧ noded b (b + n) (es_fll s') (es_fll s) ∧ others_info s s'.
Proof.
  intros b n He (Hq & Hc & Hcap). unfold nsep_epInfoPoolInit. fold b n.
  destruct (pool_fill_ind (λ y s', b <= y ∧ filled b y (es_infos s') epinfo0 (es_infoPool s') (es_infoPool s) ∧ noded b y (es_fll s') (es_fll s) ∧ others_info s s')
    (λ x, _ ← modify (λ s, set_es_infos (<[x := epinfo0]> (es_infos s)) s); modify (λ s, set_es_fll (<[x := None]> (es_fll s)) s)) (pool_enqueue es_infoPool set_es_infoPool)
    (Z.to_nat n) b s) as (s' & Hrun & _ & Hf).
  - split; [lia|]. rewrite He. split; [by apply filled_start|]. split; [apply noded_start|done].
  - intros y s1 Hy (Hby & Hf & Hn & Hr). set (s2 := set_es_fll (<[y := None]> (es_fll s1)) (set_es_infos (<[y := epinfo0]> (es_infos s1)) s1)).
    destruct (pool_enqueue_spec es_infoPool set_es_infoPool s2 y) as (q & Hq1 & Q1 & Q2 & Q3); [apply (fd_inv _ _ _ _ _ _ Hf)|cbn; rewrite (fd_contents _ _ _ _ _ _ Hf), (fd_cap _ _ _ _ _ _ Hf), length_seqZ; lia|].
    exists s2, (set_es_infoPool q s2). split; [done|]. split; [done|]. split; [lia|]. split; [by eapply filled_next|]. split; [by apply noded_next|exact Hr].
  - rewrite Z2Nat.id in Hf by (unfold n, NSTACK_MAX_EPOLL_INFO_NUM; lia). by exists s'.
Qed.

Lemma epitemPoolInit_spec s : let b := se_itemBase env in let n := NSTACK_MAX_EPITEM_NUM in es_items s = ∅ → empty_queue (es_itemPool s) n →
  ∃ s', nsep_epitemPoolInit env s = Some (0, s') ∧ filled b (b + n) (es_items s') epitem0 (es_itemPool s') (es_itemPool s) ∧ noded b (b + n) (es_rbn s') (es_rbn s) ∧
    noded b (b + n) (es_rdl s') (es_rdl s) ∧ noded b (b + n) (es_fll s') (es_fll s) ∧ others_item s s'.
Proof.
  intros b n He (Hq & Hc & Hcap). unfold nsep_epitemPoolInit. fold b n.
  destruct (pool_fill_ind (λ y s', b <= y ∧ filled b y (es_items s') epitem0 (es_itemPool s') (es_itemPool s) ∧ noded b y (es_rbn s') (es_rbn s) ∧
      noded b y (es_rdl s') (es_rdl s) ∧ noded b y (es_fll s') (es_fll s) ∧ others_item s s')
    (λ x, _ ← modify (λ s, set_es_items (<[x := epitem0]> (es_items s)) s);
          _ ← modify (λ s, set_es_rbn (<[x := mk_rb 0 None None None]> (es_rbn s)) s);
          _ ← modify (λ s, set_es_rdl (<[x := mk_hn None None]> (es_rdl s)) s);
          modify (λ s, set_es_fll (<[x := None]> (es_fll s)) s)) (pool_enqueue es_itemPool set_es_itemPool) (Z.to_nat n) b s) as (s' & Hrun & _ & Hf).
  - split; [lia|]. rewrite He. split; [by apply filled_start|]. split; [apply noded_start|]. split; [apply noded_start|]. split; [apply noded_start|done].
  - intros y s1 Hy (Hby & Hf & Hn1 & Hn2 & Hn3 & Hr).
    set (s2 := set_es_fll (<[y := None]> (es_fll s1)) (set_es_rdl (<[y := mk_hn None None]> (es_rdl s1)) (set_es_rbn (<[y := mk_rb 0 None None None]> (es_rbn s1)) (set_es_items (<[y := epitem0]> (es_items s1)) s1)))).
    destruct (pool_enqueue_spec es_itemPool set_es_itemPool s2 y) as (q & Hq1 & Q1 & Q2 & Q3); [apply (fd_inv _ _ _ _ _ _ Hf)|cbn; rewrite (fd_contents _ _ _ _ _ _ Hf), (fd_cap _ _ _ _ _ _ Hf), length_seqZ; lia|].
    exists s2, (set_es_itemPool q s2). split; [done|]. split; [done|]. split; [lia|]. split; [by eapply filled_next|]. split; [by apply noded_next|]. split; [by apply noded_next|]. split; [by apply noded_next|exact Hr].
  - rewrite Z2Nat.id in Hf by (unfold n, NSTACK_MAX_EPITEM_NUM; lia). by exists s'.
Qed.

Lemma epPoolInit_spec s : let b := se_epBase env in let n := NSTACK_MAX_EPOLL_INFO_NUM in es_eps s = ∅ → empty_queue (es_epPool s) n →
  ∃ s', nsep_epPoolInit env s = Some (0, s') ∧ filled b (b + n) (es_eps s') eventpoll0 (es_epPool s') (es_epPool s) ∧ noded b (b + n) (es_rdl s') (es_rdl s) ∧ others_ep s s'.
Proof.
  intros b n He (Hq & Hc & Hcap). unfold nsep_epPoolInit. fold b n.
  destruct (pool_fill_ind (λ y s', b <= y ∧ filled b y (es_eps s') eventpoll0 (es_epPool s') (es_epPool s) ∧ noded b y (es_rdl s') (es_rdl s) ∧ others_ep s s')
    (λ x, _ ← modify (λ s, set_es_eps (<[x := eventpoll0]> (es_eps s)) s); modify (λ s, set_es_rdl (<[x := mk_hn None None]> (es_rdl s)) s)) (pool_enqueue es_epPool set_es_epPool)
    (Z.to_nat n) b s) as (s' & Hrun & _ & Hf).
  - split; [lia|]. rewrite He. split; [by apply filled_start|]. split; [apply noded_start|done].
  - intros y s1 Hy (Hby & Hf & Hn & Hr). set (s2 := set_es_rdl (<[y := mk_hn None None]> (es_rdl s1)) (set_es_eps (<[y := eventpoll0]> (es_eps s1)) s1)).
    destruct (pool_enqueue_spec es_epPool set_es_epPool s2 y) as (q & Hq1 & Q1 & Q2 & Q3); [apply (fd_inv _ _ _ _ _ _ Hf)|cbn; rewrite (fd_contents _ _ _ _ _ _ Hf), (fd_cap _ _ _ _ _ _ Hf), length_seqZ; lia|].
    exists s2, (set_es_epPool q s2). split; [done|]. split; [done|]. split; [lia|]. split; [by eapply filled_next|]. split; [by apply noded_next|exact Hr].
  - rewrite Z2Nat.id in Hf by (unfold n, NSTACK_MAX_EPOLL_INFO_NUM; lia). by exists s'.
Qed.

(** Nothing created yet, three empty rings large enough. *)
Record blank s : Prop := {
  bl_infos : es_infos s = ∅;
  bl_items : es_items s = ∅;
  bl_eps : es_eps s = ∅;
  bl_fpool : empty_queue (es_infoPool s) NSTACK_MAX_EPOLL_INFO_NUM;
  bl_ipool : empty_queue (es_itemPool s) NSTACK_MAX_EPITEM_NUM;
  bl_epool : empty_queue (es_epPool s) NSTACK_MAX_EPOLL_INFO_NUM
}.

(** The zones of the pools do not overlap and do not begin at the null pointer. *)
Record zones : Prop := {
  zn_null : 0 < se_infoBase env ∧ 0 < se_itemBase env ∧ 0 < se_epBase env;
  zn_infos : se_infoBase env + NSTACK_MAX_EPOLL_INFO_NUM <= se_itemBase env ∨ se_itemBase env + NSTACK_MAX_EPITEM_NUM <= se_infoBase env;
  zn_eps : se_epBase env + NSTACK_MAX_EPOLL_INFO_NUM <= se_itemBase env ∨ se_itemBase env + NSTACK_MAX_EPITEM_NUM <= se_epBase env;
  zn_mods : 0 <= se_modNum env <= NSTACK_MAX_MODULE_NUM;
  zn_fds : 0 <= se_kernel_fd_max env
}.

Lemma create_memory_spec s : blank s → zones → ∃ s', nsep_create_memory (λ _, true) s = Some (0, s') ∧ es_world s' = es_world s ∧ mem_ok s' ∧
  pool_ok (es_itemPool s') (es_items s') (λ i, alloc_flag (epi_res_chk i)) ∧ pool_ok (es_epPool s') (es_eps s') (λ r, alloc_flag (ep_res_chk r)) ∧
  pool_ok (es_infoPool s') (es_infos s') (λ r, alloc_flag (info_res_chk r)) ∧ q_contents (es_itemPool s') = seqZ (se_itemBase env) NSTACK_MAX_EPITEM_NUM ∧
  q_contents (es_epPool s') = seqZ (se_epBase env) NSTACK_MAX_EPOLL_INFO_NUM ∧ q_contents (es_infoPool s') = seqZ (se_infoBase env) NSTACK_MAX_EPOLL_INFO_NUM.
Proof.
  intros [B1 B2 B3 B4 B5 B6] [(Z1 & Z2 & Z3) Z4 Z5 _ _]. pose proof B4 as (_ & _ & C4). pose proof B5 as (_ & _ & C5). pose proof B6 as (_ & _ & C6).
  destruct (epInfoPoolInit_spec s B1 B4) as (s1 & R1 & F1 & N1 & A1 & A2 & A3 & A4 & A5 & A6 & A7 & A8).
  rewrite <- A3 in B2. rewrite <- A5 in B5. destruct (epitemPoolInit_spec s1 B2 B5) as (s2 & R2 & F2 & N2 & N3 & N4 & D1 & D2 & D3 & D4 & D5 & D6).
  rewrite <- A4, <- D2 in B3. rewrite <- A6, <- D4 in B6. destruct (epPoolInit_spec s2 B3 B6) as (s3 & R3 & F3 & N5 & G1 & G2 & G3 & G4 & G5 & G6 & G7 & G8).
  exists s3. split.
  { unfold nsep_create_memory, nsep_create_epInfoMem, nsep_create_epItemMem, nsep_create_eventpollMem, nsep_create_shmem. cbn [negb create_all].
    erewrite bind_run by (erewrite bind_run by exact R1; done). cbn [Z.eqb negb]. erewrite bind_run by (erewrite bind_run by exact R2; done). cbn [Z.eqb negb].
    erewrite bind_run by (erewrite bind_run by exact R3; done). done. }
  assert (Fi : filled (se_infoBase env) (se_infoBase env + NSTACK_MAX_EPOLL_INFO_NUM) (es_infos s3) epinfo0 (es_infoPool s3) (es_infoPool s)) by (by rewrite G3, G5, D1, D3).
  assert (Ft : filled (se_itemBase env) (se_itemBase env + NSTACK_MAX_EPITEM_NUM) (es_items s3) epitem0 (es_itemPool s3) (es_itemPool s1)) by (by rewrite G4, G6).
  split; [congruence|]. split; [split|].
  - intros x Hx. rewrite (filled_is_Some _ _ _ _ _ _ x Ft) in Hx. split; [rewrite G1; apply N2; by right|]. split; [apply N5; left; apply N3; by right|rewrite G2; apply N4; by right].
  - intros x Hx. rewrite (filled_is_Some _ _ _ _ _ _ x F3) in Hx. split; [apply N5; by right|]. rewrite (fd_lookup _ _ _ _ _ _ Ft), decide_False by lia. done.
  - intros x Hx. rewrite (filled_is_Some _ _ _ _ _ _ x Fi) in Hx. split; [rewrite G2; apply N4; left; apply N1; by right|]. rewrite (fd_lookup _ _ _ _ _ _ Ft), decide_False by lia. done.
  - rewrite (fd_size _ _ _ _ _ _ Ft), (fd_size _ _ _ _ _ _ F3). lia.
  - rewrite (fd_contents _ _ _ _ _ _ Ft), (fd_contents _ _ _ _ _ _ F3), (fd_contents _ _ _ _ _ _ Fi), !Z.add_simpl_l. rewrite <- A5 in C5. rewrite <- A6, <- D4 in C6.
    assert (0 <= NSTACK_MAX_EPITEM_NUM ∧ 0 <= NSTACK_MAX_EPOLL_INFO_NUM) as [? ?] by (unfold NSTACK_MAX_EPITEM_NUM, NSTACK_MAX_EPOLL_INFO_NUM; lia).
    split; [eapply filled_pool; [exact Ft|..]; (done || lia)|]. split; [eapply filled_pool; [exact F3|..]; (done || lia)|].
    split; [eapply filled_pool; [exact Fi|..]; (done || lia)|done].
Qed.

Lemma init_einv s : blank s → zones → (se_malloc env (es_world s)).1 = true →
  ∃ s1 s2, nsep_create_memory (λ _, true) s = Some (0, s1) ∧ nsep_init_infoSockMap env s1 = Some (0, s2) ∧ einv env s2 (mk_gh ∅ ∅) ∧
    q_contents (es_itemPool s2) = seqZ (se_itemBase env) NSTACK_MAX_EPITEM_NUM ∧ q_contents (es_epPool s2) = seqZ (se_epBase env) NSTACK_MAX_EPOLL_INFO_NUM ∧
    q_contents (es_infoPool s2) = seqZ (se_infoBase env) NSTACK_MAX_EPOLL_INFO_NUM.
Proof.
  intros Hb Hz Hm. pose proof Hz as [_ _ _ Z4 Z5]. destruct (create_memory_spec s Hb Hz) as (s1 & Hrun & Hw & Hmem & P1 & P2 & P3 & K1 & K2 & K3). eexists s1, _. split; [done|]. split.
  { unfold nsep_init_infoSockMap. rewrite (bind_run _ _ _ _ _ (ask_run (se_malloc env) s1)). rewrite Hw, Hm. cbn [negb]. erewrite bind_run by done. done. }
  split; [|done]. split; cbn; try done; [by destruct Hmem|].
  eexists. split; [done|]. rewrite length_replicate. split; [lia|]. intros fd i. unfold aread. destruct (0 <=? fd); [|done]. by intros [? _]%lookup_replicate_1.
Qed.
End init.
