(* ===== verification/EpollWait.v ===== *)
(** * Epoll: waiting (src/src/nSocket/nstack/nstack_socket.c, src/src/nSocket/nstack/nstack.c)

    One call of [nstack_epoll_wait] while nothing else runs.  A wait on a semaphore that is zero then ends only by a signal, with [EINTR]; without one the call is [Blocked]. *)
From S2P Require Import Prelude.
From S2P Require Import Queue.
From S2P Require Import RbTree.
From S2P Require Import EpList.
From S2P Require Import EpollData.
From S2P Require Import Epoll.
From S2P Require Import EpollPoll.
From S2P Require Import EpollInv.
From S2P Require Import EpollCtl.
From S2P Require Import EpollPollProofs.
From S2P Require Import EpollInfo.

Definition ETIMEDOUT : Z := 110.

Inductive wait_out := Done (ret : Z) | Blocked.

Section wait.
(** [prewait m]: the function [ep_prewait_proc] of a module; [now]: [nstack_current_time2msec], its result and the time;
    [sig]: the error number with which a [sem_wait] on a semaphore that nobody posts ends, if it does. *)
Context {Q W : Type} `{BoundedQueue Q} (env : stack_env W) (prewait : Z → option (Z → W → Z * W)) (now : W → (Z * Z) * W) (sig : W → option Z * W).
Abbreviation st := (est Q W).
Abbreviation M := (stM (est Q W)).
Implicit Types (s : st) (g : ghost).

(** ** The functions *)

Fixpoint prewait_modules (n : nat) (modInx info : Z) (eventflag : option (list Z)) (num : Z) : M unit :=
  match n with
  | O => mret tt
  | S n =>
      _ ← match prewait modInx with
          | None => mret tt
          | Some f =>
              p ← info_get info_protoFD info; fd ← lift (aread p modInx);
              if fd <? 0 then mret tt
              else
                seen ← match eventflag with
                       | Some l => if modInx <? num then v ← lift (aread l modInx); mret (negb (v =? 0)) else mret false
                       | None => mret false
                       end;
                if (seen : bool) then mret tt else _ ← ask (f fd); mret tt
          end;
      prewait_modules n (modInx + 1) info eventflag num
  end.

Definition nstack_epoll_prewait_proc (epfd : Z) (eventflag : option (list Z)) (num : Z) : M unit :=
  epInfo ← nsep_get_infoBySock env epfd;
  match epInfo with
  | None => mret tt
  | Some i => prewait_modules (Z.to_nat (se_modNum env)) 0 i eventflag num
  end.

(** [sem_trywait] on [waitSem]. *)
Definition sem_trywait (ep : Z) : M bool :=
  v ← ep_get ep_waitSem ep;
  if 0 <? v then _ ← ep_upd (set_ep_waitSem (v - 1)) ep; mret true else mret false.

(** The loop of [nstack_epoll_sem_timedwait]; the times are 64 bits wide. *)
Fixpoint timedwait_loop (fuel : nat) (ep starttime abs_timeout : Z) : M Z :=
  match fuel with
  | O => lift None
  | S fuel =>
      ok ← sem_trywait ep;
      if (ok : bool) then mret 0
      else
        '(e, endtime) ← ask now;
        if negb (e =? 0) || (endtime <? starttime) || (abs_timeout <? endtime - starttime) then _ ← set_errno ETIMEDOUT; mret (-1)
        else timedwait_loop fuel ep starttime abs_timeout
  end.
Definition nstack_epoll_sem_timedwait (fuel : nat) (ep abs_timeout : Z) : M Z :=
  '(e, starttime) ← ask now;
  if negb (e =? 0) then _ ← set_errno ETIMEDOUT; mret (-1) else timedwait_loop fuel ep starttime abs_timeout.

(** [sem_wait] on [waitSem]: its result, none when it does not return. *)
Definition sem_wait (ep : Z) : M (option Z) :=
  ok ← sem_trywait ep;
  if (ok : bool) then mret (Some 0)
  else
    o ← ask sig;
    match o with Some e => _ ← set_errno e; mret (Some (-1)) | None => mret None end.

(** The [do] loop. *)
Fixpoint wait_loop (fuel tfuel : nat) (ep : Z) (evs : list epoll_event) (maxevents timeout : Z) : M (wait_out * list epoll_event) :=
  match fuel with
  | O => lift None
  | S fuel =>
      if timeout =? 0 then mret (Done 0, evs)
      else
        r ← (if timeout <? 0 then sem_wait ep
             else r ← nstack_epoll_sem_timedwait tfuel ep timeout; mret (Some r));
        match r with
        | None => mret (Blocked, evs)
        | Some ret =>
            if (timeout <? 0) && (ret <? 0) then mret (Done ret, evs)
            else if negb (ret =? 0) then mret (Done 0, evs)
            else
              '(o, evt) ← nsep_ep_poll env ep (mk_po evs None) maxevents 0;
              if negb (evt =? 0) then mret (Done evt, po_events o) else wait_loop fuel tfuel ep (po_events o) maxevents timeout
        end
  end.

(** From the checks on, once the descriptor is known to be open and is locked. *)
Definition nstack_epoll_wait (fuel tfuel : nat) (epfd : Z) (evs : option (list epoll_event)) (maxevents timeout : Z) : M (wait_out * list epoll_event) :=
  let refuse := _ ← set_errno EINVAL; mret (Done (-1), default [] evs) in
  if negb (se_is_epoll env epfd) then refuse
  else match evs with
  | None => refuse
  | Some evs =>
      epInfo ← nsep_get_infoBySock env epfd;
      match epInfo with
      | None => refuse
      | Some i =>
          ep ← info_get info_ep i;
          match ep with
          | None => refuse
          | Some ep =>
              if maxevents <=? 0 then refuse
              else
                '(o, evt) ← nsep_ep_poll env ep (mk_po evs (Some (replicate (Z.to_nat NSEP_SMOD_MAX) 0))) maxevents NSEP_SMOD_MAX;
                if negb (evt =? 0) then
                  _ ← nstack_epoll_prewait_proc epfd (po_flag o) NSEP_SMOD_MAX; mret (Done evt, po_events o)
                else
                  _ ← nstack_epoll_prewait_proc epfd None 0;
                  wait_loop fuel tfuel ep (po_events o) maxevents timeout
          end
      end
  end.

(** ** What a call does *)

Abbreviation einv := (einv env).

Lemma prewait_modules_run n modInx i flag num s q : es_infos s !! i = Some q → 0 <= modInx → modInx + Z.of_nat n <= Z.of_nat (length (info_protoFD q)) →
  (match flag with Some l => num <= Z.of_nat (length l) | None => True end) → ∃ w, prewait_modules n modInx i flag num s = Some (tt, set_es_world w s).
Proof.
  revert modInx s. induction n as [|n IH]; intros modInx s Hq Hm Hn Hfl; cbn [prewait_modules]; [exists (es_world s); by destruct s|]. unfold mret at 1. destruct (prewait modInx) as [f|]; [|erewrite bind_run by done; apply IH; [done|lia|lia|done]].
  destruct (aread_is_Some (info_protoFD q) modInx) as (fd & Hfd & _); [lia|].
  assert (∃ w, (p ← info_get info_protoFD i; fd ← lift (aread p modInx);
    if fd <? 0 then mret tt
    else
      seen ← match flag with
             | Some l => if modInx <? num then v ← lift (aread l modInx); mret (negb (v =? 0)) else mret false
             | None => mret false
             end;
      if (seen : bool) then mret tt else _ ← ask (f fd); mret tt) s = Some (tt, set_es_world w s)) as (w & Hw).
  { erewrite bind_run by (by apply info_get_run). rewrite (bind_run _ _ _ fd s) by (unfold lift; by rewrite Hfd). destruct (fd <? 0); [exists (es_world s); by destruct s|].
    assert (∃ b, (match flag with Some l => if modInx <? num then v ← lift (aread l modInx); mret (negb (v =? 0)) else mret false | None => mret false end) s = Some (b, s)) as (b & Hb).
    { destruct flag as [l|]; [|by exists false]. destruct (Z.ltb_spec modInx num); [|by exists false]. destruct (aread_is_Some l modInx) as (v & Hv & _); [lia|].
      exists (negb (v =? 0)). rewrite (bind_run _ _ _ v s) by (unfold lift; by rewrite Hv). done. }
    rewrite (bind_run _ _ _ _ _ Hb). destruct b; [exists (es_world s); by destruct s|]. rewrite (bind_run _ _ _ _ _ (ask_run (f fd) s)). by eexists. }
  rewrite (bind_run _ _ _ _ _ Hw). destruct (IH (modInx + 1) (set_es_world w s)) as (w' & Hw'); [done|lia|lia|done|]. exists w'. rewrite Hw'. done.
Qed.

Lemma prewait_proc_run s g epfd flag num : einv s g → (match flag with Some l => num <= Z.of_nat (length l) | None => True end) →
  ∃ w, nstack_epoll_prewait_proc epfd flag num s = Some (tt, set_es_world w s).
Proof.
  intros Hi Hfl. unfold nstack_epoll_prewait_proc. erewrite bind_run by (by eapply infoBySock_run). destruct (info_of s epfd) as [i|] eqn:Hf; [|exists (es_world s); by destruct s].
  destruct (info_of_ok env _ _ _ _ _ Hi Hf) as (q & l & Hq & Hl & Hok & _). pose proof (ei_mods _ _ _ _ Hi) as Hm. pose proof (io_proto _ _ _ _ _ _ Hok) as Hp.
  unfold NSTACK_MAX_MODULE_NUM, NSEP_SMOD_MAX in *. apply (prewait_modules_run _ _ _ _ _ _ q); [done|lia|rewrite Hp; lia|done].
Qed.

(** A poll that reports nothing has taken every item off the ready list. *)
Lemma polled_none s epfd max D w R R' D' w' : 0 < max → polled env s epfd max D w [] R = Some ([], R', D', w') → R' = R ∧ D' = [].
Proof.
  intros Hmax. revert w R. induction D as [|x D IH]; intros w R; cbn; [by intros [= <- <- _]|]. destruct (item_view s x) as [[it q]|]; [|done]. cbn. destruct (poll_value _ _ _ _) as [v w1].
  unfold ready_after. destruct (v =? 0) eqn:Hv; cbn.
  - rewrite (proj2 (Z.leb_gt max (Z.of_nat 0))) by lia. apply IH.
  - destruct (max <=? Z.of_nat 1); [done|]. intros Hc. apply polled_grows in Hc. cbn in Hc. lia.
Qed.

Lemma trywait_run s ep r : es_eps s !! ep = Some r → sem_trywait ep s =
  if 0 <? ep_waitSem r then Some (true, set_es_eps (<[ep := set_ep_waitSem (ep_waitSem r - 1) r]> (es_eps s)) s) else Some (false, s).
Proof.
  intros Hr. unfold sem_trywait. erewrite bind_run by (by apply ep_get_run). destruct (0 <? ep_waitSem r); [|done]. erewrite bind_run by (by apply ep_upd_run). done.
Qed.

Lemma sem_wait_zero s ep r : es_eps s !! ep = Some r → ep_waitSem r <= 0 → sem_wait ep s =
  let '(o, w) := sig (es_world s) in
  match o with Some e => Some (Some (-1), set_es_errno e (set_es_world w s)) | None => Some (None, set_es_world w s) end.
Proof.
  intros Hr Hs. pose proof (trywait_run s ep r Hr) as Htry. destruct (Z.ltb_spec 0 (ep_waitSem r)); [lia|]. unfold sem_wait.
  rewrite (bind_run _ _ _ _ _ Htry). erewrite bind_run by apply ask_run. by destruct (sig (es_world s)) as [[e|] w].
Qed.

(** How a wait ends when the ready list is empty and no event comes: at once, when the time is over, with the signal, or not at all. *)
Definition idle_end (timeout : Z) s' (out : wait_out) : Prop :=
  (timeout = 0 ∧ out = Done 0) ∨ (0 < timeout ∧ out = Done 0 ∧ es_errno s' = ETIMEDOUT) ∨
  (timeout < 0 ∧ ∃ w, match (sig w).1 with Some e => out = Done (-1) ∧ es_errno s' = e | None => out = Blocked end).

Lemma wait_loop_zero fuel tfuel ep s r evs max timeout : es_eps s !! ep = Some r → ep_waitSem r <= 0 → timeout < 0 →
  wait_loop (S fuel) tfuel ep evs max timeout s =
  let '(o, w) := sig (es_world s) in
  match o with Some e => Some ((Done (-1), evs), set_es_errno e (set_es_world w s)) | None => Some ((Blocked, evs), set_es_world w s) end.
Proof.
  intros Hr Hs Ht. cbn [wait_loop]. destruct (Z.eqb_spec timeout 0); [lia|]. rewrite (proj2 (Z.ltb_lt timeout 0)) by done.
  pose proof (sem_wait_zero s ep r Hr Hs) as Hz. destruct (sig (es_world s)) as [[e|] w]; by rewrite (bind_run _ _ _ _ _ Hz).
Qed.

(** ** The timed wait *)

(** One of the next [n] readings of the clock fails, is before [start] or is more than [timeout] after it. *)
Fixpoint expires (n : nat) (start timeout : Z) (w : W) : Prop :=
  match n with
  | O => False
  | S n => let '((e, t), w) := now w in e ≠ 0 ∨ t < start ∨ timeout < t - start ∨ expires n start timeout w
  end.

(** The clock gets ahead: [timeout] is over after at most [n] readings, whenever the wait starts. *)
Definition clock_expires (n : nat) (timeout : Z) : Prop := ∀ w, let '((e, start), w) := now w in expires n start timeout w.

Lemma timedwait_loop_zero n ep s r start timeout : es_eps s !! ep = Some r → ep_waitSem r <= 0 → expires n start timeout (es_world s) →
  ∃ w, timedwait_loop n ep start timeout s = Some (-1, set_es_errno ETIMEDOUT (set_es_world w s)).
Proof.
  revert s. induction n as [|n IH]; intros s Hr Hs Hx; [done|]. cbn [expires timedwait_loop] in *.
  pose proof (trywait_run s ep r Hr) as Htry. destruct (Z.ltb_spec 0 (ep_waitSem r)); [lia|]. rewrite (bind_run _ _ _ _ _ Htry).
  erewrite bind_run by apply ask_run. destruct (now (es_world s)) as [[e t] w]. cbn [fst snd].
  destruct (negb (e =? 0) || (t <? start) || (timeout <? t - start)) eqn:Hb; [by eexists|].
  rewrite !orb_false_iff, negb_false_iff, Z.eqb_eq, !Z.ltb_ge in Hb. destruct Hb as [[-> Hb1] Hb2].
  destruct Hx as [?|[?|[?|Hx]]]; [done|lia|lia|]. destruct (IH (set_es_world w s)) as (w' & ->); [done|done|done|]. by eexists.
Qed.

Lemma sem_timedwait_zero n ep s r timeout : es_eps s !! ep = Some r → ep_waitSem r <= 0 → clock_expires n timeout →
  ∃ w, nstack_epoll_sem_timedwait n ep timeout s = Some (-1, set_es_errno ETIMEDOUT (set_es_world w s)).
Proof.
  intros Hr Hs Hc. specialize (Hc (es_world s)). unfold nstack_epoll_sem_timedwait. erewrite bind_run by apply ask_run.
  destruct (now (es_world s)) as [[e t] w]. cbn [fst snd]. destruct (negb (e =? 0)); [by eexists|].
  destruct (timedwait_loop_zero n ep (set_es_world w s) r t timeout) as (w' & ->); [done..|]. by eexists.
Qed.

(** A posted semaphore is taken at once, unless the clock fails. *)
Lemma sem_timedwait_posted n ep s r timeout : es_eps s !! ep = Some r → 0 < ep_waitSem r → clock_expires n timeout →
  ∃ w, nstack_epoll_sem_timedwait n ep timeout s = Some (-1, set_es_errno ETIMEDOUT (set_es_world w s)) ∨
    nstack_epoll_sem_timedwait n ep timeout s = Some (0, set_es_eps (<[ep := set_ep_waitSem (ep_waitSem r - 1) r]> (es_eps s)) (set_es_world w s)).
Proof.
  intros Hr Hs Hc. specialize (Hc (es_world s)). unfold nstack_epoll_sem_timedwait. erewrite bind_run by apply ask_run.
  destruct (now (es_world s)) as [[e t] w]. cbn [fst snd]. exists w. destruct (negb (e =? 0)); [by left|right]. destruct n as [|n]; [done|].
  cbn [timedwait_loop]. pose proof (trywait_run (set_es_world w s) ep r Hr) as Htry. destruct (Z.ltb_spec 0 (ep_waitSem r)); [|lia].
  by rewrite (bind_run _ _ _ _ _ Htry).
Qed.

Lemma poll_empty s g ep e o max num : einv s g → g_eps g !! ep = Some e → ge_ready e = [] → nsep_ep_poll env ep o max num s = Some ((o, 0), s).
Proof. intros Hi He Hr. unfold nsep_ep_poll. erewrite bind_run by (by apply (rdlist_empty_run env [] s g ep e)). by rewrite Hr. Qed.

(** With nothing on the ready list, a call takes what the semaphore has and then ends as [idle_end] says. *)
Lemma wait_loop_idle fuel tfuel ep s g e r evs max timeout : einv s g → g_eps g !! ep = Some e → es_eps s !! ep = Some r → ge_ready e = [] →
  (0 < timeout → clock_expires tfuel timeout) → Z.max 0 (ep_waitSem r) < Z.of_nat fuel →
  ∃ out s', wait_loop fuel tfuel ep evs max timeout s = Some ((out, evs), s') ∧ idle_end timeout s' out ∧ einv s' g.
Proof.
  revert s r. induction fuel as [|fuel IH]; intros s r Hi He Hr Hready Hc Hf; [lia|]. destruct (Z.eqb_spec timeout 0) as [->|Ht0].
  { exists (Done 0), s. split; [done|]. split; [by left|done]. }
  destruct (Z.ltb_spec 0 (ep_waitSem r)) as [Hs|Hs].
  - assert (Hagain : ∀ s1, einv s1 g → es_eps s1 !! ep = Some (set_ep_waitSem (ep_waitSem r - 1) r) →
      ∃ out s', (('(o, evt) ← nsep_ep_poll env ep (mk_po evs None) max 0;
        if negb (evt =? 0) then mret (Done evt, po_events o) else wait_loop fuel tfuel ep (po_events o) max timeout) : M _) s1 = Some ((out, evs), s') ∧ idle_end timeout s' out ∧ einv s' g).
    { intros s1 Hi1 Hr1. rewrite (bind_run _ _ _ _ _ (poll_empty s1 g ep e _ max 0 Hi1 He Hready)).
      cbn [Z.eqb negb po_events]. apply (IH s1 _ Hi1 He Hr1 Hready Hc). cbn. lia. }
    cbn [wait_loop]. rewrite (proj2 (Z.eqb_neq timeout 0)) by done. destruct (Z.ltb_spec timeout 0) as [Ht|Ht].
    + pose proof (trywait_run s ep r Hr) as Htry. rewrite (proj2 (Z.ltb_lt _ _) Hs) in Htry. erewrite bind_run by (unfold sem_wait; erewrite bind_run by exact Htry; done).
      apply Hagain; [by eapply einvx_soft; [apply (soft_ep (set_ep_waitSem (ep_waitSem r - 1)))|]|apply lookup_insert_eq].
    + destruct (sem_timedwait_posted tfuel ep s r timeout Hr Hs) as (w & [Hw|Hw]); [by apply Hc; lia|erewrite bind_run by (erewrite bind_run by exact Hw; done)..].
      * cbn. eexists _, _. split; [done|]. split; [right; left; split; [lia|done]|].
        eapply einvx_soft; [apply soft_errno|]. eapply einvx_soft; [apply soft_world|done].
      * cbn [andb Z.eqb negb]. apply Hagain; [|apply lookup_insert_eq].
        eapply einvx_soft; [apply (soft_ep (set_ep_waitSem (ep_waitSem r - 1)) ep (set_es_world w s) r); done|]. eapply einvx_soft; [apply soft_world|done].
  - destruct (Z.ltb_spec timeout 0) as [Ht|Ht].
    + rewrite (wait_loop_zero fuel tfuel ep s r evs max timeout Hr Hs Ht). destruct (sig (es_world s)) as [[e'|] w] eqn:Hsig; (eexists _, _; split; [done|]; split;
        [right; right; split; [done|]; exists (es_world s); by rewrite Hsig|]); [eapply einvx_soft; [apply soft_errno|]|]; (eapply einvx_soft; [apply soft_world|done]).
    + destruct (sem_timedwait_zero tfuel ep s r timeout Hr Hs) as (w & Hw); [by apply Hc; lia|]. cbn [wait_loop]. rewrite (proj2 (Z.eqb_neq timeout 0)), (proj2 (Z.ltb_ge timeout 0)) by done.
      erewrite bind_run by (erewrite bind_run by exact Hw; done). cbn. eexists _, _. split; [done|]. split; [right; left; split; [lia|done]|].
      eapply einvx_soft; [apply soft_errno|]. eapply einvx_soft; [apply soft_world|done].
Qed.

(** The epoll descriptor of an event poll that is not being polled. *)
Record opened s g (epfd ep : Z) (e : gep) (r : eventpoll) : Prop := {
  op_inv : einv s g;
  op_is : se_is_epoll env epfd = true;
  op_ep : ep_of s epfd = Some ep;
  op_gep : g_eps g !! ep = Some e;
  op_rec : es_eps s !! ep = Some r;
  op_idle : ge_phase e = Idle
}.

Lemma epoll_wait_spec fuel tfuel s g epfd ep e r evs max timeout : opened s g epfd ep e r → 0 < max <= Z.of_nat (length evs) →
  (0 < timeout → clock_expires tfuel timeout) → Z.max 0 (ep_waitSem r) < Z.of_nat fuel →
  ∃ out R D w ret s', polled env s (ep_epfd r) max (ge_ready e) (es_world s) [] [] = Some (out, R, D, w) ∧
    nstack_epoll_wait fuel tfuel epfd (Some evs) max timeout s = Some ((ret, out ++ drop (length out) evs), s') ∧
    (if bool_decide (out = []) then idle_end timeout s' ret ∧ R ++ D = [] else ret = Done (Z.of_nat (length out))) ∧
    einv s' (gep_upd ep (mk_gep (ge_tree e) (R ++ D) Idle) g).
Proof.
  intros [Hi His Hep He Hr Hidle] Hmax Hc Hfuel. unfold ep_of in Hep. destruct (info_of s epfd) as [i|] eqn:Hf; [|done]. cbn in Hep. destruct (es_infos s !! i) as [q|] eqn:Hq; [|done]. cbn in Hep.
  unfold nstack_epoll_wait. rewrite His. cbn [negb]. erewrite bind_run by (by eapply infoBySock_run). rewrite Hf. erewrite bind_run by (by apply info_get_run). rewrite Hep.
  rewrite (proj2 (Z.leb_gt max 0)) by lia.
  destruct (ep_poll_spec env s g ep e r (mk_po evs (Some (replicate (Z.to_nat NSEP_SMOD_MAX) 0))) max NSEP_SMOD_MAX Hi He Hr Hidle) as
    (out & R & P & D & w & s1 & o & A1 & A2 & A3 & A4 & A5 & A6 & A7 & A8 & A9 & (l & A10) & A11); [done|cbn; rewrite length_replicate; unfold NSEP_SMOD_MAX; lia|].
  cbn [po_events po_flag] in A4, A11. rewrite (bind_run _ _ _ _ _ A3). cbn beta iota. exists out, R, D, w. destruct out as [|ev out].
  - change (negb (Z.of_nat (length (@nil epoll_event)) =? 0)) with false. cbn iota. destruct (prewait_proc_run s1 _ epfd None 0 A6 I) as (w1 & Hw1). rewrite (bind_run _ _ _ _ _ Hw1). destruct (polled_none _ _ _ _ _ _ _ _ _ (proj1 Hmax) A1) as [-> ->].
    set (s2 := set_es_world w1 s1). assert (Hi2 : EpollInv.einv env s2 (gep_upd ep (mk_gep (ge_tree e) ([] ++ []) Idle) g)) by (eapply einvx_soft; [apply soft_world|exact A6]).
    cbn in A4. rewrite A4. destruct (wait_loop_idle fuel tfuel ep s2 _ (mk_gep (ge_tree e) [] Idle) (set_ep_rdlist l r) evs max timeout Hi2) as (ret & s3 & B1 & B2 & B3);
      [apply lookup_insert_eq|cbn; rewrite A10; apply lookup_insert_eq|done|done|done|].
    exists ret, s3. split; [done|]. split; [exact B1|]. by rewrite bool_decide_eq_true_2.
  - replace (Z.of_nat (length (ev :: out)) =? 0) with false by (symmetry; apply Z.eqb_neq; cbn; lia). cbn [negb].
    destruct (prewait_proc_run s1 _ epfd (po_flag o) NSEP_SMOD_MAX A6) as (w1 & Hw1).
    { destruct (po_flag o) as [fl|]; [|done]. cbn in A11. injection A11 as A11. rewrite A11. unfold NSEP_SMOD_MAX. cbn. lia. }
    rewrite (bind_run _ _ _ _ _ Hw1). rewrite bool_decide_eq_false_2 by done. eexists _, (set_es_world w1 s1). split; [done|]. split; [by rewrite <- A4|]. split; [done|]. eapply einvx_soft; [apply soft_world|exact A6].
Qed.
End wait.
