(* ===== verification/EpollTheorems.v ===== *)
(** * Epoll: the theorems *)
From S2P Require Import Prelude.
From S2P Require Import Queue.
From S2P Require Import Ring.
From S2P Require Import RbTree.
From S2P Require Import RbTreeProofs.
From S2P Require Import RbTreeInsert.
From S2P Require Import RbTreeProps.
From S2P Require Import EpList.
From S2P Require Import EpollData.
From S2P Require Import Epoll.
From S2P Require Import EpollPoll.
From S2P Require Import EpollInv.
From S2P Require Import EpollInfo.
From S2P Require Import EpollProps.
From S2P Require Import EpollPollProofs.
From S2P Require Import EpollEvents.
From S2P Require Import EpollInit.
From S2P Require Import EpollWait.

(** ** A concrete state

    The event poll 30 of the descriptor 3 watches the descriptor 5 through the item 10, which is on the ready list; the item 11 is in the pool. *)
Module Small.
#[export] Instance queue : BoundedQueue nsfw_mem_ring := sp_sc_queue 7.

Definition env : stack_env unit := {|
  se_ep_ctl := λ _, Some (λ _ _ _ _ _ w, (1, w));
  se_ep_getevt := λ _, None;
  se_fd_check := Some (λ _ w, (1, w));
  se_fix_mid := 0;
  se_modNum := 1;
  se_pid := 7;
  se_same_process := 0;
  se_kernel_fd_max := 16;
  se_is_epoll := λ fd, fd =? 3;
  se_cloexec := λ _, false;
  se_itemBase := 1;
  se_epBase := 20000;
  se_infoBase := 40000;
  se_sem_init := λ w, (0, w);
  se_malloc := λ w, (true, w)
|}.

Definition res1 : nsfw_res := mk_res 1 0 0 0.
Definition item (revents : Z) : epitem := mk_epi (mk_hn None None) 0 (Some 30) (Some 41) NSEP_EP_UNACTIVE_PTR (mk_ev 25 5) revents 0 5 7 (Some 41) res1.
Definition ep : eventpoll := mk_ep 0 (mk_ehl (Some 30) (Some 10)) NSEP_EP_UNACTIVE_PTR (Some 10) 3 7 res1.
Definition info (fd : Z) (ep : option Z) (i : Z) : nsep_epollInfo_t :=
  mk_info fd 0 0 (-1) (-1) (replicate 8 (-1)) ep (Some i) 0 (mk_pidinfo 1 (7 :: replicate 31 0)) None res1.
Definition ring1 : nsfw_mem_ring := match nsfw_nshmem_ring_sp_enqueue 7 ring4 11 with Some (_, r) => r | None => ring4 end.
Definition sockMap : list (option Z) := <[3%nat := Some 40]> (<[5%nat := Some 41]> (replicate 16 None)).

Definition state (revents : Z) : est nsfw_mem_ring unit :=
  mk_est {[10 := mk_rb BLACK None None None; 11 := mk_rb BLACK None None None]}
    {[30 := mk_hn (Some 10) None; 10 := mk_hn None (Some 30); 11 := mk_hn None None]} {[41 := Some 10; 10 := None; 40 := None; 11 := None]}
    {[10 := item revents; 11 := epitem0]} {[30 := ep]} {[40 := info 3 (Some 30) 40; 41 := info 5 None 41]} (Some sockMap) ring1 ring4 ring4 0 tt.
Definition gp : gep := mk_gep [10] [10] Idle.
Definition gh : ghost := mk_gh {[30 := gp]} {[40 := []; 41 := [10]]}.
Definition start : est nsfw_mem_ring unit :=
  mk_est ∅ ∅ ∅ ∅ ∅ ∅ None (nsfw_mem_ring_init 16384 0 0 0 7) (nsfw_mem_ring_init 8192 0 0 0 7) (nsfw_mem_ring_init 8192 0 0 0 7) 0 tt.
Definition out1 : poll_out := mk_po [mk_ev 0 0] None.

Lemma ring1_quiet : quiet ring1.
Proof. split; [|vm_compute; intuition congruence]. split; [exists 2; split; [lia|reflexivity]|]. vm_compute. intuition congruence. Qed.

Lemma tree_ok v : tree_inv (fd_of (state v)) (mk_rbt (es_rbn (state v)) (Some 10)) [10].
Proof.
  split; [repeat constructor|]. exists (T BLACK E 10 E). split; [|split; [|done]].
  - split; [done| |apply NoDup_singleton]. split; [by eexists|done].
  - split; [done|]. exists 1%nat. right. split; [done|]. by exists 0%nat.
Qed.

Lemma lookup2 {A} (k1 k2 k : Z) (a1 a2 a : A) : ({[k1 := a1; k2 := a2]} : gmap Z A) !! k = Some a → (k = k1 ∧ a = a1) ∨ (k = k2 ∧ a = a2).
Proof. intros [[<- <-]|[_ [<- <-]%lookup_singleton_Some]]%lookup_insert_Some; auto. Qed.

Lemma lookup1 {A} (k1 k : Z) (a1 a : A) : ({[k1 := a1]} : gmap Z A) !! k = Some a → k = k1 ∧ a = a1.
Proof. by intros [<- <-]%lookup_singleton_Some. Qed.

Lemma state_mem v : mem_ok (state v).
Proof.
  split.
  - intros x [a [[-> _]|[-> _]]%lookup2]; split_and!; by eexists.
  - intros x [a [-> _]%lookup1]. by split; [eexists|].
  - intros x [a [[-> _]|[-> _]]%lookup2]; by split; [eexists|].
  - vm_compute. split; congruence.
Qed.

Lemma state_ep v : ep_ok env [] (state v) gh 30 gp ep.
Proof.
  split.
  - apply tree_ok.
  - split; [done|done| |by vm_compute]. repeat constructor; set_solver.
  - done.
  - repeat constructor; set_solver.
  - intros x Hx. cbn in *. set_solver.
  - done.
  - intros x Hx Hn. cbn in *. set_solver.
  - intros x ->%list_elem_of_singleton. exists (item v). split; [done|]. split; [done|]. split; [done|]. split; [done|]. split; [done|]. intros _. exists 41, [10], (info 5 None 41).
    split; [done|]. split; [done|]. split; [left|]. split; done.
  - done.
  - exists sockMap, 40. split; [done|]. split; [done|]. cbn. lia.
Qed.

Lemma pid_ok1 : pid_ok (mk_pidinfo 1 (7 :: replicate 31 0)).
Proof. split; [done|]. unfold NSTACK_FORK_NUM. cbn. lia. Qed.

Lemma state_info v i l : g_fl gh !! i = Some l → ∃ r, es_infos (state v) !! i = Some r ∧ info_ok [] (state v) gh i l r.
Proof.
  intros [[-> ->]|[-> ->]]%lookup2.
  - exists (info 3 (Some 30) 40). split; [done|]. split; [split; [repeat constructor; set_solver|done]|done|by intros x ?%elem_of_nil|done|done|cbn; unfold NSEP_SMOD_MAX; lia|apply pid_ok1].
  - exists (info 5 None 41). split; [done|]. split; [split; [repeat constructor; set_solver|done]|done| |done|done|cbn; unfold NSEP_SMOD_MAX; lia|apply pid_ok1].
    intros x ->%list_elem_of_singleton. split; [by eexists|]. intros _. exists 30, gp, (item v). split; [done|]. split; [left|]. done.
Qed.

Lemma ring4_pool {A} (m : gmap Z A) flag : (size m <= 4)%nat → m !! 0 = None → pool_ok ring4 m flag.
Proof.
  intros Hm H0. split; [apply ring4_quiet| | | |done]; change (q_contents ring4) with (contents ring4); replace (contents ring4) with (@nil Z) by (by vm_compute).
  - constructor.
  - by intros x ?%elem_of_nil.
  - change (q_cap ring4) with 4. lia.
Qed.

Lemma sock_read fd i : aread sockMap fd = Some (Some i) → (fd = 3 ∧ i = 40) ∨ (fd = 5 ∧ i = 41).
Proof.
  intros [Hfd Hl]%aread_Some. assert (Hb : (Z.to_nat fd < 16)%nat) by (apply lookup_lt_Some in Hl; exact Hl).
  assert (Hc : fd ∈ seqZ 0 16) by (apply elem_of_seqZ; lia). revert Hl. repeat (apply elem_of_cons in Hc as [->|Hc]; [vm_compute; intros ?; simplify_eq; auto|]). by apply elem_of_nil in Hc.
Qed.

Lemma state_inv v : EpollInv.einv env (state v) gh.
Proof.
  split.
  - apply state_mem.
  - split; [exact ring1_quiet| | |vm_compute; split; congruence|done]; change (q_contents (es_itemPool (state v))) with (contents ring1); replace (contents ring1) with [11] by (by vm_compute).
    + apply NoDup_singleton.
    + intros x ->%list_elem_of_singleton. by exists epitem0.
  - by apply ring4_pool; vm_compute; auto.
  - by apply ring4_pool; vm_compute; auto.
  - intros e1 e [-> ->]%lookup1. exists ep. split; [done|apply state_ep].
  - apply state_info.
  - intros i j l l' [[-> ->]|[-> ->]]%lookup2 [[-> ->]|[-> ->]]%lookup2 Hne x Hx; try done; set_solver.
  - exists sockMap. split; [done|]. split; [done|]. intros fd i [[-> ->]|[-> ->]]%sock_read.
    + exists (info 3 (Some 30) 40). split; [done|]. split; [by eexists|]. split; [done|]. intros e1 [= <-]. by exists gp, ep.
    + exists (info 5 None 41). split; [done|]. split; [by eexists|]. split; [done|]. by intros e1.
  - cbn. unfold NSTACK_MAX_MODULE_NUM. lia.
Qed.

Lemma init_queue size n : pow2_size size → n <= size → empty_queue (nsfw_mem_ring_init size 0 0 0 7) n.
Proof.
  intros Hs Hn. pose proof (pow2_size_bounds _ Hs). split; [by apply ring_init_quiet|]. split; [done|]. change (q_cap (nsfw_mem_ring_init size 0 0 0 7)) with size. lia.
Qed.

Lemma start_blank : blank start.
Proof. split; [done|done|done|..]; (apply init_queue; [|done]); [exists 13|exists 14|exists 13]; (split; [lia|done]). Qed.

Lemma env_zones : zones env.
Proof. split; vm_compute; intuition congruence. Qed.

End Small.

Section theorems.
Context {Q W : Type} `{BoundedQueue Q} (env : stack_env W).
Implicit Types (s : est Q W) (g : ghost).

(** C13: Creation establishes the invariant of the epoll component: when the memory manager supplies three empty rings of sufficient size and
    three zones that do not overlap, [nsep_create_memory] fills the pools with all their objects in order and succeeds, [nsep_init_infoSockMap] after it
    enters no descriptor, and the invariant holds with no event poll and no information in use. *)
Theorem epoll_init_establishes s : blank s → zones env → (se_malloc env (es_world s)).1 = true →
  ∃ s1 s2, nsep_create_memory env (λ _, true) s = Some (0, s1) ∧ nsep_init_infoSockMap env s1 = Some (0, s2) ∧ einv env s2 (mk_gh ∅ ∅) ∧
    q_contents (es_itemPool s2) = seqZ (se_itemBase env) NSTACK_MAX_EPITEM_NUM ∧ q_contents (es_epPool s2) = seqZ (se_epBase env) NSTACK_MAX_EPOLL_INFO_NUM ∧
    q_contents (es_infoPool s2) = seqZ (se_infoBase env) NSTACK_MAX_EPOLL_INFO_NUM.
Proof. apply init_einv. Qed.

(** C4: [nstack_epoll_ctl] implements the map from registered descriptors to events of interest that each event poll is: for every state that satisfies
    the invariant and has no poll under way the call is defined and keeps both; a call with a wrong descriptor, a missing event, an operation that does not exist, a
    descriptor registered twice or not registered is refused with the error the interface documents and leaves the map as it is; an accepted
    [EPOLL_CTL_ADD] inserts, or fails exactly when no item is left ([ENOMEM]) or the descriptor has no information and can have none ([errno] is then left as it was); [EPOLL_CTL_DEL] deletes, [EPOLL_CTL_MOD]
    replaces, with errors and hang-ups added to the events; no other event poll changes. *)
Theorem epoll_ctl_refines s g epfd op fd event : einv env s g → idle g →
  match ctl_errno env (ep ← ep_of s epfd; watched s g !! ep) epfd op fd event with
  | Some e => ctl_ok env (nstack_epoll_ctl env epfd op fd event) s g (-1) (λ s', es_errno s' = e) (watched s g)
  | None => ∃ ep I, ep_of s epfd = Some ep ∧ watched s g !! ep = Some I ∧
      ctl_done env (nstack_epoll_ctl env epfd op fd event) s g (watched s g) ep fd op (full_event event) I
  end.
Proof. apply epoll_ctl_spec. Qed.

(** C7: What a poll that is not interrupted does: [nsep_ep_poll] terminates without undefined behaviour, returns the number of events and writes them, at most
    [max], in the order of the ready list, one for each item with an event (its pending events and what its stack reports), up to the item with the last event
    that fits; of the items looked at, those with an event that are level triggered are queued again, in front of the items not looked at, and the others leave the ready
    list; the events of the items looked at are no longer pending, and the invariant holds. *)
Theorem ep_poll_reports s g ep e r o max num : einv env s g → g_eps g !! ep = Some e → es_eps s !! ep = Some r → ge_phase e = Idle →
  0 < max <= Z.of_nat (length (po_events o)) → (match po_flag o with Some f => num <= Z.of_nat (length f) | None => True end) →
  ∃ evs R' P D' w' s' o', polled env s (ep_epfd r) max (ge_ready e) (es_world s) [] [] = Some (evs, R', D', w') ∧ ge_ready e = P ++ D' ∧
    nsep_ep_poll env ep o max num s = Some ((o', Z.of_nat (length evs)), s') ∧ po_events o' = evs ++ drop (length evs) (po_events o) ∧ Z.of_nat (length evs) <= max ∧
    einv env s' (gep_upd ep (mk_gep (ge_tree e) (R' ++ D') Idle) g) ∧ es_world s' = w' ∧
    (∀ x, es_items s' !! x = (if bool_decide (x ∈ P) then set_epi_revents 0 <$> (es_items s !! x) else es_items s !! x)).
Proof.
  intros Hi He Hr Hidle Hmax Hfl. destruct (ep_poll_spec env s g ep e r o max num Hi He Hr Hidle Hmax Hfl) as (evs & R & P & D & w & s' & o' & A1 & A2 & A3 & A4 & A5 & A6 & A7 & A8 & A9 & _).
  by exists evs, R, P, D, w, s', o'.
Qed.

(** C2: No event is lost: in every interleaving of polls of an event poll, item by item, with callbacks of the stacks, each event bit a callback delivers is reported
    by a later step of a poll or is still owed at the end, pending in an item that is on the ready list or in the detached part of it, or kept in an item of [ovflist]; after
    the end of a poll that means on the ready list. *)
Theorem no_event_lost s g ep e max num tr s' p : 0 < max → einv env s g → g_eps g !! ep = Some e → ge_phase e = Idle → run env ep max num (ge_tree e) (s, Out) tr (s', p) →
  ∃ e', minv env ep max num (ge_tree e) (s', p) e' ∧ ∀ tr1 tr2 x v b, tr = tr1 ++ LEvent x v :: tr2 → Z.testbit v b = true →
    owes (s', p) e' x b ∨ ∃ v', LReport x v' ∈ tr2 ∧ Z.testbit v' b = true.
Proof.
  intros Hmax Hi He Hidle Hr. destruct (run_inv env ep max num (ge_tree e) (s, Out) tr (s', p) e Hmax Hr) as (e' & Hm & _ & Hev); [|by exists e'].
  exists g. cbn. by rewrite Hidle.
Qed.

(** C26: A poll always comes to its end: from every state that polls and callbacks can reach and in which a poll is under way, the poll alone ends within two steps more
    than the event poll has items. *)
Theorem poll_completes s g ep e max num tr s' p : 0 < max → einv env s g → g_eps g !! ep = Some e → ge_phase e = Idle → run env ep max num (ge_tree e) (s, Out) tr (s', p) → p ≠ Out →
  ∃ tr' s'', run env ep max num (ge_tree e) (s', p) tr' (s'', Out) ∧ (length tr' <= length (ge_tree e) + 2)%nat ∧ Forall (λ l, ¬ is_event l) tr'.
Proof.
  intros Hmax Hi He Hidle Hr Hp. destruct (run_inv env ep max num (ge_tree e) (s, Out) tr (s', p) e Hmax Hr) as (e' & Hm & _); [exists g; cbn; by rewrite Hidle|].
  apply (poll_ends env ep max num (ge_tree e) _ s' p e' Hmax Hm); [|done]. by apply (rest_length env ep max num (ge_tree e) (s', p)).
Qed.

(** C27: A wait during which nothing else runs and no event comes waits only when nothing is to be reported: [nstack_epoll_wait] on an open epoll descriptor returns what its poll
    reports; when that is nothing the ready list is empty, and the call returns 0 at once if it may not wait and when the time is over if it is limited (the clock gets ahead), and if it
    may wait for ever it blocks, or returns -1 with the error number of the signal that interrupts it. *)
Theorem epoll_wait_blocks_idle prewait now sig fuel tfuel s g epfd ep e r evs max timeout : opened env s g epfd ep e r → 0 < max <= Z.of_nat (length evs) →
  (0 < timeout → clock_expires now tfuel timeout) → Z.max 0 (ep_waitSem r) < Z.of_nat fuel →
  ∃ out R D w ret s', polled env s (ep_epfd r) max (ge_ready e) (es_world s) [] [] = Some (out, R, D, w) ∧
    nstack_epoll_wait env prewait now sig fuel tfuel epfd (Some evs) max timeout s = Some ((ret, out ++ drop (length out) evs), s') ∧
    (if bool_decide (out = []) then idle_end sig timeout s' ret ∧ R ++ D = [] else ret = Done (Z.of_nat (length out))) ∧
    einv env s' (gep_upd ep (mk_gep (ge_tree e) (R ++ D) Idle) g).
Proof. apply epoll_wait_spec. Qed.

(** C36: The wake-up for an event that comes during a poll is lost: when the only item of the ready list has nothing to report and its event comes once the poll has looked at it,
    the poll reports nothing, the item is back on the ready list with the event pending, and the semaphore is still zero, so that the wait that follows the poll blocks (when no signal comes). *)
Theorem wakeup_lost now s g ep e r x it i q w evs max num o : einv env s g → g_eps g !! ep = Some e → es_eps s !! ep = Some r → ge_phase e = Idle → ge_ready e = [x] →
  es_items s !! x = Some it → epi_private_data it = Some i → es_infos s !! i = Some q → poll_value env (ep_epfd r) q it (es_world s) = (0, w) →
  has (events (epi_event it)) (wrap32 evs) = true → 0 < max → room max num o → ep_waitSem r = 0 →
  ∃ s' it', run env ep max num (ge_tree e) (s, Out) [LTau; LReport x 0; LEvent x (Z.land (events (epi_event it)) (wrap32 evs)); LTau; LTau] (s', Out) ∧
    einv env s' (gep_upd ep (mk_gep (ge_tree e) [x] Idle) g) ∧ es_items s' !! x = Some it' ∧ has (events (epi_event it')) (epi_revents it') = true ∧
    ∀ fuel tfuel out timeout, timeout < 0 → wait_loop env now (λ w, (None, w)) (S fuel) tfuel ep out max timeout s' = Some ((Blocked, out), s').
Proof.
  intros Hi He Hr Hidle HR Hit Hpi Hq Hpv Hhas Hmax Ho Hsem.
  destruct (unannounced env s g ep e r x it i q w evs max num o Hi He Hr Hidle HR Hit Hpi Hq Hpv Hhas Hmax Ho) as (s' & r' & it' & Hrun & Hi' & Hr' & Hs' & Hit' & Hev & Hh).
  exists s', it'. split; [done|]. split; [done|]. split; [done|]. split; [by rewrite Hev|]. intros fuel tfuel out timeout Ht. rewrite (wait_loop_zero env now (λ w, (None, w)) _ _ _ _ r'); [by destruct s'|done|lia|done].
Qed.
End theorems.

(** ** Instances *)

Import Small.

Lemma epoll_init_establishes_witness : ∃ s1 s2, nsep_create_memory Small.env (λ _, true) start = Some (0, s1) ∧ nsep_init_infoSockMap Small.env s1 = Some (0, s2) ∧ einv Small.env s2 (mk_gh ∅ ∅).
Proof. destruct (epoll_init_establishes Small.env start start_blank env_zones eq_refl) as (s1 & s2 & H1 & H2 & H3 & _). exact (ex_intro _ s1 (ex_intro _ s2 (conj H1 (conj H2 H3)))). Defined.

Lemma epoll_ctl_refines_witness : ∃ s' g', nstack_epoll_ctl Small.env 3 EPOLL_CTL_DEL 5 None (state 1) = Some (0, s') ∧ einv Small.env s' g' ∧ watched s' g' = {[30 := ∅]}.
Proof.
  pose proof (epoll_ctl_refines Small.env (state 1) gh 3 EPOLL_CTL_DEL 5 None (state_inv 1) ltac:(intros ? ? [-> ->]%lookup1; done)) as Hc.
  replace (ctl_errno _ _ _ _ _ _) with (@None Z) in Hc by (by vm_compute). destruct Hc as (e & I & He & HI & s' & g' & H1 & H2 & _ & H3 & _). exists s', g'. split; [exact H1|]. split; [exact H2|].
  injection He as <-. rewrite H3. apply (inj Some) in HI as <-. by vm_compute.
Defined.

Lemma ep_poll_reports_witness : ∃ s' o', nsep_ep_poll Small.env 30 out1 1 0 (state 1) = Some ((o', 1), s') ∧ po_events o' = [mk_ev 1 5] ∧
  einv Small.env s' (gep_upd 30 (mk_gep [10] [10] Idle) gh).
Proof.
  destruct (ep_poll_reports Small.env (state 1) gh 30 gp Small.ep out1 1 0 (state_inv 1) eq_refl eq_refl eq_refl ltac:(cbn; lia) I) as (evs & R & P & D & w & s' & o' & H1 & H2 & H3 & H4 & H5 & H6 & _).
  vm_compute in H1. injection H1 as <- <- <- <-. exists s', o'. exact (conj H3 (conj H4 H6)).
Defined.

Lemma no_event_lost_witness : ∃ (s' : est nsfw_mem_ring unit) e', minv Small.env 30 1 0 [10] (s', Out) e' ∧ owes (s', Out) e' 10 0.
Proof.
  destruct (unannounced Small.env (state 0) gh 30 gp Small.ep 10 (item 0) 41 (info 5 None 41) tt 1 1 0 out1 (state_inv 0) eq_refl eq_refl eq_refl eq_refl eq_refl eq_refl eq_refl eq_refl eq_refl
    ltac:(lia) ltac:(by split)) as (s' & r' & it' & Hrun & _). exists s'.
  destruct (no_event_lost Small.env (state 0) gh 30 gp 1 0 _ s' Out ltac:(lia) (state_inv 0) eq_refl eq_refl Hrun) as (e' & Hm & Hl). exists e'. split; [exact Hm|].
  destruct (Hl [LTau; LReport 10 0] [LTau; LTau] 10 1 0) as [Ho|(v & Hv & _)]; [reflexivity|reflexivity|exact Ho|]. exfalso. set_solver.
Defined.

Lemma poll_completes_witness : ∃ (s' : est nsfw_mem_ring unit) p tr' s'', run Small.env 30 1 0 [10] (s', p) tr' (s'', Out) ∧ (length tr' <= 3)%nat.
Proof.
  destruct (begin_run Small.env 30 1 0 [10] (state 0) gp out1) as (nh & s1 & e1 & H1 & H2 & _); [exists gh; split; [exact (state_inv 0)|done]|by split|lia|].
  destruct (poll_completes Small.env (state 0) gh 30 gp 1 0 [LTau] s1 (Loop (nl_head nh) (nl_tail nh) out1 0) ltac:(lia) (state_inv 0) eq_refl eq_refl) as (tr' & s'' & H3 & H4 & _); [|discriminate|exists s1, (Loop (nl_head nh) (nl_tail nh) out1 0), tr', s''; exact (conj H3 H4)].
  econstructor; [apply (step_begin Small.env 30 1 0 [10] (state 0) s1 nh out1); [by split|exact H2|exact H1]|constructor].
Defined.

Lemma epoll_wait_blocks_idle_witness : ∃ s', nstack_epoll_wait Small.env (λ _, None) (λ w, ((0, 0), w)) (λ w, (Some 4, w)) 1 0 3 (Some [mk_ev 0 0]) 1 (-1) (state 0) = Some ((Done (-1), [mk_ev 0 0]), s') ∧ es_errno s' = 4.
Proof.
  destruct (epoll_wait_blocks_idle Small.env (λ _, None) (λ w, ((0, 0), w)) (λ w, (Some 4, w)) 1 0 (state 0) gh 3 30 gp Small.ep [mk_ev 0 0] 1 (-1)) as (out & R & D & w & ret & s' & H1 & H2 & H3 & _);
    [split; [exact (state_inv 0)|done..]|cbn; lia|lia|cbn; lia|]. vm_compute in H1. injection H1 as <- <- <- <-. exists s'.
  destruct H3 as [[[? _]|[[? _]|(_ & _ & -> & He)]] _]; [discriminate|discriminate|]. exact (conj H2 He).
Defined.

Lemma wakeup_lost_witness : ∃ s', einv Small.env s' (gep_upd 30 (mk_gep [10] [10] Idle) gh) ∧ wait_loop Small.env (λ w, ((0, 0), w)) (λ w, (None, w)) 1 0 30 [mk_ev 0 0] 1 (-1) s' = Some ((Blocked, [mk_ev 0 0]), s').
Proof.
  destruct (wakeup_lost Small.env (λ w, ((0, 0), w)) (state 0) gh 30 gp Small.ep 10 (item 0) 41 (info 5 None 41) tt 1 1 0 out1 (state_inv 0) eq_refl eq_refl eq_refl eq_refl eq_refl eq_refl eq_refl eq_refl
    eq_refl ltac:(lia) ltac:(by split) eq_refl) as (s' & it' & _ & H1 & _ & _ & H2). exists s'. split; [exact H1|]. apply (H2 0%nat 0%nat). lia.
Defined.
