(* ===== verification/EpollService.v ===== *)
(** * Epoll: the service

    Sequences of calls on the epoll component, from its creation on, against the table of descriptors of [EpollTable], and the informations that closing loses. *)
From S2P Require Import Prelude.
From S2P Require Import Queue.
From S2P Require Import Ring.
From S2P Require Import RbTree.
From S2P Require Import EpList.
From S2P Require Import EpollData.
From S2P Require Import Epoll.
From S2P Require Import EpollPoll.
From S2P Require Import EpollInv.
From S2P Require Import EpollInfo.
From S2P Require Import EpollFrame.
From S2P Require Import EpollProps.
From S2P Require Import EpollFree.
From S2P Require Import EpollTable.
From S2P Require Import EpollTableOps.
From S2P Require Import EpollInit.
From S2P Require Import EpollTheorems.

(** The calls the socket layer makes. *)
Inductive ecall :=
  | CAlloc (fd : Z)
  | CFree (fd : Z)
  | CAttach (fd : Z)
  | CCtl (epfd : Z) (op : epoll_op) (fd : Z) (event : option epoll_event)
  | CClose (fd : Z).

Inductive client := Done | Call (c : ecall) (k : Z → client).

(** A descriptor is entered and closed again, [n] times. *)
Fixpoint open_close (n : nat) (fd : Z) : client :=
  match n with O => Done | S n => Call (CAlloc fd) (λ _, Call (CClose fd) (λ _, open_close n fd)) end.

(** No epoll descriptor is watched by another. *)
Definition flat (D : table) : Prop := ∀ fd, is_Some (watches D fd) → unwatched fd D.

Section service.
Context {Q W : Type} `{BoundedQueue Q} (env : stack_env W).
Abbreviation st := (est Q W).
Implicit Types (s : st) (D : table).

Definition ecall_run (c : ecall) : stM st Z :=
  match c with
  | CAlloc fd => nsep_alloc_infoWithSock env fd
  | CFree fd => nsep_free_infoWithSock env fd
  | CAttach fd => epoll_attach env fd
  | CCtl epfd op fd event => nstack_epoll_ctl env epfd op fd event
  | CClose fd => nsep_epoll_close env fd
  end.

(** A client makes a call, looks at the answer and goes on. *)
Fixpoint client_run (p : client) : stM st (list Z) :=
  match p with Done => mret [] | Call c k => r ← ecall_run c; rs ← client_run (k r); mret (r :: rs) end.

(** What a caller must see to: a descriptor is entered once and with a number the table has room for; only a descriptor that nobody watches is forgotten or made an epoll descriptor;
    an epoll descriptor is not registered in another. *)
Definition ecall_pre D (c : ecall) : Prop :=
  match c with
  | CAlloc fd => 0 <= fd < se_kernel_fd_max env ∧ D !! fd = None
  | CFree fd | CAttach fd => D !! fd = Some None ∧ unwatched fd D
  | CCtl _ op fd _ => op = EPOLL_CTL_ADD → watches D fd = None
  | CClose _ => True
  end.

(** The effect of a call on the table. *)
Definition ecall_post D (c : ecall) (r : Z) D' : Prop :=
  match c with
  | CAlloc fd => (r = 0 ∧ D' = <[fd := None]> D) ∨ (r = -1 ∧ D' = D)
  | CFree fd => r = 0 ∧ D' = delete fd D
  | CAttach fd => (r = 0 ∧ D' = <[fd := Some ∅]> D) ∨ (r = -1 ∧ D' = D)
  | CCtl epfd op fd event => ctl_result env D epfd op fd event r D'
  | CClose fd => r = 0 ∧ D' = close_desc fd D
  end.

(** The client keeps its part, whatever the calls answer. *)
Fixpoint obeys (p : client) D : Prop :=
  match p with Done => True | Call c k => ecall_pre D c ∧ ∀ r D', ecall_post D c r D' → obeys (k r) D' end.

(** The client run on the table, with the answers [rs]. *)
Fixpoint client_table (p : client) D (rs : list Z) D' : Prop :=
  match p, rs with
  | Done, [] => D' = D
  | Call c k, r :: rs => ∃ D1, ecall_post D c r D1 ∧ client_table (k r) D1 rs D'
  | _, _ => False
  end.

(** ** Flat tables *)

Lemma watches_insert D fd o fd' : watches (<[fd := o]> D) fd' = if decide (fd' = fd) then o else watches D fd'.
Proof. unfold watches. destruct (decide (fd' = fd)) as [->|]; [by rewrite lookup_insert_eq|by rewrite lookup_insert_ne]. Qed.

Lemma flat_insert_plain D fd : flat D → D !! fd = None → flat (<[fd := None]> D).
Proof.
  intros Hf Hn fd' Hw epfd m Hm. rewrite watches_insert in Hw, Hm. destruct (decide (fd' = fd)); [by destruct Hw|]. destruct (decide (epfd = fd)); [done|]. by eapply Hf.
Qed.

Lemma flat_update D fd m' : flat D → (unwatched fd D) → (∀ fd', is_Some (m' !! fd') → fd' ≠ fd ∧ watches D fd' = None) → flat (<[fd := Some m']> D).
Proof.
  intros Hf Hu Hm' fd' Hw epfd m Hm. rewrite watches_insert in Hw, Hm. destruct (m !! fd') as [ev|] eqn:Hev; [|done]. exfalso. destruct (decide (epfd = fd)) as [->|He].
  - injection Hm as <-. destruct (Hm' fd') as [Hne Hn]; [eauto|]. rewrite decide_False in Hw by done. rewrite Hn in Hw. by destruct Hw.
  - destruct (decide (fd' = fd)) as [->|Hne]; [by rewrite (Hu epfd m Hm) in Hev|]. by rewrite (Hf fd' Hw epfd m Hm) in Hev.
Qed.

Lemma flat_learn D fd : flat D → flat (learn fd D).
Proof. intros Hf. unfold learn. destruct (D !! fd) eqn:Hn; [done|]. by apply flat_insert_plain. Qed.

Lemma watches_learn D fd fd' : watches (learn fd D) fd' = watches D fd'.
Proof.
  unfold learn. destruct (D !! fd) as [o|] eqn:Hn; [done|]. rewrite watches_insert. destruct (decide (fd' = fd)) as [->|]; [unfold watches; by rewrite Hn|done].
Qed.

Lemma watches_close D fd epfd m : watches (close_desc fd D) epfd = Some m → epfd ≠ fd ∧ ∃ m0, watches D epfd = Some m0 ∧ m = delete fd m0.
Proof.
  unfold watches, close_desc. rewrite lookup_fmap. destruct (decide (epfd = fd)) as [->|]; [by rewrite lookup_delete_eq|]. rewrite lookup_delete_ne by done. destruct (D !! epfd) as [[m0|]|]; cbn; [|done..]. intros [= <-]. eauto.
Qed.

Lemma flat_close D fd : flat D → flat (close_desc fd D).
Proof.
  intros Hf fd' [m1 Hw] epfd m Hm. destruct (watches_close D fd _ _ Hw) as (Hne & m0 & Hw0 & _), (watches_close D fd _ _ Hm) as (_ & m2 & Hm2 & ->). rewrite lookup_delete_ne by done. eapply Hf; [|exact Hm2]. eauto.
Qed.

Lemma ctl_errno_self (M : option (gmap Z epoll_event)) epfd op fd event : ctl_errno env M epfd op fd event = None → fd ≠ epfd.
Proof. unfold ctl_errno. intros Hc ->. rewrite Z.eqb_refl, orb_true_r in Hc. done. Qed.

Lemma ctl_keys m epfd op fd event ev fd' : ctl_errno env (Some m) epfd op fd event = None → is_Some (apply_ctl op fd ev m !! fd') → (fd' = fd ∧ op = EPOLL_CTL_ADD) ∨ is_Some (m !! fd').
Proof.
  unfold ctl_errno. destruct (_ || _); [done|]. destruct (negb _); [done|]. destruct (bool_decide _); [done|]. destruct op; cbn [apply_ctl]; [|intros _ [_ Hs]%lookup_delete_is_Some; by right|..|by right].
  all: destruct (m !! fd) eqn:Hm; try done; intros _; destruct (decide (fd' = fd)) as [->|]; [|rewrite lookup_insert_ne by done; by right]; eauto.
Qed.

Lemma flat_post D c r D' : flat D → ecall_pre D c → ecall_post D c r D' → flat D'.
Proof.
  destruct c as [fd|fd|fd|epfd op fd event|fd]; cbn; intros Hf Hp Hq.
  - destruct Hq as [[_ ->]|[_ ->]]; [|done]. apply flat_insert_plain; naive_solver.
  - destruct Hq as [_ ->]. rewrite <- close_unwatched by tauto. by apply flat_close.
  - destruct Hq as [[_ ->]|[_ ->]]; [|done]. apply flat_update; [done|tauto|]. intros fd'. rewrite lookup_empty. by intros [].
  - unfold ctl_result in Hq. destruct (ctl_errno _ _ _ _ _ _) eqn:Herr; [by destruct Hq as [_ ->]|]. destruct Hq as (m & Hm & [[_ ->]|(_ & _ & [->| ->])]); [|done|by apply flat_learn].
    apply flat_update; [by apply flat_learn|intros e m'; rewrite watches_learn; apply (Hf epfd); eauto|]. intros fd' Hs. rewrite watches_learn.
    rewrite Hm in Herr. destruct (ctl_keys m epfd op fd event _ fd' Herr Hs) as [[-> ->]|[ev Hev]].
    + split; [by eapply ctl_errno_self|auto].
    + split; [intros ->; by rewrite (Hf epfd ltac:(eauto) epfd m Hm) in Hev|]. destruct (watches D fd') eqn:Hw; [|done]. by rewrite (Hf fd' ltac:(eauto) epfd m Hm) in Hev.
  - destruct Hq as [_ ->]. by apply flat_close.
Qed.

(** ** Every call implements its effect on the table *)

Context (Hmal : ∀ w, (se_malloc env w).1 = true).

Lemma ecall_table {L} (led : W → L) (Hek : env_keeps env led) D s c : table_inv env D s → flat D → ecall_pre D c →
  ∃ r s' D', ecall_run c s = Some (r, s') ∧ led (es_world s') = led (es_world s) ∧ ecall_post D c r D' ∧ table_inv env D' s' ∧ flat D'.
Proof.
  intros Ht Hf Hp. assert (∃ r s' D', ecall_run c s = Some (r, s') ∧ led (es_world s') = led (es_world s) ∧ ecall_post D c r D' ∧ table_inv env D' s') as (r & s' & D' & ? & ? & Hq & ?);
    [|exists r, s', D'; repeat (split; [done|]); by eapply flat_post].
  destruct c as [fd|fd|fd|epfd op fd event|fd]; cbn in *.
  - destruct (alloc_table env led D s fd Ht) as (r & s' & ? & ? & [[-> ?]|[-> ?]]); [tauto..| |]; eexists _, s', _; eauto 10.
  - destruct Hp as [Hn Hu]. destruct (free_table env led D s fd Ht Hn Hu) as (s' & ? & Hw & ? & _). eexists 0, s', _. rewrite Hw. eauto 10.
  - destruct Hp as [Hn Hu]. destruct (attach_table env led Hek D s fd Ht Hn) as (r & s' & ? & ? & [[-> ?]|[-> ?]]); eexists _, s', _; eauto 10.
  - destruct (ctl_table env led Hek D s epfd op fd event Ht) as (r & s' & D' & ? & ? & ? & ?). exists r, s', D'. eauto.
  - destruct (close_table env led Hek Hmal D s fd Ht (Hf fd)) as (s' & ? & ? & ?). exists 0, s', (close_desc fd D). eauto.
Qed.

Lemma client_table_run p D s : table_inv env D s → flat D → obeys p D → ∃ rs s' D', client_run p s = Some (rs, s') ∧ client_table p D rs D' ∧ table_inv env D' s'.
Proof.
  revert D s. induction p as [|c k IH]; intros D s Ht Hf Hp; cbn in *; [by exists [], s, D|]. destruct Hp as [Hpre Hk].
  destruct (ecall_table _ (env_keeps_unit env) D s c Ht Hf Hpre) as (r & s1 & D1 & Hr & _ & Hq & Ht1 & Hf1). destruct (IH r D1 s1 Ht1 Hf1 (Hk r D1 Hq)) as (rs & s' & D' & Hrs & Hct & Ht').
  exists (r :: rs), s', D'. erewrite bind_run by exact Hr. erewrite bind_run by exact Hrs. eauto.
Qed.

Lemma table_empty s : einv env s (mk_gh ∅ ∅) → table_inv env ∅ s.
Proof.
  intros Hi. assert (Hn : ∀ fd, info_of s fd = None) by (intros fd; destruct (info_of s fd) as [i|] eqn:Hf; [|done]; by destruct (info_of_ok env _ _ _ _ _ Hi Hf) as (? & ? & _ & ? & _)).
  exists (mk_gh ∅ ∅). split; [done|]. split; [by intros ep e|]. split.
  - intros fd. unfold desc, desc_in. by rewrite Hn.
  - done.
  - intros fd i r. by rewrite Hn.
  - intros fd i r. by rewrite Hn.
  - by intros x it (ep & e & ? & _).
Qed.

(** ** Lost informations *)

Context (Hmod : 0 < se_modNum env).

Lemma open_close_one D s fd i l : table_inv env D s → D !! fd = None → 0 <= fd < se_kernel_fd_max env → q_contents (es_infoPool s) = i :: l →
  ∃ s1 s2, nsep_alloc_infoWithSock env fd s = Some (0, s1) ∧ nsep_epoll_close env fd s1 = Some (0, s2) ∧ table_inv env D s2 ∧ q_contents (es_infoPool s2) = l.
Proof.
  intros Ht Hn Hfd Hc. pose proof Ht as (g & Hi & _ & HD). pose proof (proj1 (known_iff env s g D fd Hi HD) Hn) as Hio.
  destruct (alloc_grown env (λ _ : W, tt) s g fd Hi Hfd Hio) as [[Hc' _]|(j & s1 & Hr & _ & _ & _ & Hio1 & Hfl & Hp)]; [congruence|]. rewrite Hc in Hp. injection Hp as <- Hp.
  destruct (alloc_table env (λ _ : W, tt) D s fd Ht Hfd Hn) as (r & s1' & Hr' & _ & Hcase). rewrite Hr in Hr'. injection Hr' as <- <-. destruct Hcase as [[? _]|[_ Ht1]]; [done|].
  destruct (close_plain env _ (env_keeps_unit env) Hmal _ s1 fd Ht1 (lookup_insert_eq _ _ _)) as (s2 & Hr2 & _ & Ht2 & Hkeep). exists s1, s2. split; [done|]. split; [done|]. split.
  - rewrite close_unwatched, delete_insert_id in Ht2; [done|done|]. intros epfd m. rewrite watches_insert. destruct (decide (epfd = fd)); [done|]. intros Hm. destruct (m !! fd) eqn:Hf; [|done].
    destruct (watched_known env s g D epfd m fd Hi HD Hm); [eauto|congruence].
  - rewrite (Hkeep i Hio1); [done|]. apply fmap_Some in Hfl as (r & Hr1 & Hz). exists r. split; [done|]. rewrite <- Hz. destruct (Z.to_nat (se_modNum env)) eqn:Hm; [lia|done].
Qed.

Lemma open_close_all n D s fd : table_inv env D s → D !! fd = None → 0 <= fd < se_kernel_fd_max env → length (q_contents (es_infoPool s)) = n →
  ∃ s', client_run (open_close n fd) s = Some (replicate (n + n) 0, s') ∧ table_inv env D s' ∧ q_contents (es_infoPool s') = [].
Proof.
  revert s. induction n as [|n IH]; intros s Ht Hn Hfd Hl; [exists s; split; [done|]; split; [done|]; by apply length_zero_iff_nil|]. destruct (q_contents (es_infoPool s)) as [|i l] eqn:Hc; [done|].
  destruct (open_close_one D s fd i l Ht Hn Hfd Hc) as (s1 & s2 & H1 & H2 & Ht2 & Hp2). destruct (IH s2 Ht2 Hn Hfd) as (s' & Hr & Ht' & Hp'); [rewrite Hp2; by injection Hl|]. exists s'. split; [|done]. cbn [open_close client_run ecall_run].
  erewrite bind_run by exact H1. rewrite (bind_run _ _ s1 (0 :: replicate (n + n) 0) s'); [by replace (S n + S n)%nat with (S (S (n + n))) by lia|]. erewrite bind_run by exact H2. by erewrite bind_run by exact Hr.
Qed.

Lemma alloc_exhausted D s fd : table_inv env D s → D !! fd = None → 0 <= fd < se_kernel_fd_max env → q_contents (es_infoPool s) = [] → ∃ s', nsep_alloc_infoWithSock env fd s = Some (-1, s').
Proof.
  intros (g & Hi & _ & HD) Hn Hfd Hc. pose proof (proj1 (known_iff env s g D fd Hi HD) Hn) as Hio. destruct (alloc_grown env (λ _ : W, tt) s g fd Hi Hfd Hio) as [(_ & s' & Hr & _)|(i & ? & _ & _ & _ & _ & _ & _ & Hp)]; [eauto|congruence].
Qed.
End service.

(** ** Theorems *)

Section theorems.
Context {Q W : Type} `{BoundedQueue Q} (env : stack_env W).
Implicit Types s : est Q W.

(** C5: The epoll component as a service, from its creation on, when [malloc] never fails (a failure during a close loses items): whatever calls a client makes that keeps to the rules [ecall_pre]
    (a descriptor is entered once, with a number below the limit; only a descriptor that nobody watches is forgotten or made an epoll descriptor; an epoll descriptor is not registered in another;
    it may choose each call by the answers to the ones before), no call has
    undefined behaviour or runs on, and the answers are those of the table of descriptors: a descriptor that is entered is known until it is closed or forgotten, an epoll descriptor watches what
    was registered with it and not removed since, closing a descriptor of either kind removes it from all of these, and a call that is refused changes nothing.  The state in the end implements
    the table in the end. *)
Theorem epoll_service_refines s p : blank s → zones env → (∀ w, (se_malloc env w).1 = true) → obeys env p ∅ →
  ∃ s1 s2 rs s3 D, nsep_create_memory env (λ _, true) s = Some (0, s1) ∧ nsep_init_infoSockMap env s1 = Some (0, s2) ∧
    client_run env p s2 = Some (rs, s3) ∧ client_table env p ∅ rs D ∧ table_inv env D s3.
Proof.
  intros Hb Hz Hm Hp. destruct (init_einv env s Hb Hz (Hm _)) as (s1 & s2 & H1 & H2 & Hi & _). exists s1, s2.
  destruct (client_table_run env Hm p ∅ s2 (table_empty env s2 Hi)) as (rs & s3 & D & ? & ? & ?); [|done|by exists rs, s3, D]. intros fd. unfold watches. rewrite lookup_empty. by intros [].
Qed.

(** C35: Closing a socket that was never registered does not return its information to the pool: after as many sockets have been opened and closed, one after the other, as there are informations,
    every call has succeeded and no descriptor is known, but no information is left and no further descriptor can be entered. *)
Theorem closed_sockets_exhaust_infos s fd : blank s → zones env → (∀ w, (se_malloc env w).1 = true) → 0 < se_modNum env → 0 <= fd < se_kernel_fd_max env →
  ∃ s1 s2 s3, nsep_create_memory env (λ _, true) s = Some (0, s1) ∧ nsep_init_infoSockMap env s1 = Some (0, s2) ∧
    client_run env (open_close (Z.to_nat NSTACK_MAX_EPOLL_INFO_NUM) fd) s2 = Some (replicate (Z.to_nat NSTACK_MAX_EPOLL_INFO_NUM + Z.to_nat NSTACK_MAX_EPOLL_INFO_NUM) 0, s3) ∧
    table_inv env ∅ s3 ∧ ∀ fd', 0 <= fd' < se_kernel_fd_max env → ∃ s4, nsep_alloc_infoWithSock env fd' s3 = Some (-1, s4).
Proof.
  intros Hb Hz Hm Hmod Hfd. destruct (init_einv env s Hb Hz (Hm _)) as (s1 & s2 & H1 & H2 & Hi & _ & _ & Hp). exists s1, s2.
  destruct (open_close_all env Hm Hmod (Z.to_nat NSTACK_MAX_EPOLL_INFO_NUM) ∅ s2 fd (table_empty env s2 Hi)) as (s3 & Hr & Ht & Hc); [done|done|by rewrite Hp, length_seqZ|]. exists s3. do 4 (split; [done|]).
  intros fd' Hfd'. by apply (alloc_exhausted env ∅).
Qed.
End theorems.

Import Small.

(** A client that makes an epoll descriptor, registers a socket with it and closes both. *)
Definition client1 : client :=
  Call (CAlloc 3) (λ r, if negb (r =? 0) then Done else
  Call (CAttach 3) (λ r, if negb (r =? 0) then Done else
  Call (CCtl 3 EPOLL_CTL_ADD 5 (Some (mk_ev 1 5))) (λ _,
  Call (CClose 5) (λ _, Call (CClose 3) (λ _, Done))))).

Lemma epoll_service_refines_witness : ∃ s1 s2 rs s3 D, nsep_create_memory Small.env (λ _, true) Small.start = Some (0, s1) ∧ nsep_init_infoSockMap Small.env s1 = Some (0, s2) ∧
  client_run Small.env client1 s2 = Some (rs, s3) ∧ client_table Small.env client1 ∅ rs D ∧ table_inv Small.env D s3.
Proof.
  apply (epoll_service_refines Small.env Small.start client1 Small.start_blank Small.env_zones ltac:(done)). cbn [obeys client1 ecall_pre ecall_post]. split; [done|].
  intros r D [[-> ->]|[-> ->]]; cbn [Z.eqb negb obeys]; [|done]. split; [split; [by rewrite lookup_insert_eq|]|].
  - intros epfd m. rewrite watches_insert. by destruct (decide _).
  - intros r D [[-> ->]|[-> ->]]; cbn [Z.eqb negb obeys]; [|done]. split; [intros _; rewrite !watches_insert; done|]. intros; repeat (split; [done|]; intros). done.
Defined.

Lemma closed_sockets_exhaust_infos_witness : ∃ s1 s2 s3, nsep_create_memory Small.env (λ _, true) Small.start = Some (0, s1) ∧ nsep_init_infoSockMap Small.env s1 = Some (0, s2) ∧
  client_run Small.env (open_close (Z.to_nat NSTACK_MAX_EPOLL_INFO_NUM) 5) s2 = Some (replicate (Z.to_nat NSTACK_MAX_EPOLL_INFO_NUM + Z.to_nat NSTACK_MAX_EPOLL_INFO_NUM) 0, s3) ∧
  table_inv Small.env ∅ s3 ∧ ∀ fd', 0 <= fd' < 16 → ∃ s4, nsep_alloc_infoWithSock Small.env fd' s3 = Some (-1, s4).
Proof. exact (closed_sockets_exhaust_infos Small.env Small.start 5 Small.start_blank Small.env_zones ltac:(done) ltac:(done) ltac:(done)). Defined.
