(* ===== verification/Sha256.v ===== *)
(** * SHA-256 (src/src/framework/common/data_struct/sha256.c)

    Words are numbers below [2 ^ 32], arrays are lists.  Every index of the source is masked to the size of its array, so that reading is total here.
    The machine is little endian ([SWAP_THE_BYTES] is defined), and the secure copies cannot fail on the lengths they get.
    The second part is the standard (FIPS 180-4) as the specification. *)
From S2P Require Import Prelude.

Definition ld (v : list Z) (i : Z) : Z := nth (Z.to_nat i) v 0.
Definition sto (v : list Z) (i x : Z) : list Z := <[Z.to_nat i := x]> v.

(** ** The code *)

Definition rotright32 (x n : Z) : Z := Z.lor (Z.shiftr x n) (wrap32 (Z.shiftl x (32 - n))).
Definition bswap_32 (x : Z) : Z := Z.lor (Z.land (rotright32 x 24) 0x00ff00ff) (Z.land (rotright32 x 8) 0xff00ff00).
Definition ch (a b c : Z) : Z := Z.lxor c (Z.land a (Z.lxor b c)).
Definition maj (a b c : Z) : Z := Z.lor (Z.land a b) (Z.land c (Z.lxor a b)).
Definition s_0 (x : Z) : Z := Z.lxor (Z.lxor (rotright32 x 2) (rotright32 x 13)) (rotright32 x 22).
Definition s_1 (x : Z) : Z := Z.lxor (Z.lxor (rotright32 x 6) (rotright32 x 11)) (rotright32 x 25).
Definition g_0 (x : Z) : Z := Z.lxor (Z.lxor (rotright32 x 7) (rotright32 x 18)) (Z.shiftr x 3).
Definition g_1 (x : Z) : Z := Z.lxor (Z.lxor (rotright32 x 17) (rotright32 x 19)) (Z.shiftr x 10).

(** A constant written in octal, as the table of the source has them. *)
Fixpoint oct (digits : nat) (n : Z) : Z := match digits with O => 0 | S d => n mod 10 + 8 * oct d (n / 10) end.

Definition k256 : list Z := oct 11 <$>
  [10242427630; 16115642221; 26560175717; 35155355645; 7125541133; 13174210761; 22217701244; 25307057325;
   33001725230; 2240655401; 4414302676; 12503076703; 16257456564; 20067530776; 23367003247; 30146770564;
   34446664701; 35757443606; 1760316706; 4403120714; 5572226157; 11235102252; 13454124734; 16676304332;
   23017450522; 25014343155; 26000623710; 27726277707; 30670005763; 32551710507; 662461521; 2412224547;
   4755605205; 5606620470; 11513066774; 12316006423; 14502471524; 16632405273; 20160544456; 22234426205;
   24257764241; 25006463113; 30222705560; 30733050643; 32144564031; 32646203044; 36403432605; 2032520160;
   3151140426; 3615666010; 4722073514; 6454136265; 7107006263; 11666125112; 13347145117; 15013467763;
   16443701356; 17051261557; 20462074024; 21461601010; 22057577772; 24424066353; 27676321767; 30634274362].

Definition SHA256_DIGEST_SIZE : Z := 32.
Definition SHA256_BLOCK_SIZE : Z := 64.
Definition SHA256_MASK : Z := SHA256_BLOCK_SIZE - 1.

Record SHA256_CTX := mk_ctx { count0 : Z; count1 : Z; hash : list Z; wbuf : list Z }.

(** [vf(m, n)]: the index of a working variable in a round. *)
Definition vf (m n : Z) : Z := Z.land (m - n) 7.

(** [hf(n)]: the cell that is updated with the next word of the schedule. *)
Definition hf (p : list Z) (n : Z) : list Z :=
  sto p (Z.land n 15) (wrap32 (ld p (Z.land n 15) + (g_1 (ld p (Z.land (n + 14) 15)) + ld p (Z.land (n + 9) 15) + g_0 (ld p (Z.land (n + 1) 15))))).

Definition v_cycle (m n : Z) (s : list Z * list Z) : list Z * list Z :=
  let '(v, p) := s in
  let p := if n =? 0 then p else hf p m in
  let w := ld p m in
  let v := sto v (vf 7 m) (wrap32 (ld v (vf 7 m) + (w + ld k256 (m + n) + s_1 (ld v (vf 4 m)) + ch (ld v (vf 4 m)) (ld v (vf 5 m)) (ld v (vf 6 m))))) in
  let v := sto v (vf 3 m) (wrap32 (ld v (vf 3 m) + ld v (vf 7 m))) in
  let v := sto v (vf 7 m) (wrap32 (ld v (vf 7 m) + (s_0 (ld v (vf 0 m)) + maj (ld v (vf 0 m)) (ld v (vf 1 m)) (ld v (vf 2 m))))) in
  (v, p).

(** The sixteen cycles of one round of the loop. *)
Definition sixteen_cycles (n : Z) (s : list Z * list Z) : list Z * list Z := foldl (λ s m, v_cycle m n s) s (seqZ 0 16).

Definition Sha256_compile__ (c : SHA256_CTX) : SHA256_CTX :=
  let '(v, p) := foldl (λ s i, sixteen_cycles i s) (hash c, wbuf c) [0; 16; 32; 48] in
  mk_ctx (count0 c) (count1 c) (zip_with (λ h x, wrap32 (h + x)) (hash c) v) p.

(** The bytes of the words in memory. *)
Definition le_bytes (w : Z) : list Z := [Z.land w 255; Z.land (Z.shiftr w 8) 255; Z.land (Z.shiftr w 16) 255; Z.land (Z.shiftr w 24) 255].
Definition le_word (a b c d : Z) : Z := Z.lor a (Z.lor (Z.shiftl b 8) (Z.lor (Z.shiftl c 16) (Z.shiftl d 24))).
Fixpoint le_words (l : list Z) : list Z :=
  match l with a :: b :: c :: d :: l => le_word a b c d :: le_words l | _ => [] end.

(** [MEMCPY_S (((u8 * ) wbuf) + pos, ...)]. *)
Definition copy_in (w : list Z) (pos : nat) (bs : list Z) : list Z :=
  let m := w ≫= le_bytes in le_words (take pos m ++ bs ++ drop (pos + length bs) m).

(** [bsw_32]: the words from [n - 1] down to 0. *)
Fixpoint bsw_32 (p : list Z) (n : nat) : list Z :=
  match n with O => p | S n => bsw_32 (<[n := bswap_32 (nth n p 0)]> p) n end.

Definition set_wbuf (w : list Z) (c : SHA256_CTX) : SHA256_CTX := mk_ctx (count0 c) (count1 c) (hash c) w.

(** The transfer of blocks and of the rest; [sp]: the bytes left. *)
Fixpoint upd_loop (fuel : nat) (c : SHA256_CTX) (pos capacity : nat) (sp : list Z) : option SHA256_CTX :=
  if bool_decide (capacity <= length sp)%nat then
    match fuel with
    | O => None
    | S fuel =>
        let c := set_wbuf (copy_in (wbuf c) pos (take capacity sp)) c in
        let c := set_wbuf (bsw_32 (wbuf c) (Z.to_nat (Z.shiftr SHA256_BLOCK_SIZE 2))) c in
        upd_loop fuel (Sha256_compile__ c) 0 (Z.to_nat SHA256_BLOCK_SIZE) (drop capacity sp)
    end
  else Some (if bool_decide (sp = []) then c else set_wbuf (copy_in (wbuf c) pos sp) c).

Definition Sha256_upd (c : SHA256_CTX) (data : list Z) : option SHA256_CTX :=
  let len := Z.of_nat (length data) in
  let pos := Z.to_nat (Z.land (count0 c) SHA256_MASK) in
  let capacity := (Z.to_nat SHA256_BLOCK_SIZE - pos)%nat in
  let n := wrap32 (count0 c + wrap32 len) in
  let c := mk_ctx n (if n <? len then wrap32 (count1 c + 1) else count1 c) (hash c) (wbuf c) in
  upd_loop (S (length data)) c pos capacity data.

(** [while (i < 14) wbuf[i++] = 0]. *)
Fixpoint zero_from (n : nat) (i : Z) (w : list Z) : list Z :=
  match n with O => w | S n => if i <? 14 then zero_from n (i + 1) (sto w i 0) else w end.

(** The first padding byte: [i] bytes of the buffer belong to the message. *)
Definition mark_end (w : list Z) (i : Z) : list Z :=
  let w := bsw_32 w (Z.to_nat (Z.shiftr (i + 3) 2)) in
  let k := Z.shiftr i 2 in
  let sh := 8 * Z.land (Z.lnot i) 3 in
  let w := sto w k (Z.land (ld w k) (wrap32 (Z.shiftl 0xffffff80 sh))) in
  sto w k (Z.lor (ld w k) (wrap32 (Z.shiftl 0x00000080 sh))).

(** [hval[i]]. *)
Definition digest_byte (h : list Z) (i : Z) : Z := Z.land (Z.shiftr (ld h (Z.shiftr i 2)) (8 * Z.land (Z.lnot i) 3)) 255.

Definition SHA_fin1 (c : SHA256_CTX) (hlen : Z) : SHA256_CTX * list Z :=
  let i := Z.land (count0 c) SHA256_MASK in
  let w := mark_end (wbuf c) i in
  let '(c, i) := (if SHA256_BLOCK_SIZE - 9 <? i then
                    let w := if i <? 60 then sto w 15 0 else w in
                    (Sha256_compile__ (set_wbuf w c), 0)
                  else (set_wbuf w c, Z.shiftr i 2 + 1)) in
  let w := zero_from 14 i (wbuf c) in
  let w := sto w 14 (Z.lor (wrap32 (Z.shiftl (count1 c) 3)) (Z.shiftr (count0 c) 29)) in
  let w := sto w 15 (wrap32 (Z.shiftl (count0 c) 3)) in
  let c := Sha256_compile__ (set_wbuf w c) in
  (c, digest_byte (hash c) <$> seqZ 0 hlen).

Definition g_i256 : list Z := [0x6A09E667; 0xBB67AE85; 0x3C6EF372; 0xA54FF53A; 0x510E527F; 0x9B05688C; 0x1F83D9AB; 0x5BE0CD19].

Definition Sha256_set (c : SHA256_CTX) : SHA256_CTX := mk_ctx 0 0 g_i256 (wbuf c).

Definition Sha256_fin (c : SHA256_CTX) : SHA256_CTX * list Z := SHA_fin1 c SHA256_DIGEST_SIZE.

(** ** The standard *)

Module Fips.
Definition primes64 : list Z :=
  [2; 3; 5; 7; 11; 13; 17; 19; 23; 29; 31; 37; 41; 43; 47; 53; 59; 61; 67; 71; 73; 79; 83; 89; 97; 101; 103; 107; 109; 113; 127; 131;
   137; 139; 149; 151; 157; 163; 167; 173; 179; 181; 191; 193; 197; 199; 211; 223; 227; 229; 233; 239; 241; 251; 257; 263; 269; 271; 277; 281; 283; 293; 307; 311].

(** The largest number below [2 ^ n] whose [e]-th power is at most [x], bit by bit. *)
Fixpoint root (n : nat) (e x r : Z) : Z :=
  match n with O => r | S n => let r' := r + 2 ^ Z.of_nat n in root n e x (if r' ^ e <=? x then r' else r) end.

(** The first 32 bits of the fractional part of the [e]-th root of [p]. *)
Definition root_bits (e p : Z) : Z := root 40 e (p * 2 ^ (32 * e)) 0 mod 2 ^ 32.
Definition K : list Z := root_bits 3 <$> primes64.
Definition H0 : list Z := root_bits 2 <$> take 8 primes64.

Definition ROTR (n x : Z) : Z := Z.lor (Z.shiftr x n) (Z.shiftl x (32 - n) mod 2 ^ 32).
Definition SHR (n x : Z) : Z := Z.shiftr x n.
Definition Ch (x y z : Z) : Z := Z.lxor (Z.land x y) (Z.land (Z.lnot x) z).
Definition Maj (x y z : Z) : Z := Z.lxor (Z.lxor (Z.land x y) (Z.land x z)) (Z.land y z).
Definition Sigma0 (x : Z) : Z := Z.lxor (Z.lxor (ROTR 2 x) (ROTR 13 x)) (ROTR 22 x).
Definition Sigma1 (x : Z) : Z := Z.lxor (Z.lxor (ROTR 6 x) (ROTR 11 x)) (ROTR 25 x).
Definition sigma0 (x : Z) : Z := Z.lxor (Z.lxor (ROTR 7 x) (ROTR 18 x)) (SHR 3 x).
Definition sigma1 (x : Z) : Z := Z.lxor (Z.lxor (ROTR 17 x) (ROTR 19 x)) (SHR 10 x).

(** The message schedule, one word more. *)
Definition next_word (W : list Z) : Z :=
  let t := length W in
  (sigma1 (nth (t - 2) W 0) + nth (t - 7) W 0 + sigma0 (nth (t - 15) W 0) + nth (t - 16) W 0) mod 2 ^ 32.
Definition schedule (n : nat) (M : list Z) : list Z := Nat.iter n (λ W, W ++ [next_word W]) M.

Record vars := mk_vars { va : Z; vb : Z; vc : Z; vd : Z; ve : Z; vff : Z; vg : Z; vh : Z }.
Definition vars_list (s : vars) : list Z := [va s; vb s; vc s; vd s; ve s; vff s; vg s; vh s].
Definition load (H : list Z) : vars := mk_vars (nth 0 H 0) (nth 1 H 0) (nth 2 H 0) (nth 3 H 0) (nth 4 H 0) (nth 5 H 0) (nth 6 H 0) (nth 7 H 0).
Definition round (k w : Z) (s : vars) : vars :=
  let T1 := (vh s + Sigma1 (ve s) + Ch (ve s) (vff s) (vg s) + k + w) mod 2 ^ 32 in
  let T2 := (Sigma0 (va s) + Maj (va s) (vb s) (vc s)) mod 2 ^ 32 in
  mk_vars ((T1 + T2) mod 2 ^ 32) (va s) (vb s) (vc s) ((vd s + T1) mod 2 ^ 32) (ve s) (vff s) (vg s).

(** The state after the first [t] rounds on a block. *)
Fixpoint rounds (t : nat) (W : list Z) (s : vars) : vars :=
  match t with O => s | S t => round (nth t K 0) (nth t W 0) (rounds t W s) end.
Definition compress (H M : list Z) : list Z :=
  zip_with (λ h x, (h + x) mod 2 ^ 32) H (vars_list (rounds 64 (schedule 48 M) (load H))).

Definition be_word (a b c d : Z) : Z := Z.lor (Z.shiftl a 24) (Z.lor (Z.shiftl b 16) (Z.lor (Z.shiftl c 8) d)).
Fixpoint be_words (l : list Z) : list Z :=
  match l with a :: b :: c :: d :: l => be_word a b c d :: be_words l | _ => [] end.
Definition be_bytes (n : nat) (x : Z) : list Z := (λ i : nat, Z.land (Z.shiftr x (8 * Z.of_nat (n - 1 - i))) 255) <$> seq 0 n.

(** A one bit, the zero bits, and the length in bits in 64 bits. *)
Definition zero_pad (len : nat) : nat := Z.to_nat ((55 - Z.of_nat len) mod 64).
Definition pad (msg : list Z) : list Z := msg ++ [128] ++ replicate (zero_pad (length msg)) 0 ++ be_bytes 8 (8 * Z.of_nat (length msg)).

Fixpoint blocks (n : nat) (H l : list Z) : list Z :=
  match n with O => H | S n => blocks n (compress H (be_words (take 64 l))) (drop 64 l) end.

Definition sha256 (msg : list Z) : list Z :=
  let m := pad msg in blocks (length m / 64) H0 m ≫= be_bytes 4.
End Fips.

(** The whole computation on a message given in pieces. *)
Definition digest (c : SHA256_CTX) (chunks : list (list Z)) : option (list Z) :=
  c ← foldl (λ c d, c ← c; Sha256_upd c d) (Some (Sha256_set c)) chunks;
  Some (Sha256_fin c).2.
