(* ===== verification/Sha256Proofs.v ===== *)
(** * SHA-256: the compression function of the code is the one of the standard *)
From S2P Require Import Prelude.
From S2P Require Import Bits.
From S2P Require Import Sha256.
Import Fips.

(** ** Bits *)

Lemma ch_Ch a b c : ch a b c = Ch a b c.
Proof.
  unfold ch, Ch. apply Z.bits_inj'. intros i Hi. bits_norm.
  destruct (Z.testbit a i), (Z.testbit b i), (Z.testbit c i); done.
Qed.

Lemma maj_Maj a b c : maj a b c = Maj a b c.
Proof.
  unfold maj, Maj. apply Z.bits_inj'. intros i Hi. bits_norm.
  destruct (Z.testbit a i), (Z.testbit b i), (Z.testbit c i); done.
Qed.

Lemma k256_K : k256 = K.
Proof. by vm_compute. Qed.
Lemma g_i256_H0 : g_i256 = H0.
Proof. by vm_compute. Qed.

(** ** Arrays *)

Lemma length_sto v i x : length (sto v i x) = length v.
Proof. apply length_insert. Qed.

Lemma ld_sto v i x : 0 <= i < Z.of_nat (length v) → ld (sto v i x) i = x.
Proof. intros Hi. unfold ld, sto. rewrite (nth_lookup_Some _ _ _ x); [done|]. apply list_lookup_insert_eq. lia. Qed.

Lemma ld_sto_ne v i j x : 0 <= i → 0 <= j → i ≠ j → ld (sto v i x) j = ld v j.
Proof. intros Hi Hj Hne. unfold ld, sto. rewrite !nth_lookup. rewrite list_lookup_insert_ne by lia. done. Qed.

Lemma foldl_seqZ_ind {A} (P : Z → A → Prop) (f : A → Z → A) a n s : 0 <= n → P a s →
  (∀ k s, a <= k < a + n → P k s → P (k + 1) (f s k)) → P (a + n) (foldl f s (seqZ a n)).
Proof.
  intros Hn. revert a s. pattern n. apply natlike_ind; [| |done].
  - intros a s Hs _. by rewrite Z.add_0_r.
  - clear n Hn. intros n Hn IH a s Hs Hf. rewrite seqZ_cons by lia. cbn [foldl]. replace (a + Z.succ n) with (Z.succ a + n) by lia.
    replace (Z.pred (Z.succ n)) with n by lia. apply IH.
    + replace (Z.succ a) with (a + 1) by lia. apply Hf; [lia|done].
    + intros k s' Hk. apply Hf. lia.
Qed.

(** ** A round *)

Lemma vf_mod a m : vf a m = (a - m) mod 8.
Proof. unfold vf. change 7 with (Z.ones 3). by rewrite Z.land_ones by lia. Qed.

Lemma vf_range a m : 0 <= vf a m < 8.
Proof. rewrite vf_mod. apply Z.mod_pos_bound. lia. Qed.

Lemma vf_ne a b m : 0 <= a < 8 → 0 <= b < 8 → a ≠ b → vf a m ≠ vf b m.
Proof. intros Ha Hb Hne. rewrite !vf_mod. Z.div_mod_to_equations. lia. Qed.

Lemma vf_next a m : vf a (m + 1) = vf (if a =? 0 then 7 else a - 1) m.
Proof. rewrite !vf_mod. destruct (Z.eqb_spec a 0) as [->|]; [|f_equal; lia]. Z.div_mod_to_equations. lia. Qed.

Lemma vf_turn a m n : n mod 8 = 0 → vf a (m + n) = vf a m.
Proof. intros Hn. rewrite !vf_mod. Z.div_mod_to_equations. lia. Qed.

(** The working variables of the standard before round [t]. *)
Definition vrot (t : Z) (v : list Z) : vars :=
  mk_vars (ld v (vf 0 t)) (ld v (vf 1 t)) (ld v (vf 2 t)) (ld v (vf 3 t)) (ld v (vf 4 t)) (ld v (vf 5 t)) (ld v (vf 6 t)) (ld v (vf 7 t)).

Ltac vf_solve := match goal with
  | |- 0 <= vf _ _ => apply vf_range
  | |- vf _ _ ≠ vf _ _ => apply vf_ne; lia
  | |- 0 <= vf ?a ?m < _ => rewrite ?length_sto; pose proof (vf_range a m); lia end.

Lemma cycle_round m n v p v' p' : length v = 8%nat → v_cycle m n (v, p) = (v', p') →
  p' = (if n =? 0 then p else hf p m) ∧ length v' = 8%nat ∧ vrot (m + 1) v' = round (ld k256 (m + n)) (ld p' m) (vrot m v).
Proof.
  intros Hv [= <- <-]. split; [done|]. split; [by rewrite !length_sto|]. set (p' := if n =? 0 then p else hf p m). clearbody p'.
  unfold vrot, round. cbn [va vb vc vd ve vff vg vh]. rewrite !vf_next. cbn [Z.eqb Z.sub Z.add Z.opp Z.pos_sub Pos.pred_double].
  repeat first [rewrite ld_sto by vf_solve | rewrite ld_sto_ne by vf_solve].
  rewrite ch_Ch, maj_Maj. change (s_1 ?x) with (Sigma1 x). change (s_0 ?x) with (Sigma0 x). repeat change (?x mod 2 ^ 32) with (wrap32 x).
  assert (∀ a b c d e : Z, wrap32 (a + (b + c + d + e)) = wrap32 (a + d + e + c + b)) as Hsum by (intros; f_equal; lia).
  rewrite !Hsum. f_equal. by rewrite wrap32_add_r.
Qed.

(** ** The schedule *)

Lemma schedule_app a b M : ∃ l, schedule (b + a) M = schedule a M ++ l ∧ length l = b.
Proof.
  induction b as [|b (l & Hl & Hlen)]; [exists []; by rewrite app_nil_r|].
  change (schedule (S b + a) M) with (schedule (b + a) M ++ [next_word (schedule (b + a) M)]). rewrite Hl.
  eexists (l ++ [_]). rewrite length_app. split; [by rewrite <- app_assoc|cbn; lia].
Qed.

Lemma length_schedule n M : length (schedule n M) = (n + length M)%nat.
Proof. destruct (schedule_app 0 n M) as (l & Hl & Hlen). rewrite Nat.add_0_r in Hl. rewrite Hl, length_app. cbn. lia. Qed.

Lemma schedule_nth n a M k : (a <= n)%nat → (k < a + length M)%nat → nth k (schedule n M) 0 = nth k (schedule a M) 0.
Proof.
  intros Ha Hk. replace n with ((n - a) + a)%nat by lia. destruct (schedule_app a (n - a) M) as (l & -> & _).
  apply app_nth1. by rewrite length_schedule.
Qed.

(** The recurrence of the standard, for the whole schedule. *)
Lemma schedule_rec n M t : length M = 16%nat → 16 <= t < Z.of_nat n + 16 → let W := schedule n M in
  ld W t = wrap32 (ld W (t - 16) + (g_1 (ld W (t - 2)) + ld W (t - 7) + g_0 (ld W (t - 15)))).
Proof.
  intros HM Ht W. unfold W, ld. set (k := (Z.to_nat t - 16)%nat).
  rewrite (schedule_nth n (S k) M (Z.to_nat t)) by lia. change (schedule (S k) M) with (schedule k M ++ [next_word (schedule k M)]).
  rewrite app_nth2; rewrite length_schedule, HM; [|lia]. replace (Z.to_nat t - (k + 16))%nat with O by lia. cbn [nth]. unfold next_word.
  rewrite length_schedule, HM, <- !(schedule_nth n k) by lia. unfold wrap32. f_equal. unfold g_1, g_0, sigma0, sigma1, SHR.
  replace (k + 16 - 2)%nat with (Z.to_nat (t - 2)) by lia. replace (k + 16 - 7)%nat with (Z.to_nat (t - 7)) by lia.
  replace (k + 16 - 15)%nat with (Z.to_nat (t - 15)) by lia. replace (k + 16 - 16)%nat with (Z.to_nat (t - 16)) by lia.
  change rotright32 with (λ x n, ROTR n x). cbv beta. lia.
Qed.

(** The buffer holds the last sixteen words of the schedule before word [t]. *)
Record window (t : Z) (W p : list Z) : Prop := {
  wi_length : length p = 16%nat;
  wi_u32 : Forall is_u32 p;
  wi_word j : Z.max t 16 - 16 <= j < Z.max t 16 → ld p (j mod 16) = ld W j
}.

Lemma land15 n : Z.land n 15 = n mod 16.
Proof. change 15 with (Z.ones 4). by rewrite Z.land_ones by lia. Qed.

Lemma window_next M t m p W : length M = 16%nat → W = schedule 48 M →
  0 <= m < 16 → t mod 16 = m → 0 <= t < 64 → window t W p → let p' := if t - m =? 0 then p else hf p m in
  window (t + 1) W p' ∧ ld p' m = ld W t.
Proof.
  intros HM HW Hm Htm Ht [Hl Hu Hw] p'. unfold p'. clear p'. destruct (Z.eqb_spec (t - m) 0) as [E|E].
  - split; [split; [done..|intros j Hj; apply Hw; Z.div_mod_to_equations; lia]|]. rewrite <- (Hw t) by (Z.div_mod_to_equations; lia). by rewrite Htm.
  - assert (16 <= t) by (Z.div_mod_to_equations; lia).
    assert (Hrec : wrap32 (ld p m + (g_1 (ld p (Z.land (m + 14) 15)) + ld p (Z.land (m + 9) 15) + g_0 (ld p (Z.land (m + 1) 15)))) = ld W t).
    { rewrite HW, (schedule_rec 48 M t HM), <- HW by lia. rewrite !land15, <- !Hw by (Z.div_mod_to_equations; lia). 
      replace ((t - 16) mod 16) with m by (Z.div_mod_to_equations; lia). replace ((t - 2) mod 16) with ((m + 14) mod 16) by (Z.div_mod_to_equations; lia).
      replace ((t - 7) mod 16) with ((m + 9) mod 16) by (Z.div_mod_to_equations; lia). by replace ((t - 15) mod 16) with ((m + 1) mod 16) by (Z.div_mod_to_equations; lia). }
    unfold hf. rewrite (land15 m), Z.mod_small, Hrec by lia. split; [|apply ld_sto; lia]. split.
    + by rewrite length_sto.
    + apply Forall_insert; [done|]. rewrite <- Hrec. apply wrap32_range.
    + intros j Hj. destruct (decide (j = t)) as [->|]; [rewrite Htm; apply ld_sto; lia|]. rewrite ld_sto_ne by (Z.div_mod_to_equations; lia). apply Hw. lia.
Qed.

(** ** Sixty-four rounds *)

Record compiled (H M : list Z) (t : Z) (s : list Z * list Z) : Prop := {
  co_length : length s.1 = 8%nat;
  co_window : window t (schedule 48 M) s.2;
  co_vars : vrot t s.1 = rounds (Z.to_nat t) (schedule 48 M) (load H)
}.

Lemma cycle_compiled H M n m s : length M = 16%nat → 0 <= m < 16 → 0 <= n <= 48 → n mod 16 = 0 → compiled H M (m + n) s → compiled H M (m + n + 1) (v_cycle m n s).
Proof.
  intros HM Hm Hn1 Hn2 [Hl Hw Hv]. destruct s as [v p]. cbn [fst snd] in *. destruct (v_cycle m n (v, p)) as [v' p'] eqn:Ec.
  destruct (cycle_round m n v p v' p' Hl Ec) as (Hp & Hl' & Hr).
  destruct (window_next M (m + n) m p _ HM eq_refl) as [Hw' Hld]; [done|Z.div_mod_to_equations; lia|lia|done|].
  replace (m + n - m) with n in Hw', Hld by lia. rewrite <- Hp in Hw', Hld. split; cbn [fst snd]; [done..|].
  assert (∀ v, vrot (m + n + 1) v = vrot (m + 1) v) as E1 by (intros x; unfold vrot; replace (m + n + 1) with (m + 1 + n) by lia; rewrite !(vf_turn _ (m + 1) n) by (Z.div_mod_to_equations; lia); done).
  assert (∀ v, vrot (m + n) v = vrot m v) as E2 by (intros x; unfold vrot; rewrite !(vf_turn _ m n) by (Z.div_mod_to_equations; lia); done).
  rewrite E1, Hr, <- E2, Hv, Hld, k256_K. replace (Z.to_nat (m + n + 1)) with (S (Z.to_nat (m + n))) by lia. cbn [rounds]. unfold ld. done.
Qed.

Lemma sixteen_compiled H M n s : length M = 16%nat → 0 <= n <= 48 → n mod 16 = 0 → compiled H M n s → compiled H M (n + 16) (sixteen_cycles n s).
Proof.
  intros HM Hn Hn2 Hs. unfold sixteen_cycles. replace (n + 16) with (0 + 16 + n) by lia.
  apply (foldl_seqZ_ind (λ k s, compiled H M (k + n) s)); [lia|done|]. intros k s' Hk Hs'. replace (k + 1 + n) with (k + n + 1) by lia. by apply cycle_compiled.
Qed.

Lemma vars_of_array v : length v = 8%nat → vars_list (vrot 64 v) = v.
Proof. intros Hv. do 9 (destruct v; try discriminate). done. Qed.

Lemma vars_of_load H : vrot 0 H = load H.
Proof. done. Qed.

(** The compression function of the code is the one of the standard. *)
Lemma compile_compress c : length (hash c) = 8%nat → length (wbuf c) = 16%nat → Forall is_u32 (wbuf c) →
  let c' := Sha256_compile__ c in
  hash c' = compress (hash c) (wbuf c) ∧ length (wbuf c') = 16%nat ∧ Forall is_u32 (wbuf c') ∧ count0 c' = count0 c ∧ count1 c' = count1 c.
Proof.
  intros Hh Hw Hu. unfold Sha256_compile__. set (s := foldl _ _ _). assert (Hs : compiled (hash c) (wbuf c) 64 s).
  { unfold s. cbn [foldl]. apply (sixteen_compiled _ _ 48), (sixteen_compiled _ _ 32), (sixteen_compiled _ _ 16), (sixteen_compiled _ _ 0); try done; try lia. split; cbn [fst snd].
    - done.
    - split; [done..|]. intros j Hj. rewrite Z.mod_small by lia. unfold ld. symmetry. apply (schedule_nth 48 0); lia.
    - apply vars_of_load. }
  clearbody s. destruct s as [v p], Hs as [Hl [Hwl Hwu _] Hv]. cbn [fst snd count0 count1 hash wbuf] in *. split; [|done].
  unfold compress. replace (rounds 64 (schedule 48 (wbuf c)) (load (hash c))) with (vrot 64 v) by exact Hv. by rewrite vars_of_array.
Qed.
