(* ===== verification/Sha256Props.v ===== *)
(** * SHA-256: a message given in pieces has the digest of the standard *)
From S2P Require Import Prelude.
From S2P Require Import Bits.
From S2P Require Import Sha256.
From S2P Require Import Sha256Proofs.
Import Fips.

(** ** Bytes of words *)

Lemma le_bytes_bytes w : Forall is_byte (le_bytes w).
Proof. repeat constructor; apply is_byte_land. Qed.

Lemma le_bytes_word a b c d : is_byte a → is_byte b → is_byte c → is_byte d → le_bytes (le_word a b c d) = [a; b; c; d].
Proof.
  intros Ha Hb Hc Hd. unfold le_bytes, le_word. change 255 with (Z.ones 8).
  repeat (apply (f_equal2 (@cons Z)); [apply Z.bits_inj'; intros i Hi; bits_norm; destruct (Z.ltb_spec i 8); word_bit|]).
  done.
Qed.

Lemma le_word_u32 a b c d : is_byte a → is_byte b → is_byte c → is_byte d → is_u32 (le_word a b c d).
Proof.
  intros Ha Hb Hc Hd. unfold le_word. apply u32_of_bits.
  - unfold is_byte in *. rewrite !Z.lor_nonneg, !Z.shiftl_nonneg. lia.
  - intros i Hi. bits_norm. word_bit.
Qed.

Lemma be_word_u32 a b c d : is_byte a → is_byte b → is_byte c → is_byte d → is_u32 (be_word a b c d).
Proof.
  intros Ha Hb Hc Hd. unfold be_word. apply u32_of_bits; [unfold is_byte in *; rewrite !Z.lor_nonneg, !Z.shiftl_nonneg; lia|]. intros i Hi. bits_norm. word_bit.
Qed.

Lemma bswap_be x : is_u32 x → bswap_32 x = be_word (Z.land x 255) (Z.land (Z.shiftr x 8) 255) (Z.land (Z.shiftr x 16) 255) (Z.land (Z.shiftr x 24) 255).
Proof.
  intros Hx. unfold bswap_32, rotright32, be_word. change 255 with (Z.ones 8).
  change 0x00ff00ff with (Z.lor (Z.ones 8) (Z.shiftl (Z.ones 8) 16)). change 0xff00ff00 with (Z.lor (Z.shiftl (Z.ones 8) 8) (Z.shiftl (Z.ones 8) 24)).
  apply Z.bits_inj'. intros i Hi. bits_norm.
  byte_cases i; word_bit.
Qed.

(** ** The buffer as bytes *)

Definition bytes_of (w : list Z) : list Z := w ≫= le_bytes.

Lemma bytes_of_app w1 w2 : bytes_of (w1 ++ w2) = bytes_of w1 ++ bytes_of w2.
Proof. unfold bytes_of. apply bind_app. Qed.

Lemma length_bytes_of w : length (bytes_of w) = (4 * length w)%nat.
Proof. induction w as [|x w IH]; [done|]. change (bytes_of (x :: w)) with (le_bytes x ++ bytes_of w). rewrite length_app, IH. cbn. lia. Qed.

Lemma bytes_of_bytes w : Forall is_byte (bytes_of w).
Proof. induction w as [|x w IH]; [constructor|]. apply Forall_app. split; [apply le_bytes_bytes|exact IH]. Qed.

(** Splits a list whose length is a multiple of four. *)
Lemma quad_ind (P : list Z → Prop) : P [] → (∀ a b c d l, P l → P (a :: b :: c :: d :: l)) → ∀ n l, length l = (4 * n)%nat → P l.
Proof.
  intros H0 HS n. induction n as [|n IH]; intros l Hl; [by destruct l|]. do 4 (destruct l as [|? l]; [cbn in Hl; lia|]). apply HS, IH. cbn in Hl. lia.
Qed.

Lemma bytes_of_words n l : length l = (4 * n)%nat → Forall is_byte l → bytes_of (le_words l) = l.
Proof.
  revert l. refine (quad_ind (λ l, Forall is_byte l → bytes_of (le_words l) = l) _ _ n); [done|]. intros a b c d l IH Hl.
  do 4 (apply Forall_cons_1 in Hl as [? Hl]). change (bytes_of (le_words (a :: b :: c :: d :: l))) with (le_bytes (le_word a b c d) ++ bytes_of (le_words l)).
  by rewrite le_bytes_word, IH.
Qed.

Lemma le_words_spec n l : length l = (4 * n)%nat → Forall is_byte l → length (le_words l) = n ∧ Forall is_u32 (le_words l).
Proof.
  intros Hl Hb. split.
  - pose proof (length_bytes_of (le_words l)) as H. rewrite (bytes_of_words n) in H by done. lia.
  - revert Hl Hb. revert l. refine (quad_ind (λ l, Forall is_byte l → Forall is_u32 (le_words l)) _ _ n); [constructor|]. intros a b c d l IH Hb.
    do 4 (apply Forall_cons_1 in Hb as [? Hb]). constructor; [by apply le_word_u32|by apply IH].
Qed.

Lemma bswap_words w : Forall is_u32 w → bswap_32 <$> w = be_words (bytes_of w).
Proof.
  induction 1 as [|x w Hx _ IH]; [done|]. rewrite fmap_cons, IH, bswap_be by done. done.
Qed.

Lemma be_words_app n l l' : length l = (4 * n)%nat → be_words (l ++ l') = be_words l ++ be_words l'.
Proof. revert l. refine (quad_ind (λ l, be_words (l ++ l') = be_words l ++ be_words l') _ _ n); [done|]. intros a b c d l IH. cbn. by rewrite IH. Qed.

Lemma bsw_32_spec p n : (n <= length p)%nat → bsw_32 p n = (bswap_32 <$> take n p) ++ drop n p.
Proof.
  revert p. induction n as [|n IH]; intros p Hn; [done|]. cbn [bsw_32]. rewrite IH by (rewrite length_insert; lia).
  destruct (lookup_lt_is_Some_2 p n) as [x Hx]; [lia|]. rewrite (nth_lookup_Some _ _ _ _ Hx), take_insert_ge by lia.
  rewrite (take_S_r _ _ _ Hx), fmap_app, <- app_assoc. f_equal. rewrite (drop_S _ (bswap_32 x) n) by (apply list_lookup_insert_eq; lia).
  by rewrite drop_insert_lt by lia.
Qed.

Lemma copy_in_spec w pos bs : length w = 16%nat → Forall is_byte bs → (pos + length bs <= 64)%nat → let w' := copy_in w pos bs in
  bytes_of w' = take pos (bytes_of w) ++ bs ++ drop (pos + length bs) (bytes_of w) ∧ length w' = 16%nat ∧ Forall is_u32 w'.
Proof.
  intros Hw Hbs Hp. unfold copy_in. change (w ≫= le_bytes) with (bytes_of w). pose proof (length_bytes_of w) as Hl. rewrite Hw in Hl.
  set (l := take pos (bytes_of w) ++ bs ++ drop (pos + length bs) (bytes_of w)).
  assert (length l = (4 * 16)%nat) as Hll by (unfold l; rewrite !length_app, length_take, length_drop, Hl; lia).
  assert (Forall is_byte l) as Hb by (unfold l; rewrite !Forall_app; split; [apply Forall_take, bytes_of_bytes|split; [done|apply Forall_drop, bytes_of_bytes]]).
  split; [by apply (bytes_of_words 16)|by apply (le_words_spec 16)].
Qed.

(** ** Blocks *)

Lemma blocks_snoc n H l : blocks (S n) H l = compress (blocks n H l) (be_words (take 64 (drop (64 * n) l))).
Proof.
  revert H l. induction n as [|n IH]; intros H l; [done|]. change (blocks (S (S n)) H l) with (blocks (S n) (compress H (be_words (take 64 l))) (drop 64 l)).
  rewrite IH, drop_drop. by replace (64 + 64 * n)%nat with (64 * S n)%nat by lia.
Qed.

Lemma blocks_app n H l l' : (64 * n <= length l)%nat → blocks n H (l ++ l') = blocks n H l.
Proof.
  revert H l. induction n as [|n IH]; intros H l Hn; [done|]. cbn [blocks]. rewrite take_app_le, drop_app_le by lia. apply IH. rewrite length_drop. lia.
Qed.

Lemma length_compress H M : length H = 8%nat → length (compress H M) = 8%nat.
Proof. intros HH. unfold compress. rewrite length_zip_with, HH. done. Qed.

Lemma length_blocks n H l : length H = 8%nat → length (blocks n H l) = 8%nat.
Proof. revert H l. induction n as [|n IH]; intros H l HH; [done|]. by apply IH, length_compress. Qed.

(** ** A message is absorbed piece by piece *)

(** The context after the bytes [msg] (the counters apart): whole blocks are in the hash, the rest is at the start of the buffer. *)
Record absorbed (c : SHA256_CTX) (msg : list Z) : Prop := {
  ab_hash : hash c = blocks (length msg / 64) H0 msg;
  ab_length : length (wbuf c) = 16%nat;
  ab_u32 : Forall is_u32 (wbuf c);
  ab_rest : take (length msg mod 64) (bytes_of (wbuf c)) = drop (64 * (length msg / 64)) msg;
  ab_bytes : Forall is_byte msg
}.

(** A full buffer is compressed. *)
Lemma compile_block c q m blk : hash c = blocks q H0 m → wbuf c = be_words blk → length (wbuf c) = 16%nat → Forall is_u32 (wbuf c) → take 64 (drop (64 * q) m) = blk →
  let c' := Sha256_compile__ c in
  hash c' = blocks (S q) H0 m ∧ length (wbuf c') = 16%nat ∧ Forall is_u32 (wbuf c') ∧ count0 c' = count0 c ∧ count1 c' = count1 c.
Proof.
  intros Hh Hw Hl Hu Hblk c'. destruct (compile_compress c) as (H1 & H2); [by rewrite Hh; apply length_blocks|done..|]. split; [|done].
  unfold c'. rewrite H1, Hh, Hw, blocks_snoc. by rewrite Hblk.
Qed.

Lemma bswap_u32 w : Forall is_u32 w → Forall is_u32 (bswap_32 <$> w).
Proof.
  intros Hw. rewrite Forall_fmap. eapply Forall_impl; [exact Hw|]. intros x Hx. cbn. rewrite bswap_be by done.
  apply be_word_u32; apply is_byte_land.
Qed.

Lemma length_mod_div (l : list Z) : length l = (64 * (length l / 64) + length l mod 64)%nat.
Proof. apply Nat.div_mod_eq. Qed.

Lemma upd_block c msg bs : absorbed c msg → Forall is_byte bs → (length msg mod 64 + length bs = 64)%nat →
  let c1 := set_wbuf (copy_in (wbuf c) (length msg mod 64) bs) c in
  let c2 := Sha256_compile__ (set_wbuf (bsw_32 (wbuf c1) 16) c1) in
  absorbed c2 (msg ++ bs) ∧ count0 c2 = count0 c ∧ count1 c2 = count1 c.
Proof.
  intros [Hh Hl Hu Hr Hb] Hbs Hlen c1 c2. set (r := (length msg mod 64)%nat) in *. set (q := (length msg / 64)%nat) in *.
  assert (Hm : length msg = (64 * q + r)%nat) by apply length_mod_div.
  destruct (copy_in_spec (wbuf c) r bs Hl Hbs) as (H1 & H2 & H3); [lia|]. rewrite Hr, (drop_ge (bytes_of (wbuf c))), app_nil_r in H1 by (rewrite length_bytes_of; lia).
  assert (Hw : bsw_32 (wbuf c1) 16 = bswap_32 <$> wbuf c1) by (change (length (wbuf c1) = 16%nat) in H2; rewrite bsw_32_spec, take_ge, drop_ge, app_nil_r by lia; done).
  destruct (compile_block (set_wbuf (bsw_32 (wbuf c1) 16) c1) q (msg ++ bs) (drop (64 * q) msg ++ bs)) as (E1 & E2 & E3 & E4 & E5).
  - cbn. rewrite Hh. symmetry. apply blocks_app. lia.
  - cbn [wbuf set_wbuf]. rewrite Hw. cbn [c1 wbuf set_wbuf]. by rewrite bswap_words, H1.
  - cbn [wbuf set_wbuf]. rewrite Hw, length_fmap. done.
  - cbn [wbuf set_wbuf]. rewrite Hw. by apply bswap_u32.
  - rewrite drop_app_le by lia. apply take_ge. rewrite length_app, length_drop. lia.
  - fold c2 in E1, E2, E3, E4, E5. clearbody c2. split; [|split; [exact E4|exact E5]]. assert (length (msg ++ bs) = (S q * 64)%nat) as Hn by (rewrite length_app; lia).
    split; [| exact E2 | exact E3 | | by apply Forall_app].
    + rewrite Hn, Nat.div_mul by lia. exact E1.
    + rewrite Hn, Nat.Div0.mod_mul, Nat.div_mul by lia. rewrite drop_ge by lia. done.
Qed.

Lemma upd_rest c msg bs : absorbed c msg → Forall is_byte bs → (length msg mod 64 + length bs < 64)%nat →
  absorbed (if bool_decide (bs = []) then c else set_wbuf (copy_in (wbuf c) (length msg mod 64) bs) c) (msg ++ bs).
Proof.
  intros Hab Hbs Hlen. case_bool_decide as E; [subst; by rewrite app_nil_r|]. destruct Hab as [Hh Hl Hu Hr Hb].
  set (r := (length msg mod 64)%nat) in *. set (q := (length msg / 64)%nat) in *. assert (Hm : length msg = (64 * q + r)%nat) by apply length_mod_div.
  destruct (copy_in_spec (wbuf c) r bs Hl Hbs) as (H1 & H2 & H3); [lia|].
  assert (length (msg ++ bs) / 64 = q ∧ length (msg ++ bs) mod 64 = r + length bs)%nat as [Hq' Hr'].
  { rewrite length_app. replace (length msg + length bs)%nat with ((r + length bs) + q * 64)%nat by lia.
    rewrite Nat.div_add, Nat.Div0.mod_add, Nat.div_small, Nat.mod_small by lia. done. }
  split; [|exact H2|exact H3| |by apply Forall_app]; rewrite Hq'.
  - cbn. rewrite Hh. symmetry. apply blocks_app. lia.
  - rewrite Hr'. cbn [wbuf set_wbuf]. rewrite H1, Hr, drop_app_le, app_assoc by lia. rewrite take_app_length' by (rewrite length_app, length_drop; lia). done.
Qed.

Lemma upd_loop_spec fuel c msg sp : absorbed c msg → Forall is_byte sp → (length sp <= fuel)%nat →
  ∃ c', upd_loop fuel c (length msg mod 64) (64 - length msg mod 64) sp = Some c' ∧ absorbed c' (msg ++ sp) ∧ count0 c' = count0 c ∧ count1 c' = count1 c.
Proof.
  revert c msg sp. induction fuel as [|fuel IH]; intros c msg sp Hab Hsp Hf; pose proof (Nat.mod_upper_bound (length msg) 64) as Hr.
  - cbn [upd_loop]. rewrite bool_decide_eq_false_2 by lia. destruct sp; [|cbn in Hf; lia]. rewrite bool_decide_eq_true_2, app_nil_r by done. by exists c.
  - cbn [upd_loop]. case_bool_decide as Hc.
    + set (cap := (64 - length msg mod 64)%nat) in *. change (Z.to_nat (Z.shiftr SHA256_BLOCK_SIZE 2)) with 16%nat.
      destruct (upd_block c msg (take cap sp) Hab) as (Hab' & E1 & E2); [by apply Forall_take|rewrite length_take; lia|].
      set (c2 := Sha256_compile__ _) in *. clearbody c2. assert (Hm : (length (msg ++ take cap sp) mod 64 = 0)%nat).
      { rewrite length_app, length_take_le by lia. rewrite (length_mod_div msg). replace (_ + _ + _)%nat with ((length msg / 64 + 1) * 64)%nat by lia. apply Nat.Div0.mod_mul. }
      destruct (IH c2 (msg ++ take cap sp) (drop cap sp) Hab') as (c' & H1 & H2 & H3 & H4); [by apply Forall_drop|rewrite length_drop; lia|].
      rewrite Hm in H1. exists c'. split; [exact H1|]. rewrite <- app_assoc, take_drop in H2. cbn in E1, E2. split; [exact H2|]. split; congruence.
    + eexists. split; [done|]. split; [apply upd_rest; [done..|lia]|]. by case_bool_decide.
Qed.

Definition counted (c : SHA256_CTX) (n : Z) : Prop := count0 c = n mod 2 ^ 32 ∧ count1 c = n / 2 ^ 32.

Lemma land_mask6 n : Z.land n SHA256_MASK = n mod 64.
Proof. change SHA256_MASK with (Z.ones 6). by rewrite Z.land_ones by lia. Qed.

Lemma upd_position c n : counted c n → Z.land (count0 c) SHA256_MASK = n mod 64.
Proof. intros [-> _]. rewrite land_mask6. Z.div_mod_to_equations. lia. Qed.

Lemma Z_nat_mod64 n : Z.to_nat (Z.of_nat n mod 64) = (n mod 64)%nat.
Proof. change 64 with (Z.of_nat 64). by rewrite <- Nat2Z.inj_mod, Nat2Z.id. Qed.

Lemma upd_spec c msg data : absorbed c msg → counted c (Z.of_nat (length msg)) → Forall is_byte data →
  Z.of_nat (length data) < 2 ^ 32 → Z.of_nat (length msg) + Z.of_nat (length data) < 2 ^ 61 →
  ∃ c', Sha256_upd c data = Some c' ∧ absorbed c' (msg ++ data) ∧ counted c' (Z.of_nat (length (msg ++ data))).
Proof.
  intros Hab Hc Hd Hlen Htot. unfold Sha256_upd. rewrite (upd_position c _ Hc), Z_nat_mod64. change (Z.to_nat SHA256_BLOCK_SIZE) with 64%nat.
  set (n' := wrap32 (count0 c + wrap32 (Z.of_nat (length data)))). set (c1 := mk_ctx _ _ _ _).
  destruct (upd_loop_spec (S (length data)) c1 msg data) as (c' & H1 & H2 & H3 & H4); [by destruct Hab|done|lia|]. exists c'. split; [done|]. split; [done|].
  destruct Hc as [Hc0 Hc1]. unfold counted. rewrite H3, H4, length_app, Nat2Z.inj_add. cbn [count0 count1 c1]. unfold n'. rewrite Hc0, Hc1. clear -Hlen Htot.
  set (a := Z.of_nat (length msg)) in *. set (b := Z.of_nat (length data)) in *. assert (0 <= a ∧ 0 <= b) as [? ?] by lia. clearbody a b.
  destruct (Z.ltb_spec (wrap32 (a mod 2 ^ 32 + wrap32 b)) b); u32_lia.
Qed.

(** ** Padding *)

Lemma length_bits_hi n : 0 <= n → Z.lor (wrap32 (Z.shiftl (n / 2 ^ 32) 3)) (Z.shiftr (n mod 2 ^ 32) 29) = wrap32 (Z.shiftr (8 * n) 32).
Proof.
  intros Hn. rewrite <- Z.land_ones, <- Z.shiftr_div_pow2 by lia. change 8 with (2 ^ 3). rewrite Z.mul_comm, <- Z.shiftl_mul_pow2 by lia.
  apply Z.bits_inj'. intros i Hi. bits_norm. destruct (Z.lt_ge_cases i 3); [|destruct (Z.lt_ge_cases i 32)]; word_bit.
Qed.

Lemma length_bits_lo n : 0 <= n → wrap32 (Z.shiftl (n mod 2 ^ 32) 3) = wrap32 (8 * n).
Proof. intros Hn. rewrite Z.shiftl_mul_pow2 by lia. unfold wrap32. rewrite Zmult_mod_idemp_l. f_equal. lia. Qed.

Lemma be_word_bytes y : be_word (Z.land (Z.shiftr y 24) 255) (Z.land (Z.shiftr y 16) 255) (Z.land (Z.shiftr y 8) 255) (Z.land y 255) = wrap32 y.
Proof.
  unfold be_word. change 255 with (Z.ones 8). apply Z.bits_inj'. intros i Hi. bits_norm. byte_cases i; word_bit.
Qed.

Lemma be_words_length x : be_words (be_bytes 8 x) = [wrap32 (Z.shiftr x 32); wrap32 x].
Proof.
  cbn -[be_word Z.mul]. rewrite <- (be_word_bytes x), <- (be_word_bytes (Z.shiftr x 32)), !Z.shiftr_shiftr by lia. rewrite Z.shiftr_0_r. done.
Qed.

Lemma be_words_zeros n : be_words (replicate (4 * n) 0) = replicate n 0.
Proof. induction n as [|n IH]; [done|]. replace (4 * S n)%nat with (S (S (S (S (4 * n))))) by lia. cbn [replicate be_words]. by rewrite IH. Qed.

(** The word that takes the first padding byte, by the number of message bytes in it. *)
Lemma pad_word_0 x : Z.lor (Z.land x 0x80000000) 0x80000000 = be_word 128 0 0 0.
Proof.
  change (be_word 128 0 0 0) with 0x80000000. apply Z.bits_inj'. intros i Hi. rewrite Z.lor_spec, Z.land_spec.
  destruct (Z.testbit 0x80000000 i); [by rewrite orb_true_r|by rewrite andb_false_r].
Qed.

Ltac pad_bits s :=
  change 128 with (Z.shiftl (Z.ones 1) 7); apply Z.bits_inj'; intros i Hi; bits_norm;
  destruct (Z.lt_ge_cases i s); [|destruct (Z.lt_ge_cases i (s + 1))]; byte_cases i; try lia; word_bit; rewrite ?orb_true_r; try done.

Lemma pad_word_1 a b c d : is_byte a → is_byte b → is_byte c → is_byte d → Z.lor (Z.land (be_word a b c d) 0xff800000) 0x800000 = be_word a 128 0 0.
Proof.
  intros Ha Hb Hc Hd. unfold be_word. change 0xff800000 with (Z.shiftl (Z.ones 9) 23). change 0x800000 with (Z.shiftl (Z.ones 1) 23). rewrite !Z.shiftl_0_l, !Z.lor_0_r. pad_bits 23.
Qed.
Lemma pad_word_2 a b c d : is_byte a → is_byte b → is_byte c → is_byte d → Z.lor (Z.land (be_word a b c d) 0xffff8000) 0x8000 = be_word a b 128 0.
Proof.
  intros Ha Hb Hc Hd. unfold be_word. change 0xffff8000 with (Z.shiftl (Z.ones 17) 15). change 0x8000 with (Z.shiftl (Z.ones 1) 15). rewrite !Z.lor_0_r. pad_bits 15.
Qed.
Lemma pad_word_3 a b c d : is_byte a → is_byte b → is_byte c → is_byte d → Z.lor (Z.land (be_word a b c d) 0xffffff80) 0x80 = be_word a b c 128.
Proof.
  intros Ha Hb Hc Hd. unfold be_word. change 0xffffff80 with (Z.shiftl (Z.ones 25) 7). pad_bits 7.
Qed.

Lemma lnot_land3 i : Z.land (Z.lnot i) 3 = 3 - i mod 4.
Proof. change 3 with (Z.ones 2) at 1. rewrite Z.land_ones by lia. unfold Z.lnot. change (2 ^ 2) with 4. Z.div_mod_to_equations. lia. Qed.

Lemma sto_middle A x C y : sto (A ++ x :: C) (Z.of_nat (length A)) y = A ++ y :: C.
Proof. unfold sto. rewrite Nat2Z.id, insert_app_r_alt, Nat.sub_diag by lia. done. Qed.
Lemma ld_middle A x C : ld (A ++ x :: C) (Z.of_nat (length A)) = x.
Proof. unfold ld. rewrite Nat2Z.id. apply nth_middle. Qed.

(** The marked word is the one of the padded message. *)
Lemma pad_word x j y : is_u32 x → (j < 4)%nat → y = (if bool_decide (j = 0)%nat then x else bswap_32 x) →
  let sh := 8 * (3 - Z.of_nat j) in
  [Z.lor (Z.land y (wrap32 (Z.shiftl 0xffffff80 sh))) (wrap32 (Z.shiftl 0x80 sh))] = be_words (take j (le_bytes x) ++ 128 :: replicate (3 - j) 0).
Proof.
  intros Hx Hj ->. pose proof (le_bytes_bytes x) as Hb. do 4 (apply Forall_cons_1 in Hb as [? Hb]).
  assert (j = 0 ∨ j = 1 ∨ j = 2 ∨ j = 3)%nat as [-> | [-> | [-> | ->]]] by lia; cbn [bool_decide decide]; unfold le_bytes; cbn [take app replicate Nat.sub be_words]; f_equal;
    rewrite ?(bswap_be x Hx).
  - apply (pad_word_0 x).
  - by apply pad_word_1.
  - by apply pad_word_2.
  - by apply pad_word_3.
Qed.

Lemma be_words_u32 n l : length l = (4 * n)%nat → Forall is_byte l → Forall is_u32 (be_words l) ∧ length (be_words l) = n.
Proof.
  revert l. induction n as [|n IH]; intros l Hl Hb; [by destruct l|]. do 4 (destruct l as [|? l]; [cbn in Hl; lia|]). do 4 (apply Forall_cons_1 in Hb as [? Hb]).
  destruct (IH l) as [IH1 IH2]; [cbn in Hl; lia|done|]. cbn. split; [constructor; [by apply be_word_u32|done]|by rewrite IH2].
Qed.

Lemma mark_end_spec w r : length w = 16%nat → Forall is_u32 w → (r < 64)%nat →
  ∃ C, mark_end w (Z.of_nat r) = be_words (take r (bytes_of w) ++ 128 :: replicate (3 - r mod 4) 0) ++ C ∧ length C = (15 - r / 4)%nat ∧ Forall is_u32 C.
Proof.
  intros Hw Hu Hr. set (k := (r / 4)%nat). set (j := (r mod 4)%nat). assert (Hrk : r = (4 * k + j)%nat) by apply Nat.div_mod_eq.
  assert (j < 4)%nat as Hj by (apply Nat.mod_upper_bound; lia). destruct (lookup_lt_is_Some_2 w k) as [x Hx]; [lia|].
  pose proof (take_drop_middle w k x Hx) as Ew. set (A := take k w) in *. set (C := drop (S k) w) in *.
  assert (HA : length A = k) by (unfold A; rewrite length_take; lia). assert (HC : length C = (15 - k)%nat) by (unfold C; rewrite length_drop; lia).
  exists C. rewrite <- Ew in Hu. apply Forall_app in Hu as [HuA [HuX HuC]%Forall_cons_1]. split; [|done].
  assert (Hbs : bsw_32 w (Z.to_nat (Z.shiftr (Z.of_nat r + 3) 2)) = (bswap_32 <$> A) ++ (if bool_decide (j = 0)%nat then x else bswap_32 x) :: C).
  { rewrite Z.shiftr_div_pow2 by lia. change (2 ^ 2) with 4. case_bool_decide as E.
    - replace (Z.to_nat ((Z.of_nat r + 3) / 4)) with k by (Z.div_mod_to_equations; lia). rewrite bsw_32_spec by lia. f_equal. by apply drop_S.
    - replace (Z.to_nat ((Z.of_nat r + 3) / 4)) with (S k) by (Z.div_mod_to_equations; lia). rewrite bsw_32_spec by lia. rewrite (take_S_r _ _ _ Hx), fmap_app, <- app_assoc. done. }
  unfold mark_end. rewrite Hbs, lnot_land3. replace (Z.shiftr (Z.of_nat r) 2) with (Z.of_nat (length (bswap_32 <$> A))) by (rewrite length_fmap, Z.shiftr_div_pow2 by lia; change (2 ^ 2) with 4; Z.div_mod_to_equations; lia).
  replace (Z.of_nat r mod 4) with (Z.of_nat j) by (Z.div_mod_to_equations; lia). rewrite !sto_middle, !ld_middle.
  replace (take r (bytes_of w)) with (bytes_of A ++ take j (le_bytes x)).
  2: { rewrite <- Ew, bytes_of_app. change (bytes_of (x :: C)) with (le_bytes x ++ bytes_of C). rewrite take_app, length_bytes_of, HA, (take_ge (bytes_of A)) by (rewrite length_bytes_of; lia).
       f_equal. replace (r - 4 * k)%nat with j by lia. symmetry. apply take_app_le. cbn. lia. }
  rewrite <- app_assoc, (be_words_app k), <- bswap_words, <- app_assoc by (done || rewrite length_bytes_of; lia). f_equal.
  rewrite <- (pad_word x j _ HuX Hj eq_refl). done.
Qed.

Lemma zero_from_spec n i w : (i <= 14)%nat → (14 <= i + n)%nat → length w = 16%nat → zero_from n (Z.of_nat i) w = take i w ++ replicate (14 - i) 0 ++ drop 14 w.
Proof.
  revert i w. induction n as [|n IH]; intros i w Hi Hn Hw; cbn [zero_from].
  - assert (i = 14)%nat as -> by lia. cbn [Nat.sub replicate app]. by rewrite take_drop.
  - destruct (Z.ltb_spec (Z.of_nat i) 14); [|assert (i = 14)%nat as -> by lia; cbn [Nat.sub replicate app]; by rewrite take_drop].
    replace (Z.of_nat i + 1) with (Z.of_nat (S i)) by lia. unfold sto. rewrite Nat2Z.id, IH by (rewrite ?length_insert; lia).
    rewrite (take_S_r _ _ 0) by (apply list_lookup_insert_eq; lia). rewrite take_insert_ge, drop_insert_lt by lia. replace (14 - i)%nat with (S (14 - S i)) by lia. cbn [replicate]. by rewrite <- app_assoc.
Qed.

(** The words of the last block: padding up to word 14, then the length. *)
Lemma last_words w B a b : length w = 16%nat → length B = 14%nat → take 14 w = B → sto (sto w 14 a) 15 b = B ++ [a; b].
Proof.
  intros Hw HB <-. rewrite <- (take_drop 14 w) at 1. assert (length (drop 14 w) = 2%nat) as Hd by (rewrite length_drop; lia).
  destruct (drop 14 w) as [|x [|y [|]]]; try discriminate. change 15 with (Z.of_nat 15). change 14 with (Z.of_nat 14) at 1. unfold sto. rewrite !Nat2Z.id.
  rewrite insert_app_r_alt by lia. rewrite HB. cbn [Nat.sub insert list_insert]. rewrite insert_app_r_alt by lia. by rewrite HB.
Qed.

(** The number of zero bytes of the padding. *)
Lemma zero_pad_cases n : let r := (n mod 64)%nat in
  zero_pad n = (if bool_decide (r <= 55)%nat then 55 - r else 119 - r)%nat.
Proof.
  intros r. unfold zero_pad. assert (Z.of_nat r = Z.of_nat n mod 64) by (unfold r; by rewrite Nat2Z.inj_mod).
  case_bool_decide; Z.div_mod_to_equations; lia.
Qed.

Lemma digest_bytes h : length h = 8%nat → digest_byte h <$> seqZ 0 SHA256_DIGEST_SIZE = h ≫= be_bytes 4.
Proof. intros Hh. do 9 (destruct h; try discriminate). cbn. unfold digest_byte. cbn. rewrite !Z.shiftr_0_r. done. Qed.

(** The two counters give the last two words of the padded message. *)
Lemma count_words c n : counted c n → 0 <= n →
  [Z.lor (wrap32 (Z.shiftl (count1 c) 3)) (Z.shiftr (count0 c) 29); wrap32 (Z.shiftl (count0 c) 3)] = be_words (be_bytes 8 (8 * n)).
Proof. intros [-> ->] Hn. by rewrite length_bits_hi, length_bits_lo, be_words_length. Qed.

Lemma zeros_u32 n : Forall is_u32 (replicate n 0).
Proof. apply Forall_replicate. unfold is_u32. lia. Qed.

Lemma be_bytes_bytes n x : Forall is_byte (be_bytes n x).
Proof. unfold be_bytes. apply Forall_fmap, Forall_forall. intros i _. apply is_byte_land. Qed.

(** The end of the computation: [B] are the bytes of the last block before the length. *)
Lemma fin_last c q m B n i : hash c = blocks q H0 m → length (wbuf c) = 16%nat → counted c n → 0 <= n → (i <= 14)%nat →
  length B = 56%nat → Forall is_byte B → take i (wbuf c) ++ replicate (14 - i) 0 = be_words B → drop (64 * q) m = B ++ be_bytes 8 (8 * n) →
  let w := zero_from 14 (Z.of_nat i) (wbuf c) in
  let w := sto w 14 (Z.lor (wrap32 (Z.shiftl (count1 c) 3)) (Z.shiftr (count0 c) 29)) in
  let w := sto w 15 (wrap32 (Z.shiftl (count0 c) 3)) in
  hash (Sha256_compile__ (set_wbuf w c)) = blocks (S q) H0 m.
Proof.
  intros Hh Hl Hc Hn Hi HB HBb Hw Hm w0 w1 w2. destruct (be_words_u32 14 B HB HBb) as [HBu HBl].
  assert (Hw2 : w2 = be_words (B ++ be_bytes 8 (8 * n))).
  { unfold w2, w1, w0. rewrite zero_from_spec by lia. rewrite (be_words_app 14), <- (count_words c) by done. apply last_words; [|done|].
    - rewrite !length_app, length_take, length_replicate, length_drop. lia.
    - rewrite app_assoc, Hw. rewrite <- HBl at 1. apply take_app_length. }
  destruct (be_words_u32 16 (B ++ be_bytes 8 (8 * n))) as [Hu Hlen]; [by rewrite length_app, HB|apply Forall_app; split; [done|apply be_bytes_bytes]|].
  apply (compile_block (set_wbuf w2 c) q m (B ++ be_bytes 8 (8 * n))); cbn [set_wbuf hash wbuf]; rewrite ?Hw2; try done.
  rewrite Hm. apply take_ge. by rewrite length_app, HB.
Qed.

Lemma zero_words l j k n : length l = (4 * k + j)%nat → (j < 4)%nat →
  be_words (l ++ 128 :: replicate (3 - j) 0) ++ replicate n 0 = be_words (l ++ 128 :: replicate (3 - j + 4 * n) 0).
Proof.
  intros Hl Hj. rewrite replicate_add, app_comm_cons, app_assoc, (be_words_app (S k) (l ++ _)).
  { by rewrite be_words_zeros. }
  rewrite length_app. cbn. rewrite length_replicate. lia.
Qed.

Lemma pad_blocks msg : Forall is_byte msg → let q := (length msg / 64)%nat in let r := (length msg mod 64)%nat in
  blocks q H0 (pad msg) = blocks q H0 msg ∧
  drop (64 * q) (pad msg) = drop (64 * q) msg ++ 128 :: replicate (zero_pad (length msg)) 0 ++ be_bytes 8 (8 * Z.of_nat (length msg)) ∧
  (length (pad msg) / 64 = if bool_decide (r <= 55)%nat then S q else S (S q))%nat ∧ length (drop (64 * q) msg) = r ∧ Forall is_byte (drop (64 * q) msg).
Proof.
  intros Hb q r. pose proof (length_mod_div msg) as Hm. fold q r in Hm. unfold pad. split; [apply blocks_app; lia|]. split; [by rewrite drop_app_le by lia|].
  split; [|split; [rewrite length_drop; lia|by apply Forall_drop]]. assert (length (be_bytes 8 (8 * Z.of_nat (length msg))) = 8%nat) as H8 by done.
  rewrite !length_app, length_replicate, H8, zero_pad_cases. fold r. cbn [length]. assert (r < 64)%nat by (apply Nat.mod_upper_bound; lia). case_bool_decide.
  - replace (length msg + _)%nat with (S q * 64)%nat by lia. by apply Nat.div_mul.
  - replace (length msg + _)%nat with (S (S q) * 64)%nat by lia. by apply Nat.div_mul.
Qed.

Lemma padded_bytes l n : Forall is_byte l → Forall is_byte (l ++ 128 :: replicate n 0).
Proof. intros Hl. apply Forall_app. split; [done|]. constructor; [|apply Forall_replicate]; unfold is_byte; lia. Qed.

Lemma length_padded (l : list Z) n : length (l ++ 128 :: replicate n 0) = (length l + S n)%nat.
Proof. rewrite length_app. cbn. by rewrite length_replicate. Qed.

(** What is left of a message after [mark_end]. *)
Lemma fin_mark c msg : absorbed c msg → let r := (length msg mod 64)%nat in let w := mark_end (wbuf c) (Z.of_nat r) in
  let B := drop (64 * (length msg / 64)) msg ++ 128 :: replicate (3 - r mod 4) 0 in
  ∃ C, w = be_words B ++ C ∧ length (be_words B) = S (r / 4) ∧ length C = (15 - r / 4)%nat ∧ Forall is_u32 (be_words B) ∧ Forall is_u32 C.
Proof.
  intros [Hh Hl Hu Hr Hb] r w B. assert (r < 64)%nat by (apply Nat.mod_upper_bound; lia). destruct (mark_end_spec (wbuf c) r Hl Hu) as (C & HW & HC & HCu); [done|].
  fold r in Hr. rewrite Hr in HW. exists C. split; [done|]. destruct (pad_blocks msg Hb) as (_ & _ & _ & E4 & E5). fold r in E4.
  destruct (be_words_u32 (S (r / 4)) B) as [H1 H2]; [|by apply padded_bytes|done].
  unfold B. rewrite length_padded, E4. pose proof (Nat.div_mod_eq r 4). pose proof (Nat.mod_upper_bound r 4). lia.
Qed.

Lemma fin_digest c m q : hash c = blocks q H0 m → digest_byte (hash c) <$> seqZ 0 SHA256_DIGEST_SIZE = blocks q H0 m ≫= be_bytes 4.
Proof. intros ->. apply digest_bytes. by apply length_blocks. Qed.

(** Few bytes are left: marker and length go into one block. *)
Lemma fin_one_block c msg : let r := (length msg mod 64)%nat in let n := Z.of_nat (length msg) in absorbed c msg → counted c n → (r <= 55)%nat →
  (SHA_fin1 c SHA256_DIGEST_SIZE).2 = sha256 msg.
Proof.
  intros r n Hab Hc Hr55. destruct (fin_mark c msg Hab) as (C & HW & Hl1 & Hl2 & Hu1 & Hu2). destruct Hab as [Hh Hl Hu _ Hb].
  destruct (pad_blocks msg Hb) as (E1 & E2 & E3 & E4 & E5). fold r in E3, E4, HW, Hl1, Hl2. rewrite bool_decide_eq_true_2 in E3 by done.
  assert (Hi : Z.land (count0 c) SHA256_MASK = Z.of_nat r) by (rewrite (upd_position c n Hc); unfold n, r; by rewrite Nat2Z.inj_mod).
  unfold SHA_fin1. rewrite Hi, (proj2 (Z.ltb_ge _ _)) by (unfold SHA256_BLOCK_SIZE; lia).
  pose proof (Nat.div_mod_eq r 4) as Hrk. pose proof (Nat.mod_upper_bound r 4) as Hj.
  replace (Z.shiftr (Z.of_nat r) 2 + 1) with (Z.of_nat (S (r / 4))) by (rewrite Z.shiftr_div_pow2 by lia; change (2 ^ 2) with 4; Z.div_mod_to_equations; lia).
  unfold sha256. rewrite E3. apply fin_digest. set (rest := drop (64 * (length msg / 64)) msg) in *.
  apply (fin_last (set_wbuf _ c) (length msg / 64) (pad msg) (rest ++ 128 :: replicate (55 - r) 0) n (S (r / 4))); cbn [hash wbuf set_wbuf].
  - by rewrite E1.
  - rewrite HW, length_app. lia.
  - done.
  - lia.
  - lia.
  - rewrite length_padded. lia.
  - by apply padded_bytes.
  - rewrite HW, <- Hl1, take_app_length, Hl1, (zero_words rest (r mod 4) (r / 4)) by lia. do 4 f_equal. lia.
  - rewrite E2, zero_pad_cases. fold r. rewrite bool_decide_eq_true_2 by done. by rewrite <- app_assoc.
Qed.

(** Many bytes are left: the marker ends one block, the length another. *)
Lemma fin_two_blocks c msg : let r := (length msg mod 64)%nat in let n := Z.of_nat (length msg) in absorbed c msg → counted c n → (55 < r)%nat →
  (SHA_fin1 c SHA256_DIGEST_SIZE).2 = sha256 msg.
Proof.
  intros r n Hab Hc Hr55. destruct (fin_mark c msg Hab) as (C & HW & Hl1 & Hl2 & Hu1 & Hu2). destruct Hab as [Hh Hl Hu _ Hb].
  destruct (pad_blocks msg Hb) as (E1 & E2 & E3 & E4 & E5). fold r in E3, E4, HW, Hl1, Hl2, Hu1. rewrite bool_decide_eq_false_2 in E3 by lia.
  assert (r < 64)%nat as Hr64 by (apply Nat.mod_upper_bound; lia). pose proof (Nat.div_mod_eq r 4) as Hrk. pose proof (Nat.mod_upper_bound r 4) as Hj.
  assert (Hi : Z.land (count0 c) SHA256_MASK = Z.of_nat r) by (rewrite (upd_position c n Hc); unfold n, r; by rewrite Nat2Z.inj_mod).
  set (rest := drop (64 * (length msg / 64)) msg) in *. unfold SHA_fin1. rewrite Hi, (proj2 (Z.ltb_lt _ _)) by (unfold SHA256_BLOCK_SIZE; lia).
  set (w1 := if Z.of_nat r <? 60 then _ else _). set (B1 := rest ++ 128 :: replicate (63 - r) 0).
  assert (Hw1 : w1 = be_words B1).
  { unfold w1, B1. replace (63 - r)%nat with (3 - r mod 4 + 4 * (15 - r / 4))%nat by lia. rewrite <- (zero_words rest (r mod 4) (r / 4)) by lia. rewrite HW.
    destruct (Z.ltb_spec (Z.of_nat r) 60).
    - assert (r / 4 = 14)%nat as E by lia. rewrite E in Hl1, Hl2 |- *. destruct C as [|y [|]]; try discriminate. pose proof (sto_middle (be_words (rest ++ 128 :: replicate (3 - r mod 4) 0)) y [] 0) as Hs. rewrite Hl1 in Hs. exact Hs.
    - assert (r / 4 = 15)%nat as E by lia. rewrite E in Hl2 |- *. by destruct C. }
  destruct (be_words_u32 16 B1) as [Hu3 Hl3]; [unfold B1; rewrite length_padded; lia|by apply padded_bytes|].
  destruct (compile_block (set_wbuf w1 c) (length msg / 64) (pad msg) B1) as (F1 & F2 & F3 & F4 & F5).
  - cbn [hash set_wbuf]. by rewrite E1.
  - exact Hw1.
  - cbn [wbuf set_wbuf]. by rewrite Hw1.
  - cbn [wbuf set_wbuf]. by rewrite Hw1.
  - rewrite E2, zero_pad_cases. fold r. rewrite bool_decide_eq_false_2 by lia. replace (119 - r)%nat with (63 - r + 56)%nat by lia.
    rewrite replicate_add, <- !app_assoc, !app_comm_cons, app_assoc. apply take_app_length'. unfold B1. rewrite length_padded. lia.
  - set (c1 := Sha256_compile__ (set_wbuf w1 c)) in *. clearbody c1. cbn [count0 count1 set_wbuf] in F4, F5. unfold sha256. rewrite E3. apply fin_digest.
    apply (fin_last c1 (S (length msg / 64)) (pad msg) (replicate 56 0) n 0); try done; try lia.
    + unfold counted. by rewrite F4, F5.
    + apply Forall_replicate. unfold is_byte. lia.
    + replace (64 * S (length msg / 64))%nat with (64 * (length msg / 64) + 64)%nat by lia. rewrite <- drop_drop, E2, zero_pad_cases. fold r. rewrite bool_decide_eq_false_2 by lia.
      replace (119 - r)%nat with (63 - r + 56)%nat by lia. rewrite replicate_add, <- !app_assoc, !app_comm_cons, app_assoc. apply drop_app_length'. rewrite length_padded. lia.
Qed.

Lemma set_absorbed c : length (wbuf c) = 16%nat → Forall is_u32 (wbuf c) → absorbed (Sha256_set c) [] ∧ counted (Sha256_set c) 0.
Proof. intros Hl Hu. split; [|done]. split; [exact g_i256_H0|done|done|done|constructor]. Qed.

(** C10: The digest of the code is SHA-256: for any contents of the context, [Sha256_set], any sequence of [Sha256_upd] calls (each below [2 ^ 32] bytes, together below [2 ^ 61])
    and [Sha256_fin] produce the digest that FIPS 180-4 defines for the concatenation of the pieces, with the constants derived from the primes. *)
Theorem sha256_correct c chunks : length (wbuf c) = 16%nat → Forall is_u32 (wbuf c) → Forall (λ d, Forall is_byte d ∧ Z.of_nat (length d) < 2 ^ 32) chunks →
  Z.of_nat (length (concat chunks)) < 2 ^ 61 → digest c chunks = Some (sha256 (concat chunks)).
Proof.
  intros Hl Hu Hch Htot. unfold digest. destruct (set_absorbed c Hl Hu) as [Hab Hc].
  assert (Hrun : ∀ chunks c0 msg, absorbed c0 msg → counted c0 (Z.of_nat (length msg)) → Forall (λ d, Forall is_byte d ∧ Z.of_nat (length d) < 2 ^ 32) chunks →
    Z.of_nat (length (msg ++ concat chunks)) < 2 ^ 61 → ∃ c', foldl (λ c d, c ← c; Sha256_upd c d) (Some c0) chunks = Some c' ∧ absorbed c' (msg ++ concat chunks) ∧ counted c' (Z.of_nat (length (msg ++ concat chunks)))).
  { clear. induction chunks as [|d chunks IH]; intros c0 msg Hab Hc Hch Htot; cbn [foldl concat]; [exists c0; by rewrite app_nil_r|].
    apply Forall_cons_1 in Hch as [[Hd Hlen] Hch]. cbn [concat] in Htot. rewrite app_assoc in Htot |- *.
    destruct (upd_spec c0 msg d Hab Hc Hd Hlen) as (c1 & H1 & H2 & H3); [rewrite !length_app in Htot; lia|].
    destruct (IH c1 (msg ++ d) H2 H3 Hch Htot) as (c' & H4 & H5). exists c'. split; [|done]. cbn [mbind option_bind]. by rewrite H1. }
  destruct (Hrun chunks _ [] Hab Hc Hch Htot) as (c' & H1 & H2 & H3). rewrite H1. cbn [mbind option_bind]. f_equal. cbn [app] in H2, H3.
  destruct (decide (length (concat chunks) mod 64 <= 55)%nat); [by apply fin_one_block|apply fin_two_blocks; [done..|lia]].
Qed.

Lemma sha256_correct_witness : digest (mk_ctx 1 2 [] (replicate 16 7)) [[97; 98]; [99]] = Some (sha256 [97; 98; 99]).
Proof.
  apply (sha256_correct (mk_ctx 1 2 [] (replicate 16 7)) [[97; 98]; [99]]); [done|apply Forall_replicate; unfold is_u32; lia| |cbn; lia].
  repeat first [apply Forall_nil_2 | apply Forall_cons_2 | split]; cbn; lia.
Defined.
