(* ===== verification/IpAddr.v ===== *)
(** * Internet addresses as text (src/stacks/lwip_stack/lwip_src/common/stackx_ip_addr.c, byte order of spl_def.h)

    A character is its code, a string the list of its characters without the terminating zero, so that the character at the end reads as 0.
    Addresses are kept in network byte order on a little-endian machine: the first byte of the text is the low byte. *)
From S2P Require Import Prelude.

(** ** Byte order *)

Definition stackx_htons (x : Z) : Z := Z.lor (Z.shiftl (Z.land x 0xff) 8) (Z.shiftr (Z.land x 0xff00) 8).
Definition stackx_htonl (x : Z) : Z :=
  Z.lor (Z.lor (Z.lor (Z.shiftl (Z.land x 0xff) 24) (Z.shiftl (Z.land x 0xff00) 8)) (Z.shiftr (Z.land x 0xff0000) 8)) (Z.shiftr (Z.land x 0xff000000) 24).

(** ** Characters *)

Definition in_range (c lo up : Z) : bool := (lo <=? c) && (c <=? up).
Definition isdigit (c : Z) : bool := in_range c 48 57.
Definition isxdigit (c : Z) : bool := isdigit c || in_range c 97 102 || in_range c 65 70.
Definition islower (c : Z) : bool := in_range c 97 122.
Definition isspace (c : Z) : bool := (c =? 32) || (c =? 12) || (c =? 10) || (c =? 13) || (c =? 9) || (c =? 11).

(** [*cp]. *)
Definition cur (cp : list Z) : Z := hd 0 cp.

(** ** Text to address *)

(** The prefix that selects the base; the digits follow. *)
Definition number_base (cp : list Z) : Z * list Z :=
  if cur cp =? 48 then
    let cp := tl cp in
    if (cur cp =? 120) || (cur cp =? 88) then (16, tl cp) else (8, cp)
  else (10, cp).

Fixpoint number_digits (base val : Z) (cp : list Z) : Z * list Z :=
  match cp with
  | [] => (val, [])
  | c :: cp' =>
      if isdigit c then number_digits base (wrap32 (val * base + (c - 48))) cp'
      else if (base =? 16) && isxdigit c then number_digits base (Z.lor (wrap32 (Z.shiftl val 4)) (c + 10 - (if islower c then 97 else 65))) cp'
      else (val, cp)
  end.

(** The loop over the parts; [n]: the cells of [parts] before the last one that are free.  [None]: the call returns 0. *)
Fixpoint aton_parts (n : nat) (parts : list Z) (cp : list Z) : option (list Z * Z * list Z) :=
  if negb (isdigit (cur cp)) then None
  else
    let '(base, cp) := number_base cp in
    let '(val, cp) := number_digits base 0 cp in
    if cur cp =? 46 then
      match n with
      | O => None
      | S n => aton_parts n (parts ++ [val]) (tl cp)
      end
    else Some (parts, val, cp).

(** The address from the parts and the last number. *)
Definition aton_value (parts : list Z) (val : Z) : option Z :=
  match parts with
  | [] => Some val
  | [p0] => if 0xffffff <? val then None else Some (Z.lor val (wrap32 (Z.shiftl p0 24)))
  | [p0; p1] => if 0xffff <? val then None else Some (Z.lor val (Z.lor (wrap32 (Z.shiftl p0 24)) (wrap32 (Z.shiftl p1 16))))
  | [p0; p1; p2] =>
      if 0xff <? val then None
      else Some (Z.lor val (Z.lor (Z.lor (wrap32 (Z.shiftl p0 24)) (wrap32 (Z.shiftl p1 16))) (wrap32 (Z.shiftl p2 8))))
  | _ => None
  end.

(** [Some a]: the call returns 1 and stores [a]; [None]: it returns 0. *)
Definition spl_ipaddr_aton (cp : option (list Z)) : option Z :=
  match cp with
  | None => None
  | Some cp =>
      '(parts, val, cp) ← aton_parts 3 [] cp;
      if negb (cur cp =? 0) && negb (isspace (cur cp)) then None
      else v ← aton_value parts val; Some (stackx_htonl v)
  end.

Definition SPL_IPADDR_NONE : Z := 0xffffffff.
Definition spl_ipaddr_addr (cp : option (list Z)) : Z := default SPL_IPADDR_NONE (spl_ipaddr_aton cp).

(** ** Address to text *)

(** The digits of a byte, lowest first; [n]: the cells of [inv] that are free ([None]: written beyond it). *)
Fixpoint byte_digits (n : nat) (ap : Z) : option (list Z) :=
  match n with
  | O => None
  | S n => if ap / 10 =? 0 then Some [48 + ap mod 10] else l ← byte_digits n (ap / 10); Some (48 + ap mod 10 :: l)
  end.

(** [if (len++ >= buflen) return NULL; *rp++ = c], for several characters; [rp] is [buf + len].  [None] inside: the call returns null;
    outside: a write beyond the buffer. *)
Fixpoint put_chars (buf : list Z) (buflen len : Z) (cs : list Z) : option (option (list Z * Z)) :=
  match cs with
  | [] => Some (Some (buf, len))
  | c :: cs => if buflen <=? len then Some None else buf ← awrite buf len c; put_chars buf buflen (len + 1) cs
  end.

Fixpoint ntoa_bytes (bytes : list Z) (buf : list Z) (buflen len : Z) : option (option (list Z * Z)) :=
  match bytes with
  | [] => Some (Some (buf, len))
  | ap :: bytes =>
      inv ← byte_digits 3 ap;
      r ← put_chars buf buflen len (rev inv ++ [46]);
      match r with None => Some None | Some (buf, len) => ntoa_bytes bytes buf buflen len end
  end.

(** The bytes of the address in memory. *)
Definition addr_bytes (a : Z) : list Z := [Z.land a 255; Z.land (Z.shiftr a 8) 255; Z.land (Z.shiftr a 16) 255; Z.land (Z.shiftr a 24) 255].

(** [Some (Some buf)]: returns the buffer with these contents; [Some None]: returns null. *)
Definition spl_ipaddr_ntoa_r (addr : Z) (buf : list Z) (buflen : Z) : option (option (list Z)) :=
  r ← ntoa_bytes (addr_bytes addr) buf buflen 0;
  match r with None => Some None | Some (buf, len) => buf ← awrite buf (len - 1) 0; Some (Some buf) end.

(** [str]: the contents of the static buffer. *)
Definition spl_ipaddr_ntoa (addr : Z) (str : list Z) : option (option (list Z)) := spl_ipaddr_ntoa_r addr str 16.

(** The string at the start of a buffer. *)
Fixpoint c_string (buf : list Z) : list Z :=
  match buf with [] => [] | c :: buf => if c =? 0 then [] else c :: c_string buf end.
