(* ===== verification/IpAddrProps.v ===== *)
(** * Internet addresses as text: the grammar that is read, the text that is written, and the round trip *)
From S2P Require Import Prelude.
From S2P Require Import Bits.
From S2P Require Import IpAddr.

(** ** Numbers *)

Definition digit_of (base c : Z) : bool := isdigit c || ((base =? 16) && isxdigit c).
Definition digit_val (c : Z) : Z := if isdigit c then c - 48 else c + 10 - (if islower c then 97 else 65).

(** The value of a sequence of digits. *)
Definition positional (base : Z) (ds : list Z) : Z := foldl (λ v c, v * base + digit_val c) 0 ds.

(** A number as the parser reads it, which is more than the numbers of C: [0x] or [0X] and any
    number of hexadecimal digits, none included; [0] and any number of decimal digits, 8 and 9
    included, each weighed as an octal digit; or decimal digits that start with 1 to 9.  The
    value is taken modulo [2 ^ 32]. *)
Definition number (s : list Z) (v : Z) : Prop :=
  ∃ base ds, (base = 16 ∧ (s = 48 :: 120 :: ds ∨ s = 48 :: 88 :: ds) ∨ base = 8 ∧ s = 48 :: ds ∨ base = 10 ∧ s = ds ∧ in_range (cur ds) 49 57 = true) ∧
    Forall (λ c, digit_of base c = true) ds ∧ v = wrap32 (positional base ds).

(** What can follow a number. *)
Definition stops (s : list Z) : Prop := cur s = 46 ∨ cur s = 0 ∨ isspace (cur s) = true.

Lemma digit_val_range base c : digit_of base c = true → 0 <= digit_val c < 16.
Proof.
  unfold digit_of, digit_val, isxdigit, isdigit, islower, in_range. intros H.
  repeat match goal with |- context [?a <=? ?b] => destruct (Z.leb_spec a b) | H : context [?a <=? ?b] |- _ => destruct (Z.leb_spec a b) end; cbn in *; try lia; destruct (base =? 16); done.
Qed.

Lemma digit_step base v c : (base =? 16) = true → 0 <= digit_val c < 16 → Z.lor (wrap32 (Z.shiftl v 4)) (digit_val c) = wrap32 (v * base + digit_val c).
Proof.
  intros ->%Z.eqb_eq Hd. rewrite Z.lor_comm, Z.shiftl_mul_pow2 by lia. change (2 ^ 4) with 16.
  replace (wrap32 (v * 16)) with ((v mod 2 ^ 28) * 2 ^ 4) by u32_lia. rewrite lor_low by lia. u32_lia.
Qed.

Lemma number_digits_app base v ds rest : Forall (λ c, digit_of base c = true) ds →
  number_digits base (wrap32 v) (ds ++ rest) = number_digits base (wrap32 (foldl (λ v c, v * base + digit_val c) v ds)) rest.
Proof.
  intros Hds. revert v. induction Hds as [|c ds Hc Hds IH]; intros v; [done|]. cbn [app number_digits foldl].
  pose proof (digit_val_range base c Hc) as Hr. destruct (isdigit c) eqn:E.
  - rewrite <- IH. f_equal. unfold digit_val. rewrite E. unfold wrap32. by rewrite <- Zplus_mod_idemp_l, Zmult_mod_idemp_l, Zplus_mod_idemp_l.
  - unfold digit_of in Hc. rewrite E, orb_false_l in Hc. rewrite Hc. apply andb_true_iff in Hc as [Hb _].
    replace (c + 10 - (if islower c then 97 else 65)) with (digit_val c) by (unfold digit_val; by rewrite E). rewrite (digit_step base) by done. rewrite <- IH. f_equal.
    unfold wrap32. by rewrite <- Zplus_mod_idemp_l, Zmult_mod_idemp_l, Zplus_mod_idemp_l.
Qed.

Lemma stops_digit base s : stops s → digit_of base (cur s) = false.
Proof.
  unfold stops, digit_of, isxdigit, isdigit, isspace, in_range. intros H.
  destruct H as [-> | [-> | H]]; [by destruct (base =? 16)..|]. rewrite !orb_true_iff, !Z.eqb_eq in H.
  destruct H as [[[[[-> | ->] | ->] | ->] | ->] | ->]; by destruct (base =? 16).
Qed.

Lemma number_digits_stop base v s : digit_of base (cur s) = false → number_digits base v s = (v, s).
Proof. destruct s as [|c s]; [done|]. cbn. unfold digit_of. intros [-> ->]%orb_false_iff. done. Qed.

Lemma number_digits_split base s : ∃ ds rest, s = ds ++ rest ∧ Forall (λ c, digit_of base c = true) ds ∧ digit_of base (cur rest) = false.
Proof.
  induction s as [|c s (ds & rest & -> & H1 & H2)].
  - exists [], []. split; [done|]. split; [constructor|]. unfold digit_of. cbn. by destruct (base =? 16).
  - destruct (digit_of base c) eqn:E; [exists (c :: ds), rest|exists [], (c :: ds ++ rest)]; split; try done; split; try done; by constructor.
Qed.

Lemma cur_app s rest : s ≠ [] → cur (s ++ rest) = cur s.
Proof. by destruct s. Qed.

Lemma number_cur s v : number s v → s ≠ [] ∧ isdigit (cur s) = true.
Proof.
  intros (base & ds & Hs & _). destruct Hs as [(-> & [-> | ->]) | [(-> & ->) | (-> & -> & Hd)]]; try done. destruct ds; [done|]. split; [done|].
  unfold isdigit, in_range in *. cbn in *. rewrite andb_true_iff, !Z.leb_le in *. lia.
Qed.

(** A number is read up to where it stops. *)
Lemma number_read s v rest : number s v → stops rest →
  let '(base, cp) := number_base (s ++ rest) in number_digits base 0 cp = (v, rest).
Proof.
  intros (base & ds & Hs & Hds & ->) Hst. unfold positional.
  assert (Hgo : ∀ base, Forall (λ c, digit_of base c = true) ds → number_digits base 0 (ds ++ rest) = (wrap32 (foldl (λ v c, v * base + digit_val c) 0 ds), rest)).
  { intros b Hb. change 0 with (wrap32 0) at 1. rewrite number_digits_app by done. apply number_digits_stop. by apply stops_digit. }
  unfold number_base. destruct Hs as [(-> & [-> | ->]) | [(-> & ->) | (-> & -> & Hd)]]; cbn [app cur hd tl Z.eqb Pos.eqb orb].
  - by apply Hgo.
  - by apply Hgo.
  - destruct ((cur (ds ++ rest) =? 120) || (cur (ds ++ rest) =? 88)) eqn:E; [|by apply Hgo]. exfalso. rewrite orb_true_iff, !Z.eqb_eq in E.
    destruct ds as [|d ds]; cbn [app] in E.
    + pose proof (stops_digit 16 rest Hst) as Hx. by destruct E as [E | E]; unfold stops in Hst; rewrite E in Hst; destruct Hst as [|[|]].
    + apply Forall_cons_1 in Hds as [Hd _]. cbn [cur hd] in E. by destruct E; subst d.
  - assert ((cur (ds ++ rest) =? 48) = false) as E; [|by rewrite E; apply Hgo]. destruct ds as [|d ds]; [done|]. cbn in *. unfold in_range in Hd. rewrite andb_true_iff, !Z.leb_le in Hd. apply Z.eqb_neq. lia.
Qed.

(** What is read is a number. *)
Lemma number_read_inv cp : isdigit (cur cp) = true →
  let '(base, cp1) := number_base cp in let '(v, rest) := number_digits base 0 cp1 in ∃ s, cp = s ++ rest ∧ number s v ∧ isdigit (cur rest) = false.
Proof.
  intros Hd. assert (Hgo : ∀ base cp1, ∃ ds rest, number_digits base 0 cp1 = (wrap32 (positional base ds), rest) ∧ cp1 = ds ++ rest ∧ Forall (λ c, digit_of base c = true) ds ∧ isdigit (cur rest) = false).
  { intros base cp1. destruct (number_digits_split base cp1) as (ds & rest & -> & H1 & H2). exists ds, rest. split; [|split; [done|]; split; [done|]; unfold digit_of in H2; by apply orb_false_iff in H2 as [? _]].
    change 0 with (wrap32 0) at 1. rewrite number_digits_app by done. by apply number_digits_stop. }
  unfold number_base. destruct cp as [|c cp]; [done|]. change (cur (c :: cp)) with c in *. cbn [tl]. destruct (Z.eqb_spec c 48) as [->|Hc].
  - destruct ((cur cp =? 120) || (cur cp =? 88)) eqn:E.
    + destruct cp as [|x cp]; [done|]. change (cur (x :: cp)) with x in E. cbn [tl]. destruct (Hgo 16 cp) as (ds & rest & -> & -> & H1 & H2). exists (48 :: x :: ds). split; [done|]. split; [|done].
      exists 16, ds. split; [|done]. left. rewrite orb_true_iff, !Z.eqb_eq in E. by destruct E; subst x; auto.
    + destruct (Hgo 8 cp) as (ds & rest & -> & -> & H1 & H2). exists (48 :: ds). split; [done|]. split; [|done]. exists 8, ds. auto 6.
  - destruct (Hgo 10 (c :: cp)) as (ds & rest & -> & E & H1 & H2). exists ds. split; [done|]. split; [|done]. exists 10, ds. split; [|done]. right. right. split; [done|]. split; [done|].
    assert (cur ds = c) as ->; [destruct ds; [cbn in E; by rewrite <- E in H2; cbn in H2; congruence|by inversion E]|].
    unfold isdigit, in_range in *. rewrite andb_true_iff, !Z.leb_le in *. lia.
Qed.

(** ** Sequences of numbers *)

Fixpoint join (l : list (list Z)) : list Z := match l with [] => [] | [s] => s | s :: l => s ++ 46 :: join l end.

Lemma join_cons s t l : join (s :: t :: l) = s ++ 46 :: join (t :: l).
Proof. done. Qed.

Lemma aton_parts_read nums vs tail : Forall2 number nums vs → (cur tail = 0 ∨ isspace (cur tail) = true) → ∀ n parts v vs', vs = vs' ++ [v] → (length vs' <= n)%nat →
  aton_parts n parts (join nums ++ tail) = Some (parts ++ vs', v, tail).
Proof.
  intros Hn Ht. assert (Hnd : (cur tail =? 46) = false) by (apply Z.eqb_neq; intros E; rewrite E in Ht; by destruct Ht).
  induction Hn as [|s w nums vs Hs Hn IH]; intros n parts v vs' Hv Hlen; [by destruct vs'|]. destruct (number_cur s w Hs) as [Hne Hd].
  assert (Hstep : ∀ rest, stops rest → aton_parts n parts (s ++ rest) = if cur rest =? 46 then match n with O => None | S n => aton_parts n (parts ++ [w]) (List.tl rest) end else Some (parts, w, rest)).
  { intros rest Hr. pose proof (number_read s w rest Hs Hr) as Hread. destruct n; cbn [aton_parts]; rewrite cur_app, Hd by done; cbn [negb]; destruct (number_base (s ++ rest)) as [b cp]; by rewrite Hread. }
  destruct vs' as [|w' vs'].
  - injection Hv as -> ->. apply Forall2_nil_inv_r in Hn as ->. cbn [join]. rewrite Hstep by (unfold stops; tauto). by rewrite Hnd, app_nil_r.
  - injection Hv as -> ->. destruct nums as [|t nums]; [by apply Forall2_nil_inv_l in Hn; destruct vs'|]. rewrite join_cons, <- app_assoc. cbn [app].
    rewrite Hstep by by left. cbn [cur hd Z.eqb Pos.eqb List.tl]. destruct n as [|n]; [cbn in Hlen; lia|]. rewrite (IH n (parts ++ [w']) v vs') by (done || cbn in Hlen; lia). by rewrite <- app_assoc.
Qed.

Lemma aton_parts_inv n parts cp parts' v rest : aton_parts n parts cp = Some (parts', v, rest) →
  ∃ nums vs', parts' = parts ++ vs' ∧ (length vs' <= n)%nat ∧ Forall2 number nums (vs' ++ [v]) ∧ nums ≠ [] ∧ cp = join nums ++ rest.
Proof.
  revert parts cp. induction n as [|n IH]; intros parts cp; cbn [aton_parts]; (destruct (isdigit (cur cp)) eqn:Hd; [|done]); cbn [negb];
    pose proof (number_read_inv cp Hd) as Hr; destruct (number_base cp) as [base cp1], (number_digits base 0 cp1) as [w cp2], Hr as (s & -> & Hs & _);
    (destruct (Z.eqb_spec (cur cp2) 46) as [E|E]; [|intros [= <- <- <-]; exists [s], []; rewrite app_nil_r; cbn; auto 6 with lia]).
  - done.
  - intros (nums & vs' & -> & Hlen & Hn & Hne & Hj)%IH. exists (s :: nums), (w :: vs'). rewrite <- app_assoc. split; [done|]. split; [cbn; lia|]. split; [by constructor|]. split; [done|].
    destruct nums as [|t nums]; [done|]. rewrite join_cons, <- app_assoc. f_equal. destruct cp2 as [|c cp2]; [done|]. cbn in E, Hj. subst c. by rewrite Hj.
Qed.

(** The address of leading parts [vs] and a last part [v]: each leading part has a byte, from the highest. *)
Fixpoint compose (sh : Z) (vs : list Z) (v : Z) : Z := match vs with [] => v | p :: vs => Z.lor (wrap32 (Z.shiftl p sh)) (compose (sh - 8) vs v) end.

Lemma aton_value_compose vs v : (length vs <= 3)%nat → is_u32 v →
  aton_value vs v = if v <? 2 ^ (8 * (4 - Z.of_nat (length vs))) then Some (compose 24 vs v) else None.
Proof.
  intros Hl Hv.
  destruct vs as [|p0 [|p1 [|p2 [|]]]]; cbn [length compose aton_value] in *; try lia.
  - rewrite (proj2 (Z.ltb_lt _ _)) by exact (proj2 Hv). done.
  - change (2 ^ (8 * (4 - Z.of_nat 1))) with (0xffffff + 1). rewrite Z.lor_comm. destruct (Z.ltb_spec 0xffffff v), (Z.ltb_spec v (0xffffff + 1)); (done || lia).
  - change (2 ^ (8 * (4 - Z.of_nat 2))) with (0xffff + 1). rewrite (Z.lor_comm v), <- Z.lor_assoc. destruct (Z.ltb_spec 0xffff v), (Z.ltb_spec v (0xffff + 1)); (done || lia).
  - change (2 ^ (8 * (4 - Z.of_nat 3))) with (0xff + 1). rewrite (Z.lor_comm v), <- !Z.lor_assoc. destruct (Z.ltb_spec 0xff v), (Z.ltb_spec v (0xff + 1)); (done || lia).
Qed.

Lemma number_u32 s v : number s v → is_u32 v.
Proof. intros (? & ? & _ & _ & ->). apply wrap32_range. Qed.

(** C28: [spl_ipaddr_aton] accepts exactly the strings that consist of one to four numbers separated by dots, followed by nothing or by a white space character (and then anything), whose
    last number fits into the bytes the others leave; the address is, in network order, the bitwise or of the leading numbers shifted by 24, 16 and 8 and of the last.  A number is
    what [number] says, which is more than the numbers of C: [0x] may lack digits, 8 and 9 may follow a leading 0, and the value is taken modulo [2 ^ 32]; the numbers before the last
    are not held to a byte. *)
Theorem aton_grammar s a : Forall (λ c, c ≠ 0) s →
  spl_ipaddr_aton (Some s) = Some a ↔
  ∃ nums vs v tail, s = join nums ++ tail ∧ (tail = [] ∨ isspace (cur tail) = true) ∧ Forall2 number nums (vs ++ [v]) ∧ (length vs <= 3)%nat ∧
    v < 2 ^ (8 * (4 - Z.of_nat (length vs))) ∧ a = stackx_htonl (compose 24 vs v).
Proof.
  intros Hs. unfold spl_ipaddr_aton. split.
  - destruct (aton_parts 3 [] s) as [[[parts v] rest]|] eqn:E; [|done]. cbn [mbind option_bind].
    apply aton_parts_inv in E as (nums & vs & -> & Hlen & Hn & _ & ->). cbn [app].
    destruct (negb (cur rest =? 0) && negb (isspace (cur rest))) eqn:Ht; [done|].
    assert (is_u32 v) as Hv by (apply Forall2_app_inv_r in Hn as (? & ? & _ & (? & ? & Hv & _)%Forall2_cons_inv_r & _); by apply number_u32 in Hv).
    rewrite aton_value_compose by (done || lia). destruct (Z.ltb_spec v (2 ^ (8 * (4 - Z.of_nat (length vs))))); [|done]. cbn. intros [= <-].
    exists nums, vs, v, rest. split; [done|]. split; [|done]. rewrite andb_false_iff, !negb_false_iff, Z.eqb_eq in Ht. destruct Ht as [Ht|]; [|by right].
    destruct rest as [|c rest]; [by left|]. cbn in Ht. subst c. apply Forall_app in Hs as [_ [? _]%Forall_cons_1]. done.
  - intros (nums & vs & v & tail & -> & Ht & Hn & Hlen & Hv & ->).
    assert (cur tail = 0 ∨ isspace (cur tail) = true) as Ht' by (destruct Ht as [->|]; auto).
    rewrite (aton_parts_read nums _ tail Hn Ht' 3 [] v vs) by (done || lia). cbn [mbind option_bind app].
    replace (negb (cur tail =? 0) && negb (isspace (cur tail))) with false by (destruct Ht' as [-> | ->]; [done|by rewrite andb_false_r]).
    assert (is_u32 v) as Hu by (apply Forall2_app_inv_r in Hn as (? & ? & _ & (? & ? & Hx & _)%Forall2_cons_inv_r & _); by apply number_u32 in Hx).
    rewrite aton_value_compose by (done || lia). by rewrite (proj2 (Z.ltb_lt _ _)) by done.
Qed.

(** ** Writing an address *)

Definition decimal (b : Z) : list Z :=
  if b <? 10 then [48 + b] else if b <? 100 then [48 + b / 10; 48 + b mod 10] else [48 + b / 100; 48 + b / 10 mod 10; 48 + b mod 10].
Fixpoint text (bytes : list Z) : list Z := match bytes with [] => [] | b :: bytes => (decimal b ++ [46]) ++ text bytes end.
Definition dotted (a : Z) : list Z := join (decimal <$> addr_bytes a).

(** A decidable property of bytes, checked for each. *)
Lemma all_bytes (P : Z → Prop) `{∀ b, Decision (P b)} : forallb (λ b, bool_decide (P b)) (seqZ 0 256) = true → ∀ b, is_byte b → P b.
Proof.
  intros Hall b Hb. rewrite forallb_forall in Hall. apply (bool_decide_eq_true_1 _), Hall. apply list_elem_of_In, elem_of_seqZ. unfold is_byte in Hb. lia.
Qed.

Lemma byte_digits_decimal b : is_byte b → byte_digits 3 b = Some (rev (decimal b)).
Proof. revert b. refine (all_bytes (λ b, byte_digits 3 b = Some (rev (decimal b))) _). by vm_compute. Qed.

Lemma decimal_number b : is_byte b → number (decimal b) b.
Proof.
  intros Hb. destruct (decide (b = 0)) as [->|Hne]; [exists 8, []; split; [right; left; done|split; [constructor|done]]|].
  pose proof (all_bytes (λ b, b ≠ 0 → in_range (cur (decimal b)) 49 57 = true ∧ Forall (λ c, digit_of 10 c = true) (decimal b) ∧ b = wrap32 (positional 10 (decimal b)))) as H.
  destruct (H ltac:(by vm_compute) b Hb Hne) as (H1 & H2 & H3). exists 10, (decimal b). auto 8.
Qed.

Lemma put_chars_spec buf buflen len cs : 0 <= len → buflen <= Z.of_nat (length buf) →
  put_chars buf buflen len cs = Some (if bool_decide (cs = [] ∨ len + Z.of_nat (length cs) <= buflen)
    then Some (take (Z.to_nat len) buf ++ cs ++ drop (Z.to_nat len + length cs) buf, len + Z.of_nat (length cs)) else None).
Proof.
  revert buf len. induction cs as [|c cs IH]; intros buf len Hlen Hb.
  - cbn. rewrite Z.add_0_r, Nat.add_0_r, take_drop. done.
  - cbn [put_chars]. destruct (Z.leb_spec buflen len); [rewrite bool_decide_eq_false_2; [done|intros [|]; [done|cbn in *; lia]]|].
    rewrite awrite_Some by lia. cbn [mbind option_bind]. rewrite IH by (rewrite ?length_insert; lia). f_equal.
    replace (len + 1 + Z.of_nat (length cs)) with (len + Z.of_nat (length (c :: cs))) by (cbn; lia).
    replace (Z.to_nat (len + 1)) with (S (Z.to_nat len)) by lia.
    destruct (decide (len + Z.of_nat (length (c :: cs)) <= buflen)) as [Hfit|Hno].
    + rewrite !bool_decide_eq_true_2 by auto. do 2 f_equal. rewrite (take_S_r _ _ c) by (apply list_lookup_insert_eq; lia).
      rewrite take_insert_ge, <- app_assoc, drop_insert_lt by lia. cbn [app length]. by rewrite Nat.add_succ_r.
    + rewrite !bool_decide_eq_false_2; [done|intros [|]; [done|lia]|intros [->|]; [cbn in *; lia|lia]].
Qed.

Lemma put_chars_app buf buflen len cs ds : put_chars buf buflen len (cs ++ ds) =
  (r ← put_chars buf buflen len cs; match r with None => Some None | Some (buf, len) => put_chars buf buflen len ds end).
Proof.
  revert buf len. induction cs as [|c cs IH]; intros buf len; [done|]. cbn [app put_chars]. destruct (buflen <=? len); [done|].
  destruct (awrite buf len c); [|done]. apply IH.
Qed.

Lemma ntoa_bytes_text bytes buf buflen len : Forall is_byte bytes → ntoa_bytes bytes buf buflen len = put_chars buf buflen len (text bytes).
Proof.
  intros Hb. revert buf len. induction Hb as [|b bytes Hb _ IH]; intros buf len; [done|]. cbn [ntoa_bytes]. rewrite byte_digits_decimal by done. cbn [mbind option_bind]. rewrite rev_involutive.
  cbn [text]. rewrite (put_chars_app _ _ _ _ (text bytes)).
  destruct (put_chars buf buflen len (decimal b ++ [46])) as [[[]|]|]; [apply IH|done..].
Qed.

Lemma addr_bytes_bytes a : Forall is_byte (addr_bytes a).
Proof. repeat constructor; apply is_byte_land. Qed.

Lemma dotted_text a : text (addr_bytes a) = dotted a ++ [46].
Proof. unfold dotted, addr_bytes. cbn [fmap list_fmap join text]. rewrite app_nil_r, <- !app_assoc. cbn [app]. rewrite <- !app_assoc. cbn [app]. rewrite <- !app_assoc. done. Qed.

(** The text goes into the buffer with its terminator, if there is room; nothing is written beyond [buflen]. *)
Lemma ntoa_r_spec a buf buflen : 0 <= buflen <= Z.of_nat (length buf) →
  spl_ipaddr_ntoa_r a buf buflen = Some (if Z.of_nat (length (dotted a)) <? buflen then Some (dotted a ++ 0 :: drop (S (length (dotted a))) buf) else None).
Proof.
  intros Hb. unfold spl_ipaddr_ntoa_r. rewrite ntoa_bytes_text, dotted_text, put_chars_spec by (apply addr_bytes_bytes || lia). cbn [mbind option_bind]. rewrite length_app. cbn [length].
  set (n := length (dotted a)). destruct (Z.ltb_spec (Z.of_nat n) buflen).
  - rewrite bool_decide_eq_true_2 by (right; lia). change (Z.to_nat 0) with O. cbn [take app]. rewrite awrite_Some by (rewrite !length_app, length_drop; cbn; lia). cbn [mbind option_bind].
    replace (Z.to_nat (0 + Z.of_nat (n + 1) - 1)) with (length (dotted a)) by (fold n; lia).
    rewrite take_0, app_nil_l, <- app_assoc, insert_app_r_alt, Nat.sub_diag by done. fold n.
    by replace (0 + (n + 1))%nat with (S n) by lia.
  - rewrite bool_decide_eq_false_2; [done|]. intros [E|]; [by destruct (dotted a)|lia].
Qed.

Lemma compose_htonl a : is_u32 a → stackx_htonl (compose 24 (take 3 (addr_bytes a)) (nth 3 (addr_bytes a) 0)) = a.
Proof.
  intros Ha. unfold addr_bytes, stackx_htonl. cbn [take nth compose]. change (24 - 8) with 16. change (16 - 8) with 8.
  set (b0 := Z.land a 255). set (b1 := Z.land (Z.shiftr a 8) 255). set (b2 := Z.land (Z.shiftr a 16) 255). set (b3 := Z.land (Z.shiftr a 24) 255).
  assert (is_byte b0 ∧ is_byte b1 ∧ is_byte b2 ∧ is_byte b3) as (H0 & H1 & H2 & H3) by (repeat split; apply is_byte_land).
  change 255 with (Z.ones 8). change 0xff00 with (Z.shiftl (Z.ones 8) 8). change 0xff0000 with (Z.shiftl (Z.ones 8) 16). change 0xff000000 with (Z.shiftl (Z.ones 8) 24).
  apply Z.bits_inj'. intros i Hi. bits_norm.
  byte_cases i; word_bit; unfold b0, b1, b2, b3; change 255 with (Z.ones 8); word_bit.
Qed.

Lemma c_string_text s rest : Forall (λ c, c ≠ 0) s → c_string (s ++ 0 :: rest) = s.
Proof. induction 1 as [|c s Hc _ IH]; [done|]. cbn. rewrite (proj2 (Z.eqb_neq c 0)) by done. by rewrite IH. Qed.

Lemma decimal_nonzero b : is_byte b → Forall (λ c, c ≠ 0) (decimal b) ∧ (length (decimal b) <= 3)%nat.
Proof. revert b. refine (all_bytes (λ b, Forall (λ c, c ≠ 0) (decimal b) ∧ (length (decimal b) <= 3)%nat) _). by vm_compute. Qed.

Lemma dotted_nonzero a : Forall (λ c, c ≠ 0) (dotted a) ∧ (length (dotted a) <= 15)%nat.
Proof.
  unfold dotted. pose proof (addr_bytes_bytes a) as Hb. unfold addr_bytes in *. do 4 (apply Forall_cons_1 in Hb as [?%decimal_nonzero Hb]).
  destruct_and!. cbn [fmap list_fmap join]. rewrite !length_app. cbn [length]. rewrite !length_app. cbn [length]. rewrite !length_app. cbn [length]. split; [|lia].
  repeat (apply Forall_app; split; [done|constructor; [done|]]). done.
Qed.

(** C29: Writing an address and reading the text gives the address back: for every address, [spl_ipaddr_ntoa_r] with at least 16 bytes writes its dotted decimal text and a terminator and leaves the
    rest of the buffer alone, [spl_ipaddr_aton] of the string in the buffer returns the address, and [spl_ipaddr_ntoa] never returns null. *)
Theorem ntoa_aton_roundtrip a buf buflen : is_u32 a → 16 <= buflen <= Z.of_nat (length buf) →
  ∃ buf', spl_ipaddr_ntoa_r a buf buflen = Some (Some buf') ∧ buf' = dotted a ++ 0 :: drop (S (length (dotted a))) buf ∧ spl_ipaddr_aton (Some (c_string buf')) = Some a ∧
    spl_ipaddr_ntoa a buf = Some (Some buf').
Proof.
  intros Ha Hb. destruct (dotted_nonzero a) as [Hnz Hlen]. eexists. unfold spl_ipaddr_ntoa. rewrite !ntoa_r_spec by lia. rewrite !(proj2 (Z.ltb_lt _ _)) by lia. split; [done|]. split; [done|].
  split; [|done]. rewrite c_string_text by done. unfold spl_ipaddr_aton, dotted. pose proof (addr_bytes_bytes a) as Hby.
  assert (Hn : Forall2 number (decimal <$> addr_bytes a) (take 3 (addr_bytes a) ++ [nth 3 (addr_bytes a) 0])).
  { change (take 3 (addr_bytes a) ++ [nth 3 (addr_bytes a) 0]) with (addr_bytes a). apply Forall2_fmap_l, Forall_Forall2_diag. eapply Forall_impl; [exact Hby|]. apply decimal_number. }
  pose proof (aton_parts_read _ _ [] Hn (or_introl eq_refl) 3 [] _ _ eq_refl ltac:(cbn; lia)) as E. rewrite app_nil_r in E. rewrite E. cbn [mbind option_bind app cur hd Z.eqb negb andb].
  assert (is_byte (nth 3 (addr_bytes a) 0)) as H3 by apply is_byte_land.
  rewrite aton_value_compose by (done || unfold is_u32, is_byte in *; lia). rewrite (proj2 (Z.ltb_lt _ _)) by (unfold is_byte in H3; cbn in *; lia). cbn [mbind option_bind]. by rewrite compose_htonl.
Qed.

(** The leading numbers are not bounded: 256.0.0.1 is read as 0.0.0.1. *)
Example part_too_large : spl_ipaddr_aton (Some [50; 53; 54; 46; 48; 46; 48; 46; 49]) = spl_ipaddr_aton (Some (dotted 0x01000000)).
Proof. by vm_compute. Qed.

Lemma aton_grammar_witness : Forall (λ c, c ≠ 0) [49; 46; 50; 32] ∧ spl_ipaddr_aton (Some [49; 46; 50; 32]) = Some 0x02000001.
Proof.
  assert (Forall (λ c, c ≠ 0) [49; 46; 50; 32]) as H by by repeat constructor. split; [exact H|]. apply (aton_grammar [49; 46; 50; 32] 0x02000001 H).
  exists [[49]; [50]], [1], 2, [32]. split; [done|]. split; [by right|]. split; [|split; [cbn; lia|split; [cbn; lia|by vm_compute]]].
  constructor; [exists 10, [49]|constructor; [exists 10, [50]|constructor]]; (split; [auto 8|split; [by repeat constructor|by vm_compute]]).
Defined.

Lemma ntoa_aton_roundtrip_witness : ∃ buf', spl_ipaddr_ntoa_r 0x0100007f (replicate 16 1) 16 = Some (Some buf') ∧ spl_ipaddr_aton (Some (c_string buf')) = Some 0x0100007f.
Proof. destruct (ntoa_aton_roundtrip 0x0100007f (replicate 16 1) 16) as (b & H1 & _ & H2 & _); [unfold is_u32; lia|cbn; lia|by exists b]. Defined.
