(* ===== verification/FdLock.v ===== *)
(** * Use, closing and release of a descriptor (src/src/nSocket/nstack/nstack_socket.h, nstack_socket.c, nstack.c)

    Each descriptor has a reference counter, a spin lock and a status.  The threads of a process run the calls of the socket interface as sequences of
    accesses to these; between two accesses any other thread can run.  What an operation does with the stacks while it holds its reference is the
    one step [UseWork] or [CtlWork]; what [release_fd] frees is the step [RelFree].  The kernel hands out a descriptor number only when it is free. *)
From S2P Require Import Prelude.

Inductive FD_STATUS := FD_CLOSE | FD_OPEN | FD_CLOSING.
#[global] Instance FD_STATUS_eq : EqDecision FD_STATUS.
Proof. solve_decision. Defined.

(** [kernel_fd]: the kernel has the descriptor number in use. *)
Record nstack_fd_local_lock_info_t := mk_fdl { fd_ref : Z; close_lock : bool; fd_status : FD_STATUS; kernel_fd : bool }.

Definition set_ref (v : Z) (l : nstack_fd_local_lock_info_t) := mk_fdl v (close_lock l) (fd_status l) (kernel_fd l).
Definition set_lock (v : bool) (l : nstack_fd_local_lock_info_t) := mk_fdl (fd_ref l) v (fd_status l) (kernel_fd l).
Definition set_status (v : FD_STATUS) (l : nstack_fd_local_lock_info_t) := mk_fdl (fd_ref l) (close_lock l) v (kernel_fd l).
Definition set_kernel (v : bool) (l : nstack_fd_local_lock_info_t) := mk_fdl (fd_ref l) (close_lock l) (fd_status l) v.

(** Where a thread is. *)
Inductive pc :=
  | Idle
  | UseCheck | UseInc | UseTest | UseWork | UseDec
  | CtlInc | CtlLock | CtlValid | CtlTest | CtlWork (valid : bool) | CtlUnlock | CtlDec
  | CloseCheck | CloseLock | CloseTest | CloseSet | CloseUnlock | CloseDec | CloseFail
  | OpenSocket | OpenLock | OpenInc | OpenSet | OpenUnlock
  | RelLock | RelTest | RelSet | RelFree | RelRef | RelReinit | RelStatus | RelKernel | RelUnlock | RelSkip.
#[global] Instance pc_eq : EqDecision pc.
Proof. solve_decision. Defined.

Abbreviation fdl := nstack_fd_local_lock_info_t.

(** [nstack_getValidInf]. *)
Definition valid_inf (l : fdl) : bool := bool_decide (fd_status l = FD_OPEN).

(** [common_mem_spinlock_lock]: goes on once the lock is free. *)
Definition spin_lock (l : fdl) (p : pc) : option (fdl * pc) := if close_lock l then None else Some (set_lock true l, p).
Definition spin_unlock (l : fdl) (p : pc) : option (fdl * pc) := Some (set_lock false l, p).

(** [atomic_dec] and the call of [release_fd] when the counter becomes 0. *)
Definition dec_release (l : fdl) : option (fdl * pc) :=
  let r := fd_ref l - 1 in Some (set_ref r l, if r =? 0 then RelLock else Idle).

(** An operation between [LOCK_BASE], [LOCK_SEND], [LOCK_EPOLL], ... and the corresponding unlock. *)
Definition use_step (l : fdl) (p : pc) : option (fdl * pc) :=
  match p with
  | UseCheck => Some (l, if valid_inf l then UseInc else Idle)
  | UseInc => Some (set_ref (fd_ref l + 1) l, UseTest)
  | UseTest => Some (l, if bool_decide (fd_status l ≠ FD_OPEN) then UseDec else UseWork)
  | UseWork => Some (l, UseDec)
  | UseDec => dec_release l
  | _ => None
  end.

(** [LOCK_EPOLL_CTRL], the operation, [UNLOCK_EPOLL_CTRL]: a descriptor that is not valid is passed on to the operation. *)
Definition ctl_step (l : fdl) (p : pc) : option (fdl * pc) :=
  match p with
  | CtlInc => Some (set_ref (fd_ref l + 1) l, CtlLock)
  | CtlLock => spin_lock l CtlValid
  | CtlValid => Some (l, if valid_inf l then CtlTest else CtlWork false)
  | CtlTest => Some (l, if bool_decide (fd_status l ≠ FD_OPEN) then CtlUnlock else CtlWork true)
  | CtlWork _ => Some (l, CtlUnlock)
  | CtlUnlock => spin_unlock l CtlDec
  | CtlDec => dec_release l
  | _ => None
  end.

(** [nstack_close] of a valid descriptor. *)
Definition close_step (l : fdl) (p : pc) : option (fdl * pc) :=
  match p with
  | CloseCheck => Some (l, if valid_inf l then CloseLock else Idle)
  | CloseLock => spin_lock l CloseTest
  | CloseTest => Some (l, if bool_decide (fd_status l ≠ FD_OPEN) then CloseFail else CloseSet)
  | CloseSet => Some (set_status FD_CLOSING l, CloseUnlock)
  | CloseUnlock => spin_unlock l CloseDec
  | CloseDec => let r := fd_ref l - 1 in Some (set_ref r l, if 0 <? r then Idle else RelLock)
  | CloseFail => spin_unlock l Idle
  | _ => None
  end.

(** [nstack_socket], [nstack_epoll_create]: a new descriptor from the kernel, then [set_fd_status (FD_OPEN)] under the lock. *)
Definition open_step (l : fdl) (p : pc) : option (fdl * pc) :=
  match p with
  | OpenSocket => if kernel_fd l then None else Some (set_kernel true l, OpenLock)
  | OpenLock => spin_lock l OpenInc
  | OpenInc => Some (set_ref (fd_ref l + 1) l, OpenSet)
  | OpenSet => Some (set_status FD_OPEN l, OpenUnlock)
  | OpenUnlock => spin_unlock l Idle
  | _ => None
  end.

(** [release_fd] with [nstack_fd_free_with_kernel] and [nstack_reset_fd_local_lock_info]. *)
Definition release_step (l : fdl) (p : pc) : option (fdl * pc) :=
  match p with
  | RelLock => spin_lock l RelTest
  | RelTest => Some (l, if bool_decide (fd_status l ≠ FD_CLOSING) || (0 <? fd_ref l) then RelSkip else RelSet)
  | RelSet => Some (set_status FD_CLOSE l, RelFree)
  | RelFree => Some (l, RelRef)
  | RelRef => Some (set_ref 0 l, RelReinit)
  | RelReinit => Some (set_lock false l, RelStatus)
  | RelStatus => Some (set_status FD_CLOSE l, RelKernel)
  | RelKernel => Some (set_kernel false l, RelUnlock)
  | RelUnlock => spin_unlock l Idle
  | RelSkip => spin_unlock l Idle
  | _ => None
  end.

Definition thread_step (l : fdl) (p : pc) : option (fdl * pc) :=
  match p with
  | Idle => None
  | UseCheck | UseInc | UseTest | UseWork | UseDec => use_step l p
  | CtlInc | CtlLock | CtlValid | CtlTest | CtlWork _ | CtlUnlock | CtlDec => ctl_step l p
  | CloseCheck | CloseLock | CloseTest | CloseSet | CloseUnlock | CloseDec | CloseFail => close_step l p
  | OpenSocket | OpenLock | OpenInc | OpenSet | OpenUnlock => open_step l p
  | RelLock | RelTest | RelSet | RelFree | RelRef | RelReinit | RelStatus | RelKernel | RelUnlock | RelSkip => release_step l p
  end.

(** ** Threads *)

Inductive call := CallUse | CallCtl | CallClose | CallOpen.
Definition entry (c : call) : pc := match c with CallUse => UseCheck | CallCtl => CtlInc | CallClose => CloseCheck | CallOpen => OpenSocket end.

(** The scheduler lets an idle thread call a function, or a thread go one step further. *)
Inductive action := Start (i : nat) (c : call) | Go (i : nat).

Definition act (m : fdl * list pc) (a : action) : option (fdl * list pc) :=
  let '(l, ts) := m in
  match a with
  | Start i c => p ← ts !! i; if bool_decide (p = Idle) then Some (l, <[i := entry c]> ts) else None
  | Go i => p ← ts !! i; '(l, p) ← thread_step l p; Some (l, <[i := p]> ts)
  end.

Fixpoint exec (m : fdl * list pc) (acts : list action) : option (fdl * list pc) :=
  match acts with [] => Some m | a :: acts => m ← act m a; exec m acts end.

(** How often the descriptor is released in an execution. *)
Definition is_release (m : fdl * list pc) (a : action) : bool := match a with Go i => bool_decide (m.2 !! i = Some RelSet) | _ => false end.
Fixpoint releases (m : fdl * list pc) (acts : list action) : nat :=
  match acts with
  | [] => 0%nat
  | a :: acts => ((if is_release m a then 1 else 0) + match act m a with Some m => releases m acts | None => 0 end)%nat
  end.
