(* ===== verification/FdLockProps.v ===== *)
(** * Descriptors are released once and not while they are in use, as long as their number is not used again *)
From S2P Require Import Prelude.
From S2P Require Import FdLock.

(** ** Counting threads *)

Definition cnt (P : pc → bool) (ts : list pc) : Z := Z.of_nat (length (List.filter P ts)).

Lemma cnt_nonneg P ts : 0 <= cnt P ts.
Proof. unfold cnt. lia. Qed.

Lemma cnt_insert P ts i p q : ts !! i = Some p → cnt P (<[i := q]> ts) = cnt P ts - Z.b2z (P p) + Z.b2z (P q).
Proof.
  intros Hi. unfold cnt. rewrite <- (take_drop_middle ts i p Hi) at 2. rewrite insert_take_drop by (by apply lookup_lt_Some in Hi).
  rewrite !List.filter_app, !length_app. cbn. destruct (P p), (P q); cbn [length Z.b2z]; lia.
Qed.

Lemma cnt_elem P ts i p : ts !! i = Some p → P p = true → 1 <= cnt P ts.
Proof.
  intros Hi HP. unfold cnt. rewrite <- (take_drop_middle ts i p Hi), List.filter_app, length_app. cbn. rewrite HP. cbn. lia.
Qed.

Lemma cnt_le P Q ts : (∀ p, P p = true → Q p = true) → cnt P ts <= cnt Q ts.
Proof. intros HPQ. unfold cnt. induction ts as [|p ts IH]; [done|]. cbn. specialize (HPQ p). destruct (P p); [rewrite HPQ by done; cbn; lia|destruct (Q p); cbn; lia]. Qed.

Lemma cnt_le2 P Q R ts : (∀ p, P p = true → Q p = false ∧ R p = true) → (∀ p, Q p = true → R p = true) → cnt P ts + cnt Q ts <= cnt R ts.
Proof.
  intros HP HQ. unfold cnt. induction ts as [|p ts IH]; [done|]. cbn. specialize (HP p). specialize (HQ p).
  destruct (P p); [destruct HP as [-> ->]; [done|]; cbn; lia|]. destruct (Q p); [rewrite HQ by done; cbn; lia|destruct (R p); cbn; lia].
Qed.

Lemma cnt_zero P ts : (∀ p, p ∈ ts → P p = false) → cnt P ts = 0.
Proof. intros H. unfold cnt. induction ts as [|p ts IH]; [done|]. cbn. rewrite (H p) by (by left). apply IH. intros q Hq. apply H. by right. Qed.

(** ** Classes of threads *)

(** Holding a reference. *)
Definition held (p : pc) : bool := match p with UseTest | UseWork | UseDec | CtlLock | CtlValid | CtlTest | CtlWork _ | CtlUnlock | CtlDec => true | _ => false end.
(** Inside the lock, up to the release. *)
Definition crit (p : pc) : bool := match p with CtlValid | CtlTest | CtlWork _ | CtlUnlock | CloseTest | CloseSet | CloseUnlock | CloseFail | RelTest | RelSet | RelSkip => true | _ => false end.
(** At work on a descriptor found open. *)
Definition working (p : pc) : bool := match p with UseWork | CtlWork true => true | _ => false end.
Definition ctl_test (p : pc) : bool := match p with CtlTest => true | _ => false end.
(** The closing thread between its change of the status and its decrement. *)
Definition closer (p : pc) : bool := match p with CloseUnlock | CloseDec => true | _ => false end.
Definition setter (p : pc) : bool := match p with CloseSet => true | _ => false end.
Definition pending (p : pc) : bool := match p with RelLock | RelTest | RelSet => true | _ => false end.
Definition rel_set (p : pc) : bool := match p with RelSet => true | _ => false end.
Definition rel_skip (p : pc) : bool := match p with RelSkip => true | _ => false end.
(** Freeing what belongs to the descriptor. *)
Definition freeing (p : pc) : bool := match p with RelFree | RelRef | RelReinit | RelStatus | RelKernel | RelUnlock => true | _ => false end.
Definition opening (p : pc) : bool := match p with OpenSocket | OpenLock | OpenInc | OpenSet | OpenUnlock => true | _ => false end.

(** ** The invariant of one life of a descriptor *)

Definition good (m : fdl * list pc) : Prop :=
  let '(l, ts) := m in
  cnt opening ts = 0 ∧
  match fd_status l with
  | FD_OPEN => fd_ref l = 1 + cnt held ts ∧ cnt crit ts = Z.b2z (close_lock l) ∧ cnt closer ts = 0 ∧ cnt pending ts = 0 ∧ cnt rel_skip ts = 0 ∧ cnt freeing ts = 0
  | FD_CLOSING => fd_ref l = cnt closer ts + cnt held ts ∧ cnt crit ts = Z.b2z (close_lock l) ∧ cnt freeing ts = 0 ∧ cnt setter ts = 0 ∧ cnt ctl_test ts = 0 ∧
      (0 < cnt rel_set ts → cnt working ts = 0 ∧ cnt closer ts = 0) ∧ (fd_ref l = 0 → 0 < cnt pending ts)
  | FD_CLOSE => cnt freeing ts <= 1 ∧ cnt working ts = 0 ∧ cnt setter ts = 0 ∧ cnt ctl_test ts = 0 ∧ cnt rel_set ts = 0 ∧ cnt closer ts = 0
  end.

(** What holds of the numbers of threads in any case. *)
Record counts (ts : list pc) : Prop := {
  ct_held : 0 <= cnt held ts; ct_crit : 0 <= cnt crit ts; ct_closer : 0 <= cnt closer ts; ct_pending : 0 <= cnt pending ts; ct_freeing : 0 <= cnt freeing ts;
  ct_working : 0 <= cnt working ts <= cnt held ts; ct_setter : 0 <= cnt setter ts; ct_test : 0 <= cnt ctl_test ts;
  ct_disjoint : cnt setter ts + cnt ctl_test ts <= cnt crit ts; ct_rel : 0 <= cnt rel_set ts <= cnt crit ts; ct_rel_pending : cnt rel_set ts <= cnt pending ts; ct_skip : 0 <= cnt rel_skip ts; ct_open : 0 <= cnt opening ts
}.

Lemma counts_all ts : counts ts.
Proof.
  split; try apply cnt_nonneg; try (split; [apply cnt_nonneg|]); first [apply cnt_le2 | apply cnt_le]; intros []; cbn; repeat case_match; done.
Qed.

(** The number of threads of each class when thread [i] goes from [p] to [q]. *)
Lemma counts_move ts i p q : ts !! i = Some p → let ts' := <[i := q]> ts in
  (cnt held ts' = cnt held ts - Z.b2z (held p) + Z.b2z (held q) ∧ cnt crit ts' = cnt crit ts - Z.b2z (crit p) + Z.b2z (crit q) ∧
   cnt closer ts' = cnt closer ts - Z.b2z (closer p) + Z.b2z (closer q) ∧ cnt pending ts' = cnt pending ts - Z.b2z (pending p) + Z.b2z (pending q) ∧
   cnt freeing ts' = cnt freeing ts - Z.b2z (freeing p) + Z.b2z (freeing q) ∧ cnt working ts' = cnt working ts - Z.b2z (working p) + Z.b2z (working q)) ∧
  (cnt setter ts' = cnt setter ts - Z.b2z (setter p) + Z.b2z (setter q) ∧ cnt ctl_test ts' = cnt ctl_test ts - Z.b2z (ctl_test p) + Z.b2z (ctl_test q) ∧
   cnt rel_set ts' = cnt rel_set ts - Z.b2z (rel_set p) + Z.b2z (rel_set q) ∧ cnt rel_skip ts' = cnt rel_skip ts - Z.b2z (rel_skip p) + Z.b2z (rel_skip q) ∧
   cnt opening ts' = cnt opening ts - Z.b2z (opening p) + Z.b2z (opening q)).
Proof. intros Hi. cbn. repeat split; by apply cnt_insert. Qed.

(** A thread that is in a class counts for it. *)
Lemma counts_here ts i p : ts !! i = Some p →
  Z.b2z (held p) <= cnt held ts ∧ Z.b2z (crit p) <= cnt crit ts ∧ Z.b2z (closer p) <= cnt closer ts ∧ Z.b2z (pending p) <= cnt pending ts ∧ Z.b2z (freeing p) <= cnt freeing ts ∧ Z.b2z (working p) <= cnt working ts ∧
  Z.b2z (setter p) <= cnt setter ts ∧ Z.b2z (ctl_test p) <= cnt ctl_test ts ∧ Z.b2z (rel_set p) <= cnt rel_set ts ∧ Z.b2z (rel_skip p) <= cnt rel_skip ts ∧ Z.b2z (opening p) <= cnt opening ts.
Proof.
  intros Hi. assert (Hb : ∀ P, Z.b2z (P p) <= cnt P ts) by (intros P; destruct (P p) eqn:E; [by apply (cnt_elem P ts i p)|apply cnt_nonneg]). repeat split; apply Hb.
Qed.

Lemma go_good l ts i p l' q : good (l, ts) → ts !! i = Some p → thread_step l p = Some (l', q) → good (l', <[i := q]> ts).
Proof.
  intros Hg Hi Hs. pose proof (counts_all ts) as [? ? ? ? ? ? ? ? ? ? ? ? ?]. pose proof (counts_move ts i p q Hi) as Hm. cbv zeta in Hm. pose proof (counts_here ts i p Hi) as Hh.
  destruct l as [ref [] st k]; unfold good in *; set (ts' := <[i := q]> ts) in *; clearbody ts';
  destruct p; cbn in Hs; unfold spin_lock, spin_unlock, dec_release, valid_inf in Hs; cbn in Hs;
    destruct st; cbn in *; repeat case_match; simplify_eq; cbn in *; rewrite ?Z.ltb_lt, ?Z.ltb_ge, ?Z.eqb_eq, ?Z.eqb_neq in *; try lia.
  rewrite orb_true_iff, bool_decide_eq_true, Z.ltb_lt in H. destruct H; [done|lia].
Qed.

Definition not_open (a : action) : Prop := match a with Start _ CallOpen => False | _ => True end.

Lemma act_good m a m' : good m → not_open a → act m a = Some m' → good m' ∧
  ((if is_release m a then 1 else 0) + (if bool_decide (fd_status m.1 = FD_CLOSE) then 1 else 0) = (if bool_decide (fd_status m'.1 = FD_CLOSE) then 1 else 0))%nat.
Proof.
  destruct m as [l ts]. intros Hg Hn Ha. destruct a as [i c|i]; cbn in Ha; (destruct (ts !! i) as [p|] eqn:Hi; [|done]); cbn in Ha.
  - case_bool_decide; [|done]. subst p. simplify_eq. split; [|done]. pose proof (counts_move ts i Idle (entry c) Hi) as Hm. cbv zeta in Hm.
    unfold good in *. set (ts' := <[i := entry c]> ts) in *. clearbody ts'. destruct c; cbn in *; try done; destruct (fd_status l); lia.
  - destruct (thread_step l p) as [[l' q]|] eqn:Hs; [|done]. cbn in Ha. simplify_eq. split; [by apply (go_good l ts i p)|].
    cbn [is_release fst snd]. rewrite Hi. pose proof (counts_here ts i p Hi) as Hh. unfold good in Hg. destruct l as [ref lock st k].
    destruct p; cbn in Hs; unfold spin_lock, spin_unlock, dec_release, valid_inf in Hs; cbn in Hs; destruct st; cbn in *; repeat case_match; simplify_eq; cbn in *; (done || lia).
Qed.

Lemma exec_good m acts m' : good m → Forall not_open acts → exec m acts = Some m' → good m' ∧
  (releases m acts + (if bool_decide (fd_status m.1 = FD_CLOSE) then 1 else 0) = (if bool_decide (fd_status m'.1 = FD_CLOSE) then 1 else 0))%nat.
Proof.
  revert m. induction acts as [|a acts IH]; intros m Hg Hn He; [cbn in He; by simplify_eq|]. apply Forall_cons_1 in Hn as [Ha Hn]. cbn in He.
  destruct (act m a) as [m1|] eqn:E; [|done]. cbn in He. destruct (act_good m a m1 Hg Ha E) as [Hg1 Hr1]. destruct (IH m1 Hg1 Hn He) as [Hg' Hr]. split; [done|].
  cbn [releases]. rewrite E. lia.
Qed.

(** A descriptor that has just been opened, and threads that do nothing. *)
Definition opened_fd (n : nat) : fdl * list pc := (mk_fdl 1 false FD_OPEN true, replicate n Idle).

Lemma opened_good n : good (opened_fd n).
Proof. unfold good, opened_fd. cbn. rewrite !cnt_zero; [done|..]; by intros p [-> _]%elem_of_replicate. Qed.

Definition in_use (ts : list pc) : Prop := ∃ i p, ts !! i = Some p ∧ working p = true.
Definition being_freed (ts : list pc) : Prop := ∃ i p, ts !! i = Some p ∧ freeing p = true.

(** C11: The life of a descriptor: in every interleaving of any number of threads that use it, register it and close it, any number of times, it is not freed while an operation that
    found it open is at work, it is freed at most once, and once it has been closed and no thread is inside a call it has been freed. *)
Theorem fd_released_once n acts l ts : Forall not_open acts → exec (opened_fd n) acts = Some (l, ts) →
  ¬ (in_use ts ∧ being_freed ts) ∧ (releases (opened_fd n) acts <= 1)%nat ∧
  (Forall (λ p, p = Idle) ts → fd_status l ≠ FD_OPEN → releases (opened_fd n) acts = 1%nat).
Proof.
  intros Hn He. destruct (exec_good _ _ _ (opened_good n) Hn He) as [Hg Hr]. rewrite bool_decide_eq_false_2, Nat.add_0_r in Hr by done. cbn [fst] in Hr. split; [|split].
  - intros [(i & p & Hi & Hp) (j & q & Hj & Hq)]. pose proof (cnt_elem working ts i p Hi Hp). pose proof (cnt_elem freeing ts j q Hj Hq). unfold good in Hg. destruct (fd_status l); lia.
  - case_bool_decide; lia.
  - intros Hidle Ho. rewrite Hr. rewrite bool_decide_eq_true_2; [done|]. assert (Hz : ∀ P, P Idle = false → cnt P ts = 0).
    { intros P HP. apply cnt_zero. intros p Hp. rewrite Forall_forall in Hidle. by rewrite (Hidle p Hp). }
    unfold good in Hg. destruct (fd_status l); [done|done|]. rewrite !Hz in Hg by done. lia.
Qed.

Definition close_in_use : list action := Start 0 CallUse :: Start 1 CallClose :: replicate 3 (Go 0) ++ replicate 6 (Go 1) ++ replicate 11 (Go 0).

Lemma fd_released_once_witness : exec (opened_fd 2) close_in_use = Some (mk_fdl 0 false FD_CLOSE false, [Idle; Idle]) ∧ releases (opened_fd 2) close_in_use = 1%nat.
Proof.
  split; [by vm_compute|]. apply (fd_released_once 2 close_in_use (mk_fdl 0 false FD_CLOSE false) [Idle; Idle]); [by repeat constructor|by vm_compute|by repeat constructor|done].
Defined.

(** ** A number that is used again *)

(** Thread 0 has found the descriptor open when thread 1 closes it. *)
Definition late_reference : list action :=
  [Start 0 CallUse; Go 0; Start 1 CallClose] ++ replicate 6 (Go 1) ++ replicate 4 (Go 1) ++ [Go 0; Go 1; Go 0; Go 0] ++ replicate 4 (Go 1).
Definition reopen (i : nat) : list action := Start i CallOpen :: replicate 5 (Go i).

(** C38: When the number of a descriptor is used again the protocol fails: a thread that found the first descriptor open and takes its reference while it is released drives the counter
    below zero, because the release sets the counter to zero; after the next socket call the counter is one too low for the life of the new descriptor, and closing it frees it while another thread works on it. *)
Theorem reused_fd_freed_in_use : ∃ acts l ts, exec (opened_fd 3) (late_reference ++ reopen 0 ++ acts) = Some (l, ts) ∧ in_use ts ∧ being_freed ts.
Proof.
  exists ([Start 2 CallUse; Go 2; Go 2; Go 2; Start 0 CallClose] ++ replicate 9 (Go 0)). eexists _, _. split; [by vm_compute|].
  split; [by exists 2%nat, UseWork|by exists 0%nat, RelFree].
Qed.

(** The release initialises the lock it holds: a thread that opens the same number can take the lock before the release gives it back, and then a third thread is let in. *)
Lemma reused_fd_lock_broken : ∃ acts l ts, exec (opened_fd 3) acts = Some (l, ts) ∧ ts !! 1%nat = Some OpenInc ∧ ts !! 2%nat = Some CtlValid.
Proof.
  exists ([Start 0 CallClose] ++ replicate 14 (Go 0) ++ [Start 1 CallOpen; Go 1; Go 1; Go 0; Start 2 CallCtl; Go 2; Go 2]). eexists _, _. split; [by vm_compute|done].
Qed.
