(* ===== verification/LwipRbTree.v ===== *)
(** * The red-black tree of the lwIP timers (src/stacks/lwip_stack/lwip_src/common/rb_tree.c and rb_tree.h)

    A node keeps the address of its parent and its colour in one word: addresses are multiples of 4, bit 0 is the colour.
    Here the nodes have their words as the code has them, a null pointer is 0, and the macros of the header are bit
    operations on the words; an access through a null or dangling pointer makes the operation [None].  As in [RbTree] the
    branches that exchange left and right are one definition with the side as a parameter. *)
From S2P Require Import Prelude.
From S2P Require Import RbTree.

Definition RB_RED : Z := 0.
Definition RB_BLACK : Z := 1.

(** [struct rb_node], and the nodes in memory with [root->rb_node]. *)
Record lw_node := mk_ln { rb_parent_color : Z; ln_right : Z; ln_left : Z }.
Record lw_tree := mk_lt { ln_nodes : gmap Z lw_node; ln_root : Z }.

Definition node_parent (n : lw_node) : Z := Z.land (rb_parent_color n) (Z.lnot 3).
Definition rb_color (n : lw_node) : Z := Z.land (rb_parent_color n) 1.

Definition set_word (w : Z) (n : lw_node) : lw_node := mk_ln w (ln_right n) (ln_left n).
Definition rb_set_red (n : lw_node) : lw_node := set_word (Z.land (rb_parent_color n) (Z.lnot 1)) n.
Definition rb_set_black (n : lw_node) : lw_node := set_word (Z.lor (rb_parent_color n) 1) n.
Definition rb_set_color (color2 : Z) (n : lw_node) : lw_node := set_word (Z.lor (Z.land (rb_parent_color n) (Z.lnot 1)) color2) n.
Definition rb_set_parent (pa : Z) (n : lw_node) : lw_node := set_word (Z.lor (Z.land (rb_parent_color n) 3) pa) n.

Definition ln_child (d : side) (n : lw_node) : Z := match d with L => ln_left n | R => ln_right n end.
Definition ln_set_child (d : side) (v : Z) (n : lw_node) : lw_node :=
  match d with L => mk_ln (rb_parent_color n) (ln_right n) v | R => mk_ln (rb_parent_color n) v (ln_left n) end.

Definition ln_get {A} (f : lw_node → A) (s : lw_tree) (x : Z) : option A := n ← ln_nodes s !! x; Some (f n).
Definition ln_upd (f : lw_node → lw_node) (s : lw_tree) (x : Z) : option lw_tree :=
  n ← ln_nodes s !! x; Some (mk_lt (<[x := f n]> (ln_nodes s)) (ln_root s)).
Definition ln_set_root (v : Z) (s : lw_tree) : lw_tree := mk_lt (ln_nodes s) v.

(** The place that pointed to [old] points to [v]. *)
Definition ln_replace (d : side) (s : lw_tree) (parent old v : Z) : option lw_tree :=
  if parent =? 0 then Some (ln_set_root v s)
  else c ← ln_get (ln_child d) s parent; ln_upd (ln_set_child (if c =? old then d else flip d) v) s parent.

(** ** Rotation towards the side [d] *)

Definition lw_rotate (d : side) (s : lw_tree) (node : Z) : option lw_tree :=
  other ← ln_get (ln_child (flip d)) s node;
  parent ← ln_get node_parent s node;
  b ← ln_get (ln_child d) s other;
  s ← ln_upd (ln_set_child (flip d) b) s node;
  s ← (if b =? 0 then Some s else b ← ln_get (ln_child d) s other; ln_upd (rb_set_parent node) s b);
  s ← ln_upd (ln_set_child d node) s other;
  s ← ln_upd (rb_set_parent parent) s other;
  s ← ln_replace d s parent node other;
  ln_upd (rb_set_parent other) s node.

Definition lw_rotate_left : lw_tree → Z → option lw_tree := lw_rotate L.
Definition lw_rotate_right : lw_tree → Z → option lw_tree := lw_rotate R.

(** ** Insertion *)

Definition rb_link_node (s : lw_tree) (node1 parent1 : Z) (rb_link1 : rb_link) : option lw_tree :=
  s ← ln_upd (ln_set_child R 0) s node1;
  s ← ln_upd (ln_set_child L 0) s node1;
  s ← ln_upd (set_word parent1) s node1;
  match rb_link1 with
  | Link_root => Some (ln_set_root node1 s)
  | Link_child d x => ln_upd (ln_set_child d node1) s x
  end.

(** The branch for a parent that is the [d] child of the grandparent: the next node of the loop. *)
Definition lw_insert_side (d : side) (s : lw_tree) (node parent gparent : Z) : option (lw_tree * Z) :=
  uncle ← ln_get (ln_child (flip d)) s gparent;
  red ← (if uncle =? 0 then Some false else c ← ln_get rb_color s uncle; Some (c =? RB_RED));
  if (red : bool) then
    s ← ln_upd rb_set_black s uncle;
    s ← ln_upd rb_set_black s parent;
    s ← ln_upd rb_set_red s gparent;
    Some (s, gparent)
  else
    c ← ln_get (ln_child (flip d)) s parent;
    '(s, node, parent) ← (if c =? node then s ← lw_rotate d s parent; Some (s, parent, node) else Some (s, node, parent));
    s ← ln_upd rb_set_black s parent;
    s ← ln_upd rb_set_red s gparent;
    s ← lw_rotate (flip d) s gparent;
    Some (s, node).

Fixpoint lw_insert_loop (fuel : nat) (s : lw_tree) (node : Z) : option lw_tree :=
  parent ← ln_get node_parent s node;
  if parent =? 0 then Some s
  else
    c ← ln_get rb_color s parent;
    if c =? RB_RED then
      match fuel with
      | O => None
      | S fuel =>
          gparent ← ln_get node_parent s parent;
          l ← ln_get ln_left s gparent;
          '(s, node) ← (if parent =? l then lw_insert_side L s node parent gparent else lw_insert_side R s node parent gparent);
          lw_insert_loop fuel s node
      end
    else Some s.

Definition rb_insert_color (fuel : nat) (s : lw_tree) (node : Z) : option lw_tree :=
  if node =? 0 then Some s
  else s ← lw_insert_loop fuel s node; ln_upd rb_set_black s (ln_root s).

(** ** Erasure *)

(** [!p || rb_is_black (p)] *)
Definition ln_black (s : lw_tree) (p : Z) : option bool :=
  if p =? 0 then Some true else c ← ln_get rb_color s p; Some (negb (c =? 0)).

(** The branch for a node that is the [d] child of [parent], first with a black sibling [other], then with any: the next node
    and parent, or the node the loop ends with. *)
Definition lw_erase_black (d : side) (s : lw_tree) (parent other : Z) : option (lw_tree * (Z * Z + Z)) :=
  l ← ln_get ln_left s other; bl ← ln_black s l;
  both ← (if (bl : bool) then r ← ln_get ln_right s other; ln_black s r else Some false);
  if (both : bool) then
    s ← ln_upd rb_set_red s other;
    p ← ln_get node_parent s parent;
    Some (s, inl (parent, p))
  else
    far ← ln_get (ln_child (flip d)) s other; fb ← ln_black s far;
    '(s, other) ← (if (fb : bool) then
                     near ← ln_get (ln_child d) s other;
                     s ← ln_upd rb_set_black s near;
                     s ← ln_upd rb_set_red s other;
                     s ← lw_rotate (flip d) s other;
                     other ← ln_get (ln_child (flip d)) s parent;
                     Some (s, other)
                   else Some (s, other));
    c ← ln_get rb_color s parent; s ← ln_upd (rb_set_color c) s other;
    s ← ln_upd rb_set_black s parent;
    far ← ln_get (ln_child (flip d)) s other; s ← ln_upd rb_set_black s far;
    s ← lw_rotate d s parent;
    Some (s, inr (ln_root s)).

Definition lw_erase_side (d : side) (s : lw_tree) (parent : Z) : option (lw_tree * (Z * Z + Z)) :=
  other ← ln_get (ln_child (flip d)) s parent;
  c ← ln_get rb_color s other;
  '(s, other) ← (if c =? RB_RED then
                   s ← ln_upd rb_set_black s other;
                   s ← ln_upd rb_set_red s parent;
                   s ← lw_rotate d s parent;
                   other ← ln_get (ln_child (flip d)) s parent;
                   Some (s, other)
                 else Some (s, other));
  lw_erase_black d s parent other.

Fixpoint lw_erase_loop (fuel : nat) (s : lw_tree) (node parent : Z) : option (lw_tree * Z) :=
  b ← ln_black s node;
  if (b : bool) && negb (node =? ln_root s) then
    if parent =? 0 then Some (s, node)
    else
      match fuel with
      | O => None
      | S fuel =>
          l ← ln_get ln_left s parent;
          '(s, r) ← (if l =? node then lw_erase_side L s parent else lw_erase_side R s parent);
          match r with
          | inl (node, parent) => lw_erase_loop fuel s node parent
          | inr node => Some (s, node)
          end
      end
  else Some (s, node).

Definition rb_erase_color (fuel : nat) (s : lw_tree) (node parent : Z) : option lw_tree :=
  '(s, node) ← lw_erase_loop fuel s node parent;
  if node =? 0 then Some s else ln_upd rb_set_black s node.

Fixpoint ln_leftmost (fuel : nat) (s : lw_tree) (node : Z) : option Z :=
  left ← ln_get ln_left s node;
  if left =? 0 then Some node
  else match fuel with O => None | S fuel => ln_leftmost fuel s left end.

(** A node with two children: its successor [node] takes its place.  The results: the child that moved up, its parent and the
    colour that went. *)
Definition lw_erase_swap (fuel : nat) (s : lw_tree) (old right : Z) : option (lw_tree * (Z * Z * Z)) :=
  node ← ln_leftmost fuel s right;
  p ← ln_get node_parent s old;
  s ← ln_replace L s p old node;
  child ← ln_get ln_right s node;
  parent ← ln_get node_parent s node;
  color ← ln_get rb_color s node;
  '(s, parent) ← (if parent =? old then Some (s, node)
                  else
                    s ← (if child =? 0 then Some s else ln_upd (rb_set_parent parent) s child);
                    s ← ln_upd (ln_set_child L child) s parent;
                    r ← ln_get ln_right s old; s ← ln_upd (ln_set_child R r) s node;
                    r ← ln_get ln_right s old; s ← ln_upd (rb_set_parent node) s r;
                    Some (s, parent));
  w ← ln_get rb_parent_color s old; s ← ln_upd (set_word w) s node;
  l ← ln_get ln_left s old; s ← ln_upd (ln_set_child L l) s node;
  l ← ln_get ln_left s old; s ← ln_upd (rb_set_parent node) s l;
  Some (s, (child, parent, color)).

(** A node with at most one child. *)
Definition lw_erase_cut (s : lw_tree) (node child : Z) : option (lw_tree * (Z * Z * Z)) :=
  parent ← ln_get node_parent s node;
  color ← ln_get rb_color s node;
  s ← (if child =? 0 then Some s else ln_upd (rb_set_parent parent) s child);
  s ← ln_replace L s parent node child;
  Some (s, (child, parent, color)).

Definition rb_erase (fuel : nat) (s : lw_tree) (node : Z) : option lw_tree :=
  if node =? 0 then Some s
  else
    l ← ln_get ln_left s node; r ← ln_get ln_right s node;
    '(s, (child, parent, color)) ←
      (if l =? 0 then lw_erase_cut s node r
       else if r =? 0 then lw_erase_cut s node l
       else lw_erase_swap fuel s node r);
    if color =? RB_BLACK then rb_erase_color fuel s child parent else Some s.

(** ** The next node of a walk in order *)

(** The loop that climbs while [node] is a right child. *)
Fixpoint lw_climb (fuel : nat) (s : lw_tree) (node : Z) : option Z :=
  parent ← ln_get node_parent s node;
  if parent =? 0 then Some parent
  else
    r ← ln_get ln_right s parent;
    if node =? r then match fuel with O => None | S fuel => lw_climb fuel s parent end
    else Some parent.

Definition rb_next (fuel : nat) (s : lw_tree) (node : Z) : option Z :=
  if node =? 0 then Some 0
  else
    p ← ln_get node_parent s node;
    if p =? node then Some 0
    else
      r ← ln_get ln_right s node;
      if r =? 0 then lw_climb fuel s node else ln_leftmost fuel s r.
