(* ===== verification/LwipRbSim.v ===== *)
(** * The tree with packed words does what the tree with separate fields does

    [unpack] reads a tree of [LwipRbTree] as a tree of [RbTree]: the parent and the colour taken out of the word, 0 as the
    null pointer.  When addresses are multiples of 4, each operation of rb_tree.c, run on a well formed tree, is defined where the one of
    eprb_tree.c is and their results agree.  The two sources store in a different order and reload different fields;
    where that matters the proof uses that the memory holds a tree. *)
From S2P Require Import Prelude.
From S2P Require Import RbTree.
From S2P Require Import RbTreeProofs.
From S2P Require Import RbTreeInsert.
From S2P Require Import RbTreeErase.
From S2P Require Import RbTreeProps.
From S2P Require Import RbTreeLocal.
From S2P Require Import LwipRbTree.

Definition ptr_of (v : Z) : option Z := if v =? 0 then None else Some v.
Definition aligned (v : Z) : Prop := Z.land v 3 = 0.

Definition unpack_node (n : lw_node) : ep_rb_node :=
  mk_rb (rb_color n) (ptr_of (node_parent n)) (ptr_of (ln_right n)) (ptr_of (ln_left n)).
Definition unpack (p : lw_tree) : rb_tree := mk_rbt (unpack_node <$> ln_nodes p) (ptr_of (ln_root p)).

Record lw_wf (p : lw_tree) : Prop := {
  wf_key x n : ln_nodes p !! x = Some n → x ≠ 0 ∧ aligned x;
  wf_ptr x n d : ln_nodes p !! x = Some n → aligned (ln_child d n);
  wf_root : aligned (ln_root p)
}.

(** ** The words *)

Lemma aligned_bits v : aligned v → Z.testbit v 0 = false ∧ Z.testbit v 1 = false.
Proof.
  intros Hv. pose proof (f_equal (λ z, Z.testbit z 0) Hv) as H0. pose proof (f_equal (λ z, Z.testbit z 1) Hv) as H1.
  cbn beta in H0, H1. rewrite Z.land_spec, Z.bits_0, andb_comm in H0, H1. done.
Qed.

Lemma aligned_0 : aligned 0.
Proof. done. Qed.

Lemma word_mask w k : 0 <= k → Z.testbit (Z.land w (Z.lnot 3)) k = Z.testbit w k && (2 <=? k).
Proof.
  intros Hk. rewrite Z.land_spec, Z.lnot_spec by done. f_equal. destruct (Z.leb_spec 2 k).
  - rewrite (Z.bits_above_log2 3 k); [done|done|]. cbn. lia.
  - assert (k = 0 ∨ k = 1) as [-> | ->] by lia; done.
Qed.

Lemma mask3 k : 0 <= k → Z.testbit 3 k = negb (2 <=? k).
Proof. intros Hk. destruct (Z.leb_spec 2 k); [rewrite (Z.bits_above_log2 3 k); [done|done|]; cbn; lia|]. assert (k = 0 ∨ k = 1) as [-> | ->] by lia; done. Qed.
Lemma mask1 k : 0 <= k → Z.testbit 1 k = (k =? 0).
Proof. intros Hk. destruct (Z.eqb_spec k 0) as [->|]; [done|]. rewrite (Z.bits_above_log2 1 k); [done|done|]. cbn. lia. Qed.
Lemma mask_not1 k : 0 <= k → Z.testbit (Z.lnot 1) k = negb (k =? 0).
Proof. intros Hk. rewrite Z.lnot_spec, mask1 by done. done. Qed.

Lemma aligned_low v k : aligned v → 0 <= k → (2 <=? k) = false → Z.testbit v k = false.
Proof. intros [H0 H1]%aligned_bits Hk Hl%Z.leb_gt. assert (k = 0 ∨ k = 1) as [-> | ->] by lia; done. Qed.

Ltac word :=
  apply Z.bits_inj'; intros k Hk;
  repeat first [rewrite word_mask by done | rewrite Z.lor_spec | rewrite Z.land_spec | rewrite mask3 by done | rewrite mask1 by done | rewrite mask_not1 by done].

Lemma parent_set_parent w v : aligned v → Z.land (Z.lor (Z.land w 3) v) (Z.lnot 3) = v.
Proof.
  intros Hv. word. destruct (2 <=? k) eqn:E; cbn; [by rewrite !andb_false_r, andb_true_r|]. rewrite andb_false_r. symmetry. by apply aligned_low.
Qed.

Lemma color_set_parent w v : aligned v → Z.land (Z.lor (Z.land w 3) v) 1 = Z.land w 1.
Proof.
  intros Hv. word. destruct (Z.eqb_spec k 0) as [->|]; [|by rewrite !andb_false_r].
  rewrite (aligned_low v 0) by done. cbn. by rewrite !andb_true_r, orb_false_r.
Qed.

Lemma parent_set_bit w c : c = 0 ∨ c = 1 → Z.land (Z.lor (Z.land w (Z.lnot 1)) c) (Z.lnot 3) = Z.land w (Z.lnot 3).
Proof.
  intros Hc. word. destruct (2 <=? k) eqn:E; [|by rewrite !andb_false_r]. apply Z.leb_le in E.
  assert (Z.testbit c k = false) as -> by (destruct Hc as [-> | ->]; [apply Z.bits_0|rewrite mask1 by done; apply Z.eqb_neq; lia]).
  assert ((k =? 0) = false) as -> by (apply Z.eqb_neq; lia). cbn. by rewrite !andb_true_r, orb_false_r.
Qed.

Lemma color_set_bit w c : c = 0 ∨ c = 1 → Z.land (Z.lor (Z.land w (Z.lnot 1)) c) 1 = c.
Proof.
  intros Hc. word. destruct (Z.eqb_spec k 0) as [->|Hk0].
  - cbn. rewrite andb_false_r, andb_true_r. cbn. done.
  - rewrite andb_false_r. destruct Hc as [-> | ->]; [by rewrite Z.bits_0|]. rewrite mask1 by done. symmetry. by apply Z.eqb_neq.
Qed.

Lemma rb_set_red_eq n : rb_set_red n = rb_set_color 0 n.
Proof. unfold rb_set_red, rb_set_color. by rewrite Z.lor_0_r. Qed.

Lemma rb_set_black_eq n : rb_set_black n = rb_set_color 1 n.
Proof.
  unfold rb_set_black, rb_set_color. f_equal. word. destruct (k =? 0); cbn; [by rewrite !orb_true_r|by rewrite andb_true_r].
Qed.

Lemma rb_color_01 n : rb_color n = 0 ∨ rb_color n = 1.
Proof.
  unfold rb_color. pose proof (Z.land_ones (rb_parent_color n) 1 ltac:(lia)) as E. change (Z.ones 1) with 1 in E. rewrite E.
  change (2 ^ 1) with 2. pose proof (Z.mod_pos_bound (rb_parent_color n) 2 ltac:(lia)). lia.
Qed.

Lemma aligned_parent n : aligned (node_parent n).
Proof. unfold aligned, node_parent. word. rewrite Z.bits_0. destruct (2 <=? k); cbn; by rewrite ?andb_false_r. Qed.

(** ** Loads and stores *)

Lemma unpack_set_child d v n : unpack_node (ln_set_child d v n) = set_child d (ptr_of v) (unpack_node n).
Proof. by destruct d. Qed.
Lemma unpack_set_parent v n : aligned v → unpack_node (rb_set_parent v n) = set_parent (ptr_of v) (unpack_node n).
Proof. intros Hv. unfold unpack_node, node_parent, rb_color. cbn. by rewrite parent_set_parent, color_set_parent. Qed.
Lemma unpack_set_color c n : c = 0 ∨ c = 1 → unpack_node (rb_set_color c n) = set_color c (unpack_node n).
Proof. intros Hc. unfold unpack_node, node_parent, rb_color. cbn. by rewrite parent_set_bit, color_set_bit. Qed.

Lemma unpack_get {A B} (f : ep_rb_node → A) (g : lw_node → B) (h : B → A) p x : (∀ n, f (unpack_node n) = h (g n)) →
  rb_get f (unpack p) x = h <$> ln_get g p x.
Proof. intros Hf. unfold rb_get, ln_get. cbn. rewrite lookup_fmap. destruct (ln_nodes p !! x) as [n|]; cbn; [by rewrite Hf|done]. Qed.

Lemma unpack_upd f g p x : (∀ n, unpack_node (g n) = f (unpack_node n)) → rb_upd f (unpack p) x = unpack <$> ln_upd g p x.
Proof.
  intros Hf. unfold rb_upd, ln_upd. cbn. rewrite lookup_fmap. destruct (ln_nodes p !! x) as [n|]; cbn; [|done].
  unfold unpack. cbn. by rewrite fmap_insert, Hf.
Qed.

Lemma unpack_child d n : child d (unpack_node n) = ptr_of (ln_child d n).
Proof. by destruct d. Qed.

(** Stores that keep the memory well formed. *)
Definition keeps (g : lw_node → lw_node) : Prop := ∀ n d, aligned (ln_child d n) → aligned (ln_child d (g n)).

Lemma keeps_word f : keeps (λ n, set_word (f n) n).
Proof. by intros n []. Qed.
Lemma keeps_child d v : aligned v → keeps (ln_set_child d v).
Proof. intros Hv n d'. by destruct d, d'. Qed.

Lemma wf_upd g p x p' : keeps g → lw_wf p → ln_upd g p x = Some p' → lw_wf p'.
Proof.
  intros Hg [Hk Hp Hr]. unfold ln_upd. destruct (ln_nodes p !! x) as [n|] eqn:Hx; [|done]. intros [= <-]. split; cbn; [| |done].
  - intros y m. destruct (decide (y = x)) as [->|Hne]; [intros _; by eapply Hk|]. rewrite lookup_insert_ne by done. apply Hk.
  - intros y m d. destruct (decide (y = x)) as [->|Hne]; [|rewrite lookup_insert_ne by done; apply Hp].
    rewrite lookup_insert_eq. intros [= <-]. apply Hg. by eapply Hp.
Qed.

Lemma wf_set_root p v : lw_wf p → aligned v → lw_wf (ln_set_root v p).
Proof. intros [Hk Hp Hr] Hv. by split. Qed.

(** [psim s p]: the packed memory [p] reads as [s]. *)
Definition psim (s : rb_tree) (p : lw_tree) : Prop := s = unpack p ∧ lw_wf p.
Definition psimx {A B} (R : A → B → Prop) (a : rb_tree * A) (b : lw_tree * B) : Prop := psim a.1 b.1 ∧ R a.2 b.2.
(** A pointer that may be null, and one that is not. *)
Definition pval (o : option Z) (v : Z) : Prop := o = ptr_of v ∧ aligned v.
Definition addr (x v : Z) : Prop := x = v ∧ v ≠ 0 ∧ aligned v.

Lemma pval_some x v : pval (Some x) v → addr x v.
Proof. intros [Ho Hv]. unfold ptr_of in Ho. destruct (Z.eqb_spec v 0); [done|]. injection Ho as ->. done. Qed.
Lemma pval_none v : pval None v → v = 0.
Proof. intros [Ho Hv]. unfold ptr_of in Ho. by destruct (Z.eqb_spec v 0). Qed.
Lemma addr_pval x v : addr x v → pval (Some x) v.
Proof. intros (-> & Hv & Ha). split; [|done]. unfold ptr_of. by destruct (Z.eqb_spec v 0). Qed.
Lemma pval_0 : pval None 0.
Proof. done. Qed.

(** The pointers in a well formed memory. *)
Lemma ptr_of_inj v w : ptr_of v = ptr_of w → v = w.
Proof. unfold ptr_of. destruct (Z.eqb_spec v 0), (Z.eqb_spec w 0); congruence. Qed.
Lemma pval_eqb o v o' v' : pval o v → pval o' v' → (v =? v') = bool_decide (o = o').
Proof.
  intros [-> _] [-> _]. destruct (Z.eqb_spec v v') as [->|Hne]; [by rewrite bool_decide_true|].
  rewrite bool_decide_false; [done|]. by intros ?%ptr_of_inj.
Qed.

Lemma sim_child d s p x : psim s p → orel pval (rb_get (child d) s x) (ln_get (ln_child d) p x).
Proof.
  intros [-> Hwf] o. rewrite (unpack_get _ (ln_child d) ptr_of) by apply unpack_child. unfold ln_get.
  destruct (ln_nodes p !! x) as [n|] eqn:Hx; [|done]. intros [= <-]. eexists. split; [done|]. split; [done|]. by eapply wf_ptr.
Qed.
Lemma sim_left s p x : psim s p → orel pval (rb_get rb_left s x) (ln_get ln_left p x).
Proof. apply (sim_child L). Qed.
Lemma sim_right s p x : psim s p → orel pval (rb_get rb_right s x) (ln_get ln_right p x).
Proof. apply (sim_child R). Qed.
Lemma sim_parent s p x : psim s p → orel pval (rb_get rb_parent s x) (ln_get node_parent p x).
Proof.
  intros [-> Hwf] o. rewrite (unpack_get _ node_parent ptr_of) by done. unfold ln_get.
  destruct (ln_nodes p !! x) as [n|] eqn:Hx; [|done]. intros [= <-]. eexists. split; [done|]. split; [done|]. apply aligned_parent.
Qed.
Definition bitval (c c' : Z) : Prop := c = c' ∧ (c' = 0 ∨ c' = 1).
Lemma sim_color s p x : psim s p → orel bitval (rb_get color s x) (ln_get rb_color p x).
Proof.
  intros [-> Hwf] o. rewrite (unpack_get _ rb_color id) by done. unfold ln_get.
  destruct (ln_nodes p !! x) as [n|] eqn:Hx; [|done]. intros [= <-]. eexists. split; [done|]. split; [done|]. apply rb_color_01.
Qed.

Lemma sim_upd f g s p x : keeps g → (∀ n, unpack_node (g n) = f (unpack_node n)) → psim s p → orel psim (rb_upd f s x) (ln_upd g p x).
Proof.
  intros Hg Hf [-> Hwf] s'. rewrite (unpack_upd f g) by done. destruct (ln_upd g p x) as [p'|] eqn:E; [|done]. intros [= <-].
  eexists. split; [done|]. split; [done|]. by eapply wf_upd.
Qed.

Lemma sim_set_child d s p x o v : pval o v → psim s p → orel psim (rb_upd (set_child d o) s x) (ln_upd (ln_set_child d v) p x).
Proof. intros [-> Hv]. apply sim_upd; [by apply keeps_child|]. apply unpack_set_child. Qed.
Lemma sim_set_parent s p x o v : pval o v → psim s p → orel psim (rb_upd (set_parent o) s x) (ln_upd (rb_set_parent v) p x).
Proof. intros [-> Hv]. apply sim_upd; [apply (keeps_word (λ n, _))|]. intros n. by apply unpack_set_parent. Qed.
Lemma sim_set_color s p x c c' : bitval c c' → psim s p → orel psim (rb_upd (set_color c) s x) (ln_upd (rb_set_color c') p x).
Proof. intros [-> Hc]. apply sim_upd; [apply (keeps_word (λ n, _))|]. intros n. by apply unpack_set_color. Qed.
Lemma sim_red s p x : psim s p → orel psim (rb_upd (set_color EP_RB_RED) s x) (ln_upd rb_set_red p x).
Proof. apply sim_upd; [apply (keeps_word (λ n, _))|]. intros n. rewrite rb_set_red_eq. apply unpack_set_color. by left. Qed.
Lemma sim_black s p x : psim s p → orel psim (rb_upd (set_color EP_RB_BLACK) s x) (ln_upd rb_set_black p x).
Proof. apply sim_upd; [apply (keeps_word (λ n, _))|]. intros n. rewrite rb_set_black_eq. apply unpack_set_color. by right. Qed.

Create HintDb psim.
#[export] Hint Resolve sim_child sim_left sim_right sim_parent sim_color sim_set_child sim_set_parent sim_set_color sim_red sim_black
  orel_none orel_ret addr_pval pval_0 : psim.

(** Both sides load or store the same. *)
Ltac both := eapply orel_bind; [solve [eauto with psim]|].
(** A null test, and the address when it fails. *)
Ltac null o :=
  lazymatch goal with H : pval o ?v |- _ =>
    destruct o as [?|];
    [ apply pval_some in H as (-> & ? & ?); first [rewrite (proj2 (Z.eqb_neq v 0)) by done | idtac]
    | apply pval_none in H as ->; try apply orel_none; cbn [Z.eqb] ]
  end.

Lemma sim_replace d s p par par' old v v' : psim s p → pval par par' → addr old old → pval v v' →
  orel psim (replace_in_parent d s par old v) (ln_replace d p par' old v').
Proof.
  intros Hs Hpar Ho Hv. unfold replace_in_parent, ln_replace. null par.
  - both. intros c c' Hc. rewrite (pval_eqb c c' (Some old) old) by (done || by apply addr_pval). eauto with psim.
  - apply orel_ret. destruct Hs as [-> Hwf], Hv as [-> Hv]. split; [done|]. by apply wf_set_root.
Qed.

(** ** Memories that hold a tree *)

Definition linked (l : list Z) (s : rb_tree) : Prop := ∃ t, holds s t ∧ inorder t = l.

Lemma linked_at d l s x : linked l s → x ∈ l → ∃ k c a b, holds s (fill k (T' d c a x b)) ∧ inorder (fill k (T' d c a x b)) = l.
Proof.
  intros (t & Hh & <-) Hx. destruct (tree_path t x Hx) as (k & c & a & b & ->). destruct (T_T' d c a x b) as (a' & b' & E). rewrite E in *. eauto 6.
Qed.

Lemma linked_color l s x v s' : linked l s → x ∈ l → rb_upd (set_color v) s x = Some s' → linked l s'.
Proof.
  intros Hl Hx. destruct (linked_at L l s x Hl Hx) as (k & c & a & b & Hh & Hin). destruct (color_spec v _ _ _ _ _ _ _ Hh) as (s1 & -> & Hh1).
  intros [= <-]. eexists. split; [exact Hh1|]. rewrite <- Hin. apply inorder_fill_ext, inorder_color.
Qed.

Lemma linked_child l s x d y : linked l s → x ∈ l → rb_get (child d) s x = Some (Some y) →
  ∃ k c a cy b e, holds s (fill k (T' (flip d) c a x (T' (flip d) cy b y e))) ∧ inorder (fill k (T' (flip d) c a x (T' (flip d) cy b y e))) = l.
Proof.
  intros Hl Hx Hc. destruct (linked_at (flip d) l s x Hl Hx) as (k & c & a & b & Hh & Hin). pose proof (get_other _ _ _ _ _ _ _ Hh) as Hy.
  rewrite flip_flip, Hc in Hy. destruct b as [|cy bl y' br]; [done|]. injection Hy as <-. destruct (T_T' (flip d) cy bl y br) as (b' & e & E). rewrite E in *. eauto 8.
Qed.

(** The facts of a rotation of [x] towards [d]: [y] comes up. *)
Lemma linked_rotate d l s x s' : linked l s → x ∈ l → rb_rotate d s x = Some s' → linked l s' ∧
  ∃ y, rb_get (child (flip d)) s x = Some (Some y) ∧ y ∈ l ∧ rb_get rb_parent s' x = Some (Some y) ∧ rb_get rb_parent s' y = rb_get rb_parent s x.
Proof.
  intros Hl Hx Hr. pose proof Hr as Hr'. unfold rb_rotate in Hr'. destruct (rb_get (child (flip d)) s x) as [[y|]|] eqn:Hy; [|done..]. clear Hr'.
  destruct (linked_child l s x (flip d) y Hl Hx Hy) as (k & c & a & cy & b & e & Hh & Hin). rewrite flip_flip in *.
  destruct (rotate_spec _ _ _ _ _ _ _ _ _ _ Hh) as (s1 & Hr1 & Hh1). rewrite Hr1 in Hr. injection Hr as <-. split.
  - eexists. split; [exact Hh1|]. rewrite <- Hin. apply inorder_fill_ext. apply inorder_rotate.
  - exists y. split; [done|]. split; [|split].
    + rewrite <- Hin, inorder_fill_eq, !elem_of_app. right. left. destruct d; cbn; set_solver.
    + pose proof (get_parent s1 (F d cy y e :: k) d c a x b Hh1) as E. exact E.
    + rewrite (get_parent _ _ _ _ _ _ _ Hh1). by rewrite (get_parent _ _ _ _ _ _ _ Hh).
Qed.

(** The parent of [x] and its child on the other side are different from each other and from [x], and so is the grandchild. *)
Lemma rotate_apart d l s x y : linked l s → x ∈ l → rb_get (child (flip d)) s x = Some (Some y) →
  x ≠ y ∧ rb_get rb_parent s x ≠ Some (Some y) ∧ rb_get (child d) s y ≠ Some (Some x).
Proof.
  intros Hl Hx Hy. destruct (linked_child l s x (flip d) y Hl Hx Hy) as (k & c & a & cy & b & e & Hh & _). rewrite flip_flip in *.
  rewrite (get_parent _ _ _ _ _ _ _ Hh). pose proof (get_child s (F (flip d) c x a :: k) d cy b y e) as Hb. cbn [fill plug] in Hb. rewrite T'_flip in Hb. rewrite (Hb Hh).
  apply holds_fill in Hh as (_ & _ & Hnd). rewrite !inorder_T' in Hnd.
  assert (Hxy : x ≠ y ∧ (x ∉ inorder b) ∧ y ∉ knodes k).
  { cbn in Hnd. apply NoDup_cons in Hnd as [Hx' Hnd]. split; [set_solver|]. split; [set_solver|]. rewrite <- app_assoc in Hnd.
    apply NoDup_app in Hnd as (_ & _ & Hnd). cbn in Hnd. apply NoDup_cons in Hnd as [Hy' _]. set_solver. }
  destruct Hxy as (Hne & Hxb & Hyk). split; [done|]. split.
  - destruct k as [|[d' c' z b'] k]; cbn; [done|]. intros [= ->]. apply Hyk. rewrite knodes_cons. left.
  - destruct b as [|? ? z ?]; cbn in *; [done|]. intros [= ->]. set_solver.
Qed.

(** ** Rotation *)

Lemma ln_upd_upd f g p y : (p' ← ln_upd f p y; ln_upd g p' y) = ln_upd (g ∘ f) p y.
Proof. unfold ln_upd. destruct (ln_nodes p !! y) as [n|]; cbn; [|done]. by rewrite lookup_insert_eq; cbn; rewrite insert_insert_eq. Qed.

Lemma ln_upd_swap f g p y : (∀ n, f (g n) = g (f n)) → (p' ← ln_upd f p y; ln_upd g p' y) = (p' ← ln_upd g p y; ln_upd f p' y).
Proof. intros Hfg. rewrite !ln_upd_upd. unfold ln_upd. destruct (ln_nodes p !! y) as [n|]; cbn; [|done]. by rewrite Hfg. Qed.

Lemma ln_replace_upd d f p par old v y : par ≠ y → is_Some (ln_nodes p !! y) →
  (p' ← ln_upd f p y; ln_replace d p' par old v) = (p' ← ln_replace d p par old v; ln_upd f p' y).
Proof.
  intros Hne [n Hy]. unfold ln_replace, ln_upd, ln_get, ln_set_root. rewrite Hy. cbn. destruct (par =? 0); cbn; [by rewrite Hy|].
  rewrite lookup_insert_ne by done. destruct (ln_nodes p !! par) as [m|]; cbn; [|done].
  rewrite lookup_insert_ne by done. rewrite Hy. cbn. by rewrite insert_insert_ne.
Qed.

Lemma ln_get_upd_ne {A} (f : lw_node → A) g p x y p' : x ≠ y → ln_upd g p y = Some p' → ln_get f p' x = ln_get f p x.
Proof. intros Hne. unfold ln_upd, ln_get. destruct (ln_nodes p !! y); [|done]. intros [= <-]. cbn. by rewrite lookup_insert_ne. Qed.
Lemma ln_get_upd {A} (f : lw_node → A) g p x y p' : (∀ n, f (g n) = f n) → ln_upd g p y = Some p' → ln_get f p' x = ln_get f p x.
Proof.
  intros Hf. unfold ln_upd, ln_get. destruct (ln_nodes p !! y) as [n|] eqn:Hy; [|done]. intros [= <-]. cbn.
  destruct (decide (x = y)) as [->|]; [|by rewrite lookup_insert_ne]. rewrite lookup_insert_eq, Hy. cbn. by rewrite Hf.
Qed.
Lemma ln_upd_dom g p y p' x : ln_upd g p y = Some p' → is_Some (ln_nodes p !! x) → is_Some (ln_nodes p' !! x).
Proof.
  unfold ln_upd. destruct (ln_nodes p !! y) as [n|]; [|done]. intros [= <-]. cbn. destruct (decide (x = y)) as [->|]; [rewrite lookup_insert_eq; eauto|].
  by rewrite lookup_insert_ne.
Qed.

(** Loads of the memory read as [s], from what the packed memory has. *)
Lemma get_child_sim d s p x v : psim s p → ln_get (ln_child d) p x = Some v → rb_get (child d) s x = Some (ptr_of v).
Proof. intros [-> _] Hv. rewrite (unpack_get _ (ln_child d) ptr_of) by apply unpack_child. by rewrite Hv. Qed.
Lemma get_parent_sim s p x v : psim s p → ln_get node_parent p x = Some v → rb_get rb_parent s x = Some (ptr_of v).
Proof. intros [-> _] Hv. rewrite (unpack_get _ node_parent ptr_of) by done. by rewrite Hv. Qed.

Lemma orel_bind_eq {A B C D} (R : A → B → Prop) (R' : C → D → Prop) o1 o2 (k1 : A → option C) (k2 : B → option D) :
  orel R o1 o2 → (∀ a b, o1 = Some a → o2 = Some b → R a b → orel R' (k1 a) (k2 b)) → orel R' (o1 ≫= k1) (o2 ≫= k2).
Proof.
  intros H1 H2 c. destruct o1 as [a|]; [|done]. destruct (H1 a eq_refl) as (b & -> & Hab). cbn. by apply H2.
Qed.

(** [lw_rotate] with its stores in the order of [rb_rotate]. *)
Lemma lw_rotate_order d p x y P b : ln_get (ln_child (flip d)) p x = Some y → ln_get node_parent p x = Some P → ln_get (ln_child d) p y = Some b →
  x ≠ y → P ≠ y → b ≠ x →
  lw_rotate d p x =
    (p ← ln_upd (ln_set_child (flip d) b) p x;
     p ← (if b =? 0 then Some p else ln_upd (rb_set_parent x) p b);
     p ← ln_upd (rb_set_parent P) p y;
     p ← ln_replace d p P x y;
     p ← ln_upd (ln_set_child d x) p y;
     ln_upd (rb_set_parent y) p x).
Proof.
  intros Hy HP Hb Hxy HPy Hbx. unfold lw_rotate. rewrite Hy. cbn [mbind option_bind]. rewrite HP. cbn [mbind option_bind]. rewrite Hb. cbn [mbind option_bind].
  destruct (ln_upd (ln_set_child (flip d) b) p x) as [p1|] eqn:E1; cbn [mbind option_bind]; [|done].
  rewrite (ln_get_upd_ne _ _ _ y x _ (not_eq_sym Hxy) E1), Hb. cbn [mbind option_bind].
  assert (Hy1 : is_Some (ln_nodes p1 !! y)).
  { eapply ln_upd_dom; [exact E1|]. unfold ln_get in Hb. destruct (ln_nodes p !! y); [eauto|done]. }
  destruct (if b =? 0 then Some p1 else ln_upd (rb_set_parent x) p1 b) as [p2|] eqn:E2; cbn [mbind option_bind]; [|done].
  assert (Hy2 : is_Some (ln_nodes p2 !! y)) by (destruct (b =? 0); [by simplify_eq|by eapply ln_upd_dom]). clear E1 E2 Hy1.
  destruct Hy2 as [n Hn]. set (pc := mk_lt (<[y := rb_set_parent P n]> (ln_nodes p2)) (ln_root p2)).
  assert (Hpc : ln_upd (rb_set_parent P) p2 y = Some pc) by (unfold ln_upd; by rewrite Hn). rewrite Hpc. cbn [mbind option_bind].
  transitivity (p3 ← (p0 ← ln_upd (ln_set_child d x) pc y; ln_replace d p0 P x y); ln_upd (rb_set_parent y) p3 x).
  - pose proof (ln_upd_swap (ln_set_child d x) (rb_set_parent P) p2 y ltac:(by destruct d)) as E. rewrite Hpc in E. cbn [mbind option_bind] in E.
    rewrite <- E. by destruct (ln_upd (ln_set_child d x) p2 y) as [pa|]; cbn [mbind option_bind]; [destruct (ln_upd (rb_set_parent P) pa y)|].
  - rewrite ln_replace_upd by (done || (cbn; rewrite lookup_insert_eq; eauto)). by destruct (ln_replace d pc P x y).
Qed.

Lemma ptr_of_some v x : ptr_of v = Some x → v = x ∧ x ≠ 0.
Proof. unfold ptr_of. destruct (Z.eqb_spec v 0); [done|]. intros [= ->]. done. Qed.
Lemma ptr_of_ne v : v ≠ 0 → ptr_of v = Some v.
Proof. intros Hv. unfold ptr_of. by destruct (Z.eqb_spec v 0). Qed.

Lemma wf_get {A} (f : lw_node → A) p x v : lw_wf p → ln_get f p x = Some v → addr x x.
Proof. intros Hwf. unfold ln_get. destruct (ln_nodes p !! x) as [n|] eqn:Hx; [|done]. intros _. split; [done|]. by eapply wf_key. Qed.
Lemma ln_get_some {A B} (f : lw_node → A) (g : lw_node → B) p x v : ln_get f p x = Some v → ∃ w, ln_get g p x = Some w.
Proof. unfold ln_get. destruct (ln_nodes p !! x); [|done]. eauto. Qed.

Lemma parent_pval p x P : ln_get node_parent p x = Some P → pval (ptr_of P) P.
Proof. unfold ln_get. destruct (ln_nodes p !! x); [|done]. intros [= <-]. split; [done|]. apply aligned_parent. Qed.

Lemma sim_rotate d l s p x : linked l s → x ∈ l → psim s p → orel psim (rb_rotate d s x) (lw_rotate d p x).
Proof.
  intros Hl Hx Hs. unfold rb_rotate. destruct (rb_get (child (flip d)) s x) as [[y|]|] eqn:Hy; [|apply orel_none..].
  destruct (sim_child _ _ _ _ Hs _ Hy) as (y' & Hy' & (<- & Hy0 & Hya)%pval_some). destruct (rotate_apart d l s x y Hl Hx Hy) as (Hxy & HPy & Hbx).
  pose proof (wf_get _ _ _ _ (proj2 Hs) Hy') as Hax. destruct (ln_get_some _ node_parent _ _ _ Hy') as [P HP]. rewrite (get_parent_sim _ _ _ _ Hs HP) in HPy.
  cbn [mbind option_bind]. destruct (rb_get (child d) s y) as [b|] eqn:Hb; [|apply orel_none].
  destruct (sim_child _ _ _ _ Hs _ Hb) as (b' & Hb' & Hbv). cbn [mbind option_bind].
  assert (HP' : P ≠ y) by (intros ->; apply HPy; by rewrite ptr_of_ne).
  assert (Hb0 : b' ≠ x) by (intros ->; destruct Hbv as [-> _], Hax as (_ & ? & _); apply Hbx; by rewrite ptr_of_ne).
  rewrite (lw_rotate_order d p x y P b') by done.
  eapply orel_bind_eq; [solve [eauto with psim]|]. intros s1 p1 _ E1 Hs1.
  rewrite (get_child_sim d s1 p1 y b' Hs1) by (by rewrite (ln_get_upd_ne _ _ _ _ _ _ (not_eq_sym Hxy) E1)). cbn [mbind option_bind].
  apply (orel_bind_eq psim).
  { destruct Hbv as [-> Hba]. unfold ptr_of. destruct (b' =? 0); [eauto with psim|]. apply sim_set_parent; [by apply addr_pval|done]. }
  intros s2 p2 _ E2 Hs2. assert (HP2 : ln_get node_parent p2 x = Some P).
  { transitivity (ln_get node_parent p1 x); [destruct (b' =? 0); [by simplify_eq|by apply (ln_get_upd_ne _ _ _ _ _ _ (not_eq_sym Hb0) E2)]|].
    rewrite <- HP. eapply ln_get_upd; [|exact E1]. by destruct d. }
  pose proof (parent_pval _ _ _ HP2) as HPv.
  rewrite (get_parent_sim _ _ _ _ Hs2 HP2). cbn [mbind option_bind].
  eapply orel_bind_eq; [solve [eauto with psim]|]. intros s3 p3 _ E3 Hs3.
  rewrite (get_parent_sim s3 p3 x P Hs3) by (by rewrite (ln_get_upd_ne _ _ _ _ _ _ Hxy E3)). cbn [mbind option_bind].
  eapply orel_bind; [apply sim_replace; [done..|]; by apply addr_pval|]. intros s4 p4 Hs4.
  both. intros s5 p5 Hs5. apply sim_set_parent; [by apply addr_pval|done].
Qed.

(** ** Steps that keep the tree *)

Definition lsim (l : list Z) (s : rb_tree) (p : lw_tree) : Prop := psim s p ∧ linked l s.

Lemma orel_keep {A B} (R R' : A → B → Prop) o1 o2 : orel R o1 o2 → (∀ a b, o1 = Some a → R a b → R' a b) → orel R' o1 o2.
Proof. intros HR HR' a Ha. destruct (HR a Ha) as (b & Hb & Hab). eauto. Qed.

Lemma lsim_color l c c' s p x : bitval c c' → x ∈ l → lsim l s p → orel (lsim l) (rb_upd (set_color c) s x) (ln_upd (rb_set_color c') p x).
Proof. intros Hc Hx [Hs Hl]. eapply orel_keep; [by eapply sim_set_color|]. intros s' p' Hs' Hsim. split; [done|]. by eapply linked_color. Qed.
Lemma lsim_red l s p x : x ∈ l → lsim l s p → orel (lsim l) (rb_upd (set_color EP_RB_RED) s x) (ln_upd rb_set_red p x).
Proof. intros Hx [Hs Hl]. eapply orel_keep; [by eapply sim_red|]. intros s' p' Hs' Hsim. split; [done|]. by eapply linked_color. Qed.
Lemma lsim_black l s p x : x ∈ l → lsim l s p → orel (lsim l) (rb_upd (set_color EP_RB_BLACK) s x) (ln_upd rb_set_black p x).
Proof. intros Hx [Hs Hl]. eapply orel_keep; [by eapply sim_black|]. intros s' p' Hs' Hsim. split; [done|]. by eapply linked_color. Qed.
Lemma lsim_rotate d l s p x : x ∈ l → lsim l s p → orel (lsim l) (rb_rotate d s x) (lw_rotate d p x).
Proof.
  intros Hx [Hs Hl]. eapply orel_keep; [by eapply sim_rotate|]. intros s' p' Hs' Hsim. split; [done|].
  by destruct (linked_rotate d l s x s' Hl Hx Hs').
Qed.

Lemma linked_child_in l s x d y : linked l s → x ∈ l → rb_get (child d) s x = Some (Some y) → y ∈ l.
Proof.
  intros Hl Hx Hy. destruct (linked_child l s x d y Hl Hx Hy) as (k & c & a & cy & b & e & _ & <-).
  rewrite inorder_fill_eq, !elem_of_app. right. left. destruct d; cbn; set_solver.
Qed.
Lemma linked_parent_in l s x y : linked l s → x ∈ l → rb_get rb_parent s x = Some (Some y) → y ∈ l.
Proof.
  intros Hl Hx Hy. destruct (linked_at L l s x Hl Hx) as (k & c & a & b & Hh & <-). rewrite (get_parent _ _ _ _ _ _ _ Hh) in Hy.
  destruct k as [|[d c' z e] k]; [done|]. injection Hy as ->. rewrite inorder_fill, elem_of_app. right. rewrite knodes_cons. left.
Qed.
Lemma linked_root l s x : linked l s → rb_node s = Some x → rb_get rb_parent s x = Some None ∧ x ∈ l.
Proof.
  intros (t & Hh & <-) Hr. destruct t as [|c a y b]; [by rewrite (h_root _ _ Hh) in Hr|].
  rewrite (h_root _ _ Hh) in Hr. injection Hr as ->. split; [exact (get_parent s [] L c a x b Hh)|cbn; set_solver].
Qed.

Lemma parent_color v s x s' y : rb_upd (set_color v) s x = Some s' → EP_RBTREE_PARENT s' y = EP_RBTREE_PARENT s y.
Proof.
  unfold rb_upd, EP_RBTREE_PARENT, rb_get. destruct (rb_nodes s !! x) as [n|] eqn:Hx; [|done]. intros [= <-]. cbn.
  destruct (decide (y = x)) as [->|]; [by rewrite lookup_insert_eq, Hx|by rewrite lookup_insert_ne].
Qed.
Lemma parent_inv s x y : EP_RBTREE_PARENT s x = Some y ↔ rb_get rb_parent s x = Some (Some y).
Proof. unfold EP_RBTREE_PARENT. destruct (rb_get rb_parent s x) as [[z|]|]; cbn; split; congruence. Qed.

Lemma linked_addr l s p x : lsim l s p → x ∈ l → addr x x.
Proof.
  intros [[-> Hwf] Hl] Hx. destruct (linked_at L l _ x Hl Hx) as (k & c & a & b & Hh & _). apply holds_node in Hh as (n & Hn & _).
  cbn in Hn. rewrite lookup_fmap in Hn. destruct (ln_nodes p !! x) as [m|] eqn:Hm; [|done]. split; [done|]. by eapply wf_key.
Qed.

(** ** Insertion *)

(** Parents reloaded after a change of colours. *)
Ltac reload :=
  repeat first
    [ match goal with E : rb_upd (set_color _) _ _ = Some ?s |- context [EP_RBTREE_PARENT ?s ?x] => rewrite (parent_color _ _ _ _ x E) end
    | match goal with H : EP_RBTREE_PARENT ?s ?x = Some _ |- context [EP_RBTREE_PARENT ?s ?x] => rewrite H; cbn [mbind option_bind] end ].

Lemma insert_finish_sim d l s p X P G : lsim l s p → EP_RBTREE_PARENT s X = Some P → EP_RBTREE_PARENT s P = Some G → P ∈ l → G ∈ l →
  orel (lsim l) (insert_finish d s X) (p ← ln_upd rb_set_black p P; p ← ln_upd rb_set_red p G; lw_rotate (flip d) p G).
Proof.
  intros Hs HP HG HPl HGl. unfold insert_finish, EP_RBTREE_GRANDF. reload.
  eapply orel_bind_eq; [by apply lsim_black|]. intros s1 p1 E1 _ Hs1. reload.
  eapply orel_bind_eq; [by apply lsim_red|]. intros s2 p2 E2 _ Hs2. reload. by apply lsim_rotate.
Qed.

(** The node the loop goes on with. *)
Definition lsim_at (l : list Z) (a : rb_tree * Z) (b : lw_tree * Z) : Prop := lsim l a.1 b.1 ∧ a.2 = b.2 ∧ a.2 ∈ l.

Lemma ln_upd_comm f p x y (k : lw_tree → option (lw_tree * Z)) :
  (p ← ln_upd f p x; p ← ln_upd f p y; k p) = (p ← ln_upd f p y; p ← ln_upd f p x; k p).
Proof.
  destruct (decide (x = y)) as [->|Hne]; [done|]. unfold ln_upd.
  destruct (ln_nodes p !! x) as [n|] eqn:Hx, (ln_nodes p !! y) as [m|] eqn:Hy; cbn; rewrite ?lookup_insert_ne by done; rewrite ?Hx, ?Hy; cbn; [|done..].
  by rewrite insert_insert_ne.
Qed.

Lemma insert_next_sim d l s p X P G : lsim l s p → EP_RBTREE_PARENT s X = Some P → EP_RBTREE_PARENT s P = Some G → X ∈ l → P ∈ l → G ∈ l →
  orel (lsim_at l) (s ← insert_finish d s X; Some (s, X))
    (p ← ln_upd rb_set_black p P; p ← ln_upd rb_set_red p G; p ← lw_rotate (flip d) p G; Some (p, X)).
Proof.
  intros Hs HP HG HX HPl HGl s'. destruct (insert_finish d s X) as [s1|] eqn:E; [|done]. intros [= <-].
  destruct (insert_finish_sim d l s p X P G Hs HP HG HPl HGl s1 E) as (p1 & E1 & Hs1).
  exists (p1, X). split; [|done]. destruct (ln_upd rb_set_black p P) as [p2|]; [|done]. cbn [mbind option_bind] in *.
  destruct (ln_upd rb_set_red p2 G) as [p3|]; [|done]. cbn [mbind option_bind] in *. by rewrite E1.
Qed.

Lemma insert_side_sim d l s p X P G : lsim l s p → X ∈ l → EP_RBTREE_PARENT s X = Some P → EP_RBTREE_PARENT s P = Some G →
  orel (lsim_at l) (insert_side d s X) (lw_insert_side d p X P G).
Proof.
  intros [Hs Hl] HX HP HG. pose proof (linked_parent_in _ _ _ _ Hl HX (proj1 (parent_inv _ _ _) HP)) as HPl.
  pose proof (linked_parent_in _ _ _ _ Hl HPl (proj1 (parent_inv _ _ _) HG)) as HGl.
  unfold insert_side, lw_insert_side, EP_RBTREE_GRANDF. reload.
  eapply orel_bind_eq; [by apply sim_child|]. intros Y u HY _ Hu.
  apply (orel_bind_eq eq).
  { null Y; [|eauto with psim]. both. intros c c' [-> _]. eauto with psim. }
  intros red ? Hred _ <-. destruct red.
  - destruct Y as [y|]; [|done]. apply pval_some in Hu as (<- & _ & _). pose proof (linked_child_in _ _ _ _ _ Hl HGl HY) as Hyl.
    rewrite ln_upd_comm. eapply orel_bind_eq; [by apply lsim_black|]. intros s1 p1 E1 _ Hs1. cbn [mbind option_bind].
    eapply orel_bind_eq; [by apply lsim_black|]. intros s2 p2 E2 _ Hs2. reload.
    eapply orel_bind_eq; [by apply lsim_red|]. intros s3 p3 E3 _ Hs3. reload. by apply orel_ret.
  - eapply orel_bind_eq; [by apply sim_child|]. intros c c' Hc _ Hcv. pose proof (linked_addr l s p X (conj Hs Hl) HX) as HXa.
    rewrite (pval_eqb c c' (Some X) X) by (done || by apply addr_pval).
    case_bool_decide as HcX.
    + reload. subst c. destruct (rb_rotate d s P) as [s1|] eqn:Hr; [|apply orel_none].
      destruct (lsim_rotate d l s p P HPl (conj Hs Hl) s1 Hr) as (p1 & -> & Hs1). cbn [mbind option_bind].
      destruct (linked_rotate d l s P s1 Hl HPl Hr) as (_ & y & Hy & _ & HPy & HyG). rewrite Hc in Hy. injection Hy as <-.
      apply (insert_next_sim d l s1 p1 P X G Hs1); [by apply parent_inv| |done..].
      apply parent_inv. rewrite HyG. by apply parent_inv.
    + cbn [mbind option_bind]. by apply (insert_next_sim d l s p X P G).
Qed.

Lemma insert_loop_sim fuel l s p X : lsim l s p → X ∈ l → orel (lsim l) (insert_loop fuel s X) (lw_insert_loop fuel p X).
Proof.
  revert s p X. induction fuel as [|fuel IH]; intros s p X [Hs Hl] HX; cbn [insert_loop lw_insert_loop].
  all: case_bool_decide as Hroot;
    [ destruct (linked_root l s X Hl (eq_sym Hroot)) as [HP _]; destruct (sim_parent s p X Hs _ HP) as (v & -> & ->%pval_none); by apply orel_ret |].
  all: unfold EP_RBTREE_PARENT at 1; destruct (rb_get rb_parent s X) as [[P|]|] eqn:HP; [|apply orel_none..];
    destruct (sim_parent s p X Hs _ HP) as (v & -> & (<- & HP0 & _)%pval_some); cbn [mbind option_bind];
    rewrite (proj2 (Z.eqb_neq P 0) HP0); eapply orel_bind; [by apply sim_color|]; intros c c' [-> _]; unfold RB_RED, EP_RB_RED;
    destruct (c' =? 0); [|by apply orel_ret]; [apply orel_none || idtac].
  apply parent_inv in HP as HP'. unfold insert_step, EP_RBTREE_GRANDF. rewrite HP, HP'. cbn [mbind option_bind].
  destruct (EP_RBTREE_PARENT s P) as [G|] eqn:HG; [|apply orel_none]. cbn [mbind option_bind]. apply parent_inv in HG as HG'.
  destruct (sim_parent s p P Hs _ HG') as (v & -> & (<- & HG0 & _)%pval_some). cbn [mbind option_bind].
  destruct (rb_get rb_left s G) as [o|] eqn:Ho; [|apply orel_none]. destruct (sim_left s p G Hs _ Ho) as (v & -> & Hv). cbn [mbind option_bind].
  rewrite (pval_eqb (Some P) P o v) by (done || by apply addr_pval, (linked_addr l s p P (conj Hs Hl)), (linked_parent_in l s X)).
  eapply (orel_bind (lsim_at l)).
  - case_bool_decide; by apply insert_side_sim.
  - intros [s1 X1] [p1 X1'] (Hs1 & Heq & HX1). cbn in Hs1, Heq, HX1. subst X1'. by apply IH.
Qed.

Lemma insert_color_sim fuel l s p X : lsim l s p → X ∈ l → orel (lsim l) (ep_rb_insert_color fuel s X) (rb_insert_color fuel p X).
Proof.
  intros Hs HX. unfold ep_rb_insert_color, rb_insert_color. destruct (linked_addr l s p X Hs HX) as (_ & HX0 & _).
  rewrite (proj2 (Z.eqb_neq X 0) HX0). eapply orel_bind; [by apply insert_loop_sim|]. intros s1 p1 [Hs1 Hl1].
  destruct (rb_node s1) as [r|] eqn:Hr; [|apply orel_none]. cbn [mbind option_bind]. pose proof (proj1 Hs1) as E. rewrite E in Hr. cbn in Hr.
  apply ptr_of_some in Hr as [Hr Hr0]. rewrite Hr. apply lsim_black; [|done]. eapply (linked_root l s1 r Hl1). rewrite E. cbn. rewrite Hr. by apply ptr_of_ne.
Qed.

Lemma unpack_fresh v : aligned v → unpack_node (mk_ln v 0 0) = mk_rb EP_RB_RED (ptr_of v) None None.
Proof.
  intros Hv. unfold unpack_node, node_parent, rb_color. cbn [rb_parent_color ln_right ln_left].
  pose proof (parent_set_parent 0 v Hv) as E1. pose proof (color_set_parent 0 v Hv) as E2. change (Z.lor (Z.land 0 3) v) with v in E1, E2. by rewrite E1, E2.
Qed.

(** The stores of a new node, in one. *)
Lemma rb_link_node_eq p x n par lnk : ln_nodes p !! x = Some n →
  rb_link_node p x par lnk =
    (let p := mk_lt (<[x := mk_ln par 0 0]> (ln_nodes p)) (ln_root p) in
     match lnk with Link_root => Some (ln_set_root x p) | Link_child d y => ln_upd (ln_set_child d x) p y end).
Proof.
  intros Hn. unfold rb_link_node, ln_upd. rewrite Hn. cbn. rewrite lookup_insert_eq. cbn. rewrite insert_insert_eq, lookup_insert_eq. cbn. by rewrite insert_insert_eq.
Qed.

Lemma link_node_sim s p x par par' lnk : psim s p → pval par par' → addr x x → (∀ d y, lnk = Link_child d y → y ≠ x) →
  orel psim (ep_rb_link_node s x par lnk) (rb_link_node p x par' lnk).
Proof.
  intros [-> Hwf] [-> Hpar] Hx Hl s'. destruct (ln_nodes p !! x) as [n|] eqn:Hn; [|unfold ep_rb_link_node, rb_upd; cbn; by rewrite lookup_fmap, Hn].
  rewrite (rb_link_node_eq _ _ _ _ _ Hn). cbn zeta. set (p1 := mk_lt _ _).
  assert (Hwf1 : lw_wf p1).
  { destruct Hwf as [Hk Hp Hr]. split; cbn; [| |done].
    - intros y m. destruct (decide (y = x)) as [->|]; [intros _; by eapply Hk|rewrite lookup_insert_ne by done; apply Hk].
    - intros y m d. destruct (decide (y = x)) as [->|]; [rewrite lookup_insert_eq; intros [= <-]; by destruct d|rewrite lookup_insert_ne by done; apply Hp]. }
  unfold ep_rb_link_node, rb_upd. cbn. rewrite lookup_fmap, Hn. cbn. rewrite lookup_insert_eq. cbn. rewrite insert_insert_eq, lookup_insert_eq. cbn. rewrite insert_insert_eq.
  destruct lnk as [|d y]; cbn.
  - rewrite lookup_insert_eq. cbn. intros [= <-]. eexists. split; [done|]. split; [|apply wf_set_root; [done|apply Hx]].
    unfold unpack, ln_set_root. cbn. rewrite insert_insert_eq, fmap_insert, unpack_fresh by done. rewrite (ptr_of_ne x) by apply Hx. done.
  - assert (Hy : y ≠ x) by by eapply Hl. unfold rb_upd, ln_upd. cbn. rewrite !lookup_insert_ne by done. rewrite lookup_fmap.
    destruct (ln_nodes p !! y) as [m|] eqn:Hm; cbn; [|done]. rewrite lookup_insert_ne, lookup_insert_eq by done. cbn. intros [= <-].
    eexists. split; [done|]. split.
    + unfold unpack. cbn. rewrite !fmap_insert, unpack_fresh, unpack_set_child by done. rewrite (ptr_of_ne x) by apply Hx.
      f_equal. rewrite (insert_insert_ne _ x y) by done. by rewrite insert_insert_eq.
    + eapply (wf_upd (ln_set_child d x) p1 y); [apply keeps_child, Hx|done|]. unfold ln_upd. cbn. by rewrite lookup_insert_ne, Hm by done.
Qed.

(** ** Erasure *)

Lemma null_or_black_sim s p o v : psim s p → pval o v → orel eq (null_or_black s o) (ln_black p v).
Proof.
  intros Hs Hv. unfold null_or_black, ln_black. null o; [|by apply orel_ret]. both. intros c c' [-> Hc]. apply orel_ret.
  by destruct Hc as [-> | ->].
Qed.

(** A black node made black. *)
Lemma sim_black_again s p x : psim s p → rb_get color s x = Some EP_RB_BLACK → ∃ p', ln_upd rb_set_black p x = Some p' ∧ psim s p'.
Proof.
  intros Hs Hc. assert (Hu : rb_upd (set_color EP_RB_BLACK) s x = Some s).
  { unfold rb_get, rb_upd in *. destruct (rb_nodes s !! x) as [n|] eqn:Hn; [|done]. injection Hc as Hc. cbn. f_equal.
    destruct s as [m r]. cbn in *. f_equal. apply insert_id. rewrite Hn. f_equal. destruct n. cbn in Hc. by subst. }
  destruct (sim_black s p x Hs s Hu) as (p' & Hp & Hs'). eauto.
Qed.

Lemma erase_finish_sim d l s p P W : lsim l s p → P ∈ l → W ∈ l →
  orel (lsim l) (erase_finish d s P W)
    (c ← ln_get rb_color p P; p ← ln_upd (rb_set_color c) p W; p ← ln_upd rb_set_black p P;
     far ← ln_get (ln_child (flip d)) p W; p ← ln_upd rb_set_black p far; lw_rotate d p P).
Proof.
  intros Hs HP HW. unfold erase_finish. eapply orel_bind; [apply sim_color, Hs|]. intros c c' Hc.
  eapply orel_bind; [by eapply lsim_color|]. intros s1 p1 Hs1. eapply orel_bind; [by apply lsim_black|]. intros s2 p2 Hs2.
  eapply orel_bind_eq; [apply sim_child, Hs2|]. intros far v Hfar _ Hv. destruct far as [f|]; [|apply orel_none]. apply pval_some in Hv as (<- & _ & _).
  pose proof (linked_child_in _ _ _ _ _ (proj2 Hs2) HW Hfar) as Hf. cbn [mbind option_bind].
  destruct (rb_get color s2 f) as [cf|] eqn:Hcf; [|apply orel_none]. cbn [mbind option_bind].
  eapply (orel_bind (lsim l)); [|intros; by apply lsim_rotate]. destruct (Z.eqb_spec cf EP_RB_BLACK) as [->|]; cbn [negb].
  - intros s' [= <-]. destruct (sim_black_again s2 p2 f (proj1 Hs2) Hcf) as (p' & Hp & Hsp). exists p'. split; [done|]. split; [done|apply Hs2].
  - by apply lsim_black.
Qed.

(** What the repair goes on with. *)
Definition erase_rel (l : list Z) (a : rb_tree * (option Z * option Z + option Z)) (b : lw_tree * (Z * Z + Z)) : Prop :=
  lsim l a.1 b.1 ∧
  match a.2, b.2 with
  | inl (X, P), inl (v, w) => pval X v ∧ pval P w ∧ match P with Some y => y ∈ l | None => True end
  | inr X, inr v => pval X v
  | _, _ => False
  end.

Lemma root_sim s p : psim s p → pval (rb_node s) (ln_root p).
Proof. intros [-> Hwf]. split; [done|]. apply Hwf. Qed.

Lemma erase_end_sim d l s p P W : lsim l s p → P ∈ l → W ∈ l →
  orel (erase_rel l) (s ← erase_finish d s P W; Some (s, inr (rb_node s)))
    (c ← ln_get rb_color p P; p ← ln_upd (rb_set_color c) p W; p ← ln_upd rb_set_black p P;
     far ← ln_get (ln_child (flip d)) p W; p ← ln_upd rb_set_black p far; p ← lw_rotate d p P; Some (p, inr (ln_root p))).
Proof.
  intros Hs HP HW s'. destruct (erase_finish d s P W) as [s1|] eqn:E; [|done]. intros [= <-].
  destruct (erase_finish_sim d l s p P W Hs HP HW s1 E) as (p1 & E1 & Hs1). exists (p1, inr (ln_root p1)). split; [|split; [done|]; apply root_sim, Hs1].
  repeat match goal with |- (?o ≫= _) = _ => destruct o; [cbn [mbind option_bind] in *|done] end. congruence.
Qed.

Lemma rb_rotate_none d s x : rb_get (child (flip d)) s x = Some None → rb_rotate d s x = None.
Proof. intros E. unfold rb_rotate. by rewrite E. Qed.
Lemma child_color v s x s' y d : rb_upd (set_color v) s x = Some s' → rb_get (child d) s' y = rb_get (child d) s y.
Proof.
  unfold rb_upd, rb_get. destruct (rb_nodes s !! x) as [n|] eqn:Hx; [|done]. intros [= <-]. cbn.
  destruct (decide (y = x)) as [->|]; [rewrite lookup_insert_eq, Hx; by destruct d|by rewrite lookup_insert_ne].
Qed.

(** The near child of the sibling comes up. *)
Lemma erase_near_sim d l s p P W : lsim l s p → P ∈ l → W ∈ l →
  orel (lsim_at l)
    (near ← rb_get (child d) s W;
     s ← match near with Some n => rb_upd (set_color EP_RB_BLACK) s n | None => Some s end;
     s ← rb_upd (set_color EP_RB_RED) s W; s ← rb_rotate (flip d) s W; W ← rb_get (child (flip d)) s P; W ← W; Some (s, W))
    (near ← ln_get (ln_child d) p W; p ← ln_upd rb_set_black p near; p ← ln_upd rb_set_red p W; p ← lw_rotate (flip d) p W;
     other ← ln_get (ln_child (flip d)) p P; Some (p, other)).
Proof.
  intros Hs HP HW. eapply orel_bind_eq; [apply sim_child, Hs|]. intros near v Hnear _ Hv. destruct near as [n|].
  - apply pval_some in Hv as (<- & _ & _). pose proof (linked_child_in _ _ _ _ _ (proj2 Hs) HW Hnear) as Hn.
    eapply orel_bind; [by apply lsim_black|]. intros s1 p1 Hs1. eapply orel_bind; [by apply lsim_red|]. intros s2 p2 Hs2.
    eapply orel_bind; [by apply lsim_rotate|]. intros s3 p3 Hs3. eapply orel_bind_eq; [apply sim_child, Hs3|]. intros o w Ho _ Hw.
    destruct o as [y|]; [|apply orel_none]. apply pval_some in Hw as (<- & _ & _). apply orel_ret. split; [done|]. split; [done|].
    by eapply linked_child_in; [apply Hs3|exact HP|exact Ho].
  - cbn [mbind option_bind]. destruct (rb_upd (set_color RED) s W) as [s1|] eqn:E; [|apply orel_none]. cbn [mbind option_bind].
    rewrite rb_rotate_none; [apply orel_none|]. rewrite flip_flip. by rewrite (child_color _ _ _ _ _ _ E).
Qed.

Lemma erase_black_sim d l s p P W : lsim l s p → P ∈ l → W ∈ l → orel (erase_rel l) (erase_black d s P W) (lw_erase_black d p P W).
Proof.
  intros Hs HP HW. unfold erase_black, lw_erase_black.
  eapply orel_bind; [apply sim_left, Hs|]. intros wl l' Hl'. eapply orel_bind; [by apply null_or_black_sim; [apply Hs|]|]. intros bl ? <-.
  apply (orel_bind eq).
  { destruct bl; [|by apply orel_ret]. eapply orel_bind; [apply sim_right, Hs|]. intros wr r' Hr'. by apply null_or_black_sim; [apply Hs|]. }
  intros both' ? <-. destruct both'.
  - eapply orel_bind; [by apply lsim_red|]. intros s1 p1 Hs1. eapply orel_bind_eq; [apply sim_parent, Hs1|]. intros o v Ho _ Hv.
    apply orel_ret. split; [done|]. cbn. split; [by apply addr_pval, (linked_addr l s1 p1)|]. split; [done|].
    destruct o; [|done]. eapply linked_parent_in; [apply Hs1|exact HP|done].
  - eapply orel_bind; [apply sim_child, Hs|]. intros far v Hv. eapply orel_bind; [by apply null_or_black_sim; [apply Hs|]|]. intros fb ? <-.
    eapply (orel_bind (lsim_at l)); [destruct fb; [by apply erase_near_sim|by apply orel_ret]|].
    intros [s1 W1] [p1 W1'] (Hs1 & Heq & HW1). cbn in Hs1, Heq, HW1. subst W1'. by apply erase_end_sim.
Qed.

Lemma erase_side_sim d l s p P : lsim l s p → P ∈ l → orel (erase_rel l) (erase_side d s P) (lw_erase_side d p P).
Proof.
  intros Hs HP. unfold erase_side, lw_erase_side. eapply orel_bind_eq; [apply sim_child, Hs|]. intros o v Ho _ Hv.
  destruct o as [W|]; [|apply orel_none]. apply pval_some in Hv as (<- & _ & _). pose proof (linked_child_in _ _ _ _ _ (proj2 Hs) HP Ho) as HW. cbn [mbind option_bind].
  eapply orel_bind; [apply sim_color, Hs|]. intros c c' [-> _]. eapply (orel_bind (lsim_at l)).
  - unfold RB_RED, EP_RB_RED. destruct (c' =? 0); [|by apply orel_ret].
    eapply orel_bind; [by apply lsim_black|]. intros s1 p1 Hs1. eapply orel_bind; [by apply lsim_red|]. intros s2 p2 Hs2.
    eapply orel_bind; [by apply lsim_rotate|]. intros s3 p3 Hs3. eapply orel_bind_eq; [apply sim_child, Hs3|]. intros o w Ho3 _ Hw.
    destruct o as [y|]; [|apply orel_none]. apply pval_some in Hw as (<- & _ & _). apply orel_ret. split; [done|]. split; [done|].
    by eapply linked_child_in; [apply Hs3|exact HP|exact Ho3].
  - intros [s1 W1] [p1 W1'] (Hs1 & Heq & HW1). cbn in Hs1, Heq, HW1. subst W1'. by apply erase_black_sim.
Qed.

Definition lsim_ptr (l : list Z) (a : rb_tree * option Z) (b : lw_tree * Z) : Prop := lsim l a.1 b.1 ∧ pval a.2 b.2.

Lemma root_black l s p : lsim l s p → ∃ b, ln_black p (ln_root p) = Some b.
Proof.
  intros [Hs Hl]. pose proof (root_sim _ _ Hs) as Hr. unfold ln_black. destruct (rb_node s) as [x|] eqn:E; [|apply pval_none in Hr as ->; cbn; eauto].
  apply pval_some in Hr as (<- & Hx & _). rewrite (proj2 (Z.eqb_neq x 0) Hx). destruct (linked_root l s x Hl E) as [HP _].
  destruct (sim_parent s p x Hs _ HP) as (w & Hw & _). destruct (ln_get_some _ rb_color _ _ _ Hw) as [c ->]. cbn. eauto.
Qed.

Lemma erase_loop_sim fuel l s p X P v w : lsim l s p → pval X v → pval P w → match P with Some y => y ∈ l | None => True end →
  orel (lsim_ptr l) (erase_loop fuel s X P) (lw_erase_loop fuel p v w).
Proof.
  revert s p X P v w. induction fuel as [|fuel IH]; intros s p X P v w Hs Hv Hw HP; cbn [erase_loop lw_erase_loop].
  all: pose proof (root_sim _ _ (proj1 Hs)) as Hr; rewrite (pval_eqb _ _ _ _ Hv Hr); case_bool_decide as HX;
    [ subst X; assert (v = ln_root p) as -> by (apply ptr_of_inj; destruct Hv as [<- _]; apply Hr);
      destruct (root_black l s p Hs) as [b ->]; cbn [mbind option_bind]; rewrite andb_false_r; by apply orel_ret |].
  all: eapply orel_bind; [by apply null_or_black_sim; [apply Hs|]|]; intros b ? <-; rewrite andb_true_r; destruct b; [|by apply orel_ret].
  all: null P; [|by apply orel_ret]; [apply orel_none || idtac].
  eapply orel_bind; [apply sim_left, Hs|]. intros o u Hu. rewrite Z.eqb_sym, (pval_eqb _ _ _ _ Hv Hu).
  eapply (orel_bind (erase_rel l)); [case_bool_decide; by apply erase_side_sim|].
  intros [s1 [[X1 P1]|X1]] [p1 [[v1 w1]|v1]] [Hs1 H1]; cbn in Hs1, H1; try done.
  - destruct H1 as (H1 & H2 & H3). by apply IH.
  - by apply orel_ret.
Qed.

Lemma erase_color_sim fuel l s p X P v w : lsim l s p → pval X v → pval P w → match P with Some y => y ∈ l | None => True end →
  orel psim (ep_rb_erase_color fuel s X P) (rb_erase_color fuel p v w).
Proof.
  intros Hs Hv Hw HP. unfold ep_rb_erase_color, rb_erase_color. eapply orel_bind; [by apply erase_loop_sim|].
  intros [s1 X1] [p1 v1] [[Hs1 _] H1]. cbn in Hs1, H1. null X1; [by apply sim_black|by apply orel_ret].
Qed.

(** *** The surgery, store by store *)

(** The child that moved up, its parent and the colour. *)
Definition cut_rel (a : rb_tree * (option Z * option Z * Z)) (b : lw_tree * (Z * Z * Z)) : Prop :=
  let '(s, (X, P, c)) := a in let '(p, (v, w, c')) := b in psim s p ∧ pval X v ∧ pval P w ∧ bitval c c'.

Lemma leftmost_sim fuel s p x : psim s p → addr x x → orel addr (leftmost fuel s x) (ln_leftmost fuel p x).
Proof.
  intros Hs. revert x. induction fuel as [|fuel IH]; intros x Hx; cbn [leftmost ln_leftmost].
  all: eapply orel_bind; [by apply sim_left|]; intros o v Hv; null o; [|by apply orel_ret].
  - apply orel_none.
  - by apply IH.
Qed.

Lemma erase_cut_sim s p x X v : psim s p → addr x x → pval X v → orel cut_rel (erase_cut s x X) (lw_erase_cut p x v).
Proof.
  intros Hs Hx Hv. unfold erase_cut, lw_erase_cut. both. intros P w Hw. both. intros c c' Hc.
  eapply (orel_bind psim); [destruct X; pose proof Hv as Hv'; [apply pval_some in Hv' as (<- & H0 & _); rewrite (proj2 (Z.eqb_neq _ 0) H0); by apply sim_set_parent
                           |apply pval_none in Hv' as ->; by apply orel_ret]|].
  intros s1 p1 Hs1. eapply orel_bind; [by apply sim_replace|]. intros s2 p2 Hs2. by apply orel_ret.
Qed.

Lemma unpack_set_word m n : unpack_node (set_word (rb_parent_color m) n) = set_parent (rb_parent (unpack_node m)) (set_color (color (unpack_node m)) (unpack_node n)).
Proof. done. Qed.

Lemma adopt_word_sim s p old node :
  psim s p →
  orel psim (c ← rb_get color s old; s ← rb_upd (set_color c) s node; q ← rb_get rb_parent s old; rb_upd (set_parent q) s node)
    (w ← ln_get rb_parent_color p old; ln_upd (set_word w) p node).
Proof.
  intros [-> Hwf] s'. unfold rb_get, ln_get, rb_upd, ln_upd. cbn. rewrite !lookup_fmap. destruct (ln_nodes p !! old) as [m|] eqn:Hm; [|done]. cbn.
  destruct (ln_nodes p !! node) as [n|] eqn:Hn; [|done]. cbn.
  assert (E : rb_parent <$> (<[node := set_color (rb_color m) (unpack_node n)]> (unpack_node <$> ln_nodes p)) !! old = Some (rb_parent (unpack_node m))).
  { destruct (decide (old = node)) as [->|Hne]; [rewrite lookup_insert_eq; by simplify_eq|by rewrite lookup_insert_ne, lookup_fmap, Hm]. }
  destruct (<[node := _]> _ !! old) as [m'|]; [|done]. injection E as E. cbn. rewrite lookup_insert_eq. cbn. rewrite insert_insert_eq, E. intros [= <-].
  eexists. split; [done|]. split; [|eapply wf_upd; [apply (keeps_word (λ _, rb_parent_color m))|exact Hwf|unfold ln_upd; by rewrite Hn]].
  unfold unpack. cbn. rewrite fmap_insert. by rewrite unpack_set_word.
Qed.

(** Sequences of loads and stores in another grouping. *)
Ltac regroup := repeat match goal with |- (?o ≫= _) = _ => destruct o; cbn [mbind option_bind]; [|done] end; done.

Lemma erase_adopt_sim s p old node : psim s p → addr node node →
  orel psim (erase_adopt s old node)
    (w ← ln_get rb_parent_color p old; p ← ln_upd (set_word w) p node; l ← ln_get ln_left p old; p ← ln_upd (ln_set_child L l) p node;
     l ← ln_get ln_left p old; ln_upd (rb_set_parent node) p l).
Proof.
  intros Hs Hn.
  assert (erase_adopt s old node =
    (s ← (c ← rb_get color s old; s ← rb_upd (set_color c) s node; q ← rb_get rb_parent s old; rb_upd (set_parent q) s node);
     l ← rb_get rb_left s old; s ← rb_upd (set_child L l) s node; l ← rb_get rb_left s old; l ← l; rb_upd (set_parent (Some node)) s l)) as -> by (unfold erase_adopt; regroup).
  set (k := λ p, l ← ln_get ln_left p old; p ← ln_upd (ln_set_child L l) p node; l ← ln_get ln_left p old; ln_upd (rb_set_parent node) p l).
  match goal with |- orel _ _ ?o => assert (o = (p ← (w ← ln_get rb_parent_color p old; ln_upd (set_word w) p node); k p)) as -> by regroup end.
  eapply orel_bind; [by apply adopt_word_sim|]. intros s1 p1 Hs1. unfold k. both. intros o v Hv. both. intros s2 p2 Hs2. both. intros o2 v2 Hv2.
  destruct o2; [|apply orel_none]. apply pval_some in Hv2 as (<- & _ & _). apply sim_set_parent; [by apply addr_pval|done].
Qed.

Lemma erase_move_sim s p old node X v P w : psim s p → addr old old → addr node node → pval X v → pval P w →
  orel (psimx pval) (erase_move s old node X P)
    (if w =? old then Some (p, node)
     else p ← (if v =? 0 then Some p else ln_upd (rb_set_parent w) p v);
          p ← ln_upd (ln_set_child L v) p w;
          r ← ln_get ln_right p old; p ← ln_upd (ln_set_child R r) p node;
          r ← ln_get ln_right p old; p ← ln_upd (rb_set_parent node) p r;
          Some (p, w)).
Proof.
  intros Hs Ho Hn Hv Hw. unfold erase_move. rewrite (pval_eqb _ _ _ _ Hw (addr_pval _ _ Ho)). case_bool_decide; [apply orel_ret; split; [done|by apply addr_pval]|].
  eapply (orel_bind psim); [destruct X; pose proof Hv as Hv'; [apply pval_some in Hv' as (<- & H0 & _); rewrite (proj2 (Z.eqb_neq _ 0) H0); by apply sim_set_parent
                           |apply pval_none in Hv' as ->; by apply orel_ret]|].
  intros s1 p1 Hs1. destruct P as [P|]; [|apply orel_none]. pose proof Hw as (<- & _ & _)%pval_some. cbn [mbind option_bind].
  both. intros s2 p2 Hs2. both. intros r u Hu. both. intros s3 p3 Hs3. both. intros r3 u3 Hu3. destruct r3; [|apply orel_none].
  apply pval_some in Hu3 as (<- & _ & _). cbn [mbind option_bind]. eapply orel_bind; [apply sim_set_parent; [by apply addr_pval|done]|].
  intros s4 p4 Hs4. by apply orel_ret.
Qed.

Lemma erase_swap_sim fuel s p old r : psim s p → addr old old → addr r r → orel cut_rel (erase_swap fuel s old r) (lw_erase_swap fuel p old r).
Proof.
  intros Hs Ho Hr. unfold erase_swap, lw_erase_swap. eapply orel_bind; [by apply leftmost_sim|]. intros node ? Hn. pose proof Hn as (<- & _ & _).
  both. intros P w Hw. eapply orel_bind; [apply sim_replace; [done..|]; by apply addr_pval|]. intros s1 p1 Hs1.
  both. intros X v Hv. both. intros P1 w1 Hw1. both. intros c c' Hc. eapply orel_bind; [by apply erase_move_sim|].
  intros [s2 P2] [p2 w2] [Hs2 Hw2]. cbn [fst snd] in Hs2, Hw2.
  match goal with |- orel _ _ ?o => assert (o =
    (p ← (w ← ln_get rb_parent_color p2 old; p ← ln_upd (set_word w) p2 node; l ← ln_get ln_left p old; p ← ln_upd (ln_set_child L l) p node;
          l ← ln_get ln_left p old; ln_upd (rb_set_parent node) p l); Some (p, (v, w2, c')))) as -> by regroup end.
  eapply orel_bind; [by apply erase_adopt_sim|]. intros s3 p3 Hs3. by apply orel_ret.
Qed.

Lemma kparent_in k t : match kparent k with Some y => y ∈ inorder (fill k t) | None => True end.
Proof. destruct k as [|[d c x b] k]; [done|]. cbn [kparent fnode]. rewrite inorder_fill, elem_of_app. right. rewrite knodes_cons. left. Qed.

Lemma rb_erase_sim fuel s p k c l x r : psim s p → holds s (fill k (T c l x r)) → (height (fill k (T c l x r)) <= fuel)%nat →
  orel psim (ep_rb_erase fuel s x) (rb_erase fuel p x).
Proof.
  intros Hs Hh Hf. destruct (erase_surgery fuel s k c l x r Hh Hf) as (s1 & K & d & cy & y & ry & He & Hh1 & _).
  assert (Hx : addr x x) by (apply (linked_addr (inorder (fill k (T c l x r))) s p); [by split; [|by eexists]|rewrite inorder_fill; set_solver]).
  unfold ep_rb_erase, rb_erase. rewrite (proj2 (Z.eqb_neq x 0)) by apply Hx.
  destruct (rb_get rb_left s x) as [a|] eqn:Ha; [|done]. destruct (rb_get rb_right s x) as [b|] eqn:Hb; [|done]. cbn [mbind option_bind] in He |- *.
  destruct (sim_left s p x Hs _ Ha) as (u & -> & Hu), (sim_right s p x Hs _ Hb) as (v & -> & Hv). cbn [mbind option_bind].
  eapply (orel_bind_eq cut_rel).
  - destruct a as [a|]; pose proof Hu as Hu'; [apply pval_some in Hu' as (<- & Ha0 & Haa); rewrite (proj2 (Z.eqb_neq a 0) Ha0)|apply pval_none in Hu' as ->; change (0 =? 0) with true; by apply erase_cut_sim].
    destruct b as [b|]; pose proof Hv as Hv'; [apply pval_some in Hv' as (<- & Hb0 & Hba); rewrite (proj2 (Z.eqb_neq b 0) Hb0); by apply erase_swap_sim|].
    apply pval_none in Hv' as ->. change (0 =? 0) with true. apply erase_cut_sim; [done..|]. by apply addr_pval.
  - intros [s2 [[X P] c1]] [p2 [[X' P'] c1']] Heq _ (Hs2 & HX & HP & [-> _]). rewrite He in Heq. injection Heq as <- <- <- <-.
    unfold RB_BLACK, EP_RB_BLACK. destruct (cy =? 1); [|by apply orel_ret].
    apply (erase_color_sim fuel (inorder (fill K ry))); [split; [done|by eexists]|done..|apply kparent_in].
Qed.
