(* ===== verification/LwipRbProps.v ===== *)
(** * The operations of rb_tree.c are correct

    Insertion at a place of the sequence, erasure and the successor of a node, for the tree with packed words, from the
    theorems about the tree with separate fields and the simulation of [LwipRbSim]. *)
From S2P Require Import Prelude.
From S2P Require Import RbTree.
From S2P Require Import RbTreeProofs.
From S2P Require Import RbTreeInsert.
From S2P Require Import RbTreeErase.
From S2P Require Import RbTreeProps.
From S2P Require Import RbTreeLocal.
From S2P Require Import LwipRbTree.
From S2P Require Import LwipRbSim.

(** The packed memory holds the red-black tree [t]. *)
Record lw_holds (p : lw_tree) (t : tree) : Prop := {
  lh_wf : lw_wf p;
  lh_holds : holds (unpack p) t;
  lh_rbt : rbt t
}.

Lemma lw_psim p t : lw_holds p t → psim (unpack p) p.
Proof. by intros []. Qed.

Lemma lw_addr p t x : lw_holds p t → x ∈ inorder t → addr x x.
Proof. intros [Hwf Hh _] Hx. apply (linked_addr (inorder t) (unpack p) p); [|done]. split; [done|]. by exists t. Qed.

Lemma unpack_dom p : dom (rb_nodes (unpack p)) = dom (ln_nodes p).
Proof. cbn. apply dom_fmap_L. Qed.

(** No operation adds or removes nodes of the memory. *)
Lemma frames_self s : frames (dom (rb_nodes s)) ∅ s s.
Proof. split; [done|]. split; [apply map_disjoint_empty_r|]. split; [by rewrite (right_id_L ∅ _)|done]. Qed.
Lemma same_dom (op : rb_tree → option rb_tree) s s' :
  (∀ s S, frames (dom (rb_nodes s)) ∅ s S → orel (frames (dom (rb_nodes s)) ∅) (op s) (op S)) → op s = Some s' → dom (rb_nodes s') = dom (rb_nodes s).
Proof. intros Hop Hs. destruct (Hop s s (frames_self s) s' Hs) as (s1 & _ & Hd & _). done. Qed.

Lemma erase_dom fuel s x s' : ep_rb_erase fuel s x = Some s' → dom (rb_nodes s') = dom (rb_nodes s).
Proof. intros H. eapply (same_dom (λ s, ep_rb_erase fuel s x)); [|exact H]. intros. by apply erase_local. Qed.

Lemma lw_erase_spec fuel p k c l x r : lw_holds p (fill k (T c l x r)) → (height (fill k (T c l x r)) <= fuel)%nat →
  ∃ p' t', rb_erase fuel p x = Some p' ∧ lw_holds p' t' ∧ dom (ln_nodes p') = dom (ln_nodes p) ∧
    inorder t' = kbefore k ++ (inorder l ++ inorder r) ++ kafter k.
Proof.
  intros [Hwf Hh Hr] Hf. destruct (erase_spec fuel _ k c l x r Hh Hr Hf) as (s' & t' & He & Hh' & Hr' & Hin).
  destruct (rb_erase_sim fuel _ p k c l x r (conj eq_refl Hwf) Hh Hf s' He) as (p' & Hp & [-> Hwf']).
  exists p', t'. split; [done|]. split; [done|]. split; [|done]. rewrite <- !unpack_dom. by eapply erase_dom.
Qed.

Lemma insert_dom fuel s x par lnk s' : (s ← ep_rb_link_node s x par lnk; ep_rb_insert_color fuel s x) = Some s' → dom (rb_nodes s') = dom (rb_nodes s).
Proof.
  intros H. eapply (same_dom (λ s, s ← ep_rb_link_node s x par lnk; ep_rb_insert_color fuel s x)); [|exact H]. intros s1 S1 HF.
  eapply orel_bind; [by apply link_node_local|]. intros s2 S2 HF2. by apply insert_color_local.
Qed.

Lemma lw_insert_spec fuel p k x n : lw_holds p (fill k E) → x ∉ inorder (fill k E) → ln_nodes p !! x = Some n → (height (fill k E) <= fuel)%nat →
  ∃ p' t', (p ← rb_link_node p x (default 0 (kparent k)) (link_of k); rb_insert_color fuel p x) = Some p' ∧ lw_holds p' t' ∧
    dom (ln_nodes p') = dom (ln_nodes p) ∧ inorder t' = kbefore k ++ x :: kafter k.
Proof.
  intros [Hwf Hh Hr] Hx Hn Hf. assert (Hk : x ∉ knodes k) by (rewrite inorder_fill in Hx; done).
  destruct (link_node_spec (unpack p) k x (unpack_node n) Hh Hk) as (s1 & Hs1 & Hh1); [cbn; by rewrite lookup_fmap, Hn|].
  assert (Hax : addr x x) by (split; [done|]; by eapply wf_key).
  assert (Hpk : pval (kparent k) (default 0 (kparent k))).
  { destruct k as [|f k]; [done|]. cbn. apply addr_pval, (lw_addr p (fill (f :: k) E)); [done|exact (kparent_in (f :: k) E)]. }
  destruct (link_node_sim (unpack p) p x (kparent k) (default 0 (kparent k)) (link_of k) (conj eq_refl Hwf) Hpk Hax) with (a := s1) as (p1 & Hp1 & [E1 Hwf1]); [|done|].
  { intros d y Hy. destruct k as [|[d' c' z b'] k]; [done|]. cbn in Hy. injection Hy as <- <-. intros ->. apply Hk. rewrite knodes_cons. left. }
  destruct (fill_bal_inv _ _ Hr) as (m & Hkb & Hm & _). cbn in Hm. subst m.
  destruct (insert_color_spec fuel s1 k 0 L E x E Hh1 Hkb) as (s2 & t2 & Hs2 & Hh2 & Hin & Hr2); [done..|pose proof (height_fill k E); cbn in *; lia|].
  destruct (insert_color_sim fuel (inorder (fill k (T RED E x E))) s1 p1 x) with (a := s2) as (p2 & Hp2 & [[-> Hwf2] _]); [|rewrite inorder_fill; set_solver|done|].
  { split; [done|by eexists]. }
  exists p2, t2. rewrite Hp1. cbn [mbind option_bind]. split; [done|]. split; [done|]. split; [|by rewrite Hin, inorder_fill_eq].
  rewrite <- !unpack_dom. eapply (insert_dom fuel _ x). rewrite Hs1. exact Hs2.
Qed.

(** ** The successor *)

Definition first_of (l : list Z) : Z := default 0 (list.head l).

Lemma sim_parent_at p k d c a x b : lw_holds p (fill k (T' d c a x b)) → ln_get node_parent p x = Some (default 0 (kparent k)) ∧ (kparent k = None ∨ default 0 (kparent k) ≠ 0).
Proof.
  intros [Hwf Hh _]. destruct (sim_parent (unpack p) p x (conj eq_refl Hwf) _ (get_parent _ _ _ _ _ _ _ Hh)) as (v & Hv & Hpv).
  destruct (kparent k) as [y|]; cbn; [|apply pval_none in Hpv as ->; auto]. apply pval_some in Hpv as (-> & H0 & _). auto.
Qed.

Lemma sim_child_at p k d c a x b : lw_holds p (fill k (T' d c a x b)) → ln_get (ln_child d) p x = Some (default 0 (ptr a)) ∧ (ptr a = None ∨ default 0 (ptr a) ≠ 0).
Proof.
  intros [Hwf Hh _]. destruct (sim_child d (unpack p) p x (conj eq_refl Hwf) _ (get_child _ _ _ _ _ _ _ Hh)) as (v & Hv & Hpv).
  destruct (ptr a) as [y|]; cbn; [|apply pval_none in Hpv as ->; auto]. apply pval_some in Hpv as (-> & H0 & _). auto.
Qed.

Lemma ln_leftmost_spec fuel p k c l x r : lw_holds p (fill k (T c l x r)) → (height (T c l x r) <= fuel)%nat →
  ln_leftmost fuel p x = Some (first_of (inorder (T c l x r))).
Proof.
  intros Hp Hf. pose proof (lh_wf _ _ Hp) as Hwf. destruct (leftmost_spec fuel (unpack p) k c l x r (lh_holds _ _ Hp) Hf) as (kr & cy & y & ry & Hlm & -> & Hleft).
  destruct (leftmost_sim fuel (unpack p) p x (conj eq_refl Hwf)) with (a := y) as (y' & Hy' & (-> & _)); [|done|].
  { apply (lw_addr _ _ _ Hp). rewrite inorder_fill. set_solver. }
  rewrite Hy'. f_equal. rewrite inorder_fill_eq, (left_path_before _ Hleft). done.
Qed.

Lemma lw_climb_spec fuel p k c l x r : lw_holds p (fill k (T c l x r)) → (length k <= fuel)%nat → lw_climb fuel p x = Some (first_of (kafter k)).
Proof.
  revert p c l x r fuel. induction k as [|[[] c' z b] k IH]; intros p c l x r fuel Hp Hf; destruct (sim_parent_at p _ L c l x r Hp) as [HP H0].
  - destruct fuel; cbn [lw_climb]; by rewrite HP.
  - assert (Hz : lw_holds p (fill k (T' R c' b z (T c l x r)))) by exact Hp. destruct (sim_child_at p _ R _ _ _ _ Hz) as [Hb _].
    destruct H0 as [|H0]; [done|]. cbn [kparent fnode default id from_option] in HP, H0.
    assert (Hne : (x =? default 0 (ptr b)) = false).
    { apply Z.eqb_neq. pose proof (child_ne _ _ _ _ _ _ L _ _ _ _ (lh_holds _ _ Hp)) as Hne. destruct b; cbn in *; [|congruence].
      apply (lw_addr _ _ _ Hp). rewrite inorder_fill. set_solver. }
    destruct fuel; cbn [lw_climb]; rewrite HP; cbn [mbind option_bind]; rewrite (proj2 (Z.eqb_neq z 0) H0);
      change (ln_get ln_right p z) with (ln_get (ln_child R) p z); rewrite Hb; cbn [mbind option_bind]; by rewrite Hne.
  - assert (Hz : lw_holds p (fill k (T' R c' (T c l x r) z b))) by exact Hp. destruct (sim_child_at p _ R _ _ _ _ Hz) as [Hb _].
    destruct H0 as [|H0]; [done|]. cbn [kparent fnode default id from_option ptr] in HP, H0, Hb.
    destruct fuel as [|fuel]; [cbn in Hf; lia|]. cbn [lw_climb]. rewrite HP. cbn [mbind option_bind]. rewrite (proj2 (Z.eqb_neq z 0) H0).
    change (ln_get ln_right p z) with (ln_get (ln_child R) p z). rewrite Hb. cbn [mbind option_bind]. rewrite Z.eqb_refl. cbn [kafter].
    apply (IH p c' b z (T c l x r)); [exact Hp|cbn in Hf; lia].
Qed.

Lemma rb_next_spec fuel p k c l x r : lw_holds p (fill k (T c l x r)) → (height (fill k (T c l x r)) <= fuel)%nat →
  rb_next fuel p x = Some (first_of (inorder r ++ kafter k)).
Proof.
  intros Hp Hf. pose proof (height_fill k (T c l x r)) as Hk. destruct (sim_parent_at p k L c l x r Hp) as [HP _], (sim_child_at p k R c r x l Hp) as [Hr Hr0].
  assert (Hx : x ≠ 0).
  { apply (lw_addr _ _ _ Hp). rewrite inorder_fill. set_solver. }
  unfold rb_next. rewrite (proj2 (Z.eqb_neq x 0) Hx), HP. cbn [mbind option_bind].
  assert ((default 0 (kparent k) =? x) = false) as ->.
  { apply Z.eqb_neq. destruct k as [|[d c' z b] k]; cbn; [done|]. intros ->. pose proof (h_nodup _ _ (lh_holds _ _ Hp)) as Hnd.
    rewrite inorder_fill, knodes_cons in Hnd. apply NoDup_app in Hnd as (_ & Hd & _). apply (Hd x); [cbn; set_solver|left]. }
  change (ln_get ln_right p x) with (ln_get (ln_child R) p x). rewrite Hr. cbn [mbind option_bind].
  destruct r as [|cr rl y rr]; cbn [ptr default from_option id] in *.
  - apply (lw_climb_spec fuel p k c l x E Hp). cbn in Hk. lia.
  - destruct Hr0 as [|Hy]; [done|]. rewrite (proj2 (Z.eqb_neq y 0) Hy). rewrite (ln_leftmost_spec fuel p (F R c x l :: k) cr rl y rr Hp) by (cbn [height] in *; lia).
    f_equal. unfold first_of. cbn [inorder]. by destruct (inorder rl).
Qed.
