(* ===== verification/Ptimer.v ===== *)
(** * The timers of the lwIP stack (src/stacks/lwip_stack/lwip_src/core/spl_timers.c, lwip_helper_files/arch/sys_arch.c)

    Any thread asks for a timer with [sys_timeout]: a node is allocated and a message about it put into a ring of 4096 slots;
    the timer thread is woken by a signal, takes the messages and keeps the nodes in a red-black tree ordered by the time they are
    due, with a pointer to the first.  One interval timer of the kernel is set for the first node; when it fires the timer
    thread posts every node that is due to the stack thread and sets the interval timer again.

    The state has the tree and the nodes by address, the slots of the ring, what the two interval timers are set to, the
    signals not yet taken, the calls of [ltt_apimsg] made so far and what the timer thread is doing.  [option]: an access
    through a null or dangling pointer, signed overflow, or too little fuel.  The readings of the clock are arguments. *)
From S2P Require Import Prelude.
From S2P Require Import RbTree.
From S2P Require Import LwipRbTree.

Definition MIN_TIME_PICE : Z := 50.
Definition NANO_PER_MICROSECOND : Z := 1000000.
Definition NANO_PER_SECOND : Z := 1000000000.
Definition PTIMER_MSG_BUFFER_SIZE : Z := 4096.
Definition PTIMER_STATE_INACTIVE : Z := 0.
Definition PTIMER_STATE_ENQUEUED : Z := 1.
Definition PTIMER_ONESHOT : Z := 1.

Inductive err_t := ERR_OK | ERR_MEM | ERR_VAL.

Inductive msg_type := SYS_PTIMEROUT_MSG | SYS_UNPTIMEROUT_MSG.

(** [struct ptimer_node] without its tree node, which is at the same address. *)
Record ptimer_node := mk_tmo { abs_nsec : Z; msec : Z; phandle : Z; flags : Z; ctx : Z; tm_state : Z; index : Z }.
Record ptimer_msg := mk_pm { pm_type : msg_type; pm_node : Z; pm_next : option Z; pm_prev : option Z }.

(** What the timer thread does: wait for a signal, or take the messages in the ring. *)
Inductive thread_at := Waiting | Taking.

Record ptimer_st := mk_pt {
  active : lw_tree;
  first : Z;
  tmos : gmap Z ptimer_node;
  msgs : gmap Z ptimer_msg;
  p_head : option Z;
  p_tail : option Z;
  ptimer_lock : bool;
  lazy_tim : Z * Z;
  lazy_tim_retry : Z * Z;
  expired : nat;
  kicks : nat;
  thread : thread_at;
  posts : list (Z * Z)
}.

Definition set_active a s := mk_pt a (first s) (tmos s) (msgs s) (p_head s) (p_tail s) (ptimer_lock s) (lazy_tim s) (lazy_tim_retry s) (expired s) (kicks s) (thread s) (posts s).
Definition set_first v s := mk_pt (active s) v (tmos s) (msgs s) (p_head s) (p_tail s) (ptimer_lock s) (lazy_tim s) (lazy_tim_retry s) (expired s) (kicks s) (thread s) (posts s).
Definition set_tmos m s := mk_pt (active s) (first s) m (msgs s) (p_head s) (p_tail s) (ptimer_lock s) (lazy_tim s) (lazy_tim_retry s) (expired s) (kicks s) (thread s) (posts s).
Definition set_ring m h t s := mk_pt (active s) (first s) (tmos s) m h t (ptimer_lock s) (lazy_tim s) (lazy_tim_retry s) (expired s) (kicks s) (thread s) (posts s).
Definition set_lock b s := mk_pt (active s) (first s) (tmos s) (msgs s) (p_head s) (p_tail s) b (lazy_tim s) (lazy_tim_retry s) (expired s) (kicks s) (thread s) (posts s).
Definition set_lazy v s := mk_pt (active s) (first s) (tmos s) (msgs s) (p_head s) (p_tail s) (ptimer_lock s) v (lazy_tim_retry s) (expired s) (kicks s) (thread s) (posts s).
Definition set_retry v s := mk_pt (active s) (first s) (tmos s) (msgs s) (p_head s) (p_tail s) (ptimer_lock s) (lazy_tim s) v (expired s) (kicks s) (thread s) (posts s).
Definition set_signals e k th s := mk_pt (active s) (first s) (tmos s) (msgs s) (p_head s) (p_tail s) (ptimer_lock s) (lazy_tim s) (lazy_tim_retry s) e k th (posts s).
Definition add_post p s := mk_pt (active s) (first s) (tmos s) (msgs s) (p_head s) (p_tail s) (ptimer_lock s) (lazy_tim s) (lazy_tim_retry s) (expired s) (kicks s) (thread s) (posts s ++ [p]).

Definition tmo_upd (f : ptimer_node → ptimer_node) (s : ptimer_st) (x : Z) : option ptimer_st :=
  t ← tmos s !! x; Some (set_tmos (<[x := f t]> (tmos s)) s).
Definition set_state (v : Z) (t : ptimer_node) : ptimer_node := mk_tmo (abs_nsec t) (msec t) (phandle t) (flags t) (ctx t) v (index t).
Definition set_abs (v : Z) (t : ptimer_node) : ptimer_node := mk_tmo v (msec t) (phandle t) (flags t) (ctx t) (tm_state t) (index t).

(** ** Time *)

Definition u64 (z : Z) : Z := z mod 2 ^ 64.
(** The conversion of an unsigned long to long. *)
Definition to_long (z : Z) : Z := if z <? 2 ^ 63 then z else z - 2 ^ 64.
(** The subtraction of longs overflows outside their range. *)
Definition time_after_eq (a b : Z) : option bool :=
  let d := to_long a - to_long b in
  if (- 2 ^ 63 <=? d) && (d <? 2 ^ 63) then Some (0 <=? d) else None.

(** A reading of the clock: seconds and nanoseconds. *)
Definition timespec : Type := Z * Z.
Definition nsec_of (now : timespec) : Z := u64 (now.1 * NANO_PER_SECOND + now.2).
Definition due_at (now : timespec) (msec : Z) : Z := u64 (now.1 * NANO_PER_SECOND + now.2 + u64 (msec * NANO_PER_MICROSECOND)).

Definition launch_tmr (nsec : Z) : Z * Z := (nsec / NANO_PER_SECOND, nsec mod NANO_PER_SECOND).

(** ** The queue of timers *)

Definition enqueued (t : ptimer_node) : bool := negb (Z.land (tm_state t) PTIMER_STATE_ENQUEUED =? 0).

Definition remove_ptimer (fuel : nat) (s : ptimer_st) (tmo : Z) : option ptimer_st :=
  if tmo =? 0 then Some s
  else
    t ← tmos s !! tmo;
    if negb (enqueued t) then Some s
    else
      s ← (if first s =? tmo then n ← rb_next fuel (active s) tmo; Some (set_first n s) else Some s);
      a ← rb_erase fuel (active s) tmo;
      tmo_upd (set_state PTIMER_STATE_INACTIVE) (set_active a s) tmo.

(** The loop that looks for the place of a new timer. *)
Fixpoint enqueue_walk (fuel : nat) (s : ptimer_st) (key : Z) (linknode : rb_link) (parent : Z) (leftmost : bool) : option (rb_link * Z * bool) :=
  v ← match linknode with Link_root => Some (ln_root (active s)) | Link_child d x => ln_get (ln_child d) (active s) x end;
  if v =? 0 then Some (linknode, parent, leftmost)
  else
    match fuel with
    | O => None
    | S fuel =>
        entry ← tmos s !! v;
        b ← time_after_eq (abs_nsec entry) key;
        if (b : bool) then enqueue_walk fuel s key (Link_child L v) v leftmost
        else enqueue_walk fuel s key (Link_child R v) v false
    end.

Definition enqueue_ptimer (fuel : nat) (s : ptimer_st) (tmo : Z) : option ptimer_st :=
  if tmo =? 0 then Some s
  else
    t ← tmos s !! tmo;
    if enqueued t then Some s
    else
      '(linknode, parent, leftmost) ← enqueue_walk fuel s (abs_nsec t) Link_root 0 true;
      let s := if (leftmost : bool) then set_first tmo s else s in
      a ← rb_link_node (active s) tmo parent linknode;
      a ← rb_insert_color fuel a tmo;
      tmo_upd (λ t, set_state (Z.lor (tm_state t) PTIMER_STATE_ENQUEUED) t) (set_active a s) tmo.

Definition add_ptimer (fuel : nat) (s : ptimer_st) (tmo : Z) : option ptimer_st :=
  if tmo =? 0 then Some s
  else
    s ← enqueue_ptimer fuel s tmo;
    if first s =? tmo then t ← tmos s !! tmo; Some (set_lazy (launch_tmr (u64 (msec t * NANO_PER_MICROSECOND))) s)
    else Some s.

Definition del_ptimer (fuel : nat) (s : ptimer_st) (node : Z) : option (ptimer_st * err_t) :=
  if node =? 0 then Some (s, ERR_VAL) else s ← remove_ptimer fuel s node; Some (s, ERR_OK).

(** ** The interval timer fires *)

(** One timer that is due: it leaves the queue, a periodic one enters it again, and the stack thread is told. *)
Definition timeout_one (fuel : nat) (s : ptimer_st) (now : timespec) (tmo : Z) : option ptimer_st :=
  s ← remove_ptimer fuel s tmo;
  t ← tmos s !! tmo;
  s ← (if negb (Z.land (flags t) PTIMER_ONESHOT =? 0) then Some s
       else s ← tmo_upd (set_abs (due_at now (msec t))) s tmo; add_ptimer fuel s tmo);
  Some (add_post (phandle t, tmo) s).

(** [rounds]: fuel of the loop over the timers that are due.  [None] in the result: the function has returned. *)
Fixpoint timeout_loop (rounds fuel : nat) (s : ptimer_st) (now : timespec) (tmo : Z) : option (ptimer_st * option Z) :=
  t ← tmos s !! tmo;
  b ← time_after_eq (nsec_of now) (abs_nsec t);
  if (b : bool) then
    match rounds with
    | O => None
    | S rounds =>
        s ← timeout_one fuel s now tmo;
        if first s =? 0 then Some (s, None) else timeout_loop rounds fuel s now (first s)
    end
  else Some (s, Some tmo).

Definition deal_timeout_sig (rounds fuel : nat) (s : ptimer_st) (now : timespec) : option ptimer_st :=
  if first s =? 0 then Some s
  else
    '(s, r) ← timeout_loop rounds fuel s now (first s);
    match r with
    | None => Some s
    | Some tmo =>
        t ← tmos s !! tmo;
        if abs_nsec t <=? nsec_of now then Some s
        else Some (set_lazy (launch_tmr (u64 (abs_nsec t - nsec_of now))) s)
    end.

Definition timeout_sigaction (rounds fuel : nat) (s : ptimer_st) (now : timespec) : option ptimer_st :=
  if ptimer_lock s then Some (set_retry (launch_tmr (MIN_TIME_PICE / 5 * NANO_PER_MICROSECOND)) s)
  else s ← deal_timeout_sig rounds fuel (set_lock true s) now; Some (set_lock false s).

(** ** Messages to the timer thread *)

Definition free_node (s : ptimer_st) (node : Z) : ptimer_st :=
  set_active (mk_lt (delete node (ln_nodes (active s))) (ln_root (active s))) (set_tmos (delete node (tmos s)) s).

Definition regedit_ptimer (s : ptimer_st) (Type_ : msg_type) (node : Z) : option ptimer_st :=
  match p_tail s with
  | None => Some (free_node s node)
  | Some tail =>
      m ← msgs s !! tail;
      let s := set_ring (<[tail := mk_pm Type_ node (pm_next m) (pm_prev m)]> (msgs s)) (p_head s) (pm_next m) s in
      if bool_decide (p_head s = p_tail s) then Some s
      else Some (set_signals (expired s) (S (kicks s)) (thread s) s)
  end.

(** [tmo]: what [malloc] returns. *)
Definition sys_timeout (s : ptimer_st) (tmo msecs handler arg : Z) : option ptimer_st :=
  if tmo =? 0 then Some s
  else
    let s := set_tmos (<[tmo := mk_tmo 0 msecs handler PTIMER_ONESHOT arg 0 0]> (tmos s)) s in
    let s := set_active (mk_lt (<[tmo := mk_ln 0 0 0]> (ln_nodes (active s))) (ln_root (active s))) s in
    regedit_ptimer s SYS_PTIMEROUT_MSG tmo.

Definition sys_untimeout (s : ptimer_st) (handler arg : Z) : option ptimer_st := regedit_ptimer s SYS_UNPTIMEROUT_MSG arg.

Definition process_timeout_msg (fuel : nat) (s : ptimer_st) (msg : ptimer_msg) (now : timespec) : option (ptimer_st * err_t) :=
  let tmo := pm_node msg in
  match pm_type msg with
  | SYS_PTIMEROUT_MSG =>
      if tmo =? 0 then Some (s, ERR_MEM)
      else
        t ← tmos s !! tmo;
        s ← tmo_upd (set_abs (due_at now (msec t))) s tmo;
        s ← add_ptimer fuel s tmo;
        Some (s, ERR_OK)
  | SYS_UNPTIMEROUT_MSG => '(s, _) ← del_ptimer fuel s tmo; Some (s, ERR_OK)
  end.

(** ** The loop of the timer thread, an iteration at a time; [None] also where the thread cannot go on *)

(** [sigwait] returns SIGRTMIN. *)
Definition on_expired (rounds fuel : nat) (s : ptimer_st) (now : timespec) : option ptimer_st :=
  match thread s, expired s with
  | Waiting, S e => timeout_sigaction rounds fuel (set_signals e (kicks s) Waiting s) now
  | _, _ => None
  end.

(** [sigwait] returns SIGRTMIN + 2. *)
Definition on_kick (s : ptimer_st) : option ptimer_st :=
  match thread s, kicks s with
  | Waiting, S k => Some (set_signals (expired s) k Taking s)
  | _, _ => None
  end.

(** The inner loop: the end of the messages, or one message. *)
Definition take_msg (fuel : nat) (s : ptimer_st) (now : timespec) : option ptimer_st :=
  match thread s with
  | Waiting => None
  | Taking =>
      if bool_decide (p_head s = p_tail s) then Some (set_signals (expired s) (kicks s) Waiting s)
      else
        h ← p_head s; m ← msgs s !! h;
        let s := set_ring (msgs s) (pm_next m) (p_tail s) s in
        if ptimer_lock s then None
        else
          '(s, _) ← process_timeout_msg fuel (set_lock true s) m now;
          Some (set_lock false s)
  end.

(** The kernel: an interval timer that is set fires once. *)
Definition fire (s : ptimer_st) : option ptimer_st :=
  if bool_decide (lazy_tim s = (0, 0)) then None
  else Some (set_signals (S (expired s)) (kicks s) (thread s) (set_lazy (0, 0) s)).
Definition fire_retry (s : ptimer_st) : option ptimer_st :=
  if bool_decide (lazy_tim_retry s = (0, 0)) then None
  else Some (set_signals (S (expired s)) (kicks s) (thread s) (set_retry (0, 0) s)).

(** ** Initialisation *)

(** Which of the calls succeed. *)
Record init_env := mk_env { mutex_ok : bool; sem_ok : bool; malloc_ok : bool; memset_ok : bool; memset_event_ok : bool; timer_ok : bool; timer_retry_ok : bool }.

Definition pm_zero : ptimer_msg := mk_pm SYS_PTIMEROUT_MSG 0 None None.
Definition zero_slots : gmap Z ptimer_msg := list_to_map ((λ i, (i, pm_zero)) <$> seqZ 0 PTIMER_MSG_BUFFER_SIZE).

Definition set_next (i : Z) (v : Z) (m : gmap Z ptimer_msg) : gmap Z ptimer_msg := alter (λ p, mk_pm (pm_type p) (pm_node p) (Some v) (pm_prev p)) i m.
Definition set_prev (i : Z) (v : Z) (m : gmap Z ptimer_msg) : gmap Z ptimer_msg := alter (λ p, mk_pm (pm_type p) (pm_node p) (pm_next p) (Some v)) i m.

(** The loop that links the slots, [n] of them still to do. *)
Fixpoint link_slots (n : nat) (i : Z) (m : gmap Z ptimer_msg) : gmap Z ptimer_msg :=
  match n with O => m | S n => link_slots n (i + 1) (set_prev (i + 1) i (set_next i (i + 1) m)) end.

Definition ring_slots : gmap Z ptimer_msg :=
  let i := PTIMER_MSG_BUFFER_SIZE - 1 in
  set_prev 0 i (set_next i 0 (link_slots (Z.to_nat i) 0 zero_slots)).

Definition init_ptimer (e : init_env) (s : ptimer_st) : ptimer_st * err_t :=
  if negb (mutex_ok e) then (s, ERR_MEM)
  else if negb (sem_ok e) then (s, ERR_MEM)
  else
    let s := set_lock false s in
    let s := set_first 0 (set_active (ln_set_root 0 (active s)) s) in
    if negb (malloc_ok e) then (s, ERR_MEM)
    else if negb (memset_ok e) then (s, ERR_MEM)
    else
      let s := set_ring ring_slots (Some 0) (Some 0) s in
      (* free (ptr): the slots are gone, [head] and [tail] stay *)
      if negb (memset_event_ok e && timer_ok e && timer_retry_ok e) then (set_ring ∅ (Some 0) (Some 0) s, ERR_VAL)
      else (s, ERR_OK).

(** Static data before initialisation. *)
Definition ptimer_start : ptimer_st := mk_pt (mk_lt ∅ 0) 0 ∅ ∅ None None false (0, 0) (0, 0) 0 0 Waiting [].
