(* ===== verification/PtimerProofs.v ===== *)
(** * Proofs about the queue of lwIP timers

    [pqueue s q]: the tree, the first pointer and the nodes of [s] hold the queue [q], the due times and addresses of the
    timers in order.  Adding a timer, removing one and handling the interval timer are operations on that list. *)
From S2P Require Import Prelude.
From S2P Require Import RbTree.
From S2P Require Import RbTreeProofs.
From S2P Require Import RbTreeInsert.
From S2P Require Import RbTreeErase.
From S2P Require Import RbTreeProps.
From S2P Require Import LwipRbTree.
From S2P Require Import LwipRbSim.
From S2P Require Import LwipRbProps.
From S2P Require Import Ptimer.

(** A queue: due times with addresses. *)
Definition tm_sorted (q : list (Z * Z)) : Prop := StronglySorted (λ a b, a.1 <= b.1) q.

Record pqueue (s : ptimer_st) (q : list (Z * Z)) : Prop := {
  pq_tree : ∃ t, lw_holds (active s) t ∧ inorder t = q.*2;
  pq_first : first s = first_of q.*2;
  pq_due d x : (d, x) ∈ q → ∃ t, tmos s !! x = Some t ∧ abs_nsec t = d ∧ tm_state t = PTIMER_STATE_ENQUEUED;
  pq_range d x : (d, x) ∈ q → 0 <= d < 2 ^ 63;
  pq_idle x t : tmos s !! x = Some t → x ∉ q.*2 → tm_state t = PTIMER_STATE_INACTIVE;
  pq_dom : dom (tmos s) = dom (ln_nodes (active s));
  pq_sorted : tm_sorted q
}.

Lemma pq_nodup s q : pqueue s q → NoDup q.*2.
Proof. intros Hq. destruct (pq_tree _ _ Hq) as (t & Hh & <-). apply (lh_holds _ _ Hh). Qed.

Lemma pq_same s s' q : active s' = active s → first s' = first s → tmos s' = tmos s → pqueue s q → pqueue s' q.
Proof. intros Ha Hf Ht []. split; rewrite ?Ha, ?Hf, ?Ht; done. Qed.

Lemma elem_of_snd (q : list (Z * Z)) x : x ∈ q.*2 → ∃ d, (d, x) ∈ q.
Proof. intros (e & -> & He)%list_elem_of_fmap. exists e.1. by destruct e. Qed.
Lemma snd_elem_of (q : list (Z * Z)) d x : (d, x) ∈ q → x ∈ q.*2.
Proof. intros He. apply list_elem_of_fmap. by exists (d, x). Qed.

Lemma time_after_eq_small a b : 0 <= a < 2 ^ 63 → 0 <= b < 2 ^ 63 → time_after_eq a b = Some (b <=? a).
Proof.
  intros Ha Hb. unfold time_after_eq, to_long. rewrite (proj2 (Z.ltb_lt a _)), (proj2 (Z.ltb_lt b _)) by lia.
  rewrite (proj2 (Z.leb_le _ _)), (proj2 (Z.ltb_lt _ _)) by lia. cbn. f_equal. destruct (Z.leb_spec 0 (a - b)), (Z.leb_spec b a); lia.
Qed.

(** ** Removing a timer *)

Definition tm_remove (x : Z) (q : list (Z * Z)) : list (Z * Z) := filter (λ e, e.2 ≠ x) q.

Lemma tm_remove_snd x q : (tm_remove x q).*2 = filter (λ y, y ≠ x) q.*2.
Proof. unfold tm_remove. induction q as [|[d y] q IH]; [done|]. rewrite filter_cons, fmap_cons, filter_cons. cbn. case_decide; cbn; by rewrite IH. Qed.

Lemma tm_remove_elem x q e : e ∈ tm_remove x q ↔ e.2 ≠ x ∧ e ∈ q.
Proof. unfold tm_remove. by rewrite list_elem_of_filter. Qed.

Lemma tm_remove_sorted x q : tm_sorted q → tm_sorted (tm_remove x q).
Proof. apply sorted_filter. Qed.

(** The state after the tree, the first pointer and one node changed. *)
Definition queue_upd (a : lw_tree) (f : Z) (x : Z) (t : ptimer_node) (s : ptimer_st) : ptimer_st :=
  set_tmos (<[x := t]> (tmos s)) (set_first f (set_active a s)).

Lemma first_after k l x r y rest : kbefore k ++ (inorder l ++ x :: inorder r) ++ kafter k = y :: rest → NoDup (y :: rest) →
  (y = x → first_of (inorder r ++ kafter k) = first_of (kbefore k ++ (inorder l ++ inorder r) ++ kafter k)) ∧
  (y ≠ x → y = first_of (kbefore k ++ (inorder l ++ inorder r) ++ kafter k)).
Proof.
  intros Heq Hnd. split.
  - intros ->. destruct (kbefore k) as [|z b] eqn:Hb.
    + destruct (inorder l) as [|z b']; [done|]. cbn in Heq. injection Heq as <- <-. exfalso. cbn in Hnd. apply NoDup_cons in Hnd as [Hx _]. set_solver.
    + cbn in Heq. injection Heq as <- <-. exfalso. apply NoDup_cons in Hnd as [Hx _]. set_solver.
  - intros Hne. destruct (kbefore k) as [|z b]; [|by injection Heq as ->]. destruct (inorder l) as [|z b']; cbn in *; [by injection Heq as ->|by injection Heq as ->].
Qed.

(** What a change of the tree and of one node must do. *)
Lemma queue_upd_ok s q q' a f x t : pqueue s q →
  (∃ t', lw_holds a t' ∧ inorder t' = q'.*2) → dom (ln_nodes a) = dom (ln_nodes (active s)) → f = first_of q'.*2 → is_Some (tmos s !! x) → tm_sorted q' →
  (∀ d y, (d, y) ∈ q' → y ≠ x → (d, y) ∈ q) → (∀ y, y ≠ x → y ∉ q'.*2 → y ∉ q.*2) →
  ((abs_nsec t, x) ∈ q' ∧ (∀ d, (d, x) ∈ q' → d = abs_nsec t) ∧ tm_state t = PTIMER_STATE_ENQUEUED ∧ 0 <= abs_nsec t < 2 ^ 63) ∨ ((x ∉ q'.*2) ∧ tm_state t = PTIMER_STATE_INACTIVE) →
  pqueue (queue_upd a f x t s) q'.
Proof.
  intros Hq Ht Hdom Hf Hx Hs Hold Hout Hxq. split; cbn [active first tmos queue_upd set_tmos set_first set_active]; [done|done| | | | |done].
  - intros d y Hy. destruct (decide (y = x)) as [->|Hne]; [|rewrite lookup_insert_ne by done; by apply (pq_due _ _ Hq), Hold].
    rewrite lookup_insert_eq. exists t. destruct Hxq as [(_ & Hd & Hst & _)|[Hn _]]; [by rewrite (Hd d Hy)|]. by destruct Hn; eapply snd_elem_of.
  - intros d y Hy. destruct (decide (y = x)) as [->|Hne]; [|by eapply (pq_range _ _ Hq), Hold].
    destruct Hxq as [(_ & Hd & _ & Hr)|[Hn _]]; [by rewrite (Hd d Hy)|]. by destruct Hn; eapply snd_elem_of.
  - intros y ty. destruct (decide (y = x)) as [->|Hne]; [|rewrite lookup_insert_ne by done; intros Hty Hy; by eapply (pq_idle _ _ Hq), Hout].
    rewrite lookup_insert_eq. intros [= <-] Hy. destruct Hxq as [(He & _)|[_ Hst]]; [|done]. by destruct Hy; eapply snd_elem_of.
  - rewrite dom_insert_lookup_L by done. by rewrite (pq_dom _ _ Hq).
Qed.

Lemma remove_queued fuel s q x d : pqueue s q → (d, x) ∈ q → (rounds (length q) <= fuel)%nat →
  ∃ a f t, tmos s !! x = Some t ∧ remove_ptimer fuel s x = Some (queue_upd a f x (set_state PTIMER_STATE_INACTIVE t) s) ∧
    pqueue (queue_upd a f x (set_state PTIMER_STATE_INACTIVE t) s) (tm_remove x q).
Proof.
  intros Hq Hx Hf. destruct (pq_tree _ _ Hq) as (t0 & Hp & Hin). destruct (pq_due _ _ Hq d x Hx) as (tm & Htm & Hd & Hst).
  assert (Hxl : x ∈ inorder t0) by (rewrite Hin; by eapply snd_elem_of). destruct (lw_addr _ _ _ Hp Hxl) as (_ & Hx0 & _).
  pose proof (rbt_height _ (lh_rbt _ _ Hp)) as Hht. rewrite Hin, length_fmap in Hht. fold (rounds (length q)) in Hht.
  destruct (tree_path t0 x Hxl) as (k & c & l & r & ->). pose proof (h_nodup _ _ (lh_holds _ _ Hp)) as Hnd.
  destruct (lw_erase_spec fuel (active s) k c l x r Hp) as (a & t1 & Ha & Hp1 & Hdom & Hin1); [lia|].
  assert (Hin2 : inorder t1 = (tm_remove x q).*2) by (by rewrite Hin1, tm_remove_snd, <- Hin, erase_sequence).
  pose proof (rb_next_spec fuel (active s) k c l x r Hp) as Hnext. specialize (Hnext ltac:(lia)).
  rewrite inorder_fill_eq in Hin. cbn [inorder] in Hin.
  set (f := if first s =? x then first_of (inorder r ++ kafter k) else first s).
  exists a, f, tm. split; [done|]. assert (Hff : f = first_of (tm_remove x q).*2).
  { rewrite <- Hin2, Hin1. unfold f. rewrite (pq_first _ _ Hq). rewrite inorder_fill_eq in Hnd. cbn [inorder] in Hnd. rewrite Hin in Hnd.
    destruct q.*2 as [|y rest] eqn:E; [by destruct (kbefore k), (inorder l)|]. destruct (first_after k l x r y rest Hin Hnd) as [H1 H2]. cbn.
    destruct (Z.eqb_spec y x); auto. }
  split.
  - unfold remove_ptimer. rewrite (proj2 (Z.eqb_neq x 0) Hx0), Htm. cbn [mbind option_bind]. unfold enqueued. rewrite Hst. cbn [negb Z.eqb].
    change (negb (negb (Z.land PTIMER_STATE_ENQUEUED PTIMER_STATE_ENQUEUED =? 0))) with false. cbn iota.
    unfold f. destruct (first s =? x); [rewrite Hnext|]; cbn [mbind option_bind active set_first]; rewrite Ha; cbn [mbind option_bind]; unfold tmo_upd; cbn; rewrite Htm; done.
  - apply (queue_upd_ok s q); [done| |done|done|by rewrite Htm|by apply tm_remove_sorted, Hq| | |].
    + by exists t1.
    + intros e y Hy Hne. apply tm_remove_elem in Hy as [_ Hy]. done.
    + intros y Hne Hy Hy'. apply Hy. apply elem_of_snd in Hy' as [e He]. apply (snd_elem_of _ e), tm_remove_elem. done.
    + right. split; [|done]. intros [e He]%elem_of_snd. apply tm_remove_elem in He as [He _]. done.
Qed.

Lemma remove_idle fuel s q x t : pqueue s q → tmos s !! x = Some t → x ∉ q.*2 → remove_ptimer fuel s x = Some s.
Proof.
  intros Hq Hx Hn. unfold remove_ptimer. destruct (x =? 0); [done|]. rewrite Hx. cbn [mbind option_bind]. unfold enqueued.
  by rewrite (pq_idle _ _ Hq x t Hx Hn).
Qed.

(** ** Adding a timer *)

Definition tm_insert (d x : Z) (q : list (Z * Z)) : list (Z * Z) := filter (λ e, e.1 < d) q ++ (d, x) :: filter (λ e, d <= e.1) q.

Definition due (s : ptimer_st) (x : Z) : Z := from_option abs_nsec 0 (tmos s !! x).

(** The nodes of a tree are known timers, in the order of their due times. *)
Definition known (s : ptimer_st) (l : list Z) : Prop :=
  (∀ x, x ∈ l → is_Some (tmos s !! x) ∧ 0 <= due s x < 2 ^ 63) ∧ StronglySorted (λ x y, due s x <= due s y) l.

Lemma pq_known s q : pqueue s q → known s q.*2.
Proof.
  intros Hq. split.
  - intros x [d Hx]%elem_of_snd. destruct (pq_due _ _ Hq d x Hx) as (t & Ht & Hd & _). unfold due. rewrite Ht. split; [eauto|]. cbn. rewrite Hd. by eapply pq_range.
  - assert (Hd : ∀ d x, (d, x) ∈ q → due s x = d) by (intros d x Hx; destruct (pq_due _ _ Hq d x Hx) as (t & Ht & <- & _); unfold due; by rewrite Ht).
    pose proof (pq_sorted _ _ Hq) as Hs. clear Hq. induction Hs as [|[d x] q Hs IH Hx]; cbn; [constructor|]. constructor; [apply IH; intros; apply Hd; by right|].
    rewrite Forall_forall in Hx. apply Forall_forall. intros y [e Hy]%elem_of_snd. rewrite (Hd d x), (Hd e y) by (by left || by right). exact (Hx _ Hy).
Qed.

Lemma lw_link_load p k t : lw_holds p (fill k t) →
  match link_of k with Link_root => Some (ln_root p) | Link_child d x => ln_get (ln_child d) p x end = Some (default 0 (ptr t)) ∧
  (ptr t = None ∨ default 0 (ptr t) ≠ 0).
Proof.
  intros Hp. destruct k as [|[d c z b] k]; [|exact (sim_child_at p k d c t z b Hp)]. cbn [link_of]. pose proof (h_root _ _ (lh_holds _ _ Hp)) as Hr.
  cbn in Hr. unfold ptr_of in Hr. destruct (Z.eqb_spec (ln_root p) 0) as [->|]; rewrite <- Hr; cbn; auto.
Qed.

Lemma enqueue_walk_spec fuel s key k t :
  lw_holds (active s) (fill k t) → known s (inorder t) → 0 <= key < 2 ^ 63 → (height t <= fuel)%nat →
  Forall (λ y, due s y < key) (kbefore k) → Forall (λ y, key <= due s y) (kafter k) →
  ∃ k', enqueue_walk fuel s key (link_of k) (default 0 (kparent k)) (bool_decide (kbefore k = [])) =
      Some (link_of k', default 0 (kparent k'), bool_decide (kbefore k' = [])) ∧ fill k' E = fill k t ∧
    Forall (λ y, due s y < key) (kbefore k') ∧ Forall (λ y, key <= due s y) (kafter k').
Proof.
  revert fuel k. induction t as [|c l IHl x r IHr]; intros fuel k Hp [Hkn Ho] Hkey Hf Hb Ha; destruct (lw_link_load _ _ _ Hp) as [Hl Hl0].
  { exists k. split; [|done]. destruct fuel; cbn [enqueue_walk]; by rewrite Hl. }
  destruct fuel as [|fuel]; [cbn in Hf; lia|]. cbn [enqueue_walk]. rewrite Hl. cbn [ptr default from_option id mbind option_bind height] in *.
  destruct Hl0 as [|Hx0]; [done|]. rewrite (proj2 (Z.eqb_neq x 0) Hx0). cbn [inorder] in *. destruct (Hkn x) as [[tx Hx] Hdx]; [set_solver|]. rewrite Hx. cbn [mbind option_bind].
  assert (Hdue : due s x = abs_nsec tx) by (unfold due; by rewrite Hx). rewrite <- Hdue, time_after_eq_small by done. cbn [mbind option_bind].
  apply sorted_app in Ho as (Hol & [Hor Hxr]%StronglySorted_inv & Hlr). assert (Hkl : known s (inorder l)) by (split; [intros; apply Hkn; set_solver|done]).
  assert (Hkr : known s (inorder r)) by (split; [intros; apply Hkn; set_solver|done]). rewrite Forall_forall in Hxr.
  destruct (Z.leb_spec key (due s x)) as [Hle|Hlt].
  - apply (IHl fuel (F L c x r :: k)); [exact Hp|done|done|lia|exact Hb|]. cbn [kafter]. constructor; [done|]. rewrite Forall_app. split; [|done].
    apply Forall_forall. intros y Hy. specialize (Hxr y Hy). cbn in Hxr. lia.
  - assert (bool_decide (kbefore (F R c x l :: k) = []) = false) as Hfalse by (apply bool_decide_false; cbn; by destruct (kbefore k), (inorder l)).
    rewrite <- Hfalse. apply (IHr fuel (F R c x l :: k)); [exact Hp|done|done|lia| |exact Ha]. cbn [kbefore]. rewrite !Forall_app. split; [done|]. split; [|by constructor].
    apply Forall_forall. intros y Hy. specialize (Hlr y x Hy ltac:(left)). cbn in Hlr. lia.
Qed.

Lemma pq_due_eq s q d x : pqueue s q → (d, x) ∈ q → due s x = d.
Proof. intros Hq Hx. destruct (pq_due _ _ Hq d x Hx) as (t & Ht & <- & _). unfold due. by rewrite Ht. Qed.

(** The place where a new timer goes. *)
Lemma tm_insert_at s q d x l1 l2 : pqueue s q → q.*2 = l1 ++ l2 → Forall (λ y, due s y < d) l1 → Forall (λ y, d <= due s y) l2 →
  (tm_insert d x q).*2 = l1 ++ x :: l2.
Proof.
  intros Hq Heq H1 H2. apply fmap_app_inv in Heq as (q1 & q2 & -> & -> & ->). rewrite Forall_forall in H1, H2. unfold tm_insert.
  assert (Hd1 : ∀ e, e ∈ q1 → e.1 < d) by (intros [a y] He; cbn; rewrite <- (pq_due_eq s _ a y Hq ltac:(set_solver)); apply H1; by eapply snd_elem_of).
  assert (Hd2 : ∀ e, e ∈ q2 → d <= e.1) by (intros [a y] He; cbn; rewrite <- (pq_due_eq s _ a y Hq ltac:(set_solver)); apply H2; by eapply snd_elem_of).
  rewrite !filter_app, (filter_whole _ q1), (filter_none _ q2), (filter_none _ q1), (filter_whole _ q2), app_nil_r; [|done|intros e He; specialize (Hd1 e He); lia|intros e He; specialize (Hd2 e He); lia|done].
  cbn. by rewrite fmap_app.
Qed.

Lemma tm_insert_elem d x q e : e ∈ tm_insert d x q ↔ e = (d, x) ∨ e ∈ q.
Proof.
  unfold tm_insert. rewrite elem_of_app, elem_of_cons, !list_elem_of_filter. destruct (decide (e.1 < d)); [tauto|]. split; [tauto|]. intros [|]; [tauto|]. right. right. split; [lia|done].
Qed.

Lemma tm_insert_sorted d x q : tm_sorted q → tm_sorted (tm_insert d x q).
Proof.
  intros Hs. unfold tm_sorted, tm_insert. apply sorted_app. split; [by apply sorted_filter|]. split.
  - constructor; [by apply sorted_filter|]. apply Forall_forall. intros e [He _]%list_elem_of_filter. done.
  - intros a b [Ha _]%list_elem_of_filter [->|[Hb _]%list_elem_of_filter]%elem_of_cons; cbn; lia.
Qed.

Lemma first_of_app l1 x l2 : first_of (l1 ++ x :: l2) = if bool_decide (l1 = []) then x else first_of l1.
Proof. by destruct l1. Qed.
Lemma first_of_left l1 l2 : l1 ≠ [] → first_of (l1 ++ l2) = first_of l1.
Proof. by destruct l1. Qed.

Lemma enqueue_idle fuel s q x t : pqueue s q → tmos s !! x = Some t → x ∉ q.*2 → 0 <= abs_nsec t < 2 ^ 63 → (rounds (length q) <= fuel)%nat →
  ∃ a f, enqueue_ptimer fuel s x = Some (queue_upd a f x (set_state PTIMER_STATE_ENQUEUED t) s) ∧
    pqueue (queue_upd a f x (set_state PTIMER_STATE_ENQUEUED t) s) (tm_insert (abs_nsec t) x q).
Proof.
  intros Hq Hx Hn Hr Hf. destruct (pq_tree _ _ Hq) as (t0 & Hp & Hin). pose proof (rbt_height _ (lh_rbt _ _ Hp)) as Hht. rewrite Hin, length_fmap in Hht. fold (rounds (length q)) in Hht.
  assert (∃ n, ln_nodes (active s) !! x = Some n) as [n Hnode] by (apply elem_of_dom; rewrite <- (pq_dom _ _ Hq); apply elem_of_dom; eauto).
  destruct (wf_key _ (lh_wf _ _ Hp) x n Hnode) as [Hx0 _].
  destruct (enqueue_walk_spec fuel s (abs_nsec t) [] t0 Hp) as (k & Hw & Hk & Hb & Ha); [rewrite Hin; by apply pq_known|done|lia|constructor..|].
  cbn [link_of kparent kbefore] in Hw. cbn [fill] in Hk. rewrite <- Hk in Hp, Hin, Hht. rewrite <- Hin in Hn.
  destruct (lw_insert_spec fuel (active s) k x n Hp Hn Hnode) as (a & t1 & Hins & Hp1 & Hdom & Hin1); [lia|].
  assert (Hin2 : inorder t1 = (tm_insert (abs_nsec t) x q).*2) by (rewrite (tm_insert_at s q _ x (kbefore k) (kafter k)); [done|done|by rewrite <- Hin, inorder_fill_eq|done|done]).
  set (f := if bool_decide (kbefore k = []) then x else first s).
  exists a, f. split.
  - unfold enqueue_ptimer. rewrite (proj2 (Z.eqb_neq x 0) Hx0), Hx. cbn [mbind option_bind]. unfold enqueued. rewrite (pq_idle _ _ Hq x t Hx) by (by rewrite <- Hin).
    cbn [negb]. change (default 0 None) with 0 in Hw. change (bool_decide ([] = [])) with true in Hw.
    change (negb (Z.land PTIMER_STATE_INACTIVE PTIMER_STATE_ENQUEUED =? 0)) with false. cbn iota. rewrite Hw. cbn [mbind option_bind]. unfold f.
    destruct (rb_link_node (active s) x (default 0 (kparent k)) (link_of k)) as [a1|] eqn:E1; [|done]. cbn [mbind option_bind] in Hins.
    destruct (bool_decide (kbefore k = [])); cbn [active set_first]; rewrite E1; cbn [mbind option_bind]; rewrite Hins; cbn [mbind option_bind]; unfold tmo_upd; cbn; rewrite Hx; cbn;
      rewrite (pq_idle _ _ Hq x t Hx) by (by rewrite <- Hin); done.
  - apply (queue_upd_ok s q); [done|by exists t1|done| |by rewrite Hx|by apply tm_insert_sorted, Hq| | |].
    + unfold f. rewrite <- Hin2, Hin1, first_of_app. destruct (bool_decide (kbefore k = [])) eqn:Hk0; [done|]. apply bool_decide_eq_false in Hk0. rewrite (pq_first _ _ Hq), <- Hin, inorder_fill_eq. cbn. by rewrite first_of_left.
    + intros d y [[= -> ->]|Hy]%tm_insert_elem Hne; done.
    + intros y Hne Hy Hy'. apply Hy. apply elem_of_snd in Hy' as [e He]. apply (snd_elem_of _ e), tm_insert_elem. by right.
    + left. cbn. split; [apply tm_insert_elem; by left|]. split; [|done]. intros d [[= ->]|Hd]%tm_insert_elem; [done|]. exfalso. apply Hn. rewrite Hin. by eapply snd_elem_of.
Qed.

Lemma pq_node_ne s q x : pqueue s q → is_Some (tmos s !! x) → x ≠ 0.
Proof.
  intros Hq Hx. destruct (pq_tree _ _ Hq) as (t & Hp & _). assert (x ∈ dom (ln_nodes (active s))) as [n Hn]%elem_of_dom by (rewrite <- (pq_dom _ _ Hq); by apply elem_of_dom).
  by destruct (wf_key _ (lh_wf _ _ Hp) x n Hn).
Qed.

(** Setting the due time of a timer that is not in the queue. *)
Lemma pq_set_abs s q x t d : pqueue s q → tmos s !! x = Some t → x ∉ q.*2 → pqueue (set_tmos (<[x := set_abs d t]> (tmos s)) s) q.
Proof.
  intros Hq Hx Hn. apply (pq_same (queue_upd (active s) (first s) x (set_abs d t) s)); [done..|].
  apply (queue_upd_ok s q); [done|apply Hq|done|apply Hq|by rewrite Hx|apply Hq|done..|]. right. split; [done|]. cbn. by eapply (pq_idle _ _ Hq).
Qed.

(** ** What the queue operations leave alone *)

Definition tm_info (t : ptimer_node) : Z * Z * Z * Z := (msec t, phandle t, flags t, ctx t).

Record queue_only (s s' : ptimer_st) : Prop := {
  qo_info x : tm_info <$> tmos s' !! x = tm_info <$> tmos s !! x;
  qo_ring : msgs s' = msgs s ∧ p_head s' = p_head s ∧ p_tail s' = p_tail s;
  qo_rest : ptimer_lock s' = ptimer_lock s ∧ lazy_tim_retry s' = lazy_tim_retry s ∧ expired s' = expired s ∧ kicks s' = kicks s ∧ thread s' = thread s
}.

#[global] Instance queue_only_preorder : PreOrder queue_only.
Proof.
  split.
  - intros s. by split.
  - intros s1 s2 s3 [H1 H2 H3] [H4 H5 H6]. split; [intros x; by rewrite H4|intuition congruence..].
Qed.

Lemma queue_upd_only a f x t t' s : tmos s !! x = Some t → tm_info t' = tm_info t → queue_only s (queue_upd a f x t' s).
Proof.
  intros Hx Ht. split; [|done..]. intros y. cbn. destruct (decide (y = x)) as [->|]; [by rewrite lookup_insert_eq, Hx; cbn; rewrite Ht|by rewrite lookup_insert_ne].
Qed.
Lemma set_lazy_only v s : queue_only s (set_lazy v s).
Proof. by split. Qed.
Lemma add_post_only p s : queue_only s (add_post p s).
Proof. by split. Qed.

Lemma add_idle fuel s q x t : pqueue s q → tmos s !! x = Some t → x ∉ q.*2 → 0 <= abs_nsec t < 2 ^ 63 → (rounds (length q) <= fuel)%nat →
  ∃ s', add_ptimer fuel s x = Some s' ∧ pqueue s' (tm_insert (abs_nsec t) x q) ∧ queue_only s s' ∧ posts s' = posts s ∧
    lazy_tim s' = if first_of (tm_insert (abs_nsec t) x q).*2 =? x then launch_tmr (u64 (msec t * NANO_PER_MICROSECOND)) else lazy_tim s.
Proof.
  intros Hq Hx Hn Hr Hf. destruct (enqueue_idle fuel s q x t Hq Hx Hn Hr Hf) as (a & f & He & Hq').
  assert (Hx0 : x ≠ 0) by (apply (pq_node_ne s q); [done|]; rewrite Hx; eauto).
  unfold add_ptimer. rewrite (proj2 (Z.eqb_neq x 0) Hx0), He. cbn [mbind option_bind]. rewrite (pq_first _ _ Hq').
  pose proof (queue_upd_only a f x t (set_state PTIMER_STATE_ENQUEUED t) s Hx eq_refl) as Ho.
  destruct (first_of (tm_insert (abs_nsec t) x q).*2 =? x).
  - cbn. rewrite lookup_insert_eq. cbn. eexists. split; [done|]. split; [by apply (pq_same (queue_upd a f x (set_state PTIMER_STATE_ENQUEUED t) s))|].
    split; [|done]. etransitivity; [exact Ho|]. apply set_lazy_only.
  - eexists. split; [done|]. done.
Qed.

(** ** Time *)

(** The clock and the delays stay in the range where times compare as numbers; the delay of a periodic timer is positive. *)
Definition clock_ok (now : timespec) : Prop := 0 <= now.1 * NANO_PER_SECOND + now.2 < 2 ^ 62.
Definition delay_u32 (m : Z) : Prop := 0 <= m < 2 ^ 32.
Definition delay_ok (m : Z) : Prop := 0 < m < 2 ^ 32.

Lemma delay_ok_u32 m : delay_ok m → delay_u32 m.
Proof. unfold delay_ok, delay_u32. lia. Qed.

Lemma nsec_small now : clock_ok now → nsec_of now = now.1 * NANO_PER_SECOND + now.2.
Proof. unfold clock_ok, nsec_of, u64. intros H. apply Z.mod_small. lia. Qed.
Lemma delay_small m : delay_u32 m → u64 (m * NANO_PER_MICROSECOND) = m * NANO_PER_MICROSECOND.
Proof. unfold delay_u32, u64, NANO_PER_MICROSECOND. intros H. apply Z.mod_small. lia. Qed.
Lemma due_small now m : clock_ok now → delay_u32 m → due_at now m = nsec_of now + m * NANO_PER_MICROSECOND.
Proof.
  intros Hc Hm. rewrite nsec_small by done. unfold due_at. rewrite delay_small by done. unfold clock_ok, delay_u32, u64, NANO_PER_MICROSECOND in *. apply Z.mod_small. lia.
Qed.
Lemma due_bounds now m : clock_ok now → delay_u32 m → 0 <= nsec_of now < 2 ^ 63 ∧ nsec_of now <= due_at now m < 2 ^ 63.
Proof. intros Hc Hm. rewrite due_small by done. rewrite nsec_small by done. unfold clock_ok, delay_u32, NANO_PER_MICROSECOND in *. lia. Qed.
Lemma due_range now m : clock_ok now → delay_ok m → 0 <= nsec_of now < 2 ^ 63 ∧ nsec_of now < due_at now m < 2 ^ 63.
Proof.
  intros Hc Hm. pose proof (due_bounds now m Hc (delay_ok_u32 m Hm)) as Hb. rewrite (due_small now m Hc (delay_ok_u32 m Hm)) in *.
  unfold delay_ok, NANO_PER_MICROSECOND in *. lia.
Qed.

Lemma rounds_mono m n : (m <= n)%nat → (rounds m <= rounds n)%nat.
Proof. intros H. unfold rounds. apply Nat.mul_le_mono_l, Nat.log2_le_mono. lia. Qed.

(** ** The interval timer fires *)

Definition periodic (s : ptimer_st) (x : Z) : option Z :=
  t ← tmos s !! x; if Z.land (flags t) PTIMER_ONESHOT =? 0 then Some (msec t) else None.
(** A periodic timer enters the queue again. *)
Definition tm_again (now : timespec) (per : Z → option Z) (q : list (Z * Z)) (e : Z * Z) : list (Z * Z) :=
  match per e.2 with Some m => tm_insert (due_at now m) e.2 q | None => q end.
Definition handler_of (s : ptimer_st) (x : Z) : Z := from_option phandle 0 (tmos s !! x).

Lemma periodic_only s s' x : queue_only s s' → periodic s' x = periodic s x.
Proof.
  intros [H _ _]. specialize (H x). unfold periodic. destruct (tmos s' !! x), (tmos s !! x); try done. cbn in *. by injection H as -> _ -> _.
Qed.
Lemma handler_only s s' x : queue_only s s' → handler_of s' x = handler_of s x.
Proof. intros [H _ _]. specialize (H x). unfold handler_of. destruct (tmos s' !! x), (tmos s !! x); try done. cbn in *. by injection H as _ -> _ _. Qed.

Lemma tm_remove_head d x q : x ∉ q.*2 → tm_remove x ((d, x) :: q) = q.
Proof.
  intros Hx. unfold tm_remove. rewrite filter_cons, decide_False by (intros H; by apply H). apply filter_whole. intros [e y] Hy; cbn; intros ->. apply Hx. by eapply snd_elem_of.
Qed.

Lemma timeout_one_spec fuel s now d x q : pqueue s ((d, x) :: q) → clock_ok now → (∀ m, periodic s x = Some m → delay_ok m) → (rounds (S (length q)) <= fuel)%nat →
  ∃ s', timeout_one fuel s now x = Some s' ∧ pqueue s' (tm_again now (periodic s) q (d, x)) ∧ queue_only s s' ∧ posts s' = posts s ++ [(handler_of s x, x)].
Proof.
  intros Hq Hc Hm Hf. pose proof (pq_nodup _ _ Hq) as [Hx _]%NoDup_cons.
  destruct (remove_queued fuel s _ x d Hq) as (a & f & t & Ht & Hrm & Hq1); [left|done|]. rewrite tm_remove_head in Hq1 by done.
  unfold timeout_one. rewrite Hrm. cbn [mbind option_bind]. set (s1 := queue_upd a f x (set_state PTIMER_STATE_INACTIVE t) s) in *.
  assert (Hx1 : tmos s1 !! x = Some (set_state PTIMER_STATE_INACTIVE t)) by apply lookup_insert_eq. rewrite Hx1. cbn [mbind option_bind flags set_state msec phandle].
  assert (Ho1 : queue_only s s1) by (by apply (queue_upd_only a f x t)).
  unfold tm_again, handler_of. cbn [snd]. unfold periodic in *. rewrite Ht in *. cbn [mbind option_bind from_option] in *.
  destruct (Z.land (flags t) PTIMER_ONESHOT =? 0) eqn:Hper; cbn [negb].
  - specialize (Hm _ eq_refl). unfold tmo_upd. rewrite Hx1. cbn [mbind option_bind]. set (t2 := set_abs (due_at now (msec t)) (set_state PTIMER_STATE_INACTIVE t)).
    set (s2 := set_tmos (<[x := t2]> (tmos s1)) s1). destruct (due_range now (msec t) Hc Hm) as [Hnr Hdr].
    assert (Hq2 : pqueue s2 q) by (by apply pq_set_abs).
    destruct (add_idle fuel s2 q x t2 Hq2) as (s3 & Had & Hq3 & Ho3 & Hpo & _); [apply lookup_insert_eq|done|change (abs_nsec t2) with (due_at now (msec t)); lia| |].
    { etransitivity; [|exact Hf]. apply rounds_mono. lia. }
    rewrite Had. cbn [mbind option_bind]. eexists. split; [done|]. split; [by apply (pq_same s3)|]. split; [|cbn; by rewrite Hpo].
    etransitivity; [exact Ho1|]. etransitivity; [|etransitivity; [exact Ho3|apply add_post_only]].
    apply (queue_upd_only (active s1) (first s1) x (set_state PTIMER_STATE_INACTIVE t) t2 s1); done.
  - eexists. split; [done|]. split; [by apply (pq_same s1)|]. split; [|done]. etransitivity; [exact Ho1|]. apply add_post_only.
Qed.

Lemma tm_insert_app d x q1 q2 : Forall (λ e, e.1 < d) q1 → tm_insert d x (q1 ++ q2) = q1 ++ tm_insert d x q2.
Proof.
  intros H. rewrite Forall_forall in H. unfold tm_insert. rewrite !filter_app, (filter_whole _ q1), (filter_none _ q1); [by rewrite <- app_assoc| |done].
  intros e He. specialize (H e He). lia.
Qed.

Lemma tm_insert_length d x q : length (tm_insert d x q) = S (length q).
Proof.
  unfold tm_insert. rewrite length_app. cbn. rewrite Nat.add_succ_r. f_equal. induction q as [|e q IH]; [done|]. rewrite !filter_cons.
  destruct (decide (e.1 < d)), (decide (d <= e.1)); cbn; lia.
Qed.

(** The queue after the timers [E] that are due left it. *)
Definition tm_after (now : timespec) (per : Z → option Z) (E rest : list (Z * Z)) : list (Z * Z) := foldl (tm_again now per) rest E.

Lemma tm_again_late now per q e : clock_ok now → (∀ m, per e.2 = Some m → delay_ok m) →
  Forall (λ e, nsec_of now < e.1) q → Forall (λ e, nsec_of now < e.1) (tm_again now per q e).
Proof.
  intros Hc Hm Hq. unfold tm_again. destruct (per e.2) as [m|]; [|done]. specialize (Hm m eq_refl). rewrite Forall_forall in *.
  intros b [->|Hb]%tm_insert_elem; [|by apply Hq]. cbn. by apply due_range.
Qed.

Lemma tm_after_ext now per per' E rest : (∀ x, per x = per' x) → tm_after now per E rest = tm_after now per' E rest.
Proof. intros H. unfold tm_after. revert rest. induction E as [|e E IH]; intros rest; cbn; [done|]. rewrite IH. f_equal. unfold tm_again. by rewrite H. Qed.

Lemma tm_again_app now per E rest e : clock_ok now → (∀ m, per e.2 = Some m → delay_ok m) → Forall (λ e, e.1 <= nsec_of now) E →
  tm_again now per (E ++ rest) e = E ++ tm_again now per rest e.
Proof.
  intros Hc Hm HE. unfold tm_again. destruct (per e.2) as [m|]; [|done]. apply tm_insert_app. eapply Forall_impl; [exact HE|]. cbn. intros b Hb.
  destruct (due_range now m Hc (Hm _ eq_refl)). lia.
Qed.

Lemma tm_again_length now per q e : (length (tm_again now per q e) <= S (length q))%nat.
Proof. unfold tm_again. destruct (per e.2); [rewrite tm_insert_length|]; lia. Qed.

(** The test of the loop at the first timer of the queue. *)
Lemma timeout_loop_eq n fuel s now d x q : pqueue s ((d, x) :: q) → clock_ok now →
  timeout_loop n fuel s now (first s) =
    (if d <=? nsec_of now then
       match n with
       | O => None
       | S n => s ← timeout_one fuel s now x; if first s =? 0 then Some (s, None) else timeout_loop n fuel s now (first s)
       end
     else Some (s, Some x)).
Proof.
  intros Hq Hc. rewrite (pq_first _ _ Hq). change (first_of ((d, x) :: q).*2) with x.
  destruct (pq_due _ _ Hq d x ltac:(left)) as (t & Ht & Hd & _). pose proof (pq_range _ _ Hq d x ltac:(left)) as Hdr.
  assert (Hn : 0 <= nsec_of now < 2 ^ 63) by (rewrite nsec_small by done; unfold clock_ok in Hc; lia).
  destruct n; cbn [timeout_loop]; rewrite Ht; cbn [mbind option_bind]; by rewrite Hd, time_after_eq_small.
Qed.

Lemma pq_first_ne s q : pqueue s q → (first s =? 0) = bool_decide (q = []).
Proof.
  intros Hq. rewrite (pq_first _ _ Hq). destruct q as [|[d x] q]; [done|]. rewrite bool_decide_false by done. apply Z.eqb_neq. cbn.
  destruct (pq_tree _ _ Hq) as (t & Hp & Hin). apply (lw_addr _ _ x Hp). rewrite Hin. left.
Qed.

Lemma timeout_loop_spec E : ∀ n fuel s now rest,
  pqueue s (E ++ rest) → E ++ rest ≠ [] → clock_ok now → Forall (λ e, e.1 <= nsec_of now) E → Forall (λ e, nsec_of now < e.1) rest →
  (∀ x m, periodic s x = Some m → delay_ok m) → (length E <= n)%nat → (rounds (length (E ++ rest)) <= fuel)%nat →
  let rest' := tm_after now (periodic s) E rest in
  ∃ s', timeout_loop n fuel s now (first s) = Some (s', if bool_decide (rest' = []) then None else Some (first_of rest'.*2)) ∧
    pqueue s' rest' ∧ queue_only s s' ∧ posts s' = posts s ++ ((λ e, (handler_of s e.2, e.2)) <$> E).
Proof.
  induction E as [|[d x] E IH]; intros n fuel s now rest Hq Hne Hc HE Hr Hm Hrd Hf; cbn zeta.
  - cbn [app] in *. destruct rest as [|[d x] rest]; [done|]. rewrite (timeout_loop_eq n fuel s now d x rest Hq Hc). apply Forall_cons in Hr as [Hd _]. cbn in Hd.
    rewrite (proj2 (Z.leb_gt _ _) Hd). exists s. split; [done|]. split; [done|]. split; [done|]. cbn. by rewrite app_nil_r.
  - cbn [app] in *. rewrite (timeout_loop_eq n fuel s now d x (E ++ rest) Hq Hc). apply Forall_cons in HE as [Hd HE]. cbn in Hd. rewrite (proj2 (Z.leb_le _ _) Hd).
    destruct n as [|n]; [cbn in Hrd; lia|].
    destruct (timeout_one_spec fuel s now d x (E ++ rest) Hq Hc (Hm x)) as (s1 & -> & Hq1 & Ho1 & Hp1); [exact Hf|]. cbn [mbind option_bind].
    rewrite tm_again_app in Hq1 by (done || apply Hm). pose proof (tm_again_length now (periodic s) rest (d, x)) as Hlen.
    assert (Hr1 : Forall (λ e, nsec_of now < e.1) (tm_again now (periodic s) rest (d, x))) by (apply tm_again_late; [done|apply Hm|done]).
    change (tm_after now (periodic s) ((d, x) :: E) rest) with (tm_after now (periodic s) E (tm_again now (periodic s) rest (d, x))). set (rest1 := tm_again now (periodic s) rest (d, x)) in *. rewrite (pq_first_ne _ _ Hq1). case_bool_decide as Hnil.
    + apply app_nil in Hnil as [-> Hr1']. cbn [tm_after foldl]. rewrite Hr1' in *. exists s1. done.
    + assert (Hper : ∀ y, periodic s y = periodic s1 y) by (intros y; symmetry; by apply periodic_only).
      destruct (IH n fuel s1 now rest1 Hq1 Hnil Hc HE Hr1) as (s' & -> & Hq' & Ho' & Hp'); [intros y m; rewrite <- Hper; apply Hm|cbn in Hrd; lia| |].
      { etransitivity; [|exact Hf]. apply rounds_mono. cbn. rewrite !length_app in *. lia. }
      rewrite (tm_after_ext now (periodic s) (periodic s1) E rest1 Hper). exists s'. split; [done|]. split; [done|]. split; [by etransitivity|].
      rewrite Hp', Hp1, <- app_assoc. f_equal. cbn. f_equal. apply list_fmap_ext. intros _ e _. by rewrite (handler_only s s1).
Qed.

Lemma tm_split b q : tm_sorted q → q = filter (λ e, e.1 <= b) q ++ filter (λ e, b < e.1) q.
Proof.
  induction 1 as [|e q Hs IH He]; [done|]. rewrite !filter_cons. rewrite Forall_forall in He. destruct (decide (e.1 <= b)) as [Hle|Hgt].
  - rewrite decide_False by lia. cbn. by f_equal.
  - rewrite decide_True by lia. rewrite (filter_none _ q), (filter_whole _ q); [done|..]; intros y Hy; specialize (He y Hy); cbn in He; lia.
Qed.

Lemma tm_after_late now per E rest : clock_ok now → (∀ x m, per x = Some m → delay_ok m) →
  Forall (λ e, nsec_of now < e.1) rest → Forall (λ e, nsec_of now < e.1) (tm_after now per E rest).
Proof. intros Hc Hm. revert rest. induction E as [|e E IH]; intros rest Hr; cbn; [done|]. apply IH, tm_again_late; [done|apply Hm|done]. Qed.

Definition tm_due (now : timespec) (q : list (Z * Z)) : list (Z * Z) := filter (λ e, e.1 <= nsec_of now) q.
Definition tm_left (now : timespec) (per : Z → option Z) (q : list (Z * Z)) : list (Z * Z) :=
  tm_after now per (tm_due now q) (filter (λ e, nsec_of now < e.1) q).

(** [deal_timeout_sig]: the timers that are due leave in order, and the interval timer is set for the first of the others. *)
Lemma deal_timeout_spec n fuel s q now : pqueue s q → clock_ok now → (∀ x m, periodic s x = Some m → delay_ok m) →
  (length q <= n)%nat → (rounds (length q) <= fuel)%nat →
  ∃ s', deal_timeout_sig n fuel s now = Some s' ∧ pqueue s' (tm_left now (periodic s) q) ∧ queue_only s s' ∧
    posts s' = posts s ++ ((λ e, (handler_of s e.2, e.2)) <$> tm_due now q) ∧
    match tm_left now (periodic s) q with [] => True | e :: _ => nsec_of now < e.1 < 2 ^ 63 ∧ lazy_tim s' = launch_tmr (e.1 - nsec_of now) end.
Proof.
  intros Hq Hc Hm Hn Hf. unfold deal_timeout_sig. rewrite (pq_first_ne _ _ Hq). case_bool_decide as Hnil.
  { subst q. exists s. split; [done|]. split; [done|]. split; [done|]. split; [cbn; by rewrite app_nil_r|done]. }
  pose proof (tm_split (nsec_of now) q (pq_sorted _ _ Hq)) as Hsp. fold (tm_due now q) in Hsp. unfold tm_left. set (rest := filter (λ e, nsec_of now < e.1) q) in *.
  assert (Hlate : Forall (λ e, nsec_of now < e.1) rest) by (apply Forall_forall; intros e [He _]%list_elem_of_filter; done).
  destruct (timeout_loop_spec (tm_due now q) n fuel s now rest) as (s' & -> & Hq' & Ho & Hp); rewrite <- ?Hsp; try done.
  { apply Forall_forall. intros e [He _]%list_elem_of_filter. done. }
  { rewrite Hsp, length_app in Hn. lia. }
  cbn [mbind option_bind]. pose proof (tm_after_late now (periodic s) (tm_due now q) rest Hc Hm Hlate) as Hl.
  destruct (tm_after now (periodic s) (tm_due now q) rest) as [|[d x] q'] eqn:Eq; [by exists s'|].
  change (bool_decide ((d, x) :: q' = [])) with false. cbn iota. change (first_of ((d, x) :: q').*2) with x. apply Forall_cons in Hl as [Hd _]. cbn [fst] in *.
  destruct (pq_due _ _ Hq' d x ltac:(left)) as (t & Ht & Htd & _). pose proof (pq_range _ _ Hq' d x ltac:(left)) as Hdr. rewrite Ht. cbn [mbind option_bind]. rewrite Htd, (proj2 (Z.leb_gt _ _) Hd).
  assert (Hu : u64 (d - nsec_of now) = d - nsec_of now) by (unfold u64; apply Z.mod_small; rewrite nsec_small in * by done; unfold clock_ok in Hc; lia). rewrite Hu.
  eexists. split; [done|]. split; [by apply (pq_same s')|]. split; [etransitivity; [exact Ho|apply set_lazy_only]|]. split; [done|]. split; [lia|done].
Qed.
