(* ===== verification/PtimerRun.v ===== *)
(** * The timer service of the lwIP stack, over all its runs

    The ring of messages holds a list, first in first out; an abstract timer service keeps that list, the queue of timers
    and what was posted.  Every run of the operations of [Ptimer] follows the abstract service. *)
From S2P Require Import Prelude.
From S2P Require Import RbTree.
From S2P Require Import RbTreeProofs.
From S2P Require Import RbTreeInsert.
From S2P Require Import RbTreeProps.
From S2P Require Import LwipRbTree.
From S2P Require Import LwipRbSim.
From S2P Require Import LwipRbProps.
From S2P Require Import Ptimer.
From S2P Require Import PtimerProofs.

(** ** The ring *)

Definition next_slot (i : Z) : Z := (i + 1) mod PTIMER_MSG_BUFFER_SIZE.
Definition slot_at (h : Z) (j : nat) : Z := (h + Z.of_nat j) mod PTIMER_MSG_BUFFER_SIZE.

Definition linked_slots (m : gmap Z ptimer_msg) : Prop :=
  ∀ i, 0 <= i < PTIMER_MSG_BUFFER_SIZE → ∃ p, m !! i = Some p ∧ pm_next p = Some (next_slot i).

Record ring_holds (s : ptimer_st) (h : Z) (mq : list (msg_type * Z)) : Prop := {
  rg_slots : linked_slots (msgs s);
  rg_head : p_head s = Some h;
  rg_range : 0 <= h < PTIMER_MSG_BUFFER_SIZE;
  rg_tail : p_tail s = Some (slot_at h (length mq));
  rg_length : Z.of_nat (length mq) < PTIMER_MSG_BUFFER_SIZE;
  rg_msgs j ty x : mq !! j = Some (ty, x) → ∃ p, msgs s !! slot_at h j = Some p ∧ pm_type p = ty ∧ pm_node p = x
}.

Ltac slots := unfold slot_at, next_slot, PTIMER_MSG_BUFFER_SIZE in *; Z.div_mod_to_equations; lia.

Lemma slot_range h j : 0 <= slot_at h j < PTIMER_MSG_BUFFER_SIZE.
Proof. unfold slot_at. apply Z.mod_pos_bound. done. Qed.
Lemma slot_next h j : next_slot (slot_at h j) = slot_at h (S j).
Proof. slots. Qed.
Lemma slot_ne h i j : (i < j)%nat → Z.of_nat j < PTIMER_MSG_BUFFER_SIZE → slot_at h i ≠ slot_at h j.
Proof. slots. Qed.
Lemma slot_0 h : 0 <= h < PTIMER_MSG_BUFFER_SIZE → slot_at h 0 = h.
Proof. slots. Qed.
Lemma slot_shift h j : slot_at (next_slot h) j = slot_at h (S j).
Proof. slots. Qed.

Lemma ring_same s s' h mq : msgs s' = msgs s → p_head s' = p_head s → p_tail s' = p_tail s → ring_holds s h mq → ring_holds s' h mq.
Proof. intros H1 H2 H3 []. split; rewrite ?H1, ?H2, ?H3; done. Qed.

(** [regedit_ptimer] with room for a message besides the one that marks a full ring, and without. *)
Lemma regedit_room s h mq ty x : ring_holds s h mq → Z.of_nat (length mq) + 1 < PTIMER_MSG_BUFFER_SIZE →
  ∃ m t, regedit_ptimer s ty x = Some (set_signals (expired s) (S (kicks s)) (thread s) (set_ring m (p_head s) t s)) ∧
    ring_holds (set_signals (expired s) (S (kicks s)) (thread s) (set_ring m (p_head s) t s)) h (mq ++ [(ty, x)]).
Proof.
  intros Hr Hlen. pose proof (slot_range h (length mq)) as Hrg. destruct (rg_slots _ _ _ Hr _ Hrg) as (p & Hp & Hn).
  unfold regedit_ptimer. rewrite (rg_tail _ _ _ Hr), Hp. cbn [mbind option_bind p_head p_tail set_ring]. rewrite Hn, slot_next, (rg_head _ _ _ Hr).
  rewrite bool_decide_false by (intros [= E]; pose proof (slot_ne h 0 (S (length mq)) ltac:(lia) ltac:(lia)) as Hne; rewrite slot_0 in Hne by apply Hr; done).
  eexists _, _. split; [done|]. split; cbn [msgs p_head p_tail set_ring set_signals].
  - intros i Hi. destruct (decide (i = slot_at h (length mq))) as [->|]; [rewrite lookup_insert_eq, <- slot_next; eauto|rewrite lookup_insert_ne by done; by apply Hr].
  - done.
  - apply Hr.
  - rewrite length_app. cbn. by rewrite Nat.add_1_r.
  - rewrite length_app. cbn. lia.
  - intros j ty' x' [Hj|[Hj [= <- <-]]]%lookup_snoc_Some.
    + destruct Hj as [Hj Hl]. rewrite lookup_insert_ne by (apply not_eq_sym, slot_ne; [done|lia]). by apply Hr.
    + subst j. rewrite lookup_insert_eq. eauto.
Qed.

Lemma regedit_full s h mq ty x : ring_holds s h mq → Z.of_nat (length mq) + 1 = PTIMER_MSG_BUFFER_SIZE →
  ∃ m, regedit_ptimer s ty x = Some (set_ring m (p_head s) (p_head s) s) ∧ ring_holds (set_ring m (p_head s) (p_head s) s) h [].
Proof.
  intros Hr Hlen. pose proof (slot_range h (length mq)) as Hrg. destruct (rg_slots _ _ _ Hr _ Hrg) as (p & Hp & Hn).
  assert (Hw : slot_at h (S (length mq)) = h) by (pose proof (rg_range _ _ _ Hr); slots).
  unfold regedit_ptimer. rewrite (rg_tail _ _ _ Hr), Hp. cbn [mbind option_bind p_head p_tail set_ring]. rewrite Hn, slot_next, (rg_head _ _ _ Hr), Hw.
  rewrite bool_decide_true by done. eexists. split; [done|]. split; cbn [msgs p_head p_tail set_ring].
  - intros i Hi. destruct (decide (i = slot_at h (length mq))) as [->|]; [rewrite lookup_insert_eq, slot_next, Hw; eauto|rewrite lookup_insert_ne by done; by apply Hr].
  - done.
  - apply Hr.
  - cbn. rewrite slot_0 by apply Hr. done.
  - done.
  - intros j ty' x'. by rewrite lookup_nil.
Qed.

Lemma set_next_lookup i v m j : set_next i v m !! j = if decide (i = j) then (λ p, mk_pm (pm_type p) (pm_node p) (Some v) (pm_prev p)) <$> m !! j else m !! j.
Proof. unfold set_next. case_decide as H; [subst; by rewrite lookup_alter_eq|by rewrite lookup_alter_ne]. Qed.
Lemma set_prev_next i v m j : pm_next <$> set_prev i v m !! j = pm_next <$> m !! j.
Proof. unfold set_prev. destruct (decide (i = j)) as [->|]; [rewrite lookup_alter_eq; by destruct (m !! j)|by rewrite lookup_alter_ne]. Qed.

Lemma set_next_next i v m j : pm_next <$> set_next i v m !! j = if decide (i = j) then (λ _, Some v) <$> m !! j else pm_next <$> m !! j.
Proof. rewrite set_next_lookup. case_decide; [|done]. by destruct (m !! j). Qed.

Lemma link_slots_next n i m j : is_Some (m !! j) →
  pm_next <$> link_slots n i m !! j = if decide (i <= j < i + Z.of_nat n) then Some (Some (j + 1)) else pm_next <$> m !! j.
Proof.
  revert i m. induction n as [|n IH]; intros i m [p Hj]; cbn [link_slots]; [by rewrite decide_False by lia|].
  assert (Hs : pm_next <$> set_prev (i + 1) i (set_next i (i + 1) m) !! j = if decide (i = j) then Some (Some (i + 1)) else pm_next <$> m !! j).
  { rewrite set_prev_next, set_next_next, Hj. done. }
  rewrite IH by (destruct (set_prev _ _ _ !! j); [eauto|]; rewrite Hj in Hs; by destruct (decide (i = j))). rewrite Hs.
  destruct (decide (i = j)) as [->|]; [rewrite decide_False, decide_True by lia; done|].
  destruct (decide (i + 1 <= j < i + 1 + Z.of_nat n)); [rewrite decide_True by lia|rewrite decide_False by lia]; done.
Qed.

Lemma zero_slots_lookup i : 0 <= i < PTIMER_MSG_BUFFER_SIZE → zero_slots !! i = Some pm_zero.
Proof.
  intros Hi. unfold zero_slots. apply elem_of_list_to_map_1.
  - rewrite <- list_fmap_compose. cbn. rewrite list_fmap_id. apply NoDup_seqZ.
  - apply list_elem_of_fmap. exists i. split; [done|]. apply elem_of_seqZ. lia.
Qed.

Lemma ring_slots_linked : linked_slots ring_slots.
Proof.
  intros i Hi. assert (Hn : pm_next <$> ring_slots !! i = Some (Some (next_slot i))).
  { unfold ring_slots. rewrite set_prev_next, set_next_next. pose proof (link_slots_next (Z.to_nat (PTIMER_MSG_BUFFER_SIZE - 1)) 0 zero_slots i) as Hl.
    rewrite (zero_slots_lookup i Hi) in Hl. specialize (Hl ltac:(eauto)). unfold next_slot, PTIMER_MSG_BUFFER_SIZE in *. destruct (decide (4096 - 1 = i)) as [Hd|Hd].
    - subst i. destruct (link_slots _ _ _ !! _); [done|]. cbn in Hl. by destruct (decide _).
    - rewrite Hl, decide_True by lia. by rewrite Z.mod_small by lia. }
  destruct (ring_slots !! i) as [p|]; [|done]. injection Hn as Hn. eauto.
Qed.

(** ** The abstract timer service *)

Record tm_spec := mk_ts { sp_info : gmap Z (Z * Z); sp_msgs : list (msg_type * Z); sp_queue : list (Z * Z); sp_posts : list (Z * Z) }.

Inductive tm_act :=
  | Timeout (tmo msecs handler arg : Z)
  | Untimeout (handler arg : Z)
  | Kick
  | Take (now : timespec)
  | Expired (now : timespec)
  | Fire
  | Fire_retry.

Definition sp_delay (sp : tm_spec) (x : Z) : Z := from_option fst 0 (sp_info sp !! x).
Definition sp_handler (sp : tm_spec) (x : Z) : Z := from_option snd 0 (sp_info sp !! x).

(** A message enters the ring; the one that fills it takes all the others with it. *)
Definition spec_send (ms : list (msg_type * Z)) (m : msg_type * Z) : list (msg_type * Z) :=
  if Z.of_nat (length ms) + 1 <? PTIMER_MSG_BUFFER_SIZE then ms ++ [m] else [].

Definition spec_take (sp : tm_spec) (now : timespec) : tm_spec :=
  match sp_msgs sp with
  | [] => sp
  | (SYS_PTIMEROUT_MSG, x) :: ms =>
      mk_ts (sp_info sp) ms (tm_insert (nsec_of now + sp_delay sp x * NANO_PER_MICROSECOND) x (sp_queue sp)) (sp_posts sp)
  | (SYS_UNPTIMEROUT_MSG, x) :: ms => mk_ts (sp_info sp) ms (tm_remove x (sp_queue sp)) (sp_posts sp)
  end.

Definition spec_do (sp : tm_spec) (a : tm_act) : tm_spec :=
  match a with
  | Timeout tmo msecs handler _ =>
      if tmo =? 0 then sp else mk_ts (<[tmo := (msecs, handler)]> (sp_info sp)) (spec_send (sp_msgs sp) (SYS_PTIMEROUT_MSG, tmo)) (sp_queue sp) (sp_posts sp)
  | Untimeout _ x => mk_ts (sp_info sp) (spec_send (sp_msgs sp) (SYS_UNPTIMEROUT_MSG, x)) (sp_queue sp) (sp_posts sp)
  | Take now => spec_take sp now
  | Expired now =>
      mk_ts (sp_info sp) (sp_msgs sp) (filter (λ e, nsec_of now < e.1) (sp_queue sp))
        (sp_posts sp ++ ((λ e, (sp_handler sp e.2, e.2)) <$> tm_due now (sp_queue sp)))
  | Kick | Fire | Fire_retry => sp
  end.

(** ** The operations *)

(** Fuel for as many timers as there are nodes. *)
Definition tm_fuel (s : ptimer_st) : nat := rounds (size (tmos s)).

Definition tm_do (s : ptimer_st) (a : tm_act) : option ptimer_st :=
  match a with
  | Timeout tmo msecs handler arg => sys_timeout s tmo msecs handler arg
  | Untimeout handler arg => sys_untimeout s handler arg
  | Kick => on_kick s
  | Take now => take_msg (tm_fuel s) s now
  | Expired now => on_expired (size (tmos s)) (tm_fuel s) s now
  | Fire => fire s
  | Fire_retry => fire_retry s
  end.

(** When an action can happen, and what callers, the allocator and the clock provide: [malloc] returns null or new aligned memory,
    delays fit into 32 bits, [sys_untimeout] is given null or the address of a timer, and the clock is below [2 ^ 62] ns. *)
Definition tm_pre (s : ptimer_st) (sp : tm_spec) (a : tm_act) : Prop :=
  match a with
  | Timeout tmo msecs _ _ =>
      tmo = 0 ∨ (aligned tmo ∧ tmos s !! tmo = None ∧ delay_u32 msecs)
  | Untimeout _ arg => arg = 0 ∨ is_Some (tmos s !! arg)
  | Kick => thread s = Waiting ∧ kicks s ≠ 0%nat
  | Take now => thread s = Taking ∧ clock_ok now
  | Expired now => thread s = Waiting ∧ expired s ≠ 0%nat ∧ clock_ok now
  | Fire => lazy_tim s ≠ (0, 0)
  | Fire_retry => lazy_tim_retry s ≠ (0, 0)
  end.

Definition tm_init : ptimer_st := (init_ptimer (mk_env true true true true true true true) ptimer_start).1.
Definition spec_init : tm_spec := mk_ts ∅ [] [] [].

Inductive tm_reach : ptimer_st → tm_spec → Prop :=
  | tr_init : tm_reach tm_init spec_init
  | tr_do s sp a s' : tm_reach s sp → tm_pre s sp a → tm_do s a = Some s' → tm_reach s' (spec_do sp a).

(** ** The invariant *)

Definition adds (mq : list (msg_type * Z)) : list Z := omap (λ m, match m.1 with SYS_PTIMEROUT_MSG => Some m.2 | SYS_UNPTIMEROUT_MSG => None end) mq.
(** The timers that were asked for and are waiting, queued or posted. *)
Definition tm_all (sp : tm_spec) : list Z := adds (sp_msgs sp) ++ (sp_queue sp).*2 ++ (sp_posts sp).*2.

(** No timer was asked for with a delay of 0, which would disarm the interval timer. *)
Definition positive_delays (sp : tm_spec) : Prop := ∀ x p, sp_info sp !! x = Some p → 0 < p.1.

Record pinv (s : ptimer_st) (sp : tm_spec) : Prop := {
  pi_queue : pqueue s (sp_queue sp);
  pi_ring : ∃ h, ring_holds s h (sp_msgs sp);
  pi_posts : posts s = sp_posts sp;
  pi_lock : ptimer_lock s = false;
  pi_info x : (λ t, (msec t, phandle t)) <$> tmos s !! x = sp_info sp !! x;
  pi_node x t : tmos s !! x = Some t → flags t = PTIMER_ONESHOT ∧ delay_u32 (msec t);
  pi_once : NoDup (tm_all sp);
  pi_known x : x ∈ tm_all sp → is_Some (tmos s !! x);
  pi_dels x : (SYS_UNPTIMEROUT_MSG, x) ∈ sp_msgs sp → x = 0 ∨ is_Some (tmos s !! x);
  pi_wake : sp_msgs sp ≠ [] → kicks s ≠ 0%nat ∨ thread s = Taking;
  pi_armed : positive_delays sp → sp_queue sp ≠ [] → lazy_tim s ≠ (0, 0) ∨ expired s ≠ 0%nat
}.

Lemma adds_app m1 m2 : adds (m1 ++ m2) = adds m1 ++ adds m2.
Proof. apply omap_app. Qed.

(** Memory for a new timer. *)
Lemma lw_alloc p t x n : lw_holds p t → ln_nodes p !! x = None → x ≠ 0 → aligned x → (∀ d, aligned (ln_child d n)) →
  lw_holds (mk_lt (<[x := n]> (ln_nodes p)) (ln_root p)) t.
Proof.
  intros [[Hk Hp Hr] [H1 H2 H3] Hb] Hx Hx0 Hxa Hn. split; [| |done].
  - split; cbn; [| |done].
    + intros y m. destruct (decide (y = x)) as [->|]; [done|]. rewrite lookup_insert_ne by done. apply Hk.
    + intros y m d. destruct (decide (y = x)) as [->|]; [rewrite lookup_insert_eq; by intros [= <-]|]. rewrite lookup_insert_ne by done. apply Hp.
  - split; [done| |done]. eapply rep_ext; [|exact H2]. intros y Hy. cbn. rewrite !lookup_fmap. destruct (decide (y = x)) as [->|]; [|by rewrite lookup_insert_ne].
    destruct (tree_path t x Hy) as (k & c & l & r & ->). pose proof (holds_node (unpack p) k L c l x r (Build_holds _ _ H1 H2 H3)) as (n0 & Hn0 & _). cbn in Hn0. rewrite lookup_fmap, Hx in Hn0. done.
Qed.

Lemma pq_alloc s q x t : pqueue s q → tmos s !! x = None → x ≠ 0 → aligned x → tm_state t = PTIMER_STATE_INACTIVE →
  pqueue (set_active (mk_lt (<[x := mk_ln 0 0 0]> (ln_nodes (active s))) (ln_root (active s))) (set_tmos (<[x := t]> (tmos s)) s)) q.
Proof.
  intros [Ht Hf Hd Hr Hi Hdom Hs] Hx Hx0 Hxa Hst. split; cbn [active first tmos set_active set_tmos]; try done.
  - destruct Ht as (t0 & Hp & Hin). exists t0. split; [|done]. apply lw_alloc; [done| |done|done|by intros []].
    apply not_elem_of_dom. rewrite <- Hdom. by apply not_elem_of_dom.
  - intros d y Hy. destruct (Hd d y Hy) as (ty & Hty & Hrest). exists ty. rewrite lookup_insert_ne by congruence. done.
  - intros y ty. destruct (decide (y = x)) as [->|]; [rewrite lookup_insert_eq; by intros [= <-]|]. rewrite lookup_insert_ne by done. apply Hi.
  - cbn [ln_nodes]. by rewrite !dom_insert_L, Hdom.
Qed.

(** [regedit_ptimer] in either case. *)
Lemma regedit_send s h mq ty x : ring_holds s h mq →
  ∃ s', regedit_ptimer s ty x = Some s' ∧ ring_holds s' h (spec_send mq (ty, x)) ∧
    (active s' = active s ∧ first s' = first s ∧ tmos s' = tmos s ∧ posts s' = posts s ∧ ptimer_lock s' = ptimer_lock s ∧ lazy_tim s' = lazy_tim s ∧ expired s' = expired s ∧ thread s' = thread s) ∧
    (spec_send mq (ty, x) ≠ [] → kicks s' ≠ 0%nat).
Proof.
  intros Hr. unfold spec_send. destruct (Z.ltb_spec (Z.of_nat (length mq) + 1) PTIMER_MSG_BUFFER_SIZE) as [Hl|Hl].
  - destruct (regedit_room s h mq ty x Hr Hl) as (m & t & -> & Hr'). eexists. split; [done|]. split; [done|]. done.
  - pose proof (rg_length _ _ _ Hr) as Hlen. destruct (regedit_full s h mq ty x Hr) as (m & -> & Hr'); [lia|]. eexists. split; [done|]. split; [done|]. done.
Qed.

Lemma spec_send_elem ms m m' : m' ∈ spec_send ms m → m' ∈ ms ∨ m' = m.
Proof. unfold spec_send. destruct (_ <? _); [|by intros ?%elem_of_nil]. rewrite elem_of_app, list_elem_of_singleton. tauto. Qed.

(** The timer a message asks for, and the timers of the service after a message is sent. *)
Definition asked (m : msg_type * Z) : option Z := match m.1 with SYS_PTIMEROUT_MSG => Some m.2 | SYS_UNPTIMEROUT_MSG => None end.

Lemma spec_send_known sp i m x : x ∈ tm_all (mk_ts i (spec_send (sp_msgs sp) m) (sp_queue sp) (sp_posts sp)) → x ∈ tm_all sp ∨ asked m = Some x.
Proof.
  unfold tm_all, spec_send. cbn [sp_msgs sp_queue sp_posts]. destruct (_ <? _); rewrite ?adds_app, !elem_of_app; [|set_solver].
  intros [[|Hx]|]; [tauto| |tauto]. right. unfold adds in Hx. cbn in Hx. unfold asked. destruct m.1; cbn in Hx; [apply list_elem_of_singleton in Hx as ->; done|by apply elem_of_nil in Hx].
Qed.

Lemma spec_send_once sp i m : NoDup (tm_all sp) → (∀ x, asked m = Some x → x ∉ tm_all sp) → NoDup (tm_all (mk_ts i (spec_send (sp_msgs sp) m) (sp_queue sp) (sp_posts sp))).
Proof.
  intros Hnd Hm. unfold tm_all, spec_send in *. cbn [sp_msgs sp_queue sp_posts]. destruct (_ <? _); [|by apply NoDup_app in Hnd as (_ & _ & ?)].
  rewrite adds_app. unfold adds at 2. cbn. fold (asked m). destruct (asked m) as [x|]; [|by rewrite app_nil_r].
  rewrite <- app_assoc. cbn [app]. rewrite <- Permutation_middle. apply NoDup_cons. split; [by apply Hm|done].
Qed.

Lemma step_timeout s sp tmo msecs h arg : pinv s sp → tm_pre s sp (Timeout tmo msecs h arg) →
  ∃ s', tm_do s (Timeout tmo msecs h arg) = Some s' ∧ pinv s' (spec_do sp (Timeout tmo msecs h arg)).
Proof.
  intros Hi Hpre. cbn [tm_do spec_do]. unfold sys_timeout. destruct (Z.eqb_spec tmo 0) as [|H0]; [eauto|]. destruct Hpre as [|(Ha & Hnew & Hdel)]; [done|].
  cbn zeta. set (t := mk_tmo 0 msecs h PTIMER_ONESHOT arg 0 0). set (s1 := set_active _ _). destruct (pi_ring _ _ Hi) as [hd Hring].
  assert (Hq1 : pqueue s1 (sp_queue sp)) by (apply (pq_alloc s _ tmo t); [apply Hi|done..]).
  destruct (regedit_send s1 hd (sp_msgs sp) SYS_PTIMEROUT_MSG tmo) as (s2 & -> & Hr2 & Hsame & Hk); [by apply (ring_same s)|].
  exists s2. split; [done|]. destruct Hsame as (Ea & Ef & Et & Ep & El & Ez & Ee & _).
  assert (Hfresh : tmo ∉ tm_all sp) by (intros Hin; destruct (pi_known _ _ Hi _ Hin); congruence).
  split; cbn [sp_info sp_msgs sp_queue sp_posts].
  - by apply (pq_same s1).
  - by exists hd.
  - rewrite Ep. apply Hi.
  - rewrite El. apply Hi.
  - intros x. rewrite Et. cbn. destruct (decide (x = tmo)) as [->|]; [by rewrite !lookup_insert_eq|]. rewrite !lookup_insert_ne by done. apply Hi.
  - intros x tx. rewrite Et. cbn. destruct (decide (x = tmo)) as [->|]; [rewrite lookup_insert_eq; by intros [= <-]|]. rewrite lookup_insert_ne by done. apply Hi.
  - apply spec_send_once; [apply Hi|]. intros x Hx. cbn in Hx. by injection Hx as <-.
  - intros x Hx%(spec_send_known sp). rewrite Et. cbn. destruct (decide (x = tmo)) as [->|]; [rewrite lookup_insert_eq; eauto|]. rewrite lookup_insert_ne by done.
    destruct Hx as [Hx|Hx]; [by apply Hi|cbn in Hx; congruence].
  - intros x [Hx|Hx]%spec_send_elem; [|done]. rewrite Et. cbn. destruct (pi_dels _ _ Hi x Hx) as [|Hx']; [by left|]. right.
    destruct (decide (x = tmo)) as [->|]; [rewrite lookup_insert_eq; eauto|]. by rewrite lookup_insert_ne.
  - intros Hne. left. by apply Hk.
  - intros Hpos Hne. rewrite Ez, Ee. apply (pi_armed _ _ Hi); [|done]. intros x p Hx. apply (Hpos x). cbn. rewrite lookup_insert_ne; [done|].
    intros <-. pose proof (pi_info _ _ Hi tmo) as Hinf. rewrite Hnew, Hx in Hinf. done.
Qed.

(** Steps that leave the queue, the ring and the posts alone. *)
Lemma pinv_signals s s' sp : pinv s sp → active s' = active s → first s' = first s → tmos s' = tmos s → msgs s' = msgs s → p_head s' = p_head s → p_tail s' = p_tail s →
  posts s' = posts s → ptimer_lock s' = ptimer_lock s →
  (sp_msgs sp ≠ [] → kicks s' ≠ 0%nat ∨ thread s' = Taking) → (positive_delays sp → sp_queue sp ≠ [] → lazy_tim s' ≠ (0, 0) ∨ expired s' ≠ 0%nat) → pinv s' sp.
Proof.
  intros Hi Ha Hf Ht Hm Hh Htl Hp Hl Hw Har. destruct (pi_ring _ _ Hi) as [h Hr]. split; rewrite ?Hp, ?Hl, ?Ht; try apply Hi; try done.
  - by apply (pq_same s), Hi.
  - exists h. by apply (ring_same s).
Qed.

Lemma step_untimeout s sp h arg : pinv s sp → tm_pre s sp (Untimeout h arg) →
  ∃ s', tm_do s (Untimeout h arg) = Some s' ∧ pinv s' (spec_do sp (Untimeout h arg)).
Proof.
  intros Hi Harg. cbn [tm_do spec_do tm_pre] in *. unfold sys_untimeout. destruct (pi_ring _ _ Hi) as [hd Hring].
  destruct (regedit_send s hd (sp_msgs sp) SYS_UNPTIMEROUT_MSG arg Hring) as (s2 & -> & Hr2 & (Ea & Ef & Et & Ep & El & Ez & Ee & _) & Hk).
  exists s2. split; [done|]. split; rewrite ?Ep, ?El, ?Et, ?Ez, ?Ee; cbn [sp_info sp_msgs sp_queue sp_posts]; try apply Hi.
  - apply (pq_same s); [done..|apply Hi].
  - by exists hd.
  - by apply spec_send_once; [apply Hi|].
  - intros x [Hx|?]%(spec_send_known sp); [by apply Hi|done].
  - intros x [Hx|[= ->]]%spec_send_elem; [by apply Hi|done].
  - intros Hne. left. by apply Hk.
Qed.

Lemma step_signal s sp a : pinv s sp → tm_pre s sp a → match a with Kick | Fire | Fire_retry => True | _ => False end →
  ∃ s', tm_do s a = Some s' ∧ pinv s' (spec_do sp a).
Proof.
  intros Hi Hpre Ha. destruct a; try done; cbn [tm_do spec_do tm_pre] in *.
  - destruct Hpre as [Hw Hk]. unfold on_kick. rewrite Hw. destruct (kicks s) as [|k]; [done|]. eexists. split; [done|].
    apply (pinv_signals s); [done..|by right|apply Hi].
  - unfold fire. rewrite bool_decide_false by done. eexists. split; [done|]. apply (pinv_signals s); [done..|apply Hi|by right].
  - unfold fire_retry. rewrite bool_decide_false by done. eexists. split; [done|]. apply (pinv_signals s); [done..|apply Hi|by right].
Qed.

(** ** One message *)

Lemma ring_empty s h : ring_holds s h [] → p_head s = p_tail s.
Proof. intros Hr. rewrite (rg_head _ _ _ Hr), (rg_tail _ _ _ Hr). cbn. by rewrite slot_0 by apply Hr. Qed.

Lemma ring_take s h ty x mq : ring_holds s h ((ty, x) :: mq) → p_head s ≠ p_tail s ∧
  ∃ p, msgs s !! h = Some p ∧ pm_type p = ty ∧ pm_node p = x ∧ ring_holds (set_ring (msgs s) (pm_next p) (p_tail s) s) (next_slot h) mq.
Proof.
  intros Hr. pose proof (rg_range _ _ _ Hr) as Hh. pose proof (rg_length _ _ _ Hr) as Hlen. cbn in Hlen. split.
  { rewrite (rg_head _ _ _ Hr), (rg_tail _ _ _ Hr). intros [= E]. pose proof (slot_ne h 0 (length ((ty, x) :: mq)) ltac:(cbn; lia) ltac:(cbn; lia)) as Hne. by rewrite slot_0 in Hne. }
  destruct (rg_msgs _ _ _ Hr 0 ty x eq_refl) as (p & Hp & Hty & Hx). rewrite slot_0 in Hp by done. exists p. split; [done|]. split; [done|]. split; [done|].
  destruct (rg_slots _ _ _ Hr h Hh) as (p' & Hp' & Hn). rewrite Hp in Hp'. injection Hp' as <-. split; cbn [msgs p_head p_tail set_ring].
  - apply Hr.
  - done.
  - unfold next_slot. by apply Z.mod_pos_bound.
  - rewrite (rg_tail _ _ _ Hr). cbn. by rewrite slot_shift.
  - lia.
  - intros j ty' x' Hj. rewrite slot_shift. by apply (rg_msgs _ _ _ Hr (S j)).
Qed.

Lemma queue_length s q : pqueue s q → (length q <= size (tmos s))%nat.
Proof.
  intros Hq. rewrite <- (length_fmap snd), <- size_dom, <- (size_list_to_set (C := gset Z)) by by eapply pq_nodup. apply subseteq_size. intros x Hx%elem_of_list_to_set.
  apply elem_of_snd in Hx as [d Hx]. destruct (pq_due _ _ Hq d x Hx) as (t & Ht & _). apply elem_of_dom. eauto.
Qed.
Lemma queue_fuel s q : pqueue s q → (rounds (length q) <= tm_fuel s)%nat.
Proof. intros Hq. apply rounds_mono. by apply queue_length. Qed.

Lemma tm_remove_absent x q : x ∉ q.*2 → tm_remove x q = q.
Proof. intros Hx. apply filter_whole. intros [d y] Hy; cbn; intros ->. apply Hx. by eapply snd_elem_of. Qed.
Lemma pq_not_0 s q : pqueue s q → 0 ∉ q.*2.
Proof. intros Hq H0. destruct (pq_tree _ _ Hq) as (t & Hp & Hin). rewrite <- Hin in H0. by destruct (lw_addr _ _ _ Hp H0) as (_ & ? & _). Qed.

Lemma launch_ne n : 0 < n → launch_tmr n ≠ (0, 0).
Proof. intros Hn. unfold launch_tmr, NANO_PER_SECOND. intros [= H1 H2]. Z.div_mod_to_equations. lia. Qed.

Lemma tm_insert_first d x q : first_of (tm_insert d x q).*2 = x ∨ q ≠ [].
Proof. destruct q; [by left|by right]. Qed.

Lemma process_add fuel s q x t p now : pqueue s q → tmos s !! x = Some t → x ∉ q.*2 → delay_u32 (msec t) → clock_ok now → (rounds (length q) <= fuel)%nat →
  pm_type p = SYS_PTIMEROUT_MSG → pm_node p = x →
  ∃ s', process_timeout_msg fuel s p now = Some (s', ERR_OK) ∧ pqueue s' (tm_insert (nsec_of now + msec t * NANO_PER_MICROSECOND) x q) ∧ queue_only s s' ∧ posts s' = posts s ∧
    (0 < msec t → lazy_tim s' ≠ (0, 0) ∨ (lazy_tim s' = lazy_tim s ∧ q ≠ [])).
Proof.
  intros Hq Hx Hn Hm Hc Hf Hty Hnode. unfold process_timeout_msg. rewrite Hty, Hnode, (proj2 (Z.eqb_neq x 0)) by (eapply pq_node_ne; [done|]; rewrite Hx; eauto).
  unfold tmo_upd. rewrite Hx. cbn [mbind option_bind]. set (t1 := set_abs (due_at now (msec t)) t). set (s1 := set_tmos _ s).
  assert (Hd : abs_nsec t1 = nsec_of now + msec t * NANO_PER_MICROSECOND) by by apply due_small. destruct (due_bounds now (msec t) Hc Hm) as [Hn0 Hd0]. rewrite due_small in Hd0 by done.
  assert (Ho1 : queue_only s s1) by (apply (queue_upd_only (active s) (first s) x t t1 s); done).
  destruct (add_idle fuel s1 q x t1) as (s2 & -> & Hq2 & Ho2 & Hp2 & Hl2); [by apply pq_set_abs|apply lookup_insert_eq|done|rewrite Hd; lia|done|].
  rewrite Hd in Hq2, Hl2. cbn [mbind option_bind]. exists s2. split; [done|]. split; [done|]. split; [by etransitivity|]. split; [done|]. intros Hpos.
  destruct (first_of (tm_insert (nsec_of now + msec t * NANO_PER_MICROSECOND) x q).*2 =? x) eqn:Ef.
  - left. rewrite Hl2. apply launch_ne. change (msec t1) with (msec t). rewrite delay_small by done. unfold delay_u32, NANO_PER_MICROSECOND in *. lia.
  - right. split; [done|]. destruct (tm_insert_first (nsec_of now + msec t * NANO_PER_MICROSECOND) x q) as [E|]; [|done]. rewrite E, Z.eqb_refl in Ef. done.
Qed.

Lemma process_del fuel s q x p now : pqueue s q → x = 0 ∨ is_Some (tmos s !! x) → (rounds (length q) <= fuel)%nat →
  pm_type p = SYS_UNPTIMEROUT_MSG → pm_node p = x →
  ∃ s', process_timeout_msg fuel s p now = Some (s', ERR_OK) ∧ pqueue s' (tm_remove x q) ∧ queue_only s s' ∧ posts s' = posts s ∧ lazy_tim s' = lazy_tim s.
Proof.
  intros Hq Hx Hf Hty Hnode. unfold process_timeout_msg, del_ptimer. rewrite Hty, Hnode. destruct (Z.eqb_spec x 0) as [->|H0].
  { exists s. rewrite tm_remove_absent by by eapply pq_not_0. done. }
  destruct Hx as [|[t Hx]]; [done|]. destruct (decide (x ∈ q.*2)) as [[d Hin]%elem_of_snd|Hn].
  - destruct (remove_queued fuel s q x d Hq Hin Hf) as (a & f & t' & Ht' & -> & Hq'). eexists. split; [done|]. split; [done|]. split; [|done]. by apply (queue_upd_only a f x t').
  - rewrite (remove_idle fuel s q x t Hq Hx Hn). exists s. by rewrite tm_remove_absent.
Qed.

(** The invariant after the queue changed; [gone]: timers that are not waiting any more. *)
Lemma pinv_move s s' sp sp' gone : pinv s sp → pqueue s' (sp_queue sp') → (∃ h, ring_holds s' h (sp_msgs sp')) → posts s' = sp_posts sp' → ptimer_lock s' = false →
  (∀ x, tm_info <$> tmos s' !! x = tm_info <$> tmos s !! x) → sp_info sp' = sp_info sp → tm_all sp ≡ₚ gone ++ tm_all sp' →
  (∀ x, (SYS_UNPTIMEROUT_MSG, x) ∈ sp_msgs sp' → (SYS_UNPTIMEROUT_MSG, x) ∈ sp_msgs sp) →
  (sp_msgs sp' ≠ [] → kicks s' ≠ 0%nat ∨ thread s' = Taking) → (positive_delays sp → sp_queue sp' ≠ [] → lazy_tim s' ≠ (0, 0) ∨ expired s' ≠ 0%nat) → pinv s' sp'.
Proof.
  intros Hi Hq Hr Hp Hl Hinfo Hsi Hall Hdel Hw Ha.
  assert (Hsome : ∀ x, is_Some (tmos s !! x) → is_Some (tmos s' !! x)).
  { intros x [t Hx]. specialize (Hinfo x). rewrite Hx in Hinfo. destruct (tmos s' !! x); [eauto|done]. }
  split; try done.
  - intros x. rewrite Hsi, <- (pi_info _ _ Hi x). specialize (Hinfo x). destruct (tmos s' !! x), (tmos s !! x); try done. cbn in *. by injection Hinfo as -> -> _ _.
  - intros x t Hx. specialize (Hinfo x). rewrite Hx in Hinfo. destruct (tmos s !! x) as [t0|] eqn:Hx0; [|done]. cbn in Hinfo. injection Hinfo as -> _ -> _. by eapply (pi_node _ _ Hi).
  - pose proof (pi_once _ _ Hi) as Hnd. rewrite Hall in Hnd. by apply NoDup_app in Hnd as (_ & _ & Hnd).
  - intros x Hx. apply Hsome, (pi_known _ _ Hi). rewrite Hall, elem_of_app. by right.
  - intros x Hx. destruct (pi_dels _ _ Hi x (Hdel x Hx)) as [|Hs]; [by left|right; by apply Hsome].
  - intros Hpos. apply Ha. intros x p. rewrite <- Hsi. apply Hpos.
Qed.

Lemma tm_insert_perm d x q : (tm_insert d x q).*2 ≡ₚ x :: q.*2.
Proof.
  unfold tm_insert. rewrite fmap_app. cbn. rewrite <- Permutation_middle. constructor. rewrite <- fmap_app. apply fmap_Permutation.
  induction q as [|e q IH]; [done|]. rewrite !filter_cons. destruct (decide (e.1 < d)); [rewrite decide_False by lia|rewrite decide_True by lia]; cbn; [by rewrite IH|].
  by rewrite <- Permutation_middle, IH.
Qed.
Lemma tm_remove_perm x q : q.*2 ≡ₚ (filter (λ e, e.2 = x) q).*2 ++ (tm_remove x q).*2.
Proof.
  unfold tm_remove. induction q as [|e q IH]; [done|]. rewrite !filter_cons. destruct (decide (e.2 = x)); [rewrite decide_False by tauto|rewrite decide_True by done]; cbn; [by rewrite IH at 1|].
  rewrite <- Permutation_middle. by rewrite IH at 1.
Qed.

(** The invariant after a message was taken. *)
Lemma pinv_taken s s2 sp m ms q' h nxt gone : pinv s sp → thread s = Taking → sp_msgs sp = m :: ms →
  let s1 := set_lock true (set_ring (msgs s) nxt (p_tail s) s) in
  ring_holds s1 h ms → queue_only s1 s2 → posts s2 = posts s → pqueue s2 q' → tm_all sp ≡ₚ gone ++ tm_all (mk_ts (sp_info sp) ms q' (sp_posts sp)) →
  (positive_delays sp → q' ≠ [] → lazy_tim s2 ≠ (0, 0) ∨ expired s ≠ 0%nat) → pinv (set_lock false s2) (mk_ts (sp_info sp) ms q' (sp_posts sp)).
Proof.
  intros Hi Hth Hms s1 Hr Ho Hp Hq Hall Ha. destruct (qo_rest _ _ Ho) as (_ & _ & He2 & _ & Hth2), (qo_ring _ _ Ho) as (Hm2 & Hh2 & Htl2).
  apply (pinv_move s _ sp _ gone); cbn [sp_info sp_msgs sp_queue sp_posts posts ptimer_lock set_lock tmos kicks thread lazy_tim expired]; try done.
  - by apply (pq_same s2).
  - exists h. by apply (ring_same s1).
  - rewrite Hp. apply Hi.
  - apply Ho.
  - intros y Hy. rewrite Hms. by right.
  - intros _. right. by rewrite Hth2.
  - by rewrite He2.
Qed.

Lemma step_take s sp now : pinv s sp → tm_pre s sp (Take now) → ∃ s', tm_do s (Take now) = Some s' ∧ pinv s' (spec_do sp (Take now)).
Proof.
  intros Hi [Hth Hc]. cbn [tm_do spec_do]. unfold take_msg, spec_take. rewrite Hth. destruct (pi_ring _ _ Hi) as [h Hr]. pose proof (pi_queue _ _ Hi) as Hq. pose proof (queue_fuel _ _ Hq) as Hf.
  destruct (sp_msgs sp) as [|[ty x] ms] eqn:Hms.
  { rewrite bool_decide_true by by eapply ring_empty. eexists. split; [done|]. apply (pinv_signals s); [done..|by rewrite Hms|apply Hi]. }
  destruct (ring_take s h ty x ms Hr) as (Hne & p & Hp & Hty & Hx & Hr1). rewrite bool_decide_false by done. rewrite (rg_head _ _ _ Hr). cbn [mbind option_bind]. rewrite Hp. cbn [mbind option_bind].
  set (s1 := set_lock true (set_ring (msgs s) (pm_next p) (p_tail s) s)). change (ptimer_lock (set_ring _ _ _ s)) with (ptimer_lock s). rewrite (pi_lock _ _ Hi).
  assert (Hq1 : pqueue s1 (sp_queue sp)) by (by apply (pq_same s)).
  assert (Hr2 : ring_holds s1 (next_slot h) ms) by (by apply (ring_same (set_ring (msgs s) (pm_next p) (p_tail s) s))). destruct ty.
  - assert (Hxa : x ∈ tm_all sp) by (unfold tm_all; rewrite Hms; left). destruct (pi_known _ _ Hi x Hxa) as [t Ht]. destruct (pi_node _ _ Hi x t Ht) as [_ Hd].
    assert (Hnq : x ∉ (sp_queue sp).*2).
    { pose proof (pi_once _ _ Hi) as Hnd. unfold tm_all in Hnd. rewrite Hms in Hnd. cbn in Hnd. apply NoDup_cons in Hnd as [Hnd _]. set_solver. }
    assert (Hdel : sp_delay sp x = msec t) by (unfold sp_delay; by rewrite <- (pi_info _ _ Hi x), Ht).
    destruct (process_add (tm_fuel s) s1 (sp_queue sp) x t p now Hq1 Ht Hnq Hd Hc Hf Hty Hx) as (s2 & -> & Hq2 & Ho2 & Hp2 & Hl2). cbn [mbind option_bind].
    eexists. split; [done|]. rewrite Hdel. eapply (pinv_taken s s2 sp _ ms _ (next_slot h) (pm_next p) []); try done.
    + unfold tm_all. cbn [sp_msgs sp_queue sp_posts]. rewrite Hms, tm_insert_perm. cbn. by rewrite Permutation_middle.
    + intros Hpos _. destruct Hl2 as [|[-> Hqn]]; [|by left|by apply Hi]. apply (Hpos x (msec t, phandle t)). by rewrite <- (pi_info _ _ Hi x), Ht.
  - assert (Hxd : x = 0 ∨ is_Some (tmos s1 !! x)) by (apply (pi_dels _ _ Hi); rewrite Hms; left).
    destruct (process_del (tm_fuel s) s1 (sp_queue sp) x p now Hq1 Hxd Hf Hty Hx) as (s2 & -> & Hq2 & Ho2 & Hp2 & Hl2). cbn [mbind option_bind].
    eexists. split; [done|]. eapply (pinv_taken s s2 sp _ ms _ (next_slot h) (pm_next p) (filter (λ e, e.2 = x) (sp_queue sp)).*2); try done.
    + unfold tm_all. cbn [sp_msgs sp_queue sp_posts]. rewrite Hms, (tm_remove_perm x (sp_queue sp)) at 1. cbn. solve_Permutation.
    + intros Hpos Hne'. rewrite Hl2. apply Hi; [done|]. intros E. apply Hne'. by rewrite E.
Qed.

Lemma tm_after_none now E rest : tm_after now (λ _, None) E rest = rest.
Proof. unfold tm_after. revert rest. induction E as [|e E IH]; intros rest; cbn; [done|apply IH]. Qed.

Lemma step_expired s sp now : pinv s sp → tm_pre s sp (Expired now) → ∃ s', tm_do s (Expired now) = Some s' ∧ pinv s' (spec_do sp (Expired now)).
Proof.
  intros Hi (Hth & Hex & Hc). cbn [tm_do spec_do]. unfold on_expired. rewrite Hth. destruct (expired s) as [|e]; [done|]. unfold timeout_sigaction. cbn [ptimer_lock set_signals]. rewrite (pi_lock _ _ Hi).
  set (s1 := set_lock true _). pose proof (pi_queue _ _ Hi) as Hq. assert (Hq1 : pqueue s1 (sp_queue sp)) by (by apply (pq_same s)).
  assert (Hper : ∀ x, periodic s1 x = None).
  { intros x. unfold periodic. change (tmos s1) with (tmos s). destruct (tmos s !! x) as [t|] eqn:Ht; [|done]. cbn. by destruct (pi_node _ _ Hi x t Ht) as [-> _]. }
  destruct (deal_timeout_spec (size (tmos s)) (tm_fuel s) s1 (sp_queue sp) now Hq1 Hc) as (s2 & -> & Hq2 & Ho2 & Hp2 & Hl2);
    [intros x m; by rewrite Hper|by apply queue_length|by apply queue_fuel|]. cbn [mbind option_bind].
  assert (Hleft : tm_left now (periodic s1) (sp_queue sp) = filter (λ e, nsec_of now < e.1) (sp_queue sp)).
  { unfold tm_left. rewrite (tm_after_ext now _ (λ _, None) _ _ Hper). apply tm_after_none. }
  rewrite Hleft in Hq2, Hl2. destruct (qo_rest _ _ Ho2) as (_ & _ & He2 & Hk2 & Hth2), (qo_ring _ _ Ho2) as (Hm2 & Hh2 & Htl2).
  assert (Hhd : ∀ x, handler_of s1 x = sp_handler sp x).
  { intros x. unfold handler_of, sp_handler. rewrite <- (pi_info _ _ Hi x). change (tmos s1) with (tmos s). by destruct (tmos s !! x). }
  eexists. split; [done|]. apply (pinv_move s _ sp _ []); cbn [sp_info sp_msgs sp_queue sp_posts posts ptimer_lock set_lock tmos kicks thread lazy_tim expired]; try done.
  - by apply (pq_same s2).
  - destruct (pi_ring _ _ Hi) as [h Hr]. exists h. by apply (ring_same s).
  - rewrite Hp2. change (posts s1) with (posts s). rewrite (pi_posts _ _ Hi). f_equal. apply list_fmap_ext. intros _ b _. by rewrite Hhd.
  - apply Ho2.
  - unfold tm_all. cbn [sp_msgs sp_queue sp_posts]. rewrite (tm_split (nsec_of now) (sp_queue sp) (pq_sorted _ _ Hq)) at 1. fold (tm_due now (sp_queue sp)).
    rewrite !fmap_app, <- list_fmap_compose. cbn. solve_Permutation.
  - intros Hne. rewrite Hk2, Hth2. cbn. destruct (pi_wake _ _ Hi Hne) as [|E]; [by left|]. congruence.
  - intros _ Hne. left. destruct (filter _ _) as [|b q']; [done|]. destruct Hl2 as [Hb ->]. apply launch_ne. lia.
Qed.

Lemma tm_init_inv : pinv tm_init spec_init.
Proof.
  split; cbn [sp_info sp_msgs sp_queue sp_posts spec_init]; try done.
  - split; try done.
    + exists E. split; [|done]. split; [split; try done; intros x n; cbn; by rewrite lookup_empty|split; [done|done|constructor]|]. split; [done|by exists 0%nat].
    + intros d x Hx. by apply not_elem_of_nil in Hx.
    + intros d x Hx. by apply not_elem_of_nil in Hx.
    + constructor.
  - exists 0. split; [apply ring_slots_linked|done..].
  - constructor.
  - intros x Hx. by apply not_elem_of_nil in Hx.
  - intros x Hx. by apply not_elem_of_nil in Hx.
Qed.

Lemma tm_step s sp a : pinv s sp → tm_pre s sp a → ∃ s', tm_do s a = Some s' ∧ pinv s' (spec_do sp a).
Proof.
  intros Hi Hpre. destruct a; [by apply step_timeout|by apply step_untimeout|by apply step_signal|by apply step_take|by apply step_expired|by apply step_signal|by apply step_signal].
Qed.

Lemma tm_reach_inv s sp : tm_reach s sp → pinv s sp.
Proof.
  induction 1 as [|s sp a s' _ IH Hpre Hdo]; [apply tm_init_inv|]. destruct (tm_step s sp a IH Hpre) as (s1 & Hs1 & Hi). rewrite Hdo in Hs1. by injection Hs1 as <-.
Qed.
