(* ===== verification/PtimerProps.v ===== *)
(** * Theorems about the lwIP timers and their tree *)
From S2P Require Import Prelude.
From S2P Require Import RbTree.
From S2P Require Import RbTreeProofs.
From S2P Require Import RbTreeInsert.
From S2P Require Import RbTreeErase.
From S2P Require Import RbTreeProps.
From S2P Require Import LwipRbTree.
From S2P Require Import LwipRbSim.
From S2P Require Import LwipRbProps.
From S2P Require Import Ptimer.
From S2P Require Import PtimerProofs.
From S2P Require Import PtimerRun.


(** C9: no wakeup is lost.  In every state reached under the conditions of the service, while messages wait the timer thread is taking them or has a signal to
    take; while timers are queued, and none was asked for with a delay of 0, the interval timer is set or its signal is pending. *)
Theorem timer_wakeups s sp : tm_reach s sp →
  (sp_msgs sp ≠ [] → kicks s ≠ 0%nat ∨ thread s = Taking) ∧ (positive_delays sp → sp_queue sp ≠ [] → lazy_tim s ≠ (0, 0) ∨ expired s ≠ 0%nat).
Proof. intros Hi%tm_reach_inv. split; apply Hi. Qed.

(** C20: when the interval timer fires at the time [now], deal_timeout_sig returns; it posts exactly the timers that are due, earliest first; one-shot timers
    leave the queue, periodic ones are queued again for a period after [now], and the interval timer is set to the time left
    until the first timer of the new queue. *)
Theorem deal_timeout_correct s q now : pqueue s q → clock_ok now → (∀ x m, periodic s x = Some m → delay_ok m) →
  ∃ s', deal_timeout_sig (length q) (rounds (length q)) s now = Some s' ∧
    pqueue s' (tm_left now (periodic s) q) ∧
    posts s' = posts s ++ ((λ e, (handler_of s e.2, e.2)) <$> filter (λ e, e.1 <= nsec_of now) q) ∧
    match tm_left now (periodic s) q with [] => True | e :: _ => nsec_of now < e.1 ∧ lazy_tim s' = launch_tmr (e.1 - nsec_of now) end.
Proof.
  intros Hq Hc Hm. destruct (deal_timeout_spec (length q) (rounds (length q)) s q now Hq Hc Hm) as (s' & H1 & H2 & _ & H4 & H5); [done..|].
  exists s'. split; [done|]. split; [done|]. split; [done|]. destruct (tm_left now (periodic s) q); [done|]. split; [lia|apply H5].
Qed.

(** C17: rb_erase of rb_tree.c, on words that pack the address of the parent with the colour, does what the erasure of eprb_tree.c does on
    separate fields: it returns within 2 log2 (n + 1) rounds, with the same tree when the words are read as fields, a red-black tree of the old sequence without the node. *)
Theorem packed_erase_equivalent p t x : lw_holds p t → x ∈ inorder t →
  ∃ p' t', rb_erase (rounds (length (inorder t))) p x = Some p' ∧ ep_rb_erase (rounds (length (inorder t))) (unpack p) x = Some (unpack p') ∧
    lw_holds p' t' ∧ inorder t' = filter (λ y, y ≠ x) (inorder t).
Proof.
  intros Hp Hx. destruct (tree_path t x Hx) as (k & c & l & r & ->). pose proof (rbt_height _ (lh_rbt _ _ Hp)) as Hh. fold (rounds (length (inorder (fill k (T c l x r))))) in Hh.
  destruct (erase_spec _ (unpack p) k c l x r (lh_holds _ _ Hp) (lh_rbt _ _ Hp) Hh) as (s' & t' & He & Hh' & Hr' & Hin).
  destruct (rb_erase_sim _ (unpack p) p k c l x r (lw_psim _ _ Hp) (lh_holds _ _ Hp) Hh s' He) as (p' & Hp' & -> & Hwf').
  exists p', t'. split; [done|]. split; [done|]. split; [done|]. rewrite Hin, erase_sequence by apply (lh_holds _ _ Hp). done.
Qed.

(** Requests in a row, with no message taken. *)
Fixpoint regedit_all (s : ptimer_st) (xs : list Z) : option ptimer_st :=
  match xs with [] => Some s | x :: xs => s ← regedit_ptimer s SYS_PTIMEROUT_MSG x; regedit_all s xs end.

Lemma regedit_all_room xs : ∀ s h mq, ring_holds s h mq → Z.of_nat (length mq + length xs) < PTIMER_MSG_BUFFER_SIZE →
  ∃ s', regedit_all s xs = Some s' ∧ ring_holds s' h (mq ++ ((λ x, (SYS_PTIMEROUT_MSG, x)) <$> xs)).
Proof.
  induction xs as [|x xs IH]; intros s h mq Hr Hlen; cbn [regedit_all].
  - exists s. split; [done|]. cbn. by rewrite app_nil_r.
  - cbn in Hlen. destruct (regedit_room s h mq SYS_PTIMEROUT_MSG x Hr ltac:(lia)) as (m & tl & -> & Hr1). cbn [mbind option_bind].
    destruct (IH _ h _ Hr1) as (s' & Hs' & Hr'); [rewrite length_app; cbn; lia|]. exists s'. split; [done|]. by rewrite <- app_assoc in Hr'.
Qed.

Lemma regedit_all_snoc s xs x : regedit_all s (xs ++ [x]) = (s ← regedit_all s xs; regedit_ptimer s SYS_PTIMEROUT_MSG x).
Proof. revert s. induction xs as [|y xs IH]; intros s; cbn; [by destruct (regedit_ptimer s _ x)|]. destruct (regedit_ptimer s _ y); [apply IH|done]. Qed.

(** C37: when the message that fills the ring arrives, the 4096 timers waiting in it are lost: head equals tail again, and the timer thread finds the ring empty. *)
Theorem full_ring_loses_timers xs : Z.of_nat (length xs) = PTIMER_MSG_BUFFER_SIZE →
  ∃ s, regedit_all tm_init xs = Some s ∧ p_head s = p_tail s ∧
    ∀ fuel now, take_msg fuel (set_signals 0 0 Taking s) now = Some (set_signals 0 0 Waiting s).
Proof.
  intros Hlen. destruct (pi_ring _ _ tm_init_inv) as [h Hr]. destruct xs as [|x xs] using rev_ind; [done|]. clear IHxs. rewrite length_app in Hlen. cbn in Hlen.
  destruct (regedit_all_room xs tm_init h [] Hr) as (s1 & Hs1 & Hr1); [cbn; lia|]. cbn [app] in Hr1.
  destruct (regedit_full s1 h _ SYS_PTIMEROUT_MSG x Hr1) as (m & Hs2 & Hr2); [rewrite length_fmap; lia|].
  eexists. split.
  - rewrite regedit_all_snoc, Hs1. exact Hs2.
  - split; [by eapply ring_empty|]. intros fuel now. unfold take_msg. cbn [thread set_signals p_head p_tail]. rewrite bool_decide_true; [done|]. by apply (ring_empty _ h Hr2).
Qed.

(** ** Examples *)

Lemma full_ring_loses_timers_witness : ∃ s, regedit_all tm_init (replicate (Z.to_nat PTIMER_MSG_BUFFER_SIZE) 64) = Some s ∧ p_head s = p_tail s.
Proof.
  destruct (full_ring_loses_timers (replicate (Z.to_nat PTIMER_MSG_BUFFER_SIZE) 64)) as (s & H1 & H2 & _); [rewrite length_replicate; apply Z2Nat.id; unfold PTIMER_MSG_BUFFER_SIZE; lia|].
  exists s. split; [exact H1|exact H2].
Defined.

(** A timer of 250 ms asked for, and its message taken at second 10. *)
Definition ex_spec : tm_spec := mk_ts {[64 := (250, 7)]} [] [(10250000000, 64)] [].

Lemma ex_timer_from s : tm_reach s spec_init → tmos s = ∅ → thread s = Waiting → ∃ s', tm_reach s' ex_spec.
Proof.
  intros R0 Ht Hth. pose proof (tm_reach_inv _ _ R0) as Hi. destruct (pi_ring _ _ Hi) as [h Hr].
  set (s0 := set_active (mk_lt (<[64 := mk_ln 0 0 0]> (ln_nodes (active s))) (ln_root (active s))) (set_tmos (<[64 := mk_tmo 0 250 7 PTIMER_ONESHOT 9 0 0]> (tmos s)) s)).
  destruct (regedit_room s0 h [] SYS_PTIMEROUT_MSG 64) as (m & tl & Hs1 & _); [by apply (ring_same s)|done|]. set (s1 := set_signals _ _ _ _) in Hs1.
  assert (R1 : tm_reach s1 (spec_do spec_init (Timeout 64 250 7 9))).
  { eapply tr_do; [exact R0| |exact Hs1]. right. split; [done|]. split; [rewrite Ht; apply lookup_empty|]. unfold delay_u32. lia. }
  set (s2 := set_signals (expired s) (kicks s) Taking s1).
  assert (R2 : tm_reach s2 (spec_do spec_init (Timeout 64 250 7 9))) by (eapply (tr_do s1 _ Kick); [exact R1|done|cbn; unfold on_kick; cbn; by rewrite Hth]).
  assert (Hpre : tm_pre s2 (spec_do spec_init (Timeout 64 250 7 9)) (Take (10, 0))) by (split; [done|unfold clock_ok, NANO_PER_SECOND; cbn; lia]).
  destruct (tm_step _ _ (Take (10, 0)) (tm_reach_inv _ _ R2) Hpre) as (s3 & Hs3 & _). exists s3.
  replace ex_spec with (spec_do (spec_do spec_init (Timeout 64 250 7 9)) (Take (10, 0))) by reflexivity. by eapply tr_do.
Qed.
Lemma ex_timer : ∃ s, tm_reach s ex_spec.
Proof. apply (ex_timer_from tm_init); [apply tr_init|reflexivity..]. Qed.


Lemma timer_wakeups_witness : ∃ s, tm_reach s ex_spec ∧ (lazy_tim s ≠ (0, 0) ∨ expired s ≠ 0%nat).
Proof. destruct ex_timer as [s Hs]. exists s. split; [exact Hs|]. apply (proj2 (timer_wakeups s ex_spec Hs)); [|done].
  intros x p Hx. change (sp_info ex_spec) with ({[64 := (250, 7)]} : gmap Z (Z * Z)) in Hx. apply lookup_singleton_Some in Hx as [_ <-]. done. Defined.

Lemma deal_timeout_correct_witness : ∃ s s', deal_timeout_sig 1 2 s (11, 0) = Some s' ∧ posts s' = posts s ++ [(handler_of s 64, 64)] ∧ pqueue s' [].
Proof.
  destruct ex_timer as [s Hs%tm_reach_inv]. assert (Hper : ∀ x, periodic s x = None).
  { intros x. unfold periodic. destruct (tmos s !! x) as [t|] eqn:Ht; [|done]. cbn. by destruct (pi_node _ _ Hs x t Ht) as [-> _]. }
  destruct (deal_timeout_correct s [(10250000000, 64)] (11, 0)) as (s' & H1 & H2 & H3 & _).
  - apply Hs.
  - unfold clock_ok, NANO_PER_SECOND. cbn. lia.
  - intros x m. rewrite Hper. done.
  - exists s, s'. split; [exact H1|]. split; [exact H3|]. unfold tm_left in H2. rewrite (tm_after_ext _ _ (λ _, None) _ _ Hper), tm_after_none in H2. exact H2.
Defined.

Definition ex_lw : lw_tree := mk_lt {[64 := mk_ln 128 0 0; 128 := mk_ln 1 192 64; 192 := mk_ln 128 0 0]} 128.

Lemma ex_lw_holds : lw_holds ex_lw (T 1 (T 0 E 64 E) 128 (T 0 E 192 E)).
Proof.
  assert (H : map_Forall (λ x n, x ≠ 0 ∧ Z.land x 3 = 0 ∧ Z.land (ln_right n) 3 = 0 ∧ Z.land (ln_left n) 3 = 0) (ln_nodes ex_lw)) by (apply (bool_decide_unpack _); vm_compute; exact I).
  split.
  - split; [intros x n Hx; destruct (H x n Hx) as (H1 & H2 & _); done| |done]. intros x n d Hx. destruct (H x n Hx) as (_ & _ & H3 & H4). by destruct d.
  - split; [done| |apply (bool_decide_unpack _); vm_compute; exact I]. cbn. repeat split; eexists; (split; [vm_compute; reflexivity|]); done.
  - split; [done|]. exists 1%nat. right. split; [done|]. exists 0%nat. split; [done|]. split; left; done.
Qed.

Lemma packed_erase_equivalent_witness : ∃ p' t', rb_erase 4 ex_lw 128 = Some p' ∧ lw_holds p' t' ∧ inorder t' = [64; 192].
Proof.
  destruct (packed_erase_equivalent ex_lw (T 1 (T 0 E 64 E) 128 (T 0 E 192 E)) 128 ex_lw_holds) as (p' & t' & H1 & _ & H2 & H3); [apply (bool_decide_unpack _); vm_compute; exact I|].
  exists p', t'. split; [exact H1|]. split; [exact H2|]. exact H3.
Defined.
