(* ===== verification/Select.v ===== *)
(** * [select] over several stacks (src/src/nSocket/nstack/event/select, [nstack_select] of nstack_socket.c)

    A call of [select] names descriptors of the application.  Two tables translate them: [fdinf] has, for each of them, its descriptor in every stack module and the
    module it is routed to; [modinf] has the way back.  [nstack_select] splits the sets of the caller into one triple of sets for each module, asks every module
    once without waiting, and, when nothing is ready, hangs its entry into a list that a thread scans.  The thread collects the sets of all entries of a module,
    asks the module, distributes the answer and wakes the callers.

    A call is given twice: as a function, [nstack_select_begin], which is the call when nothing else runs, and in small steps, [begin_step], which other calls and the thread can come between.

    [NSTACK_FD_SET] and the [FD_SET] of the C library address the same bits: both count from the low bit of the first byte.  The modules' functions and the [select] of the
    system are arguments.  A critical section under [g_select_module.lock] is one step. *)
From S2P Require Import Prelude.

Definition NSTACK_MAX_MODULE_NUM : Z := 8.
Definition NSTACK_SELECT_MAX_FD : Z := 8192.
Definition NSTACK_SETSIZE : Z := 8192.
(** of the C library *)
Definition FD_SETSIZE : Z := 1024.
Definition TRUE : Z := 1.
Definition FALSE : Z := 0.
Definition EINVAL : Z := 22.
Definition ENOMEM : Z := 12.

(** ** Sets of descriptors *)

(** [fds_bits], a byte per element. *)
Abbreviation nstack_fd_set := (list Z).
Definition set_bytes : Z := Z.shiftr (NSTACK_SETSIZE + 7) 3.
Definition app_bytes : Z := Z.shiftr (FD_SETSIZE + 7) 3.

Definition NSTACK_FD_SET (n : Z) (p : nstack_fd_set) : option nstack_fd_set :=
  b ← aread p (Z.shiftr n 3); awrite p (Z.shiftr n 3) (Z.lor b (Z.shiftl 1 (Z.land n 7))).
Definition NSTACK_FD_ISSET (n : Z) (p : nstack_fd_set) : option bool :=
  b ← aread p (Z.shiftr n 3); Some (negb (Z.land b (Z.shiftl 1 (Z.land n 7)) =? 0)).
Definition NSTACK_FD_ZERO : nstack_fd_set := replicate (Z.to_nat set_bytes) 0.
Definition NSTACK_FD_OR (p1 p2 : nstack_fd_set) : nstack_fd_set := zip_with Z.lor p1 p2.

(** [FD_SET] and [FD_ISSET] on a [fd_set], which has [FD_SETSIZE] bits. *)
Definition FD_SET (n : Z) (p : nstack_fd_set) : option nstack_fd_set := if n <? FD_SETSIZE then NSTACK_FD_SET n p else None.
Definition FD_ISSET (n : Z) (p : nstack_fd_set) : option bool := if n <? FD_SETSIZE then NSTACK_FD_ISSET n p else None.

(** The code repeats what it does for the sets of readable, writable and exceptional descriptors; here a kind selects the set. *)
Inductive kind := Rd | Wr | Ex.
#[global] Instance kind_eq : EqDecision kind.
Proof. solve_decision. Defined.

Record triple (A : Type) := mk_tri { t_rd : A; t_wr : A; t_ex : A }.
Arguments mk_tri {A}.
Arguments t_rd {A}.
Arguments t_wr {A}.
Arguments t_ex {A}.

Definition tget {A} (k : kind) (t : triple A) : A := match k with Rd => t_rd t | Wr => t_wr t | Ex => t_ex t end.
Definition tset {A} (k : kind) (v : A) (t : triple A) : triple A :=
  match k with Rd => mk_tri v (t_wr t) (t_ex t) | Wr => mk_tri (t_rd t) v (t_ex t) | Ex => mk_tri (t_rd t) (t_wr t) v end.
Definition each_kind {S} (f : kind → S → option S) (s : S) : option S := s ← f Rd s; s ← f Wr s; f Ex s.

(** ** Tables (select_adapt.c) *)

(** A pointer to memory of [malloc]: [select_free] leaves the variable as it is. *)
Inductive mptr (A : Type) := Null | Freed | Mem (a : A).
Arguments Null {A}.
Arguments Freed {A}.
Arguments Mem {A}.

Record select_comm_fd_map := mk_comm { mod_fd : list Z; index : Z }.
Record select_fd_map_inf := mk_map { fdinf : mptr (list select_comm_fd_map); modinf : list (mptr (list Z)) }.

Definition select_range (fd : Z) : bool := (0 <=? fd) && (fd <? NSTACK_SELECT_MAX_FD).
Definition the {A} (p : mptr A) : option A := match p with Mem a => Some a | _ => None end.

Definition select_get_modfd (m : select_fd_map_inf) (fd inx : Z) : option Z :=
  if negb (select_range fd) then Some (-1)
  else if inx <? 0 then Some (-1)
  else match fdinf m with Null => Some FALSE | p => l ← the p; c ← aread l fd; aread (mod_fd c) inx end.

Definition select_set_modfd (m : select_fd_map_inf) (fd inx modfd : Z) : option (Z * select_fd_map_inf) :=
  if negb (select_range fd) then Some (-1, m)
  else match fdinf m with
       | Null => Some (FALSE, m)
       | p => l ← the p; c ← aread l fd; f ← awrite (mod_fd c) inx modfd; l ← awrite l fd (mk_comm f (index c)); Some (TRUE, mk_map (Mem l) (modinf m))
       end.

Definition select_get_modindex (m : select_fd_map_inf) (fd : Z) : option Z :=
  if negb (select_range fd) then Some (-1) else l ← the (fdinf m); c ← aread l fd; Some (index c).

Definition select_get_commfd (m : select_fd_map_inf) (modfd inx : Z) : option Z :=
  if negb (select_range modfd) then Some (-1) else p ← aread (modinf m) inx; l ← the p; aread l modfd.

Definition select_set_commfd (m : select_fd_map_inf) (modfd inx fd : Z) : option (Z * select_fd_map_inf) :=
  if negb (select_range modfd) then Some (-1, m)
  else p ← aread (modinf m) inx;
       match p with
       | Null => Some (FALSE, m)
       | p => l ← the p; l ← awrite l modfd fd; ms ← awrite (modinf m) inx (Mem l); Some (TRUE, mk_map (fdinf m) ms)
       end.

Definition select_set_index (m : select_fd_map_inf) (fd inx : Z) : option (Z * select_fd_map_inf) :=
  if negb (select_range fd) then Some (-1, m)
  else match fdinf m with
       | Null => Some (FALSE, m)
       | p => l ← the p; c ← aread l fd; l ← awrite l fd (mk_comm (mod_fd c) inx); Some (TRUE, mk_map (Mem l) (modinf m))
       end.

Fixpoint reset_mod_fd (n : nat) (i : Z) (f : list Z) : option (list Z) :=
  match n with O => Some f | S n => f ← awrite f i (-1); reset_mod_fd n (i + 1) f end.

Definition reset_select_fdinf (m : select_fd_map_inf) (fd : Z) : option select_fd_map_inf :=
  if negb (select_range fd) then Some m
  else l ← the (fdinf m); c ← aread l fd; f ← reset_mod_fd (Z.to_nat NSTACK_MAX_MODULE_NUM) 0 (mod_fd c);
       l ← awrite l fd (mk_comm f (-1)); Some (mk_map (Mem l) (modinf m)).

Section fdmapping.
Context (modNum : Z) (malloc_ok : Z → bool).

Definition comm0 : select_comm_fd_map := mk_comm (replicate (Z.to_nat NSTACK_MAX_MODULE_NUM) 0) 0.

(** [select_alloc]: zeroed memory; the allocation has a number. *)
Definition select_alloc {A} (call : Z) (size : Z) (zero : A) : mptr A := if (size <=? 0) || negb (malloc_ok call) then Null else Mem zero.
Definition select_free {A} (p : mptr A) : mptr A := match p with Mem _ => Freed | p => p end.

(** The tables of the modules; [false] when an allocation fails. *)
Fixpoint alloc_comm (n : nat) (i : Z) (ms : list (mptr (list Z))) : option (bool * list (mptr (list Z))) :=
  match n with
  | O => Some (true, ms)
  | S n => let p := select_alloc (1 + i) (4 * NSTACK_SELECT_MAX_FD) (replicate (Z.to_nat NSTACK_SELECT_MAX_FD) 0) in
           ms ← awrite ms i p; match p with Null => Some (false, ms) | _ => alloc_comm n (i + 1) ms end
  end.

Fixpoint reset_all (n : nat) (i : Z) (m : select_fd_map_inf) : option select_fd_map_inf :=
  match n with O => Some m | S n => m ← reset_select_fdinf m i; reset_all n (i + 1) m end.

Fixpoint reset_comm (n : nat) (i inx : Z) (m : select_fd_map_inf) : option select_fd_map_inf :=
  match n with O => Some m | S n => '(_, m) ← select_set_commfd m i inx (-1); reset_comm n (i + 1) inx m end.

Fixpoint reset_comms (n : nat) (inx : Z) (m : select_fd_map_inf) : option select_fd_map_inf :=
  match n with O => Some m | S n => m ← reset_comm (Z.to_nat NSTACK_SELECT_MAX_FD) 0 inx m; reset_comms n (inx + 1) m end.

Fixpoint free_comms (n : nat) (i : Z) (ms : list (mptr (list Z))) : option (list (mptr (list Z))) :=
  match n with O => Some ms | S n => p ← aread ms i; ms ← awrite ms i (select_free p); free_comms n (i + 1) ms end.

Definition mapping_fail (m : select_fd_map_inf) : option (Z * select_fd_map_inf) :=
  ms ← free_comms (Z.to_nat modNum) 0 (modinf m); Some (FALSE, mk_map (select_free (fdinf m)) ms).

Definition fdmapping_init (m : select_fd_map_inf) : option (Z * select_fd_map_inf) :=
  let p := select_alloc 0 (36 * NSTACK_SELECT_MAX_FD) (replicate (Z.to_nat NSTACK_SELECT_MAX_FD) comm0) in
  let m := mk_map p (modinf m) in
  match p with
  | Null => mapping_fail m
  | _ =>
    '(ok, ms) ← alloc_comm (Z.to_nat modNum) 0 (modinf m);
    let m := mk_map p ms in
    if negb ok then mapping_fail m
    else m ← reset_all (Z.to_nat NSTACK_SELECT_MAX_FD) 0 m; m ← reset_comms (Z.to_nat modNum) 0 m; Some (TRUE, m)
  end.

End fdmapping.

(** ** Entries and the module (nstack_select.h) *)

(** [count] shares its place with [readyset]; the member [inx] is not used. *)
Record select_cb_p := mk_cb { sets : triple nstack_fd_set; count : Z; select_errno : Z }.
Definition readyset (c : select_cb_p) : Z := count c.

Record select_entry := mk_entry {
  cb : list select_cb_p;
  ready : select_cb_p;
  e_next : option Z;
  e_prev : option Z;
  set_num : Z;
  info_index : Z;
  sem : Z
}.

(** Live entries by address, the two ends of the list, and the other members of [g_select_module] the code uses. *)
Record select_module_info := mk_sel {
  entries : gmap Z select_entry;
  entry_head : option Z;
  entry_tail : option Z;
  default_mod : Z;
  inited : bool;
  g_sem : Z;
  fd_map : select_fd_map_inf
}.

Definition set_cb v e := mk_entry v (ready e) (e_next e) (e_prev e) (set_num e) (info_index e) (sem e).
Definition set_ready v e := mk_entry (cb e) v (e_next e) (e_prev e) (set_num e) (info_index e) (sem e).
Definition set_next v e := mk_entry (cb e) (ready e) v (e_prev e) (set_num e) (info_index e) (sem e).
Definition set_prev v e := mk_entry (cb e) (ready e) (e_next e) v (set_num e) (info_index e) (sem e).
Definition set_info n i e := mk_entry (cb e) (ready e) (e_next e) (e_prev e) n i (sem e).
Definition set_sem v e := mk_entry (cb e) (ready e) (e_next e) (e_prev e) (set_num e) (info_index e) v.

Definition set_entries v s := mk_sel v (entry_head s) (entry_tail s) (default_mod s) (inited s) (g_sem s) (fd_map s).
Definition set_head v s := mk_sel (entries s) v (entry_tail s) (default_mod s) (inited s) (g_sem s) (fd_map s).
Definition set_tail v s := mk_sel (entries s) (entry_head s) v (default_mod s) (inited s) (g_sem s) (fd_map s).
Definition set_gsem v s := mk_sel (entries s) (entry_head s) (entry_tail s) (default_mod s) (inited s) v (fd_map s).
Definition set_map v s := mk_sel (entries s) (entry_head s) (entry_tail s) (default_mod s) (inited s) (g_sem s) v.

Definition no_sets : triple nstack_fd_set := mk_tri NSTACK_FD_ZERO NSTACK_FD_ZERO NSTACK_FD_ZERO.
Definition cb0 : select_cb_p := mk_cb no_sets 0 0.
Definition entry0 : select_entry := mk_entry (replicate (Z.to_nat NSTACK_MAX_MODULE_NUM) cb0) cb0 None None 0 0 0.

(** ** Records of descriptors: [nssct_create], [nssct_close], [nssct_set_index] *)

Definition nssct_create (cfd mfd inx : Z) (inited : bool) (m : select_fd_map_inf) : option select_fd_map_inf :=
  if negb inited then Some m else '(_, m) ← select_set_modfd m cfd inx mfd; '(_, m) ← select_set_commfd m mfd inx cfd; Some m.

Definition nssct_close (cfd inx : Z) (inited : bool) (m : select_fd_map_inf) : option select_fd_map_inf :=
  if negb inited then Some m
  else mfd ← select_get_modfd m cfd inx; '(_, m) ← select_set_modfd m cfd inx (-1); '(_, m) ← select_set_commfd m mfd inx (-1);
       '(_, m) ← select_set_index m cfd (-1); Some m.

Definition nssct_set_index (fd inx : Z) (inited : bool) (m : select_fd_map_inf) : option select_fd_map_inf :=
  if negb inited then Some m else '(_, m) ← select_set_index m fd inx; Some m.

(** ** Splitting the sets of a caller *)

Section select.
Context {W : Type} (modNum fix_mid : Z).

(** A module's [pfselect]: the number of descriptors and the sets, a time to wait; it returns the number of ready descriptors, the value of [errno], the new sets and the time left. *)
Definition timeval : Type := Z * Z.
Definition select_fun : Type := Z → triple nstack_fd_set → timeval → W → (Z * Z * triple nstack_fd_set * timeval) * W.
Context (get_select_fun_nonblock : Z → option select_fun).

(** The sets an application passes, each of which may be [NULL]. *)
Definition app_sets : Type := triple (option nstack_fd_set).

Definition wants (i : Z) (s : option nstack_fd_set) : option bool := match s with None => Some false | Some p => FD_ISSET i p end.

Definition wanted (i : Z) (r : app_sets) : option bool :=
  a ← wants i (t_rd r); if a : bool then Some true else b ← wants i (t_wr r); if b : bool then Some true else wants i (t_ex r).

(** [NSTACK_FD_SET] on a set of [cb[inx]], and its [count]. *)
Definition cb_mark (inx fd : Z) (k : kind) (e : select_entry) : option select_entry :=
  c ← aread (cb e) inx; p ← NSTACK_FD_SET fd (tget k (sets c));
  cs ← awrite (cb e) inx (mk_cb (tset k p (sets c)) (if count c <=? fd then fd + 1 else count c) (select_errno c)); Some (set_cb cs e).

Definition split_kinds (i inx fd : Z) (r : app_sets) : select_entry → option select_entry :=
  each_kind (λ k e, w ← wants i (tget k r); if w : bool then cb_mark inx fd k e else Some e).

(** The module [inx] for the descriptor [i]. *)
Definition split_one (on : bool) (i inx : Z) (r : app_sets) (s : select_fd_map_inf * select_entry) : option (select_fd_map_inf * select_entry) :=
  let '(m, e) := s in
  w ← wanted i r;
  if negb w then Some (m, e)
  else
    fd ← select_get_modfd m i inx;
    unbound ← (if fd <? 0 then Some true else x ← select_get_modindex m i; Some (x <? 0));
    if unbound : bool then
      if inx =? fix_mid then m ← nssct_create i i inx on m; e ← split_kinds i inx i r e; Some (m, e) else Some (m, e)
    else x ← select_get_modindex m i; if x =? inx then e ← split_kinds i inx fd r e; Some (m, e) else Some (m, e).

Fixpoint split_modules (n : nat) (on : bool) (i inx : Z) (r : app_sets) (s : select_fd_map_inf * select_entry) : option (select_fd_map_inf * select_entry) :=
  match n with O => Some s | S n => s ← split_one on i inx r s; split_modules n on i (inx + 1) r s end.

Fixpoint split_fds (n : nat) (on : bool) (i : Z) (r : app_sets) (s : select_fd_map_inf * select_entry) : option (select_fd_map_inf * select_entry) :=
  match n with O => Some s | S n => s ← split_modules (Z.to_nat modNum) on i 0 r s; split_fds n on (i + 1) r s end.

Fixpoint split_info (n : nat) (inx : Z) (e : select_entry) : option select_entry :=
  match n with
  | O => Some e
  | S n => c ← aread (cb e) inx; split_info n (inx + 1) (if 0 <? count c then set_info (set_num e + 1) inx e else e)
  end.

Definition select_cb_split_by_mod (on : bool) (nfds : Z) (r : app_sets) (m : select_fd_map_inf) (e : select_entry) : option (select_fd_map_inf * select_entry) :=
  '(m, e) ← split_fds (Z.to_nat nfds) on 0 r (m, e); e ← split_info (Z.to_nat modNum) 0 e; Some (m, e).

(** ** The list of entries *)

Definition upd_entry (f : select_entry → select_entry) (x : Z) (s : select_module_info) : option select_module_info :=
  e ← entries s !! x; Some (set_entries (<[x := f e]> (entries s)) s).

Definition select_add_cb (entry : Z) (s : select_module_info) : option select_module_info :=
  s ← match entry_head s with
      | None =>
        let s := set_tail (Some entry) (set_head (Some entry) s) in
        s ← upd_entry (set_next None) entry s; upd_entry (set_prev None) entry s
      | Some _ =>
        t ← entry_tail s;
        s ← upd_entry (set_next (Some entry)) t s;
        s ← upd_entry (set_prev (Some t)) entry s;
        upd_entry (set_next None) entry (set_tail (Some entry) s)
      end;
  Some (set_gsem (g_sem s + 1) s).

Definition select_rm_cb (entry : Z) (s : select_module_info) : option select_module_info :=
  e ← entries s !! entry;
  s ← (if bool_decide (entry_head s = Some entry) then Some (set_head (e_next e) s)
       else match e_prev e with Some p => upd_entry (set_next (e_next e)) p s | None => Some s end);
  e ← entries s !! entry;
  s ← (if bool_decide (entry_tail s = Some entry) then Some (set_tail (e_prev e) s)
       else match e_next e with Some n => upd_entry (set_prev (e_prev e)) n s | None => Some s end);
  s ← upd_entry (set_next None) entry s; upd_entry (set_prev None) entry s.

(** [for (tmp = module->entry_head; NULL != tmp; tmp = tmp->next)]. *)
Fixpoint for_entries {A} (fuel : nat) (body : A → select_entry → option (A * select_entry)) (tmp : option Z) (a : A) (m : gmap Z select_entry) : option (A * gmap Z select_entry) :=
  match tmp with
  | None => Some (a, m)
  | Some x =>
    match fuel with
    | O => None
    | S fuel => e ← m !! x; '(a, e) ← body a e; for_entries fuel body (e_next e) a (<[x := e]> m)
    end
  end.

Definition all_entries {A} (body : A → select_entry → option (A * select_entry)) (a : A) (s : select_module_info) : option (A * select_module_info) :=
  '(a, m) ← for_entries (size (entries s)) body (entry_head s) a (entries s); Some (a, set_entries m s).

(** ** Ready descriptors *)

(** A descriptor [i] of module [inx] in one set: the caller's descriptor is [fd]. *)
Definition take_ready (i fd inx : Z) (r : triple nstack_fd_set) (k : kind) (e : select_entry) : option select_entry :=
  a ← NSTACK_FD_ISSET i (tget k r); c ← aread (cb e) inx; b ← NSTACK_FD_ISSET i (tget k (sets c));
  if a && b then
    p ← FD_SET fd (tget k (sets (ready e)));
    Some (set_ready (mk_cb (tset k p (sets (ready e))) (readyset (ready e) + 1) (select_errno (ready e))) e)
  else Some e.

Fixpoint entry_module_fdset_from (n : nat) (i : Z) (m : select_fd_map_inf) (r : triple nstack_fd_set) (inx : Z) (e : select_entry) : option select_entry :=
  match n with
  | O => Some e
  | S n => fd ← select_get_commfd m i inx; e ← (if fd <? 0 then Some e else each_kind (take_ready i fd inx r) e); entry_module_fdset_from n (i + 1) m r inx e
  end.

Definition entry_module_fdset (m : select_fd_map_inf) (e : select_entry) (fd_size : Z) (r : triple nstack_fd_set) (inx : Z) : option select_entry :=
  entry_module_fdset_from (Z.to_nat fd_size) 0 m r inx e.

(** [readyset] and [select_errno] of an entry whose module failed. *)
Definition set_failed (nfds err : Z) (e : select_entry) : select_entry := set_ready (mk_cb (sets (ready e)) nfds err) e.

(** The modules from [inx] on; the result is [TRUE], or [FALSE] when a module fails. *)
Fixpoint scan_modules (n : nat) (inx : Z) (m : select_fd_map_inf) (e : select_entry) (w : W) : option (Z * select_entry * W) :=
  match n with
  | O => Some (TRUE, e, w)
  | S n =>
    c ← aread (cb e) inx;
    match get_select_fun_nonblock inx with
    | Some f =>
      if 0 <? count c then
        let '((rd, err, r, _), w) := f (count c) (sets c) (0, 0) w in
        if 0 <? rd then e ← entry_module_fdset m e (count c) r inx; scan_modules n (inx + 1) m e w
        else if rd <? 0 then Some (FALSE, set_failed rd err e, w)
        else scan_modules n (inx + 1) m e w
      else scan_modules n (inx + 1) m e w
    | None => scan_modules n (inx + 1) m e w
    end
  end.

(** The allocations of the three sets have the numbers 0, 1 and 2. *)
Definition scan_memory (malloc_ok : Z → bool) : bool := malloc_ok 0 && malloc_ok 1 && malloc_ok 2.
Definition select_scan (malloc_ok : Z → bool) (m : select_fd_map_inf) (e : select_entry) (w : W) : option (Z * select_entry * W) :=
  if negb (scan_memory malloc_ok) then Some (-1, e, w) else scan_modules (Z.to_nat modNum) 0 m e w.

(** ** The thread *)

(** The sets and the number of descriptors collected so far. *)
Definition get_fdset_body (inx : Z) (a : Z * triple nstack_fd_set) (e : select_entry) : option ((Z * triple nstack_fd_set) * select_entry) :=
  let '(nfds, r) := a in
  c ← aread (cb e) inx;
  if count c <=? 0 then Some (a, e)
  else Some ((if nfds <? count c then count c else nfds,
              mk_tri (NSTACK_FD_OR (t_rd r) (t_rd (sets c))) (NSTACK_FD_OR (t_wr r) (t_wr (sets c))) (NSTACK_FD_OR (t_ex r) (t_ex (sets c)))), e).

Definition select_thread_get_fdset (inx : Z) (s : select_module_info) : option ((Z * triple nstack_fd_set) * select_module_info) :=
  all_entries (get_fdset_body inx) (0, no_sets) s.

Definition set_fdset_body (m : select_fd_map_inf) (nfds : Z) (r : triple nstack_fd_set) (inx err : Z) (_ : unit) (e : select_entry) : option (unit * select_entry) :=
  c ← aread (cb e) inx;
  if count c <=? 0 then Some (tt, e)
  else if nfds <? 0 then Some (tt, set_failed nfds err e)
  else e ← entry_module_fdset m e nfds r inx; Some (tt, e).

Definition select_thread_set_fdset (nfds : Z) (r : triple nstack_fd_set) (inx err : Z) (s : select_module_info) : option select_module_info :=
  '(_, s) ← all_entries (set_fdset_body (fd_map s) nfds r inx err) tt s; Some s.

Fixpoint clear_counts (n : nat) (inx : Z) (cs : list select_cb_p) : option (list select_cb_p) :=
  match n with O => Some cs | S n => c ← aread cs inx; cs ← awrite cs inx (mk_cb (sets c) 0 (select_errno c)); clear_counts n (inx + 1) cs end.

Definition event_post_body (_ : unit) (e : select_entry) : option (unit * select_entry) :=
  if readyset (ready e) =? 0 then Some (tt, e)
  else cs ← clear_counts (Z.to_nat modNum) 0 (cb e); Some (tt, set_sem (sem e + 1) (set_cb cs e)).

Definition select_event_post (s : select_module_info) : option select_module_info := '(_, s) ← all_entries event_post_body tt s; Some s.

(** Where the thread is: before the semaphore, before collecting the sets of a module, before distributing its answer, before the wake-up. *)
Inductive thread_pc :=
  | TStart
  | TGet (inx : Z)
  | TSet (inx nfds : Z) (r : triple nstack_fd_set) (err : Z)
  | TPost.

(** The end of the loop body for module [inx]. *)
Definition thread_next (inx : Z) : thread_pc := if inx + 1 <? modNum then TGet (inx + 1) else TPost.

(** One step of [nstack_select_thread]; [None]: it waits for the semaphore.  The variable [timeout] is an argument. *)
Definition select_thread_step (p : thread_pc) (t : timeval) (s : select_module_info) (w : W) : option (thread_pc * timeval * select_module_info * W) :=
  match p with
  | TStart =>
    let go := if 0 <? modNum then TGet 0 else TPost in
    match entry_head s with
    | Some _ => Some (go, t, s, w)
    | None => if 0 <? g_sem s then Some (go, t, set_gsem (g_sem s - 1) s, w) else None
    end
  | TGet inx =>
    '((fd_size, r), s) ← select_thread_get_fdset inx s;
    if fd_size <=? 0 then Some (thread_next inx, t, s, w)
    else match get_select_fun_nonblock inx with
         | None => Some (thread_next inx, t, s, w)
         | Some f =>
           let '((rd, err, r, t), w) := f fd_size r t w in
           if 0 <? rd then Some (TSet inx fd_size r 0, t, s, w)
           else if rd <? 0 then Some (TSet inx rd r err, t, s, w)
           else Some (thread_next inx, t, s, w)
         end
  | TSet inx nfds r err =>
    s ← select_thread_set_fdset nfds r inx err s;
    Some (if nfds <? 0 then TPost else thread_next inx, t, s, w)
  | TPost => s ← select_event_post s; Some (TStart, (0, 800), s, w)
  end.

(** ** Times (nstack.c) *)

Definition NSTACK_MAX_U64_NUM : Z := 2 ^ 64 - 1.

(** [nstack_timeval2msec]; [None]: the result -1. *)
Definition nstack_timeval2msec (t : timeval) : option Z :=
  let '(sec, usec) := t in
  if (sec <? 0) || (usec <? 0) then None
  else if NSTACK_MAX_U64_NUM / 1000 <? sec then None
  else
    let sec2msec := (1000 * sec) mod 2 ^ 64 in let usec2msec := usec / 1000 in
    if NSTACK_MAX_U64_NUM - sec2msec <? usec2msec then None else Some ((sec2msec + usec2msec) mod 2 ^ 64).

(** The time left of [msec] milliseconds after a wait of [time_cost], as [nstack_select] stores it. *)
Definition select_time_left (timeout : timeval) (msec time_cost : Z) : timeval :=
  if msec <=? time_cost then (0, 0)
  else if 0 <? time_cost then ((msec - time_cost) / 1000, (msec - time_cost) mod 1000 * 1000)
  else timeout.

(** ** [nstack_select] *)

(** What a call does before it waits: it is done, it leaves the work to the system's [select], or it waits with an entry in the list. *)
Inductive select_start := SelDone (ret : Z) (r : app_sets) | SelBase | SelWait.

(** [scan_return]: the sets of the caller are the first bytes of those of the entry. *)
Definition result_set (p : nstack_fd_set) : nstack_fd_set := take (Z.to_nat app_bytes) p.
Definition select_result (r : app_sets) (e : select_entry) : app_sets :=
  mk_tri (t_rd r ≫= λ _, Some (result_set (t_rd (sets (ready e))))) (t_wr r ≫= λ _, Some (result_set (t_wr (sets (ready e)))))
         (t_ex r ≫= λ _, Some (result_set (t_ex (sets (ready e))))).

Definition negative_time (t : option timeval) : bool := match t with Some (s, u) => (s <? 0) || (u <? 0) | None => false end.
Definition zero_time (t : option timeval) : bool := match t with Some (s, u) => (s =? 0) && (u =? 0) | None => false end.

(** [entry] is the address of a new entry, [None] when [select_alloc] fails.  The entry is freed when the call is done.  The message of the first test reads [timeout]. *)
Definition nstack_select_begin (entry : option Z) (malloc_ok : Z → bool) (nfds : Z) (r : app_sets) (timeout : option timeval) (errno : Z) (s : select_module_info) (w : W) :
    option (select_start * Z * select_module_info * W) :=
  if (FD_SETSIZE <? nfds) || (nfds <? 0) || negative_time timeout then _ ← timeout; Some (SelDone (-1) r, EINVAL, s, w)
  else if negb (inited s) then Some (SelBase, errno, s, w)
  else if (nfds <=? 0) || match r with mk_tri None None None => true | _ => false end then Some (SelBase, errno, s, w)
  else match entry with
       | None => Some (SelDone (-1) r, ENOMEM, s, w)
       | Some x =>
         '(m, e) ← select_cb_split_by_mod (inited s) nfds r (fd_map s) entry0;
         let s := set_map m s in
         if (set_num e <=? 1) && (info_index e =? default_mod s) then Some (SelBase, errno, s, w)
         else
           '(ok, e, w) ← select_scan malloc_ok m e w;
           if ok =? FALSE then Some (SelDone (-1) r, select_errno (ready e), s, w)
           else if negb (readyset (ready e) =? 0) || zero_time timeout then
             Some (SelDone (readyset (ready e)) (select_result r e), if readyset (ready e) <? 0 then select_errno (ready e) else errno, s, w)
           else
             s ← select_add_cb x (set_entries (<[x := e]> (entries s)) s);
             match timeout with
             | Some t => match nstack_timeval2msec t with
                         | Some _ => Some (SelWait, errno, s, w)
                         | None => Some (SelDone (-1) r, EINVAL, set_entries (delete x (entries s)) s, w)
                         end
             | None => Some (SelWait, errno, s, w)
             end
       end.

(** Where a call is that has its entry: before the split of descriptor [i] for module [inx]; before the count of the modules; before the memory of the scan; before module [inx] is asked;
    before its answer is taken; behind the scan. *)
Inductive begin_pc :=
  | BSplit (i inx : Z)
  | BInfo
  | BAlloc
  | BScan (inx : Z)
  | BTake (inx : Z) (a : triple nstack_fd_set)
  | BEnd.

Inductive begin_out := BNext (p : begin_pc) (e : select_entry) | BOut (o : select_start) (errno : Z).

(** One step of such a call; what it does with the tables and the list is one step each. *)
Definition begin_step (x nfds : Z) (r : app_sets) (timeout : option timeval) (errno : Z) (malloc_ok : Z → bool) (p : begin_pc) (e : select_entry) (s : select_module_info) (w : W) :
    option (begin_out * select_module_info * W) :=
  match p with
  | BSplit i inx =>
    if negb (i <? nfds) then Some (BNext BInfo e, s, w)
    else if negb (inx <? modNum) then Some (BNext (BSplit (i + 1) 0) e, s, w)
    else '(m, e) ← split_one (inited s) i inx r (fd_map s, e); Some (BNext (BSplit i (inx + 1)) e, set_map m s, w)
  | BInfo =>
    e ← split_info (Z.to_nat modNum) 0 e;
    Some (if (set_num e <=? 1) && (info_index e =? default_mod s) then BOut SelBase errno else BNext BAlloc e, s, w)
  | BAlloc => Some (BNext (if scan_memory malloc_ok then BScan 0 else BEnd) e, s, w)
  | BScan inx =>
    if negb (inx <? modNum) then Some (BNext BEnd e, s, w)
    else
      c ← aread (cb e) inx;
      match get_select_fun_nonblock inx with
      | Some f =>
        if 0 <? count c then
          let '((rd, err, a, _), w) := f (count c) (sets c) (0, 0) w in
          Some (if 0 <? rd then BNext (BTake inx a) e else if rd <? 0 then BOut (SelDone (-1) r) err else BNext (BScan (inx + 1)) e, s, w)
        else Some (BNext (BScan (inx + 1)) e, s, w)
      | None => Some (BNext (BScan (inx + 1)) e, s, w)
      end
  | BTake inx a => c ← aread (cb e) inx; e ← entry_module_fdset (fd_map s) e (count c) a inx; Some (BNext (BScan (inx + 1)) e, s, w)
  | BEnd =>
    if negb (readyset (ready e) =? 0) || zero_time timeout then
      Some (BOut (SelDone (readyset (ready e)) (select_result r e)) (if readyset (ready e) <? 0 then select_errno (ready e) else errno), s, w)
    else
      s ← select_add_cb x (set_entries (<[x := e]> (entries s)) s);
      match timeout with
      | Some t => match nstack_timeval2msec t with
                  | Some _ => Some (BOut SelWait errno, s, w)
                  | None => Some (BOut (SelDone (-1) r) EINVAL, set_entries (delete x (entries s)) s, w)
                  end
      | None => Some (BOut SelWait errno, s, w)
      end
  end.

(** After a wait of [time_cost] milliseconds: the result, the sets, the time left and [errno]; the entry is removed and freed. *)
Definition nstack_select_end (x : Z) (r : app_sets) (timeout : option timeval) (time_cost errno : Z) (s : select_module_info) :
    option (Z * app_sets * option timeval * Z * select_module_info) :=
  t ← match timeout with Some t => msec ← nstack_timeval2msec t; Some (Some (select_time_left t msec time_cost)) | None => Some None end;
  s ← select_rm_cb x s; e ← entries s !! x;
  Some (readyset (ready e), select_result r e, t, if readyset (ready e) <? 0 then select_errno (ready e) else errno, set_entries (delete x (entries s)) s).

End select.

(** ** [select_module_init] *)

(** [thread]: [pthread_create] succeeds. *)
Definition select_module_init (modNum fix_mid : Z) (malloc_ok : Z → bool) (thread : bool) (s : select_module_info) : option (Z * select_module_info) :=
  '(ret, m) ← fdmapping_init modNum malloc_ok (fd_map s);
  if ret <? 0 then Some (FALSE, set_map m s)
  else
    let s := mk_sel (entries s) (entry_head s) (entry_tail s) fix_mid (inited s) 0 m in
    if negb thread then Some (FALSE, s) else Some (TRUE, mk_sel (entries s) None None fix_mid true 0 m).

(** In a child process only the thread is new. *)
Definition select_module_init_child (thread : bool) : Z := if thread then TRUE else FALSE.
