(* ===== verification/SelectProofs.v ===== *)
(** * [select]: bits of descriptor sets, the tables, splitting and scanning *)
From S2P Require Import Prelude.
From S2P Require Import Select.

(** ** Bits *)

Definition bit (p : nstack_fd_set) (n : Z) : bool := default false (NSTACK_FD_ISSET n p).

Lemma land_one_testbit b k : 0 <= k → negb (Z.land b (Z.shiftl 1 k) =? 0) = Z.testbit b k.
Proof.
  intros Hk. destruct (Z.testbit b k) eqn:Hb.
  - apply negb_true_iff, Z.eqb_neq. intros H0. assert (Z.testbit (Z.land b (Z.shiftl 1 k)) k = false) as Hf by (rewrite H0; apply Z.bits_0).
    rewrite Z.land_spec, Hb, Z.shiftl_spec, Z.sub_diag in Hf by lia. done.
  - apply negb_false_iff, Z.eqb_eq. apply Z.bits_inj'. intros i Hi. rewrite Z.land_spec, Z.bits_0, Z.shiftl_spec by lia.
    destruct (decide (i = k)) as [->|Hne]; [by rewrite Hb|]. destruct (Z.lt_ge_cases i k); [rewrite (Z.testbit_neg_r 1) by lia; apply andb_false_r|].
    change 1 with (2 ^ 0). rewrite Z.pow2_bits_false by lia. apply andb_false_r.
Qed.

Lemma land7 n : Z.land n 7 = n mod 8.
Proof. change 7 with (Z.ones 3). by rewrite Z.land_ones by lia. Qed.
Lemma shiftr3 n : Z.shiftr n 3 = n / 8.
Proof. by rewrite Z.shiftr_div_pow2 by lia. Qed.

Definition in_set (p : nstack_fd_set) (n : Z) : Prop := 0 <= n < 8 * Z.of_nat (length p).

Lemma bit_byte p n b : aread p (n / 8) = Some b → NSTACK_FD_ISSET n p = Some (Z.testbit b (n mod 8)) ∧ bit p n = Z.testbit b (n mod 8).
Proof.
  intros Hb. unfold bit, NSTACK_FD_ISSET. rewrite shiftr3, land7, Hb. cbn.
  rewrite land_one_testbit by (apply Z.mod_pos_bound; lia). done.
Qed.

Lemma bit_range p n : bit p n = true → in_set p n.
Proof.
  unfold bit, NSTACK_FD_ISSET. rewrite shiftr3. destruct (aread p (n / 8)) as [b|] eqn:Hb; [|done]. intros _.
  apply aread_Some in Hb as [H0 Hl%lookup_lt_Some]. unfold in_set. Z.div_mod_to_equations. lia.
Qed.

Lemma isset_run p n : in_set p n → NSTACK_FD_ISSET n p = Some (bit p n).
Proof.
  intros Hn. destruct (aread_is_Some p (n / 8)) as (b & Hb & _); [unfold in_set in Hn; Z.div_mod_to_equations; lia|].
  destruct (bit_byte p n b Hb) as [-> ->]. done.
Qed.

Lemma set_run p n : in_set p n → ∃ p', NSTACK_FD_SET n p = Some p' ∧ length p' = length p ∧ ∀ m, bit p' m = (m =? n) || bit p m.
Proof.
  intros Hn. assert (0 <= n / 8 < Z.of_nat (length p)) as Hr by (unfold in_set in Hn; Z.div_mod_to_equations; lia).
  destruct (aread_is_Some p (n / 8) Hr) as (b & Hb & Hl). unfold NSTACK_FD_SET. rewrite shiftr3, land7, Hb. cbn. rewrite awrite_Some by done.
  eexists. split; [done|]. split; [apply length_insert|]. intros m.
  destruct (decide (m / 8 = n / 8)) as [E|Hne].
  - assert (aread (<[Z.to_nat (n / 8) := Z.lor b (Z.shiftl 1 (n mod 8))]> p) (m / 8) = Some (Z.lor b (Z.shiftl 1 (n mod 8)))) as Hb'.
    { rewrite E. apply aread_Some. split; [lia|]. apply list_lookup_insert_eq. lia. }
    destruct (bit_byte _ _ _ Hb') as [_ ->]. rewrite <- E in Hb. destruct (bit_byte _ _ _ Hb) as [_ ->].
    pose proof (Z.mod_pos_bound m 8 ltac:(lia)). pose proof (Z.mod_pos_bound n 8 ltac:(lia)).
    rewrite Z.lor_spec, Z.shiftl_spec, orb_comm by lia. f_equal. destruct (Z.eqb_spec m n) as [->|Hmn]; [by rewrite Z.sub_diag|].
    assert (m mod 8 ≠ n mod 8) by (intros ?; apply Hmn; rewrite (Z.div_mod m 8), (Z.div_mod n 8) by lia; congruence).
    destruct (Z.lt_ge_cases (m mod 8) (n mod 8)); [by rewrite Z.testbit_neg_r by lia|]. change 1 with (2 ^ 0). by rewrite Z.pow2_bits_false by lia.
  - replace (m =? n) with false by (symmetry; apply Z.eqb_neq; congruence). cbn. unfold bit, NSTACK_FD_ISSET. rewrite !shiftr3. f_equal. f_equal.
    unfold aread. destruct (Z.leb_spec 0 (m / 8)); [|done]. rewrite list_lookup_insert_ne by lia. done.
Qed.

Lemma bit_zero n : bit NSTACK_FD_ZERO n = false.
Proof.
  destruct (bit NSTACK_FD_ZERO n) eqn:Hb; [|done]. pose proof (bit_range _ _ Hb) as Hr. destruct (aread_is_Some NSTACK_FD_ZERO (n / 8)) as (b & Ha & Hl).
  { unfold in_set in Hr. Z.div_mod_to_equations. lia. }
  destruct (bit_byte _ _ _ Ha) as [_ E]. rewrite E in Hb. apply lookup_replicate in Hl as [-> _]. by rewrite Z.bits_0 in Hb.
Qed.

Lemma bit_or p q n : length p = length q → bit (NSTACK_FD_OR p q) n = bit p n || bit q n.
Proof.
  intros Hl. unfold bit, NSTACK_FD_ISSET, NSTACK_FD_OR. rewrite shiftr3, land7. unfold aread. destruct (Z.leb_spec 0 (n / 8)); [|done].
  rewrite lookup_zip_with. destruct (p !! Z.to_nat (n / 8)) as [a|] eqn:Hp, (q !! Z.to_nat (n / 8)) as [b|] eqn:Hq; cbn.
  - pose proof (Z.mod_pos_bound n 8 ltac:(lia)). rewrite !land_one_testbit by lia. apply Z.lor_spec.
  - apply lookup_ge_None in Hq. apply lookup_lt_Some in Hp. lia.
  - apply lookup_ge_None in Hp. apply lookup_lt_Some in Hq. lia.
  - done.
Qed.

Lemma length_or p q : length p = length q → length (NSTACK_FD_OR p q) = length p.
Proof. intros Hl. unfold NSTACK_FD_OR. rewrite length_zip_with. lia. Qed.

Lemma bit_take p k n : 0 <= k → 0 <= n < 8 * k → bit (take (Z.to_nat k) p) n = bit p n.
Proof.
  intros Hk Hn. unfold bit, NSTACK_FD_ISSET. rewrite shiftr3. f_equal. f_equal. unfold aread. destruct (Z.leb_spec 0 (n / 8)); [|done].
  apply lookup_take_lt. Z.div_mod_to_equations. lia.
Qed.

(** The number of bits that are set among the descriptors an application can name. *)
Definition nbits (p : nstack_fd_set) : Z := Z.of_nat (length (filter (λ n, bit p n = true) (seqZ 0 FD_SETSIZE))).

Lemma nbits_none p : (∀ n, bit p n = false) → nbits p = 0.
Proof. intros Hp. unfold nbits. rewrite filter_none; [done|]. intros y _. by rewrite Hp. Qed.

Lemma filter_same_in (P P' : Z → Prop) `{!∀ x, Decision (P x), !∀ x, Decision (P' x)} (l : list Z) : (∀ m, m ∈ l → P' m ↔ P m) → filter P' l = filter P l.
Proof.
  induction l as [|x l IH]; intros HP; [done|]. assert (P' x ↔ P x) as Hx by (apply HP; left). assert (∀ m, m ∈ l → P' m ↔ P m) as Hl by (intros m Hm; apply HP; by right).
  destruct (decide (P x)); [rewrite !filter_cons_True by tauto|rewrite !filter_cons_False by tauto]; by rewrite IH.
Qed.

Lemma filter_one_more (P P' : Z → Prop) `{!∀ x, Decision (P x), !∀ x, Decision (P' x)} n (l : list Z) : NoDup l → n ∈ l → ¬ P n → (∀ m, P' m ↔ m = n ∨ P m) →
  length (filter P' l) = S (length (filter P l)).
Proof.
  intros Hnd Hn HPn HP. induction l as [|x l IH]; [by apply not_elem_of_nil in Hn|]. apply NoDup_cons in Hnd as [Hx Hnd]. apply elem_of_cons in Hn as [<-|Hn].
  - rewrite filter_cons_True, filter_cons_False by (auto; apply HP; by left). cbn. f_equal. f_equal. apply filter_same_in. intros m Hm. rewrite HP. naive_solver.
  - destruct (decide (P x)) as [Hp|Hp]; [rewrite !filter_cons_True by (try apply HP; auto)|rewrite !filter_cons_False by (try rewrite HP; naive_solver)]; cbn; auto.
Qed.

Lemma nbits_set p p' n : 0 <= n < FD_SETSIZE → bit p n = false → (∀ m, bit p' m = (m =? n) || bit p m) → nbits p' = nbits p + 1.
Proof.
  intros Hn Hp Hp'. unfold nbits. rewrite (filter_one_more (λ m, bit p m = true) (λ m, bit p' m = true) n); [lia|apply NoDup_seqZ|by apply elem_of_seqZ|by rewrite Hp|].
  intros m. rewrite Hp', orb_true_iff, Z.eqb_eq. done.
Qed.

(** ** The tables *)

Section tables.
Context (modNum fix_mid : Z).

Definition modfd (m : select_fd_map_inf) (i x : Z) : Z := default (-1) (select_get_modfd m i x).
Definition idx (m : select_fd_map_inf) (i : Z) : Z := default (-1) (select_get_modindex m i).
Definition comm (m : select_fd_map_inf) (x f : Z) : Z := default (-1) (select_get_commfd m f x).

Definition table {A} (l : list A) : Prop := Z.of_nat (length l) = NSTACK_SELECT_MAX_FD.

(** Everything is allocated. *)
Record map_shape (m : select_fd_map_inf) : Prop := {
  ms_fd : ∃ l, fdinf m = Mem l ∧ table l ∧ Forall (λ c, Z.of_nat (length (mod_fd c)) = NSTACK_MAX_MODULE_NUM) l;
  ms_len : Z.of_nat (length (modinf m)) = NSTACK_MAX_MODULE_NUM;
  ms_mod : ∀ x, 0 <= x < modNum → ∃ l, aread (modinf m) x = Some (Mem l) ∧ table l
}.

Lemma range_spec i : reflect (0 <= i < NSTACK_SELECT_MAX_FD) (select_range i).
Proof. apply iff_reflect. unfold select_range. rewrite andb_true_iff, Z.leb_le, Z.ltb_lt. lia. Qed.

Lemma comm_row l i : table l → Forall (λ c, Z.of_nat (length (mod_fd c)) = NSTACK_MAX_MODULE_NUM) l → 0 <= i < NSTACK_SELECT_MAX_FD →
  ∃ c, aread l i = Some c ∧ Z.of_nat (length (mod_fd c)) = NSTACK_MAX_MODULE_NUM.
Proof.
  intros Hl Hf Hi. destruct (aread_is_Some l i) as (c & Ha & Hc); [unfold table in Hl; lia|]. exists c. split; [done|].
  rewrite Forall_lookup in Hf. eapply Hf, Hc.
Qed.

Lemma get_modfd_run m i x : map_shape m → 0 <= x < NSTACK_MAX_MODULE_NUM → select_get_modfd m i x = Some (modfd m i x).
Proof.
  intros [(l & El & Hl & Hf) _ _] Hx. unfold modfd, select_get_modfd. destruct (range_spec i) as [Hi|]; [|done]. cbn [negb].
  destruct (Z.ltb_spec x 0); [lia|]. rewrite El. cbn. destruct (comm_row l i Hl Hf Hi) as (c & -> & Hc). cbn.
  destruct (aread_is_Some (mod_fd c) x) as (v & -> & _); [lia|]. done.
Qed.

Lemma get_modindex_run m i : map_shape m → select_get_modindex m i = Some (idx m i).
Proof.
  intros [(l & El & Hl & Hf) _ _]. unfold idx, select_get_modindex. destruct (range_spec i) as [Hi|]; [|done]. cbn [negb].
  rewrite El. cbn. by destruct (comm_row l i Hl Hf Hi) as (c & -> & Hc).
Qed.

Lemma get_commfd_run m x f : map_shape m → 0 <= x < modNum → select_get_commfd m f x = Some (comm m x f).
Proof.
  intros [_ _ Hm] Hx. unfold comm, select_get_commfd. destruct (range_spec f) as [Hi|]; [|done]. cbn [negb].
  destruct (Hm x Hx) as (l & -> & Hl). cbn. destruct (aread_is_Some l f) as (v & -> & _); [unfold table in Hl; lia|]. done.
Qed.

(** A row of [fdinf] is replaced. *)
Lemma row_write m l i c c' : map_shape m → fdinf m = Mem l → 0 <= i < NSTACK_SELECT_MAX_FD → aread l i = Some c →
  Z.of_nat (length (mod_fd c')) = NSTACK_MAX_MODULE_NUM →
  let m' := mk_map (Mem (<[Z.to_nat i := c']> l)) (modinf m) in
  awrite l i c' = Some (<[Z.to_nat i := c']> l) ∧ map_shape m' ∧
  (∀ j y, 0 <= y → modfd m' j y = if decide (j = i) then default (-1) (aread (mod_fd c') y) else modfd m j y) ∧
  (∀ j, idx m' j = if decide (j = i) then index c' else idx m j) ∧ (∀ y f, comm m' y f = comm m y f).
Proof.
  intros [(l' & El & Hl & Hf) Hlen Hm] E Hi Hc Hc' m'. assert (l' = l) as -> by congruence. unfold table in Hl.
  split; [apply awrite_Some; lia|]. split.
  - constructor; [|done|done]. eexists. split; [done|]. split; [unfold table; rewrite length_insert; lia|]. by apply Forall_insert.
  - repeat split; [intros j y Hy| intros j].
    + unfold modfd, select_get_modfd. destruct (range_spec j) as [Hj|Hj]; cbn [negb]; [|destruct (decide (j = i)); [lia|done]].
      destruct (Z.ltb_spec y 0); [lia|]. subst m'. rewrite E. cbn. rewrite aread_insert by lia. by destruct (decide (j = i)).
    + unfold idx, select_get_modindex. destruct (range_spec j) as [Hj|Hj]; cbn [negb]; [|destruct (decide (j = i)); [lia|done]].
      subst m'. rewrite E. cbn. rewrite aread_insert by lia. by destruct (decide (j = i)).
Qed.

Lemma set_modfd_run m i x v : map_shape m → 0 <= i < NSTACK_SELECT_MAX_FD → 0 <= x < NSTACK_MAX_MODULE_NUM →
  ∃ m', select_set_modfd m i x v = Some (TRUE, m') ∧ map_shape m' ∧ (∀ j y, modfd m' j y = if decide (j = i ∧ y = x) then v else modfd m j y) ∧
  (∀ j, idx m' j = idx m j) ∧ (∀ y f, comm m' y f = comm m y f).
Proof.
  intros Hm Hi Hx. pose proof Hm as [(l & El & Hl & Hf) _ _]. destruct (comm_row l i Hl Hf Hi) as (c & Hc & Hlc).
  destruct (row_write m l i c (mk_comm (<[Z.to_nat x := v]> (mod_fd c)) (index c)) Hm El Hi Hc) as (Ew & Hm' & H1 & H2 & H3); [cbn; rewrite length_insert; lia|].
  unfold select_set_modfd. destruct (range_spec i); [|lia]. cbn [negb]. rewrite El. cbn. rewrite Hc. cbn. rewrite awrite_Some by lia. cbn. rewrite Ew. cbn.
  eexists. split; [done|]. split; [done|]. split; [|split; [|done]].
  - intros j y. destruct (Z.lt_ge_cases y 0) as [Hy|Hy].
    + rewrite decide_False by lia. unfold modfd, select_get_modfd. destruct (negb (select_range j)); [done|]. destruct (Z.ltb_spec y 0); [done|lia].
    + rewrite H1 by done. cbn [mod_fd]. rewrite aread_insert by lia. destruct (decide (j = i)) as [->|], (decide (y = x)) as [->|];
        [by rewrite decide_True|rewrite decide_False by tauto|by rewrite decide_False by tauto|by rewrite decide_False by tauto].
      unfold modfd, select_get_modfd. destruct (range_spec i); [|lia]. cbn [negb]. destruct (Z.ltb_spec y 0); [lia|]. rewrite El. cbn. by rewrite Hc.
  - intros j. rewrite H2. destruct (decide (j = i)) as [->|]; [|done]. cbn. unfold idx, select_get_modindex. destruct (range_spec i); [|lia]. cbn [negb]. rewrite El. cbn. by rewrite Hc.
Qed.

Lemma set_index_run m i v : map_shape m → 0 <= i < NSTACK_SELECT_MAX_FD →
  ∃ m', select_set_index m i v = Some (TRUE, m') ∧ map_shape m' ∧ (∀ j y, modfd m' j y = modfd m j y) ∧
  (∀ j, idx m' j = if decide (j = i) then v else idx m j) ∧ (∀ y f, comm m' y f = comm m y f).
Proof.
  intros Hm Hi. pose proof Hm as [(l & El & Hl & Hf) _ _]. destruct (comm_row l i Hl Hf Hi) as (c & Hc & Hlc).
  destruct (row_write m l i c (mk_comm (mod_fd c) v) Hm El Hi Hc) as (Ew & Hm' & H1 & H2 & H3); [done|].
  unfold select_set_index. destruct (range_spec i); [|lia]. cbn [negb]. rewrite El. cbn. rewrite Hc. cbn. rewrite Ew. cbn.
  eexists. split; [done|]. split; [done|]. split; [|split; [done|done]].
  intros j y. destruct (Z.lt_ge_cases y 0) as [Hy|Hy].
  - unfold modfd, select_get_modfd. destruct (negb (select_range j)); [done|]. destruct (Z.ltb_spec y 0); [done|lia].
  - rewrite H1 by done. destruct (decide (j = i)) as [->|]; [|done]. cbn [mod_fd].
    unfold modfd, select_get_modfd. destruct (range_spec i); [|lia]. cbn [negb]. destruct (Z.ltb_spec y 0); [lia|]. rewrite El. cbn. by rewrite Hc.
Qed.

Lemma set_commfd_run m f x v : modNum <= NSTACK_MAX_MODULE_NUM → map_shape m → 0 <= f < NSTACK_SELECT_MAX_FD → 0 <= x < modNum →
  ∃ m', select_set_commfd m f x v = Some (TRUE, m') ∧ map_shape m' ∧ (∀ j y, modfd m' j y = modfd m j y) ∧ (∀ j, idx m' j = idx m j) ∧
  (∀ y g, comm m' y g = if decide (y = x ∧ g = f) then v else comm m y g).
Proof.
  intros Hmod [Hfd Hlen Hm] Hf Hx. destruct (Hm x Hx) as (l & El & Hl). unfold table in Hl.
  unfold select_set_commfd. destruct (range_spec f); [|lia]. cbn [negb]. rewrite El. cbn. rewrite awrite_Some by lia. cbn. rewrite awrite_Some by lia. cbn.
  eexists. split; [done|]. split; [|split; [done|split; [done|]]].
  - constructor; cbn [fdinf modinf]; [done|by rewrite length_insert|]. intros y Hy. rewrite aread_insert by lia. destruct (decide (y = x)); [|by apply Hm].
    eexists. split; [done|]. unfold table. rewrite length_insert. lia.
  - intros y g. unfold comm, select_get_commfd. destruct (range_spec g); cbn [negb]; [|destruct (decide (y = x ∧ g = f)) as [[]|]; [lia|done]].
    cbn [modinf]. rewrite aread_insert by lia. destruct (decide (y = x)) as [->|]; [|by rewrite decide_False by tauto]. rewrite El. cbn. rewrite aread_insert by lia.
    destruct (decide (g = f)); [by rewrite decide_True|by rewrite decide_False by tauto].
Qed.

(** The descriptor of a caller and of the fixed module are the same; the way back from another module leads to the descriptor that has it. *)
Record map_ok (m : select_fd_map_inf) : Prop := {
  mo_shape : map_shape m;
  mo_range : ∀ i x, modfd m i x < NSTACK_SELECT_MAX_FD;
  mo_fix : ∀ i, modfd m i fix_mid = -1 ∨ modfd m i fix_mid = i ∧ comm m fix_mid i = i;
  mo_back : ∀ i x, 0 <= x < modNum → x ≠ fix_mid → 0 <= modfd m i x → comm m x (modfd m i x) = i
}.

(** Where the descriptor [i] of a caller is asked for: a module and its descriptor there. *)
Definition route (m : select_fd_map_inf) (i : Z) : Z * Z := if idx m i <? 0 then (fix_mid, i) else (idx m i, modfd m i (idx m i)).
Definition routable (m : select_fd_map_inf) (i : Z) : Prop := 0 <= idx m i → idx m i < modNum ∧ 0 <= modfd m i fix_mid ∧ 0 <= modfd m i (idx m i).
(** The way back is in place. *)
Definition linked (m : select_fd_map_inf) (i : Z) : Prop := comm m (route m i).1 (route m i).2 = i.

Hypothesis Hnum : modNum <= NSTACK_MAX_MODULE_NUM.
Hypothesis Hfix : 0 <= fix_mid < modNum.

Lemma route_range m i : map_ok m → routable m i → 0 <= i < NSTACK_SELECT_MAX_FD → 0 <= (route m i).1 < modNum ∧ 0 <= (route m i).2 < NSTACK_SELECT_MAX_FD.
Proof. intros Hm Hr Hi. unfold route. destruct (Z.ltb_spec (idx m i) 0); cbn; [lia|]. destruct Hr as (?&?&?); [done|]. pose proof (mo_range m Hm i (idx m i)). lia. Qed.

Lemma route_fix m i : map_ok m → routable m i → (route m i).1 = fix_mid → (route m i).2 = i.
Proof.
  intros Hm Hr. unfold route. destruct (Z.ltb_spec (idx m i) 0) as [|Hx]; cbn; [done|]. intros ->. destruct (Hr Hx) as (_ & ? & _). destruct (mo_fix m Hm i) as [|[? _]]; [lia|done].
Qed.

(** A descriptor with a routed module is linked by its records. *)
Lemma idx_linked m i : map_ok m → routable m i → 0 <= idx m i → linked m i.
Proof.
  intros Hm Hr Hx. destruct (Hr Hx) as (? & ? & ?). unfold linked, route. destruct (Z.ltb_spec (idx m i) 0); [lia|]. cbn.
  destruct (decide (idx m i = fix_mid)) as [E|]; [|apply (mo_back m Hm); [lia|done|done]]. rewrite E. destruct (mo_fix m Hm i) as [|[Ea Eb]]; [lia|]. by rewrite Ea.
Qed.

(** [nssct_create]: for the fixed module with the descriptor itself, for another module with one that no other descriptor has. *)
Lemma create_ok m cfd mfd x : map_ok m → 0 <= cfd < NSTACK_SELECT_MAX_FD → 0 <= mfd < NSTACK_SELECT_MAX_FD → 0 <= x < modNum →
  (if decide (x = fix_mid) then mfd = cfd else ∀ j, modfd m j x = mfd → j = cfd) →
  ∃ m', nssct_create cfd mfd x true m = Some m' ∧ map_ok m' ∧ (∀ j y, modfd m' j y = if decide (j = cfd ∧ y = x) then mfd else modfd m j y) ∧
  (∀ j, idx m' j = idx m j) ∧ (∀ y g, comm m' y g = if decide (y = x ∧ g = mfd) then cfd else comm m y g).
Proof.
  intros Hm Hc Hf Hx Hfresh. unfold nssct_create. cbn [negb].
  destruct (set_modfd_run m cfd x mfd (mo_shape m Hm) Hc ltac:(lia)) as (m1 & -> & S1 & M1 & I1 & C1). cbn.
  destruct (set_commfd_run m1 mfd x cfd Hnum S1 Hf Hx) as (m2 & -> & S2 & M2 & I2 & C2). cbn. eexists. split; [done|].
  assert (∀ j y, modfd m2 j y = if decide (j = cfd ∧ y = x) then mfd else modfd m j y) as M by (intros; by rewrite M2, M1).
  assert (∀ y g, comm m2 y g = if decide (y = x ∧ g = mfd) then cfd else comm m y g) as C by (intros; rewrite C2, C1; done).
  split; [|split; [done|split; [by intros; rewrite I2, I1|done]]]. constructor; [done|..].
  - intros j y. rewrite M. destruct (decide (j = cfd ∧ y = x)); [lia|apply (mo_range m Hm)].
  - intros j. rewrite M, C. destruct (decide (x = fix_mid)) as [->|Hne].
    + subst mfd. destruct (decide (j = cfd)) as [->|]; [rewrite !decide_True by done; by right|]. rewrite !decide_False by tauto. apply (mo_fix m Hm).
    + rewrite !decide_False by (intros []; congruence). apply (mo_fix m Hm).
  - intros j y Hy Hyf Hj. rewrite M in Hj |- *. rewrite C. destruct (decide (j = cfd ∧ y = x)) as [[-> ->]|Hjy].
    + by rewrite decide_True.
    + rewrite decide_False; [by apply (mo_back m Hm)|]. intros [-> E]. rewrite decide_False in Hfresh by done. apply Hfresh in E. tauto.
Qed.

Lemma close_ok m cfd x : map_ok m → 0 <= cfd < NSTACK_SELECT_MAX_FD → 0 <= x < modNum →
  ∃ m', nssct_close cfd x true m = Some m' ∧ map_ok m' ∧ (∀ j y, modfd m' j y = if decide (j = cfd ∧ y = x) then -1 else modfd m j y) ∧
  (∀ j, idx m' j = if decide (j = cfd) then -1 else idx m j) ∧ (∀ y g, comm m' y g = if decide (y = x ∧ g = modfd m cfd x ∧ 0 <= g) then -1 else comm m y g).
Proof.
  intros Hm Hc Hx. pose proof (mo_shape m Hm) as S. unfold nssct_close. cbn [negb]. rewrite get_modfd_run by (auto; lia). cbn.
  destruct (set_modfd_run m cfd x (-1) S Hc ltac:(lia)) as (m1 & -> & S1 & M1 & I1 & C1). cbn.
  assert (∃ m2 r, select_set_commfd m1 (modfd m cfd x) x (-1) = Some (r, m2) ∧ map_shape m2 ∧ (∀ j y, modfd m2 j y = modfd m1 j y) ∧ (∀ j, idx m2 j = idx m1 j) ∧
    (∀ y g, comm m2 y g = if decide (y = x ∧ g = modfd m cfd x ∧ 0 <= g) then -1 else comm m1 y g)) as (m2 & r & -> & S2 & M2 & I2 & C2).
  { destruct (decide (0 <= modfd m cfd x)) as [Hp|Hp].
    - pose proof (mo_range m Hm cfd x). destruct (set_commfd_run m1 (modfd m cfd x) x (-1) Hnum S1 ltac:(lia) Hx) as (m2 & -> & S2 & M2 & I2 & C2).
      exists m2, TRUE. split; [done|]. split; [done|]. split; [done|]. split; [done|]. intros y g. rewrite C2. destruct (decide (y = x ∧ g = modfd m cfd x)) as [[-> ->]|];
        [by rewrite decide_True|by rewrite decide_False by tauto].
    - exists m1, (-1). unfold select_set_commfd. destruct (range_spec (modfd m cfd x)); [lia|]. split; [done|]. split; [done|]. split; [done|]. split; [done|].
      intros y g. by rewrite decide_False by lia. }
  cbn. destruct (set_index_run m2 cfd (-1) S2 Hc) as (m3 & -> & S3 & M3 & I3 & C3). cbn. eexists. split; [done|].
  assert (∀ j y, modfd m3 j y = if decide (j = cfd ∧ y = x) then -1 else modfd m j y) as M by (intros; by rewrite M3, M2, M1).
  assert (∀ y g, comm m3 y g = if decide (y = x ∧ g = modfd m cfd x ∧ 0 <= g) then -1 else comm m y g) as C by (intros; rewrite C3, C2, C1; done).
  split; [|split; [done|split; [by intros j; rewrite I3, I2, I1|done]]]. constructor; [done|..].
  - intros j y. rewrite M. destruct (decide (j = cfd ∧ y = x)); [done|apply (mo_range m Hm)].
  - intros j. rewrite M, C. destruct (decide (j = cfd ∧ fix_mid = x)) as [|Hne]; [by left|]. destruct (mo_fix m Hm j) as [|[E Ec]]; [by left|right].
    split; [done|]. rewrite decide_False; [done|]. intros (Ex & Ej & Hp). apply Hne. split; [|done]. rewrite <- Ex in Ej. destruct (mo_fix m Hm cfd) as [|[? _]]; [lia|congruence].
  - intros j y Hy Hyf Hj. rewrite M in Hj |- *. rewrite C. destruct (decide (j = cfd ∧ y = x)) as [|Hjy]; [lia|]. rewrite decide_False; [by apply (mo_back m Hm)|].
    intros (-> & E & _). apply Hjy. split; [|done]. pose proof (mo_back m Hm j x Hx Hyf Hj) as Ha. rewrite E in Hj, Ha. pose proof (mo_back m Hm cfd x Hx Hyf Hj). congruence.
Qed.

Lemma set_index_ok m fd x : map_ok m → 0 <= fd < NSTACK_SELECT_MAX_FD →
  ∃ m', nssct_set_index fd x true m = Some m' ∧ map_ok m' ∧ (∀ j y, modfd m' j y = modfd m j y) ∧ (∀ j, idx m' j = if decide (j = fd) then x else idx m j) ∧
  (∀ y g, comm m' y g = comm m y g).
Proof.
  intros Hm Hf. unfold nssct_set_index. cbn [negb]. destruct (set_index_run m fd x (mo_shape m Hm) Hf) as (m1 & -> & S1 & M1 & I1 & C1). cbn.
  eexists. split; [done|]. split; [|done]. constructor; [done|..].
  - intros j y. rewrite M1. apply (mo_range m Hm).
  - intros j. rewrite M1, C1. apply (mo_fix m Hm).
  - intros j y Hy Hyf. rewrite M1, C1. by apply (mo_back m Hm).
Qed.

(** A change of the records leaves the descriptor [i] as it was to a caller. *)
Definition keeps (m m' : select_fd_map_inf) (i : Z) : Prop := route m' i = route m i ∧ (routable m i → routable m' i) ∧ (routable m i → linked m i → linked m' i).

Lemma keeps_refl m i : keeps m m i.
Proof. done. Qed.
Lemma keeps_trans m1 m2 m3 i : keeps m1 m2 i → keeps m2 m3 i → keeps m1 m3 i.
Proof. intros (R1 & A1 & L1) (R2 & A2 & L2). split; [by rewrite R2|]. split; auto. Qed.

(** A descriptor that no module is chosen for gets its record in the fixed module. *)
Lemma create_fix m i : map_ok m → 0 <= i < NSTACK_SELECT_MAX_FD → idx m i < 0 →
  ∃ m', nssct_create i i fix_mid true m = Some m' ∧ map_ok m' ∧ (∀ j, keeps m m' j) ∧ linked m' i.
Proof.
  intros Hm Hi Hx. destruct (create_ok m i i fix_mid Hm Hi Hi Hfix) as (m' & E & Hm' & M & I & C); [by rewrite decide_True|].
  assert (∀ j, route m' j = route m j) as R.
  { intros j. unfold route. rewrite I. destruct (Z.ltb_spec (idx m j) 0); [done|]. by rewrite M, decide_False by (intros [-> _]; lia). }
  exists m'. split; [done|]. split; [done|]. split.
  - intros j. split; [done|]. split.
    + intros Hj. unfold routable. rewrite I, !M. intros Hx'. destruct (Hj Hx') as (? & ? & ?). rewrite (decide_False (P := j = i ∧ idx m j = fix_mid)) by (intros [-> _]; lia).
      destruct (decide (j = i ∧ fix_mid = fix_mid)); lia.
    + intros Hr Hj. unfold linked in *. rewrite R, C. destruct (decide ((route m j).1 = fix_mid ∧ (route m j).2 = i)) as [[E1 E2]|]; [|done].
      rewrite (route_fix m j Hm Hr E1) in E2. done.
  - unfold linked. rewrite R. unfold route. destruct (Z.ltb_spec (idx m i) 0); [|lia]. cbn. rewrite C. by rewrite decide_True.
Qed.

(** ** Records of descriptors: what the socket layer asks for *)

Inductive record_op := RCreate (cfd mfd x : Z) | RClose (cfd x : Z) | RIndex (fd x : Z).
Definition record_run (o : record_op) (m : select_fd_map_inf) : option select_fd_map_inf :=
  match o with RCreate cfd mfd x => nssct_create cfd mfd x true m | RClose cfd x => nssct_close cfd x true m | RIndex fd x => nssct_set_index fd x true m end.
Definition record_fd (o : record_op) : Z := match o with RCreate cfd _ _ => cfd | RClose cfd _ => cfd | RIndex fd _ => fd end.

(** A descriptor of a module other than the fixed one has one owner. *)
Definition record_pre (m : select_fd_map_inf) (o : record_op) : Prop :=
  0 <= record_fd o < NSTACK_SELECT_MAX_FD ∧
  match o with
  | RCreate cfd mfd x => 0 <= mfd < NSTACK_SELECT_MAX_FD ∧ 0 <= x < modNum ∧ if decide (x = fix_mid) then mfd = cfd else ∀ j, modfd m j x = mfd → j = cfd
  | RClose _ x => 0 <= x < modNum
  | RIndex _ _ => True
  end.

Lemma keeps_intro m m' j : idx m' j = idx m j → (∀ y, modfd m' j y = modfd m j y) → (routable m j → linked m j → comm m' (route m j).1 (route m j).2 = j) → keeps m m' j.
Proof.
  intros HI HM HC. assert (route m' j = route m j) as R by (unfold route; by rewrite HI, HM). split; [done|]. split; [unfold routable; by rewrite HI, !HM|]. unfold linked in *. rewrite R. auto.
Qed.

Lemma record_ok m o : map_ok m → record_pre m o → ∃ m', record_run o m = Some m' ∧ map_ok m' ∧ ∀ j, j ≠ record_fd o → keeps m m' j.
Proof.
  intros Hm [Hf Hp]. destruct o as [cfd mfd x|cfd x|fd x]; cbn in *.
  - destruct Hp as (Hm1 & Hx & Hfr). destruct (create_ok m cfd mfd x Hm Hf Hm1 Hx Hfr) as (m' & E & Hm' & M & I & C). exists m'. split; [done|]. split; [done|]. intros j Hj.
    apply keeps_intro; [done|intros y; by rewrite M, decide_False by tauto|]. intros Hr Hl. rewrite C. destruct (decide ((route m j).1 = x ∧ (route m j).2 = mfd)) as [[E1 E2]|]; [|done].
    exfalso. apply Hj. destruct (decide (x = fix_mid)) as [->|Hne]; [rewrite (route_fix m j Hm Hr E1) in E2; congruence|]. apply Hfr. unfold route in E1, E2. destruct (idx m j <? 0); cbn in *; congruence.
  - destruct (close_ok m cfd x Hm Hf Hp) as (m' & E & Hm' & M & I & C). exists m'. split; [done|]. split; [done|]. intros j Hj.
    apply keeps_intro; [by rewrite I, decide_False|intros y; by rewrite M, decide_False by tauto|]. intros Hr Hl. rewrite C. destruct (decide _) as [(E1 & E2 & H0)|]; [|done].
    exfalso. apply Hj. unfold linked in Hl. rewrite E1, E2 in Hl. rewrite E2 in H0. destruct (decide (x = fix_mid)) as [->|Hne].
    + destruct (mo_fix m Hm cfd) as [|[E3 E4]]; [lia|]. rewrite E3 in Hl. congruence.
    + pose proof (mo_back m Hm cfd x Hp Hne H0). congruence.
  - destruct (set_index_ok m fd x Hm Hf) as (m' & E & Hm' & M & I & C). exists m'. split; [done|]. split; [done|]. intros j Hj.
    apply keeps_intro; [by rewrite I, decide_False|done|]. intros Hr Hl. by rewrite C.
Qed.

End tables.
