(* ===== verification/SelectScan.v ===== *)
(** * [select]: what the modules are asked, and what becomes of their answers *)
From S2P Require Import Prelude.
From S2P Require Import Select.
From S2P Require Import SelectProofs.

(** ** Entries *)

Definition cb_shape (c : select_cb_p) : Prop := ∀ k, Z.of_nat (length (tget k (sets c))) = set_bytes.

Record shape (e : select_entry) : Prop := {
  sh_len : Z.of_nat (length (cb e)) = NSTACK_MAX_MODULE_NUM;
  sh_cb : ∀ x c, aread (cb e) x = Some c → cb_shape c;
  sh_ready : cb_shape (ready e)
}.

(** Module [x] is asked for its descriptor [f]; the number of descriptors it is asked for. *)
Definition cbit (e : select_entry) (x : Z) (k : kind) (f : Z) : bool := match aread (cb e) x with Some c => bit (tget k (sets c)) f | None => false end.
Definition cnt (e : select_entry) (x : Z) : Z := match aread (cb e) x with Some c => count c | None => 0 end.

Record counts_ok (e : select_entry) : Prop := {
  co_range : ∀ x, 0 <= cnt e x <= NSTACK_SELECT_MAX_FD;
  co_bit : ∀ x k f, cbit e x k f = true → f < cnt e x;
  co_some : ∀ x, 0 < cnt e x → ∃ k f, cbit e x k f = true
}.

Lemma tget_tset {A} k j (v : A) t : tget j (tset k v t) = if decide (j = k) then v else tget j t.
Proof. by destruct k, j. Qed.

Lemma shape_cb e x : shape e → 0 <= x < NSTACK_MAX_MODULE_NUM → ∃ c, aread (cb e) x = Some c ∧ cb_shape c.
Proof. intros [Hl Hc _] Hx. destruct (aread_is_Some (cb e) x) as (c & Ha & _); [lia|]. eauto. Qed.

Lemma cb_in_set c k n : cb_shape c → 0 <= n < NSTACK_SETSIZE → in_set (tget k (sets c)) n.
Proof. intros Hc Hn. unfold in_set. rewrite Hc. unfold set_bytes, NSTACK_SETSIZE in *. change (Z.shiftr (8192 + 7) 3) with 1024. lia. Qed.

Lemma cbit_range e x k f : shape e → cbit e x k f = true → 0 <= f < NSTACK_SETSIZE.
Proof.
  intros Hs. unfold cbit. destruct (aread (cb e) x) as [c|] eqn:Hc; [|done]. intros Hb%bit_range. unfold in_set in Hb. rewrite (sh_cb e Hs x c Hc) in Hb.
  change set_bytes with 1024 in Hb. unfold NSTACK_SETSIZE. lia.
Qed.

Lemma cb_mark_run e x fd k : shape e → 0 <= x < NSTACK_MAX_MODULE_NUM → 0 <= fd < NSTACK_SETSIZE →
  ∃ cs, cb_mark x fd k e = Some (set_cb cs e) ∧ shape (set_cb cs e) ∧
  (∀ y j f, cbit (set_cb cs e) y j f = cbit e y j f || bool_decide (y = x ∧ j = k ∧ f = fd)) ∧
  (∀ y, cnt (set_cb cs e) y = if decide (y = x) then Z.max (cnt e x) (fd + 1) else cnt e y).
Proof.
  intros Hs Hx Hf. destruct (shape_cb e x Hs Hx) as (c & Hc & Hcs). unfold cb_mark. rewrite Hc. cbn.
  destruct (set_run (tget k (sets c)) fd (cb_in_set c k fd Hcs Hf)) as (p & -> & Hlp & Hp). cbn. pose proof (sh_len e Hs). rewrite awrite_Some by lia. cbn.
  eexists. split; [done|]. split; [|split].
  - constructor; cbn; [by rewrite length_insert| |apply (sh_ready e Hs)]. intros y c' Hc'. rewrite aread_insert in Hc' by lia.
    destruct (decide (y = x)); [|by apply (sh_cb e Hs y)]. injection Hc' as <-. intros j. cbn. rewrite tget_tset. destruct (decide (j = k)) as [->|]; [rewrite Hlp|]; apply Hcs.
  - intros y j f. unfold cbit. cbn. rewrite aread_insert by lia. destruct (decide (y = x)) as [->|]; [|by rewrite bool_decide_false by tauto; rewrite orb_false_r].
    rewrite Hc. cbn. rewrite tget_tset. destruct (decide (j = k)) as [->|]; [|by rewrite bool_decide_false by tauto; rewrite orb_false_r].
    rewrite Hp, orb_comm. f_equal. destruct (Z.eqb_spec f fd); [by rewrite bool_decide_true|by rewrite bool_decide_false by tauto].
  - intros y. unfold cnt. cbn. rewrite aread_insert by lia. destruct (decide (y = x)) as [->|]; [|done]. rewrite Hc. cbn. destruct (Z.leb_spec (count c) fd); lia.
Qed.

(** ** The request of a caller *)

Definition req (r : app_sets) (k : kind) (i : Z) : bool := match tget k r with Some p => bit p i | None => false end.
Definition req_any (r : app_sets) (i : Z) : bool := req r Rd i || req r Wr i || req r Ex i.
Definition req_ok (r : app_sets) : Prop := ∀ k p, tget k r = Some p → Z.of_nat (length p) = app_bytes.

Lemma req_any_true r i : req_any r i = true ↔ ∃ k, req r k i = true.
Proof.
  unfold req_any. rewrite !orb_true_iff. split; [intros [[?|?]|?]; eauto|]. intros [[] ?]; auto.
Qed.

Lemma wants_run r k i : req_ok r → 0 <= i < FD_SETSIZE → wants i (tget k r) = Some (req r k i).
Proof.
  intros Hr Hi. unfold wants, req. destruct (tget k r) as [p|] eqn:E; [|done]. unfold FD_ISSET. destruct (Z.ltb_spec i FD_SETSIZE); [|lia].
  apply isset_run. unfold in_set. rewrite (Hr k p E). change app_bytes with 128. unfold FD_SETSIZE in Hi. lia.
Qed.

Lemma wanted_run r i : req_ok r → 0 <= i < FD_SETSIZE → wanted i r = Some (req_any r i).
Proof.
  intros Hr Hi. unfold wanted. pose proof (wants_run r Rd i Hr Hi) as E1. pose proof (wants_run r Wr i Hr Hi) as E2. pose proof (wants_run r Ex i Hr Hi) as E3. cbn in E1, E2, E3.
  rewrite E1. cbn. unfold req_any. destruct (req r Rd i); [done|]. rewrite E2. cbn. destruct (req r Wr i); [done|]. by rewrite E3.
Qed.

(** Marks of the descriptor [i] in module [x]. *)
Lemma split_kinds_run e x fd i r : shape e → counts_ok e → req_ok r → 0 <= i < FD_SETSIZE → 0 <= x < NSTACK_MAX_MODULE_NUM → 0 <= fd < NSTACK_SETSIZE →
  ∃ cs, split_kinds i x fd r e = Some (set_cb cs e) ∧ shape (set_cb cs e) ∧ counts_ok (set_cb cs e) ∧
  (∀ y j f, cbit (set_cb cs e) y j f = cbit e y j f || (bool_decide (y = x ∧ f = fd) && req r j i)).
Proof.
  intros Hs Hk Hr Hi Hx Hf.
  set (g := λ (k : kind) (e : select_entry), w ← wants i (tget k r); if w : bool then cb_mark x fd k e else Some e).
  assert (∀ e k, shape e → counts_ok e → ∃ cs, g k e = Some (set_cb cs e) ∧ shape (set_cb cs e) ∧ counts_ok (set_cb cs e) ∧
    (∀ y j f, cbit (set_cb cs e) y j f = cbit e y j f || (bool_decide (y = x ∧ j = k ∧ f = fd) && req r k i))) as Hone.
  { clear e Hs Hk. intros e k Hs Hk. unfold g. rewrite wants_run by done. cbn. destruct (req r k i).
    - destruct (cb_mark_run e x fd k Hs Hx Hf) as (cs & -> & Hs' & Hb & Hc). exists cs. split; [done|]. split; [done|].
      assert (∀ y j f, cbit (set_cb cs e) y j f = cbit e y j f || (bool_decide (y = x ∧ j = k ∧ f = fd) && true)) as Hb' by (intros; by rewrite Hb, andb_true_r).
      split; [|done]. constructor.
      + intros y. rewrite Hc. pose proof (co_range e Hk y). pose proof (co_range e Hk x). unfold NSTACK_SETSIZE, NSTACK_SELECT_MAX_FD in *. destruct (decide (y = x)); lia.
      + intros y j f. rewrite Hb, Hc, orb_true_iff, bool_decide_eq_true. intros [Hy|(-> & -> & ->)]; [apply (co_bit e Hk) in Hy|rewrite decide_True by done; lia].
        destruct (decide (y = x)) as [->|]; lia.
      + intros y Hy. rewrite Hc in Hy. destruct (decide (y = x)) as [->|].
        * exists k, fd. rewrite Hb, orb_true_iff. right. by apply bool_decide_eq_true.
        * destruct (co_some e Hk y Hy) as (j & f & E). exists j, f. by rewrite Hb, E.
    - exists (cb e). replace (set_cb (cb e) e) with e by by destruct e. split; [done|]. split; [done|]. split; [done|]. intros y j f. by rewrite andb_false_r, orb_false_r. }
  change (split_kinds i x fd r e) with (each_kind g e). unfold each_kind. clearbody g.
  destruct (Hone e Rd Hs Hk) as (c1 & -> & S1 & K1 & B1). cbn [mbind option_bind].
  destruct (Hone _ Wr S1 K1) as (c2 & -> & S2 & K2 & B2). cbn [mbind option_bind].
  destruct (Hone _ Ex S2 K2) as (c3 & -> & S3 & K3 & B3). exists c3. split; [done|]. split; [done|]. split; [done|].
  intros y j f. change (set_cb c3 e) with (set_cb c3 (set_cb c2 (set_cb c1 e))). rewrite B3. rewrite B2, B1. rewrite <- !orb_assoc. f_equal.
  assert (∀ k, bool_decide (y = x ∧ j = k ∧ f = fd) = bool_decide (y = x ∧ f = fd) && bool_decide (j = k)) as Hd.
  { intros k. destruct (decide (j = k)) as [->|Hjk]; [rewrite (bool_decide_true (k = k)), andb_true_r by done; apply bool_decide_ext; tauto|].
    rewrite (bool_decide_false (j = k)), andb_false_r by done. apply bool_decide_false. tauto. }
  rewrite !Hd. clear. destruct (bool_decide (y = x ∧ f = fd)), j; cbn; by rewrite ?orb_false_r.
Qed.

Section split.
Context (modNum fix_mid : Z).
Hypothesis Hnum : modNum <= NSTACK_MAX_MODULE_NUM.
Hypothesis Hfix : 0 <= fix_mid < modNum.

Abbreviation map_ok := (map_ok modNum fix_mid).
Abbreviation route := (route fix_mid).
Abbreviation routable := (routable modNum fix_mid).
Abbreviation linked := (linked fix_mid).
Abbreviation keeps := (keeps modNum fix_mid).

(** ** Splitting *)

Lemma split_skip m e i x r : map_ok m → req_ok r → 0 <= i < FD_SETSIZE → 0 <= x < modNum → req_any r i = false ∨ routable m i ∧ (route m i).1 ≠ x →
  split_one fix_mid true i x r (m, e) = Some (m, e).
Proof.
  intros Hm Hr Hi Hx Hno. unfold split_one. rewrite wanted_run by done. cbn. destruct (req_any r i) eqn:Hq; cbn; [|done]. destruct Hno as [|[Hri Hno]]; [done|].
  pose proof (mo_shape _ _ m Hm) as S. rewrite (get_modfd_run modNum m i x S) by lia. cbn. rewrite !(get_modindex_run modNum m i S). unfold SelectProofs.route in Hno.
  destruct (Z.ltb_spec (modfd m i x) 0); cbn.
  - destruct (Z.eqb_spec x fix_mid) as [->|]; [|done]. destruct (Z.ltb_spec (idx m i) 0); cbn in Hno; [done|]. destruct Hri as (_ & ? & _); lia.
  - destruct (Z.ltb_spec (idx m i) 0); cbn in Hno |- *; [destruct (Z.eqb_spec x fix_mid); congruence|]. destruct (Z.eqb_spec (idx m i) x); [done|done].
Qed.

Lemma split_hit m e i r : map_ok m → routable m i → req_ok r → shape e → counts_ok e → 0 <= i < FD_SETSIZE → req_any r i = true →
  ∃ m' cs, split_one fix_mid true i (route m i).1 r (m, e) = Some (m', set_cb cs e) ∧ map_ok m' ∧ (∀ c, keeps m m' c) ∧ linked m' i ∧
  shape (set_cb cs e) ∧ counts_ok (set_cb cs e) ∧
  (∀ y j f, cbit (set_cb cs e) y j f = cbit e y j f || (bool_decide (y = (route m i).1 ∧ f = (route m i).2) && req r j i)).
Proof.
  intros Hm Hri Hr Hs Hk Hi Hq. assert (0 <= i < NSTACK_SELECT_MAX_FD) as Hi' by (unfold FD_SETSIZE, NSTACK_SELECT_MAX_FD in *; lia).
  destruct (route_range modNum fix_mid Hfix m i Hm Hri Hi') as [Hx Hf].
  destruct (split_kinds_run e (route m i).1 (route m i).2 i r Hs Hk Hr Hi ltac:(lia) Hf) as (cs & Ek & Hs' & Hk' & Hb).
  unfold split_one. rewrite wanted_run by done. cbn [mbind option_bind]. rewrite Hq. cbn [negb]. pose proof (mo_shape _ _ m Hm) as S.
  rewrite (get_modfd_run modNum m i _ S) by lia. cbn [mbind option_bind]. rewrite !(get_modindex_run modNum m i S). unfold SelectProofs.route in Ek, Hb |- *.
  destruct (Z.ltb_spec (idx m i) 0) as [Hlt|Hge]; cbn [fst snd] in *.
  - replace (if modfd m i fix_mid <? 0 then Some true else x ← Some (idx m i); Some (x <? 0)) with (Some true).
    2:{ destruct (Z.ltb_spec (modfd m i fix_mid) 0); [done|]. cbn. by rewrite (proj2 (Z.ltb_lt _ _)). }
    cbn [mbind option_bind]. rewrite Z.eqb_refl. destruct (create_fix modNum fix_mid Hnum Hfix m i Hm Hi' Hlt) as (m' & -> & Hm' & Hsr & Hl). cbn [mbind option_bind]. rewrite Ek. cbn.
    by exists m', cs.
  - destruct (Hri Hge) as (_ & _ & H0). destruct (Z.ltb_spec (modfd m i (idx m i)) 0); [lia|]. cbn [mbind option_bind]. rewrite (proj2 (Z.ltb_ge _ _)) by done.
    rewrite Z.eqb_refl. rewrite Ek. cbn. exists m, cs. split; [done|]. split; [done|]. split; [intros c; apply keeps_refl|]. split; [by apply (idx_linked modNum)|]. done.
Qed.

(** What an entry that is split for the descriptors in [P] asks the modules for. *)
Record splits (m : select_fd_map_inf) (r : app_sets) (P : Z → Prop) (e : select_entry) : Prop := {
  sp_shape : shape e;
  sp_bits : ∀ x k f, cbit e x k f = true ↔ ∃ c, P c ∧ req r k c = true ∧ route m c = (x, f);
  sp_linked : ∀ c k, P c → req r k c = true → linked m c
}.

Lemma splits_same m m' r P e : (∀ c, P c → req_any r c = true → routable m c ∧ keeps m m' c) → splits m r P e → splits m' r P e.
Proof.
  intros HP [S B Hl]. assert (∀ c k, P c → req r k c = true → routable m c ∧ keeps m m' c) as H by (intros c k Hc Hq; apply HP; [done|]; apply req_any_true; eauto). constructor; [done| |].
  - intros x k f. rewrite B. split; intros (c & Hc & Hq & E); exists c; (split; [done|]; split; [done|]); destruct (H c k Hc Hq) as (_ & R & _); congruence.
  - intros c k Hc Hq. destruct (H c k Hc Hq) as (Hr & _ & _ & L). apply L; [done|]. by apply (Hl c k).
Qed.

Lemma splits_add m m' r P (Q : Z → Prop) e e' i : (∀ c, keeps m m' c) → (∀ c, P c → req_any r c = true → routable m c) → splits m r P e → (∀ c, Q c ↔ P c ∨ c = i) → shape e' → linked m' i →
  (∀ y j f, cbit e' y j f = cbit e y j f || (bool_decide (y = (route m i).1 ∧ f = (route m i).2) && req r j i)) → splits m' r Q e'.
Proof.
  intros Hk HP Hsp HQ S Hl Hb. assert (∀ c, route m' c = route m c) as R by (intros c; apply Hk). constructor; [done| |].
  - intros y j f. rewrite Hb, orb_true_iff, andb_true_iff, bool_decide_eq_true, (sp_bits _ _ _ _ Hsp). setoid_rewrite R. setoid_rewrite HQ. split.
    + intros [(c & ? & ? & ?)|[[-> ->] ?]]; [exists c; tauto|exists i]. split; [by right|]. split; [done|]. by destruct (route m i).
    + intros (c & [?| ->] & ? & E); [left; eauto|right]. rewrite E. done.
  - intros c k [Hc| ->]%HQ Hq; [|done]. apply Hk; [apply HP; [done|]; apply req_any_true; eauto|]. by eapply sp_linked.
Qed.

Lemma splits_ext m r (P Q : Z → Prop) e : (∀ c, req_any r c = true → P c ↔ Q c) → splits m r P e → splits m r Q e.
Proof.
  intros HPQ [S B L]. assert (∀ c k, req r k c = true → P c ↔ Q c) as H by (intros c k Hc; apply HPQ, req_any_true; eauto). constructor; [done| |].
  - intros x k f. rewrite B. split; intros (c & Hc & Hq & E); exists c; (split; [by apply (H c k)|done]).
  - intros c k Hc Hq. apply (L c k); [by apply (H c k)|done].
Qed.

(** The descriptor [i] for module [x], after the descriptors in [P] and the modules below [x]. *)
Lemma split_one_run m e i x r P : map_ok m → (∀ c, P c → req_any r c = true → routable m c) → (req_any r i = true → routable m i) → req_ok r → 0 <= i < FD_SETSIZE → 0 <= x < modNum →
  counts_ok e → splits m r (λ c, P c ∨ c = i ∧ (route m i).1 < x) e →
  ∃ m' cs, split_one fix_mid true i x r (m, e) = Some (m', set_cb cs e) ∧ map_ok m' ∧ (∀ c, keeps m m' c) ∧
  counts_ok (set_cb cs e) ∧ splits m' r (λ c, P c ∨ c = i ∧ (route m' i).1 < x + 1) (set_cb cs e).
Proof.
  intros Hm HP Hri Hr Hi Hx Hk Hsp. destruct (decide (req_any r i = true ∧ (route m i).1 = x)) as [[Hq Hxr]|Hno].
  - destruct (split_hit m e i r Hm (Hri Hq) Hr (sp_shape _ _ _ _ Hsp) Hk Hi Hq) as (m1 & c1 & E1 & Hm1 & Hk1 & Hl & S1 & K1 & B1).
    rewrite Hxr in E1. exists m1, c1. do 4 (split; [done|]). eapply splits_add; [exact Hk1| |exact Hsp| |done|done|exact B1]; [intros c [Hc|[-> _]]; auto|].
    intros c. destruct (Hk1 i) as (-> & _). intuition lia.
  - exists m, (cb e). replace (set_cb (cb e) e) with e by by destruct e. rewrite split_skip; [|done..|destruct (req_any r i); [right; split; [auto|tauto]|by left]].
    split; [done|]. split; [done|]. split; [intros c; apply keeps_refl|]. split; [done|]. eapply splits_ext; [|exact Hsp].
    intros c Hc. split; (intros [?|[-> ?]]; [by left|right; split; [done|]]); [lia|]. assert ((route m i).1 ≠ x) by tauto. lia.
Qed.

(** Behind the last module nothing is left to do for the descriptor. *)
Lemma splits_done m r (P : Z → Prop) e i : map_ok m → (req_any r i = true → routable m i) → 0 <= i < FD_SETSIZE →
  splits m r (λ c, P c ∨ c = i ∧ (route m i).1 < modNum) e → splits m r (λ c, P c ∨ c = i) e.
Proof.
  intros Hm Hri Hi Hsp. eapply splits_ext; [|exact Hsp]. intros c Hq. assert (0 <= i < NSTACK_SELECT_MAX_FD) as Hi' by (unfold FD_SETSIZE, NSTACK_SELECT_MAX_FD in *; lia).
  split; (intros [?|Hc]; [by left|right]); [by destruct Hc|subst c]. destruct (route_range modNum fix_mid Hfix m i Hm (Hri Hq) Hi'). split; [done|lia].
Qed.

(** The modules from [x] on. *)
Lemma split_modules_run n x m e i r P : map_ok m → (∀ c, P c → req_any r c = true → routable m c) → (req_any r i = true → routable m i) → req_ok r → 0 <= i < FD_SETSIZE → 0 <= x → x + Z.of_nat n = modNum →
  counts_ok e → splits m r (λ c, P c ∨ c = i ∧ (route m i).1 < x) e →
  ∃ m' cs, split_modules fix_mid n true i x r (m, e) = Some (m', set_cb cs e) ∧ map_ok m' ∧ (∀ c, keeps m m' c) ∧
  counts_ok (set_cb cs e) ∧ splits m' r (λ c, P c ∨ c = i) (set_cb cs e).
Proof.
  revert x m e. induction n as [|n IH]; intros x m e Hm HP Hri Hr Hi Hx Hlen Hk Hsp; cbn [split_modules].
  - exists m, (cb e). replace (set_cb (cb e) e) with e by by destruct e. split; [done|]. split; [done|]. split; [intros c; apply keeps_refl|]. split; [done|].
    apply splits_done; [done..|]. by replace modNum with x by lia.
  - destruct (split_one_run m e i x r P) as (m1 & c1 & -> & Hm1 & Hk1 & K1 & Hsp1); [done..|lia|done|done|]. cbn [mbind option_bind].
    assert (∀ c, routable m c → routable m1 c) as A by (intros c; apply Hk1).
    destruct (IH (x + 1) m1 (set_cb c1 e)) as (m2 & c2 & E2 & Hm2 & Hk2 & Hsp2); [done|auto|auto|done|done|lia|lia|done|done|].
    exists m2, c2. split; [done|]. split; [done|]. split; [intros c; by eapply keeps_trans|done].
Qed.

Lemma split_fds_run n i m e r : map_ok m → (∀ c, 0 <= c < i + Z.of_nat n → req_any r c = true → routable m c) → req_ok r → 0 <= i → i + Z.of_nat n <= FD_SETSIZE →
  counts_ok e → splits m r (λ c, 0 <= c < i) e →
  ∃ m' cs, split_fds modNum fix_mid n true i r (m, e) = Some (m', set_cb cs e) ∧ map_ok m' ∧ (∀ c, keeps m m' c) ∧ counts_ok (set_cb cs e) ∧ splits m' r (λ c, 0 <= c < i + Z.of_nat n) (set_cb cs e).
Proof.
  revert i m e. induction n as [|n IH]; intros i m e Hm HP Hr Hi Hlen Hk Hsp; cbn [split_fds].
  - exists m, (cb e). replace (set_cb (cb e) e) with e by by destruct e. split; [done|]. split; [done|]. split; [intros c; apply keeps_refl|]. split; [done|].
    eapply splits_ext; [|exact Hsp]. intros c _. lia.
  - destruct (split_modules_run (Z.to_nat modNum) 0 m e i r (λ c, 0 <= c < i)) as (m1 & c1 & -> & Hm1 & Hk1 & Hc1 & Hsp1); [done|intros; apply HP; [lia|done]|apply HP; lia|done|lia|lia|lia|done| |].
    { eapply splits_ext; [|exact Hsp]. intros c Hq. split; [by left|]. intros [?|[-> Hlt]]; [done|]. exfalso.
      destruct (route_range modNum fix_mid Hfix m i Hm) as [? _]; [apply HP; [lia|done]|unfold FD_SETSIZE, NSTACK_SELECT_MAX_FD in *; lia|lia]. }
    cbn [mbind option_bind]. destruct (IH (i + 1) m1 (set_cb c1 e)) as (m2 & c2 & E2 & Hm2 & Hk2 & Hc2 & Hsp2); [done|intros c ? ?; apply Hk1, HP; [lia|done]|done|lia|lia|done| |].
    + eapply splits_ext; [|exact Hsp1]. intros c _. cbn. lia.
    + exists m2, c2. split; [done|]. split; [done|]. split; [intros c; by eapply keeps_trans|]. split; [done|]. eapply splits_ext; [|exact Hsp2]. intros c _. cbn. lia.
Qed.

(** The modules from [x] to [x + n] that are asked for something. *)
Definition busy (e : select_entry) (x : Z) (n : nat) : list Z := filter (λ y, 0 < cnt e y) (seqZ x (Z.of_nat n)).

Lemma split_info_run n x e : shape e → 0 <= x → x + Z.of_nat n <= NSTACK_MAX_MODULE_NUM →
  split_info n x e = Some (set_info (set_num e + Z.of_nat (length (busy e x n))) (default (info_index e) (last (busy e x n))) e).
Proof.
  revert x e. induction n as [|n IH]; intros x e Hs Hx Hn; cbn [split_info]; [cbn; rewrite Z.add_0_r; by destruct e|].
  destruct (shape_cb e x Hs) as (c & Hc & _); [lia|]. assert (cnt e x = count c) as Ecnt by (unfold cnt; by rewrite Hc). rewrite Hc. cbn [mbind option_bind].
  unfold busy. rewrite seqZ_cons by lia. replace (Z.pred (Z.of_nat (S n))) with (Z.of_nat n) by lia. fold (Z.succ x). change (Z.succ x) with (x + 1).
  destruct (Z.ltb_spec 0 (count c)) as [Hp|Hp].
  - rewrite filter_cons_True by lia. rewrite IH by (first [lia|by destruct Hs]). change (busy (set_info (set_num e + 1) x e) (x + 1) n) with (busy e (x + 1) n).
    cbn [set_num info_index set_info]. fold (busy e (x + 1) n). f_equal. unfold set_info. cbn [cb ready e_next e_prev sem length]. f_equal; [lia|].
    destruct (busy e (x + 1) n) as [|y ys] eqn:E; [done|]. rewrite last_cons_cons. destruct (last (y :: ys)) eqn:El; [done|]. by apply last_None in El.
  - rewrite filter_cons_False by lia. by apply IH; [|lia|lia].
Qed.

Lemma entry0_splits m r : counts_ok entry0 ∧ splits m r (λ _, False) entry0.
Proof.
  assert (∀ x c, aread (cb entry0) x = Some c → c = cb0) as Hc.
  { intros x c [_ Hc]%aread_Some. by apply lookup_replicate in Hc as [-> _]. }
  assert (cb_shape cb0) as H0 by by intros [].
  assert (∀ x k f, cbit entry0 x k f = false) as Hb.
  { intros x k f. unfold cbit. destruct (aread (cb entry0) x) as [c|] eqn:E; [|done]. apply Hc in E as ->. destruct k; apply bit_zero. }
  split; [constructor|constructor; [constructor; [done|intros x c ->%Hc; done|done]| |done]].
  - intros x. unfold cnt. destruct (aread (cb entry0) x) as [c|] eqn:E; [apply Hc in E as ->|]; done.
  - intros x k f. by rewrite Hb.
  - intros x. unfold cnt. destruct (aread (cb entry0) x) as [c|] eqn:E; [apply Hc in E as ->|]; done.
  - intros x k f. rewrite Hb. split; [done|]. by intros (? & [] & _).
Qed.

(** The descriptors that a call names. *)
Definition asked (r : app_sets) (nfds : Z) (c : Z) : Prop := 0 <= c < nfds ∧ req_any r c = true.

(** The whole request: every module is asked for exactly the descriptors that are routed to it. *)
Lemma split_run m r nfds : map_ok m → (∀ c, 0 <= c < nfds → req_any r c = true → routable m c) → req_ok r → 0 <= nfds <= FD_SETSIZE →
  ∃ m' cs a b, select_cb_split_by_mod modNum fix_mid true nfds r m entry0 = Some (m', set_info a b (set_cb cs entry0)) ∧ map_ok m' ∧ (∀ c, keeps m m' c) ∧
  counts_ok (set_info a b (set_cb cs entry0)) ∧ splits m' r (asked r nfds) (set_info a b (set_cb cs entry0)) ∧
  a = Z.of_nat (length (busy (set_cb cs entry0) 0 (Z.to_nat modNum))) ∧ b = default 0 (last (busy (set_cb cs entry0) 0 (Z.to_nat modNum))).
Proof.
  intros Hm HP Hr Hn. unfold select_cb_split_by_mod. destruct (split_fds_run (Z.to_nat nfds) 0 m entry0 r) as (m' & cs & -> & Hm' & Hsr & Hk & Hsp); [done|intros; apply HP; [lia|done]|done|lia|lia|apply (entry0_splits m r)| |].
  { eapply splits_ext; [|apply entry0_splits]. intros c _. lia. }
  cbn [mbind option_bind]. rewrite (split_info_run (Z.to_nat modNum) 0 (set_cb cs entry0) (sp_shape _ _ _ _ Hsp)) by lia. cbn [mbind option_bind].
  eexists m', cs, _, _. split; [done|]. split; [done|]. split; [done|].
  assert (splits m' r (asked r nfds) (set_cb cs entry0)) as [[S1 S2 S3] B L] by (eapply splits_ext; [|exact Hsp]; intros c Hc; unfold asked; rewrite Hc; cbn beta; intuition lia).
  destruct Hk as [K1 K2 K3]. split; [by constructor|]. split; [by constructor; [constructor| |]|done].
Qed.

(** Everything that is asked for belongs to module [d]; when nothing is, the code takes module 0 for the one that is asked. *)
Definition all_of (m : select_fd_map_inf) (r : app_sets) (nfds d : Z) : Prop :=
  (∀ c, asked r nfds c → (route m c).1 = d) ∧ ((∃ c, asked r nfds c) ∨ d = 0).

Lemma busy_iff m r nfds e y : map_ok m → (∀ c, asked r nfds c → routable m c) → nfds <= FD_SETSIZE → counts_ok e → splits m r (asked r nfds) e →
  y ∈ busy e 0 (Z.to_nat modNum) ↔ ∃ c, asked r nfds c ∧ (route m c).1 = y.
Proof.
  intros Hm Hr Hn Hk Hsp. unfold busy. rewrite list_elem_of_filter, elem_of_seqZ. split.
  - intros [Hc _]. destruct (co_some e Hk y Hc) as (k & f & (c & Ha & _ & E)%(sp_bits _ _ _ _ Hsp)). exists c. by rewrite E.
  - intros (c & Ha & E). pose proof Ha as [Hc [k Hq]%req_any_true]. destruct (route_range modNum fix_mid Hfix m c Hm (Hr c Ha)) as [R1 R2]; [unfold FD_SETSIZE, NSTACK_SELECT_MAX_FD in *; lia|].
    assert (cbit e y k (route m c).2 = true) as Hb by (apply (sp_bits _ _ _ _ Hsp); exists c; split; [done|]; split; [done|]; rewrite <- E; by destruct (route m c)).
    pose proof (co_bit e Hk _ _ _ Hb). split; [lia|]. rewrite <- E. lia.
Qed.

(** The test for a call that is left to the default module. *)
Lemma base_iff m r nfds e d : map_ok m → (∀ c, asked r nfds c → routable m c) → nfds <= FD_SETSIZE → counts_ok e → splits m r (asked r nfds) e →
  let l := busy e 0 (Z.to_nat modNum) in (Z.of_nat (length l) <=? 1) && (default 0 (last l) =? d) = true ↔ all_of m r nfds d.
Proof.
  intros Hm Hr Hn Hk Hsp l. pose proof (λ y, busy_iff m r nfds e y Hm Hr Hn Hk Hsp) as Hl. fold l in Hl.
  assert (NoDup l) as Hnd by (apply NoDup_filter, NoDup_seqZ). clearbody l. rewrite andb_true_iff, Z.leb_le, Z.eqb_eq. unfold all_of. split.
  - intros [Hlen Hd]. destruct l as [|y [|z l]]; cbn in Hlen, Hd; [|subst y|lia].
    + split; [|by right]. intros c Hc. exfalso. apply (not_elem_of_nil (route m c).1), Hl. eauto.
    + split; [|left; destruct (proj1 (Hl d) ltac:(left)) as (c & ? & _); eauto]. intros c Hc. apply list_elem_of_singleton, Hl. eauto.
  - intros [Hall Hex]. assert (∀ y, y ∈ l → y = d) as Hone by (intros y (c & Hc & <-)%Hl; by apply Hall).
    destruct l as [|y [|z l]]; cbn.
    + split; [lia|]. destruct Hex as [[c Hc]|]; [|done]. exfalso. apply (not_elem_of_nil (route m c).1), Hl. eauto.
    + split; [lia|]. apply Hone. left.
    + exfalso. apply NoDup_cons in Hnd as [Hnd _]. apply Hnd. rewrite (Hone y) by left. rewrite (Hone z) by (right; left). left.
Qed.

(** ** Answers *)

Definition rbit (e : select_entry) (k : kind) (c : Z) : bool := bit (tget k (sets (ready e))) c.
Definition total (e : select_entry) : Z := nbits (t_rd (sets (ready e))) + nbits (t_wr (sets (ready e))) + nbits (t_ex (sets (ready e))).

(** [T]: for each kind, the places (a module and its descriptor) that have been reported. *)
Abbreviation places := (kind → Z * Z → Prop).
Record ready_is (m : select_fd_map_inf) (r : app_sets) (P : Z → Prop) (T : places) (e : select_entry) : Prop := {
  ri_bits : ∀ k c, rbit e k c = true ↔ P c ∧ req r k c = true ∧ T k (route m c);
  ri_count : readyset (ready e) = total e
}.

Lemma ready_ext m r P (T T' : places) e : (∀ k c, P c → req r k c = true → T k (route m c) ↔ T' k (route m c)) → ready_is m r P T e → ready_is m r P T' e.
Proof. intros HT [B C]. constructor; [|done]. intros k c. rewrite B. split; intros (? & ? & ?); (split; [done|]; split; [done|]); by apply HT. Qed.

Lemma splits_ready m r P e rd : splits m r P e → cb_shape rd → splits m r P (set_ready rd e).
Proof. intros [[S1 S2 _] B L] Hrd. by constructor; [constructor|..]. Qed.

Section answers.
Context (m : select_fd_map_inf) (r : app_sets) (P : Z → Prop) (HP : ∀ c, P c → 0 <= c < FD_SETSIZE).
Context (a : triple nstack_fd_set) (Ha : ∀ k, Z.of_nat (length (tget k a)) = set_bytes).

Lemma answer_in_set k n : 0 <= n < NSTACK_SETSIZE → in_set (tget k a) n.
Proof. intros Hn. unfold in_set. rewrite Ha. change set_bytes with 1024. unfold NSTACK_SETSIZE in Hn. lia. Qed.

Lemma splits_place e x k i : splits m r P e → cbit e x k i = true → ∃ c, comm m x i = c ∧ P c ∧ req r k c = true ∧ route m c = (x, i).
Proof. intros Hsp (c & Hc & Hq & E)%(sp_bits _ _ _ _ Hsp). exists c. pose proof (sp_linked _ _ _ _ Hsp c k Hc Hq) as Hl. unfold SelectProofs.linked in Hl. by rewrite E in Hl. Qed.

Lemma take_ready_run e x i k T : splits m r P e → ready_is m r P T e → 0 <= x < modNum → 0 <= i < NSTACK_SETSIZE → ¬ T k (x, i) →
  ∃ rd, take_ready i (comm m x i) x a k e = Some (set_ready rd e) ∧ cb_shape rd ∧
  ready_is m r P (λ j p, T j p ∨ j = k ∧ p = (x, i) ∧ bit (tget k a) i = true) (set_ready rd e).
Proof.
  intros Hsp Hri Hx Hi HT. destruct (shape_cb e x (sp_shape _ _ _ _ Hsp)) as (c & Hc & Hcs); [lia|]. unfold take_ready.
  rewrite (isset_run (tget k a)) by by apply answer_in_set. cbn [mbind option_bind]. rewrite Hc. cbn [mbind option_bind]. rewrite (isset_run (tget k (sets c))) by by apply cb_in_set. cbn [mbind option_bind].
  assert (cbit e x k i = bit (tget k (sets c)) i) as Eb by (unfold cbit; by rewrite Hc). rewrite <- Eb.
  destruct (bit (tget k a) i && cbit e x k i) eqn:Hab.
  - apply andb_true_iff in Hab as [Hba Hbc]. destruct (splits_place e x k i Hsp Hbc) as (fd & Ec & Hfd & Hq & Er). rewrite Ec. pose proof (HP fd Hfd) as Hr.
    pose proof (sh_ready e (sp_shape _ _ _ _ Hsp)) as Hrs. unfold FD_SET. destruct (Z.ltb_spec fd FD_SETSIZE); [|lia].
    destruct (set_run (tget k (sets (ready e))) fd) as (p & -> & Hlp & Hp); [apply cb_in_set; [done|unfold FD_SETSIZE, NSTACK_SETSIZE in *; lia]|]. cbn [mbind option_bind].
    eexists. split; [done|]. split; [|constructor; cbn].
    + intros j. cbn. rewrite tget_tset. destruct (decide (j = k)) as [->|]; [rewrite Hlp|]; apply Hrs.
    + assert (∀ j c, rbit (set_ready (mk_cb (tset k p (sets (ready e))) (readyset (ready e) + 1) (select_errno (ready e))) e) j c = bool_decide (j = k ∧ c = fd) || rbit e j c) as Hb.
      { intros j c'. unfold rbit. cbn. rewrite tget_tset. destruct (decide (j = k)) as [->|]; [|by rewrite bool_decide_false by tauto]. rewrite Hp. f_equal.
        destruct (Z.eqb_spec c' fd); [by rewrite bool_decide_true|by rewrite bool_decide_false by tauto]. }
      intros j c'. rewrite Hb, orb_true_iff, bool_decide_eq_true, (ri_bits _ _ _ _ _ Hri). split.
      * intros [[-> ->]|(? & ? & ?)]; [|tauto]. split; [done|]. split; [done|]. by right.
      * intros (Hc' & Hq' & [?|(-> & E' & _)]); [tauto|left]. split; [done|]. pose proof (sp_linked _ _ _ _ Hsp c' k Hc' Hq') as Hl. unfold SelectProofs.linked in Hl. rewrite E' in Hl. cbn in Hl. congruence.
    + assert (bit (tget k (sets (ready e))) fd = false) as Hnot.
      { destruct (bit (tget k (sets (ready e))) fd) eqn:E; [|done]. apply (ri_bits _ _ _ _ _ Hri) in E as (_ & _ & E). by rewrite Er in E. }
      pose proof (ri_count _ _ _ _ _ Hri) as Hcnt. unfold readyset in *. cbn. rewrite Hcnt. unfold total. cbn. pose proof (nbits_set _ p fd Hr Hnot Hp) as Hn.
      destruct k; cbn in Hn |- *; rewrite Hn; lia.
  - exists (ready e). replace (set_ready (ready e) e) with e by by destruct e. split; [done|]. split; [apply (sh_ready e (sp_shape _ _ _ _ Hsp))|].
    eapply ready_ext; [|exact Hri]. intros j c' Hc' Hq'. split; [by left|]. intros [?|(-> & E & Hba)]; [done|]. exfalso. rewrite Hba in Hab. cbn in Hab.
    assert (cbit e x k i = true) by (apply (sp_bits _ _ _ _ Hsp); eauto). congruence.
Qed.

Lemma place_run e x i T : splits m r P e → ready_is m r P T e → 0 <= x < modNum → 0 <= i < NSTACK_SETSIZE → (∀ k, ¬ T k (x, i)) →
  ∃ rd, (if comm m x i <? 0 then Some e else each_kind (take_ready i (comm m x i) x a) e) = Some (set_ready rd e) ∧ cb_shape rd ∧
  ready_is m r P (λ j p, T j p ∨ p = (x, i) ∧ bit (tget j a) i = true) (set_ready rd e).
Proof.
  intros Hsp Hri Hx Hi HT. destruct (Z.ltb_spec (comm m x i) 0) as [Hneg|_].
  - exists (ready e). replace (set_ready (ready e) e) with e by by destruct e. split; [done|]. split; [apply (sh_ready e (sp_shape _ _ _ _ Hsp))|].
    eapply ready_ext; [|exact Hri]. intros j c Hc Hq. split; [by left|]. intros [?|(E & _)]; [done|]. exfalso.
    destruct (splits_place e x j i Hsp) as (c' & E' & Hc' & _); [apply (sp_bits _ _ _ _ Hsp); eauto|]. pose proof (HP c' Hc'). lia.
  - unfold each_kind. destruct (take_ready_run e x i Rd T Hsp Hri Hx Hi (HT Rd)) as (r1 & -> & S1 & R1). cbn [mbind option_bind].
    pose proof (splits_ready _ _ _ _ _ Hsp S1) as Hsp1. destruct (take_ready_run _ x i Wr _ Hsp1 R1 Hx Hi) as (r2 & -> & S2 & R2); [intros [?%HT|(? & _)]; done|]. cbn [mbind option_bind].
    pose proof (splits_ready _ _ _ _ _ Hsp1 S2) as Hsp2. destruct (take_ready_run _ x i Ex _ Hsp2 R2 Hx Hi) as (r3 & -> & S3 & R3); [intros [[?%HT|(? & _)]|(? & _)]; done|].
    exists r3. split; [done|]. split; [done|]. change (set_ready r3 e) with (set_ready r3 (set_ready r2 (set_ready r1 e))). eapply ready_ext; [|exact R3].
    intros j c _ _. destruct j; intuition congruence.
Qed.

Lemma module_fdset_from n e x i T : splits m r P e → ready_is m r P T e → 0 <= x < modNum → 0 <= i → i + Z.of_nat n <= NSTACK_SETSIZE → (∀ k f, i <= f → ¬ T k (x, f)) → map_ok m →
  ∃ rd, entry_module_fdset_from n i m a x e = Some (set_ready rd e) ∧ cb_shape rd ∧
  ready_is m r P (λ j p, T j p ∨ p.1 = x ∧ i <= p.2 < i + Z.of_nat n ∧ bit (tget j a) p.2 = true) (set_ready rd e).
Proof.
  revert e i T. induction n as [|n IH]; intros e i T Hsp Hri Hx Hi Hn HT Hm; cbn [entry_module_fdset_from].
  - exists (ready e). replace (set_ready (ready e) e) with e by by destruct e. split; [done|]. split; [apply (sh_ready e (sp_shape _ _ _ _ Hsp))|].
    eapply ready_ext; [|exact Hri]. intros j c _ _. intuition lia.
  - rewrite (get_commfd_run modNum m x i (mo_shape _ _ m Hm) Hx). cbn [mbind option_bind].
    destruct (place_run e x i T Hsp Hri Hx ltac:(lia)) as (r1 & -> & S1 & R1); [intros k; apply HT; lia|]. cbn [mbind option_bind].
    destruct (IH _ (i + 1) _ (splits_ready _ _ _ _ _ Hsp S1) R1 Hx) as (r2 & -> & S2 & R2); [lia|lia|intros k f Hf [?|[[= ->] _]]; [by eapply (HT k f); [lia|]|lia]|done|].
    exists r2. split; [done|]. split; [done|]. change (set_ready r2 e) with (set_ready r2 (set_ready r1 e)). eapply ready_ext; [|exact R2].
    intros j c _ _. destruct (route m c) as [y f]. cbn. split.
    + intros [[?|([= -> ->] & ?)]|(-> & ? & ?)]; [by left|right; split; [done|]; split; [lia|done]|right; split; [done|]; split; [lia|done]].
    + intros [?|(-> & ? & ?)]; [by left; left|]. destruct (decide (f = i)) as [->|]; [left; right; done|right]. split; [done|]. split; [lia|done].
Qed.

(** The answer of module [x] for its first [n] descriptors. *)
Lemma module_fdset_run n e x T : splits m r P e → ready_is m r P T e → 0 <= x < modNum → 0 <= n <= NSTACK_SETSIZE → (∀ k f, ¬ T k (x, f)) → map_ok m →
  ∃ rd, entry_module_fdset m e n a x = Some (set_ready rd e) ∧ cb_shape rd ∧
  ready_is m r P (λ j p, T j p ∨ p.1 = x ∧ 0 <= p.2 < n ∧ bit (tget j a) p.2 = true) (set_ready rd e).
Proof.
  intros Hsp Hri Hx Hn HT Hm. destruct (module_fdset_from (Z.to_nat n) e x 0 T Hsp Hri Hx) as (rd & E & S & R); [lia|lia|intros k f _; apply HT|done|].
  exists rd. split; [done|]. split; [done|]. eapply ready_ext; [|exact R]. intros j c _ _. cbn beta. rewrite Z2Nat.id by lia. done.
Qed.

End answers.

End split.

(** ** One scan of all modules *)

Section scan.
Context {W : Type} (modNum fix_mid : Z) (get_select_fun_nonblock : Z → option (@select_fun W)).
Hypothesis Hnum : modNum <= NSTACK_MAX_MODULE_NUM.
Hypothesis Hfix : 0 <= fix_mid < modNum.
Abbreviation map_ok := (map_ok modNum fix_mid).
Abbreviation route := (route fix_mid).
Abbreviation splits := (splits fix_mid).
Abbreviation ready_is := (ready_is fix_mid).

(** The modules work on the caller's memory: the sets they return have the size of the sets they get. *)
Definition sizes (t : triple nstack_fd_set) : Prop := ∀ k, Z.of_nat (length (tget k t)) = set_bytes.
Definition keeps_sizes : Prop := ∀ x f n t tv w, get_select_fun_nonblock x = Some f → sizes t → sizes (f n t tv w).1.1.2.

(** What the modules from [x] on answer when they are asked in turn: the reported places, and the result of the module that fails. *)
Fixpoint ask_modules (n : nat) (x : Z) (e : select_entry) (w : W) : (kind → Z → Z → bool) * option (Z * Z) * W :=
  match n with
  | O => (λ _ _ _, false, None, w)
  | S n =>
    match get_select_fun_nonblock x, aread (cb e) x with
    | Some f, Some c =>
      if 0 <? count c then
        let '((rd, err, a, _), w) := f (count c) (sets c) (0, 0) w in
        if rd <? 0 then (λ _ _ _, false, Some (rd, err), w)
        else let '(R, o, w) := ask_modules n (x + 1) e w in (λ k y g, ((y =? x) && (0 <? rd) && bit (tget k a) g) || R k y g, o, w)
      else ask_modules n (x + 1) e w
    | _, _ => ask_modules n (x + 1) e w
    end
  end.

Lemma ask_ready n x e rd w : ask_modules n x (set_ready rd e) w = ask_modules n x e w.
Proof.
  revert x w. induction n as [|n IH]; intros x w; [done|]. cbn [ask_modules]. change (cb (set_ready rd e)) with (cb e).
  destruct (get_select_fun_nonblock x) as [f|], (aread (cb e) x) as [c|]; try apply IH. destruct (0 <? count c); [|apply IH].
  destruct (f (count c) (sets c) (0, 0) w) as [[[[v err] a] tv] w']. destruct (v <? 0); [done|]. by rewrite IH.
Qed.

Lemma scan_run n x m e r P T w : keeps_sizes → map_ok m → (∀ c, P c → 0 <= c < FD_SETSIZE) → splits m r P e → counts_ok e → ready_is m r P T e → 0 <= x → x + Z.of_nat n = modNum →
  (∀ k p, T k p → p.1 < x) →
  let '(R, o, w') := ask_modules n x e w in
  match o with
  | None => ∃ rd, scan_modules get_select_fun_nonblock n x m e w = Some (TRUE, set_ready rd e, w') ∧ cb_shape rd ∧ ready_is m r P (λ k p, T k p ∨ R k p.1 p.2 = true) (set_ready rd e)
  | Some (v, err) => ∃ rd, scan_modules get_select_fun_nonblock n x m e w = Some (FALSE, set_ready rd e, w') ∧ readyset rd = v ∧ select_errno rd = err
  end.
Proof.
  intros Hsz Hm HP. revert x e T w. induction n as [|n IH]; intros x e T w Hsp Hk Hri Hx Hn HT; cbn [ask_modules scan_modules].
  { exists (ready e). replace (set_ready (ready e) e) with e by by destruct e. split; [done|]. split; [apply (sh_ready e (sp_shape _ _ _ _ _ Hsp))|]. eapply ready_ext; [|exact Hri]. naive_solver. }
  assert (∀ k p, T k p → p.1 < x + 1) as HT' by (intros k p ?%HT; lia).
  destruct (shape_cb e x (sp_shape _ _ _ _ _ Hsp)) as (c & Hc & Hcs); [lia|]. rewrite Hc. cbn [mbind option_bind].
  destruct (get_select_fun_nonblock x) as [f|] eqn:Ef; [|apply IH; [done..|lia|lia|done]].
  assert (cnt e x = count c) as Ecnt by (unfold cnt; by rewrite Hc). destruct (0 <? count c); [|apply IH; [done..|lia|lia|done]].
  pose proof (Hsz x f (count c) (sets c) (0, 0) w Ef Hcs) as Ha. destruct (f (count c) (sets c) (0, 0) w) as [[[[v err] a] tv] w1] eqn:Ev. cbn in Ha.
  destruct (Z.ltb_spec v 0) as [Hneg|Hpos]; [destruct (Z.ltb_spec 0 v); [lia|]; by eexists|].
  pose proof (co_range e Hk x) as Hr. rewrite Ecnt in Hr. destruct (Z.ltb_spec 0 v) as [Hv|Hv]; cbn [andb].
  - destruct (module_fdset_run modNum fix_mid Hnum Hfix m r P HP a Ha (count c) e x T Hsp Hri ltac:(lia)) as (rd & -> & S & R); [unfold NSTACK_SETSIZE, NSTACK_SELECT_MAX_FD in *; lia|intros k g ?%HT; cbn in *; lia|done|].
    cbn [mbind option_bind]. assert (counts_ok (set_ready rd e)) as K by by destruct Hk; constructor.
    specialize (IH (x + 1) _ _ w1 (splits_ready _ _ _ _ _ _ Hsp S) K R ltac:(lia) ltac:(lia)). rewrite ask_ready in IH.
    destruct (ask_modules n (x + 1) e w1) as [[R' o] w'] eqn:Eask. destruct o as [[v' err']|]; [apply IH; intros k p [?%HT'|[-> _]]; lia|].
    destruct IH as (rd' & E & S' & R2); [intros k p [?%HT'|[-> _]]; lia|]. rewrite E. exists rd'. split; [done|]. split; [done|].
    change (set_ready rd' e) with (set_ready rd' (set_ready rd e)). eapply ready_ext; [|exact R2]. intros k d Hd Hq. cbn beta.
    rewrite orb_true_iff, !andb_true_iff, Z.eqb_eq. split; [intros [[?|(? & ? & ?)]|?]; tauto|]. intros [?|[[[E1 _] Hb]|?]]; [tauto| |tauto].
    left; right. split; [done|]. split; [|done]. assert (cbit e (route m d).1 k (route m d).2 = true) as Hcb by (apply (sp_bits _ _ _ _ _ Hsp); exists d; by destruct (route m d)).
    pose proof (co_bit e Hk _ _ _ Hcb) as Hlt. pose proof (cbit_range e _ _ _ (sp_shape _ _ _ _ _ Hsp) Hcb). rewrite E1, Ecnt in Hlt. lia.
  - specialize (IH (x + 1) e T w1 Hsp Hk Hri ltac:(lia) ltac:(lia) HT'). destruct (ask_modules n (x + 1) e w1) as [[R' o] w'] eqn:Eask. destruct o as [[v' err']|]; [done|].
    destruct IH as (rd' & E & S' & R2). rewrite E. exists rd'. split; [done|]. split; [done|]. eapply ready_ext; [|exact R2]. intros k d Hd Hq. cbn beta. by rewrite andb_false_r, andb_false_l, orb_false_l.
Qed.

End scan.
