(* ===== verification/SelectList.v ===== *)
(** * [select]: the list of waiting entries *)
From S2P Require Import Prelude.
From S2P Require Import Select.

(** ** Segments of a doubly linked list *)

Definition first (l : list Z) (n : option Z) : option Z := match l with [] => n | y :: _ => Some y end.
Definition final (p : option Z) (l : list Z) : option Z := match last l with Some y => Some y | None => p end.

(** The entries at the addresses of [l], linked both ways; [p] is before the first and [n] behind the last. *)
Fixpoint dseg (m : gmap Z select_entry) (p : option Z) (l : list Z) (n : option Z) : Prop :=
  match l with
  | [] => True
  | x :: l => ∃ e, m !! x = Some e ∧ e_prev e = p ∧ e_next e = first l n ∧ dseg m (Some x) l n
  end.

Record dll (m : gmap Z select_entry) (l : list Z) (h t : option Z) : Prop := {
  dl_nodup : NoDup l;
  dl_head : h = first l None;
  dl_tail : t = final None l;
  dl_seg : dseg m None l None
}.

(** An entry without its links. *)
Definition body (e : select_entry) : select_entry := set_next None (set_prev None e).

Lemma final_cons p x l : final p (x :: l) = final (Some x) l.
Proof. unfold final. destruct l as [|y l]; [done|]. rewrite last_cons_cons. by destruct (last (y :: l)) eqn:E; [|apply last_None in E]. Qed.
Lemma final_snoc p l x : final p (l ++ [x]) = Some x.
Proof. unfold final. by rewrite last_snoc. Qed.
Lemma first_app l1 l2 n : first (l1 ++ l2) n = first l1 (first l2 n).
Proof. by destruct l1. Qed.

Lemma dseg_app m p l1 l2 n : dseg m p (l1 ++ l2) n ↔ dseg m p l1 (first l2 n) ∧ dseg m (final p l1) l2 n.
Proof.
  revert p. induction l1 as [|x l1 IH]; intros p; cbn [app dseg]; [by unfold final; cbn; tauto|]. setoid_rewrite IH. rewrite final_cons, first_app. naive_solver.
Qed.

Lemma dseg_insert m p l n y e : y ∉ l → dseg (<[y := e]> m) p l n ↔ dseg m p l n.
Proof.
  revert p. induction l as [|x l IH]; intros p Hy; cbn [dseg]; [done|]. apply not_elem_of_cons in Hy as [Hxy Hy]. rewrite lookup_insert_ne by done. by setoid_rewrite (IH _ Hy).
Qed.

Lemma dseg_in m p l n x : dseg m p l n → x ∈ l → is_Some (m !! x).
Proof. revert p. induction l as [|y l IH]; intros p; cbn [dseg]; [by intros _ ?%not_elem_of_nil|]. intros (e & E & _ & _ & Hs) [->|Hx]%elem_of_cons; [eauto|by eapply IH]. Qed.

Lemma dseg_same m m' p l n : dseg m p l n → (∀ x, x ∈ l → ∀ e, m !! x = Some e → ∃ e', m' !! x = Some e' ∧ e_next e' = e_next e ∧ e_prev e' = e_prev e) → dseg m' p l n.
Proof.
  revert p. induction l as [|x l IH]; intros p; cbn [dseg]; [done|]. intros (e & E & Ep & En & Hs) Hm. destruct (Hm x ltac:(left) e E) as (e' & E' & En' & Ep').
  exists e'. rewrite En', Ep'. split; [done|]. split; [done|]. split; [done|]. apply IH; [done|]. intros y Hy. apply Hm. by right.
Qed.

Lemma dll_in m l h t x : dll m l h t → x ∈ l → is_Some (m !! x).
Proof. intros Hd. apply (dseg_in m None l None x), (dl_seg _ _ _ _ Hd). Qed.

Lemma dll_length m l h t : dll m l h t → (length l <= size m)%nat.
Proof.
  intros Hd. rewrite <- (size_dom m). rewrite <- (size_list_to_set (C := gset Z) l (dl_nodup _ _ _ _ Hd)). apply subseteq_size. intros x Hx%elem_of_list_to_set. by apply elem_of_dom, (dll_in m l h t).
Qed.

(** ** Insertion and removal *)

Lemma upd_entry_run f x s e : entries s !! x = Some e → upd_entry f x s = Some (set_entries (<[x := f e]> (entries s)) s).
Proof. intros E. unfold upd_entry. by rewrite E. Qed.

(** Only links are changed. *)
Definition links_only (s s' : select_module_info) : Prop := body <$> entries s' = body <$> entries s ∧ default_mod s' = default_mod s ∧ inited s' = inited s ∧ fd_map s' = fd_map s.

Lemma body_insert (m : gmap Z select_entry) x e e' : m !! x = Some e → body e' = body e → body <$> <[x := e']> m = body <$> m.
Proof. intros E Hb. rewrite fmap_insert, Hb. apply insert_id. by rewrite lookup_fmap, E. Qed.

Lemma add_cb_run s l x e : dll (entries s) l (entry_head s) (entry_tail s) → x ∉ l → entries s !! x = Some e →
  ∃ s', select_add_cb x s = Some s' ∧ links_only s s' ∧ g_sem s' = g_sem s + 1 ∧ dll (entries s') (l ++ [x]) (entry_head s') (entry_tail s').
Proof.
  intros [Hn Hh Ht Hd] Hx E. unfold select_add_cb. destruct l as [|y l _] using rev_ind.
  - rewrite Hh. cbn [first]. rewrite (upd_entry_run _ _ _ e) by done. cbn [mbind option_bind].
    rewrite (upd_entry_run _ _ _ (set_next None e)) by apply lookup_insert_eq. cbn [mbind option_bind]. eexists. split; [done|]. cbn. rewrite insert_insert_eq. split; [|split; [done|]].
    + split; [by eapply body_insert|done].
    + constructor; cbn; [apply NoDup_singleton|done|done|]. rewrite lookup_insert_eq. by eexists.
  - rewrite final_snoc in Ht. assert (∃ h, entry_head s = Some h) as [h Eh] by (rewrite Hh; destruct l; eauto). rewrite Eh, Ht. cbn [mbind option_bind].
    apply dseg_app in Hd as [Hd1 (ey & Ey & Py & Ny & _)]. assert (y ≠ x) as Hyx by set_solver.
    rewrite (upd_entry_run _ _ _ ey) by done. cbn [mbind option_bind]. rewrite (upd_entry_run _ _ _ e) by (cbn; by rewrite lookup_insert_ne). cbn [mbind option_bind].
    rewrite (upd_entry_run _ _ _ (set_prev (Some y) e)) by (cbn; apply lookup_insert_eq). cbn [mbind option_bind]. eexists. split; [done|]. cbn. rewrite insert_insert_eq. split; [|split; [done|]].
    + split; [|done]. cbn. rewrite (body_insert _ x e) by (try done; by rewrite lookup_insert_ne). by apply (body_insert _ y ey).
    + constructor; cbn.
      * apply NoDup_app. split; [done|]. split; [|apply NoDup_singleton]. intros z Hz ->%list_elem_of_singleton. done.
      * rewrite Hh. by destruct l.
      * by rewrite final_snoc.
      * assert (y ∉ l) by (apply NoDup_app in Hn as (_ & Hn & _); intros ?; eapply Hn; [done|by apply list_elem_of_singleton]).
        apply dseg_app. rewrite final_snoc. split; [apply dseg_app; cbn; split|cbn].
        -- rewrite !dseg_insert by set_solver. done.
        -- rewrite lookup_insert_ne, lookup_insert_eq by done. eexists. split; [done|]. cbn. done.
        -- rewrite lookup_insert_eq. by eexists.
Qed.

Lemma upd_entry_tail f x s s' : upd_entry f x s = Some s' → entry_tail s' = entry_tail s.
Proof. unfold upd_entry. destruct (entries s !! x); [|done]. by intros [= <-]. Qed.

Lemma add_cb_tail x s s' : select_add_cb x s = Some s' → entry_tail s' = Some x.
Proof.
  unfold select_add_cb. intros (s1 & E1 & [= <-])%bind_Some. cbn. destruct (entry_head s).
  - apply bind_Some in E1 as (t & _ & (s2 & _ & (s3 & _ & ->%upd_entry_tail)%bind_Some)%bind_Some). done.
  - apply bind_Some in E1 as (s2 & E2%upd_entry_tail & ->%upd_entry_tail). by rewrite E2.
Qed.

(** The two neighbours of a removed entry. *)
Lemma dseg_set_next m p l n n' : NoDup l → dseg m p l n → dseg (match last l with Some y => alter (set_next n') y m | None => m end) p l n'.
Proof.
  destruct l as [|y l _] using rev_ind; [done|]. intros Hn Hd. rewrite last_snoc. apply dseg_app in Hd as [Hd (e & E & Ep & En & _)].
  assert (y ∉ l) by (apply NoDup_app in Hn as (_ & Hn & _); intros ?; eapply Hn; [done|by apply list_elem_of_singleton]).
  assert (alter (set_next n') y m = <[y := set_next n' e]> m) as ->.
  { apply map_eq. intros z. destruct (decide (z = y)) as [->|]; [by rewrite lookup_alter_eq, lookup_insert_eq, E|by rewrite lookup_alter_ne, lookup_insert_ne]. }
  apply dseg_app. cbn. rewrite dseg_insert by done. split; [done|]. rewrite lookup_insert_eq. by eexists.
Qed.

Lemma dseg_set_prev m p p' l n : NoDup l → dseg m p l n → dseg (match l with y :: _ => alter (set_prev p') y m | [] => m end) p' l n.
Proof.
  destruct l as [|y l]; [done|]. intros [Hy Hn]%NoDup_cons (e & E & Ep & En & Hd).
  assert (alter (set_prev p') y m = <[y := set_prev p' e]> m) as ->.
  { apply map_eq. intros z. destruct (decide (z = y)) as [->|]; [by rewrite lookup_alter_eq, lookup_insert_eq, E|by rewrite lookup_alter_ne, lookup_insert_ne]. }
  cbn. rewrite lookup_insert_eq. eexists. split; [done|]. cbn. split; [done|]. split; [done|]. by apply dseg_insert.
Qed.

Lemma dseg_alter m p l n y f : y ∉ l → dseg (alter f y m) p l n ↔ dseg m p l n.
Proof.
  revert p. induction l as [|x l IH]; intros p Hy; cbn [dseg]; [done|]. apply not_elem_of_cons in Hy as [Hxy Hy]. rewrite lookup_alter_ne by done. by setoid_rewrite (IH _ Hy).
Qed.

Lemma body_alter (m : gmap Z select_entry) x f : (∀ e, body (f e) = body e) → body <$> alter f x m = body <$> m.
Proof.
  intros Hf. apply map_eq. intros z. rewrite !lookup_fmap. destruct (decide (z = x)) as [->|]; [|by rewrite lookup_alter_ne].
  rewrite lookup_alter_eq. by destruct (m !! x); cbn; [rewrite Hf|].
Qed.

Lemma upd_entry_alter f x s : is_Some (entries s !! x) → upd_entry f x s = Some (set_entries (alter f x (entries s)) s).
Proof.
  intros [e E]. rewrite (upd_entry_run f x s e E). do 2 f_equal. apply map_eq. intros z.
  destruct (decide (z = x)) as [->|]; [by rewrite lookup_alter_eq, lookup_insert_eq, E|by rewrite lookup_alter_ne, lookup_insert_ne].
Qed.

(** [s'] differs from [s] in the entries, the head and the tail only. *)
Definition but_list (s s' : select_module_info) (m : gmap Z select_entry) (h t : option Z) : Prop := s' = set_tail t (set_head h (set_entries m s)).

Lemma rm_front s l1 x l2 e : entries s !! x = Some e → entry_head s = first (l1 ++ x :: l2) None → dseg (entries s) None l1 (Some x) → x ∉ l1 → e_prev e = final None l1 → e_next e = first l2 None →
  ∃ s1, (if bool_decide (entry_head s = Some x) then Some (set_head (e_next e) s) else match e_prev e with Some p => upd_entry (set_next (e_next e)) p s | None => Some s end) = Some s1 ∧
  but_list s s1 (match last l1 with Some y => alter (set_next (first l2 None)) y (entries s) | None => entries s end) (first (l1 ++ l2) None) (entry_tail s).
Proof.
  intros E Hh Hd Hx Ep En. unfold but_list. destruct l1 as [|y l1 _] using rev_ind; [rewrite Hh, bool_decide_true by done; rewrite En; eexists; split; [done|]; by destruct s|].
  rewrite bool_decide_false by (rewrite Hh; destruct l1; cbn in *; intros [= ->]; set_solver).
  rewrite Ep, final_snoc, last_snoc, upd_entry_alter by (eapply (dseg_in _ None (l1 ++ [y])); [done|set_solver]). rewrite En. eexists. split; [done|].
  replace (first ((l1 ++ [y]) ++ l2) None) with (entry_head s) by (rewrite Hh; by destruct l1). by destruct s.
Qed.

Lemma rm_back s l1 x l2 e : entry_tail s = final None (l1 ++ x :: l2) → dseg (entries s) (Some x) l2 None → x ∉ l2 → e_prev e = final None l1 → e_next e = first l2 None →
  ∃ s2, (if bool_decide (entry_tail s = Some x) then Some (set_tail (e_prev e) s) else match e_next e with Some n => upd_entry (set_prev (e_prev e)) n s | None => Some s end) = Some s2 ∧
  but_list s s2 (match l2 with y :: _ => alter (set_prev (final None l1)) y (entries s) | [] => entries s end) (entry_head s) (final None (l1 ++ l2)).
Proof.
  intros Ht Hd Hx Ep En. unfold but_list. destruct l2 as [|y l2]; [rewrite Ht, final_snoc, bool_decide_true, app_nil_r, Ep by done; eexists; split; [done|]; by destruct s|].
  assert (∃ z, final None (l1 ++ x :: y :: l2) = Some z ∧ z ∈ y :: l2 ∧ final None (l1 ++ y :: l2) = Some z) as (z & Ez & Hz & Ez').
  { destruct (last (y :: l2)) as [z|] eqn:El; [|by apply last_None in El]. exists z. unfold final. rewrite !last_app, last_cons_cons, El. split; [done|]. split; [by apply last_Some_elem_of|done]. }
  rewrite Ht, Ez, bool_decide_false by (intros [= ->]; done). rewrite En, Ep. cbn [first]. rewrite upd_entry_alter by (eapply (dseg_in _ (Some x) (y :: l2)); [done|left]). eexists. split; [done|].
  rewrite Ez', <- Ez, <- Ht. by destruct s.
Qed.

Lemma links_but s s' m h t : but_list s s' m h t → body <$> m = body <$> entries s → links_only s s' ∧ g_sem s' = g_sem s.
Proof. intros -> Hm. by split; [split|]. Qed.

Lemma links_trans s1 s2 s3 : links_only s1 s2 ∧ g_sem s2 = g_sem s1 → links_only s2 s3 ∧ g_sem s3 = g_sem s2 → links_only s1 s3 ∧ g_sem s3 = g_sem s1.
Proof. intros [(B1 & D1 & I1 & F1) G1] [(B2 & D2 & I2 & F2) G2]. split; [split_and!|]; congruence. Qed.

Lemma rm_cb_run s l1 x l2 : dll (entries s) (l1 ++ x :: l2) (entry_head s) (entry_tail s) →
  ∃ s', select_rm_cb x s = Some s' ∧ (links_only s s' ∧ g_sem s' = g_sem s) ∧ dll (entries s') (l1 ++ l2) (entry_head s') (entry_tail s').
Proof.
  intros [Hn Hh Ht Hd]. apply dseg_app in Hd as [Hd1 (e & E & Ep & En & Hd2)]. cbn [first] in *.
  apply NoDup_app in Hn as (Hn1 & H12 & [Hx2 Hn2]%NoDup_cons). assert (x ∉ l1) as Hx1 by (intros ?; eapply H12; [done|left]). assert (∀ z, z ∈ l1 → z ∉ l2) as Hdis by (intros z Hz ?; eapply H12; [done|by right]).
  unfold select_rm_cb. rewrite E. cbn [mbind option_bind]. destruct (rm_front s l1 x l2 e E Hh Hd1 Hx1 Ep En) as (s1 & -> & B1). cbn [mbind option_bind].
  assert (entries s1 = match last l1 with Some y => alter (set_next (first l2 None)) y (entries s) | None => entries s end) as E1 by by rewrite B1.
  assert (∀ z, z ∉ l1 → entries s1 !! z = entries s !! z) as Hout.
  { intros z Hz. rewrite E1. destruct (last l1) as [y|] eqn:El; [|done]. rewrite lookup_alter_ne; [done|]. intros ->. by apply Hz, last_Some_elem_of. }
  rewrite (Hout x Hx1), E. cbn [mbind option_bind]. pose proof (dseg_set_next _ _ _ _ (first l2 None) Hn1 Hd1) as Hd1'. rewrite <- E1 in Hd1'.
  assert (dseg (entries s1) (Some x) l2 None) as Hd2'.
  { eapply dseg_same; [exact Hd2|]. intros z Hz ez Ez. exists ez. rewrite Hout; [done|]. intros ?. by eapply Hdis. }
  destruct (rm_back s1 l1 x l2 e) as (s2 & -> & B2); [by rewrite B1|done..|]. cbn [mbind option_bind].
  assert (entries s2 = match l2 with y :: _ => alter (set_prev (final None l1)) y (entries s1) | [] => entries s1 end) as E2 by by rewrite B2.
  assert (entries s2 !! x = Some e) as Ex2. { rewrite E2. destruct l2 as [|y l2]; [by rewrite Hout|]. rewrite lookup_alter_ne by set_solver. by rewrite Hout. }
  rewrite upd_entry_alter by (rewrite Ex2; eauto). cbn [mbind option_bind]. rewrite upd_entry_alter by (cbn; rewrite lookup_alter_eq, Ex2; eauto). eexists. split; [done|]. split.
  - eapply (links_trans s s1); [eapply links_but; [exact B1|]; destruct (last l1); [by apply body_alter|done]|].
    eapply (links_trans s1 s2); [eapply links_but; [exact B2|]; destruct l2; [done|by apply body_alter]|]. split; [|done]. split; [|done]. cbn. by rewrite !body_alter.
  - cbn. constructor; [by apply NoDup_app|by rewrite B2; cbn; rewrite B1|by rewrite B2|]. rewrite !dseg_alter by set_solver. apply dseg_app. rewrite E2. split.
    + destruct l2 as [|y l2]; [done|]. rewrite dseg_alter; [done|]. intros ?. eapply Hdis; [done|left].
    + by eapply dseg_set_prev.
Qed.

(** ** Loops over the list *)

Lemma for_entries_run {A} (f : A → select_entry → option (A * select_entry)) (J : list Z → A → Prop) (R : Z → select_entry → select_entry → Prop) (m0 : gmap Z select_entry) :
  (∀ don x e a, J don a → m0 !! x = Some e → ∃ a' e', f a e = Some (a', e') ∧ (e_next e' = e_next e ∧ e_prev e' = e_prev e) ∧ R x e e' ∧ J (don ++ [x]) a') →
  ∀ l don p fuel a m, NoDup (don ++ l) → dseg m p l None → (∀ x, x ∈ l → m !! x = m0 !! x) → (length l <= fuel)%nat → J don a →
  ∃ a' m', for_entries fuel f (first l None) a m = Some (a', m') ∧ J (don ++ l) a' ∧
  (∀ x, x ∈ l → ∀ e, m0 !! x = Some e → ∃ e', m' !! x = Some e' ∧ (e_next e' = e_next e ∧ e_prev e' = e_prev e) ∧ R x e e') ∧ (∀ x, x ∉ l → m' !! x = m !! x).
Proof.
  intros Hf l. induction l as [|x l IH]; intros don p fuel a m Hn Hd Hm Hfuel HJ.
  - exists a, m. rewrite app_nil_r. split; [by destruct fuel|]. split; [done|]. split; [by intros x ?%not_elem_of_nil|done].
  - destruct fuel as [|fuel]; [cbn in Hfuel; lia|]. cbn [for_entries first]. destruct Hd as (e & E & Ep & En & Hd). rewrite E. cbn [mbind option_bind].
    rewrite Hm in E by left. destruct (Hf don x e a HJ E) as (a1 & e1 & -> & [L1 L2] & HR & HJ1). cbn [mbind option_bind]. rewrite L1, En.
    assert (x ∉ l) as Hx by (apply NoDup_app in Hn as (_ & _ & [? _]%NoDup_cons); done).
    destruct (IH (don ++ [x]) (Some x) fuel a1 (<[x := e1]> m)) as (a2 & m2 & -> & HJ2 & Hin & Hout).
    + by rewrite <- app_assoc.
    + by apply dseg_insert.
    + intros y Hy. rewrite lookup_insert_ne by (intros ->; done). apply Hm. by right.
    + cbn in Hfuel. lia.
    + done.
    + exists a2, m2. split; [done|]. rewrite <- app_assoc in HJ2. split; [done|]. split.
      * intros y [->|Hy]%elem_of_cons ey Ey; [|by apply Hin]. assert (ey = e) as -> by congruence. exists e1. rewrite Hout by done. by rewrite lookup_insert_eq.
      * intros y [Hyx Hy]%not_elem_of_cons. rewrite Hout by done. by rewrite lookup_insert_ne.
Qed.

(** All entries of the list: [J] is kept for what the loop collects, [R] relates every entry to what becomes of it. *)
Lemma all_entries_run {A} (f : A → select_entry → option (A * select_entry)) (J : list Z → A → Prop) (R : Z → select_entry → select_entry → Prop) s l a :
  dll (entries s) l (entry_head s) (entry_tail s) → J [] a →
  (∀ don x e a, J don a → entries s !! x = Some e → ∃ a' e', f a e = Some (a', e') ∧ (e_next e' = e_next e ∧ e_prev e' = e_prev e) ∧ R x e e' ∧ J (don ++ [x]) a') →
  ∃ a' m', all_entries f a s = Some (a', set_entries m' s) ∧ J l a' ∧ dll m' l (entry_head s) (entry_tail s) ∧
  (∀ x, x ∈ l → ∀ e, entries s !! x = Some e → ∃ e', m' !! x = Some e' ∧ R x e e') ∧ (∀ x, x ∉ l → m' !! x = entries s !! x).
Proof.
  intros Hd HJ Hf. destruct (for_entries_run f J R (entries s) Hf l [] None (size (entries s)) a (entries s)) as (a' & m' & E & HJ' & Hin & Hout); [apply Hd..|done|by eapply dll_length|done|].
  exists a', m'. unfold all_entries. rewrite (dl_head _ _ _ _ Hd), E. cbn. split; [done|]. split; [done|]. split; [|split; [|done]].
  - destruct Hd as [Hn Hh Ht Hs]. constructor; [done..|]. eapply dseg_same; [exact Hs|]. intros x Hx e Ee. destruct (Hin x Hx e Ee) as (e' & E' & ? & _). eauto.
  - intros x Hx e Ee. destruct (Hin x Hx e Ee) as (e' & E' & _ & HR). eauto.
Qed.
