(* ===== verification/SelectBegin.v ===== *)
(** * [select]: a call up to its wait, alone and step by step *)
From S2P Require Import Prelude.
From S2P Require Import Select.
From S2P Require Import SelectProofs.
From S2P Require Import SelectScan.
From S2P Require Import SelectList.

Lemma nbits_nonneg p : 0 <= nbits p.
Proof. unfold nbits. lia. Qed.
Lemma nbits_zero p n : nbits p = 0 → 0 <= n < FD_SETSIZE → bit p n = false.
Proof.
  intros Hp Hn. destruct (bit p n) eqn:Hb; [|done]. unfold nbits in Hp. assert (n ∈ filter (λ n, bit p n = true) (seqZ 0 FD_SETSIZE)) as Hin.
  { apply list_elem_of_filter. split; [done|]. by apply elem_of_seqZ. }
  destruct (filter (λ n, bit p n = true) (seqZ 0 FD_SETSIZE)); [by apply not_elem_of_nil in Hin|cbn in Hp; lia].
Qed.
Lemma total_nonneg e : 0 <= total e.
Proof. unfold total. pose proof (nbits_nonneg (t_rd (sets (ready e)))). pose proof (nbits_nonneg (t_wr (sets (ready e)))). pose proof (nbits_nonneg (t_ex (sets (ready e)))). lia. Qed.

Section begin.
Context {W : Type} (modNum fix_mid : Z) (get_select_fun_nonblock : Z → option (@select_fun W)).
Hypothesis Hnum : modNum <= NSTACK_MAX_MODULE_NUM.
Hypothesis Hfix : 0 <= fix_mid < modNum.
Hypothesis Hsizes : keeps_sizes get_select_fun_nonblock.

Abbreviation map_ok := (map_ok modNum fix_mid).
Abbreviation route := (route fix_mid).
Abbreviation routable := (routable modNum fix_mid).
Abbreviation keeps := (keeps modNum fix_mid).
Abbreviation splits := (splits fix_mid).
Abbreviation ready_is := (ready_is fix_mid).
Abbreviation places := (kind → Z * Z → Prop).

Definition none : places := λ _ _, False.

(** With no ready descriptor counted, none is marked. *)
Lemma ready_none m r nfds T e : 0 <= nfds <= FD_SETSIZE → ready_is m r (asked r nfds) T e → readyset (ready e) = 0 →
  ready_is m r (asked r nfds) none e ∧ ∀ k c, asked r nfds c → req r k c = true → ¬ T k (route m c).
Proof.
  intros Hn [B C] H0. rewrite C in H0. pose proof (nbits_nonneg (t_rd (sets (ready e)))). pose proof (nbits_nonneg (t_wr (sets (ready e)))). pose proof (nbits_nonneg (t_ex (sets (ready e)))).
  assert (∀ k, nbits (tget k (sets (ready e))) = 0) as Hz by (unfold total in H0; intros []; cbn; lia).
  assert (∀ k c, rbit e k c = false) as Hb.
  { intros k c. destruct (rbit e k c) eqn:E; [|done]. pose proof E as E'. apply B in E' as (Hc & _). unfold rbit in E. rewrite nbits_zero in E; [done|done|]. destruct Hc as [Hc _]. lia. }
  split; [constructor; [|done]|].
  - intros k c. rewrite Hb. split; [done|]. by intros (_ & _ & []).
  - intros k c Hc Hq HT. assert (rbit e k c = true) by by apply B. by rewrite Hb in *.
Qed.

Lemma ready_same m m' r P T e : (∀ c, P c → route m' c = route m c) → ready_is m r P T e → ready_is m' r P T e.
Proof. intros R [B C]. constructor; [|done]. intros k c. rewrite B. split; intros (Hc & Hq & HT); (split; [done|]; split; [done|]); [by rewrite R|by rewrite <- R]. Qed.

(** ** The beginning of a call *)

Definition convertible (t : option timeval) : Prop := match t with Some t => is_Some (nstack_timeval2msec t) | None => True end.

Record request (s : select_module_info) (nfds : Z) (r : app_sets) (t : option timeval) : Prop := {
  rq_map : map_ok (fd_map s);
  rq_inited : inited s = true;
  rq_routable : ∀ c, asked r nfds c → routable (fd_map s) c;
  rq_sets : req_ok r;
  rq_nfds : 0 < nfds <= FD_SETSIZE;
  rq_some : ∃ k, is_Some (tget k r);
  rq_time : negative_time t = false ∧ convertible t
}.

(** The entry after splitting asks every module for what is routed to it. *)
Record split_entry (m m' : select_fd_map_inf) (nfds : Z) (r : app_sets) (e : select_entry) : Prop := {
  se_map : map_ok m';
  se_routes : ∀ c, keeps m m' c;
  se_counts : counts_ok e;
  se_splits : splits m' r (asked r nfds) e;
  se_ready : ready e = cb0;
  se_sem : sem e = 0
}.

Lemma no_bits : cb_shape cb0 ∧ ∀ k n, bit (tget k (sets cb0)) n = false.
Proof. split; [by intros []|]. intros [] n; apply bit_zero. Qed.

Lemma split_ready_none m m' nfds r e : split_entry m m' nfds r e → ready_is m' r (asked r nfds) none e.
Proof.
  intros He. constructor; unfold rbit, total; rewrite (se_ready _ _ _ _ _ He).
  - intros k c. rewrite (proj2 no_bits). split; [done|]. by intros (_ & _ & []).
  - pose proof (λ k, nbits_none (tget k (sets cb0)) (proj2 no_bits k)) as H. pose proof (H Rd) as H1. pose proof (H Wr) as H2. pose proof (H Ex) as H3. cbn [tget] in *. rewrite H1, H2, H3. done.
Qed.

(** What a scan gets from the modules: without memory it asks none. *)
Definition scan_answers (ok : Z → bool) (e : select_entry) (w : W) : (kind → Z → Z → bool) * option (Z * Z) * W :=
  if scan_memory ok then ask_modules get_select_fun_nonblock (Z.to_nat modNum) 0 e w else (λ _ _ _, false, None, w).

(** [errno] and the two ends of [nstack_select_begin]: a scan that finds something or may not wait, and a call that waits. *)
Lemma select_begin_run s nfds r t x errno ok w : request s nfds r t →
  ∃ m' e, select_cb_split_by_mod modNum fix_mid true nfds r (fd_map s) entry0 = Some (m', e) ∧ split_entry (fd_map s) m' nfds r e ∧
  let run := nstack_select_begin modNum fix_mid get_select_fun_nonblock (Some x) ok nfds r t errno s w in
  ((set_num e <=? 1) && (info_index e =? default_mod s) = true ↔ all_of fix_mid m' r nfds (default_mod s)) ∧
  if (set_num e <=? 1) && (info_index e =? default_mod s) then run = Some (SelBase, errno, set_map m' s, w)
  else let '(R, o, w') := scan_answers ok e w in
  match o with
  | Some (_, err) => run = Some (SelDone (-1) r, err, set_map m' s, w')
  | None => ∃ rd, cb_shape rd ∧ ready_is m' r (asked r nfds) (λ k p, R k p.1 p.2 = true) (set_ready rd e) ∧
    run = if negb (readyset rd =? 0) || zero_time t then Some (SelDone (readyset rd) (select_result r (set_ready rd e)), errno, set_map m' s, w')
          else s1 ← select_add_cb x (set_entries (<[x := set_ready rd e]> (entries s)) (set_map m' s)); Some (SelWait, errno, s1, w')
  end.
Proof.
  intros [Hm Hi HP Hr Hn [k0 Hk0] [Ht Hct]]. destruct (split_run modNum fix_mid Hnum Hfix (fd_map s) r nfds Hm ltac:(intros; by apply HP) Hr ltac:(lia)) as (m' & cs & a & b & Es & Hm' & Hsr & Hk & Hsp & Ha & Hb).
  set (e := set_info a b (set_cb cs entry0)) in *. exists m', e. split; [done|]. assert (split_entry (fd_map s) m' nfds r e) as He by by constructor. split; [done|]. cbv zeta. split.
  { subst a b. apply (base_iff modNum fix_mid Hfix m' r nfds e (default_mod s)); [done|intros c Hc; by apply Hsr, HP|lia|done|done]. }
  unfold nstack_select_begin. rewrite Ht, Hi. destruct (Z.ltb_spec FD_SETSIZE nfds); [lia|]. destruct (Z.ltb_spec nfds 0); [lia|]. cbn [orb negb]. destruct (Z.leb_spec nfds 0); [lia|]. cbn [orb].
  replace (match r with mk_tri None None None => true | _ => false end) with false by (destruct r as [[?|] [?|] [?|]], k0; try done; by destruct Hk0).
  rewrite Es. cbn [mbind option_bind]. change (default_mod (set_map m' s)) with (default_mod s). destruct ((set_num e <=? 1) && (info_index e =? default_mod s)); [done|].
  unfold select_scan, scan_answers. destruct (scan_memory ok); cbn [negb].
  2:{ exists cb0. change (set_ready cb0 e) with e. split; [by intros []|]. split; [eapply ready_ext; [|by eapply split_ready_none]; intros; unfold none; naive_solver|].
    cbn [mbind option_bind]. change (-1 =? FALSE) with false. cbn iota. change (ready e) with cb0. change (readyset cb0) with 0. cbn [Z.eqb negb orb]. destruct (zero_time t); [done|].
    change (entries (set_map m' s)) with (entries s). destruct (select_add_cb x _) as [s1|]; [|done]. cbn [mbind option_bind]. destruct t as [t|]; [|done]. cbn in Hct. by destruct Hct as [v ->]. }
  pose proof (scan_run modNum fix_mid get_select_fun_nonblock Hnum Hfix (Z.to_nat modNum) 0 m' e r (asked r nfds) none w) as Hscan.
  specialize (Hscan Hsizes Hm' ltac:(intros c [? _]; lia) Hsp Hk (split_ready_none _ _ _ _ _ He) ltac:(lia) ltac:(lia) ltac:(done)).
  destruct (ask_modules get_select_fun_nonblock (Z.to_nat modNum) 0 e w) as [[R o] w'] eqn:Eask. destruct o as [[v err]|].
  - destruct Hscan as (rd & -> & Hv & <-). cbn [mbind option_bind]. done.
  - destruct Hscan as (rd & -> & Hrd & Hri). exists rd. split; [done|]. cbn [mbind option_bind]. change (TRUE =? FALSE) with false. cbn [ready set_ready].
    assert (ready_is m' r (asked r nfds) (λ k p, R k p.1 p.2 = true) (set_ready rd e)) as Hri' by (eapply ready_ext; [|exact Hri]; unfold none; tauto). split; [done|].
    destruct (negb (readyset rd =? 0) || zero_time t).
    + pose proof (ri_count _ _ _ _ _ _ Hri') as Hc. cbn in Hc. rewrite Hc. pose proof (total_nonneg (set_ready rd e)). destruct (Z.ltb_spec (total (set_ready rd e)) 0); [lia|done].
    + change (entries (set_map m' s)) with (entries s). destruct (select_add_cb x _) as [s1|]; [|done]. cbn [mbind option_bind]. destruct t as [t|]; [|done]. cbn in Hct. by destruct Hct as [v ->].
Qed.

(** ** Results *)

Definition result_count (r : app_sets) : Z := let n k := match tget k r with Some p => nbits p | None => 0 end in n Rd + n Wr + n Ex.

(** The result is the number of descriptors in the sets, and these are the requested ones that were reported. *)
Definition exact_result (m : select_fd_map_inf) (r : app_sets) (nfds : Z) (T : places) (ret : Z) (r' : app_sets) : Prop :=
  ret = result_count r' ∧ (∀ k, is_Some (tget k r') ↔ is_Some (tget k r)) ∧ ∀ k d, req r' k d = true ↔ asked r nfds d ∧ req r k d = true ∧ T k (route m d).

Lemma nbits_same p q : (∀ n, 0 <= n < FD_SETSIZE → bit p n = bit q n) → nbits p = nbits q.
Proof. intros H. unfold nbits. f_equal. f_equal. apply filter_same_in. intros n Hn%elem_of_seqZ. by rewrite H. Qed.

Lemma result_exact m r nfds T e : 0 <= nfds <= FD_SETSIZE → ready_is m r (asked r nfds) T e → exact_result m r nfds T (readyset (ready e)) (select_result r e).
Proof.
  intros Hn [B C]. assert (∀ k, tget k (select_result r e) = tget k r ≫= λ _, Some (result_set (tget k (sets (ready e))))) as Hk by by intros [].
  assert (∀ k n, 0 <= n < FD_SETSIZE → bit (result_set (tget k (sets (ready e)))) n = rbit e k n) as Hb by (intros k n Hr; apply bit_take; [done|change app_bytes with 128; unfold FD_SETSIZE in Hr; lia]).
  split; [|split].
  - rewrite C. assert (∀ k, match tget k (select_result r e) with Some p => nbits p | None => 0 end = nbits (tget k (sets (ready e)))) as H.
    { intros k. rewrite Hk. destruct (tget k r) as [p|] eqn:Ek; cbn; [by apply nbits_same, Hb|]. symmetry. apply nbits_none. intros n. destruct (bit (tget k (sets (ready e))) n) eqn:E; [|done].
      apply B in E as (_ & E & _). unfold req in E. by rewrite Ek in E. }
    unfold result_count. rewrite !H. done.
  - intros k. rewrite Hk. destruct (tget k r); cbn; [|done]. split; eauto.
  - intros k d. unfold req at 1. rewrite Hk. rewrite <- B. destruct (tget k r) as [p|] eqn:Ek; cbn.
    + destruct (decide (0 <= d < FD_SETSIZE)) as [Hd|Hd]; [by rewrite Hb|]. split; [intros Hr%bit_range|intros (Hr & _)%B; destruct Hr as [Hr _]; lia]. exfalso. unfold in_set, result_set in Hr. rewrite length_take in Hr.
      change app_bytes with 128 in Hr. unfold FD_SETSIZE in Hd. lia.
    + split; [done|]. intros (_ & E & _)%B. unfold req in E. by rewrite Ek in E.
Qed.

(** ** Step by step *)

Abbreviation begin_step := (begin_step modNum fix_mid get_select_fun_nonblock).

(** The places reported to a call after a step: those of the answer it takes. *)
Definition got_after (p : begin_pc) (e : select_entry) (T : places) : places :=
  match p with BTake inx a => λ k q, T k q ∨ q.1 = inx ∧ 0 <= q.2 < cnt e inx ∧ bit (tget k a) q.2 = true | _ => T end.

(** What is true of the entry of a call at each place; [T]: the places reported to it so far. *)
Definition begin_at (m : select_fd_map_inf) (r : app_sets) (nfds : Z) (p : begin_pc) (e : select_entry) (T : places) : Prop :=
  let whole := splits m r (asked r nfds) e in
  match p with
  | BSplit i inx => (0 <= i <= nfds ∧ 0 <= inx <= modNum ∧ (i = nfds → inx = 0)) ∧ (ready e = cb0 ∧ set_num e = 0 ∧ info_index e = 0 ∧ T = none) ∧
      splits m r (λ c, 0 <= c < i ∨ c = i ∧ (route m i).1 < inx) e
  | BInfo => (ready e = cb0 ∧ set_num e = 0 ∧ info_index e = 0 ∧ T = none) ∧ whole
  | BAlloc => (ready e = cb0 ∧ T = none) ∧ whole
  | BScan inx => 0 <= inx <= modNum ∧ whole ∧ ready_is m r (asked r nfds) T e ∧ ∀ k q, T k q → q.1 < inx
  | BTake inx a => (0 <= inx < modNum ∧ sizes a) ∧ whole ∧ ready_is m r (asked r nfds) T e ∧ ∀ k q, T k q → q.1 < inx
  | BEnd => whole ∧ ready_is m r (asked r nfds) T e
  end.

Record begun_inv (m : select_fd_map_inf) (r : app_sets) (nfds : Z) (t : option timeval) (p : begin_pc) (e : select_entry) (T : places) : Prop := {
  bi_routable : ∀ c, asked r nfds c → routable m c;
  bi_sets : req_ok r;
  bi_nfds : 0 < nfds <= FD_SETSIZE;
  bi_time : convertible t;
  bi_counts : counts_ok e;
  bi_sem : sem e = 0;
  bi_at : begin_at m r nfds p e T
}.

Lemma route_nonneg m c : 0 <= (route m c).1.
Proof. unfold SelectProofs.route. destruct (Z.ltb_spec (idx m c) 0); cbn; lia. Qed.

Lemma ready_cb0 m r P e : ready e = cb0 → ready_is m r P none e.
Proof.
  intros He. constructor; unfold rbit, total; rewrite He.
  - intros k c. rewrite (proj2 no_bits). split; [done|]. by intros (_ & _ & []).
  - pose proof (λ k, nbits_none (tget k (sets cb0)) (proj2 no_bits k)) as H. pose proof (H Rd) as H1. pose proof (H Wr) as H2. pose proof (H Ex) as H3. cbn [tget] in *. by rewrite H1, H2, H3.
Qed.

Lemma begun_start s nfds r t : request s nfds r t → begun_inv (fd_map s) r nfds t (BSplit 0 0) entry0 none.
Proof.
  intros [Hm Hi HP Hr Hn _ [_ Hct]]. constructor; [done..|apply (entry0_splits fix_mid (fd_map s) r)|done|]. split; [lia|]. split; [done|].
  eapply splits_ext; [|apply entry0_splits]. intros c _. pose proof (route_nonneg (fd_map s) 0). cbn. intuition lia.
Qed.

(** Changes to the records of descriptors that the call does not name. *)
Lemma begun_map m m' r nfds t p e T : (∀ c, asked r nfds c → keeps m m' c) → begun_inv m r nfds t p e T → begun_inv m' r nfds t p e T.
Proof.
  intros Hk [HR Hs Hn Ht Hc Hsem Hat]. constructor; [by intros c Hc'; apply Hk, HR|done..|].
  assert (splits m r (asked r nfds) e → splits m' r (asked r nfds) e) as Hsp by (eapply splits_same; intros c Hc' _; split; [by apply HR|by apply Hk]).
  assert (∀ T, ready_is m r (asked r nfds) T e → ready_is m' r (asked r nfds) T e) as Hri by (intros T'; apply ready_same; intros c Hc'; by apply Hk).
  destruct p as [i inx| | |inx|inx a|]; cbn in Hat |- *; [|tauto..|naive_solver|naive_solver|naive_solver]. destruct Hat as ((Hi & Hx & Hix) & Hz & Hat). split; [done|]. split; [done|].
  assert (i < nfds → req_any r i = true → asked r nfds i) as Ha by (intros; split; [lia|done]). pose proof (route_nonneg m i). pose proof (route_nonneg m' i).
  assert (splits m' r (λ c, 0 <= c < i ∨ c = i ∧ (route m i).1 < inx) e) as Hat'.
  { eapply splits_same; [|exact Hat]. intros c Hc' Hq. assert (asked r nfds c).
    { split; [|done]. destruct Hc' as [?|[-> ?]]; [lia|]. destruct (decide (i = nfds)) as [E|]; [rewrite (Hix E) in *; lia|lia]. }
    split; [by apply HR|by apply Hk]. }
  eapply splits_ext; [|exact Hat']. intros c Hq. cbn beta. destruct (decide (i = nfds)) as [E|]; [rewrite (Hix E); intuition lia|].
  destruct (decide (c = i)) as [->|]; [|intuition lia]. destruct (Hk i) as [-> _]; [apply Ha; [lia|done]|done].
Qed.

(** The call fails in a step: the module it asks fails with [err]. *)
Definition module_fails (p : begin_pc) (e : select_entry) (w : W) (err : Z) : Prop :=
  ∃ inx f c rd a t w', p = BScan inx ∧ get_select_fun_nonblock inx = Some f ∧ aread (cb e) inx = Some c ∧ f (count c) (sets c) (0, 0) w = ((rd, err, a, t), w') ∧ rd < 0.

(** What a step comes to: the call goes on; it waits; it is left to the system; it fails because a module does; or it is done. *)
Definition begin_goes (s : select_module_info) (x nfds : Z) (r : app_sets) (t : option timeval) (errno : Z) (p : begin_pc) (e : select_entry) (T : places) (w : W) (o : begin_out) (s' : select_module_info) : Prop :=
  match o with
  | BNext p' e' => ∃ m', s' = set_map m' s ∧ map_ok m' ∧ (∀ c, keeps (fd_map s) m' c) ∧ begun_inv m' r nfds t p' e' (got_after p e T)
  | BOut SelWait errno' => errno' = errno ∧ p = BEnd ∧ readyset (ready e) = 0 ∧ select_add_cb x (set_entries (<[x := e]> (entries s)) s) = Some s'
  | BOut SelBase errno' => errno' = errno ∧ s' = s ∧ all_of fix_mid (fd_map s) r nfds (default_mod s)
  | BOut (SelDone ret r') errno' => s' = s ∧ ((ret = -1 ∧ r' = r ∧ module_fails p e w errno') ∨ (exact_result (fd_map s) r nfds T ret r' ∧ errno' = errno))
  end.

Lemma goes_next s x nfds r t errno p e T w p' e' : map_ok (fd_map s) → begun_inv (fd_map s) r nfds t p' e' (got_after p e T) →
  begin_goes s x nfds r t errno p e T w (BNext p' e') s.
Proof. intros Hm Hb. exists (fd_map s). split; [by destruct s|]. split; [done|]. split; [intros c; apply keeps_refl|done]. Qed.

Lemma step_split s x nfds r t errno ok i inx e T w : map_ok (fd_map s) → inited s = true → begun_inv (fd_map s) r nfds t (BSplit i inx) e T →
  ∃ o s' w', begin_step x nfds r t errno ok (BSplit i inx) e s w = Some (o, s', w') ∧ begin_goes s x nfds r t errno (BSplit i inx) e T w o s'.
Proof.
  intros Hm Hin [HR Hs Hn Ht Hc Hsem ((Hi & Hx & Hix) & Hz & Hsp)]. cbn [Select.begin_step]. destruct (Z.ltb_spec i nfds) as [Hlt|Hge]; cbn [negb].
  2:{ do 3 eexists. split; [done|]. apply goes_next; [done|]. constructor; [done..|]. split; [done|]. eapply splits_ext; [|exact Hsp].
      intros c Hq. unfold asked. rewrite Hq. pose proof (route_nonneg (fd_map s) i). assert (inx = 0) by (apply Hix; lia). cbn beta. intuition lia. }
  assert (∀ c, 0 <= c < nfds → req_any r c = true → routable (fd_map s) c) as HR' by (intros c ? ?; by apply HR).
  destruct (Z.ltb_spec inx modNum) as [Hlx|Hgx]; cbn [negb].
  - rewrite Hin. destruct (split_one_run modNum fix_mid Hnum Hfix (fd_map s) e i inx r (λ c, 0 <= c < i)) as (m' & cs & -> & Hm' & Hk & Hc' & Hsp'); [done|intros; apply HR'; [lia|done]|apply HR'; lia|done|lia|lia|done|done|].
    cbn [mbind option_bind]. do 3 eexists. split; [done|]. exists m'. split; [done|]. split; [done|]. split; [done|].
    constructor; [intros c Hc0; by apply Hk, HR|done..|]. split; [lia|]. split; [done|done].
  - do 3 eexists. split; [done|]. apply goes_next; [done|]. constructor; [done..|]. split; [lia|]. split; [done|].
    replace inx with modNum in Hsp by lia. apply (splits_done modNum fix_mid Hfix (fd_map s) r _ e i Hm) in Hsp; [|apply HR'; lia|lia].
    eapply splits_ext; [|exact Hsp]. intros c _. pose proof (route_nonneg (fd_map s) (i + 1)). cbn beta. intuition lia.
Qed.

Lemma step_info s x nfds r t errno ok e T w : map_ok (fd_map s) → begun_inv (fd_map s) r nfds t BInfo e T →
  ∃ o s' w', begin_step x nfds r t errno ok BInfo e s w = Some (o, s', w') ∧ begin_goes s x nfds r t errno BInfo e T w o s'.
Proof.
  intros Hm [HR Hs Hn Ht Hc Hsem ((Hz & Hs0 & Hi0 & HT) & Hsp)]. cbn [Select.begin_step]. rewrite split_info_run by (first [lia|apply Hsp]). cbn [mbind option_bind]. rewrite Hs0, Hi0.
  set (e' := set_info _ _ e). pose proof (base_iff modNum fix_mid Hfix (fd_map s) r nfds e (default_mod s) Hm HR ltac:(lia) Hc Hsp) as Hb. cbv zeta in Hb.
  cbn [set_num info_index set_info]. do 3 eexists. split; [done|]. cbn [set_num info_index set_info e']. rewrite Z.add_0_l.
  destruct ((Z.of_nat _ <=? 1) && _); [split; [done|]; split; [done|by apply Hb]|]. apply goes_next; [done|].
  destruct Hc as [K1 K2 K3], Hsp as [[S1 S2 S3] B L]. constructor; [done..|by constructor|done|]. split; [done|]. by constructor; [constructor|..].
Qed.

Lemma step_scan s x nfds r t errno ok inx e T w : map_ok (fd_map s) → begun_inv (fd_map s) r nfds t (BScan inx) e T →
  ∃ o s' w', begin_step x nfds r t errno ok (BScan inx) e s w = Some (o, s', w') ∧ begin_goes s x nfds r t errno (BScan inx) e T w o s'.
Proof.
  intros Hm [HR Hs Hn Ht Hc Hsem (Hx & Hsp & Hri & HT)]. cbn [Select.begin_step]. destruct (Z.ltb_spec inx modNum) as [Hlt|Hge]; cbn [negb].
  2:{ do 3 eexists. split; [done|]. apply goes_next; [done|]. by constructor. }
  assert (begun_inv (fd_map s) r nfds t (BScan (inx + 1)) e T) as Hnext.
  { constructor; [done..|]. split; [lia|]. split; [done|]. split; [done|]. intros k q ?%HT. lia. }
  destruct (shape_cb e inx (sp_shape _ _ _ _ _ Hsp)) as (c & Ec & Hcs); [lia|]. rewrite Ec. cbn [mbind option_bind].
  destruct (get_select_fun_nonblock inx) as [f|] eqn:Ef; [|do 3 eexists; split; [done|]; by apply goes_next]. destruct (0 <? count c); [|do 3 eexists; split; [done|]; by apply goes_next].
  pose proof (Hsizes inx f (count c) (sets c) (0, 0) w Ef Hcs) as Ha. destruct (f (count c) (sets c) (0, 0) w) as [[[[rd err] a] tv] w1] eqn:Ev. cbn in Ha.
  do 3 eexists. split; [done|]. destruct (Z.ltb_spec 0 rd); [|destruct (Z.ltb_spec rd 0); [|by apply goes_next]].
  - apply goes_next; [done|]. constructor; [done..|]. split; [split; [lia|done]|]. split; [done|]. by split.
  - split; [done|]. left. split; [done|]. split; [done|]. by exists inx, f, c, rd, a, tv, w1.
Qed.

Lemma step_taken s x nfds r t errno ok inx a e T w : map_ok (fd_map s) → begun_inv (fd_map s) r nfds t (BTake inx a) e T →
  ∃ o s' w', begin_step x nfds r t errno ok (BTake inx a) e s w = Some (o, s', w') ∧ begin_goes s x nfds r t errno (BTake inx a) e T w o s'.
Proof.
  intros Hm [HR Hs Hn Ht Hc Hsem ((Hx & Ha) & Hsp & Hri & HT)]. cbn [Select.begin_step].
  destruct (shape_cb e inx (sp_shape _ _ _ _ _ Hsp)) as (c & Ec & Hcs); [lia|]. assert (cnt e inx = count c) as Ecnt by (unfold cnt; by rewrite Ec). rewrite Ec. cbn [mbind option_bind].
  pose proof (co_range e Hc inx) as Hr. rewrite Ecnt in Hr.
  destruct (module_fdset_run modNum fix_mid Hnum Hfix (fd_map s) r (asked r nfds) ltac:(intros d [? _]; lia) a Ha (count c) e inx T Hsp Hri Hx) as (rd & -> & Hrd & Hri');
    [unfold NSTACK_SETSIZE, NSTACK_SELECT_MAX_FD in *; lia|intros k f ?%HT; cbn in *; lia|done|]. cbn [mbind option_bind].
  do 3 eexists. split; [done|]. apply goes_next; [done|]. destruct Hc as [K1 K2 K3]. constructor; [done..|by constructor|done|]. cbn [got_after]. rewrite Ecnt. split; [lia|].
  split; [by apply splits_ready|]. split; [done|]. intros k q [?%HT|[-> _]]; lia.
Qed.

Lemma step_last s l x nfds r t errno ok e T w : map_ok (fd_map s) → dll (entries s) l (entry_head s) (entry_tail s) → x ∉ l → begun_inv (fd_map s) r nfds t BEnd e T →
  ∃ o s' w', begin_step x nfds r t errno ok BEnd e s w = Some (o, s', w') ∧ begin_goes s x nfds r t errno BEnd e T w o s'.
Proof.
  intros Hm Hl Hxl [HR Hs Hn Ht Hc Hsem (Hsp & Hri)]. cbn [Select.begin_step]. pose proof (ri_count _ _ _ _ _ _ Hri) as Hcnt. pose proof (total_nonneg e).
  destruct (negb (readyset (ready e) =? 0) || zero_time t) eqn:Hz.
  - do 3 eexists. split; [done|]. split; [done|]. right. split; [apply result_exact; [lia|done]|]. destruct (Z.ltb_spec (readyset (ready e)) 0); [lia|done].
  - apply orb_false_iff in Hz as [Hz%negb_false_iff%Z.eqb_eq _].
    destruct (add_cb_run (set_entries (<[x := e]> (entries s)) s) l x e) as (s1 & E1 & _ & _ & _); [|done|apply lookup_insert_eq|].
    { destruct Hl as [Hnd Hh Htl Hd]. constructor; [done..|]. cbn. by apply dseg_insert. }
    rewrite E1. cbn [mbind option_bind]. destruct t as [t|]; [cbn in Ht; destruct Ht as [v ->]|]; (do 3 eexists; split; [done|]; done).
Qed.

(** Every step of a call is defined. *)
Lemma begin_step_run s l x nfds r t errno ok p e T w : map_ok (fd_map s) → inited s = true → dll (entries s) l (entry_head s) (entry_tail s) → x ∉ l → begun_inv (fd_map s) r nfds t p e T →
  ∃ o s' w', begin_step x nfds r t errno ok p e s w = Some (o, s', w') ∧ begin_goes s x nfds r t errno p e T w o s'.
Proof.
  intros Hm Hin Hl Hx Hb. destruct p as [i inx| | |inx|inx a|]; [by apply step_split|by apply step_info| |by apply step_scan|by apply step_taken|by eapply step_last].
  do 3 eexists. split; [done|]. apply goes_next; [done|]. destruct Hb as [HR Hs Hn Ht Hc Hsem ((Hz & ->) & Hsp)]. destruct (scan_memory ok); (constructor; [done..|]).
  - split; [lia|]. split; [done|]. split; [by apply ready_cb0|done].
  - split; [done|by apply ready_cb0].
Qed.

(** ** The steps of a call that runs alone are [nstack_select_begin] *)

Section alone.
Context (x nfds : Z) (r : app_sets) (t : option timeval) (errno : Z) (ok : Z → bool).

Inductive bruns : begin_pc → select_entry → select_module_info → W → begin_pc → select_entry → select_module_info → W → Prop :=
  | br_nil p e s w : bruns p e s w p e s w
  | br_step p e s w p1 e1 s1 w1 p' e' s' w' :
      begin_step x nfds r t errno ok p e s w = Some (BNext p1 e1, s1, w1) → bruns p1 e1 s1 w1 p' e' s' w' → bruns p e s w p' e' s' w'.

Lemma br_trans p e s w p1 e1 s1 w1 p' e' s' w' : bruns p e s w p1 e1 s1 w1 → bruns p1 e1 s1 w1 p' e' s' w' → bruns p e s w p' e' s' w'.
Proof. intros H1 H2. induction H1; [done|]. econstructor; eauto. Qed.

Lemma set_map_same s : set_map (fd_map s) s = s.
Proof. by destruct s. Qed.

Lemma split_modules_steps n i inx s e m' e' w : i < nfds → inx + Z.of_nat n = modNum → split_modules fix_mid n (inited s) i inx r (fd_map s, e) = Some (m', e') →
  bruns (BSplit i inx) e s w (BSplit (i + 1) 0) e' (set_map m' s) w.
Proof.
  intros Hi. revert inx s e. induction n as [|n IH]; intros inx s e Hn; cbn [split_modules].
  - intros [= <- <-]. rewrite set_map_same. econstructor; [|constructor]. cbn [Select.begin_step]. rewrite (proj2 (Z.ltb_lt i nfds)) by done. cbn [negb]. by rewrite (proj2 (Z.ltb_ge inx modNum)) by lia.
  - destruct (split_one fix_mid (inited s) i inx r (fd_map s, e)) as [[m1 e1]|] eqn:E; [|done]. cbn [mbind option_bind]. intros Hrest.
    econstructor; [cbn [Select.begin_step]; rewrite (proj2 (Z.ltb_lt i nfds)) by done; cbn [negb]; rewrite (proj2 (Z.ltb_lt inx modNum)) by lia; cbn [negb]; rewrite E; done|].
    change (set_map m' s) with (set_map m' (set_map m1 s)). apply IH; [lia|done].
Qed.

Lemma split_fds_steps n i s e m' e' w : i + Z.of_nat n = nfds → split_fds modNum fix_mid n (inited s) i r (fd_map s, e) = Some (m', e') →
  bruns (BSplit i 0) e s w BInfo e' (set_map m' s) w.
Proof.
  revert i s e. induction n as [|n IH]; intros i s e Hn; cbn [split_fds].
  - intros [= <- <-]. rewrite set_map_same. econstructor; [|constructor]. cbn [Select.begin_step]. by rewrite (proj2 (Z.ltb_ge i nfds)) by lia.
  - destruct (split_modules fix_mid (Z.to_nat modNum) (inited s) i 0 r (fd_map s, e)) as [[m1 e1]|] eqn:E; [|done]. cbn [mbind option_bind]. intros Hrest.
    eapply br_trans; [apply (split_modules_steps (Z.to_nat modNum) i 0 s e m1 e1 w); [lia|lia|done]|].
    change (set_map m' s) with (set_map m' (set_map m1 s)). apply IH; [lia|done].
Qed.

Lemma scan_steps n inx s e w v e' w' : 0 <= inx → inx + Z.of_nat n = modNum → scan_modules get_select_fun_nonblock n inx (fd_map s) e w = Some (v, e', w') →
  (v = TRUE ∧ bruns (BScan inx) e s w BEnd e' s w') ∨
  (v = FALSE ∧ ∃ p1 e1 w1, bruns (BScan inx) e s w p1 e1 s w1 ∧ begin_step x nfds r t errno ok p1 e1 s w1 = Some (BOut (SelDone (-1) r) (select_errno (ready e')), s, w')).
Proof.
  revert inx e w. induction n as [|n IH]; intros inx e w Hx Hn; cbn [scan_modules].
  { intros [= <- <- <-]. left. split; [done|]. econstructor; [|constructor]. cbn [Select.begin_step]. by rewrite (proj2 (Z.ltb_ge inx modNum)) by lia. }
  destruct (aread (cb e) inx) as [c|] eqn:Ec; [|done]. cbn [mbind option_bind]. intros H.
  assert (∀ w1 e1, scan_modules get_select_fun_nonblock n (inx + 1) (fd_map s) e1 w1 = Some (v, e', w') → bruns (BScan inx) e s w (BScan (inx + 1)) e1 s w1 →
    (v = TRUE ∧ bruns (BScan inx) e s w BEnd e' s w') ∨
    (v = FALSE ∧ ∃ p1 e1 w1, bruns (BScan inx) e s w p1 e1 s w1 ∧ begin_step x nfds r t errno ok p1 e1 s w1 = Some (BOut (SelDone (-1) r) (select_errno (ready e')), s, w'))) as Hgo.
  { intros w1 e1 Hs Hr. destruct (IH (inx + 1) e1 w1 ltac:(lia) ltac:(lia) Hs) as [[-> Hb]|(-> & p2 & e2 & w2 & Hb & Hlast)]; [left|right]; (split; [done|]); [by eapply br_trans|].
    exists p2, e2, w2. split; [by eapply br_trans|done]. }
  assert (begin_step x nfds r t errno ok (BScan inx) e s w = match get_select_fun_nonblock inx with
    | Some f => if 0 <? count c then let '((rd, err, a, _), w) := f (count c) (sets c) (0, 0) w in
        Some (if 0 <? rd then BNext (BTake inx a) e else if rd <? 0 then BOut (SelDone (-1) r) err else BNext (BScan (inx + 1)) e, s, w)
        else Some (BNext (BScan (inx + 1)) e, s, w)
    | None => Some (BNext (BScan (inx + 1)) e, s, w) end) as Hstep.
  { cbn [Select.begin_step]. rewrite (proj2 (Z.ltb_lt inx modNum)) by lia. cbn [negb]. by rewrite Ec. }
  destruct (get_select_fun_nonblock inx) as [f|]; [|apply (Hgo w e H); econstructor; [exact Hstep|constructor]].
  destruct (0 <? count c); [|apply (Hgo w e H); econstructor; [exact Hstep|constructor]].
  destruct (f (count c) (sets c) (0, 0) w) as [[[[rd err] a] tv] w1]. destruct (0 <? rd).
  - destruct (entry_module_fdset (fd_map s) e (count c) a inx) as [e1|] eqn:E1; [|done]. cbn [mbind option_bind] in H.
    apply (Hgo w1 e1 H). econstructor; [exact Hstep|]. econstructor; [|constructor]. cbn [Select.begin_step]. rewrite Ec. cbn [mbind option_bind]. by rewrite E1.
  - destruct (rd <? 0); [|apply (Hgo w1 e H); econstructor; [exact Hstep|constructor]]. injection H as <- <- <-. right. split; [done|].
    exists (BScan inx), e, w. split; [constructor|exact Hstep].
Qed.

(** A call with sound arguments that runs alone: its steps lead to the result of the function. *)
Lemma begin_alone s w o errno' s' w' : inited s = true → 0 < nfds <= FD_SETSIZE → (∃ k, is_Some (tget k r)) → negative_time t = false →
  nstack_select_begin modNum fix_mid get_select_fun_nonblock (Some x) ok nfds r t errno s w = Some (o, errno', s', w') →
  ∃ p e s1 w1, bruns (BSplit 0 0) entry0 s w p e s1 w1 ∧ begin_step x nfds r t errno ok p e s1 w1 = Some (BOut o errno', s', w').
Proof.
  intros Hin Hn [k0 Hk0] Ht. unfold nstack_select_begin. rewrite Ht, Hin. destruct (Z.ltb_spec FD_SETSIZE nfds); [lia|]. destruct (Z.ltb_spec nfds 0); [lia|]. cbn [orb negb]. destruct (Z.leb_spec nfds 0); [lia|]. cbn [orb].
  replace (match r with mk_tri None None None => true | _ => false end) with false by (destruct r as [[?|] [?|] [?|]], k0; try done; by destruct Hk0).
  unfold select_cb_split_by_mod. destruct (split_fds modNum fix_mid (Z.to_nat nfds) true 0 r (fd_map s, entry0)) as [[m e]|] eqn:Esp; [|done]. cbn [mbind option_bind].
  rewrite <- Hin in Esp. pose proof (split_fds_steps (Z.to_nat nfds) 0 s entry0 m e w ltac:(lia) Esp) as Hsp.
  destruct (split_info (Z.to_nat modNum) 0 e) as [e1|] eqn:Ei; [|done]. cbn [mbind option_bind]. set (s0 := set_map m s) in *.
  assert (begin_step x nfds r t errno ok BInfo e s0 w = Some (if (set_num e1 <=? 1) && (info_index e1 =? default_mod s0) then BOut SelBase errno else BNext BAlloc e1, s0, w)) as Hinfo by (cbn [Select.begin_step]; by rewrite Ei).
  destruct ((set_num e1 <=? 1) && (info_index e1 =? default_mod s0)).
  { intros [= <- <- <- <-]. exists BInfo, e, s0, w. split; [done|exact Hinfo]. }
  assert (bruns (BSplit 0 0) entry0 s w BAlloc e1 s0 w) as Hb by (eapply br_trans; [exact Hsp|]; econstructor; [exact Hinfo|constructor]).
  assert (∀ e2 w2, bruns BAlloc e1 s0 w BEnd e2 s0 w2 → ∃ p e s1 w1, bruns (BSplit 0 0) entry0 s w p e s1 w1 ∧
    begin_step x nfds r t errno ok p e s1 w1 = begin_step x nfds r t errno ok BEnd e2 s0 w2) as Hend by (intros e2 w2 H2; exists BEnd, e2, s0, w2; split; [by eapply br_trans|done]).
  unfold select_scan. destruct (scan_memory ok) eqn:Emem; cbn [negb].
  - assert (bruns BAlloc e1 s0 w (BScan 0) e1 s0 w) as Ha by (econstructor; [cbn [Select.begin_step]; by rewrite Emem|constructor]).
    destruct (scan_modules get_select_fun_nonblock (Z.to_nat modNum) 0 m e1 w) as [[[v e2] w2]|] eqn:Es; [|done]. cbn [mbind option_bind].
    destruct (scan_steps (Z.to_nat modNum) 0 s0 e1 w v e2 w2 ltac:(lia) ltac:(lia) Es) as [[-> Hs]|(-> & p1 & e3 & w3 & Hs & Hlast)].
    + change (TRUE =? FALSE) with false. cbn iota. destruct (Hend e2 w2) as (p & ex & s1 & w1 & Hr1 & Hr2); [by eapply br_trans|]. intros Hres. exists p, ex, s1, w1. split; [done|]. rewrite Hr2. cbn [Select.begin_step].
      destruct (negb (readyset (ready e2) =? 0) || zero_time t); [by injection Hres as <- <- <- <-|]. destruct (select_add_cb x _) as [s2|]; [|done]. cbn [mbind option_bind] in *.
      destruct t as [t1|]; [destruct (nstack_timeval2msec t1)|]; by injection Hres as <- <- <- <-.
    + change (FALSE =? FALSE) with true. cbn iota. intros [= <- <- <- <-]. exists p1, e3, s0, w3. split; [|done]. eapply br_trans; [exact Hb|]. by eapply br_trans.
  - change (-1 =? FALSE) with false. cbn [mbind option_bind]. change (-1 =? FALSE) with false. cbn iota. destruct (Hend e1 w) as (p & ex & s1 & w1 & Hr1 & Hr2); [econstructor; [cbn [Select.begin_step]; by rewrite Emem|constructor]|].
    intros Hres. exists p, ex, s1, w1. split; [done|]. rewrite Hr2. cbn [Select.begin_step].
    destruct (negb (readyset (ready e1) =? 0) || zero_time t); [by injection Hres as <- <- <- <-|]. destruct (select_add_cb x _) as [s2|]; [|done]. cbn [mbind option_bind] in *.
    destruct t as [t1|]; [destruct (nstack_timeval2msec t1)|]; by injection Hres as <- <- <- <-.
Qed.
End alone.

End begin.
