(* ===== verification/SelectThread.v ===== *)
(** * [select]: callers and the scanning thread, interleaved *)
From S2P Require Import Prelude.
From S2P Require Import Select.
From S2P Require Import SelectProofs.
From S2P Require Import SelectScan.
From S2P Require Import SelectList.
From S2P Require Import SelectBegin.

Section thread.
Context {W : Type} (modNum fix_mid : Z) (get_select_fun_nonblock : Z → option (@select_fun W)).
Hypothesis Hnum : modNum <= NSTACK_MAX_MODULE_NUM.
Hypothesis Hfix : 0 <= fix_mid < modNum.
Hypothesis Hsizes : keeps_sizes get_select_fun_nonblock.

Abbreviation map_ok := (map_ok modNum fix_mid).
Abbreviation route := (route fix_mid).
Abbreviation routable := (routable modNum fix_mid).
Abbreviation keeps := (keeps modNum fix_mid).
Abbreviation splits := (splits fix_mid).
Abbreviation ready_is := (ready_is fix_mid).
Abbreviation places := (kind → Z * Z → Prop).

(** ** The machine *)

(** A waiting call: what it asks for, the places that were reported while it waited, and the error of a module that failed it. *)
Record call := mk_call { c_req : app_sets; c_nfds : Z; c_got : places; c_fail : option Z }.
(** A call that does not wait yet: its arguments, where it is, its entry, and the places reported to it. *)
Record begun := mk_begun { b_req : app_sets; b_nfds : Z; b_time : option timeval; b_errno : Z; b_pc : begin_pc; b_entry : select_entry; b_got : places }.
Record mst := mk_mst { m_sel : select_module_info; m_pc : thread_pc; m_time : timeval; m_world : W; m_calls : gmap Z call; m_begun : gmap Z begun }.

(** An answer that the thread distributes counts for the calls that ask the module. *)
Definition credited (inx n : Z) (a : triple nstack_fd_set) (err : Z) (e : select_entry) (c : call) : call :=
  if 0 <? cnt e inx then
    if n <? 0 then mk_call (c_req c) (c_nfds c) (c_got c) (Some err)
    else mk_call (c_req c) (c_nfds c) (λ k p, c_got c k p ∨ p.1 = inx ∧ 0 <= p.2 < n ∧ bit (tget k a) p.2 = true) (c_fail c)
  else c.
Definition credit (s : select_module_info) (inx n : Z) (a : triple nstack_fd_set) (err : Z) (x : Z) (c : call) : option call :=
  Some match entries s !! x with Some e => credited inx n a err e c | None => c end.
Definition credits (p : thread_pc) (s : select_module_info) (calls : gmap Z call) : gmap Z call :=
  match p with TSet inx n a err => map_imap (credit s inx n a err) calls | _ => calls end.

Definition call_step (ok : Z → bool) (x : Z) (b : begun) (ms : mst) : option (begin_out * select_module_info * W) :=
  begin_step modNum fix_mid get_select_fun_nonblock x (b_nfds b) (b_req b) (b_time b) (b_errno b) ok (b_pc b) (b_entry b) (m_sel ms) (m_world ms).
Definition goes_on (b : begun) (p : begin_pc) (e : select_entry) : begun :=
  mk_begun (b_req b) (b_nfds b) (b_time b) (b_errno b) p e (got_after (b_pc b) (b_entry b) (b_got b)).
Definition waits (o : select_start) (x : Z) (b : begun) (calls : gmap Z call) : gmap Z call :=
  match o with SelWait => <[x := mk_call (b_req b) (b_nfds b) none None]> calls | _ => calls end.

(** A call gets a new entry; a call goes one step further ([ok]: which allocations of its scan succeed); its last step lets it wait or ends it; the socket layer changes the records of a
    descriptor that no call names; the thread goes one step further; a waiting call ends, because it is woken, its time is over or a signal comes. *)
Inductive step : mst → mst → Prop :=
  | step_begin ms x nfds r t errno :
      request modNum fix_mid (m_sel ms) nfds r t → entries (m_sel ms) !! x = None → m_begun ms !! x = None →
      step ms (mk_mst (m_sel ms) (m_pc ms) (m_time ms) (m_world ms) (m_calls ms) (<[x := mk_begun r nfds t errno (BSplit 0 0) entry0 none]> (m_begun ms)))
  | step_call ms x b ok p' e' s' w' :
      m_begun ms !! x = Some b → call_step ok x b ms = Some (BNext p' e', s', w') →
      step ms (mk_mst s' (m_pc ms) (m_time ms) w' (m_calls ms) (<[x := goes_on b p' e']> (m_begun ms)))
  | step_out ms x b ok o errno' s' w' :
      m_begun ms !! x = Some b → call_step ok x b ms = Some (BOut o errno', s', w') →
      step ms (mk_mst s' (m_pc ms) (m_time ms) w' (waits o x b (m_calls ms)) (delete x (m_begun ms)))
  | step_record ms o m' :
      record_pre modNum fix_mid (fd_map (m_sel ms)) o → (∀ x c, m_calls ms !! x = Some c → ¬ asked (c_req c) (c_nfds c) (record_fd o)) →
      (∀ x b, m_begun ms !! x = Some b → ¬ asked (b_req b) (b_nfds b) (record_fd o)) →
      record_run o (fd_map (m_sel ms)) = Some m' →
      step ms (mk_mst (set_map m' (m_sel ms)) (m_pc ms) (m_time ms) (m_world ms) (m_calls ms) (m_begun ms))
  | step_thread ms p' t' s' w' :
      select_thread_step modNum get_select_fun_nonblock (m_pc ms) (m_time ms) (m_sel ms) (m_world ms) = Some (p', t', s', w') →
      step ms (mk_mst s' p' t' w' (credits (m_pc ms) (m_sel ms) (m_calls ms)) (m_begun ms))
  | step_end ms x c t cost errno ret r' t' errno' s' :
      m_calls ms !! x = Some c →
      nstack_select_end x (c_req c) t cost errno (m_sel ms) = Some (ret, r', t', errno', s') →
      step ms (mk_mst s' (m_pc ms) (m_time ms) (m_world ms) (delete x (m_calls ms)) (m_begun ms)).

(** ** The invariant *)

(** The modules whose answers of this round have been distributed are below. *)
Definition seen (p : thread_pc) : Z := match p with TStart => 0 | TGet inx => inx | TSet inx _ _ _ => inx | TPost => modNum end.

Definition failed_with (e : select_entry) (err : Z) : Prop := readyset (ready e) < 0 ∧ select_errno (ready e) = err.

Definition active (m : select_fd_map_inf) (p : thread_pc) (e : select_entry) (c : call) : Prop :=
  c_fail c = None ∧ counts_ok e ∧ ready_is m (c_req c) (asked (c_req c) (c_nfds c)) (c_got c) e ∧
  ∀ k d, asked (c_req c) (c_nfds c) d → req (c_req c) k d = true → c_got c k (route m d) → (route m d).1 < seen p.
Definition failed (p : thread_pc) (e : select_entry) (c : call) : Prop := p = TPost ∧ ∃ err, c_fail c = Some err ∧ failed_with e err.
Definition posted (m : select_fd_map_inf) (e : select_entry) (c : call) : Prop :=
  (∀ y, 0 <= y < modNum → cnt e y = 0) ∧ 0 < sem e ∧
  match c_fail c with Some err => failed_with e err | None => readyset (ready e) ≠ 0 ∧ ready_is m (c_req c) (asked (c_req c) (c_nfds c)) (c_got c) e end.

Record call_inv (m : select_fd_map_inf) (p : thread_pc) (e : select_entry) (c : call) : Prop := {
  ci_routable : ∀ d, asked (c_req c) (c_nfds c) d → routable m d;
  ci_nfds : 0 <= c_nfds c <= FD_SETSIZE;
  ci_splits : splits m (c_req c) (asked (c_req c) (c_nfds c)) e;
  ci_sem : 0 <= sem e;
  ci_state : active m p e c ∨ failed p e c ∨ posted m e c
}.

Definition pc_ok (p : thread_pc) : Prop :=
  match p with TGet inx => 0 <= inx < modNum | TSet inx n a _ => 0 <= inx < modNum ∧ n <= NSTACK_SETSIZE ∧ sizes a | _ => True end.

Record minv (ms : mst) : Prop := {
  mi_map : map_ok (fd_map (m_sel ms));
  mi_inited : inited (m_sel ms) = true;
  mi_list : ∃ l, dll (entries (m_sel ms)) l (entry_head (m_sel ms)) (entry_tail (m_sel ms)) ∧ ∀ x, x ∈ l ↔ is_Some (entries (m_sel ms) !! x);
  mi_dom : ∀ x, is_Some (entries (m_sel ms) !! x) ↔ is_Some (m_calls ms !! x);
  mi_call : ∀ x e c, entries (m_sel ms) !! x = Some e → m_calls ms !! x = Some c → call_inv (fd_map (m_sel ms)) (m_pc ms) e c;
  mi_begun : ∀ x b, m_begun ms !! x = Some b → entries (m_sel ms) !! x = None ∧
    begun_inv modNum fix_mid (fd_map (m_sel ms)) (b_req b) (b_nfds b) (b_time b) (b_pc b) (b_entry b) (b_got b);
  mi_pc : pc_ok (m_pc ms)
}.

Lemma call_inv_map m m' p e c : (∀ d, asked (c_req c) (c_nfds c) d → keeps m m' d) → call_inv m p e c → call_inv m' p e c.
Proof.
  intros Hk [HR Hn Hsp Hsm Hst]. assert (∀ d, asked (c_req c) (c_nfds c) d → route m' d = route m d) as R by (intros d Hd; by apply Hk).
  constructor; [by intros d Hd; apply Hk, HR|done|eapply splits_same; [|exact Hsp]; intros d Hd _; split; [by apply HR|by apply Hk]|done|].
  destruct Hst as [(Hf & Hc & Hri & Hs)|[Hf|(Hz & Hsem & Hp)]]; [left|right; by left|right; right].
  - split; [done|]. split; [done|]. split; [by eapply ready_same|]. intros k d Hd. rewrite R by done. by apply Hs.
  - split; [done|]. split; [done|]. destruct (c_fail c); [done|]. destruct Hp. split; [done|]. by eapply ready_same.
Qed.

(** Links do not matter. *)
Lemma call_inv_body m p e e' c : body e' = body e → call_inv m p e c → call_inv m p e' c.
Proof.
  intros Hb. destruct e as [a b n q s i v], e' as [a' b' n' q' s' i' v']. injection Hb as -> -> -> -> ->. intros [HR Hn [[S1 S2 S3] B L] Hsm Hst].
  constructor; [done|done|by constructor; [constructor|..]|done|]. destruct Hst as [(Hf & [K1 K2 K3] & [R1 R2] & Hs)|[Hf|(Hz & Hsem & Hp)]]; [left|right; by left|right; right].
  - split; [done|]. split; [by constructor|]. split; [by constructor|done].
  - split; [done|]. split; [done|]. destruct (c_fail c); [done|]. destruct Hp as [? [R1 R2]]. split; [done|]. by constructor.
Qed.

Lemma body_lookup (m m' : gmap Z select_entry) x e' : body <$> m' = body <$> m → m' !! x = Some e' → ∃ e, m !! x = Some e ∧ body e' = body e.
Proof.
  intros Hb E. assert ((body <$> m') !! x = Some (body e')) as H by by rewrite lookup_fmap, E. rewrite Hb, lookup_fmap in H. destruct (m !! x) as [e|]; [|done]. exists e. split; [done|]. symmetry. by apply (inj Some).
Qed.

Lemma body_dom (m m' : gmap Z select_entry) x : body <$> m' = body <$> m → is_Some (m' !! x) ↔ is_Some (m !! x).
Proof. intros Hb. rewrite <- (fmap_is_Some body (m' !! x)), <- (fmap_is_Some body (m !! x)), <- !lookup_fmap. by rewrite Hb. Qed.

(** ** Preservation *)

Lemma minv_at ms x e : minv ms → entries (m_sel ms) !! x = Some e → ∃ c, m_calls ms !! x = Some c ∧ call_inv (fd_map (m_sel ms)) (m_pc ms) e c.
Proof. intros Hi E. destruct (proj1 (mi_dom ms Hi x)) as [c Ec]; [eauto|]. exists c. split; [done|]. by eapply mi_call. Qed.

(** The tables change for descriptors that no call names, or not to the callers' eyes. *)
Lemma minv_map ms m' w' bs : minv ms → map_ok m' → (∀ x c, m_calls ms !! x = Some c → ∀ d, asked (c_req c) (c_nfds c) d → keeps (fd_map (m_sel ms)) m' d) →
  (∀ x b, bs !! x = Some b → entries (m_sel ms) !! x = None ∧ begun_inv modNum fix_mid m' (b_req b) (b_nfds b) (b_time b) (b_pc b) (b_entry b) (b_got b)) →
  minv (mk_mst (set_map m' (m_sel ms)) (m_pc ms) (m_time ms) w' (m_calls ms) bs).
Proof.
  intros [H1 H2 H3 H4 H5 H6 H7] Hm Hk Hb. constructor; cbn; [done..| |done|done]. intros x e c Ex Ec. eapply call_inv_map; [by eapply Hk|]. by apply (H5 x).
Qed.

Lemma minv_begin ms x nfds r t errno : minv ms → request modNum fix_mid (m_sel ms) nfds r t → entries (m_sel ms) !! x = None →
  minv (mk_mst (m_sel ms) (m_pc ms) (m_time ms) (m_world ms) (m_calls ms) (<[x := mk_begun r nfds t errno (BSplit 0 0) entry0 none]> (m_begun ms))).
Proof.
  intros [H1 H2 H3 H4 H5 H6 H7] Hq Hx. constructor; cbn; [done..| |done]. intros y b [[<- <-]|[Hne Hb]]%lookup_insert_Some; [|by apply H6]. split; [done|]. cbn.
  by apply (begun_start modNum fix_mid Hfix (m_sel ms)).
Qed.

(** The next step of a call is defined; what it does is what [begin_goes] says. *)
Lemma call_step_run ms ok x b : minv ms → m_begun ms !! x = Some b →
  ∃ o s' w', call_step ok x b ms = Some (o, s', w') ∧
  begin_goes modNum fix_mid get_select_fun_nonblock (m_sel ms) x (b_nfds b) (b_req b) (b_time b) (b_errno b) (b_pc b) (b_entry b) (b_got b) (m_world ms) o s'.
Proof.
  intros Hi Hb. destruct (mi_begun ms Hi x b Hb) as [Hx Hbi]. destruct (mi_list ms Hi) as (l & Hl & Hin).
  apply (begin_step_run modNum fix_mid get_select_fun_nonblock Hnum Hfix Hsizes (m_sel ms) l); [apply Hi|apply Hi|done|rewrite Hin, Hx; by intros [? ?]|done].
Qed.

Lemma minv_call ms x b ok p' e' s' w' : minv ms → m_begun ms !! x = Some b → call_step ok x b ms = Some (BNext p' e', s', w') →
  minv (mk_mst s' (m_pc ms) (m_time ms) w' (m_calls ms) (<[x := goes_on b p' e']> (m_begun ms))).
Proof.
  intros Hi Hb E. destruct (call_step_run ms ok x b Hi Hb) as (o & s1 & w1 & E1 & Hg). rewrite E in E1. injection E1 as <- <- <-. destruct Hg as (m' & -> & Hm & Hk & Hbi).
  apply minv_map; [done|done|intros y c _ d _; apply Hk|]. intros y b' [[<- <-]|[Hne Hy]]%lookup_insert_Some; [split; [by apply (mi_begun ms Hi x b)|done]|].
  destruct (mi_begun ms Hi y b' Hy) as [Hn Hy']. split; [done|]. eapply begun_map; [done..| |exact Hy']. intros c _. apply Hk.
Qed.

Lemma minv_wait ms x b s' : minv ms → m_begun ms !! x = Some b → b_pc b = BEnd → readyset (ready (b_entry b)) = 0 →
  select_add_cb x (set_entries (<[x := b_entry b]> (entries (m_sel ms))) (m_sel ms)) = Some s' →
  ∀ w', minv (mk_mst s' (m_pc ms) (m_time ms) w' (<[x := mk_call (b_req b) (b_nfds b) none None]> (m_calls ms)) (delete x (m_begun ms))).
Proof.
  intros Hi Hb Hp Hz E w'. destruct (mi_begun ms Hi x b Hb) as [Hx Hbi]. rewrite Hp in Hbi. destruct Hbi as [HR Hs Hn Ht Hc Hsem (Hsp & Hri)].
  destruct Hi as [H1 H2 (l & Hl & Hin) H4 H5 H6 H7]. assert (x ∉ l) as Hxl by (rewrite Hin, Hx; by intros [? ?]). set (s0 := set_entries _ (m_sel ms)) in *.
  destruct (add_cb_run s0 l x (b_entry b)) as (s1 & E1 & (Hbd & _ & Hin1 & Hmap1) & _ & Hd1); [|done|cbn; apply lookup_insert_eq|].
  { destruct Hl as [Hnd Hh Htl Hd]. constructor; [done..|]. cbn. by apply dseg_insert. }
  rewrite E in E1. injection E1 as <-. constructor; cbn [m_sel m_calls m_pc m_begun]; rewrite ?Hmap1; [done|by rewrite Hin1| | | | |done].
  - exists (l ++ [x]). split; [done|]. intros y. rewrite (body_dom _ _ y Hbd). cbn. rewrite elem_of_app, list_elem_of_singleton, Hin. destruct (decide (y = x)) as [->|].
    + rewrite lookup_insert_eq. split; [eauto|by right].
    + rewrite lookup_insert_ne by done. split; [by intros [?|?]|by left].
  - intros y. rewrite (body_dom _ _ y Hbd). cbn. destruct (decide (y = x)) as [->|]; [rewrite !lookup_insert_eq; split; eauto|]. rewrite !lookup_insert_ne by done. apply H4.
  - intros y ey c Ey Ec. destruct (body_lookup _ _ y ey Hbd Ey) as (e0 & E0 & Hbe). cbn in E0. eapply call_inv_body; [exact Hbe|]. destruct (decide (y = x)) as [->|].
    + rewrite lookup_insert_eq in E0. rewrite lookup_insert_eq in Ec. injection E0 as <-. injection Ec as <-.
      constructor; cbn; [done|lia|done|by rewrite Hsem|left]. split; [done|]. split; [done|]. split; [|by intros k d _ _ []].
      exact (proj1 (ready_none fix_mid (fd_map (m_sel ms)) (b_req b) (b_nfds b) _ (b_entry b) ltac:(lia) Hri Hz)).
    + rewrite lookup_insert_ne in E0 by done. rewrite lookup_insert_ne in Ec by done. by apply (H5 y).
  - intros y b' [Hne Hy]%lookup_delete_Some. destruct (H6 y b' Hy) as [Hny Hby]. split; [|done]. apply eq_None_not_Some. rewrite (body_dom _ _ y Hbd). cbn.
    rewrite lookup_insert_ne by done. rewrite Hny. by intros [? ?].
Qed.

Lemma minv_out ms x b ok o errno' s' w' : minv ms → m_begun ms !! x = Some b → call_step ok x b ms = Some (BOut o errno', s', w') →
  minv (mk_mst s' (m_pc ms) (m_time ms) w' (waits o x b (m_calls ms)) (delete x (m_begun ms))).
Proof.
  intros Hi Hb E. destruct (call_step_run ms ok x b Hi Hb) as (o1 & s1 & w1 & E1 & Hg). rewrite E in E1. injection E1 as <- <- <-.
  assert (s' = m_sel ms → minv (mk_mst s' (m_pc ms) (m_time ms) w' (m_calls ms) (delete x (m_begun ms)))) as Hsame.
  { intros ->. destruct Hi as [H1 H2 H3 H4 H5 H6 H7]. constructor; cbn; [done..| |done]. intros y b' [_ Hy]%lookup_delete_Some. by apply H6. }
  destruct o as [ret r'| |]; cbn [waits begin_goes] in *; [apply Hsame; tauto|apply Hsame; tauto|]. destruct Hg as (_ & Hp & Hz & Ha). by eapply minv_wait.
Qed.

(** ** The steps of the thread *)

Lemma seen_next inx : 0 <= inx < modNum → seen (thread_next modNum inx) = inx + 1.
Proof. intros Hi. unfold thread_next. destruct (Z.ltb_spec (inx + 1) modNum); cbn; lia. Qed.

Lemma call_inv_seen m p p' e c : seen p <= seen p' → p ≠ TPost → call_inv m p e c → call_inv m p' e c.
Proof.
  intros Hs Hp [HR Hn Hsp Hsm Hst]. constructor; [done..|]. destruct Hst as [(Hf & Hk & Hri & Hsn)|[[? _]|Hpo]]; [left|done|right; by right].
  split; [done|]. split; [done|]. split; [done|]. intros k d Hd Hq HT. specialize (Hsn k d Hd Hq HT). lia.
Qed.

Lemma entry_cnt m p e c y : call_inv m p e c → p ≠ TPost → 0 <= y < modNum → 0 <= cnt e y <= NSTACK_SETSIZE ∧ ∃ b, aread (cb e) y = Some b ∧ cb_shape b ∧ count b = cnt e y.
Proof.
  intros Hc Hp Hy. destruct (shape_cb e y (sp_shape _ _ _ _ _ (ci_splits _ _ _ _ Hc))) as (b & Hb & Hbs); [lia|]. assert (count b = cnt e y) as Eb by (unfold cnt; by rewrite Hb). split; [|by exists b].
  destruct (ci_state _ _ _ _ Hc) as [(_ & Hk & _)|[[? _]|(Hz & _)]]; [apply (co_range e Hk)|done|]. rewrite Hz by done. unfold NSTACK_SETSIZE. lia.
Qed.

(** What the thread collects for module [inx] from the entries in [l]: the largest count, and the union of the sets of the entries that still ask. *)
Definition collects (s : select_module_info) (inx : Z) (l : list Z) (n : Z) (a : triple nstack_fd_set) : Prop :=
  (∀ x e, x ∈ l → entries s !! x = Some e → cnt e inx <= n) ∧ (n = 0 ∨ ∃ x e, x ∈ l ∧ entries s !! x = Some e ∧ cnt e inx = n) ∧
  ∀ k f, bit (tget k a) f = true ↔ ∃ x e, x ∈ l ∧ entries s !! x = Some e ∧ 0 < cnt e inx ∧ cbit e inx k f = true.

Lemma collects_more s inx l n a x e b : collects s inx l n a → sizes a → 0 <= n → entries s !! x = Some e → aread (cb e) inx = Some b → cb_shape b → 0 < count b →
  collects s inx (l ++ [x]) (if n <? count b then count b else n)
    (mk_tri (NSTACK_FD_OR (t_rd a) (t_rd (sets b))) (NSTACK_FD_OR (t_wr a) (t_wr (sets b))) (NSTACK_FD_OR (t_ex a) (t_ex (sets b)))).
Proof.
  intros (H1 & H2 & H3) Ha Hn Ee Eb Hbs Hpos. assert (cnt e inx = count b) as Ecnt by (unfold cnt; by rewrite Eb). split; [|split].
  - intros y ey Hy Ey. apply elem_of_app in Hy as [Hy|Hy%list_elem_of_singleton].
    + specialize (H1 y ey Hy Ey). destruct (Z.ltb_spec n (count b)); lia.
    + subst y. assert (ey = e) as -> by congruence. destruct (Z.ltb_spec n (count b)); lia.
  - destruct (Z.ltb_spec n (count b)).
    + right. exists x, e. split; [set_solver|done].
    + destruct H2 as [?|(y & ey & Hy & Ey & Hc)]; [by left|right]. exists y, ey. split; [set_solver|done].
  - intros k f. assert (bit (tget k (mk_tri (NSTACK_FD_OR (t_rd a) (t_rd (sets b))) (NSTACK_FD_OR (t_wr a) (t_wr (sets b))) (NSTACK_FD_OR (t_ex a) (t_ex (sets b))))) f
      = bit (tget k a) f || bit (tget k (sets b)) f) as ->.
    { assert (length (tget k a) = length (tget k (sets b))) as Hl by (apply Nat2Z.inj; by rewrite Ha, Hbs). destruct k; cbn in *; by apply bit_or. }
    assert (bit (tget k (sets b)) f = cbit e inx k f) as -> by (unfold cbit; by rewrite Eb). rewrite orb_true_iff, H3. split.
    + intros [(y & ey & Hy & ?)|?]; [exists y, ey; split; [set_solver|done]|exists x, e]. split; [set_solver|]. split; [done|]. split; [lia|done].
    + intros (y & ey & [Hy|Hy%list_elem_of_singleton]%elem_of_app & Ey & ? & ?); [left; by exists y, ey|right]. subst y. by assert (ey = e) as -> by congruence.
Qed.

Lemma get_fdset_run ms inx : minv ms → m_pc ms = TGet inx →
  ∃ n a l, select_thread_get_fdset inx (m_sel ms) = Some ((n, a), m_sel ms) ∧ 0 <= n <= NSTACK_SETSIZE ∧ sizes a ∧ (∀ x, x ∈ l ↔ is_Some (entries (m_sel ms) !! x)) ∧ collects (m_sel ms) inx l n a.
Proof.
  intros Hi Hp. pose proof (mi_pc ms Hi) as Hpc. rewrite Hp in Hpc. cbn in Hpc. destruct (mi_list ms Hi) as (l & Hl & Hin).
  destruct (all_entries_run (get_fdset_body inx) (λ don na, 0 <= na.1 <= NSTACK_SETSIZE ∧ sizes na.2 ∧ collects (m_sel ms) inx don na.1 na.2) (λ _ e e', e' = e) (m_sel ms) l (0, no_sets) Hl) as ([n a] & m' & E & (Hn & Ha & Hco) & _ & Hm & Hout).
  - split; [unfold NSTACK_SETSIZE; cbn; lia|]. split; [by intros []|]. split; [by intros x e ?%not_elem_of_nil|]. split; [by left|]. intros k f. cbn.
    split; [|by intros (x & e & ?%not_elem_of_nil & _)]. by destruct k; cbn; rewrite bit_zero.
  - intros don x e [n a] (Hn & Ha & Hco) Ee. cbn in Hn, Ha, Hco. destruct (minv_at ms x e Hi Ee) as (c & _ & Hc). destruct (entry_cnt _ _ e c inx Hc) as (Hr & b & Hb & Hbs & Eb); [by rewrite Hp|done|].
    unfold get_fdset_body. rewrite Hb. cbn [mbind option_bind]. destruct (Z.leb_spec (count b) 0).
    + exists (n, a), e. split; [done|]. split; [done|]. split; [done|]. split; [done|]. split; [done|]. destruct Hco as (H1 & H2 & H3). split; [|split].
      * intros y ey [Hy|Hy%list_elem_of_singleton]%elem_of_app Ey; [by eapply H1|]. subst y. cbn. assert (ey = e) as -> by congruence. lia.
      * destruct H2 as [?|(y & ey & Hy & ?)]; [by left|right]. exists y, ey. split; [set_solver|done].
      * intros k f. rewrite H3. split; [intros (y & ey & Hy & ?); exists y, ey; split; [set_solver|done]|].
        intros (y & ey & [Hy|Hy%list_elem_of_singleton]%elem_of_app & Ey & ? & ?); [by exists y, ey|]. subst y. assert (ey = e) as -> by congruence. lia.
    + eexists _, e. split; [done|]. split; [done|]. split; [done|]. cbn [fst snd]. split; [destruct (Z.ltb_spec n (count b)); lia|]. split; [|apply (collects_more _ _ _ _ _ x e b); try done; lia].
      assert (∀ k, length (tget k a) = length (tget k (sets b))) as Hlk by (intros k; apply Nat2Z.inj; by rewrite Ha, Hbs).
      intros k. pose proof (Ha k) as Hak. pose proof (Hlk k) as Hbk. destruct k; cbn in *; rewrite length_or; done.
  - exists n, a, l. unfold select_thread_get_fdset. rewrite E. split; [|done]. do 2 f_equal. assert (m' = entries (m_sel ms)) as ->; [|by destruct (m_sel ms)]. apply map_eq. intros x.
    destruct (decide (x ∈ l)) as [Hx|]; [|by apply Hout]. destruct (proj1 (Hin x) Hx) as [e Ex]. destruct (Hm x Hx e Ex) as (e' & -> & ->). done.
Qed.

(** The module's answer in one entry. *)
Lemma set_fdset_entry m inx n a err e c : map_ok m → pc_ok (TSet inx n a err) → call_inv m (TSet inx n a err) e c →
  ∃ e', set_fdset_body m n a inx err tt e = Some (tt, e') ∧ (e_next e' = e_next e ∧ e_prev e' = e_prev e) ∧
  call_inv m (if n <? 0 then TPost else thread_next modNum inx) e' (credited inx n a err e c).
Proof.
  intros Hm (Hx & Hn & Ha) Hc. destruct (entry_cnt m _ e c inx Hc) as (Hr & b & Hb & Hbs & Eb); [done|done|]. unfold set_fdset_body, credited. rewrite Hb. cbn [mbind option_bind].
  assert (seen (TSet inx n a err) <= seen (if n <? 0 then TPost else thread_next modNum inx)) as Hseen by (destruct (n <? 0); [cbn; lia|]; rewrite seen_next by done; cbn; lia).
  rewrite <- Eb. destruct (Z.leb_spec (count b) 0) as [H0|H0].
  { destruct (Z.ltb_spec 0 (count b)); [lia|]. exists e. split; [done|]. split; [done|]. by eapply call_inv_seen. }
  destruct (Z.ltb_spec 0 (count b)); [|lia]. destruct Hc as [HR Hnf Hsp Hsm Hst]. destruct Hst as [(Hf & Hk & Hri & Hsn)|[[? _]|(Hz & _)]]; [|done|rewrite Hz in Eb by done; lia].
  destruct (Z.ltb_spec n 0) as [Hneg|Hpos].
  - exists (set_failed n err e). split; [done|]. split; [done|]. constructor; [done|done| |done|right; left; by split; [|exists err]]. apply splits_ready; [done|]. intros k. apply (sh_ready e (sp_shape _ _ _ _ _ Hsp)).
  - cbn [seen] in Hsn.
    assert (ready_is m (c_req c) (asked (c_req c) (c_nfds c)) (λ k p, c_got c k p ∧ p.1 < inx) e) as Hri0.
    { eapply ready_ext; [|exact Hri]. intros k d Hd Hq. split; [intros HT; split; [done|by eapply Hsn]|by intros [? _]]. }
    destruct (module_fdset_run modNum fix_mid Hnum Hfix m (c_req c) (asked (c_req c) (c_nfds c)) ltac:(intros d [? _]; lia) a Ha n e inx _ Hsp Hri0 Hx ltac:(lia) ltac:(intros k f [_ ?]; cbn in *; lia) Hm) as (rd & -> & Hrd & Hri1).
    cbn [mbind option_bind]. exists (set_ready rd e). split; [done|]. split; [done|]. constructor; [done|done|by apply splits_ready|done|left]. rewrite seen_next in Hseen by done. split; [done|]. split; [by destruct Hk; constructor|]. split.
    + cbn. eapply ready_ext; [|exact Hri1]. intros k d Hd Hq. cbn beta. split; [intros [[? _]|?]; tauto|]. intros [HT|?]; [left; split; [done|by eapply Hsn]|by right].
    + cbn. intros k d Hd Hq HT. rewrite seen_next by done. destruct HT as [HT|[-> _]]; [specialize (Hsn k d Hd Hq HT); lia|lia].
Qed.

Lemma clear_counts_run n x cs : Z.of_nat (length cs) = NSTACK_MAX_MODULE_NUM → 0 <= x → x + Z.of_nat n <= NSTACK_MAX_MODULE_NUM →
  ∃ cs', clear_counts n x cs = Some cs' ∧ length cs' = length cs ∧
  ∀ y, aread cs' y = if decide (x <= y < x + Z.of_nat n) then (λ c, mk_cb (sets c) 0 (select_errno c)) <$> aread cs y else aread cs y.
Proof.
  revert x cs. induction n as [|n IH]; intros x cs Hl Hx Hn; cbn [clear_counts]; [exists cs; split; [done|]; split; [done|]; intros y; by rewrite decide_False by lia|].
  destruct (aread_is_Some cs x) as (c & Hc & _); [lia|]. rewrite Hc. cbn [mbind option_bind]. rewrite awrite_Some by lia. cbn [mbind option_bind].
  destruct (IH (x + 1) (<[Z.to_nat x := mk_cb (sets c) 0 (select_errno c)]> cs)) as (cs' & -> & Hl' & Hy); [by rewrite length_insert|lia|lia|].
  exists cs'. split; [done|]. rewrite length_insert in Hl'. split; [done|]. intros y. rewrite Hy, aread_insert by lia. destruct (decide (y = x)) as [->|].
  - rewrite decide_False by lia. rewrite decide_True by lia. by rewrite Hc.
  - destruct (decide (x + 1 <= y < x + 1 + Z.of_nat n)); [rewrite decide_True by lia|rewrite decide_False by lia]; done.
Qed.

Lemma event_post_entry m e c : call_inv m TPost e c →
  ∃ e', event_post_body modNum tt e = Some (tt, e') ∧ (e_next e' = e_next e ∧ e_prev e' = e_prev e) ∧ call_inv m TStart e' c.
Proof.
  intros Hc. pose proof Hc as [HR Hnf Hsp Hsm Hst]. unfold event_post_body. destruct (Z.eqb_spec (readyset (ready e)) 0) as [H0|Hne].
  - exists e. split; [done|]. split; [done|]. constructor; [done..|left]. destruct Hst as [(Hf & Hk & Hri & _)|[(_ & err & _ & ? & _)|(_ & _ & Hp)]]; [|lia|destruct (c_fail c); destruct Hp; lia].
    split; [done|]. split; [done|]. split; [done|]. intros k d Hd Hq HT. exfalso. by eapply (proj2 (ready_none fix_mid m _ _ _ e Hnf Hri H0)).
  - destruct (clear_counts_run (Z.to_nat modNum) 0 (cb e)) as (cs & -> & Hl & Hy); [apply (sh_len e), (sp_shape _ _ _ _ _ Hsp)|lia|lia|]. cbn [mbind option_bind].
    eexists. split; [done|]. split; [done|]. assert (∀ y k f, cbit (set_sem (sem e + 1) (set_cb cs e)) y k f = cbit e y k f) as Hb.
    { intros y k f. unfold cbit. cbn. rewrite Hy. destruct (decide _); [|done]. by destruct (aread (cb e) y). }
    constructor; [done|done| |cbn; lia|right; right].
    + destruct Hsp as [[S1 S2 S3] B L]. constructor; [constructor; cbn; [by rewrite Hl| |done]|intros y k f; by rewrite Hb|done].
      intros y b. rewrite Hy. destruct (decide _); [|apply S2]. destruct (aread (cb e) y) as [b0|] eqn:Eb; [|done]. intros [= <-]. exact (S2 y b0 Eb).
    + split; [|split; [cbn; lia|]].
      * intros y Hyr. unfold cnt. cbn. rewrite Hy, decide_True by lia. by destruct (aread (cb e) y).
      * destruct Hst as [(-> & _ & [R1 R2] & _)|[(_ & err & -> & ?)|(_ & _ & Hp)]]; [split; [done|by constructor]|done|]. destruct (c_fail c); [done|]. destruct Hp as [? [R1 R2]]. split; [done|by constructor].
Qed.

Lemma minv_entries ms (l : list Z) m' p' t' w' calls' : minv ms → dll m' l (entry_head (m_sel ms)) (entry_tail (m_sel ms)) → (∀ x, x ∈ l ↔ is_Some (entries (m_sel ms) !! x)) →
  (∀ x, x ∈ l → ∀ e, entries (m_sel ms) !! x = Some e → ∃ e', m' !! x = Some e' ∧ ∀ c', calls' !! x = Some c' → call_inv (fd_map (m_sel ms)) p' e' c') →
  (∀ x, x ∉ l → m' !! x = entries (m_sel ms) !! x) → (∀ x, is_Some (calls' !! x) ↔ is_Some (m_calls ms !! x)) → pc_ok p' →
  minv (mk_mst (set_entries m' (m_sel ms)) p' t' w' calls' (m_begun ms)).
Proof.
  intros [H1 H2 H3 H4 H5 H6 H7] Hd Hin Hm Hout Hc Hp. assert (∀ x, is_Some (m' !! x) ↔ is_Some (entries (m_sel ms) !! x)) as Hs.
  { intros x. destruct (decide (x ∈ l)) as [Hx|Hx]; [|by rewrite Hout]. destruct (proj1 (Hin x) Hx) as [e E]. destruct (Hm x Hx e E) as (e' & -> & _). rewrite E. split; eauto. }
  constructor; cbn; [done|done| | | | |done].
  - exists l. split; [done|]. intros x. by rewrite Hin, Hs.
  - intros x. by rewrite Hs, Hc.
  - intros x e' c' E' Ec'. assert (x ∈ l) as Hx by (rewrite Hin, <- Hs; eauto). destruct (proj1 (Hin x) Hx) as [e E]. destruct (Hm x Hx e E) as (e'' & E'' & Hci). rewrite E' in E''. injection E'' as ->. by apply Hci.
  - intros x b Hb. destruct (H6 x b Hb) as [Hn Hbi]. split; [|done]. apply eq_None_not_Some. rewrite Hs, Hn. by intros [? ?].
Qed.

Definition can_step (ms : mst) : Prop := m_pc ms = TStart → is_Some (entry_head (m_sel ms)) ∨ 0 < g_sem (m_sel ms).

Lemma minv_pc ms p' t' w' s' : minv ms → m_pc ms ≠ TPost → seen (m_pc ms) <= seen p' → pc_ok p' → entries s' = entries (m_sel ms) → entry_head s' = entry_head (m_sel ms) → entry_tail s' = entry_tail (m_sel ms) →
  inited s' = inited (m_sel ms) → fd_map s' = fd_map (m_sel ms) → minv (mk_mst s' p' t' w' (m_calls ms) (m_begun ms)).
Proof.
  intros [H1 H2 H3 H4 H5 H6 H7] Hp Hs Hok Ee Eh Et Ei Em. constructor; cbn; rewrite ?Ee, ?Eh, ?Et, ?Ei, ?Em; [done..| |done|done]. intros x e c E Ec. eapply call_inv_seen; [exact Hs|done|]. by apply (H5 x).
Qed.

(** The thread has a defined next step unless it waits for the first caller, and the step keeps the invariant. *)
Lemma thread_run ms : minv ms → can_step ms →
  ∃ p' t' s' w', select_thread_step modNum get_select_fun_nonblock (m_pc ms) (m_time ms) (m_sel ms) (m_world ms) = Some (p', t', s', w') ∧
  minv (mk_mst s' p' t' w' (credits (m_pc ms) (m_sel ms) (m_calls ms)) (m_begun ms)).
Proof.
  intros Hi Hcan. pose proof (mi_pc ms Hi) as Hpc. unfold can_step in Hcan. destruct (mi_list ms Hi) as (l & Hl & Hin). unfold select_thread_step. destruct (m_pc ms) as [|inx|inx n a err|] eqn:Hp; cbn [credits].
  - destruct (Z.ltb_spec 0 modNum); [|lia]. destruct (entry_head (m_sel ms)) as [h|] eqn:Eh.
    + do 4 eexists. split; [done|]. apply minv_pc; rewrite ?Hp; cbn; try done; lia.
    + destruct (Hcan eq_refl) as [[? ?]|Hg]; [done|]. rewrite (proj2 (Z.ltb_lt _ _) Hg). do 4 eexists. split; [done|]. apply minv_pc; rewrite ?Hp; cbn; try done; lia.
  - destruct (get_fdset_run ms inx Hi Hp) as (n & a & l' & -> & Hn & Ha & _). cbn [mbind option_bind]. cbn in Hpc.
    assert (∀ t w, minv (mk_mst (m_sel ms) (thread_next modNum inx) t w (m_calls ms) (m_begun ms))) as Hnext.
    { intros t w. apply minv_pc; rewrite ?Hp; try done; [rewrite seen_next by done; cbn; lia|]. unfold thread_next. destruct (Z.ltb_spec (inx + 1) modNum); [cbn; lia|done]. }
    destruct (n <=? 0); [by do 4 eexists|]. destruct (get_select_fun_nonblock inx) as [f|] eqn:Ef; [|by do 4 eexists].
    pose proof (Hsizes inx f n a (m_time ms) (m_world ms) Ef Ha) as Ha'. destruct (f n a (m_time ms) (m_world ms)) as [[[[v err] a'] t'] w']. cbn in Ha'.
    destruct (Z.ltb_spec 0 v); [|destruct (Z.ltb_spec v 0); [|by do 4 eexists]]; (do 4 eexists; split; [done|]; apply minv_pc; rewrite ?Hp; try done; split; [done|]; split; [unfold NSTACK_SETSIZE in *; lia|done]).
  - unfold select_thread_set_fdset.
    destruct (all_entries_run (set_fdset_body (fd_map (m_sel ms)) n a inx err) (λ _ _, True)
      (λ x e e', ∀ c, m_calls ms !! x = Some c → call_inv (fd_map (m_sel ms)) (if n <? 0 then TPost else thread_next modNum inx) e' (credited inx n a err e c)) (m_sel ms) l tt Hl I) as ([] & m' & -> & _ & Hd & Hm & Hout).
    { intros don x e [] _ E. destruct (minv_at ms x e Hi E) as (c & Ec & Hc). rewrite Hp in Hc. destruct (set_fdset_entry _ inx n a err e c (mi_map ms Hi) Hpc Hc) as (e' & -> & Hlk & Hc').
      exists tt, e'. split; [done|]. split; [done|]. split; [|done]. intros c0 Ec0. rewrite Ec in Ec0. by injection Ec0 as <-. }
    cbn [mbind option_bind]. do 4 eexists. split; [done|]. apply (minv_entries ms l); try done.
    + intros x Hx e E. destruct (Hm x Hx e E) as (e' & E' & Hc'). exists e'. split; [done|]. intros c' Ec'.
      rewrite map_lookup_imap in Ec'. destruct (m_calls ms !! x) as [c|]; [|done]. cbn in Ec'. unfold credit in Ec'. rewrite E in Ec'. injection Ec' as <-. by apply Hc'.
    + intros x. rewrite map_lookup_imap. destruct (m_calls ms !! x); cbn; [unfold credit; split; eauto|done].
    + destruct (n <? 0); [done|]. unfold thread_next. destruct Hpc as [Hx _]. destruct (Z.ltb_spec (inx + 1) modNum); [cbn; lia|done].
  - unfold select_event_post.
    destruct (all_entries_run (event_post_body modNum) (λ _ _, True) (λ x e e', ∀ c, m_calls ms !! x = Some c → call_inv (fd_map (m_sel ms)) TStart e' c) (m_sel ms) l tt Hl I) as ([] & m' & -> & _ & Hd & Hm & Hout).
    { intros don x e [] _ E. destruct (minv_at ms x e Hi E) as (c & Ec & Hc). rewrite Hp in Hc. destruct (event_post_entry _ e c Hc) as (e' & -> & Hlk & Hc').
      exists tt, e'. split; [done|]. split; [done|]. split; [|done]. intros c0 Ec0. rewrite Ec in Ec0. by injection Ec0 as <-. }
    cbn [mbind option_bind]. do 4 eexists. split; [done|]. by apply (minv_entries ms l).
Qed.

(** ** The end of a call *)

(** A waiting call that ends: it fails with the error of the module that failed it, or its result is exact. *)
Definition ends_as (m : select_fd_map_inf) (c : call) (errno ret : Z) (r' : app_sets) (errno' : Z) : Prop :=
  match c_fail c with
  | Some err => ret < 0 ∧ errno' = err
  | None => exact_result fix_mid m (c_req c) (c_nfds c) (c_got c) ret r' ∧ errno' = errno
  end.

Lemma call_inv_ends m p e c errno : call_inv m p e c →
  ends_as m c errno (readyset (ready e)) (select_result (c_req c) e) (if readyset (ready e) <? 0 then select_errno (ready e) else errno).
Proof.
  intros Hc. assert (∀ T, ready_is m (c_req c) (asked (c_req c) (c_nfds c)) T e → exact_result fix_mid m (c_req c) (c_nfds c) T (readyset (ready e)) (select_result (c_req c) e) ∧
    (if readyset (ready e) <? 0 then select_errno (ready e) else errno) = errno) as Hex.
  { intros T Hri. split; [apply result_exact; [apply (ci_nfds _ _ _ _ Hc)|done]|]. rewrite (ri_count _ _ _ _ _ _ Hri). pose proof (total_nonneg e). by destruct (Z.ltb_spec (total e) 0); [lia|]. }
  assert (∀ err, failed_with e err → readyset (ready e) < 0 ∧ (if readyset (ready e) <? 0 then select_errno (ready e) else errno) = err) as Hfl.
  { intros err [Hneg He]. split; [done|]. by rewrite (proj2 (Z.ltb_lt _ _)). }
  unfold ends_as. destruct (ci_state _ _ _ _ Hc) as [(-> & _ & Hri & _)|[(_ & err & -> & Hf)|(_ & _ & Hp)]]; [by apply Hex|by apply Hfl|].
  destruct (c_fail c) as [err|]; [by apply Hfl|]. destruct Hp. by apply Hex.
Qed.

Lemma select_end_run ms x c t cost errno : minv ms → m_calls ms !! x = Some c → convertible t →
  ∃ ret r' t' errno' s', nstack_select_end x (c_req c) t cost errno (m_sel ms) = Some (ret, r', t', errno', s') ∧
  minv (mk_mst s' (m_pc ms) (m_time ms) (m_world ms) (delete x (m_calls ms)) (m_begun ms)) ∧ ends_as (fd_map (m_sel ms)) c errno ret r' errno'.
Proof.
  intros Hi Ec Ht. destruct (proj2 (mi_dom ms Hi x)) as [e E]; [eauto|]. pose proof (mi_call ms Hi x e c E Ec) as Hc. destruct (mi_list ms Hi) as (l & Hl & Hin).
  assert (x ∈ l) as Hx by (apply Hin; eauto). apply list_elem_of_split in Hx as (l1 & l2 & ->). destruct (rm_cb_run (m_sel ms) l1 x l2 Hl) as (s1 & E1 & [(Hb & _ & Hi1 & Hm1) _] & Hd).
  assert (∃ e1, entries s1 !! x = Some e1 ∧ body e1 = body e) as (e1 & Ee1 & Hbe).
  { destruct (proj2 (body_dom _ _ x Hb)) as [e1 Ee1]; [eauto|]. destruct (body_lookup _ _ x e1 Hb Ee1) as (e0 & E0 & ?). exists e1. split; [done|]. congruence. }
  unfold nstack_select_end. assert (∃ t', match t with Some t0 => msec ← nstack_timeval2msec t0; Some (Some (select_time_left t0 msec cost)) | None => Some None end = Some t') as (t' & ->).
  { destruct t as [t0|]; [|by eexists]. cbn in Ht. destruct Ht as [v ->]. by eexists. }
  cbn [mbind option_bind]. rewrite E1. cbn [mbind option_bind]. rewrite Ee1. cbn [mbind option_bind]. do 5 eexists. split; [done|]. split; [|by eapply call_inv_ends, call_inv_body].
  assert (x ∉ l1 ++ l2) as Hxl by (pose proof (dl_nodup _ _ _ _ Hl) as Hn; rewrite <- Permutation_middle in Hn; by apply NoDup_cons in Hn as [? _]).
  destruct Hi as [H1 H2 H3 H4 H5 H6 H7]. constructor; cbn; rewrite ?Hi1, ?Hm1; [done|done| | | | |done].
  - exists (l1 ++ l2). split.
    + destruct Hd as [Hn Hh Ht' Hs]. constructor; [done..|]. eapply dseg_same; [exact Hs|]. intros y Hy ey Ey. exists ey. rewrite lookup_delete_ne; [done|]. by intros ->.
    + intros y. destruct (decide (y = x)) as [->|Hyx]; [rewrite lookup_delete_eq; split; [done|by intros [? ?]]|]. rewrite lookup_delete_ne by done. rewrite (body_dom _ _ y Hb), <- Hin. set_solver.
  - intros y. destruct (decide (y = x)) as [->|Hyx]; [rewrite !lookup_delete_eq; done|]. rewrite !lookup_delete_ne by done. rewrite (body_dom _ _ y Hb). apply H4.
  - intros y ey cy [Hyx Ey]%lookup_delete_Some [_ Ecy]%lookup_delete_Some. destruct (body_lookup _ _ y ey Hb Ey) as (e0 & E0 & ?). eapply call_inv_body; [done|]. by apply (H5 y).
  - intros y b Hy. destruct (H6 y b Hy) as [Hn Hbi]. split; [|done]. apply eq_None_not_Some. intros [_ Hs]%lookup_delete_is_Some. apply (body_dom _ _ y Hb) in Hs. rewrite Hn in Hs. by destruct Hs.
Qed.

(** ** Runs *)

Lemma select_step_inv ms ms' : minv ms → step ms ms' → minv ms'.
Proof.
  intros Hi Hs. destruct Hs as [ms x nfds r t errno Hq Hx _|ms x b ok p' e' s' w' Hb E|ms x b ok o errno' s' w' Hb E|ms o m' Hp Hno Hnb E|ms p' t' s' w' E|ms x c t cost errno ret r' t' errno' s' Ec E].
  - by apply minv_begin.
  - by eapply minv_call.
  - by eapply minv_out.
  - destruct (record_ok modNum fix_mid Hnum Hfix _ o (mi_map ms Hi) Hp) as (m & E' & Hm & Hk). rewrite E in E'. injection E' as <-. apply minv_map; [done|done| |].
    + intros x c Ec d Hd. apply Hk. intros ->. by eapply Hno.
    + intros x b Hb. destruct (mi_begun ms Hi x b Hb) as [Hn Hbi]. split; [done|]. eapply begun_map; [done..| |exact Hbi]. intros d Hd. apply Hk. intros ->. by eapply Hnb.
  - destruct (thread_run ms Hi) as (p & t & s & w & E' & Hi'); [|rewrite E in E'; by injection E' as <- <- <- <-].
    intros Hp. rewrite Hp in E. cbn in E. destruct (entry_head (m_sel ms)); [by left; eauto|right]. destruct (Z.ltb_spec 0 (g_sem (m_sel ms))); [done|]. by destruct (0 <? modNum).
  - assert (convertible t) as Ht by (unfold nstack_select_end in E; destruct t as [t0|]; [|done]; cbn; destruct (nstack_timeval2msec t0); [eauto|done]).
    destruct (select_end_run ms x c t cost errno Hi Ec Ht) as (? & ? & ? & ? & ? & E' & Hi' & _). rewrite E in E'. by injection E' as <- <- <- <- <-.
Qed.

Lemma select_run_inv ms ms' : minv ms → rtc step ms ms' → minv ms'.
Proof. intros Hi Hr. induction Hr as [|ms ms' ms'' Hs _ IH]; [done|]. by eapply IH, select_step_inv. Qed.

(** A call that is the only one to move goes through its steps in the machine. *)
Lemma bruns_steps ok x nfds r t errno p e s w p' e' s' w' : bruns modNum fix_mid get_select_fun_nonblock x nfds r t errno ok p e s w p' e' s' w' →
  ∀ pc tv calls bs T, ∃ T', rtc step (mk_mst s pc tv w calls (<[x := mk_begun r nfds t errno p e T]> bs)) (mk_mst s' pc tv w' calls (<[x := mk_begun r nfds t errno p' e' T']> bs)).
Proof.
  induction 1 as [|p e s w p1 e1 s1 w1 p' e' s' w' E _ IH]; intros pc tv calls bs T; [by exists T|].
  destruct (IH pc tv calls bs (got_after p e T)) as (T' & Hr). exists T'. eapply rtc_l; [|exact Hr].
  pose proof (step_call (mk_mst s pc tv w calls (<[x := mk_begun r nfds t errno p e T]> bs)) x _ ok p1 e1 s1 w1 (lookup_insert_eq _ _ _) E) as Hs. cbn in Hs. by rewrite insert_insert_eq in Hs.
Qed.

(** A call that is the only one to move ends, or waits, as [nstack_select_begin] says. *)
Lemma alone_steps ok x nfds r t errno o errno' s' w' ms : minv ms → request modNum fix_mid (m_sel ms) nfds r t → entries (m_sel ms) !! x = None → m_begun ms !! x = None →
  nstack_select_begin modNum fix_mid get_select_fun_nonblock (Some x) ok nfds r t errno (m_sel ms) (m_world ms) = Some (o, errno', s', w') →
  ∃ b, b_req b = r ∧ b_nfds b = nfds ∧ rtc step ms (mk_mst s' (m_pc ms) (m_time ms) w' (waits o x b (m_calls ms)) (m_begun ms)).
Proof.
  intros Hi Hq Hx Hb E. pose proof Hq as [_ Hin _ _ Hn Hk [Hneg _]]. destruct (begin_alone modNum fix_mid get_select_fun_nonblock Hfix x nfds r t errno ok _ _ _ _ _ _ Hin Hn Hk Hneg E) as (p & e & s1 & w1 & Hr & Hlast).
  destruct (bruns_steps ok x nfds r t errno _ _ _ _ _ _ _ _ Hr (m_pc ms) (m_time ms) (m_calls ms) (m_begun ms) none) as (T & Hs).
  exists (mk_begun r nfds t errno p e T). split; [done|]. split; [done|]. eapply rtc_l; [by eapply step_begin|]. eapply rtc_r; [exact Hs|].
  pose proof (step_out (mk_mst s1 (m_pc ms) (m_time ms) w1 (m_calls ms) (<[x := mk_begun r nfds t errno p e T]> (m_begun ms))) x _ ok o errno' s' w' (lookup_insert_eq _ _ _) Hlast) as Ho. cbn in Ho.
  by rewrite delete_insert_id in Ho.
Qed.

End thread.
