(* ===== verification/SelectProps.v ===== *)
(** * [select]: creation of the tables, and the results *)
From S2P Require Import Prelude.
From S2P Require Import Select.
From S2P Require Import SelectProofs.
From S2P Require Import SelectScan.
From S2P Require Import SelectList.
From S2P Require Import SelectBegin.
From S2P Require Import SelectThread.

(** ** [fdmapping_init] *)

Section init.
Context (modNum fix_mid : Z) (malloc_ok : Z → bool).
Hypothesis Hnum : modNum <= NSTACK_MAX_MODULE_NUM.
Hypothesis Hfix : 0 <= fix_mid < modNum.
Hypothesis Hmalloc : ∀ i, malloc_ok i = true.

Lemma reset_mod_fd_run n i f : 0 <= i → i + Z.of_nat n <= Z.of_nat (length f) → ∃ f', reset_mod_fd n i f = Some f' ∧ length f' = length f ∧ ∀ y, aread f' y = if decide (i <= y < i + Z.of_nat n) then Some (-1) else aread f y.
Proof.
  revert i f. induction n as [|n IH]; intros i f Hi Hn; cbn [reset_mod_fd]; [exists f; split; [done|]; split; [done|]; intros y; by rewrite decide_False by lia|].
  rewrite awrite_Some by lia. cbn [mbind option_bind]. destruct (IH (i + 1) (<[Z.to_nat i := -1]> f)) as (f' & -> & Hl & Hy); [lia|rewrite length_insert; lia|].
  exists f'. split; [done|]. rewrite length_insert in Hl. split; [done|]. intros y. rewrite Hy, aread_insert by lia. destruct (decide (y = i)) as [->|].
  - rewrite decide_False by lia. by rewrite decide_True by lia.
  - destruct (decide (i + 1 <= y < i + 1 + Z.of_nat n)); [rewrite decide_True by lia|rewrite decide_False by lia]; done.
Qed.

Lemma reset_fdinf_run m i : map_shape modNum m → 0 <= i < NSTACK_SELECT_MAX_FD →
  ∃ m', reset_select_fdinf m i = Some m' ∧ map_shape modNum m' ∧ (∀ j y, modfd m' j y = if decide (j = i) then -1 else modfd m j y) ∧ (∀ j, idx m' j = if decide (j = i) then -1 else idx m j) ∧ (∀ y f, comm m' y f = comm m y f).
Proof.
  intros Hm Hi. pose proof Hm as [(l & El & Hl & Hf) _ _]. destruct (comm_row l i Hl Hf Hi) as (c & Hc & Hlc).
  destruct (reset_mod_fd_run (Z.to_nat NSTACK_MAX_MODULE_NUM) 0 (mod_fd c)) as (f' & Ef & Hlf & Hy); [lia|lia|].
  destruct (row_write modNum m l i c (mk_comm f' (-1)) Hm El Hi Hc) as (Ew & Hm' & H1 & H2 & H3); [cbn; lia|].
  unfold reset_select_fdinf. destruct (range_spec i); [|lia]. cbn [negb]. rewrite El. cbn [the mbind option_bind]. rewrite Hc. cbn [mbind option_bind]. rewrite Ef. cbn [mbind option_bind]. rewrite Ew. cbn [mbind option_bind].
  eexists. split; [done|]. split; [done|]. split; [|done]. intros j y. destruct (Z.lt_ge_cases y 0) as [Hy0|Hy0].
  - unfold modfd, select_get_modfd. destruct (negb (select_range j)); [by destruct (decide (j = i))|]. destruct (Z.ltb_spec y 0); [by destruct (decide (j = i))|lia].
  - rewrite H1 by done. destruct (decide (j = i)); [|done]. cbn [mod_fd]. rewrite Hy. destruct (decide _) as [|Hn]; [done|]. unfold aread. destruct (0 <=? y); [|done]. rewrite lookup_ge_None_2; [done|]. lia.
Qed.

Lemma reset_all_run n i m : map_shape modNum m → 0 <= i → i + Z.of_nat n = NSTACK_SELECT_MAX_FD → (∀ j, 0 <= j < i → (∀ y, modfd m j y = -1) ∧ idx m j = -1) →
  ∃ m', reset_all n i m = Some m' ∧ map_shape modNum m' ∧ (∀ j y, modfd m' j y = -1) ∧ (∀ j, idx m' j = -1).
Proof.
  revert i m. induction n as [|n IH]; intros i m Hm Hi Hn Hd; cbn [reset_all].
  - exists m. split; [done|]. split; [done|]. assert (∀ j, (∀ y, modfd m j y = -1) ∧ idx m j = -1) as H; [|by split; intros; apply H]. intros j. destruct (range_spec j) as [Hj|Hj]; [apply Hd; lia|].
    unfold modfd, idx, select_get_modfd, select_get_modindex. destruct (range_spec j); [done|]. done.
  - destruct (reset_fdinf_run m i Hm) as (m1 & -> & Hm1 & M1 & I1 & _); [lia|]. cbn [mbind option_bind]. apply IH; [done|lia|lia|]. intros j Hj. destruct (decide (j = i)) as [->|].
    + split; [intros y; by rewrite M1, decide_True|by rewrite I1, decide_True].
    + destruct (Hd j) as [Hd1 Hd2]; [lia|]. split; [intros y; by rewrite M1, decide_False|by rewrite I1, decide_False].
Qed.

(** The tables of the modules do not matter for the rows. *)
Definition rows_cleared (m : select_fd_map_inf) : Prop := map_shape modNum m ∧ (∀ j y, modfd m j y = -1) ∧ ∀ j, idx m j = -1.

Lemma reset_comm_run n i x m : rows_cleared m → 0 <= x < modNum → 0 <= i → i + Z.of_nat n <= NSTACK_SELECT_MAX_FD → ∃ m', reset_comm n i x m = Some m' ∧ rows_cleared m'.
Proof.
  revert i m. induction n as [|n IH]; intros i m (Hm & HM & HI) Hx Hi Hn; cbn [reset_comm]; [by exists m|].
  destruct (set_commfd_run modNum m i x (-1) Hnum Hm) as (m1 & -> & Hm1 & M1 & I1 & _); [lia|done|]. cbn [mbind option_bind]. apply IH; [|done|lia|lia]. split; [done|]. split; [intros j y; by rewrite M1|intros j; by rewrite I1].
Qed.

Lemma reset_comms_run n x m : rows_cleared m → 0 <= x → x + Z.of_nat n <= modNum → ∃ m', reset_comms n x m = Some m' ∧ rows_cleared m'.
Proof.
  revert x m. induction n as [|n IH]; intros x m Hm Hx Hn; cbn [reset_comms]; [by exists m|].
  destruct (reset_comm_run (Z.to_nat NSTACK_SELECT_MAX_FD) 0 x m Hm) as (m1 & -> & Hm1); [lia|lia|by rewrite Z2Nat.id|]. cbn [mbind option_bind]. apply IH; [done|lia|lia].
Qed.

Lemma alloc_comm_run n i ms : Z.of_nat (length ms) = NSTACK_MAX_MODULE_NUM → 0 <= i → i + Z.of_nat n <= NSTACK_MAX_MODULE_NUM →
  ∃ ms', alloc_comm malloc_ok n i ms = Some (true, ms') ∧ length ms' = length ms ∧ ∀ y, aread ms' y = if decide (i <= y < i + Z.of_nat n) then Some (Mem (replicate (Z.to_nat NSTACK_SELECT_MAX_FD) 0)) else aread ms y.
Proof.
  revert i ms. induction n as [|n IH]; intros i ms Hl Hi Hn; cbn [alloc_comm]; [exists ms; split; [done|]; split; [done|]; intros y; by rewrite decide_False by lia|].
  assert (∀ A (a : A) c, select_alloc malloc_ok c (4 * NSTACK_SELECT_MAX_FD) a = Mem a) as Ha by (intros; unfold select_alloc; by rewrite Hmalloc).
  rewrite Ha. rewrite awrite_Some by lia. cbn [mbind option_bind]. set (z := Mem (replicate (Z.to_nat NSTACK_SELECT_MAX_FD) 0)) in *. clearbody z. destruct (IH (i + 1) (<[Z.to_nat i := z]> ms)) as (ms' & E & Hl' & Hy); [by rewrite length_insert|lia|lia|].
  exists ms'. rewrite length_insert in Hl'. split; [done|]. split; [done|]. intros y. rewrite Hy, aread_insert by lia. destruct (decide (y = i)) as [->|].
  - rewrite decide_False by lia. by rewrite decide_True by lia.
  - destruct (decide (i + 1 <= y < i + 1 + Z.of_nat n)); [rewrite decide_True by lia|rewrite decide_False by lia]; done.
Qed.


Lemma fdmapping_from N rows m : Z.of_nat N = NSTACK_SELECT_MAX_FD → table rows → Forall (λ c, Z.of_nat (length (mod_fd c)) = NSTACK_MAX_MODULE_NUM) rows → Z.of_nat (length (modinf m)) = NSTACK_MAX_MODULE_NUM →
  ∃ m', ('(ok, ms) ← alloc_comm malloc_ok (Z.to_nat modNum) 0 (modinf m);
    let m := mk_map (Mem rows) ms in
    if negb ok then mapping_fail modNum m
    else m ← reset_all N 0 m; m ← reset_comms (Z.to_nat modNum) 0 m; Some (TRUE, m)) = Some (TRUE, m') ∧ map_ok modNum fix_mid m' ∧ rows_cleared m'.
Proof.
  intros HN Hr1 Hr2 Hl.
  destruct (alloc_comm_run (Z.to_nat modNum) 0 (modinf m) Hl) as (ms & -> & Hlms & Hms); [lia|lia|]. cbn [mbind option_bind negb].
  assert (map_shape modNum (mk_map (Mem rows) ms)) as Hs.
  { constructor; cbn; [by exists rows|lia|]. intros x Hx. rewrite Hms, decide_True by lia. eexists. split; [done|]. unfold table. rewrite length_replicate. by rewrite Z2Nat.id. }
  destruct (reset_all_run N 0 _ Hs) as (m1 & -> & Hm1 & M1 & I1); [lia|lia|intros; lia|]. cbn [mbind option_bind].
  destruct (reset_comms_run (Z.to_nat modNum) 0 m1) as (m2 & -> & Hm2 & M2 & I2); [done|lia|lia|]. cbn [mbind option_bind]. exists m2. split; [done|]. split; [|done].
  constructor; [done|..]; [intros i x; rewrite M2; done|intros i; left; apply M2|intros i x _ _; by rewrite M2].
Qed.

Lemma select_alloc_ok {A} c size (z : A) : 0 < size → select_alloc malloc_ok c size z = Mem z.
Proof. intros Hs. unfold select_alloc. rewrite Hmalloc. by destruct (Z.leb_spec size 0); [lia|]. Qed.

Lemma fdmapping_run m : Z.of_nat (length (modinf m)) = NSTACK_MAX_MODULE_NUM → ∃ m', fdmapping_init modNum malloc_ok m = Some (TRUE, m') ∧ map_ok modNum fix_mid m' ∧ rows_cleared m'.
Proof.
  intros Hl. unfold fdmapping_init. rewrite select_alloc_ok by done. apply (fdmapping_from _ _ m); [by rewrite Z2Nat.id| |by apply Forall_replicate|done].
  unfold table. rewrite length_replicate. by rewrite Z2Nat.id.
Qed.

End init.

(** ** Results *)

Section results.
Context {W : Type} (modNum fix_mid : Z) (get_select_fun_nonblock : Z → option (@select_fun W)).

(** C6: What a call of [select] with sound arguments reports without waiting, when nothing else runs.  Every module is asked for exactly the descriptors that are routed to it.  If these are all of the default module the
    call is left to the system.  Otherwise, when a module fails the call fails with its [errno] and leaves the sets alone; else the result is the number of descriptors in the new sets, and these hold exactly the requested
    descriptors that their module has reported; the call returns at once if there are any or if it may not wait, and else its entry is put into the list and it waits.  A scan that cannot have its memory counts as one in
    which no module has reported anything. *)
Theorem select_poll_exact s nfds r t x errno ok w : modNum <= NSTACK_MAX_MODULE_NUM → 0 <= fix_mid < modNum → keeps_sizes get_select_fun_nonblock → request modNum fix_mid s nfds r t →
  ∃ m' e, select_cb_split_by_mod modNum fix_mid true nfds r (fd_map s) entry0 = Some (m', e) ∧ map_ok modNum fix_mid m' ∧
  (∀ y k f, cbit e y k f = true ↔ ∃ c, asked r nfds c ∧ req r k c = true ∧ route fix_mid (fd_map s) c = (y, f)) ∧
  let run := nstack_select_begin modNum fix_mid get_select_fun_nonblock (Some x) ok nfds r t errno s w in
  (all_of fix_mid (fd_map s) r nfds (default_mod s) ∧ run = Some (SelBase, errno, set_map m' s, w)) ∨
  (¬ all_of fix_mid (fd_map s) r nfds (default_mod s) ∧
   let '(R, o, w') := scan_answers modNum get_select_fun_nonblock ok e w in
   match o with
   | Some (_, err) => run = Some (SelDone (-1) r, err, set_map m' s, w')
   | None => ∃ ret r', exact_result fix_mid (fd_map s) r nfds (λ k p, R k p.1 p.2 = true) ret r' ∧
       if negb (ret =? 0) || zero_time t then run = Some (SelDone ret r', errno, set_map m' s, w')
       else ∃ e', run = s1 ← select_add_cb x (set_entries (<[x := e']> (entries s)) (set_map m' s)); Some (SelWait, errno, s1, w')
   end).
Proof.
  intros Hnum Hfix Hsz Hq. destruct (select_begin_run modNum fix_mid get_select_fun_nonblock Hnum Hfix Hsz s nfds r t x errno ok w Hq) as (m' & e & Es & He & Hbase & Hrun). exists m', e.
  assert (∀ c, route fix_mid m' c = route fix_mid (fd_map s) c) as R by (intros c; apply (se_routes _ _ _ _ _ _ _ He c)).
  assert (all_of fix_mid m' r nfds (default_mod s) ↔ all_of fix_mid (fd_map s) r nfds (default_mod s)) as Hall by (unfold all_of; by setoid_rewrite R). rewrite Hall in Hbase.
  split; [done|]. split; [apply He|]. split; [intros y k f; rewrite (sp_bits _ _ _ _ _ (se_splits _ _ _ _ _ _ _ He)); by setoid_rewrite R|]. cbv zeta in Hrun |- *.
  destruct ((set_num e <=? 1) && (info_index e =? default_mod s)); [left; split; [by apply Hbase|done]|right]. split; [intros Ha%Hbase; done|].
  destruct (scan_answers modNum get_select_fun_nonblock ok e w) as [[Rp [[v err]|]] w']; [done|].
  destruct Hrun as (rd & Hrd & Hri & Hrun). pose proof (rq_nfds _ _ _ _ _ _ Hq).
  exists (readyset rd), (select_result r (set_ready rd e)). split.
  - apply (result_exact fix_mid (fd_map s) r nfds _ (set_ready rd e)); [lia|]. eapply ready_same; [|exact Hri]. intros c _. symmetry. apply R.
  - destruct (negb (readyset rd =? 0) || zero_time t); [done|]. by exists (set_ready rd e).
Qed.

Lemma init_minv malloc_ok s s0 t0 (w0 : W) : modNum <= NSTACK_MAX_MODULE_NUM → 0 <= fix_mid < modNum → (∀ i, malloc_ok i = true) → entries s = ∅ →
  Z.of_nat (length (modinf (fd_map s))) = NSTACK_MAX_MODULE_NUM → select_module_init modNum fix_mid malloc_ok true s = Some (TRUE, s0) →
  minv modNum fix_mid (mk_mst s0 TStart t0 w0 ∅ ∅) ∧ rows_cleared modNum (fd_map s0) ∧ entries s0 = ∅ ∧ entry_head s0 = None ∧ default_mod s0 = fix_mid.
Proof.
  intros Hnum Hfix Hma He Hl Hinit. unfold select_module_init in Hinit.
  destruct (fdmapping_run modNum fix_mid malloc_ok Hnum Hfix Hma (fd_map s) Hl) as (m & Em & Hm & Hrows). rewrite Em in Hinit. cbn in Hinit. injection Hinit as <-.
  split; [|split; [exact Hrows|done]].
  constructor; cbn; [done|done| |intros x; rewrite He, !lookup_empty; done|by intros x e c _ ?%lookup_empty_Some|by intros x b ?%lookup_empty_Some|done].
  exists []. split; [constructor; [constructor|done..]|]. intros x. rewrite He, lookup_empty. split; [by intros ?%not_elem_of_nil|by intros [? ?]].
Qed.

(** C3: Callers and the scanning thread.  From the state that [select_module_init] creates when its allocations succeed, in every interleaving of the steps of calls of [select] (with sound arguments and times that are a
    number of milliseconds; one module for one descriptor, one answer of a module or one critical section at a time), of changes to the records of descriptors that no call names, and of the steps of the thread: the thread
    and the calls never do anything undefined; a call that does not wait is left to the system, if everything it asks for belongs to the default module, fails with the error of a module that fails, or returns the number
    of descriptors in its sets, which hold exactly the requested ones that were reported to it; a waiting call can end at any time, and fails with the error of the module if one has failed while it was asked for this
    call, or returns the exact number and sets of what was reported while it waited; and whenever the thread begins a new round, every call that something was reported to or that a module has failed has been woken.  The
    modules keep the sizes of the sets they are given. *)
Theorem select_callers_served malloc_ok s s0 t0 w0 ms : modNum <= NSTACK_MAX_MODULE_NUM → 0 <= fix_mid < modNum → keeps_sizes get_select_fun_nonblock →
  (∀ i, malloc_ok i = true) → entries s = ∅ → Z.of_nat (length (modinf (fd_map s))) = NSTACK_MAX_MODULE_NUM → select_module_init modNum fix_mid malloc_ok true s = Some (TRUE, s0) →
  rtc (step modNum fix_mid get_select_fun_nonblock) (mk_mst s0 TStart t0 w0 ∅ ∅) ms →
  let m := fd_map (m_sel ms) in
  (can_step ms → is_Some (select_thread_step modNum get_select_fun_nonblock (m_pc ms) (m_time ms) (m_sel ms) (m_world ms))) ∧
  (∀ x b ok, m_begun ms !! x = Some b → ∃ o s' w', call_step modNum fix_mid get_select_fun_nonblock ok x b ms = Some (o, s', w') ∧
    match o with
    | BOut SelBase errno' => errno' = b_errno b ∧ all_of fix_mid m (b_req b) (b_nfds b) (default_mod (m_sel ms))
    | BOut (SelDone ret r') errno' =>
        (ret = -1 ∧ r' = b_req b ∧ module_fails get_select_fun_nonblock (b_pc b) (b_entry b) (m_world ms) errno') ∨
        (exact_result fix_mid m (b_req b) (b_nfds b) (b_got b) ret r' ∧ errno' = b_errno b)
    | _ => True
    end) ∧
  (∀ x c t cost errno, m_calls ms !! x = Some c → convertible t →
    ∃ ret r' t' errno' s', nstack_select_end x (c_req c) t cost errno (m_sel ms) = Some (ret, r', t', errno', s') ∧ ends_as fix_mid m c errno ret r' errno') ∧
  (m_pc ms = TStart → ∀ x c, m_calls ms !! x = Some c →
    is_Some (c_fail c) ∨ (∃ k d, asked (c_req c) (c_nfds c) d ∧ req (c_req c) k d = true ∧ c_got c k (route fix_mid m d)) →
    ∃ e, entries (m_sel ms) !! x = Some e ∧ 0 < sem e).
Proof.
  intros Hnum Hfix Hsz Hma He Hl Hinit Hrun m. subst m. destruct (init_minv malloc_ok s s0 t0 w0 Hnum Hfix Hma He Hl Hinit) as [Hi0 _].
  pose proof (select_run_inv modNum fix_mid get_select_fun_nonblock Hnum Hfix Hsz _ _ Hi0 Hrun) as Hi. split; [|split; [|split]].
  - intros Hc. destruct (thread_run modNum fix_mid get_select_fun_nonblock Hnum Hfix Hsz ms Hi Hc) as (p' & t' & s' & w' & -> & _). eauto.
  - intros x b ok Hb. destruct (call_step_run modNum fix_mid get_select_fun_nonblock Hnum Hfix Hsz ms ok x b Hi Hb) as (o & s' & w' & E & Hg). exists o, s', w'. split; [done|].
    destruct o as [|[ret r'| |] errno']; cbn in Hg; tauto.
  - intros x c t cost errno Ec Ht. destruct (select_end_run modNum fix_mid get_select_fun_nonblock Hnum Hfix Hsz ms x c t cost errno Hi Ec Ht) as (ret & r' & t' & errno' & s' & E & _ & Hr). by exists ret, r', t', errno', s'.
  - intros Hp x c Ec Hgot. destruct (proj2 (mi_dom _ _ ms Hi x)) as [e E]; [eauto|]. exists e. split; [done|]. pose proof (mi_call _ _ ms Hi x e c E Ec) as Hc. rewrite Hp in Hc.
    destruct (ci_state _ _ _ _ _ _ Hc) as [(Hf & _ & _ & Hs)|[[? _]|(_ & ? & _)]]; [|done|done]. exfalso. destruct Hgot as [[err Herr]|(k & d & Hd & Hq & HT)]; [congruence|]. specialize (Hs k d Hd Hq HT). cbn in Hs.
    pose proof (route_nonneg modNum fix_mid Hfix (fd_map (m_sel ms)) d). lia.
Qed.

(** C39: A call that would wait, but whose time is too large to be a number of milliseconds, fails with [EINVAL] and frees its entry while the entry stays in the list of the thread, which then reads freed memory. *)
Theorem select_frees_listed_entry ok x nfds r t errno errno' s s1 w w1 : negative_time (Some t) = false → nstack_timeval2msec t = None →
  nstack_select_begin modNum fix_mid get_select_fun_nonblock (Some x) ok nfds r None errno s w = Some (SelWait, errno', s1, w1) →
  ∃ s2, nstack_select_begin modNum fix_mid get_select_fun_nonblock (Some x) ok nfds r (Some t) errno s w = Some (SelDone (-1) r, EINVAL, s2, w1) ∧
  entry_tail s2 = Some x ∧ entries s2 !! x = None.
Proof.
  intros Hneg Hms. unfold nstack_select_begin. rewrite Hneg. assert (zero_time (Some t) = false) as Hz. { destruct t as [sec usec]. cbn. destruct (Z.eqb_spec sec 0) as [->|]; [|done]. destruct (Z.eqb_spec usec 0) as [->|]; [|done]. by vm_compute in Hms. }
  rewrite Hz, Hms. cbn [negative_time zero_time orb]. destruct ((FD_SETSIZE <? nfds) || (nfds <? 0) || false) eqn:Hn; cbn [mbind option_bind]; [done|].
  destruct (negb (inited s)); [done|]. destruct ((nfds <=? 0) || _); [done|]. destruct (select_cb_split_by_mod _ _ _ _ _ _ _) as [[m e]|]; [|done]. cbn [mbind option_bind].
  destruct ((set_num e <=? 1) && _); [done|]. destruct (select_scan _ _ _ _ _ _) as [[[v e'] w']|]; [|done]. cbn [mbind option_bind]. destruct (v =? FALSE); [done|].
  destruct (negb (readyset (ready e') =? 0) || false); [done|]. destruct (select_add_cb x _) as [s'|] eqn:Ea; [|done]. cbn [mbind option_bind]. intros [= <- <- <-].
  eexists. split; [done|]. split; [|apply lookup_delete_eq]. cbn. by eapply add_cb_tail.
Qed.

End results.

(** ** Examples *)

Module Demo.

(** Every module answers that all descriptors it is asked for are ready, or that none is; or it has none the first time it is asked and all from then on. *)
Definition all_ready : Z → option (@select_fun unit) := λ _, Some (λ n t tv w, ((1, 0, t, tv), w)).
Definition none_ready : Z → option (@select_fun unit) := λ _, Some (λ n t tv w, ((0, 0, t, tv), w)).
Definition late : Z → option (@select_fun bool) := λ _, Some (λ n t tv (w : bool), ((if w then 1 else 0, 0, t, tv), true)).
Definition blank : select_fd_map_inf := mk_map Null (replicate 8 Null).
Definition wish : app_sets := mk_tri (Some (8 :: replicate 127 0)) None None.

Lemma all_ready_sizes : keeps_sizes all_ready.
Proof. intros x f n t tv w [= <-] Ht. done. Qed.
Lemma late_sizes : keeps_sizes late.
Proof. intros x f n t tv w [= <-] Ht. done. Qed.

Definition with_map (m : select_fd_map_inf) : select_module_info := mk_sel ∅ None None 0 true 0 m.

(** Descriptor 1 is descriptor 0 of module 1. *)
Definition small : select_fd_map_inf := mk_map (Mem [mk_comm [-1; -1] (-1); mk_comm [1; 0] 1]) [Mem [-1; 1]; Mem [1; -1]].
Definition want1 : app_sets := mk_tri (Some (2 :: replicate 127 0)) None None.

(** The call names descriptor 3. *)
Lemma wish_asked c : asked wish 4 c ↔ c = 3.
Proof.
  split; [|by intros ->]. intros [Hc Hq]. assert (c = 0 ∨ c = 1 ∨ c = 2 ∨ c = 3) as [->|[->|[->| ->]]] by lia; done.
Qed.

(** Descriptor 3 is descriptor 7 of module 1. *)
Definition bound (m : select_fd_map_inf) : Prop := map_ok 2 0 m ∧ idx m 3 = 1 ∧ modfd m 3 0 = 3 ∧ modfd m 3 1 = 7.

Lemma bound_route m : bound m → route 0 m 3 = (1, 7).
Proof. intros (_ & Hi & _ & Hf). unfold route. by rewrite Hi, Hf. Qed.
Lemma bound_request m t : bound m → negative_time t = false → convertible t → request 2 0 (with_map m) 4 wish t.
Proof.
  intros (Hm & Hi & H0 & H1) Ht Hc. constructor; [done|done| | |done|by exists Rd; eexists|done].
  - intros c ->%wish_asked _. cbn [fd_map with_map]. rewrite Hi, H0, H1. done.
  - intros [] p; cbn; [intros [= <-]; done|done|done].
Qed.

Lemma records_bound {W} (F : Z → option (@select_fun W)) s pc tv w : map_ok 2 0 (fd_map s) → rows_cleared 2 (fd_map s) →
  ∃ m, bound m ∧ rtc (step 2 0 F) (mk_mst s pc tv w ∅ ∅) (mk_mst (set_map m s) pc tv w ∅ ∅).
Proof.
  intros Hm (_ & HM & HI).
  destruct (create_ok 2 0 ltac:(done) ltac:(lia) (fd_map s) 3 3 0 Hm ltac:(done) ltac:(done) ltac:(lia) eq_refl) as (m1 & E1 & Hm1 & M1 & I1 & _).
  assert (∀ j, modfd m1 j 1 = -1) as Hfree by (intros j; rewrite M1, decide_False by (by intros [_ ?]); apply HM).
  destruct (create_ok 2 0 ltac:(done) ltac:(lia) m1 3 7 1 Hm1 ltac:(done) ltac:(done) ltac:(lia)) as (m2 & E2 & Hm2 & M2 & I2 & _); [cbn; intros j; rewrite Hfree; done|].
  destruct (set_index_ok 2 0 m2 3 1 Hm2 ltac:(done)) as (m3 & E3 & Hm3 & M3 & I3 & _).
  exists m3. split.
  { split; [done|]. split; [by rewrite I3|]. rewrite !M3, !M2, M1. done. }
  assert (∀ m o m', record_pre 2 0 m o → record_run o m = Some m' → step 2 0 F (mk_mst (set_map m s) pc tv w ∅ ∅) (mk_mst (set_map m' s) pc tv w ∅ ∅)) as Hstep.
  { intros m o m' Hp E. apply (step_record 2 0 F (mk_mst (set_map m s) pc tv w ∅ ∅) o m' Hp); [intros x c Hx; cbn in Hx; by rewrite lookup_empty in Hx..|done]. }
  replace s with (set_map (fd_map s) s) at 1 by by destruct s.
  eapply rtc_l; [apply (Hstep _ (RCreate 3 3 0) m1); [done|done]|]. eapply rtc_l; [apply (Hstep _ (RCreate 3 7 1) m2); [|done]|].
  - split; [done|]. split; [done|]. split; [lia|]. cbn. intros j. rewrite Hfree. done.
  - eapply rtc_l; [apply (Hstep _ (RIndex 3 1) m3); [done|done]|]. done.
Qed.

(** The entry of the call asks module 1 for its descriptor 7, and nothing else. *)
Record asks7 (e : select_entry) : Prop := {
  a7_shape : shape e;
  a7_zero : cnt e 0 = 0;
  a7_bit : cbit e 1 Rd 7 = true;
  a7_count : 7 < cnt e 1
}.

Lemma split_asks7 m m' e : bound m → split_entry 2 0 m m' 4 wish e → asks7 e ∧ route 0 m' 3 = (1, 7).
Proof.
  intros Hb [Hm' Hk Hc Hsp _ _]. assert (route 0 m' 3 = (1, 7)) as R by (rewrite <- (bound_route m Hb); apply Hk).
  assert (cbit e 1 Rd 7 = true) as Hbit by (apply (sp_bits _ _ _ _ _ Hsp); exists 3; rewrite wish_asked, R; done).
  split; [|done]. split; [apply Hsp| |done|by apply (co_bit e Hc) in Hbit].
  pose proof (co_range e Hc 0). destruct (decide (cnt e 0 = 0)); [done|]. exfalso.
  destruct (co_some e Hc 0) as (k & f & (c & ->%wish_asked & _ & E)%(sp_bits _ _ _ _ _ Hsp)); [lia|]. rewrite R in E. done.
Qed.

Lemma not_base m : route 0 m 3 = (1, 7) → ¬ all_of 0 m wish 4 0.
Proof. intros R [Ha _]. specialize (Ha 3 (proj2 (wish_asked 3) eq_refl)). rewrite R in Ha. done. Qed.

Lemma asks7_at e : asks7 e → ∃ c0 c1, aread (cb e) 0 = Some c0 ∧ aread (cb e) 1 = Some c1 ∧ count c0 = 0 ∧ 0 < count c1 ∧ bit (tget Rd (sets c1)) 7 = true.
Proof.
  intros [Hs H0 Hb H7]. destruct (shape_cb e 0 Hs) as (c0 & E0 & _); [done|]. destruct (shape_cb e 1 Hs) as (c1 & E1 & _); [done|].
  exists c0, c1. unfold cnt, cbit in *. rewrite E0 in H0. rewrite E1 in Hb, H7. do 3 (split; [done|]). split; [lia|done].
Qed.

(** The scan of the call with modules that report everything, and with modules that report later. *)
Lemma scan_all e : asks7 e → ∃ R, scan_answers 2 all_ready (λ _, true) e tt = (R, None, tt) ∧ R Rd 1 7 = true.
Proof.
  intros (c0 & c1 & E0 & E1 & H0 & H1 & Hb)%asks7_at. unfold scan_answers. change (Z.to_nat 2) with 2%nat. cbn [scan_memory andb ask_modules all_ready]. change (0 + 1) with 1.
  rewrite E0, E1, H0. rewrite (proj2 (Z.ltb_lt 0 (count c1))) by done. cbn [Z.ltb Z.compare]. eexists. split; [done|]. cbn -[bit tget]. by rewrite Hb.
Qed.
Lemma scan_late e : asks7 e → ∃ R, scan_answers 2 late (λ _, true) e false = (R, None, true) ∧ ∀ k y g, R k y g = false.
Proof.
  intros (c0 & c1 & E0 & E1 & H0 & H1 & Hb)%asks7_at. unfold scan_answers. change (Z.to_nat 2) with 2%nat. cbn [scan_memory andb ask_modules late]. change (0 + 1) with 1.
  rewrite E0, E1, H0. rewrite (proj2 (Z.ltb_lt 0 (count c1))) by done. cbn [Z.ltb Z.compare]. eexists. split; [done|]. intros k y g. cbn -[bit tget]. by rewrite andb_false_r.
Qed.

(** One round of the thread for one waiting call. *)
Lemma late_round ms x e c : minv 2 0 ms → m_pc ms = TStart → m_world ms = true → (∀ y, is_Some (entries (m_sel ms) !! y) → y = x) → entries (m_sel ms) !! x = Some e → asks7 e → m_calls ms !! x = Some c →
  ∃ ms' c', rtc (step 2 0 late) ms ms' ∧ m_pc ms' = TStart ∧ fd_map (m_sel ms') = fd_map (m_sel ms) ∧ m_calls ms' !! x = Some c' ∧
  c_req c' = c_req c ∧ c_nfds c' = c_nfds c ∧ c_fail c' = c_fail c ∧ c_got c' Rd (1, 7).
Proof.
  intros Hi Hp Hw Hone Ex [_ H0 Hbit H7] Ec. destruct ms as [s p t w calls bs]. cbn in Hp, Hw, Hone, Ex, Ec |- *. subst p w.
  assert (∀ p t, p ≠ TPost → pc_ok 2 p → minv 2 0 (mk_mst s p t true calls bs)) as Hat.
  { intros p t1 Hpo Hok. apply (minv_pc 2 0 (mk_mst s TStart t true calls bs)); try done. destruct p; cbn in *; lia. }
  assert (∃ h, entry_head s = Some h) as [h Eh].
  { destruct (mi_list _ _ _ Hi) as (l & Hl & Hin). cbn in Hl, Hin. destruct l as [|h l]; [by destruct (not_elem_of_nil x); apply Hin; eauto|]. exists h. exact (dl_head _ _ _ _ Hl). }
  destruct (get_fdset_run 2 0 late ltac:(done) ltac:(lia) late_sizes (mk_mst s (TGet 0) t true calls bs) 0 (Hat (TGet 0) t ltac:(done) ltac:(cbn; lia)) eq_refl) as (n0 & a0 & l0 & E0 & _ & _ & Hl0 & _ & Hn0 & _). cbn in E0, Hl0, Hn0.
  assert (n0 = 0) as -> by (destruct Hn0 as [|(y & ey & Hy & Ey & <-)]; [done|]; assert (y = x) as -> by eauto; congruence).
  destruct (get_fdset_run 2 0 late ltac:(done) ltac:(lia) late_sizes (mk_mst s (TGet 1) t true calls bs) 1 (Hat (TGet 1) t ltac:(done) ltac:(cbn; lia)) eq_refl) as (n & a & l & E1 & Hn & Ha & Hl & Hcov & _ & Hbits). cbn in E1, Hl, Hcov, Hbits.
  assert (7 < n) as Hn7 by (specialize (Hcov x e ltac:(apply Hl; eauto) Ex); lia).
  assert (bit (tget Rd a) 7 = true) as Hb7 by (apply Hbits; exists x, e; split; [apply Hl; eauto|]; split; [done|]; split; [lia|done]).
  pose proof (Hat (TSet 1 n a 0) t ltac:(done) ltac:(split; [lia|]; split; [lia|done])) as Hi3.
  destruct (thread_run 2 0 late ltac:(done) ltac:(lia) late_sizes _ Hi3 ltac:(done)) as (p4 & t4 & s4 & w4 & E3 & Hi4). cbn in Hi4, E3.
  assert (p4 = TPost ∧ fd_map s4 = fd_map s) as [-> Em4].
  { unfold select_thread_set_fdset, all_entries in E3. destruct (for_entries _ _ _ _ _) as [[[] m4]|]; [|done]. cbn in E3. destruct (Z.ltb_spec n 0); [lia|]. by injection E3 as <- _ <- _. }
  destruct (thread_run 2 0 late ltac:(done) ltac:(lia) late_sizes _ Hi4 ltac:(done)) as (p5 & t5 & s5 & w5 & E4 & Hi5). cbn in Hi5, E4.
  assert (p5 = TStart ∧ fd_map s5 = fd_map s4) as [-> Em5].
  { unfold select_event_post, all_entries in E4. destruct (for_entries _ _ _ _ _) as [[[] m5]|]; [|done]. cbn in E4. by injection E4 as <- _ <- _. }
  exists (mk_mst s5 TStart t5 w5 (map_imap (credit s 1 n a 0) calls) bs), (credited 1 n a 0 e c). split.
  - eapply rtc_l; [apply (step_thread 2 0 late (mk_mst s TStart t true calls bs) (TGet 0) t s true); cbn; by rewrite Eh|]. cbn.
    eapply rtc_l; [apply (step_thread 2 0 late (mk_mst s (TGet 0) t true calls bs) (TGet 1) t s true); cbn; by rewrite E0|]. cbn.
    eapply rtc_l; [apply (step_thread 2 0 late (mk_mst s (TGet 1) t true calls bs) (TSet 1 n a 0) t s true); cbn; rewrite E1; cbn; by rewrite (proj2 (Z.leb_gt n 0)) by lia|]. cbn.
    eapply rtc_l; [by apply (step_thread 2 0 late (mk_mst s (TSet 1 n a 0) t true calls bs) TPost t4 s4 w4)|]. cbn.
    eapply rtc_l; [by apply (step_thread 2 0 late (mk_mst s4 TPost t4 w4 (map_imap (credit s 1 n a 0) calls) bs) TStart t5 s5 w5)|]. done.
  - cbn. split; [done|]. split; [congruence|]. split; [rewrite map_lookup_imap, Ec; cbn; unfold credit; by rewrite Ex|].
    unfold credited. rewrite (proj2 (Z.ltb_lt 0 (cnt e 1))) by lia. rewrite (proj2 (Z.ltb_ge n 0)) by lia. cbn. do 3 (split; [done|]). right. split; [done|]. split; [lia|done].
Qed.

(** A call for descriptor 3 that waits, alone. *)
Lemma late_waits s : bound (fd_map s) → inited s = true → default_mod s = 0 → entries s = ∅ → entry_head s = None → entry_tail s = None →
  ∃ s1 m1 e1, nstack_select_begin 2 0 late (Some 100) (λ _, true) 4 wish None 0 s false = Some (SelWait, 0, s1, true) ∧ fd_map s1 = m1 ∧ route 0 m1 3 = (1, 7) ∧
  (∀ y, is_Some (entries s1 !! y) → y = 100) ∧ entries s1 !! 100 = Some e1 ∧ asks7 e1.
Proof.
  intros Hb Hin Hdef He Hh Ht. assert (request 2 0 s 4 wish None) as Hq by (destruct (bound_request (fd_map s) None Hb eq_refl I); by constructor).
  destruct (select_begin_run 2 0 late ltac:(done) ltac:(lia) late_sizes s 4 wish None 100 0 (λ _, true) false Hq) as (m1 & e & _ & Hsp & Hbase & Hrun).
  destruct (split_asks7 _ _ _ Hb Hsp) as [Ha R]. destruct (scan_late e Ha) as (A & EA & HA). rewrite Hdef in Hbase, Hrun.
  destruct ((set_num e <=? 1) && (info_index e =? 0)); [by destruct (not_base m1 R); apply Hbase|]. rewrite EA in Hrun. destruct Hrun as (rd & Hrd & Hri & ->).
  assert (readyset rd = 0) as ->.
  { assert (∀ k, nbits (tget k (sets (ready (set_ready rd e)))) = 0) as HZ.
    { intros k. apply nbits_none. intros n. destruct (bit _ n) eqn:Eb; [|done]. exfalso. apply (ri_bits _ _ _ _ _ _ Hri k n) in Eb as (_ & _ & Eb). by rewrite HA in Eb. }
    change rd with (ready (set_ready rd e)). rewrite (ri_count _ _ _ _ _ _ Hri). unfold total. pose proof (HZ Rd) as Z1. pose proof (HZ Wr) as Z2. pose proof (HZ Ex) as Z3. cbn [tget] in *. lia. }
  cbn [Z.eqb negb orb zero_time]. destruct (add_cb_run (set_entries (<[100 := set_ready rd e]> (entries s)) (set_map m1 s)) [] 100 (set_ready rd e)) as (s1 & -> & (Hbd & _ & _ & Hm1) & _); [| |by apply lookup_insert_eq|].
  { constructor; cbn; [constructor|by rewrite Hh|by rewrite Ht|done]. }
  { apply not_elem_of_nil. }
  exists s1, m1. cbn [mbind option_bind].
  assert (∀ y ey, entries s1 !! y = Some ey → y = 100 ∧ body ey = body (set_ready rd e)) as Hone.
  { intros y ey Ey. destruct (body_lookup _ _ y ey Hbd Ey) as (e0 & E0 & Hbe). cbn in E0. rewrite He in E0. apply lookup_insert_Some in E0 as [[<- <-]|[_ E0]]; [done|]. by rewrite lookup_empty in E0. }
  destruct (proj2 (body_dom _ _ 100 Hbd)) as [e1 E1]; [cbn; rewrite lookup_insert_eq; eauto|]. destruct (Hone _ _ E1) as [_ Hbe].
  exists e1. split; [done|]. split; [done|]. split; [done|]. split; [by intros y [ey Ey]; eapply Hone|]. split; [done|].
  destruct e as [a b n q sm i v], e1 as [a' b' n' q' sm' i' v']. injection Hbe as -> -> -> -> ->. destruct Ha as [[S1 S2 S3] Z0 Bt Ct]. constructor; [|done..]. by constructor.
Qed.

(** From the initialisation: the records of descriptor 3, a call that waits for it, and a round of the thread. *)
Lemma late_run : ∃ s0 ms c, select_module_init 2 0 (λ _, true) true (with_map blank) = Some (TRUE, s0) ∧ rtc (step 2 0 late) (mk_mst s0 TStart (0, 0) false ∅ ∅) ms ∧
  m_pc ms = TStart ∧ m_calls ms !! 100 = Some c ∧ c_req c = wish ∧ c_nfds c = 4 ∧ c_fail c = None ∧ c_got c Rd (1, 7) ∧ route 0 (fd_map (m_sel ms)) 3 = (1, 7).
Proof.
  destruct (fdmapping_run 2 0 (λ _, true) ltac:(done) ltac:(lia) ltac:(done) blank eq_refl) as (m & Em & Hm & Hrows).
  assert (select_module_init 2 0 (λ _, true) true (with_map blank) = Some (TRUE, with_map m)) as E by (unfold select_module_init; cbn [fd_map with_map]; rewrite Em; exact eq_refl). clear Em.
  destruct (init_minv 2 0 (λ _, true) (with_map blank) (with_map m) (0, 0) false ltac:(done) ltac:(lia) ltac:(done) eq_refl eq_refl E) as [Hi0 _].
  destruct (records_bound late (with_map m) TStart (0, 0) false Hm Hrows) as (m1 & Hb & Hrun1). set (s1 := set_map m1 (with_map m)) in *.
  pose proof (select_run_inv 2 0 late ltac:(done) ltac:(lia) late_sizes _ _ Hi0 Hrun1) as Hi1.
  destruct (late_waits s1 Hb eq_refl eq_refl eq_refl eq_refl eq_refl) as (s2 & m2 & e & Eb & Em2 & R & Hone & Ee & Ha).
  assert (request 2 0 s1 4 wish None) as Hq by (destruct (bound_request m1 None Hb eq_refl I); by constructor).
  destruct (alone_steps 2 0 late ltac:(lia) (λ _, true) 100 4 wish None 0 SelWait 0 s2 true _ Hi1 Hq eq_refl eq_refl Eb) as (b & Hr & Hn & Hrun2).
  pose proof (select_run_inv 2 0 late ltac:(done) ltac:(lia) late_sizes _ _ Hi1 Hrun2) as Hi2.
  destruct (late_round _ 100 e (mk_call wish 4 none None) Hi2 eq_refl eq_refl Hone Ee Ha) as (ms & c & Hrun3 & Hp & Hfd & Ec & Hc1 & Hc2 & Hc3 & Hg).
  { cbn. rewrite Hr, Hn. apply lookup_insert_eq. }
  exists (with_map m), ms, c. split; [exact E|]. split; [by etrans; [|etrans]|]. do 6 (split; [done|]). cbn in Hfd. by rewrite Hfd, Em2.
Qed.

End Demo.

Lemma select_poll_exact_witness : ∃ m ret r' s', request 2 0 (Demo.with_map m) 4 Demo.wish (Some (0, 0)) ∧
  nstack_select_begin 2 0 Demo.all_ready (Some 100) (λ _, true) 4 Demo.wish (Some (0, 0)) 0 (Demo.with_map m) tt = Some (SelDone ret r', 0, s', tt) ∧ ret = result_count r' ∧ req r' Rd 3 = true.
Proof.
  destruct (fdmapping_run 2 0 (λ _, true) ltac:(done) ltac:(lia) ltac:(done) Demo.blank eq_refl) as (m0 & _ & Hm & Hrows).
  destruct (Demo.records_bound Demo.all_ready (Demo.with_map m0) TStart (0, 0) tt Hm Hrows) as (m & Hb & _).
  pose proof (Demo.bound_request m (Some (0, 0)) Hb eq_refl ltac:(by eexists)) as Hq.
  destruct (select_poll_exact 2 0 Demo.all_ready (Demo.with_map m) 4 Demo.wish (Some (0, 0)) 100 0 (λ _, true) tt ltac:(done) ltac:(lia) Demo.all_ready_sizes Hq) as (m' & e & E & _ & _ & [[Ha _]|[_ Hrun]]).
  - destruct (Demo.not_base m (Demo.bound_route m Hb) Ha).
  - destruct (select_begin_run 2 0 Demo.all_ready ltac:(done) ltac:(lia) Demo.all_ready_sizes (Demo.with_map m) 4 Demo.wish (Some (0, 0)) 100 0 (λ _, true) tt Hq) as (m1 & e1 & E1 & Hsp & _).
    change (fd_map (Demo.with_map m)) with m in E, E1. rewrite E in E1. injection E1 as <- <-. destruct (Demo.split_asks7 _ _ _ Hb Hsp) as [H7 _]. destruct (Demo.scan_all e H7) as (R & ER & HR). rewrite ER in Hrun.
    destruct Hrun as (ret & r' & (Hret & _ & Hbits) & Hrun). rewrite orb_true_r in Hrun. exists m, ret, r', (set_map m' (Demo.with_map m)). split; [done|]. split; [exact Hrun|]. split; [done|].
    apply Hbits. split; [by apply Demo.wish_asked|]. split; [done|]. cbn [fd_map Demo.with_map]. by rewrite (Demo.bound_route m Hb).
Defined.

Lemma select_callers_served_witness : ∃ s0 ms, select_module_init 2 0 (λ _, true) true (Demo.with_map Demo.blank) = Some (TRUE, s0) ∧ rtc (step 2 0 Demo.late) (mk_mst s0 TStart (0, 0) false ∅ ∅) ms ∧
  ∃ e ret r' t' s', entries (m_sel ms) !! 100 = Some e ∧ 0 < sem e ∧ nstack_select_end 100 Demo.wish None 0 0 (m_sel ms) = Some (ret, r', t', 0, s') ∧ ret = result_count r' ∧ req r' Rd 3 = true.
Proof.
  destruct Demo.late_run as (s0 & ms & c & Einit & Hrun & Hp & Ec & Hr & Hn & Hf & Hg & R).
  destruct (select_callers_served 2 0 Demo.late (λ _, true) (Demo.with_map Demo.blank) s0 (0, 0) false ms ltac:(done) ltac:(lia) Demo.late_sizes ltac:(done) eq_refl eq_refl Einit Hrun) as (_ & _ & Hend & Hwoken).
  exists s0, ms. split; [exact Einit|]. clear Einit. split; [exact Hrun|]. destruct (Hwoken Hp 100 c Ec) as (e & Ee & Hsem).
  { right. exists Rd, 3. rewrite Hr, Hn, R. split; [by apply Demo.wish_asked|done]. }
  destruct (Hend 100 c None 0 0 Ec I) as (ret & r' & t' & errno' & s' & E & Hends). unfold ends_as in Hends. rewrite Hf, Hr, Hn in Hends. rewrite Hr in E. destruct Hends as [(Hret & _ & Hbits) ->].
  exists e, ret, r', t', s'. do 4 (split; [done|]). apply Hbits. split; [by apply Demo.wish_asked|]. split; [done|]. by rewrite R.
Defined.

Lemma select_frees_listed_entry_witness : ∃ s2, nstack_select_begin 2 0 Demo.none_ready (Some 100) (λ _, true) 2 Demo.want1 (Some (2 ^ 62, 0)) 0 (Demo.with_map Demo.small) tt = Some (SelDone (-1) Demo.want1, EINVAL, s2, tt) ∧
  entry_tail s2 = Some 100 ∧ entries s2 !! 100 = None.
Proof.
  destruct (nstack_select_begin 2 0 Demo.none_ready (Some 100) (λ _, true) 2 Demo.want1 None 0 (Demo.with_map Demo.small) tt) as [[[[[] errno] s1] []]|] eqn:E; [by vm_compute in E| by vm_compute in E| |by vm_compute in E].
  apply (select_frees_listed_entry 2 0 Demo.none_ready (λ _, true) 100 2 Demo.want1 (2 ^ 62, 0) 0 errno (Demo.with_map Demo.small) s1 tt tt); [reflexivity|reflexivity|exact E].
Defined.
